(* ===== verification/_CoqProject ===== *)
-Q . S2P
Prelude.v
Util.v
Keccak.v
Rlp.v
Ecdsa.v
Ethash.v
Account.v
Transaction.v
Block.v
HashBuilder.v
TrieCorrect.v
Chain.v
MemoryBuffer.v
Validity.v
IntraBlockState.v
StateCorrect.v
BlockState.v
Cache.v
Hashes.v
Precompiled.v
Evm.v
EvmCorrect.v
EvmTheorems.v
Supply.v
Processor.v
ProcessorCorrect.v
Blockchain.v
BlockchainCorrect.v
Etl.v
Bitmap.v
Lmdb.v
DbUtil.v
AccessLayer.v
Cbor.v
DbBuffer.v
DbBufferCorrect.v
History.v
DbTrie.v
Stages.v
StagesCorrect.v
HistoryIndex.v
HistoryIndexCorrect.v
HashState.v
HashStateCorrect.v
TgApi.v
Worker.v
Env.v
Senders.v
SendersCorrect.v
Checks.v
ChecksCorrect.v
Replay.v
Genesis.v
DbTool.v
