(* ===== verification/Prelude.v ===== *)
(** * Silkworm: a verification development (root)

    Silkworm executes the Ethereum chain: it decodes blocks, checks them, runs their transactions over a state of
    accounts and storage, writes the state to a database and keeps the Merkle Patricia roots, receipts and hashes
    that blocks commit to. This library models the C++ under src/core (the part that decides what the chain is),
    src/ethash (proof of work), the parts of src/db that transform data, and the programs that derive one table of
    the database from another (src/cmd, src/tg_api), and proves what makes them correct.

    ** How the parts interact

    [Blockchain::insert_block] checks a block by [pre_validate_block] (validity.cpp), unwinds the canonical chain
    and runs blocks by [execute_block] (execution.cpp), which runs each transaction by [ExecutionProcessor]
    (processor.cpp), which calls [EVM] (evm.cpp), which calls an interpreter of bytecode that calls back its host.
    All of these work on an [IntraBlockState] (intra_block_state.cpp), a cache with a journal over a [StateBuffer]
    (state/buffer.hpp); [MemoryBuffer] keeps a state in memory, [db::Buffer] gathers changes for the database.
    Blocks, receipts and the state are committed to by [HashBuilder] (hash_builder.cpp) over RLP and Keccak.
    Over the database the stages run one after the other: [silkworm_execute_blocks] (tg_api) executes a range of
    stored blocks and writes their changes; hashstate, blockhashes, tx_lookup, history_index and log_index (src/cmd)
    each scan a table from where they stopped, sort what they collect, load it into another and record their progress;
    check_senders does so with worker threads that recover the senders of transactions. Other programs write the genesis
    block, compare the tables with each other, execute blocks again, and copy, compact or empty a database.

    ** Files

    Each file opens with what it holds. In dependency order, with the code it models (src/core/silkworm unless
    another directory is named):

    - Prelude: notations, machine integers, the result monad, byte-order conversions, shared lemmas and hints.
    - Util: common/ (hexadecimal, padding, views, prefixes, endian loads, sizes).
    - Keccak: src/ethash/ethash/keccak.cpp. Rlp: rlp/. Ecdsa: crypto/ecdsa.cpp.
    - Ethash: src/ethash/ethash/ethash.cpp (epochs, light cache, dataset items, verification of seals).
    - Account, Transaction, Block: types/ (data, codecs, hashes, bloom filters).
    - HashBuilder, TrieCorrect: trie/. The builder keeps its stack and masks as the class does; TrieCorrect
      simulates it by a recursive reference trie.
    - Chain: chain/config.cpp, difficulty.cpp, intrinsic_gas.cpp.
    - MemoryBuffer: state/buffer.hpp as the class [StateBuffer], memory_buffer.cpp as its instance.
    - Validity: chain/validity.cpp with the specification of valid headers and blocks.
    - IntraBlockState, StateCorrect, BlockState: state/intra_block_state.cpp, delta.cpp; the views of a state,
      the inverse of every journal entry, the invariant of a block's state, and the writing back.
    - Cache: common/lru_cache.hpp, execution/analysis_cache.cpp, state_pool.cpp.
    - Hashes, Precompiled: crypto/sha-256.c, rmd160.c, blake2b-ref.c, snark.cpp and execution/precompiled.cpp.
    - Evm, EvmCorrect, EvmTheorems: execution/evm.cpp, address.cpp.
    - Supply, Processor, ProcessorCorrect: execution/processor.cpp, execution.cpp, chain/dao.cpp.
    - Blockchain, BlockchainCorrect: chain/blockchain.cpp.
    - Etl: src/db/silkworm/etl (the external sort). Bitmap: src/db/silkworm/db/bitmap.cpp.
    - Lmdb: src/db/silkworm/db (chaindb.hpp, chaindb.cpp, tables.hpp, tables.cpp): tables as sets of key and data
      pairs behind the class [Lmdb], transactions, the wrappers of cursors, the names of all tables.
    - DbUtil: db/util.cpp and db/stages.cpp (keys, stored bodies, stages). AccessLayer: db/access_layer.cpp.
    - Cbor: types/log_cbor.cpp, types/receipt_cbor.cpp. DbBuffer: db/buffer.cpp. DbBufferCorrect: the rows that a
      written buffer leaves in the tables. History: change sets and reads of the past. DbTrie: trie/db_trie.cpp.
    - Stages, StagesCorrect: src/cmd/blockhashes.cpp and tx_lookup.cpp, the scans, loads and ends that all stages have.
    - HistoryIndex, HistoryIndexCorrect: src/cmd/history_index.cpp and log_index.cpp. HashState, HashStateCorrect:
      src/cmd/hashstate.cpp.
    - TgApi: src/tg_api/silkworm_tg_api.cpp and the loop of src/cmd/execute.cpp.
    - Worker: common/worker.hpp, worker.cpp. Senders, SendersCorrect: src/cmd/check_senders.cpp, the recovery of the
      senders by worker threads.
    - Env: environments, the transactions of each thread and the catalogue of environments (db/chaindb.cpp).
    - Checks, ChecksCorrect: src/cmd/check_blockhashes.cpp, check_tx_lookup.cpp, check_hashstate.cpp, check_pow.cpp and
      extract_headers.cpp. Replay: check_changes.cpp and scan_txs.cpp, which execute stored blocks again.
    - Genesis: initialize_with_genesis.cpp. DbTool: dbtool.cpp (clear, compact, copy).

    ** How state and operations are modelled

    A class is a [Record] of its members; a member function is a function from the object to the object and the
    result. [mutable] members and static variables are part of the state that is passed. Errors that the code
    returns or throws are values: [result E A] is [Ok], [Err] with the code's own error, or [Undef] for what C++
    leaves undefined (a failed assertion, an access outside a container, a dereferenced absent optional). Theorems
    about an operation therefore say that it is not [Undef], or exhibit the input on which it is. Integers of the
    machine are [Z] with the wrap-around of their width written out ([u8], [u32], [u64], [u256], ...); a byte is a
    [Z] in [0, 256), a [Bytes] or [ByteView] a list of them. Maps whose order is not observed are [gmap]; where a
    loop observes an order (sorted maps, sets) the model uses the sorted list.

    ** Code outside the repository

    These are classes of operations, with what their documentation promises as separate classes of laws; a
    theorem that needs laws takes them as a hypothesis, and its witness instantiates them:
    libsecp256k1 (Ecdsa, Precompiled), GMP and libff (Precompiled), the JSON library (Chain, Genesis), numbers in text
    and memory by intx (Genesis), base64 (Checks), the interpreters of
    bytecode behind EVMC (Evm: a run is a tree of host calls), the analysis of code (Cache), CRoaring (Bitmap),
    LMDB (Lmdb: a table is its set of pairs, a cursor is the pair it is at; DbTool: the sizes of tables in pages) and cborcpp (Cbor: the bytes of a
    sequence of calls; HistoryIndex: the byte strings in an input).

    ** What the theorems show

    - Commitments: the streaming builder computes the root of the recursive trie ([TrieCorrect.root_hash_correct]);
      the word-streaming keccak is the sponge; RLP, transactions, headers, bodies and accounts are decoded back
      from their encodings, and what is signed determines the transaction.
    - State: every operation of a block's state is undone by its journal ([StateCorrect.revert_restores]), the end
      of a transaction does what it should, and what is written is what the getters answer.
    - Execution: failed calls leave no trace, executions end within their gas, no ether is created beyond the
      rewards, the gas of a block is accounted for, and a block is only written if its results agree with its
      header.
    - Consensus: [pre_validate_block] accepts every block that is valid as the Yellow Paper and the EIPs say, and no
      other but for a signature with one part at or above the order of the group ([Validity.signature_outside_group]);
      difficulty, with the delays of the EIPs, and intrinsic gas are the unbounded formulas; the seal is checked against the epoch of the block.
    - Choice between forks: the canonical chain is linked and heaviest after any insertions, and a rejected block
      changes no account and no storage; if it is rejected for its state root, when it was written already, this takes
      that its writes can be unwound ([BlockchainCorrect.unwindable]).
    - Database side: the external sort sorts, whatever it spills to files; what a buffer
      gathered is what a new buffer reads from the tables it was written to, but for the hash of a code that is gone
      ([DbBufferCorrect.old_code_hash_read]); change sets are
      read back, and a historical read answers the state of its time ([History]); keys order as their parts;
      stored bodies and trie nodes are decoded back.
    - Stages: the node's entry point writes the tables exactly when it answers success, and what it writes is the
      result of the blocks it reports ([TgApi.execute_blocks_writes]), but the last batch of a chain is not written
      ([TgApi.last_batch_lost]); the index that history_index builds is one that historical reads are right over, as
      long as the blocks of an account fit into one chunk ([HistoryIndexCorrect.history_index_extends]), since a bitmap that
      does not loses its greatest number ([Bitmap.cut_left_correct]); blockhashes turns the canonical hashes around
      ([StagesCorrect.blockhashes_correct]); what hashstate writes for storage is not found by the loader of the
      tries ([HashStateCorrect.promote_clean_state_correct]).
    - Threads: a stop ends a worker that has begun ([Worker.stop_ends]); whatever the schedule of the workers, the
      senders of the range are collected in the order of the blocks, and all of them if all batches were signalled
      ([SendersCorrect.senders_in_order]), though some schedules
      lose batches ([SendersCorrect.ready_results_lost]) or end in a null pointer.
    - Around the database: the counts of the transactions of each thread are exact and keep their limits
      ([Env.transactions_counted]), the environments of a path are shared ([Env.get_env_shares]); a written genesis block
      is read back, but for its total difficulty ([Genesis.genesis_readable]); a copy has the rows of its source
      ([DbTool.copy_correct]); the checks report what differs ([ChecksCorrect.check_blockhashes_correct]), and the check of
      the hashed state less than it means to ([ChecksCorrect.check_hashstate_correct]).

    ** Fuel

    Loops whose end is not structural take fuel; when it runs out they answer [Undef], an error of their own or a
    default, and the theorems show that the fuel given is enough. [Evm.execute] takes one unit per frame, and the
    1025 of [kCallFuel] are enough as calls nest to a depth of 1024 ([EvmTheorems.evm_execute_total]);
    [HashBuilder.gen_struct_loop] one per nibble of the key; [Blockchain.canonical_ancestor_loop] one per block
    below; [Rlp.decode_items] one per byte of the payload, as every item takes at least one; [Etl.merge_loop] one
    per entry collected; the loops over a table as many as it has rows ([AccessLayer.rows]); the loops of Keccak,
    SHA-256 and Ethash one per block of input or number below the bound. [Bitmap.cutting_point] has 64
    rounds, a 64-bit search space halved each time. [TgApi.blocks_loop] has one round more than there are
    canonical hashes, as every round finds another one ([TgApi.blocks_loop_ends]); [HistoryIndex.chunk_loop] has one
    per value of the bitmap, as every cut takes one away; [TgApi.execute_stage] gives
    its loop one round more than there are canonical hashes too, as every round that goes on executes a block.
    [Replay.changes_loop] and [Replay.scan_loop] have one round per block of their range ([Replay.changes_loop_ends],
    [Replay.scan_loop_ends]), [DbTool.copy_rows] one per row of the source.
    The loops of Senders that wait for other threads have a round per element of the schedule; when it ends they are
    [Pending], which no theorem counts as an end.

    ** Not modelled, and why

    - Threads, but for the workers: a critical section of Worker and Senders is one step, between steps any thread may
      move (a relation in Worker, a schedule in Senders); mutexes are held for whole operations elsewhere (Cache), and a
      processor belongs to one thread. The memory model of C++ is not modelled: accesses are in one order.
    - Input and output: logging, temporary directories, the arguments, paths and log lines of the programs of
      src/cmd, the C interface of src/wasm, the commands of dbtool that only list, the program that measures precompiled
      contracts and the driver of the JSON tests of consensus (cmd/consensus.cpp).
    - Memory exhaustion, and time.
    - Curve arithmetic, big-number exponentiation, JSON text and compressed bitmaps, which are libraries' (above).
    - The file system under the external sort; a file is its bytes.
    - magic_enum.hpp, which is vendored.
    - Of the database: a transaction is its tables where it is used; its life in its environment is in Env. What other
      processes do is not seen but as a map that was resized, and a commit succeeds. The readers of [db::Buffer] are
      noexcept, so an exception of the database under them ends the process; where an execution reads through them
      ([TgApi.DbState]) the model answers as for something absent then.
*)

From stdpp Require Export base tactics option list numbers gmap fin_maps sets.
From Stdlib Require Export ZArith Lia.

(** ** Scopes and notations *)

Declare Scope silk_scope.
Delimit Scope silk_scope with silk.

(** A C++ [Bytes] / [ByteView]: a list of octets, each a [Z] in [0, 256). *)
Notation bytes := (list Z).

(** [size_t] length of a byte string. *)
Notation zlen l := (Z.of_nat (length l)).

Local Open Scope Z_scope.

(** ** Machine integers

    A [w]-bit unsigned integer is a [Z] in [0, 2^w); arithmetic wraps. *)
Definition wrap (w x : Z) : Z := x mod 2 ^ w.
Definition u8 (x : Z) : Z := wrap 8 x.
Definition u16 (x : Z) : Z := wrap 16 x.
Definition u32 (x : Z) : Z := wrap 32 x.
Definition u64 (x : Z) : Z := wrap 64 x.
Definition u128 (x : Z) : Z := wrap 128 x.
Definition u256 (x : Z) : Z := wrap 256 x.

(** [static_cast<int64_t>] of a 64-bit value. *)
Definition i64 (x : Z) : Z := let y := u64 x in if y <? 2 ^ 63 then y else y - 2 ^ 64.

(** Number of leading zero bits of a [w]-bit value ([intx::clz], with [clz(0) = w]). *)
Definition clz (w x : Z) : Z := if x =? 0 then w else w - (Z.log2 x + 1).

Definition byte_ok (b : Z) : Prop := 0 <= b < 256.
Notation bytes_ok l := (Forall byte_ok l).

(** ** Big-endian byte strings *)

(** The [n] low-order bytes of [x], most significant first. *)
Fixpoint to_be (n : nat) (x : Z) : bytes :=
  match n with
  | O => []
  | S n' => to_be n' (x / 256) ++ [x mod 256]
  end.

(** The number a big-endian byte string denotes. *)
Definition of_be (l : bytes) : Z := foldl (fun acc b => acc * 256 + b) 0 l.

(** Little-endian counterparts. *)
Definition to_le (n : nat) (x : Z) : bytes := rev (to_be n x).
Definition of_le (l : bytes) : Z := of_be (rev l).

(** Number of bytes of the shortest big-endian form. *)
Definition be_len (x : Z) : nat := Z.to_nat (if x =? 0 then 0 else Z.log2 x / 8 + 1).

(** [left_zeros n] is a zero-initialised C array of [n] bytes. *)
Definition zero_bytes (n : nat) : bytes := replicate n 0.

(** ** Results of fallible code

    [Undef] is an execution the C++ standard leaves undefined (an access outside a view). *)
Inductive result (E A : Type) : Type :=
| Ok (a : A)
| Err (e : E)
| Undef.
Arguments Ok {E A} a.
Arguments Err {E A} e.
Arguments Undef {E A}.

Definition result_bind {E A B : Type} (m : result E A) (f : A -> result E B) : result E B :=
  match m with
  | Ok a => f a
  | Err e => Err e
  | Undef => Undef
  end.

Definition is_Ok {E A : Type} (m : result E A) : bool :=
  match m with Ok _ => true | _ => false end.

Notation "'try' x := m 'in' k" := (result_bind m (fun x => k))
  (at level 200, x pattern, m at level 100, k at level 200, right associativity) : silk_scope.

(** ** Automation *)

Create HintDb silk.

(** Case analysis on the discriminee of the first [match] or [if] of the goal or of [H]. *)
Ltac case_goal :=
  match goal with
  | |- context [match ?x with _ => _ end] => let E := fresh "E" in destruct x eqn:E
  end.
Ltac case_in H :=
  match type of H with
  | context [match ?x with _ => _ end] => let E := fresh "E" in destruct x eqn:E
  end.

(** Turn boolean comparisons of the context into propositions. *)
Ltac b2p :=
  repeat match goal with
  | H : (_ && _)%bool = true |- _ => apply andb_true_iff in H; destruct H
  | H : (_ || _)%bool = false |- _ => apply orb_false_iff in H; destruct H
  | H : negb _ = true |- _ => apply negb_true_iff in H
  | H : negb _ = false |- _ => apply negb_false_iff in H
  | H : (_ <? _) = true |- _ => apply Z.ltb_lt in H
  | H : (_ <? _) = false |- _ => apply Z.ltb_ge in H
  | H : (_ <=? _) = true |- _ => apply Z.leb_le in H
  | H : (_ <=? _) = false |- _ => apply Z.leb_gt in H
  | H : (_ =? _) = true |- _ => apply Z.eqb_eq in H
  | H : (_ =? _) = false |- _ => apply Z.eqb_neq in H
  | H : (_ >? _) = true |- _ => rewrite Z.gtb_ltb in H
  | H : (_ >? _) = false |- _ => rewrite Z.gtb_ltb in H
  | H : (_ >=? _) = true |- _ => rewrite Z.geb_leb in H
  | H : (_ >=? _) = false |- _ => rewrite Z.geb_leb in H
  end.

(** Decide the integer tests of the goal, closing impossible branches. *)
Ltac zif :=
  repeat match goal with
  | |- context [if ?x <? ?y then _ else _] => destruct (Z.ltb_spec x y); try (exfalso; lia)
  | |- context [if ?x <=? ?y then _ else _] => destruct (Z.leb_spec x y); try (exfalso; lia)
  | |- context [if ?x =? ?y then _ else _] => destruct (Z.eqb_spec x y); try (exfalso; lia)
  | |- context [if (?x <? ?y)%nat then _ else _] => destruct (Nat.ltb_spec x y); try (exfalso; lia)
  | |- context [if (?x <=? ?y)%nat then _ else _] => destruct (Nat.leb_spec x y); try (exfalso; lia)
  | |- context [if (?x =? ?y)%nat then _ else _] => destruct (Nat.eqb_spec x y); try (exfalso; lia)
  end.

(** ** Lemmas on machine integers *)

Lemma wrap_small w x : 0 <= x < 2 ^ w -> wrap w x = x.
Proof. intros H. by apply Z.mod_small. Qed.

Lemma wrap_range w x : 0 <= w -> 0 <= wrap w x < 2 ^ w.
Proof. intros H. apply Z.mod_pos_bound, Z.pow_pos_nonneg; lia. Qed.

Lemma u8_small x : 0 <= x < 256 -> u8 x = x.
Proof. intros H. apply wrap_small. exact H. Qed.

Lemma u64_small x : 0 <= x < 2 ^ 64 -> u64 x = x.
Proof. apply wrap_small. Qed.

Lemma u128_small x : 0 <= x < 2 ^ 128 -> u128 x = x.
Proof. apply wrap_small. Qed.

Lemma u256_small x : 0 <= x < 2 ^ 256 -> u256 x = x.
Proof. apply wrap_small. Qed.

Lemma u8_range x : 0 <= u8 x < 256.
Proof. apply (wrap_range 8). lia. Qed.

Lemma u64_range x : 0 <= u64 x < 2 ^ 64.
Proof. apply wrap_range. lia. Qed.

Lemma u256_range x : 0 <= u256 x < 2 ^ 256.
Proof. apply wrap_range. lia. Qed.

Lemma u64_add_l x y : u64 (u64 x + y) = u64 (x + y).
Proof. apply Zplus_mod_idemp_l. Qed.

Lemma u64_add_r x y : u64 (x + u64 y) = u64 (x + y).
Proof. apply Zplus_mod_idemp_r. Qed.

(** Rewrites a wrapped term whose argument is in range. *)
Ltac unwrap :=
  repeat match goal with
  | |- context [u8 ?x] => rewrite (u8_small x) by lia
  | |- context [u64 ?x] => rewrite (u64_small x) by lia
  | |- context [u128 ?x] => rewrite (u128_small x) by lia
  | |- context [u256 ?x] => rewrite (u256_small x) by lia
  end.

#[export] Hint Resolve u8_range u64_range u256_range : silk.

(** ** Deciding [bytes_ok] *)

Lemma bytes_okb_ok l : forallb (fun b => (0 <=? b) && (b <? 256)) l = true -> bytes_ok l.
Proof.
  intros H. apply Forall_forall. intros b Hb. rewrite forallb_forall in H.
  apply list_elem_of_In in Hb. specialize (H b Hb). b2p. done.
Qed.

(** Closes [bytes_ok l] for a concrete [l]. *)
Ltac bytes_dec := apply bytes_okb_ok; vm_compute; reflexivity.

(** ** Lemmas on big-endian strings *)

Lemma length_to_be n x : length (to_be n x) = n.
Proof.
  revert x; induction n as [|n IH]; intros x; [done|].
  cbn. rewrite length_app, IH. cbn. lia.
Qed.

Lemma to_be_ok n x : bytes_ok (to_be n x).
Proof.
  revert x; induction n as [|n IH]; intros x; cbn; [constructor|].
  apply Forall_app; split; [apply IH|].
  constructor; [|constructor]. apply Z.mod_pos_bound; lia.
Qed.

Lemma of_be_snoc l b : of_be (l ++ [b]) = of_be l * 256 + b.
Proof. unfold of_be. by rewrite foldl_app. Qed.

Lemma of_be_app l1 l2 : of_be (l1 ++ l2) = of_be l1 * 256 ^ zlen l2 + of_be l2.
Proof.
  induction l2 as [|b l2 IH] using rev_ind.
  - rewrite app_nil_r. cbn. lia.
  - rewrite app_assoc, !of_be_snoc, IH, length_app. cbn [length].
    replace (Z.of_nat (length l2 + 1)) with (Z.succ (zlen l2)) by lia.
    rewrite Z.pow_succ_r by lia. ring.
Qed.

Lemma of_be_cons b l : of_be (b :: l) = b * 256 ^ zlen l + of_be l.
Proof. change (b :: l) with ([b] ++ l). rewrite of_be_app. cbn. lia. Qed.

Lemma of_be_bound l : bytes_ok l -> 0 <= of_be l < 256 ^ zlen l.
Proof.
  induction l as [|b l IH] using rev_ind; intros Hl.
  - cbn. lia.
  - apply Forall_app in Hl as [Hl Hb]. apply IH in Hl.
    inversion_clear Hb as [|? ? Hb' _]. unfold byte_ok in Hb'.
    rewrite of_be_snoc, length_app. cbn [length].
    replace (Z.of_nat (length l + 1)) with (Z.succ (zlen l)) by lia.
    rewrite Z.pow_succ_r by lia. lia.
Qed.

Lemma of_be_to_be n x : of_be (to_be n x) = x mod 256 ^ Z.of_nat n.
Proof.
  revert x; induction n as [|n IH]; intros x.
  - cbn. by rewrite Z.mod_1_r.
  - cbn [to_be]. rewrite of_be_snoc, IH, Nat2Z.inj_succ, Z.pow_succ_r by lia.
    rewrite (Z.rem_mul_r x 256) by lia. lia.
Qed.

Lemma of_be_to_be_small n x : 0 <= x < 256 ^ Z.of_nat n -> of_be (to_be n x) = x.
Proof. intros H. rewrite of_be_to_be. by apply Z.mod_small. Qed.

Lemma to_be_of_be l : bytes_ok l -> to_be (length l) (of_be l) = l.
Proof.
  induction l as [|b l IH] using rev_ind; intros Hl; [done|].
  apply Forall_app in Hl as [Hl Hb]. inversion_clear Hb as [|? ? Hb' _].
  unfold byte_ok in Hb'.
  rewrite length_app, of_be_snoc. cbn [length].
  rewrite Nat.add_comm. cbn [to_be Nat.add].
  rewrite Z.div_add_l by lia. rewrite (Z.div_small b) by lia.
  rewrite Z.add_0_r, IH by done.
  rewrite Z.add_comm, Z.mod_add by lia. by rewrite Z.mod_small by lia.
Qed.

Lemma to_be_0 n : to_be n 0 = zero_bytes n.
Proof.
  induction n as [|n IH]; [done|].
  cbn [to_be]. rewrite Z.div_0_l, IH, Z.mod_0_l by lia.
  unfold zero_bytes. by rewrite <- replicate_cons_app.
Qed.

Lemma to_be_add m n x :
  0 <= x < 256 ^ Z.of_nat n -> to_be (m + n) x = zero_bytes m ++ to_be n x.
Proof.
  revert x; induction n as [|n IH]; intros x Hx.
  - rewrite Nat.add_0_r, app_nil_r. cbn in Hx.
    replace x with 0 by lia. apply to_be_0.
  - rewrite Nat.add_succ_r. cbn [to_be].
    rewrite IH, app_assoc; [done|].
    rewrite Nat2Z.inj_succ, Z.pow_succ_r in Hx by lia.
    split; [apply Z.div_pos; lia | apply Z.div_lt_upper_bound; lia].
Qed.

Lemma pow256 n : 0 <= n -> 256 ^ n = 2 ^ (8 * n).
Proof. intros H. rewrite Z.pow_mul_r by lia. done. Qed.

Lemma log2_div8_nonneg x : 0 <= Z.log2 x / 8.
Proof. apply Z.div_pos; [apply Z.log2_nonneg | lia]. Qed.

Lemma be_len_spec x : 0 <= x -> x < 256 ^ Z.of_nat (be_len x).
Proof.
  intros Hx. unfold be_len. destruct (Z.eqb_spec x 0) as [->|Hne]; [done|].
  pose proof (log2_div8_nonneg x). rewrite Z2Nat.id, pow256 by lia.
  apply Z.log2_lt_pow2; [lia|].
  pose proof (Z.mod_pos_bound (Z.log2 x) 8 ltac:(lia)). pose proof (Z.div_mod (Z.log2 x) 8 ltac:(lia)). lia.
Qed.

Lemma be_len_lower x : 0 < x -> 256 ^ (Z.of_nat (be_len x) - 1) <= x.
Proof.
  intros Hx. unfold be_len. destruct (Z.eqb_spec x 0) as [->|Hne]; [lia|].
  pose proof (log2_div8_nonneg x). rewrite Z2Nat.id by lia.
  replace (Z.log2 x / 8 + 1 - 1) with (Z.log2 x / 8) by lia.
  rewrite pow256 by lia.
  apply Z.log2_le_pow2; [lia|]. apply Z.mul_div_le; lia.
Qed.

Lemma be_len_le x n : 0 <= x < 256 ^ Z.of_nat n -> (be_len x <= n)%nat.
Proof.
  intros [H0 Hx]. destruct (Z.eq_dec x 0) as [->|Hne]; [change (be_len 0) with 0%nat; lia|].
  pose proof (be_len_lower x ltac:(lia)) as Hl.
  destruct (decide (be_len x <= n)%nat) as [|Hgt]; [done|].
  assert (256 ^ Z.of_nat n <= 256 ^ (Z.of_nat (be_len x) - 1))
    by (apply Z.pow_le_mono_r; lia). lia.
Qed.

Lemma be_len_pos x : 0 < x -> (0 < be_len x)%nat.
Proof.
  intros Hx. unfold be_len. destruct (Z.eqb_spec x 0); [lia|].
  pose proof (log2_div8_nonneg x). lia.
Qed.

(** Dropping the leading zero bytes of an [n]-byte store leaves the shortest form. *)
Lemma drop_clz_to_be n x :
  0 <= x < 256 ^ Z.of_nat n ->
  drop (Z.to_nat (clz (8 * Z.of_nat n) x / 8)) (to_be n x) = to_be (be_len x) x.
Proof.
  intros Hx. pose proof (be_len_le x n Hx) as Hle.
  assert (clz (8 * Z.of_nat n) x / 8 = Z.of_nat n - Z.of_nat (be_len x)) as ->.
  { unfold clz, be_len. destruct (Z.eqb_spec x 0) as [->|Hne].
    - rewrite Z.mul_comm, Z.div_mul by lia. lia.
    - pose proof (log2_div8_nonneg x). rewrite Z2Nat.id by lia.
      pose proof (Z.mod_pos_bound (Z.log2 x) 8 ltac:(lia)). pose proof (Z.div_mod (Z.log2 x) 8 ltac:(lia)).
      symmetry. apply (Z.div_unique_pos _ _ _ (7 - Z.log2 x mod 8)); lia. }
  replace n with ((n - be_len x) + be_len x)%nat at 2 by lia.
  rewrite to_be_add by (split; [lia | apply be_len_spec; lia]).
  apply drop_app_length'. unfold zero_bytes. rewrite length_replicate. lia.
Qed.

Lemma of_be_compact x : 0 <= x -> of_be (to_be (be_len x) x) = x.
Proof. intros H. apply of_be_to_be_small. split; [done | by apply be_len_spec]. Qed.

Lemma be_compact_head x :
  0 < x -> exists b l, to_be (be_len x) x = b :: l /\ 0 < b < 256.
Proof.
  intros Hx. pose proof (be_len_pos x Hx) as Hp.
  destruct (to_be (be_len x) x) as [|b l] eqn:E.
  { apply (f_equal length) in E. rewrite length_to_be in E. cbn in E. lia. }
  exists b, l. split; [done|].
  pose proof (to_be_ok (be_len x) x) as Hok. rewrite E in Hok.
  inversion_clear Hok as [|? ? Hb Hl]. unfold byte_ok in Hb.
  destruct (Z.eq_dec b 0) as [->|]; [exfalso|lia].
  pose proof (of_be_compact x ltac:(lia)) as Hof. rewrite E, of_be_cons in Hof.
  pose proof (of_be_bound l Hl) as Hb'. pose proof (be_len_lower x Hx) as Hlow.
  apply (f_equal length) in E. rewrite length_to_be in E. cbn in E.
  rewrite E in Hlow. replace (Z.of_nat (S (length l)) - 1) with (zlen l) in Hlow by lia. lia.
Qed.

(** A byte string without a leading zero is the shortest form of its number. *)
Lemma be_compact_of_be b l :
  bytes_ok (b :: l) -> b <> 0 -> to_be (be_len (of_be (b :: l))) (of_be (b :: l)) = b :: l.
Proof.
  intros Hok Hb. rewrite <- (to_be_of_be (b :: l)) at 3 by done. f_equal.
  inversion_clear Hok as [|? ? Hb' Hl]. unfold byte_ok in Hb'.
  pose proof (of_be_bound l Hl) as Hbd.
  set (x := of_be (b :: l)). assert (x = b * 256 ^ zlen l + of_be l) as Hx by apply of_be_cons.
  assert (256 ^ zlen l <= x < 256 ^ (zlen l + 1)) as [Hlo Hhi].
  { rewrite Z.pow_add_r by lia. nia. }
  assert (be_len x <= length (b :: l))%nat.
  { apply be_len_le. cbn [length]. rewrite Nat2Z.inj_succ. split; [lia|done]. }
  assert (length l < be_len x)%nat; [|cbn in *; lia].
  destruct (decide (length l < be_len x)%nat) as [|Hge]; [done|exfalso].
  pose proof (be_len_spec x ltac:(lia)).
  assert (256 ^ Z.of_nat (be_len x) <= 256 ^ zlen l) by (apply Z.pow_le_mono_r; lia). lia.
Qed.

#[export] Hint Resolve to_be_ok length_to_be : silk.
