(* ===== verification/Util.v ===== *)
(** * Util: core/silkworm/common (util.hpp, util.cpp, endian.hpp, base.hpp)

    Byte-string helpers shared by every other component: constants, padding through a caller-supplied
    buffer, hexadecimal conversion, common prefixes, fixed-size conversions, size parsing and
    endian loads. Strings are lists of character codes. *)

From Stdlib Require Import Ascii String.
From S2P Require Import Prelude.
Local Open Scope Z_scope.

(** Character codes of a literal. *)
Definition chars (s : string) : bytes :=
  map (fun c => Z.of_nat (nat_of_ascii c)) (list_ascii_of_string s).

(** ** Constants of base.hpp *)

Definition kAddressLength : nat := 20.
Definition kHashLength : nat := 32.

Definition kEmptyHash : bytes :=
  to_be 32 0xc5d2460186f7233c927e7db2dcc703c0e500b653ca82273b7bfad8045d85a470.
Definition kEmptyListHash : bytes :=
  to_be 32 0x1dcc4de8dec75d7aab85b567b6ccd41ad312451b948a7413f0a142fd40d49347.
Definition kEmptyRoot : bytes :=
  to_be 32 0x56e81f171bcc55a6ff8345e692c0f86e5b48e01b996cadc001622fb5e363b421.

Definition kKibi : Z := 1024.
Definition kMebi : Z := 1024 * kKibi.
Definition kGibi : Z := 1024 * kMebi.
Definition kTebi : Z := 1024 * kGibi.
Definition kGiga : Z := 1000000000.
Definition kEther : Z := kGiga * kGiga.

(** A zero-initialised [evmc::address] and [evmc::bytes32]. *)
Definition zero_address : bytes := zero_bytes kAddressLength.
Definition zero_bytes32 : bytes := zero_bytes kHashLength.

(** [evmc::is_zero]. *)
Definition is_zero (l : bytes) : bool := forallb (fun b => b =? 0) l.

(** ** Padding through a buffer

    A view is either memory disjoint from [buffer] or a slice of [buffer] itself. *)
Inductive View : Type :=
| Ext (data : bytes)
| Buf (offset len : nat).

Definition view_size (v : View) : nat :=
  match v with Ext d => length d | Buf _ n => n end.

Definition view_bytes (buffer : bytes) (v : View) : bytes :=
  match v with Ext d => d | Buf off n => take n (drop off buffer) end.

Definition is_Buf (v : View) : bool := match v with Ext _ => false | Buf _ _ => true end.

(** [std::basic_string::resize]. *)
Definition resize (n : nat) (l : bytes) : bytes := take n l ++ zero_bytes (n - length l).

(** [std::memmove] of [src] into [buffer] at [offset]. *)
Definition memmove (buffer : bytes) (offset : nat) (src : bytes) : bytes :=
  take offset buffer ++ src ++ drop (offset + length src) buffer.

(** [left_pad]. Growing the buffer may move it, so a view into it would dangle: [Undef]. *)
Definition left_pad (view : View) (min_size : nat) (buffer : bytes) : result unit (View * bytes) :=
  if (min_size <=? view_size view)%nat then Ok (view, buffer)
  else if ((length buffer <? min_size)%nat && is_Buf view && negb (view_size view =? 0)%nat)%bool
  then Undef
  else
    let buffer := if (length buffer <? min_size)%nat then resize min_size buffer else buffer in
    let prefix_len := (min_size - view_size view)%nat in
    let buffer := memmove buffer prefix_len (view_bytes buffer view) in
    let buffer := resize min_size buffer in
    let buffer := memmove buffer 0 (zero_bytes prefix_len) in
    Ok (Buf 0 (length buffer), buffer).

(** [right_pad]. The final two resizes first cut the buffer to the view and then zero-extend it. *)
Definition right_pad (view : View) (min_size : nat) (buffer : bytes) : result unit (View * bytes) :=
  if (min_size <=? view_size view)%nat then Ok (view, buffer)
  else if ((length buffer <? view_size view)%nat && is_Buf view)%bool then Undef
  else
    let buffer := if (length buffer <? view_size view)%nat then resize (view_size view) buffer
                  else buffer in
    let buffer := memmove buffer 0 (view_bytes buffer view) in
    let buffer := resize (view_size view) buffer in
    let buffer := resize min_size buffer in
    Ok (Buf 0 (length buffer), buffer).

(** ** Fixed-size conversions *)

Definition to_address (b : bytes) : bytes :=
  let n := Nat.min (length b) kAddressLength in
  zero_bytes (kAddressLength - n) ++ take n b.

Definition to_bytes32 (b : bytes) : bytes :=
  let n := Nat.min (length b) kHashLength in
  zero_bytes (kHashLength - n) ++ take n b.

Fixpoint zeroless_view (hash : bytes) : bytes :=
  match hash with
  | b :: l => if b =? 0 then zeroless_view l else hash
  | [] => []
  end.

(** ** Hexadecimal strings *)

Definition kHexDigits : bytes := chars "0123456789abcdef".

Definition hex_digit (x : Z) : Z := nth (Z.to_nat x) kHexDigits 0.

Definition to_hex (b : bytes) : bytes :=
  concat (map (fun x => [hex_digit (Z.shiftr x 4); hex_digit (Z.land x 0x0f)]) b).

Definition decode_hex_digit (ch : Z) : option Z :=
  if (48 <=? ch) && (ch <=? 57) then Some (ch - 48)
  else if (97 <=? ch) && (ch <=? 102) then Some (ch - 97 + 10)
  else if (65 <=? ch) && (ch <=? 70) then Some (ch - 65 + 10)
  else None.

(** The loop of [from_hex]: [even] is [i % 2 == 0], [out] what has been pushed so far. *)
Fixpoint from_hex_loop (hex : bytes) (even : bool) (carry : Z) (out : bytes) : option bytes :=
  match hex with
  | [] => Some out
  | ch :: hex' =>
      match decode_hex_digit ch with
      | None => None
      | Some v => if even then from_hex_loop hex' false (Z.shiftl v 4) out
                  else from_hex_loop hex' true carry (out ++ [u8 (Z.lor carry v)])
      end
  end.

Definition strip_0x (hex : bytes) : bytes :=
  match hex with
  | c0 :: c1 :: rest => if (c0 =? 48) && ((c1 =? 120) || (c1 =? 88)) then rest else hex
  | _ => hex
  end.

Definition from_hex (hex : bytes) : option bytes :=
  let hex := strip_0x hex in
  if negb (length hex mod 2 =? 0)%nat then None
  else from_hex_loop hex true 0 [].

(** ** Comparison *)

Definition tolower (c : Z) : Z := if (65 <=? c) && (c <=? 90) then c + 32 else c.

Definition case_insensitive_char_comparer (a b : Z) : bool := tolower a =? tolower b.

Fixpoint iequals (a b : bytes) : bool :=
  match a, b with
  | [], [] => true
  | x :: a', y :: b' => case_insensitive_char_comparer x y && iequals a' b'
  | _, _ => false
  end.

Definition bytes_eqb (a b : bytes) : bool := bool_decide (a = b).

Definition has_prefix (s prefix : bytes) : bool := bytes_eqb (take (length prefix) s) prefix.

Fixpoint prefix_length (a b : bytes) : nat :=
  match a, b with
  | x :: a', y :: b' => if x =? y then S (prefix_length a' b') else 0
  | _, _ => 0
  end.

(** [std::basic_string::operator<]: lexicographic order of bytes. *)
Fixpoint bytes_ltb (a b : bytes) : bool :=
  match a, b with
  | _, [] => false
  | [], _ :: _ => true
  | x :: a', y :: b' => if x <? y then true else if y <? x then false else bytes_ltb a' b'
  end.

(** ** Sizes such as 256MB

    The regular expression of [parse_size]: digits, an optional fraction of one to three digits,
    spaces, an optional unit, end of text; case insensitive. *)
Definition is_digit (c : Z) : bool := (48 <=? c) && (c <=? 57).

Fixpoint span_digits (s : bytes) : bytes * bytes :=
  match s with
  | c :: s' => if is_digit c then let '(d, r) := span_digits s' in (c :: d, r) else ([], s)
  | [] => ([], [])
  end.

Fixpoint skip_spaces (s : bytes) : bytes :=
  match s with c :: s' => if c =? 32 then skip_spaces s' else s | [] => [] end.

(** The fractional group: a dot and one to three digits. *)
Definition match_fraction (s : bytes) : bytes * bytes :=
  match s with
  | c :: s' =>
      let '(d, r) := span_digits s' in
      if (c =? 46) && (1 <=? length d)%nat && (length d <=? 3)%nat then (d, r) else ([], s)
  | [] => ([], s)
  end.

Definition match_suffix (s : bytes) : option bytes :=
  if existsb (iequals s) [chars ""; chars "B"; chars "KB"; chars "MB"; chars "GB"; chars "TB"]
  then Some s else None.

Definition parse_digits (s : bytes) : Z := foldl (fun acc c => acc * 10 + (c - 48)) 0 s.

(** [std::strtoull] saturates at the largest value. *)
Definition strtoull (s : bytes) : Z := Z.min (parse_digits s) (2 ^ 64 - 1).

Definition suffix_multiplier (suf : bytes) : Z :=
  if iequals suf (chars "KB") then kKibi
  else if iequals suf (chars "MB") then kMebi
  else if iequals suf (chars "GB") then kGibi
  else if iequals suf (chars "TB") then kTebi
  else 1.

Definition parse_size (sizestr : bytes) : option Z :=
  match sizestr with
  | [] => Some 0
  | _ =>
      let '(int_part, s1) := span_digits sizestr in
      let '(dec_part, s2) := match_fraction s1 in
      match match_suffix (skip_spaces s2) with
      | None => None
      | Some suf =>
          let multiplier := suffix_multiplier suf in
          let number := u64 (strtoull int_part * multiplier) in
          match dec_part with
          | [] => Some number
          | _ => Some (u64 (number + u64 (multiplier * parse_digits dec_part)
                                     / 10 ^ zlen dec_part))
          end
      end
  end.

(** ** Endian loads *)

Definition load_big_u32 (b : bytes) : Z := of_be (take 4 b).
Definition load_big_u64 (b : bytes) : Z := of_be (take 8 b).
Definition load_little_u32 (b : bytes) : Z := of_le (take 4 b).
Definition load_little_u64 (b : bytes) : Z := of_le (take 8 b).

(** * Lemmas *)

Lemma length_zero_bytes n : length (zero_bytes n) = n.
Proof. apply length_replicate. Qed.

Lemma zero_bytes_ok n : bytes_ok (zero_bytes n).
Proof. apply Forall_replicate. unfold byte_ok. lia. Qed.

Lemma take_zero_bytes i n : take i (zero_bytes n) = zero_bytes (Nat.min i n).
Proof. apply take_replicate. Qed.

Lemma of_be_zeros_l n l : of_be (zero_bytes n ++ l) = of_be l.
Proof.
  induction n as [|n IH]; [done|]. cbn [zero_bytes replicate app]. rewrite of_be_cons. exact IH.
Qed.

Lemma length_resize n l : length (resize n l) = n.
Proof. unfold resize. rewrite length_app, length_take, length_zero_bytes. lia. Qed.

Lemma length_memmove buffer off src :
  (off + length src <= length buffer)%nat -> length (memmove buffer off src) = length buffer.
Proof.
  intros H. unfold memmove. rewrite !length_app, length_take, length_drop. lia.
Qed.

Lemma resize_same l : resize (length l) l = l.
Proof.
  unfold resize. rewrite firstn_all, Nat.sub_diag. cbn. apply app_nil_r.
Qed.

Lemma bytes_eqb_eq a b : bytes_eqb a b = true <-> a = b.
Proof. apply bool_decide_eq_true. Qed.

(** A view is inside its buffer. *)
Definition view_in (buffer : bytes) (v : View) : Prop :=
  match v with Ext _ => True | Buf off n => (off + n <= length buffer)%nat end.

Lemma length_view_bytes buffer v : view_in buffer v -> length (view_bytes buffer v) = view_size v.
Proof. destruct v; cbn; [done|]. intros H. rewrite length_take, length_drop. lia. Qed.

Lemma view_bytes_resize buffer v n :
  view_in buffer v -> (length buffer < n)%nat -> is_Buf v = false \/ view_size v = 0%nat ->
  view_bytes (resize n buffer) v = view_bytes buffer v.
Proof. destruct v; cbn; [done|]. intros _ _ [Hb| ->]; done. Qed.

Lemma left_pad_ok view min_size buffer v' b' :
  view_in buffer view -> left_pad view min_size buffer = Ok (v', b') ->
  view_bytes b' v' = zero_bytes (min_size - view_size view) ++ view_bytes buffer view.
Proof.
  intros Hin. unfold left_pad.
  destruct (Nat.leb_spec min_size (view_size view)) as [Hle|Hlt].
  { intros [= <- <-]. by replace (min_size - view_size view)%nat with 0%nat by lia. }
  destruct (_ && negb _)%bool eqn:Eu; [done|]. intros [= <- <-].
  set (buf1 := if (length buffer <? min_size)%nat then resize min_size buffer else buffer).
  assert (view_bytes buf1 view = view_bytes buffer view) as Hv.
  { unfold buf1. destruct (Nat.ltb_spec (length buffer) min_size) as [Hs|]; [|done].
    apply view_bytes_resize; [done|done|].
    destruct (is_Buf view) eqn:Eb; [right|by left]. cbn in Eu.
    apply negb_false_iff, Nat.eqb_eq in Eu. done. }
  assert (min_size <= length buf1)%nat as Hb1.
  { unfold buf1. destruct (Nat.ltb_spec (length buffer) min_size); [rewrite length_resize|]; lia. }
  rewrite Hv. pose proof (length_view_bytes _ _ Hin) as Hvl.
  set (p := (min_size - view_size view)%nat).
  assert (resize min_size (memmove buf1 p (view_bytes buffer view))
          = take p buf1 ++ view_bytes buffer view) as ->.
  { unfold resize, memmove. rewrite app_assoc, take_app_length'.
    - rewrite !length_app, length_take, length_drop.
      replace (min_size - _)%nat with 0%nat by (unfold p; lia). apply app_nil_r.
    - rewrite length_app, length_take. unfold p. lia. }
  assert (memmove (take p buf1 ++ view_bytes buffer view) 0 (zero_bytes p)
          = zero_bytes p ++ view_bytes buffer view) as ->.
  { unfold memmove. rewrite take_0. cbn [app Nat.add]. rewrite length_zero_bytes. f_equal.
    apply drop_app_length'. rewrite length_take. unfold p. lia. }
  cbn. by rewrite drop_0, firstn_all.
Qed.

Lemma right_pad_ok view min_size buffer v' b' :
  view_in buffer view -> right_pad view min_size buffer = Ok (v', b') ->
  view_bytes b' v' = view_bytes buffer view ++ zero_bytes (min_size - view_size view).
Proof.
  intros Hin. unfold right_pad.
  destruct (Nat.leb_spec min_size (view_size view)) as [Hle|Hlt].
  { intros [= <- <-]. replace (min_size - view_size view)%nat with 0%nat by lia.
    symmetry. apply app_nil_r. }
  destruct (_ && is_Buf _)%bool eqn:Eu; [done|]. intros [= <- <-].
  set (buf1 := if (length buffer <? view_size view)%nat then _ else buffer).
  assert (view_bytes buf1 view = view_bytes buffer view) as Hv.
  { unfold buf1. destruct (Nat.ltb_spec (length buffer) (view_size view)) as [Hs|]; [|done].
    apply view_bytes_resize; [done|done|]. left. by destruct (is_Buf view). }
  rewrite Hv. pose proof (length_view_bytes _ _ Hin) as Hvl.
  assert (resize (view_size view) (memmove buf1 0 (view_bytes buffer view))
          = view_bytes buffer view) as ->.
  { unfold resize, memmove. rewrite take_0. cbn [app Nat.add]. rewrite take_app_length' by done.
    rewrite length_app. replace (view_size view - _)%nat with 0%nat by lia. apply app_nil_r. }
  cbn [view_bytes]. rewrite drop_0, firstn_all.
  unfold resize. rewrite take_ge by lia. by rewrite Hvl.
Qed.

(** Padding is defined on memory outside the buffer, and on a slice of a buffer that need not grow. *)
Lemma left_pad_spec view min_size buffer :
  view_in buffer view -> is_Buf view = false \/ (min_size <= length buffer)%nat ->
  exists v' b', left_pad view min_size buffer = Ok (v', b')
    /\ view_bytes b' v' = zero_bytes (min_size - view_size view) ++ view_bytes buffer view.
Proof.
  intros Hin Hb. destruct (left_pad view min_size buffer) as [[v' b']|[]|] eqn:E.
  - exists v', b'. split; [done|]. by eapply left_pad_ok.
  - exfalso. revert E. unfold left_pad. by repeat case_match.
  - exfalso. revert E. unfold left_pad. case_match; [done|]. case_match; [|done].
    b2p. destruct Hb as [Hb|Hb]; [congruence|].
    match goal with H : (_ <? _)%nat = true |- _ => apply Nat.ltb_lt in H end. lia.
Qed.

Lemma right_pad_spec view min_size buffer :
  view_in buffer view -> is_Buf view = false \/ (min_size <= length buffer)%nat ->
  exists v' b', right_pad view min_size buffer = Ok (v', b')
    /\ view_bytes b' v' = view_bytes buffer view ++ zero_bytes (min_size - view_size view).
Proof.
  intros Hin Hb. destruct (right_pad view min_size buffer) as [[v' b']|[]|] eqn:E.
  - exists v', b'. split; [done|]. by eapply right_pad_ok.
  - exfalso. revert E. unfold right_pad. by repeat case_match.
  - exfalso. revert E. unfold right_pad.
    destruct (Nat.leb_spec min_size (view_size view)); [done|].
    case_match; [|done]. b2p.
    match goal with H : (_ <? _)%nat = true |- _ => apply Nat.ltb_lt in H end.
    destruct Hb as [Hb|Hb]; [congruence|lia].
Qed.

Lemma length_to_bytes32 b : length (to_bytes32 b) = 32%nat.
Proof.
  unfold to_bytes32, kHashLength. rewrite length_app, length_zero_bytes, length_take. lia.
Qed.

Lemma length_to_address b : length (to_address b) = 20%nat.
Proof.
  unfold to_address, kAddressLength. rewrite length_app, length_zero_bytes, length_take. lia.
Qed.

Lemma to_bytes32_full b : length b = 32%nat -> to_bytes32 b = b.
Proof.
  intros H. unfold to_bytes32, kHashLength. rewrite H. cbn [Nat.min Nat.sub].
  by rewrite take_ge by lia.
Qed.

Lemma zeroless_view_of_be l : of_be (zeroless_view l) = of_be l.
Proof.
  induction l as [|b l IH]; [done|]. cbn [zeroless_view].
  destruct (Z.eqb_spec b 0) as [->|]; [|done]. rewrite IH, of_be_cons. lia.
Qed.

Lemma zeroless_view_ok l : bytes_ok l -> bytes_ok (zeroless_view l).
Proof.
  induction 1 as [|b l Hb Hl IH]; cbn; [constructor|]. case_match; [done|by constructor].
Qed.

Lemma zeroless_view_head l b l' : zeroless_view l = b :: l' -> b <> 0.
Proof.
  induction l as [|c l IH]; [done|]. cbn. destruct (Z.eqb_spec c 0); [done|]. congruence.
Qed.

Lemma zeroless_view_length l : (length (zeroless_view l) <= length l)%nat.
Proof. induction l as [|b l IH]; cbn; [lia|]. case_match; cbn; lia. Qed.

Lemma is_zero_spec l : is_zero l = true <-> l = zero_bytes (length l).
Proof.
  unfold is_zero. induction l as [|b l IH]; cbn; [done|].
  rewrite andb_true_iff, Z.eqb_eq, IH. split; [intros [-> ->]|intros [= -> H]].
  - f_equal. by rewrite length_zero_bytes.
  - split; [done|]. rewrite H at 1. f_equal.
Qed.

Lemma decode_hex_digit_spec d : 0 <= d < 16 -> decode_hex_digit (hex_digit d) = Some d.
Proof.
  intros H.
  assert (In d (map Z.of_nat (seq 0 16))) as Hin.
  { apply in_map_iff. exists (Z.to_nat d). rewrite in_seq. lia. }
  repeat (destruct Hin as [<-|Hin]; [reflexivity|]). done.
Qed.

Lemma byte_nibbles x : byte_ok x ->
  0 <= Z.shiftr x 4 < 16 /\ 0 <= Z.land x 15 < 16
  /\ u8 (Z.lor (Z.shiftl (Z.shiftr x 4) 4) (Z.land x 15)) = x.
Proof.
  unfold byte_ok. intros H.
  assert (In x (map Z.of_nat (seq 0 256))) as Hin.
  { apply in_map_iff. exists (Z.to_nat x). rewrite in_seq. lia. }
  assert (forallb (fun x => (0 <=? Z.shiftr x 4) && (Z.shiftr x 4 <? 16)
    && (0 <=? Z.land x 15) && (Z.land x 15 <? 16)
    && (u8 (Z.lor (Z.shiftl (Z.shiftr x 4) 4) (Z.land x 15)) =? x)) (map Z.of_nat (seq 0 256))
    = true) as Hall by (vm_compute; reflexivity).
  rewrite forallb_forall in Hall. specialize (Hall x Hin). b2p. lia.
Qed.

Lemma from_hex_loop_to_hex b out carry :
  bytes_ok b -> from_hex_loop (to_hex b) true carry out = Some (out ++ b).
Proof.
  intros Hb. revert out carry. induction Hb as [|x l Hx Hl IH]; intros out carry.
  - cbn. by rewrite app_nil_r.
  - destruct (byte_nibbles x Hx) as (Hh & Hlo & Hj).
    unfold to_hex in *. cbn [map concat app]. cbn [from_hex_loop].
    rewrite decode_hex_digit_spec by lia. rewrite decode_hex_digit_spec by lia.
    rewrite Hj, IH, <- app_assoc. done.
Qed.

Lemma length_to_hex b : length (to_hex b) = (2 * length b)%nat.
Proof. unfold to_hex. induction b as [|x b IH]; [done|]. cbn [map concat app length]. lia. Qed.

Lemma hex_digit_not_x d : hex_digit d <> 120 /\ hex_digit d <> 88.
Proof.
  unfold hex_digit. generalize (Z.to_nat d). intros n.
  let digits := eval vm_compute in kHexDigits in change kHexDigits with digits.
  do 17 (destruct n as [|n]; [cbn; lia|]). cbn. lia.
Qed.

Lemma strip_0x_to_hex b : strip_0x (to_hex b) = to_hex b.
Proof.
  destruct b as [|x b]; [done|]. cbn [to_hex map concat app strip_0x].
  destruct (hex_digit_not_x (Z.land x 15)) as [H1 H2].
  change (to_hex (x :: b)) with (hex_digit (Z.shiftr x 4) :: hex_digit (Z.land x 15) :: to_hex b).
  cbn [strip_0x].
  destruct (Z.eqb_spec (hex_digit (Z.land x 15)) 120); [done|].
  destruct (Z.eqb_spec (hex_digit (Z.land x 15)) 88); [done|].
  by rewrite andb_false_r.
Qed.

Lemma from_hex_0x s : from_hex (48 :: 120 :: s) = 
  if negb (length s mod 2 =? 0)%nat then None else from_hex_loop s true 0 [].
Proof. done. Qed.

Lemma prefix_length_take a b : take (prefix_length a b) a = take (prefix_length a b) b.
Proof.
  revert b; induction a as [|x a IH]; intros [|y b]; cbn; try done.
  destruct (Z.eqb_spec x y) as [->|]; cbn; [|done]. by rewrite IH.
Qed.

Lemma prefix_length_le a b :
  (prefix_length a b <= length a)%nat /\ (prefix_length a b <= length b)%nat.
Proof.
  revert b; induction a as [|x a IH]; intros [|y b]; cbn; try lia.
  destruct (Z.eqb_spec x y); [|lia]. destruct (IH b). lia.
Qed.

Lemma prefix_length_comm a b : prefix_length a b = prefix_length b a.
Proof.
  revert b; induction a as [|x a IH]; intros [|y b]; cbn; try done.
  rewrite (Z.eqb_sym y x). destruct (Z.eqb_spec x y); [by rewrite IH|done].
Qed.

Lemma prefix_length_max a b n :
  (n <= length a)%nat -> (n <= length b)%nat -> take n a = take n b -> (n <= prefix_length a b)%nat.
Proof.
  revert b n; induction a as [|x a IH]; intros [|y b] [|n]; cbn; try lia.
  intros Ha Hb [= -> Heq]. rewrite Z.eqb_refl. apply le_n_S, IH; [lia|lia|done].
Qed.

Lemma bytes_ltb_irrefl a : bytes_ltb a a = false.
Proof. induction a as [|x a IH]; cbn; [done|]. by rewrite Z.ltb_irrefl. Qed.

Lemma bytes_ltb_total a b : bytes_ltb a b = false -> bytes_ltb b a = false -> a = b.
Proof.
  revert b. induction a as [|x a IH]; intros [|y b]; cbn; try done.
  destruct (Z.ltb_spec x y), (Z.ltb_spec y x); try done. intros H1 H2.
  replace y with x by lia. f_equal. by apply IH.
Qed.

Lemma bytes_ltb_trans a b c : bytes_ltb a b = true -> bytes_ltb b c = true -> bytes_ltb a c = true.
Proof.
  revert b c; induction a as [|x a IH]; intros [|y b] [|z c]; cbn; try done.
  destruct (Z.ltb_spec x y), (Z.ltb_spec y z), (Z.ltb_spec x z); try done; try lia;
    destruct (Z.ltb_spec y x), (Z.ltb_spec z y), (Z.ltb_spec z x); try done; try lia.
  apply IH.
Qed.

(** * Properties *)

(** printing bytes as hexadecimal and parsing them back, with or without the 0x prefix,
    gives the bytes. *)
Theorem hex_roundtrip b :
  bytes_ok b ->
  from_hex (to_hex b) = Some b /\ from_hex (chars "0x" ++ to_hex b) = Some b.
Proof.
  intros Hb.
  assert (length (to_hex b) mod 2 = 0)%nat as Hl.
  { rewrite length_to_hex, Nat.mul_comm. apply Nat.Div0.mod_mul. }
  split.
  - unfold from_hex. rewrite strip_0x_to_hex, Hl. cbn [Nat.eqb negb].
    by rewrite from_hex_loop_to_hex.
  - change (chars "0x" ++ to_hex b) with (48 :: 120 :: to_hex b).
    rewrite from_hex_0x, Hl. cbn [Nat.eqb negb]. by rewrite from_hex_loop_to_hex.
Qed.

Lemma hex_roundtrip_witness :
  from_hex (to_hex [0xde; 0xad; 0x00]) = Some [0xde; 0xad; 0x00]
  /\ from_hex (chars "0x" ++ to_hex [0xde; 0xad; 0x00]) = Some [0xde; 0xad; 0x00].
Proof.
  apply (hex_roundtrip [0xde; 0xad; 0x00]).
  repeat constructor; unfold byte_ok; lia.
Defined.

(** padding is memory safe on overlapping buffers and pads with zeros on the right side. *)
Theorem padding_correct view min_size buffer :
  view_in buffer view ->
  is_Buf view = false \/ (min_size <= length buffer)%nat ->
  (exists v' b', left_pad view min_size buffer = Ok (v', b')
     /\ view_bytes b' v' = zero_bytes (min_size - view_size view) ++ view_bytes buffer view)
  /\ (exists v' b', right_pad view min_size buffer = Ok (v', b')
     /\ view_bytes b' v' = view_bytes buffer view ++ zero_bytes (min_size - view_size view)).
Proof. intros Hin Hb. split; [by apply left_pad_spec|by apply right_pad_spec]. Qed.

Lemma padding_correct_witness :
  (exists v' b', left_pad (Buf 1 2) 4 [9; 7; 8; 6; 5] = Ok (v', b')
     /\ view_bytes b' v' = [0; 0; 7; 8])
  /\ (exists v' b', right_pad (Buf 1 2) 4 [9; 7; 8; 6; 5] = Ok (v', b')
     /\ view_bytes b' v' = [7; 8; 0; 0]).
Proof. apply (padding_correct (Buf 1 2) 4 [9; 7; 8; 6; 5]); cbn; [lia | right; lia]. Defined.
