(* ===== verification/Keccak.v ===== *)
(** * Keccak: ethash/ethash/keccak.cpp

    The Keccak-f[1600] permutation as the source unrolls it, the byte-stream absorption loop and the
    hash functions built on it, with the reference permutation (theta, rho, pi, chi, iota) and the
    reference sponge they are proved equal to. A state is the list of its 25 64-bit lanes. *)

From S2P Require Import Prelude Util.
Local Open Scope Z_scope.

(** ** The permutation as the source computes it *)

Local Infix "^^" := Z.lxor (at level 40, left associativity).

Definition rotl_64 (x s : Z) : Z :=
  Z.lor (u64 (Z.shiftl x s)) (Z.shiftr x (Z.land (u32 (- s)) 63)).

(** [~a & b] on 64-bit words. *)
Definition andn (a b : Z) : Z := Z.land (Z.lxor a (2 ^ 64 - 1)) b.

Definition round_constants : list Z :=
  [0x0000000000000001; 0x0000000000008082; 0x800000000000808a; 0x8000000080008000;
   0x000000000000808b; 0x0000000080000001; 0x8000000080008081; 0x8000000000008009;
   0x000000000000008a; 0x0000000000000088; 0x0000000080008009; 0x000000008000000a;
   0x000000008000808b; 0x800000000000008b; 0x8000000000008089; 0x8000000000008003;
   0x8000000000008002; 0x8000000000000080; 0x000000000000800a; 0x800000008000000a;
   0x8000000080008081; 0x8000000000008080; 0x0000000080000001; 0x8000000080008008].

(** The 25 local variables of the implementation. *)
Inductive lanes : Type :=
| Lanes (Aba Abe Abi Abo Abu Aga Age Agi Ago Agu Aka Ake Aki
         Ako Aku Ama Ame Ami Amo Amu Asa Ase Asi Aso Asu : Z).

Definition load_lanes (state : list Z) : lanes :=
  let l i := nth i state 0 in
  Lanes (l 0%nat) (l 1%nat) (l 2%nat) (l 3%nat) (l 4%nat) (l 5%nat) (l 6%nat) (l 7%nat) (l 8%nat) 
        (l 9%nat) (l 10%nat) (l 11%nat) (l 12%nat) (l 13%nat) (l 14%nat) (l 15%nat) (l 16%nat) 
        (l 17%nat) (l 18%nat) (l 19%nat) (l 20%nat) (l 21%nat) (l 22%nat) (l 23%nat) (l 24%nat).

Definition store_lanes (st : lanes) : list Z :=
  match st with
  | Lanes Aba Abe Abi Abo Abu Aga Age Agi Ago Agu Aka Ake Aki
          Ako Aku Ama Ame Ami Amo Amu Asa Ase Asi Aso Asu =>
    [Aba; Abe; Abi; Abo; Abu; Aga; Age; Agi; Ago; Agu; Aka; Ake; Aki;
     Ako; Aku; Ama; Ame; Ami; Amo; Amu; Asa; Ase; Asi; Aso; Asu]
  end.

(** One round, from the [A] lanes to the [E] lanes; the source's loop body is this round twice, the
    second time with the letters exchanged. *)
Definition keccak_round (rc : Z) (state : lanes) : lanes :=
  match state with
  | Lanes Aba Abe Abi Abo Abu Aga Age Agi Ago Agu Aka Ake Aki
          Ako Aku Ama Ame Ami Amo Amu Asa Ase Asi Aso Asu =>
    let Ba := Aba ^^ Aga ^^ Aka ^^ Ama ^^ Asa in
    let Be := Abe ^^ Age ^^ Ake ^^ Ame ^^ Ase in
    let Bi := Abi ^^ Agi ^^ Aki ^^ Ami ^^ Asi in
    let Bo := Abo ^^ Ago ^^ Ako ^^ Amo ^^ Aso in
    let Bu := Abu ^^ Agu ^^ Aku ^^ Amu ^^ Asu in
    let Da := Bu ^^ rotl_64 Be 1 in
    let De := Ba ^^ rotl_64 Bi 1 in
    let Di := Be ^^ rotl_64 Bo 1 in
    let Do := Bi ^^ rotl_64 Bu 1 in
    let Du := Bo ^^ rotl_64 Ba 1 in
    let Ba := Aba ^^ Da in
    let Be := rotl_64 (Age ^^ De) 44 in
    let Bi := rotl_64 (Aki ^^ Di) 43 in
    let Bo := rotl_64 (Amo ^^ Do) 21 in
    let Bu := rotl_64 (Asu ^^ Du) 14 in
    let Eba := Ba ^^ andn Be Bi ^^ rc in
    let Ebe := Be ^^ andn Bi Bo in
    let Ebi := Bi ^^ andn Bo Bu in
    let Ebo := Bo ^^ andn Bu Ba in
    let Ebu := Bu ^^ andn Ba Be in
    let Ba := rotl_64 (Abo ^^ Do) 28 in
    let Be := rotl_64 (Agu ^^ Du) 20 in
    let Bi := rotl_64 (Aka ^^ Da) 3 in
    let Bo := rotl_64 (Ame ^^ De) 45 in
    let Bu := rotl_64 (Asi ^^ Di) 61 in
    let Ega := Ba ^^ andn Be Bi in
    let Ege := Be ^^ andn Bi Bo in
    let Egi := Bi ^^ andn Bo Bu in
    let Ego := Bo ^^ andn Bu Ba in
    let Egu := Bu ^^ andn Ba Be in
    let Ba := rotl_64 (Abe ^^ De) 1 in
    let Be := rotl_64 (Agi ^^ Di) 6 in
    let Bi := rotl_64 (Ako ^^ Do) 25 in
    let Bo := rotl_64 (Amu ^^ Du) 8 in
    let Bu := rotl_64 (Asa ^^ Da) 18 in
    let Eka := Ba ^^ andn Be Bi in
    let Eke := Be ^^ andn Bi Bo in
    let Eki := Bi ^^ andn Bo Bu in
    let Eko := Bo ^^ andn Bu Ba in
    let Eku := Bu ^^ andn Ba Be in
    let Ba := rotl_64 (Abu ^^ Du) 27 in
    let Be := rotl_64 (Aga ^^ Da) 36 in
    let Bi := rotl_64 (Ake ^^ De) 10 in
    let Bo := rotl_64 (Ami ^^ Di) 15 in
    let Bu := rotl_64 (Aso ^^ Do) 56 in
    let Ema := Ba ^^ andn Be Bi in
    let Eme := Be ^^ andn Bi Bo in
    let Emi := Bi ^^ andn Bo Bu in
    let Emo := Bo ^^ andn Bu Ba in
    let Emu := Bu ^^ andn Ba Be in
    let Ba := rotl_64 (Abi ^^ Di) 62 in
    let Be := rotl_64 (Ago ^^ Do) 55 in
    let Bi := rotl_64 (Aku ^^ Du) 39 in
    let Bo := rotl_64 (Ama ^^ Da) 41 in
    let Bu := rotl_64 (Ase ^^ De) 2 in
    let Esa := Ba ^^ andn Be Bi in
    let Ese := Be ^^ andn Bi Bo in
    let Esi := Bi ^^ andn Bo Bu in
    let Eso := Bo ^^ andn Bu Ba in
    let Esu := Bu ^^ andn Ba Be in
    Lanes Eba Ebe Ebi Ebo Ebu Ega Ege Egi Ego Egu Eka Eke Eki
          Eko Eku Ema Eme Emi Emo Emu Esa Ese Esi Eso Esu
  end.

(** The loop of [keccakf1600_implementation]: rounds [n] and [n + 1], [n] stepping by two. *)
Fixpoint keccak_rounds (rcs : list Z) (state : lanes) : lanes :=
  match rcs with
  | rc0 :: rc1 :: rcs' => keccak_rounds rcs' (keccak_round rc1 (keccak_round rc0 state))
  | _ => state
  end.

Definition keccakf1600_implementation (state : list Z) : list Z :=
  store_lanes (keccak_rounds round_constants (load_lanes state)).

(** ** The hash functions *)

Definition load_le (data : bytes) : Z := of_le (take 8 data).

(** [state[i] ^= w]. *)
Definition xor_at (i : nat) (w : Z) (state : list Z) : list Z :=
  alter (fun x => Z.lxor x w) i state.

(** The inner [for]: one block, word by word. *)
Fixpoint absorb_block (i n : nat) (input : bytes) (state : list Z) : list Z :=
  match n with
  | O => state
  | S n' => absorb_block (S i) n' (drop 8 input) (xor_at i (load_le input) state)
  end.

(** The [while] loop of [keccak]: what is left of the input, the state and the word iterator. The
    fuel counts iterations; each consumes at least one byte or ends the loop. *)
Fixpoint absorb_loop (fuel : nat) (block_word64s : nat) (input : bytes) (state : list Z) (it : nat)
  : bytes * list Z * nat :=
  match fuel with
  | O => (input, state, it)
  | S fuel' =>
      if (length input =? 0)%nat then (input, state, it)
      else if (8 * block_word64s <=? length input)%nat then
        absorb_loop fuel' block_word64s (drop (8 * block_word64s) input)
          (keccakf1600_implementation (absorb_block 0 block_word64s input state)) it
      else if (8 <=? length input)%nat then
        absorb_loop fuel' block_word64s (drop 8 input) (xor_at it (load_le input) state) (S it)
      else (input, state, it)
  end.

(** [keccak(out, bits, input, input_size)], the output as bytes. *)
Definition keccak (bits : nat) (input : bytes) : bytes :=
  let hash_size := (bits / 8)%nat in
  let block_size := ((1600 - bits * 2) / 8)%nat in
  let block_word64s := (block_size / 8)%nat in
  let '(rest, state, it) := absorb_loop (S (length input)) block_word64s input (replicate 25 0) 0 in
  let last_word := of_le (rest ++ [0x01]) in
  let state := xor_at it last_word state in
  let state := xor_at (block_word64s - 1) 0x8000000000000000 state in
  let state := keccakf1600_implementation state in
  concat (map (to_le 8) (take (hash_size / 8) state)).

Definition keccak256 (input : bytes) : bytes := keccak 256 input.
Definition keccak512 (input : bytes) : bytes := keccak 512 input.

(** ** Reference: Keccak-f[1600] by its five step mappings, on lanes [A x y] *)

Definition lane (state : list Z) (x y : nat) : Z := nth (5 * (y mod 5) + x mod 5)%nat state 0.

Definition of_lanes (A : nat -> nat -> Z) : list Z :=
  concat (map (fun y => map (fun x => A x y) (seq 0 5)) (seq 0 5)).

Definition theta (A : nat -> nat -> Z) (x y : nat) : Z :=
  let C x := A x 0%nat ^^ A x 1%nat ^^ A x 2%nat ^^ A x 3%nat ^^ A x 4%nat in
  A x y ^^ (C ((x + 4) mod 5)%nat ^^ rotl_64 (C ((x + 1) mod 5)%nat) 1).

(** The rotation offset of lane (x, y): (t + 1)(t + 2) / 2 where the walk (x, y) -> (y, 2x + 3y) from
    (1, 0) reaches the lane in t steps. *)
Fixpoint rho_walk (fuel : nat) (t : nat) (cx cy x y : nat) : nat :=
  match fuel with
  | O => 0
  | S fuel' => if ((cx =? x) && (cy =? y))%nat then ((t + 1) * (t + 2) / 2) mod 64
               else rho_walk fuel' (S t) cy ((2 * cx + 3 * cy) mod 5) x y
  end.
Definition rho_offset (x y : nat) : nat := rho_walk 24 0 1 0 x y.

Definition rho (A : nat -> nat -> Z) (x y : nat) : Z :=
  match rho_offset x y with O => A x y | r => rotl_64 (A x y) (Z.of_nat r) end.

Definition pi (A : nat -> nat -> Z) (x y : nat) : Z := A ((x + 3 * y) mod 5)%nat x.

Definition chi (A : nat -> nat -> Z) (x y : nat) : Z :=
  A x y ^^ andn (A ((x + 1) mod 5)%nat y) (A ((x + 2) mod 5)%nat y).

Definition iota (rc : Z) (A : nat -> nat -> Z) (x y : nat) : Z :=
  if ((x =? 0) && (y =? 0))%nat then A x y ^^ rc else A x y.

Definition ref_round (rc : Z) (state : list Z) : list Z :=
  of_lanes (iota rc (chi (pi (rho (theta (lane state)))))).

Definition ref_keccak_f (state : list Z) : list Z :=
  foldl (fun st rc => ref_round rc st) state round_constants.

(** ** Reference: the sponge with multi-rate padding *)

(** pad10*1 for Keccak's byte-aligned inputs: a 1 bit after the input, a 1 bit at the block's end. *)
Definition ref_pad (block_size : nat) (input : bytes) : bytes :=
  let q := (block_size - length input mod block_size)%nat in
  let p := input ++ [0x01] ++ zero_bytes (q - 1) in
  alter (fun b => b ^^ 0x80) (length p - 1)%nat p.

Definition ref_word (i : nat) (block : bytes) : Z := of_le (take 8 (drop (8 * i) block)).

Definition ref_xor_block (bw : nat) (block : bytes) (state : list Z) : list Z :=
  imap (fun i x => x ^^ (if (i <? bw)%nat then ref_word i block else 0)) state.

Fixpoint ref_absorb (blocks : nat) (bw : nat) (padded : bytes) (state : list Z) : list Z :=
  match blocks with
  | O => state
  | S n => ref_absorb n bw (drop (8 * bw) padded)
             (ref_keccak_f (ref_xor_block bw (take (8 * bw) padded) state))
  end.

Definition ref_sponge (bits : nat) (input : bytes) : bytes :=
  let bs := ((1600 - bits * 2) / 8)%nat in
  let padded := ref_pad bs input in
  concat (map (to_le 8) (take (bits / 8 / 8)
    (ref_absorb (length padded / bs) (bs / 8) padded (replicate 25 0)))).

(** * Lemmas *)

Lemma round_ref rc st :
  store_lanes (keccak_round rc st) = ref_round rc (store_lanes st).
Proof. destruct st. reflexivity. Qed.

Lemma load_store_lanes st : load_lanes (store_lanes st) = st.
Proof. destruct st. reflexivity. Qed.

Lemma store_load_lanes l : length l = 25%nat -> store_lanes (load_lanes l) = l.
Proof.
  intros H. do 25 (destruct l as [|? l]; [done|]). destruct l; [reflexivity|done].
Qed.

Lemma rounds_ref n rcs st :
  length rcs = (2 * n)%nat ->
  store_lanes (keccak_rounds rcs st) = foldl (fun s rc => ref_round rc s) (store_lanes st) rcs.
Proof.
  revert rcs st; induction n as [|n IH]; intros rcs st Hn.
  - destruct rcs; [reflexivity|done].
  - destruct rcs as [|r0 [|r1 rcs]]; cbn in Hn; try lia.
    cbn [keccak_rounds foldl]. rewrite IH by lia. by rewrite !round_ref.
Qed.

Lemma keccak_f_ref l : length l = 25%nat -> keccakf1600_implementation l = ref_keccak_f l.
Proof.
  intros H. unfold keccakf1600_implementation.
  rewrite (rounds_ref 12) by reflexivity. by rewrite store_load_lanes.
Qed.

Lemma length_keccak_f l : length (keccakf1600_implementation l) = 25%nat.
Proof. unfold keccakf1600_implementation. by destruct (keccak_rounds _ _). Qed.

#[local] Opaque keccakf1600_implementation ref_keccak_f.

(** Adding a word to every lane. *)
Definition lane_xor (f : nat -> Z) (st : list Z) : list Z := imap (fun i x => x ^^ f i) st.

Lemma lane_xor_ext f g st :
  (forall i, (i < length st)%nat -> f i = g i) -> lane_xor f st = lane_xor g st.
Proof.
  intros H. unfold lane_xor. apply list_eq. intros i. rewrite !list_lookup_imap.
  destruct (st !! i) eqn:E; cbn; [|done]. rewrite H; [done|]. by eapply lookup_lt_Some.
Qed.

Lemma lane_xor_xor f g st : lane_xor f (lane_xor g st) = lane_xor (fun i => g i ^^ f i) st.
Proof.
  unfold lane_xor. apply list_eq. intros i. rewrite !list_lookup_imap.
  destruct (st !! i); cbn; [|done]. by rewrite Z.lxor_assoc.
Qed.

Lemma length_lane_xor f st : length (lane_xor f st) = length st.
Proof. apply length_imap. Qed.

Lemma lane_xor_0 st : lane_xor (fun _ => 0) st = st.
Proof.
  unfold lane_xor. apply list_eq. intros i. rewrite list_lookup_imap.
  destruct (st !! i); cbn; [|done]. by rewrite Z.lxor_0_r.
Qed.

Lemma xor_at_lane k w st : xor_at k w st = lane_xor (fun i => if (i =? k)%nat then w else 0) st.
Proof.
  unfold xor_at, lane_xor. apply list_eq. intros i. rewrite list_lookup_imap.
  destruct (Nat.eqb_spec i k) as [->|Hne].
  - by rewrite list_lookup_alter_eq.
  - rewrite list_lookup_alter_ne by done. destruct (st !! i); cbn; [|done]. by rewrite Z.lxor_0_r.
Qed.

Lemma absorb_block_lane i n input st :
  absorb_block i n input st
  = lane_xor (fun j => if ((i <=? j) && (j <? i + n))%nat then ref_word (j - i) input else 0) st.
Proof.
  revert i input st; induction n as [|n IH]; intros i input st; cbn [absorb_block].
  - rewrite <- (lane_xor_0 st) at 1. apply lane_xor_ext. intros j _.
    destruct (Nat.leb_spec i j), (Nat.ltb_spec j (i + 0)); cbn; try done; lia.
  - rewrite IH, xor_at_lane, lane_xor_xor. apply lane_xor_ext. intros j _.
    destruct (Nat.eqb_spec j i) as [->|Hne].
    + replace ((S i <=? i)%nat) with false by (symmetry; apply Nat.leb_gt; lia).
      rewrite Nat.leb_refl. replace ((i <? i + S n)%nat) with true by (symmetry; apply Nat.ltb_lt; lia).
      cbn [andb]. rewrite Z.lxor_0_r, Nat.sub_diag. unfold ref_word, load_le. by rewrite Nat.mul_0_r, drop_0.
    + rewrite Z.lxor_0_l.
      replace ((S i <=? j) && (j <? S i + n))%nat with ((i <=? j) && (j <? i + S n))%nat.
      2: { apply eq_true_iff_eq. rewrite !andb_true_iff, !Nat.leb_le, !Nat.ltb_lt. lia. }
      destruct (Nat.leb_spec i j); [|done]. destruct (_ <? _)%nat; [|done]. cbn [andb].
      unfold ref_word. rewrite drop_drop. do 3 f_equal. lia.
Qed.

Lemma absorb_block_ref bw input st :
  absorb_block 0 bw input st = ref_xor_block bw input st.
Proof.
  rewrite absorb_block_lane. unfold ref_xor_block. apply lane_xor_ext. intros j _.
  cbn. by rewrite Nat.sub_0_r.
Qed.

Lemma length_ref_xor_block bw block st : length (ref_xor_block bw block st) = length st.
Proof. apply length_imap. Qed.

Lemma ref_xor_block_take bw input st :
  ref_xor_block bw (take (8 * bw) input) st = ref_xor_block bw input st.
Proof.
  apply lane_xor_ext. intros i _. destruct (Nat.ltb_spec i bw) as [Hi|]; [|done].
  unfold ref_word. f_equal. rewrite skipn_firstn_comm, take_take. f_equal. lia.
Qed.

(** The words of the last, incomplete block that the loop absorbs one at a time. *)
Lemma absorb_loop_tail fuel bw input st it :
  (length input < 8 * bw)%nat -> (length input < fuel)%nat ->
  absorb_loop fuel bw input st it
  = (drop (8 * (length input / 8)) input,
     lane_xor (fun j => if ((it <=? j) && (j <? it + length input / 8))%nat
                        then ref_word (j - it) input else 0) st,
     (it + length input / 8)%nat).
Proof.
  revert input st it; induction fuel as [|fuel IH]; intros input st it Hbw Hf; [lia|].
  cbn [absorb_loop]. destruct (Nat.eqb_spec (length input) 0) as [E0|E0].
  { rewrite E0. cbn [Nat.div Nat.divmod fst Nat.mul]. rewrite drop_0, Nat.add_0_r. f_equal. f_equal.
    rewrite <- (lane_xor_0 st) at 1. apply lane_xor_ext. intros j _.
    destruct (Nat.leb_spec it j), (Nat.ltb_spec j it); cbn; try done; lia. }
  destruct (Nat.leb_spec (8 * bw) (length input)); [lia|].
  destruct (Nat.leb_spec 8 (length input)) as [H8|H8].
  - rewrite IH; rewrite !length_drop; [|lia|lia].
    assert (length input / 8 = S ((length input - 8) / 8))%nat as Hd.
    { replace (length input) with (length input - 8 + 1 * 8)%nat at 1 by lia.
      rewrite Nat.div_add by lia. lia. }
    rewrite Hd, drop_drop, xor_at_lane, lane_xor_xor. f_equal; [f_equal|lia].
    + f_equal. lia.
    + apply lane_xor_ext. intros j _. destruct (Nat.eqb_spec j it) as [->|Hne].
      * replace ((S it <=? it)%nat) with false by (symmetry; apply Nat.leb_gt; lia).
        rewrite Nat.leb_refl.
        replace ((it <? it + S _)%nat) with true by (symmetry; apply Nat.ltb_lt; lia).
        cbn [andb]. rewrite Z.lxor_0_r, Nat.sub_diag. unfold ref_word, load_le.
        by rewrite Nat.mul_0_r, drop_0.
      * rewrite Z.lxor_0_l.
        replace ((S it <=? j) && (j <? S it + (length input - 8) / 8))%nat
          with ((it <=? j) && (j <? it + S ((length input - 8) / 8)))%nat.
        2: { apply eq_true_iff_eq. rewrite !andb_true_iff, !Nat.leb_le, !Nat.ltb_lt. lia. }
        destruct (Nat.leb_spec it j); [|done]. destruct (_ <? _)%nat; [|done]. cbn [andb].
        unfold ref_word. rewrite drop_drop. do 3 f_equal. lia.
  - rewrite Nat.div_small by lia. rewrite drop_0, Nat.add_0_r. f_equal. f_equal.
    rewrite <- (lane_xor_0 st) at 1. apply lane_xor_ext. intros j _.
    destruct (Nat.leb_spec it j), (Nat.ltb_spec j it); cbn; try done; lia.
Qed.

Lemma nth_zero_bytes i n : nth i (zero_bytes n) 0 = 0.
Proof. revert i; induction n as [|n IH]; intros [|i]; cbn; [done|done|done|apply IH]. Qed.

Lemma of_le_zeros_r l n : of_le (l ++ zero_bytes n) = of_le l.
Proof.
  unfold of_le. rewrite rev_app_distr.
  replace (rev (zero_bytes n)) with (zero_bytes n); [apply of_be_zeros_l|].
  unfold zero_bytes. induction n as [|n IH]; [done|].
  rewrite replicate_S at 2. cbn [rev]. by rewrite <- IH, <- replicate_cons_app.
Qed.

Lemma of_le_zeros n : of_le (zero_bytes n) = 0.
Proof. apply (of_le_zeros_r [] n). Qed.

(** Setting the top bit of a word whose top byte is below 128. *)
Lemma of_le_top_bit l b :
  bytes_ok l -> length l = 7%nat -> 0 <= b < 128 ->
  of_le (l ++ [b ^^ 0x80]) = of_le (l ++ [b]) ^^ 0x8000000000000000.
Proof.
  intros Hl Hn Hb. unfold of_le. rewrite !rev_app_distr. cbn [rev app].
  rewrite !of_be_cons, !length_rev, Hn.
  pose proof (of_be_bound (rev l)) as Hbd. rewrite length_rev, Hn in Hbd.
  specialize (Hbd (Forall_rev Hl)).
  assert (b ^^ 0x80 = b + 0x80) as ->.
  { symmetry. apply Z.add_nocarry_lxor.
    assert (In b (map Z.of_nat (seq 0 128))) as Hin.
    { apply in_map_iff. exists (Z.to_nat b). rewrite in_seq. lia. }
    assert (forallb (fun b => Z.land b 128 =? 0) (map Z.of_nat (seq 0 128)) = true) as Hall
      by (vm_compute; reflexivity).
    rewrite forallb_forall in Hall. specialize (Hall b Hin). b2p. done. }
  set (x := b * 256 ^ Z.of_nat 7 + of_be (rev l)).
  replace ((b + 128) * 256 ^ Z.of_nat 7 + of_be (rev l)) with (x + 2 ^ 63) by (unfold x; lia).
  change 0x8000000000000000 with (2 ^ 63). apply Z.add_nocarry_lxor.
  assert (0 <= x < 2 ^ 63) as Hx by (unfold x; lia).
  apply Z.bits_inj'. intros i Hi. rewrite Z.land_spec, Z.bits_0, Z.pow2_bits_eqb by lia.
  destruct (Z.eqb_spec 63 i) as [<-|]; [|apply andb_false_r].
  rewrite andb_true_r. destruct (Z.eq_dec x 0) as [->|]; [apply Z.bits_0|].
  apply Z.bits_above_log2; [lia|]. apply Z.log2_lt_pow2; lia.
Qed.

Lemma ref_word_app_l j p q : (8 * j + 8 <= length p)%nat -> ref_word j (p ++ q) = ref_word j p.
Proof.
  intros H. unfold ref_word. f_equal. rewrite drop_app_le by lia.
  rewrite take_app_le; [done|]. rewrite length_drop. lia.
Qed.

(** The words of the padded last block before the final bit is set. *)
Lemma ref_word_padded input m j :
  (8 * j + 8 <= length input + 1 + m)%nat ->
  ref_word j (input ++ [0x01] ++ zero_bytes m)
  = (if (j <? length input / 8)%nat then ref_word j input else 0)
    ^^ (if (j =? length input / 8)%nat
        then of_le (drop (8 * (length input / 8)) input ++ [0x01]) else 0).
Proof.
  intros Hm. set (k := (length input / 8)%nat).
  pose proof (Nat.div_mod_eq (length input) 8) as Hdm. fold k in Hdm.
  pose proof (Nat.mod_upper_bound (length input) 8 ltac:(lia)).
  destruct (Nat.ltb_spec j k) as [Hj|Hj].
  { rewrite ref_word_app_l by lia. destruct (Nat.eqb_spec j k); [lia|]. by rewrite Z.lxor_0_r. }
  rewrite Z.lxor_0_l. destruct (Nat.eqb_spec j k) as [->|Hne].
  - unfold ref_word. rewrite drop_app_le by lia.
    set (rest := drop (8 * k) input).
    assert (length rest = length input - 8 * k)%nat as Hr by apply length_drop.
    rewrite take_app_ge by lia.
    replace (8 - length rest)%nat with (S (7 - length rest)) by lia. cbn [firstn app].
    unfold zero_bytes. rewrite take_replicate.
    replace (rest ++ 1 :: replicate (Nat.min (7 - length rest) m) 0)
      with ((rest ++ [1]) ++ zero_bytes (Nat.min (7 - length rest) m)) by (by rewrite <- app_assoc).
    by rewrite of_le_zeros_r.
  - unfold ref_word. rewrite drop_app_ge by lia. cbn [app].
    replace (8 * j - length input)%nat with (S (8 * j - length input - 1)) by lia. cbn [skipn].
    unfold zero_bytes. rewrite drop_replicate, take_replicate. apply of_le_zeros.
Qed.

Lemma ref_word_last_bit bw p j :
  (0 < bw)%nat -> length p = (8 * bw)%nat -> bytes_ok p -> nth (8 * bw - 1) p 0 < 128 ->
  (j < bw)%nat ->
  ref_word j (alter (fun b => b ^^ 0x80) (length p - 1)%nat p)
  = ref_word j p ^^ (if (j =? bw - 1)%nat then 0x8000000000000000 else 0).
Proof.
  intros Hbw Hp Hok Hlast Hj.
  assert (exists p1 l b, p = p1 ++ l ++ [b] /\ length p1 = (8 * (bw - 1))%nat /\ length l = 7%nat)
    as (p1 & l & b & -> & Hp1 & Hl).
  { exists (take (8 * (bw - 1)) p), (take 7 (drop (8 * (bw - 1)) p)), (nth (8 * bw - 1) p 0).
    rewrite !length_take, length_drop. split; [|lia].
    rewrite <- (take_drop (8 * (bw - 1)) p) at 1. f_equal.
    rewrite <- (take_drop 7 (drop _ p)) at 1. f_equal. rewrite drop_drop.
    destruct (drop (8 * (bw - 1) + 7) p) as [|b [|? ?]] eqn:E;
      apply (f_equal length) in E as E'; rewrite length_drop in E'; cbn in E'; try lia.
    f_equal. rewrite <- (take_drop (8 * (bw - 1) + 7) p), E, app_nth2; rewrite length_take; [|lia].
    by replace (8 * bw - 1 - _)%nat with 0%nat by lia. }
  rewrite !length_app in *. cbn [length] in *.
  replace (length p1 + (length l + 1) - 1)%nat with (length p1 + (length l + 0))%nat by lia.
  rewrite !alter_app_r.
  replace (alter (fun b => b ^^ 0x80) 0%nat [b]) with [b ^^ 0x80] by done.
  assert (b < 128) as Hb.
  { rewrite app_nth2 in Hlast by lia. rewrite app_nth2 in Hlast by lia.
    replace (8 * bw - 1 - _ - _)%nat with 0%nat in Hlast by lia. done. }
  apply Forall_app in Hok as [_ Hok]. apply Forall_app in Hok as [Hlok Hbok].
  inversion_clear Hbok as [|? ? Hb0 _]. unfold byte_ok in Hb0.
  destruct (Nat.eqb_spec j (bw - 1)) as [->|Hne].
  - unfold ref_word. rewrite !drop_app_length' by lia.
    rewrite !take_ge by (rewrite length_app; cbn; lia). apply of_le_top_bit; [done|done|lia].
  - rewrite Z.lxor_0_r, !ref_word_app_l by lia. done.
Qed.

Lemma length_ref_pad bs input :
  (0 < bs)%nat -> length (ref_pad bs input) = (bs * S (length input / bs))%nat.
Proof.
  intros H. unfold ref_pad. rewrite length_alter, !length_app, length_zero_bytes. cbn [length].
  pose proof (Nat.div_mod_eq (length input) bs).
  pose proof (Nat.mod_upper_bound (length input) bs ltac:(lia)). lia.
Qed.

Lemma ref_pad_app bs blk rest :
  (0 < bs)%nat -> length blk = bs -> ref_pad bs (blk ++ rest) = blk ++ ref_pad bs rest.
Proof.
  intros H Hb. unfold ref_pad. rewrite <- app_assoc.
  assert (length (blk ++ rest) mod bs = length rest mod bs)%nat as ->.
  { rewrite length_app, Hb. replace (bs + length rest)%nat with (length rest + 1 * bs)%nat by lia.
    apply Nat.Div0.mod_add. }
  set (p := rest ++ _). rewrite length_app.
  assert (0 < length p)%nat by (unfold p; rewrite length_app; cbn; lia).
  replace (length blk + length p - 1)%nat with (length blk + (length p - 1))%nat by lia.
  apply alter_app_r.
Qed.

(** The loop and the padding after it absorb exactly the padded blocks. *)
Lemma absorb_loop_ref fuel bw input st rest s it :
  (0 < bw <= 25)%nat -> bytes_ok input -> length st = 25%nat -> (length input < fuel)%nat ->
  absorb_loop fuel bw input st 0 = (rest, s, it) ->
  keccakf1600_implementation
    (xor_at (bw - 1) 0x8000000000000000 (xor_at it (of_le (rest ++ [0x01])) s))
  = ref_absorb (length (ref_pad (8 * bw) input) / (8 * bw)) bw (ref_pad (8 * bw) input) st.
Proof.
  intros Hbw. revert input st; induction fuel as [|fuel IH]; intros input st Hok Hst Hf; [lia|].
  rewrite length_ref_pad, (Nat.mul_comm (8 * bw)), Nat.div_mul by lia.
  destruct (Nat.leb_spec (8 * bw) (length input)) as [Hge|Hlt].
  - cbn [absorb_loop]. destruct (Nat.eqb_spec (length input) 0); [lia|].
    destruct (Nat.leb_spec (8 * bw) (length input)); [|lia]. intros Habs.
    apply IH in Habs; [|by apply Forall_drop|apply length_keccak_f|rewrite length_drop; lia].
    rewrite Habs, length_ref_pad, (Nat.mul_comm (8 * bw)), Nat.div_mul, length_drop by lia.
    assert (length input / (8 * bw) = S ((length input - 8 * bw) / (8 * bw)))%nat as ->.
    { replace (length input) with (length input - 8 * bw + 1 * (8 * bw))%nat at 1 by lia.
      rewrite Nat.div_add by lia. lia. }
    set (blocks := S _). cbn [ref_absorb].
    assert (ref_pad (8 * bw) input = take (8 * bw) input ++ ref_pad (8 * bw) (drop (8 * bw) input))
      as ->.
    { rewrite <- ref_pad_app, take_drop; [done|lia|rewrite length_take; lia]. }
    rewrite take_app_length', drop_app_length' by (rewrite length_take; lia).
    rewrite ref_xor_block_take, absorb_block_ref.
    rewrite (keccak_f_ref (ref_xor_block bw input st)); [reflexivity|].
    by rewrite length_ref_xor_block.
  - rewrite absorb_loop_tail by lia. intros E. apply pair_equal_spec in E as [E <-].
    apply pair_equal_spec in E as [<- <-].
    rewrite (Nat.div_small (length input) (8 * bw)) by lia. cbn [ref_absorb].
    rewrite !xor_at_lane, !lane_xor_xor.
    rewrite keccak_f_ref; [|by rewrite length_lane_xor].
    apply (f_equal ref_keccak_f). rewrite ref_xor_block_take. apply lane_xor_ext. intros j Hj.
    set (q := (8 * bw - length input mod (8 * bw))%nat).
    set (p := input ++ [0x01] ++ zero_bytes (q - 1)).
    assert (q = 8 * bw - length input)%nat as Hq by (unfold q; rewrite Nat.mod_small; lia).
    assert (length p = 8 * bw)%nat as Hp.
    { unfold p. rewrite !length_app, length_zero_bytes. cbn [length]. lia. }
    destruct (Nat.ltb_spec j bw) as [Hjb|Hjb].
    + change (ref_pad (8 * bw) input) with (alter (fun b => b ^^ 0x80) (length p - 1)%nat p).
      rewrite (ref_word_last_bit bw); [|lia|done| | |done].
      * unfold p. rewrite ref_word_padded by lia.
        change (0 <=? j)%nat with true. rewrite ?Nat.add_0_l, ?Nat.sub_0_r. cbn [andb].
        by rewrite Z.lxor_assoc.
      * unfold p. rewrite !Forall_app. split; [done|]. split; [|apply zero_bytes_ok].
        repeat constructor; unfold byte_ok; lia.
      * unfold p. rewrite app_nth2 by lia. cbn [app].
        destruct (8 * bw - 1 - length input)%nat; cbn [nth]; [lia|]. rewrite nth_zero_bytes. lia.
    + rewrite ?Nat.add_0_l.
      pose proof (Nat.div_mod_eq (length input) 8).
      destruct (Nat.ltb_spec j (length input / 8)), (Nat.eqb_spec j (length input / 8)),
        (Nat.eqb_spec j (bw - 1)); try lia. done.
Qed.

(** ** The shape of a digest *)

Lemma length_words l : length (concat (map (to_le 8) l)) = (8 * length l)%nat.
Proof.
  induction l as [|w l IH]; [done|]. cbn [map concat length]. rewrite length_app, IH.
  unfold to_le. rewrite length_rev, length_to_be. lia.
Qed.

Lemma words_ok l : bytes_ok (concat (map (to_le 8) l)).
Proof.
  induction l as [|w l IH]; [constructor|]. cbn [map concat]. apply Forall_app. split; [|done].
  unfold to_le. apply Forall_rev, to_be_ok.
Qed.

Lemma length_keccak256 input : length (keccak256 input) = 32%nat.
Proof.
  unfold keccak256, keccak. destruct (absorb_loop _ _ _ _ _) as [[rest s] it].
  rewrite length_words, length_take, length_keccak_f. reflexivity.
Qed.

Lemma keccak256_ok input : bytes_ok (keccak256 input).
Proof.
  unfold keccak256, keccak. destruct (absorb_loop _ _ _ _ _) as [[rest s] it]. apply words_ok.
Qed.

Lemma length_keccak512 input : length (keccak512 input) = 64%nat.
Proof.
  unfold keccak512, keccak. destruct (absorb_loop _ _ _ _ _) as [[rest s] it].
  rewrite length_words, length_take, length_keccak_f. reflexivity.
Qed.

(** * Properties *)

(** C35: the word-streaming Keccak of the source computes the reference sponge: pad10*1
    padding, blocks of 1600 - 2 * bits bits, 24 rounds of the five step mappings per block; the loop
    ends within its fuel. *)
Theorem keccak_is_sponge input :
  bytes_ok input ->
  keccak256 input = ref_sponge 256 input /\ keccak512 input = ref_sponge 512 input.
Proof.
  intros Hok. split.
  - unfold keccak256, keccak, ref_sponge.
    change ((1600 - 256 * 2) / 8)%nat with (8 * 17)%nat. change (8 * 17 / 8)%nat with 17%nat.
    destruct (absorb_loop _ _ _ _ _) as [[rest s] it] eqn:E.
    apply absorb_loop_ref in E; [|lia|done|done|lia]. by rewrite E.
  - unfold keccak512, keccak, ref_sponge.
    change ((1600 - 512 * 2) / 8)%nat with (8 * 9)%nat. change (8 * 9 / 8)%nat with 9%nat.
    destruct (absorb_loop _ _ _ _ _) as [[rest s] it] eqn:E.
    apply absorb_loop_ref in E; [|lia|done|done|lia]. by rewrite E.
Qed.

Lemma keccak_is_sponge_witness :
  bytes_ok [] /\ keccak256 [] = ref_sponge 256 [] /\ keccak512 [] = ref_sponge 512 [].
Proof. split; [constructor|]. apply keccak_is_sponge. constructor. Defined.

#[local] Transparent keccakf1600_implementation ref_keccak_f.

(** the hash constants of base.hpp are the Keccak-256 digests their comments
    name: of the empty string, of the RLP of an empty list, and of the RLP of an empty string. *)
Theorem hash_constants :
  keccak256 [] = kEmptyHash /\ keccak256 [0xc0] = kEmptyListHash /\ keccak256 [0x80] = kEmptyRoot.
Proof. vm_compute. repeat split. Qed.

#[global] Opaque keccak256 keccak512.
