(* ===== verification/Rlp.v ===== *)
(** * Rlp: core/silkworm/rlp (encode.hpp, encode.cpp, decode.hpp, decode.cpp)

    RLP encoding and decoding of scalars, byte strings, fixed-size arrays and vectors. A C++
    [encode(to, x)] appends to [to]: the model gives the appended bytes. A C++ [decode(from, to)]
    consumes a prefix of [from]: the model returns the value and what is left of [from], or the error
    code; after an error no caller looks at [from] or at the partly written [to]. The overloads are
    gathered in the classes [RlpEncode] and [RlpDecode], with the laws a client relies on in
    [RlpCodec] (round trip) and [RlpCanonical] (only the encoder's output is accepted). *)

From S2P Require Import Prelude Util.
Local Open Scope Z_scope.
Local Open Scope silk_scope.

(** ** Errors and headers *)

(** [enum class DecodingResult]; [kOk] is the constructor [Ok] of [result]. *)
Inductive DecodingError : Type :=
| kOverflow
| kLeadingZero
| kInputTooShort
| kNonCanonicalSingleByte
| kNonCanonicalSize
| kUnexpectedLength
| kUnexpectedString
| kUnexpectedList
| kListLengthMismatch
| kUnsupportedEip2718Type.

Notation decoded := (result DecodingError).

Record Header : Type := mkHeader { h_list : bool; h_payload_length : Z }.

Definition kEmptyStringCode : Z := 0x80.
Definition kEmptyListCode : Z := 0xC0.

(** ** Encoding *)

Definition big_endian_u64 (n : Z) : bytes := drop (Z.to_nat (clz 64 n / 8)) (to_be 8 n).
Definition big_endian_u256 (n : Z) : bytes := drop (Z.to_nat (clz 256 n / 8)) (to_be 32 n).

Definition encode_header (h : Header) : bytes :=
  if h_payload_length h <? 56 then
    [u8 ((if h_list h then kEmptyListCode else kEmptyStringCode) + h_payload_length h)]
  else
    let len_be := big_endian_u64 (h_payload_length h) in
    [u8 ((if h_list h then 0xF7 else 0xB7) + zlen len_be)] ++ len_be.

Definition length_of_length (payload_length : Z) : Z :=
  if payload_length <? 56 then 1 else 1 + 8 - clz 64 payload_length / 8.

(** [s.length() != 1 || s[0] >= kEmptyStringCode] *)
Definition needs_header (s : bytes) : bool :=
  match s with [b] => kEmptyStringCode <=? b | _ => true end.

Definition encode_bytes (s : bytes) : bytes :=
  (if needs_header s then encode_header (mkHeader false (zlen s)) else []) ++ s.

Definition length_bytes (s : bytes) : Z :=
  if needs_header s then u64 (zlen s + length_of_length (zlen s)) else zlen s.

Definition encode_bytes32 (hash : bytes) : bytes :=
  [u8 (kEmptyStringCode + Z.of_nat kHashLength)] ++ hash.

Definition length_bytes32 (hash : bytes) : Z := Z.of_nat kHashLength + 1.

(** The [gsl::span<const uint8_t, N>] overload, [N <= 55]. *)
Definition encode_fixed (N : nat) (b : bytes) : bytes := [u8 (kEmptyStringCode + Z.of_nat N)] ++ b.

Definition encode_u64 (n : Z) : bytes :=
  if n =? 0 then [kEmptyStringCode]
  else if n <? kEmptyStringCode then [u8 n]
  else let be := big_endian_u64 n in [u8 (kEmptyStringCode + zlen be)] ++ be.

Definition length_u64 (n : Z) : Z :=
  if n <? kEmptyStringCode then 1 else 1 + 8 - clz 64 n / 8.

Definition encode_u256 (n : Z) : bytes :=
  if n =? 0 then [kEmptyStringCode]
  else if n <? kEmptyStringCode then [u8 n]
  else let be := big_endian_u256 n in [u8 (kEmptyStringCode + zlen be)] ++ be.

Definition length_u256 (n : Z) : Z :=
  if n <? kEmptyStringCode then 1 else 1 + 32 - clz 256 n / 8.

(** [encode(to, bool)] and [length(bool)] convert to [uint64_t]. *)
Definition encode_bool (b : bool) : bytes := encode_u64 (Z.b2z b).
Definition length_bool (b : bool) : Z := length_u64 (Z.b2z b).

Class RlpEncode (A : Type) : Type := {
  rlp_encode : A -> bytes;
  rlp_length : A -> Z
}.

(** [h.payload_length += length(x)] over a vector, in 64 bits. *)
Definition vector_payload_length {A} `{RlpEncode A} (v : list A) : Z :=
  foldl (fun acc x => u64 (acc + rlp_length x)) 0 v.

Definition encode_vector {A} `{RlpEncode A} (v : list A) : bytes :=
  encode_header (mkHeader true (vector_payload_length v)) ++ concat (map rlp_encode v).

Definition length_vector {A} `{RlpEncode A} (v : list A) : Z :=
  u64 (length_of_length (vector_payload_length v) + vector_payload_length v).

(** ** Decoding *)

Definition read_uint (kMaxBytes : nat) (be : bytes) (allow_leading_zeros : bool) : decoded Z :=
  if (kMaxBytes <? length be)%nat then Err kOverflow
  else match be with
  | [] => Ok 0
  | b0 :: _ =>
      if (b0 =? 0) && negb allow_leading_zeros then Err kLeadingZero
      else Ok (of_be (zero_bytes (kMaxBytes - length be) ++ be))
  end.

Definition read_uint64 (be : bytes) : decoded Z := read_uint 8 be false.
Definition read_uint256 (be : bytes) : decoded Z := read_uint 32 be false.

(** The two long forms of [decode_header], which differ in [list] and in the offset of the
    length-of-length code; [from] no longer holds the first byte. *)
Definition decode_long_header (list : bool) (len_of_len : Z) (from : bytes)
  : decoded (Header * bytes) :=
  if zlen from <? len_of_len then Err kInputTooShort
  else
    try len := read_uint64 (take (Z.to_nat len_of_len) from) in
    let from := drop (Z.to_nat len_of_len) from in
    if len <? 56 then Err kNonCanonicalSize
    else Ok (mkHeader list len, from).

(** Everything of [decode_header] before its final length check. *)
Definition decode_header_code (from : bytes) : decoded (Header * bytes) :=
  match from with
  | [] => Err kInputTooShort
  | b :: from' =>
      if b <? 0x80 then Ok (mkHeader false 1, from)
      else if b <? 0xB8 then
        let h := mkHeader false (b - 0x80) in
        if h_payload_length h =? 1 then
          match from' with
          | [] => Err kInputTooShort
          | c :: _ => if c <? 0x80 then Err kNonCanonicalSingleByte else Ok (h, from')
          end
        else Ok (h, from')
      else if b <? 0xC0 then decode_long_header false (b - 0xB7) from'
      else if b <? 0xF8 then Ok (mkHeader true (b - 0xC0), from')
      else decode_long_header true (b - 0xF7) from'
  end.

Definition decode_header (from : bytes) : decoded (Header * bytes) :=
  try (h, from) := decode_header_code from in
  if zlen from <? h_payload_length h then Err kInputTooShort else Ok (h, from).

Definition decode_bytes (from : bytes) : decoded (bytes * bytes) :=
  try (h, from) := decode_header from in
  if h_list h then Err kUnexpectedList
  else
    let n := Z.to_nat (h_payload_length h) in
    Ok (take n from, drop n from).

Definition decode_fixed (N : nat) (from : bytes) : decoded (bytes * bytes) :=
  try (h, from) := decode_header from in
  if h_list h then Err kUnexpectedList
  else if negb (h_payload_length h =? Z.of_nat N) then Err kUnexpectedLength
  else Ok (take N from, drop N from).

Definition decode_bytes32 (from : bytes) : decoded (bytes * bytes) := decode_fixed kHashLength from.

Definition decode_uint (read : bytes -> decoded Z) (from : bytes) : decoded (Z * bytes) :=
  try (h, from) := decode_header from in
  if h_list h then Err kUnexpectedList
  else
    let n := Z.to_nat (h_payload_length h) in
    try to := read (take n from) in
    Ok (to, drop n from).

Definition decode_u64 (from : bytes) : decoded (Z * bytes) := decode_uint read_uint64 from.
Definition decode_u256 (from : bytes) : decoded (Z * bytes) := decode_uint read_uint256 from.

Definition decode_bool (from : bytes) : decoded (bool * bytes) :=
  try (i, from) := decode_u64 from in
  if 1 <? i then Err kOverflow else Ok (negb (i =? 0), from).

Class RlpDecode (A : Type) : Type := { rlp_decode : bytes -> decoded (A * bytes) }.

(** The loop of [decode_vector]. The fuel is the length of the payload: every element decoded takes at
    least one byte, so the loop ends before the fuel does. *)
Fixpoint decode_items {A} `{RlpDecode A} (fuel : nat) (payload_view : bytes) : decoded (list A) :=
  match payload_view with
  | [] => Ok []
  | _ =>
      match fuel with
      | O => Undef
      | S fuel' =>
          try (x, rest) := rlp_decode payload_view in
          try xs := decode_items fuel' rest in
          Ok (x :: xs)
      end
  end.

Definition decode_vector {A} `{RlpDecode A} (from : bytes) : decoded (list A * bytes) :=
  try (h, from) := decode_header from in
  if negb (h_list h) then Err kUnexpectedString
  else
    let n := Z.to_nat (h_payload_length h) in
    try xs := decode_items n (take n from) in
    Ok (xs, drop n from).

(** The frame of every structure's decoder: the header of a list, the fields, and the check that they
    took exactly the announced payload ([leftover], a difference that [decode_header] keeps
    non-negative). The fields are read from the whole view. *)
Definition decode_list {A} (fields : bytes -> decoded (A * bytes)) (from : bytes)
  : decoded (A * bytes) :=
  try (h, from) := decode_header from in
  if negb (h_list h) then Err kUnexpectedString
  else
    let leftover := zlen from - h_payload_length h in
    try (x, from) := fields from in
    if zlen from =? leftover then Ok (x, from) else Err kListLengthMismatch.

(** ** Instances: the overload sets [encode], [length], [decode] *)

(** Element types that share the carrier [bytes] or [Z] get a wrapper naming the overload. *)
Record Bytes32 : Type := mkBytes32 { bytes32 : bytes }.
Record ByteString : Type := mkByteString { byte_string : bytes }.
Record Uint64 : Type := mkUint64 { uint64 : Z }.

#[export] Instance Bytes32_encode : RlpEncode Bytes32 :=
  {| rlp_encode x := encode_bytes32 (bytes32 x); rlp_length x := length_bytes32 (bytes32 x) |}.
#[export] Instance Bytes32_decode : RlpDecode Bytes32 :=
  {| rlp_decode from := try (b, r) := decode_bytes32 from in Ok (mkBytes32 b, r) |}.
#[export] Instance ByteString_encode : RlpEncode ByteString :=
  {| rlp_encode x := encode_bytes (byte_string x); rlp_length x := length_bytes (byte_string x) |}.
#[export] Instance ByteString_decode : RlpDecode ByteString :=
  {| rlp_decode from := try (b, r) := decode_bytes from in Ok (mkByteString b, r) |}.
#[export] Instance Uint64_encode : RlpEncode Uint64 :=
  {| rlp_encode x := encode_u64 (uint64 x); rlp_length x := length_u64 (uint64 x) |}.
#[export] Instance Uint64_decode : RlpDecode Uint64 :=
  {| rlp_decode from := try (n, r) := decode_u64 from in Ok (mkUint64 n, r) |}.
#[export] Instance vector_encode {A} `{RlpEncode A} : RlpEncode (list A) :=
  {| rlp_encode := encode_vector; rlp_length := length_vector |}.
#[export] Instance vector_decode {A} `{RlpDecode A} : RlpDecode (list A) :=
  {| rlp_decode := decode_vector |}.

(** ** Laws *)

(** What an encoder and a decoder of one type promise to a client on well-formed values. *)
Class RlpCodec (A : Type) (wf : A -> Prop) `{RlpEncode A, RlpDecode A} : Prop := {
  codec_length : forall x, wf x -> zlen (rlp_encode x) = rlp_length x;
  codec_nonempty : forall x, wf x -> rlp_encode x <> [];
  codec_roundtrip : forall x rest, wf x -> rlp_decode (rlp_encode x ++ rest) = Ok (x, rest)
}.

(** The decoder accepts no byte string but the encoder's. *)
Class RlpCanonical (A : Type) (wf : A -> Prop) `{RlpEncode A, RlpDecode A} : Prop := {
  canonical_decode : forall from x rest, bytes_ok from -> zlen from < 2 ^ 63 ->
    rlp_decode from = Ok (x, rest) -> wf x /\ from = rlp_encode x ++ rest
}.

(** The decoder never leaves its view, and an element takes at least one byte. *)
Class RlpTotal (A : Type) `{RlpDecode A} : Prop := {
  total_defined : forall from, rlp_decode (A := A) from <> Undef;
  total_progress : forall from x rest, rlp_decode (A := A) from = Ok (x, rest) -> (length rest < length from)%nat
}.

Definition wf_u64 (n : Z) : Prop := 0 <= n < 2 ^ 64.
Definition wf_u256 (n : Z) : Prop := 0 <= n < 2 ^ 256.
Definition wf_bytes (s : bytes) : Prop := bytes_ok s /\ zlen s < 2 ^ 63.
Definition wf_fixed (N : nat) (s : bytes) : Prop := bytes_ok s /\ length s = N.

(** A vector is well formed when its elements are and its encoding fits in memory. *)
Definition wf_vector {A} `{RlpEncode A} (wf : A -> Prop) (v : list A) : Prop :=
  Forall wf v /\ zlen (concat (map rlp_encode v)) < 2 ^ 63.

(** * Lemmas: scalars *)

Lemma result_bind_Ok {E A B} (m : result E A) (f : A -> result E B) b :
  result_bind m f = Ok b -> exists a, m = Ok a /\ f a = Ok b.
Proof. destruct m; cbn; [eauto|done|done]. Qed.

(** Decompose a successful bind in the hypotheses. *)
Ltac inv_bind :=
  repeat match goal with
  | H : result_bind _ _ = Ok _ |- _ =>
      let p := fresh "p" in let E := fresh "E" in
      apply result_bind_Ok in H as [p [E H]];
      match type of p with prod _ _ => let h := fresh "h" in let r := fresh "r" in
        destruct p as [h r] | _ => idtac end
  end.

Lemma big_endian_u64_eq n : 0 <= n < 2 ^ 64 -> big_endian_u64 n = to_be (be_len n) n.
Proof. intros H. apply (drop_clz_to_be 8). done. Qed.

Lemma big_endian_u256_eq n : 0 <= n < 2 ^ 256 -> big_endian_u256 n = to_be (be_len n) n.
Proof. intros H. apply (drop_clz_to_be 32). done. Qed.

Lemma be_len_u64 n : 0 <= n < 2 ^ 64 -> (be_len n <= 8)%nat.
Proof. intros H. by apply be_len_le. Qed.

Lemma be_len_u256 n : 0 <= n < 2 ^ 256 -> (be_len n <= 32)%nat.
Proof. intros H. by apply be_len_le. Qed.

Lemma be_len_clz N n :
  0 < n < 256 ^ Z.of_nat N ->
  1 + Z.of_nat N - clz (8 * Z.of_nat N) n / 8 = 1 + Z.of_nat (be_len n).
Proof.
  intros Hn. assert (drop (Z.to_nat (clz (8 * Z.of_nat N) n / 8)) (to_be N n)
    = to_be (be_len n) n) as E by (apply drop_clz_to_be; lia).
  apply (f_equal length) in E. rewrite length_drop, !length_to_be in E.
  pose proof (be_len_pos n ltac:(lia)).
  assert (0 <= clz (8 * Z.of_nat N) n / 8).
  { apply Z.div_pos; [|lia]. unfold clz. zif.
    assert (Z.log2 n < 8 * Z.of_nat N); [|lia]. apply Z.log2_lt_pow2; [lia|].
    rewrite <- pow256; lia. }
  lia.
Qed.

Lemma be_len_clz64 n : 0 < n < 2 ^ 64 -> 1 + 8 - clz 64 n / 8 = 1 + Z.of_nat (be_len n).
Proof. exact (be_len_clz 8 n). Qed.

Lemma be_len_clz256 n : 0 < n < 2 ^ 256 -> 1 + 32 - clz 256 n / 8 = 1 + Z.of_nat (be_len n).
Proof. exact (be_len_clz 32 n). Qed.

Lemma read_uint_ok N be z :
  bytes_ok be -> read_uint N be false = Ok z ->
  (length be <= N)%nat /\ z = of_be be /\ be = to_be (be_len z) z.
Proof.
  intros Hok. unfold read_uint. zif; [done|].
  destruct be as [|b0 be']; [intros [= <-]; done|].
  destruct (Z.eqb_spec b0 0) as [->|Hne]; cbn [andb negb]; [done|]. intros [= <-].
  rewrite of_be_zeros_l. split; [lia|]. split; [done|].
  symmetry. by apply be_compact_of_be.
Qed.

Lemma read_uint_compact N z :
  0 <= z -> (be_len z <= N)%nat -> read_uint N (to_be (be_len z) z) false = Ok z.
Proof.
  intros Hz HN. unfold read_uint. rewrite length_to_be. zif.
  destruct (Z.eq_dec z 0) as [->|Hne]; [done|].
  pose proof (of_be_compact z Hz) as Hof.
  destruct (be_compact_head z ltac:(lia)) as (b & l & E & Hb). rewrite E in *.
  destruct (Z.eqb_spec b 0); [lia|]. cbn [andb]. by rewrite of_be_zeros_l, Hof.
Qed.

(** * Lemmas: headers *)

Definition header_ok (h : Header) : Prop := 0 <= h_payload_length h < 2 ^ 64.

(** The single byte that stands for itself is read with this pseudo header. *)
Definition self_header (h : Header) (from : bytes) : Prop :=
  h = mkHeader false 1 /\ exists b l, from = b :: l /\ 0 <= b < 0x80.

Lemma length_encode_header h :
  header_ok h -> zlen (encode_header h) = length_of_length (h_payload_length h).
Proof.
  unfold header_ok, encode_header, length_of_length. intros H. zif; [done|].
  rewrite big_endian_u64_eq by lia. cbn [app length]. rewrite length_to_be.
  rewrite be_len_clz64 by lia. lia.
Qed.

Lemma length_of_length_range p : 0 <= p < 2 ^ 64 -> 1 <= length_of_length p <= 9.
Proof.
  intros H. pose proof (length_encode_header (mkHeader true p) H) as E. cbn in E. rewrite <- E.
  unfold encode_header. cbn [h_payload_length h_list]. zif; [cbn; lia|].
  rewrite big_endian_u64_eq by lia. cbn [app length]. rewrite length_to_be.
  pose proof (be_len_u64 p H). lia.
Qed.

Lemma encode_header_nonempty h : encode_header h <> [].
Proof. unfold encode_header. by case_match. Qed.

Lemma decode_long_header_encode l n rest :
  56 <= n < 2 ^ 64 ->
  decode_long_header l (Z.of_nat (be_len n)) (to_be (be_len n) n ++ rest)
  = Ok (mkHeader l n, rest).
Proof.
  intros Hn. unfold decode_long_header. rewrite length_app, length_to_be. zif.
  rewrite Nat2Z.id, take_app_length', drop_app_length' by (symmetry; apply length_to_be).
  unfold read_uint64. rewrite read_uint_compact by (try apply be_len_u64; lia).
  cbn [result_bind]. zif. done.
Qed.

Lemma decode_encode_header h rest :
  header_ok h -> h_payload_length h <= zlen rest ->
  (h = mkHeader false 1 -> exists b l, rest = b :: l /\ 0x80 <= b) ->
  decode_header (encode_header h ++ rest) = Ok (h, rest).
Proof.
  destruct h as [l n]. unfold header_ok, encode_header. cbn [h_list h_payload_length].
  intros Hn Hlen H1. unfold decode_header.
  enough (decode_header_code ((if n <? 56 then
      [u8 ((if l then kEmptyListCode else kEmptyStringCode) + n)]
    else [u8 ((if l then 0xF7 else 0xB7) + zlen (big_endian_u64 n))] ++ big_endian_u64 n) ++ rest)
    = Ok (mkHeader l n, rest)) as E.
  { rewrite E. cbn [result_bind h_payload_length]. zif. done. }
  unfold kEmptyListCode, kEmptyStringCode. zif.
  - cbn [app]. unfold decode_header_code. destruct l; unwrap; cbn [h_payload_length]; zif.
    + do 3 f_equal. lia.
    + replace n with 1 in * by lia. destruct (H1 eq_refl) as (b & l & -> & Hb). zif. done.
    + do 3 f_equal. lia.
  - rewrite big_endian_u64_eq by lia. rewrite length_to_be.
    pose proof (be_len_u64 n Hn). pose proof (be_len_pos n ltac:(lia)).
    cbn [app]. unfold decode_header_code. destruct l; unwrap; zif.
    + replace (247 + Z.of_nat (be_len n) - 247) with (Z.of_nat (be_len n)) by lia.
      apply decode_long_header_encode. lia.
    + replace (183 + Z.of_nat (be_len n) - 183) with (Z.of_nat (be_len n)) by lia.
      apply decode_long_header_encode. lia.
Qed.

Lemma decode_long_header_ok l k from h rest :
  1 <= k <= 8 -> bytes_ok from -> decode_long_header l k from = Ok (h, rest) ->
  h_list h = l /\ 56 <= h_payload_length h < 2 ^ 64
  /\ k = zlen (big_endian_u64 (h_payload_length h))
  /\ from = big_endian_u64 (h_payload_length h) ++ rest.
Proof.
  intros Hk Hok. unfold decode_long_header. destruct (Z.ltb_spec (zlen from) k); [done|].
  intros H'. inv_bind. case_in H'; [done|]. b2p. injection H' as <- <-. cbn [h_list h_payload_length].
  unfold read_uint64 in *.
  match goal with E : read_uint _ _ _ = Ok ?z |- _ =>
    apply read_uint_ok in E as (Hl & Hz & Hbe); [|by apply Forall_take] end.
  rewrite length_take in Hl.
  assert (0 <= p < 2 ^ 64) as Hp.
  { rewrite Hz. pose proof (of_be_bound (take (Z.to_nat k) from) (Forall_take _ _ _ Hok)) as Hb.
    rewrite length_take in Hb. split; [lia|].
    eapply Z.lt_le_trans; [apply Hb|]. change (2 ^ 64) with (256 ^ 8). apply Z.pow_le_mono_r; lia. }
  rewrite big_endian_u64_eq by done. rewrite <- Hbe, length_take, take_drop. repeat split; lia || done.
Qed.

(** What a successful [decode_header] has read. *)
Lemma decode_header_ok from h rest :
  bytes_ok from -> decode_header from = Ok (h, rest) ->
  header_ok h /\ h_payload_length h <= zlen rest
  /\ (from = encode_header h ++ rest
        /\ (h = mkHeader false 1 -> exists b l, rest = b :: l /\ 0x80 <= b)
      \/ from = rest /\ self_header h from).
Proof.
  intros Hok Hd. unfold decode_header in Hd. inv_bind. case_in Hd; [done|]. b2p.
  injection Hd as -> ->.
  enough (header_ok h /\ (from = encode_header h ++ rest
        /\ (h = mkHeader false 1 -> exists b l, rest = b :: l /\ 0x80 <= b)
      \/ from = rest /\ self_header h from)) by tauto.
  unfold decode_header_code in E. destruct from as [|b from]; [done|].
  inversion_clear Hok as [|? ? Hb Hf]. unfold byte_ok in Hb.
  destruct (Z.ltb_spec b 0x80).
  { injection E as <- <-. split; [unfold header_ok; cbn; lia|]. right. split; [done|].
    split; [done|]. exists b, from. split; [done|lia]. }
  destruct (Z.ltb_spec b 0xB8).
  { cbn [h_payload_length] in E. destruct (Z.eqb_spec (b - 0x80) 1) as [Hb1|Hb1].
    - destruct from as [|c l]; [done|]. destruct (Z.ltb_spec c 0x80); [done|]. injection E as <- <-.
      split; [unfold header_ok; cbn; lia|]. left. split.
      + unfold encode_header, kEmptyStringCode. cbn [h_list h_payload_length]. zif. unwrap.
        cbn [app]. f_equal. lia.
      + intros _. by exists c, l.
    - injection E as <- <-. split; [unfold header_ok; cbn; lia|]. left. split.
      + unfold encode_header, kEmptyStringCode. cbn [h_list h_payload_length]. zif. unwrap.
        cbn [app]. f_equal. lia.
      + intros [=]. lia. }
  destruct (Z.ltb_spec b 0xC0).
  { apply decode_long_header_ok in E as (Hl & Hp & Hk & ->); [|lia|done].
    split; [unfold header_ok; lia|]. left. split; [|intros ->; cbn in Hp; lia].
    unfold encode_header. zif. rewrite Hl, <- Hk. unwrap. cbn [app]. f_equal. lia. }
  destruct (Z.ltb_spec b 0xF8).
  { injection E as <- <-. split; [unfold header_ok; cbn; lia|]. left. split; [|done].
    unfold encode_header, kEmptyListCode. cbn [h_list h_payload_length]. zif. unwrap.
    cbn [app]. f_equal. lia. }
  apply decode_long_header_ok in E as (Hl & Hp & Hk & ->); [|lia|done].
  split; [unfold header_ok; lia|]. left. split; [|intros ->; cbn in Hp; lia].
  unfold encode_header. zif. rewrite Hl, <- Hk. unwrap. cbn [app]. f_equal. lia.
Qed.

(** * Lemmas: byte strings, and the scalars and arrays that reduce to them *)

Lemma zlen_app (a b : bytes) : zlen (a ++ b) = zlen a + zlen b.
Proof. rewrite length_app. lia. Qed.

Lemma length_encode_bytes s :
  zlen s < 2 ^ 63 -> zlen (encode_bytes s) = length_bytes s /\ 0 < length_bytes s <= zlen s + 9.
Proof.
  intros Hs. unfold encode_bytes, length_bytes. rewrite zlen_app.
  pose proof (length_of_length_range (zlen s) ltac:(lia)).
  destruct (needs_header s) eqn:E.
  - rewrite length_encode_header by (unfold header_ok; cbn [h_payload_length]; lia).
    cbn [h_payload_length]. unwrap. lia.
  - destruct s as [|b [|? ?]]; cbn in E |- *; try done; lia.
Qed.

Lemma encode_bytes_nonempty s : encode_bytes s <> [].
Proof.
  unfold encode_bytes. destruct (needs_header s) eqn:E.
  - intros Hn. apply app_eq_nil in Hn as [Hn _]. by apply encode_header_nonempty in Hn.
  - by destruct s as [|b [|? ?]].
Qed.

Lemma encode_header_ok h : bytes_ok (encode_header h).
Proof.
  unfold encode_header, big_endian_u64.
  zif; (constructor; [apply u8_range|]); [constructor|apply Forall_drop, to_be_ok].
Qed.

Lemma encode_bytes_ok s : bytes_ok s -> bytes_ok (encode_bytes s).
Proof.
  intros H. unfold encode_bytes. apply Forall_app. split; [|done].
  destruct (needs_header s); [apply encode_header_ok|constructor].
Qed.

Lemma decode_encode_bytes s rest :
  wf_bytes s -> decode_bytes (encode_bytes s ++ rest) = Ok (s, rest).
Proof.
  intros [Hok Hs]. unfold decode_bytes, encode_bytes. rewrite <- app_assoc.
  destruct (needs_header s) eqn:E.
  - rewrite decode_encode_header; cbn [h_payload_length].
    + cbn [result_bind h_list h_payload_length].
      by rewrite Nat2Z.id, take_app_length, drop_app_length.
    + unfold header_ok. cbn. lia.
    + rewrite zlen_app. lia.
    + intros [= H1]. destruct s as [|b [|? ?]]; cbn in H1; try lia.
      exists b, rest. split; [done|]. cbn in E. unfold kEmptyStringCode in E. lia.
  - destruct s as [|b [|? ?]]; cbn in E; try done. unfold kEmptyStringCode in E.
    inversion_clear Hok as [|? ? Hb _]. unfold byte_ok in Hb. b2p.
    cbn [app]. unfold decode_header, decode_header_code.
    zif. cbn [result_bind h_payload_length length]. zif. done.
Qed.

Lemma decode_bytes_ok from s rest :
  bytes_ok from -> decode_bytes from = Ok (s, rest) ->
  bytes_ok s /\ from = encode_bytes s ++ rest /\ bytes_ok rest.
Proof.
  intros Hok Hd. unfold decode_bytes in Hd. inv_bind. case_in Hd; [done|].
  injection Hd as <- <-. destruct (decode_header_ok _ _ _ Hok E) as (Hh & Hlen & Hcase).
  unfold header_ok in Hh. destruct h as [l n]. cbn [h_list h_payload_length] in *. subst l.
  assert (zlen (take (Z.to_nat n) r) = n) as Hn by (rewrite length_take; lia).
  destruct Hcase as [[-> H1]|[-> Hs]].
  - apply Forall_app in Hok as [_ Hok].
    split; [by apply Forall_take|]. split; [|by apply Forall_drop].
    unfold encode_bytes. rewrite Hn.
    assert (needs_header (take (Z.to_nat n) r) = true) as ->.
    { destruct (take (Z.to_nat n) r) as [|b [|? ?]] eqn:Et; cbn; try done.
      destruct H1 as (b' & l' & -> & Hb'); [cbn in Hn; by replace n with 1 by lia|].
      replace (Z.to_nat n) with 1%nat in Et by (cbn in Hn; lia). cbn in Et. injection Et as <-.
      unfold kEmptyStringCode. apply Z.leb_le. lia. }
    by rewrite <- app_assoc, take_drop.
  - split; [by apply Forall_take|]. split; [|by apply Forall_drop].
    destruct Hs as ([= ->] & b & l & -> & Hb). change (Z.to_nat 1) with 1%nat.
    cbn [take drop]. rewrite take_0, drop_0. unfold encode_bytes, needs_header, kEmptyStringCode.
    destruct (Z.leb_spec 128 b); [lia|done].
Qed.

(** The unsigned-integer encoders are the byte-string encoder on the shortest big-endian form. *)
Lemma encode_u64_bytes n : wf_u64 n -> encode_u64 n = encode_bytes (to_be (be_len n) n).
Proof.
  unfold wf_u64, encode_u64. intros H. destruct (Z.eqb_spec n 0) as [->|Hn]; [done|].
  rewrite big_endian_u64_eq, length_to_be by lia.
  pose proof (be_len_u64 n H). pose proof (of_be_compact n ltac:(lia)) as Hof.
  destruct (be_compact_head n ltac:(lia)) as (b & l & E & Hb).
  pose proof (f_equal length E) as El. rewrite length_to_be in El. cbn in El.
  unfold kEmptyStringCode, encode_bytes. destruct (Z.ltb_spec n 128).
  - assert (be_len n = 1%nat) as E1.
    { assert (be_len n <= 1)%nat; [|lia]. apply be_len_le. lia. }
    destruct l; [|cbn in El; lia]. rewrite E in *. rewrite of_be_cons in Hof. cbn in Hof.
    cbn. unfold kEmptyStringCode. zif. unwrap. cbn. f_equal. lia.
  - assert (needs_header (to_be (be_len n) n) = true) as ->.
    { rewrite E. destruct l; [|done]. rewrite E, of_be_cons in Hof. cbn in Hof.
      cbn. unfold kEmptyStringCode. apply Z.leb_le. lia. }
    unfold encode_header. cbn [h_payload_length h_list]. rewrite length_to_be. zif. done.
Qed.

Lemma encode_u256_bytes n : wf_u256 n -> encode_u256 n = encode_bytes (to_be (be_len n) n).
Proof.
  unfold wf_u256, encode_u256. intros H. destruct (Z.eqb_spec n 0) as [->|Hn]; [done|].
  rewrite big_endian_u256_eq, length_to_be by lia.
  pose proof (be_len_u256 n H). pose proof (of_be_compact n ltac:(lia)) as Hof.
  destruct (be_compact_head n ltac:(lia)) as (b & l & E & Hb).
  pose proof (f_equal length E) as El. rewrite length_to_be in El. cbn in El.
  unfold kEmptyStringCode, encode_bytes. destruct (Z.ltb_spec n 128).
  - assert (be_len n = 1%nat) as E1.
    { assert (be_len n <= 1)%nat; [|lia]. apply be_len_le. lia. }
    destruct l; [|cbn in El; lia]. rewrite E in *. rewrite of_be_cons in Hof. cbn in Hof.
    cbn. unfold kEmptyStringCode. zif. unwrap. cbn. f_equal. lia.
  - assert (needs_header (to_be (be_len n) n) = true) as ->.
    { rewrite E. destruct l; [|done]. rewrite E, of_be_cons in Hof. cbn in Hof.
      cbn. unfold kEmptyStringCode. apply Z.leb_le. lia. }
    unfold encode_header. cbn [h_payload_length h_list]. rewrite length_to_be. zif. done.
Qed.

Lemma decode_uint_bytes read from :
  decode_uint read from
  = result_bind (decode_bytes from) (fun '(s, r) => result_bind (read s) (fun n => Ok (n, r))).
Proof.
  unfold decode_uint, decode_bytes. destruct (decode_header from) as [[h r]| |]; cbn; [|done|done].
  by destruct (h_list h).
Qed.

Lemma decode_fixed_bytes N from :
  bytes_ok from ->
  decode_fixed N from
  = result_bind (decode_bytes from) (fun '(s, r) =>
      if negb (zlen s =? Z.of_nat N) then Err kUnexpectedLength else Ok (s, r)).
Proof.
  intros Hok. unfold decode_fixed, decode_bytes.
  destruct (decode_header from) as [[h r]| |] eqn:E; cbn [result_bind]; [|done|done].
  destruct (h_list h); cbn [result_bind]; [done|].
  destruct (decode_header_ok _ _ _ Hok E) as (Hh & Hlen & _). unfold header_ok in Hh.
  assert (zlen (take (Z.to_nat (h_payload_length h)) r) = h_payload_length h) as ->
    by (rewrite length_take; lia).
  destruct (Z.eqb_spec (h_payload_length h) (Z.of_nat N)) as [->|]; cbn; [|done].
  by rewrite Nat2Z.id.
Qed.

Lemma encode_fixed_bytes N b :
  (1 < N < 56)%nat -> length b = N -> encode_fixed N b = encode_bytes b.
Proof.
  intros HN Hb. unfold encode_fixed, encode_bytes.
  assert (needs_header b = true) as -> by (destruct b as [|? [|? ?]]; cbn in *; try done; lia).
  unfold encode_header. cbn [h_payload_length h_list]. zif. by rewrite Hb.
Qed.

Lemma wf_bytes_compact n N : 0 <= n -> (be_len n <= N)%nat -> (N <= 32)%nat ->
  wf_bytes (to_be (be_len n) n).
Proof. intros. split; [apply to_be_ok|]. rewrite length_to_be. lia. Qed.

Lemma decode_encode_u64 n rest : wf_u64 n -> decode_u64 (encode_u64 n ++ rest) = Ok (n, rest).
Proof.
  intros H. pose proof (be_len_u64 n H) as Hl. unfold wf_u64 in H.
  unfold decode_u64. rewrite decode_uint_bytes, encode_u64_bytes by done.
  rewrite decode_encode_bytes by (apply (wf_bytes_compact n 8); lia). cbn [result_bind].
  unfold read_uint64. by rewrite read_uint_compact by lia.
Qed.

Lemma decode_encode_u256 n rest : wf_u256 n -> decode_u256 (encode_u256 n ++ rest) = Ok (n, rest).
Proof.
  intros H. pose proof (be_len_u256 n H) as Hl. unfold wf_u256 in H.
  unfold decode_u256. rewrite decode_uint_bytes, encode_u256_bytes by done.
  rewrite decode_encode_bytes by (apply (wf_bytes_compact n 32); lia). cbn [result_bind].
  unfold read_uint256. by rewrite read_uint_compact by lia.
Qed.

Lemma decode_encode_bool b rest : decode_bool (encode_bool b ++ rest) = Ok (b, rest).
Proof.
  unfold decode_bool, encode_bool. rewrite decode_encode_u64 by (destruct b; unfold wf_u64; cbn; lia).
  by destruct b.
Qed.

Lemma decode_encode_fixed N b rest :
  (1 < N < 56)%nat -> wf_fixed N b -> decode_fixed N (encode_fixed N b ++ rest) = Ok (b, rest).
Proof.
  intros HN [Hok Hb].
  assert (encode_fixed N b = encode_header (mkHeader false (Z.of_nat N)) ++ b) as ->.
  { unfold encode_fixed, encode_header. cbn [h_payload_length h_list]. by zif. }
  unfold decode_fixed. rewrite <- app_assoc, decode_encode_header; cbn [h_payload_length].
  - cbn [result_bind h_list h_payload_length]. rewrite Z.eqb_refl. cbn [negb].
    by rewrite take_app_length', drop_app_length'.
  - unfold header_ok. cbn. lia.
  - rewrite zlen_app. lia.
  - intros [= H]. lia.
Qed.

Lemma decode_uint_ok N from n rest :
  bytes_ok from -> decode_uint (fun b => read_uint N b false) from = Ok (n, rest) ->
  0 <= n < 256 ^ Z.of_nat N /\ from = encode_bytes (to_be (be_len n) n) ++ rest /\ bytes_ok rest.
Proof.
  intros Hok. rewrite decode_uint_bytes. intros Hd. inv_bind. injection Hd as -> ->.
  apply decode_bytes_ok in E as (Hs & -> & Hr); [|done].
  apply read_uint_ok in E0 as (Hl & -> & Hbe); [|done].
  split; [|by rewrite <- Hbe]. pose proof (of_be_bound h Hs). split; [lia|].
  eapply Z.lt_le_trans; [apply H|]. apply Z.pow_le_mono_r; lia.
Qed.

Lemma decode_u64_ok from n rest :
  bytes_ok from -> decode_u64 from = Ok (n, rest) ->
  wf_u64 n /\ from = encode_u64 n ++ rest /\ bytes_ok rest.
Proof.
  intros Hok Hd. apply (decode_uint_ok 8) in Hd as (Hn & Hf & Hr); [|done].
  change (256 ^ Z.of_nat 8) with (2 ^ 64) in Hn. by rewrite encode_u64_bytes.
Qed.

Lemma decode_u256_ok from n rest :
  bytes_ok from -> decode_u256 from = Ok (n, rest) ->
  wf_u256 n /\ from = encode_u256 n ++ rest /\ bytes_ok rest.
Proof.
  intros Hok Hd. apply (decode_uint_ok 32) in Hd as (Hn & Hf & Hr); [|done].
  change (256 ^ Z.of_nat 32) with (2 ^ 256) in Hn. by rewrite encode_u256_bytes.
Qed.

Lemma decode_bool_ok from b rest :
  bytes_ok from -> decode_bool from = Ok (b, rest) -> from = encode_bool b ++ rest /\ bytes_ok rest.
Proof.
  intros Hok Hd. unfold decode_bool in Hd. inv_bind. case_in Hd; [done|]. b2p. injection Hd as <- ->.
  apply decode_u64_ok in E as (Hn & -> & Hr); [|done]. split; [|done].
  unfold wf_u64 in Hn. unfold encode_bool. destruct (Z.eqb_spec h 0) as [->|]; [done|].
  by replace h with 1 by lia.
Qed.

Lemma decode_fixed_ok N from b rest :
  (1 < N < 56)%nat -> bytes_ok from -> decode_fixed N from = Ok (b, rest) ->
  wf_fixed N b /\ from = encode_fixed N b ++ rest /\ bytes_ok rest.
Proof.
  intros HN Hok. rewrite decode_fixed_bytes by done. intros Hd. inv_bind. case_in Hd; [done|].
  b2p. injection Hd as -> ->. apply decode_bytes_ok in E as (Hs & -> & Hr); [|done].
  rewrite encode_fixed_bytes by lia. split; [split; [done|lia]|done].
Qed.

Lemma length_encode_u64 n : wf_u64 n -> zlen (encode_u64 n) = length_u64 n /\ 1 <= length_u64 n <= 9.
Proof.
  unfold wf_u64. intros H. pose proof (be_len_u64 n H).
  unfold encode_u64, length_u64, kEmptyStringCode.
  destruct (Z.eqb_spec n 0) as [->|Hn]; [cbn; lia|]. zif; [cbn; lia|].
  rewrite be_len_clz64, big_endian_u64_eq by lia. cbn [app length]. rewrite length_to_be. lia.
Qed.

Lemma length_encode_u256 n :
  wf_u256 n -> zlen (encode_u256 n) = length_u256 n /\ 1 <= length_u256 n <= 33.
Proof.
  unfold wf_u256. intros H. pose proof (be_len_u256 n H).
  unfold encode_u256, length_u256, kEmptyStringCode.
  destruct (Z.eqb_spec n 0) as [->|Hn]; [cbn; lia|]. zif; [cbn; lia|].
  rewrite be_len_clz256, big_endian_u256_eq by lia. cbn [app length]. rewrite length_to_be. lia.
Qed.

Lemma length_encode_fixed N b : length b = N -> zlen (encode_fixed N b) = Z.of_nat N + 1.
Proof. intros H. unfold encode_fixed. cbn. lia. Qed.

(** Closes a well-formedness goal on concrete values, given how to unfold its records. *)
Ltac wf_dec :=
  repeat first
    [ progress intros
    | lazymatch goal with
      | |- Forall byte_ok _ => bytes_dec
      | |- Forall _ _ => constructor
      | |- _ /\ _ => split
      | |- _ <= _ => vm_compute; discriminate
      | |- _ < _ => vm_compute; reflexivity
      | |- _ = _ => vm_compute; reflexivity
      | |- True => exact I
      | |- wf_u64 _ => unfold wf_u64
      | |- wf_u256 _ => unfold wf_u256
      | |- wf_bytes _ => unfold wf_bytes
      | |- wf_fixed _ _ => unfold wf_fixed
      | |- wf_vector _ _ => unfold wf_vector
      end ].

(** * Lemmas: lists *)

(** A list header is read back, whatever follows its payload. *)
Lemma decode_list_header payload rest :
  zlen payload < 2 ^ 63 ->
  decode_header (encode_header (mkHeader true (zlen payload)) ++ payload ++ rest)
  = Ok (mkHeader true (zlen payload), payload ++ rest).
Proof.
  intros Hl. apply decode_encode_header; cbn [h_payload_length].
  - unfold header_ok. cbn. lia.
  - rewrite zlen_app. lia.
  - done.
Qed.

(** A list header that was read is the encoder's. *)
Lemma decode_list_header_ok from h rest :
  bytes_ok from -> decode_header from = Ok (h, rest) -> h_list h = true ->
  0 <= h_payload_length h < 2 ^ 64 /\ h_payload_length h <= zlen rest /\ bytes_ok rest
  /\ from = encode_header h ++ rest.
Proof.
  intros Hok Hd Hl. destruct (decode_header_ok _ _ _ Hok Hd) as (Hh & Hlen & [[-> _]|[_ [-> _]]]);
    [|done].
  apply Forall_app in Hok as [_ Hok]. done.
Qed.

Section vectors.
Context {A : Type} {wf : A -> Prop} `{RlpCodec A wf}.

Lemma concat_encode_length v :
  Forall wf v -> zlen (concat (map rlp_encode v)) < 2 ^ 63 ->
  vector_payload_length v = zlen (concat (map rlp_encode v)).
Proof.
  intros Hv. unfold vector_payload_length.
  enough (forall acc, 0 <= acc -> acc + zlen (concat (map rlp_encode v)) < 2 ^ 63 ->
    foldl (fun acc x => u64 (acc + rlp_length x)) acc v
    = acc + zlen (concat (map rlp_encode v))) as E.
  { intros Hl. by rewrite E by lia. }
  induction Hv as [|x v Hx Hv IH]; intros acc Hacc Hl; [cbn; lia|].
  cbn [foldl map concat] in *. rewrite zlen_app in *.
  rewrite codec_length in * by done. pose proof (codec_length x Hx).
  rewrite u64_small by lia. rewrite IH by lia. lia.
Qed.

Lemma decode_items_encode v fuel :
  Forall wf v -> (length (concat (map rlp_encode v)) <= fuel)%nat ->
  decode_items fuel (concat (map rlp_encode v)) = Ok v.
Proof.
  intros Hv. revert fuel. induction Hv as [|x v Hx Hv IH]; intros fuel Hf.
  - by destruct fuel.
  - cbn [map concat] in *. rewrite length_app in Hf. pose proof (codec_nonempty x Hx) as Hne.
    pose proof (codec_roundtrip x (concat (map rlp_encode v)) Hx) as Hr.
    destruct (rlp_encode x) as [|b l]; [done|]. cbn [length] in Hf.
    destruct fuel as [|fuel]; [lia|]. cbn [decode_items app] in *. rewrite Hr. cbn [result_bind].
    by rewrite IH by lia.
Qed.

Lemma length_encode_vector v :
  wf_vector wf v -> zlen (encode_vector v) = length_vector v.
Proof.
  intros [Hv Hl]. unfold encode_vector, length_vector.
  rewrite concat_encode_length by done. rewrite zlen_app, length_encode_header by (unfold header_ok; cbn; lia).
  cbn [h_payload_length]. set (n := zlen _) in *.
  pose proof (length_of_length_range n ltac:(lia)). unwrap. lia.
Qed.

Lemma decode_encode_vector v rest :
  wf_vector wf v -> decode_vector (encode_vector v ++ rest) = Ok (v, rest).
Proof.
  intros [Hv Hl]. unfold decode_vector, encode_vector. rewrite <- app_assoc.
  rewrite concat_encode_length, decode_list_header by done.
  cbn [result_bind h_list h_payload_length negb]. rewrite Nat2Z.id, take_app_length, drop_app_length.
  by rewrite decode_items_encode by done.
Qed.

Context `{!RlpCanonical A wf}.

Lemma decode_items_ok fuel from v :
  bytes_ok from -> zlen from < 2 ^ 63 -> decode_items fuel from = Ok v ->
  Forall wf v /\ from = concat (map rlp_encode v).
Proof.
  revert from v. induction fuel as [|fuel IH]; intros from v Hok Hl Hd.
  - destruct from; [|done]. injection Hd as <-. done.
  - destruct from as [|b from]; [injection Hd as <-; done|].
    cbn [decode_items] in Hd. inv_bind. injection Hd as <-.
    apply canonical_decode in E as [Hx E]; [|done|done].
    rewrite E in Hok, Hl. apply Forall_app in Hok as [_ Hok]. rewrite zlen_app in Hl.
    apply IH in E0 as [Hv ->]; [|done|lia]. split; [by constructor|done].
Qed.

Lemma decode_vector_ok from v rest :
  bytes_ok from -> zlen from < 2 ^ 63 -> decode_vector from = Ok (v, rest) ->
  wf_vector wf v /\ from = encode_vector v ++ rest.
Proof.
  intros Hok Hl Hd. unfold decode_vector in Hd. inv_bind. case_in Hd; [done|]. b2p. inv_bind.
  injection Hd as -> <-. destruct (decode_list_header_ok _ _ _ Hok E E0) as (Hh & Hle & Hr & Hf).
  rewrite Hf, zlen_app in Hl.
  apply decode_items_ok in E1 as [Hv Ht]; [|by apply Forall_take|rewrite length_take; lia].
  assert (zlen (concat (map rlp_encode v)) = h_payload_length h) as Hn.
  { rewrite <- Ht, length_take. lia. }
  split; [split; [done|lia]|]. unfold encode_vector.
  rewrite concat_encode_length by (try done; lia). rewrite Hn, <- Ht, Hf.
  destruct h as [l n]. cbn [h_list h_payload_length] in *. subst l.
  by rewrite <- app_assoc, take_drop.
Qed.
End vectors.

(** ** The law instances *)

#[export] Instance Bytes32_codec : RlpCodec Bytes32 (fun x => wf_fixed kHashLength (bytes32 x)).
Proof.
  split; intros [b]; cbn [rlp_encode rlp_length rlp_decode Bytes32_encode Bytes32_decode bytes32].
  - intros [_ Hb]. by apply (length_encode_fixed kHashLength).
  - done.
  - intros rest Hb. unfold decode_bytes32. by rewrite (decode_encode_fixed kHashLength) by (done || unfold kHashLength; lia).
Qed.

#[export] Instance Bytes32_canonical : RlpCanonical Bytes32 (fun x => wf_fixed kHashLength (bytes32 x)).
Proof.
  split. intros from [b] rest Hok _ Hd. cbn in Hd. inv_bind. injection Hd as -> ->.
  apply (decode_fixed_ok kHashLength) in E as (Hw & -> & _); [|unfold kHashLength; lia|done]. done.
Qed.

#[export] Instance ByteString_codec : RlpCodec ByteString (fun x => wf_bytes (byte_string x)).
Proof.
  split; intros [s]; cbn [rlp_encode rlp_length rlp_decode ByteString_encode ByteString_decode byte_string].
  - intros [_ Hs]. by apply length_encode_bytes.
  - intros _. apply encode_bytes_nonempty.
  - intros rest Hs. by rewrite decode_encode_bytes.
Qed.

#[export] Instance ByteString_canonical : RlpCanonical ByteString (fun x => wf_bytes (byte_string x)).
Proof.
  split. intros from [s] rest Hok Hl Hd. cbn in Hd. inv_bind. injection Hd as -> ->.
  apply decode_bytes_ok in E as (Hs & -> & _); [|done]. split; [split; [done|]|done].
  unfold encode_bytes in Hl. rewrite !zlen_app in Hl. cbn [byte_string]. lia.
Qed.

#[export] Instance Uint64_codec : RlpCodec Uint64 (fun x => wf_u64 (uint64 x)).
Proof.
  split; intros [n]; cbn [rlp_encode rlp_length rlp_decode Uint64_encode Uint64_decode uint64].
  - intros Hn. by apply length_encode_u64.
  - intros _. unfold encode_u64. zif; done.
  - intros rest Hn. by rewrite decode_encode_u64.
Qed.

#[export] Instance Uint64_canonical : RlpCanonical Uint64 (fun x => wf_u64 (uint64 x)).
Proof.
  split. intros from [n] rest Hok _ Hd. cbn in Hd. inv_bind. injection Hd as -> ->.
  apply decode_u64_ok in E as (Hn & -> & _); done.
Qed.

Lemma encode_vector_nonempty {A} `{RlpEncode A} (v : list A) : encode_vector v <> [].
Proof. intros Hn. apply app_eq_nil in Hn as [Hn _]. by apply encode_header_nonempty in Hn. Qed.

#[export] Instance vector_codec {A wf} `{RlpCodec A wf} : RlpCodec (list A) (wf_vector wf).
Proof.
  split; cbn [rlp_encode rlp_length rlp_decode vector_encode vector_decode].
  - apply length_encode_vector.
  - intros v _. apply encode_vector_nonempty.
  - intros v rest. apply decode_encode_vector.
Qed.

#[export] Instance vector_canonical {A wf} `{RlpCodec A wf, !RlpCanonical A wf} :
  RlpCanonical (list A) (wf_vector wf).
Proof. split. intros from v rest. apply decode_vector_ok. Qed.

(** ** Totality: no decoder leaves its view, and each consumes at least one byte *)

Lemma read_uint_defined N be allow : read_uint N be allow <> Undef.
Proof. unfold read_uint. zif; [done|]. destruct be as [|b be]; [done|]. by destruct (_ && _). Qed.

Lemma decode_long_header_defined l k from : decode_long_header l k from <> Undef.
Proof.
  unfold decode_long_header. zif; [done|].
  unfold read_uint64. destruct (read_uint 8 _ _) eqn:E; cbn; [by zif|done|].
  by apply read_uint_defined in E.
Qed.

Lemma decode_header_defined from : decode_header from <> Undef.
Proof.
  unfold decode_header. destruct (decode_header_code from) as [[h r]| |] eqn:E; cbn; [by case_match|done|].
  exfalso. unfold decode_header_code in E. destruct from as [|b [|c from]]; repeat case_in E;
    first [done | by apply decode_long_header_defined in E].
Qed.

Lemma decode_long_header_shorter l k from h rest :
  decode_long_header l k from = Ok (h, rest) -> (length rest <= length from)%nat.
Proof.
  unfold decode_long_header. zif; [done|]. intros Hd. inv_bind. case_in Hd; [done|].
  injection Hd as _ <-. rewrite length_drop. lia.
Qed.

(** After a header the rest is shorter, or it is the single byte of the pseudo header. *)
Lemma decode_header_shorter from h rest :
  decode_header from = Ok (h, rest) ->
  (length rest < length from)%nat \/ h = mkHeader false 1 /\ rest = from /\ (0 < length from)%nat.
Proof.
  unfold decode_header. intros Hd. inv_bind. case_in Hd; [done|]. injection Hd as -> ->. clear E0.
  unfold decode_header_code in E. destruct from as [|b from]; [done|]. cbn zeta in E.
  destruct (b <? 0x80).
  { injection E as <- <-. right. cbn. auto with lia. }
  left. cbn [length]. destruct (b <? 0xB8).
  { destruct (_ =? 1); [destruct from as [|c from]; [done|]; destruct (c <? 0x80); [done|]|];
      injection E as <- <-; cbn; lia. }
  destruct (b <? 0xC0); [apply decode_long_header_shorter in E; lia|].
  destruct (b <? 0xF8); [injection E as <- <-; lia|].
  apply decode_long_header_shorter in E. lia.
Qed.

Lemma decode_bytes_total from :
  decode_bytes from <> Undef
  /\ forall s rest, decode_bytes from = Ok (s, rest) -> (length rest < length from)%nat.
Proof.
  unfold decode_bytes. destruct (decode_header from) as [[h r]| |] eqn:E; cbn [result_bind].
  - apply decode_header_shorter in E. destruct (h_list h); [done|]. split; [done|].
    intros s rest [= _ <-]. rewrite length_drop. destruct E as [?|(-> & -> & ?)]; cbn; lia.
  - done.
  - by apply decode_header_defined in E.
Qed.

Lemma decode_uint_total N from :
  decode_uint (fun b => read_uint N b false) from <> Undef
  /\ forall n rest, decode_uint (fun b => read_uint N b false) from = Ok (n, rest) ->
     (length rest < length from)%nat.
Proof.
  rewrite decode_uint_bytes. destruct (decode_bytes_total from) as [Hu Hp].
  destruct (decode_bytes from) as [[s r]| |]; cbn [result_bind]; [|done|done].
  specialize (Hp s r eq_refl).
  destruct (read_uint N s false) eqn:E; cbn [result_bind]; [|done|by apply read_uint_defined in E].
  split; [done|]. by intros n rest [= _ <-].
Qed.

Lemma decode_fixed_total N from :
  (0 < N)%nat -> decode_fixed N from <> Undef
  /\ forall s rest, decode_fixed N from = Ok (s, rest) -> (length rest < length from)%nat.
Proof.
  intros HN. unfold decode_fixed. destruct (decode_header from) as [[h r]| |] eqn:E; cbn [result_bind].
  - apply decode_header_shorter in E. destruct (h_list h); [done|].
    destruct (Z.eqb_spec (h_payload_length h) (Z.of_nat N)); [|done]. split; [done|].
    intros s rest [= _ <-]. rewrite length_drop. destruct E as [?|(-> & -> & ?)]; cbn in *; lia.
  - done.
  - by apply decode_header_defined in E.
Qed.

Lemma decode_items_defined {A} `{RlpTotal A} fuel from :
  (length from <= fuel)%nat -> decode_items (A := A) fuel from <> Undef.
Proof.
  revert from. induction fuel as [|fuel IH]; intros from Hl; [destruct from; cbn in *; [done|lia]|].
  destruct from as [|b from]; [done|]. cbn [decode_items].
  destruct (rlp_decode (b :: from)) as [[x r]| |] eqn:E; cbn [result_bind];
    [|done|by apply total_defined in E].
  apply total_progress in E. cbn [length] in *.
  destruct (decode_items fuel r) eqn:Er; cbn; [done|done|]. apply IH in Er; [done|lia].
Qed.

Lemma decode_vector_total {A} `{RlpTotal A} from :
  decode_vector (A := A) from <> Undef
  /\ forall v rest, decode_vector (A := A) from = Ok (v, rest) -> (length rest < length from)%nat.
Proof.
  unfold decode_vector. destruct (decode_header from) as [[h r]| |] eqn:E; cbn [result_bind];
    [|done|by apply decode_header_defined in E].
  apply decode_header_shorter in E. destruct (h_list h) eqn:Hl; cbn [negb]; [|done].
  destruct (decode_items _ _) eqn:Ei; cbn [result_bind].
  - split; [done|]. intros v rest [= _ <-]. rewrite length_drop. destruct E as [?|(-> & _)]; [lia|done].
  - done.
  - apply decode_items_defined in Ei; [done|]. rewrite length_take. lia.
Qed.

#[export] Instance Bytes32_total : RlpTotal Bytes32.
Proof.
  pose proof (fun from => decode_fixed_total kHashLength from ltac:(unfold kHashLength; lia)) as Ht.
  split; cbn; unfold decode_bytes32; intros from; destruct (Ht from) as [Hu Hp];
    destruct (decode_fixed kHashLength from) as [[? ?]| |]; cbn; try done.
  intros x rest [= _ <-]. eauto.
Qed.

#[export] Instance ByteString_total : RlpTotal ByteString.
Proof.
  split; cbn; intros from; destruct (decode_bytes_total from) as [Hu Hp];
    destruct (decode_bytes from) as [[? ?]| |]; cbn; try done.
  intros x rest [= _ <-]. eauto.
Qed.

#[export] Instance Uint64_total : RlpTotal Uint64.
Proof.
  split; cbn; intros from; destruct (decode_uint_total 8 from) as [Hu Hp];
    unfold decode_u64, read_uint64; destruct (decode_uint _ from) as [[? ?]| |]; cbn; try done.
  intros x rest [= _ <-]. eauto.
Qed.

#[export] Instance vector_total {A} `{RlpTotal A} : RlpTotal (list A).
Proof. split; cbn; [apply decode_vector_total|intros from; apply decode_vector_total]. Qed.

(** ** Codecs of fields and structures

    The same laws for one pair of functions, in the form the structures' proofs use field by field. *)
Definition input_ok (from : bytes) : Prop := bytes_ok from /\ zlen from < 2 ^ 63.

Class FieldCodec {A : Type} (enc : A -> bytes) (dec : bytes -> decoded (A * bytes))
    (wf : A -> Prop) : Prop := {
  field_roundtrip : forall x rest, wf x -> dec (enc x ++ rest) = Ok (x, rest);
  field_canonical : forall from x rest, input_ok from -> dec from = Ok (x, rest) ->
    wf x /\ from = enc x ++ rest
}.

Lemma input_ok_app a b : input_ok (a ++ b) -> input_ok b.
Proof. intros [H1 H2]. apply Forall_app in H1 as [_ H1]. rewrite zlen_app in H2. split; [done|lia]. Qed.

#[export] Instance u64_field : FieldCodec encode_u64 decode_u64 wf_u64.
Proof.
  split; [intros; by apply decode_encode_u64|].
  intros from x rest [Hok _] Hd. by apply decode_u64_ok in Hd as (? & ? & _).
Qed.

#[export] Instance u256_field : FieldCodec encode_u256 decode_u256 wf_u256.
Proof.
  split; [intros; by apply decode_encode_u256|].
  intros from x rest [Hok _] Hd. by apply decode_u256_ok in Hd as (? & ? & _).
Qed.

#[export] Instance bool_field : FieldCodec encode_bool decode_bool (fun _ => True).
Proof.
  split; [intros; by apply decode_encode_bool|].
  intros from x rest [Hok _] Hd. by apply decode_bool_ok in Hd as (? & _).
Qed.

#[export] Instance bytes_field : FieldCodec encode_bytes decode_bytes wf_bytes.
Proof.
  split; [intros; by apply decode_encode_bytes|].
  intros from x rest [Hok Hl] Hd. apply decode_bytes_ok in Hd as (? & -> & _); [|done].
  split; [|done]. split; [done|]. unfold encode_bytes in Hl. rewrite !zlen_app in Hl. lia.
Qed.

Lemma fixed_field N : (1 < N < 56)%nat -> FieldCodec (encode_fixed N) (decode_fixed N) (wf_fixed N).
Proof.
  intros HN. split; [intros; by apply decode_encode_fixed|].
  intros from x rest [Hok _] Hd. by apply decode_fixed_ok in Hd as (? & ? & _).
Qed.

#[export] Instance hash_field : FieldCodec (encode_fixed 32) (decode_fixed 32) (wf_fixed 32).
Proof. apply fixed_field. lia. Qed.
#[export] Instance address_field : FieldCodec (encode_fixed 20) (decode_fixed 20) (wf_fixed 20).
Proof. apply fixed_field. lia. Qed.
#[export] Instance nonce_field : FieldCodec (encode_fixed 8) (decode_fixed 8) (wf_fixed 8).
Proof. apply fixed_field. lia. Qed.

#[export] Instance vector_field {A wf} `{RlpCodec A wf, !RlpCanonical A wf} :
  FieldCodec encode_vector decode_vector (wf_vector wf).
Proof.
  split; [intros; by apply decode_encode_vector|].
  intros from v rest [Hok Hl] Hd. by apply decode_vector_ok in Hd.
Qed.

(** A list of fields framed by its header. *)
Definition encode_list (payload : bytes) : bytes :=
  encode_header (mkHeader true (zlen payload)) ++ payload.

Lemma list_field {A} (enc : A -> bytes) fields wf :
  FieldCodec enc fields wf ->
  FieldCodec (fun x => encode_list (enc x)) (decode_list fields)
    (fun x => wf x /\ zlen (enc x) < 2 ^ 63).
Proof.
  intros Hf. unfold encode_list, decode_list. split.
  - intros x rest [Hx Hl]. rewrite <- app_assoc, decode_list_header by done.
    cbn [result_bind h_list h_payload_length negb]. rewrite field_roundtrip by done. cbn [result_bind].
    rewrite zlen_app. replace (zlen (enc x) + zlen rest - zlen (enc x)) with (zlen rest) by lia.
    by rewrite Z.eqb_refl.
  - intros from x rest Hi Hd. inv_bind. destruct (h_list h) eqn:El; cbn [negb] in Hd; [|done].
    inv_bind. case_in Hd; [|done]. injection Hd as -> ->. b2p.
    destruct (decode_list_header_ok _ _ _ (proj1 Hi) E El) as (_ & Hle & _ & ->).
    pose proof (input_ok_app _ _ Hi) as Hr.
    apply field_canonical in E0 as [Hx ->]; [|done]. destruct Hr as [_ Hr].
    rewrite zlen_app in *. split; [split; [done|lia]|].
    destruct h as [l n]. cbn [h_list h_payload_length] in *. subst l.
    by replace n with (zlen (enc x)) by lia; rewrite app_assoc.
Qed.

Lemma length_encode_list payload :
  zlen payload < 2 ^ 63 -> zlen (encode_list payload) = length_of_length (zlen payload) + zlen payload.
Proof.
  intros H. unfold encode_list. rewrite zlen_app, length_encode_header; [done|]. unfold header_ok; cbn; lia.
Qed.

(** Read one field after the other: the round trip rewrites, the canonicity consumes the hypothesis. *)
Ltac field_steps :=
  repeat (rewrite field_roundtrip by (done || assumption); cbn [result_bind]).
Ltac canon_steps :=
  repeat match goal with
  | H : ?dec ?from = Ok (?x, ?r), Hi : input_ok ?from |- _ =>
      let Hw := fresh "Hw" in let Hr := fresh "Hr" in let E := fresh "E" in
      apply (field_canonical (dec := dec)) in H as [Hw E]; [|exact Hi];
      assert (input_ok r) as Hr by (rewrite E in Hi; by apply input_ok_app in Hi);
      clear Hi
  end.

(** * Properties *)

(** Every scalar overload is decoded back from its encoding, whatever follows it: booleans,
    64-bit and 256-bit unsigned integers, byte strings and 32-byte hashes; and [length] announces the
    number of bytes [encode] appends. *)
Theorem scalars_roundtrip (rest : bytes) (b : bool) (n m : Z) (s h : bytes) :
  wf_u64 n -> wf_u256 m -> wf_bytes s -> wf_fixed 32 h ->
  decode_bool (encode_bool b ++ rest) = Ok (b, rest)
  /\ decode_u64 (encode_u64 n ++ rest) = Ok (n, rest)
  /\ decode_u256 (encode_u256 m ++ rest) = Ok (m, rest)
  /\ decode_bytes (encode_bytes s ++ rest) = Ok (s, rest)
  /\ decode_bytes32 (encode_bytes32 h ++ rest) = Ok (h, rest)
  /\ zlen (encode_bool b) = length_bool b /\ zlen (encode_u64 n) = length_u64 n
  /\ zlen (encode_u256 m) = length_u256 m /\ zlen (encode_bytes s) = length_bytes s
  /\ zlen (encode_bytes32 h) = length_bytes32 h.
Proof.
  intros Hn Hm Hs Hh. rewrite decode_encode_bool, decode_encode_u64, decode_encode_u256,
    decode_encode_bytes by done.
  unfold decode_bytes32. rewrite (decode_encode_fixed kHashLength) by (done || unfold kHashLength; lia).
  repeat (split; [done|]).
  split; [apply length_encode_u64; destruct b; unfold wf_u64; cbn; lia|].
  split; [by apply length_encode_u64|]. split; [by apply length_encode_u256|].
  split; [by apply length_encode_bytes, Hs|]. apply (length_encode_fixed kHashLength), Hh.
Qed.

Lemma scalars_roundtrip_witness :
  decode_u64 (encode_u64 1024 ++ [7]) = Ok (1024, [7])
  /\ decode_bytes (encode_bytes [0x80] ++ [7]) = Ok ([0x80], [7]).
Proof.
  destruct (scalars_roundtrip [7] true 1024 0 [0x80] (zero_bytes 32)) as (_ & H1 & _ & H2 & _).
  - unfold wf_u64. lia.
  - unfold wf_u256. lia.
  - split; [bytes_dec|cbn; lia].
  - split; [bytes_dec|reflexivity].
  - by split.
Defined.

(** RLP is decoded strictly: when a scalar decoder accepts a byte string, what it
    consumed is exactly the encoder's output for the value it returns, so no value has two accepted
    encodings (no leading zeros, no long form of a short length, no wrapped single byte). *)
Theorem scalars_canonical (from rest : bytes) (b : bool) (n : Z) (s : bytes) :
  bytes_ok from ->
  (decode_bool from = Ok (b, rest) -> from = encode_bool b ++ rest)
  /\ (decode_u64 from = Ok (n, rest) -> wf_u64 n /\ from = encode_u64 n ++ rest)
  /\ (decode_u256 from = Ok (n, rest) -> wf_u256 n /\ from = encode_u256 n ++ rest)
  /\ (decode_bytes from = Ok (s, rest) -> bytes_ok s /\ from = encode_bytes s ++ rest)
  /\ (decode_bytes32 from = Ok (s, rest) -> wf_fixed 32 s /\ from = encode_bytes32 s ++ rest).
Proof.
  intros Hok. split_and!; intros H.
  - by apply decode_bool_ok in H as [-> _].
  - by apply decode_u64_ok in H as (H & -> & _).
  - by apply decode_u256_ok in H as (H & -> & _).
  - by apply decode_bytes_ok in H as (H & -> & _).
  - by apply (decode_fixed_ok kHashLength) in H as (H & -> & _); [|unfold kHashLength; lia|].
Qed.

Lemma scalars_canonical_witness : [0x82; 0x04; 0x00; 0x09] = encode_u64 1024 ++ [0x09].
Proof.
  apply (scalars_canonical [0x82; 0x04; 0x00; 0x09] [0x09] true 1024 []).
  - bytes_dec.
  - reflexivity.
Defined.

(** C34: For every element type whose codec keeps the laws, [decode_vector] inverts
    [encode_vector] whatever follows the list, [length] of a vector is the number of bytes encoded, and
    what [decode_vector] accepts is the encoding of the vector it returns. The fuel of the loop of
    [decode_vector] always suffices. *)
Theorem vector_correct {A : Type} {wf : A -> Prop} `{RlpCodec A wf, !RlpCanonical A wf, !RlpTotal A}
    (from rest : bytes) (v : list A) :
  bytes_ok from -> zlen from < 2 ^ 63 ->
  (wf_vector wf v ->
     decode_vector (encode_vector v ++ rest) = Ok (v, rest) /\ zlen (encode_vector v) = length_vector v)
  /\ (decode_vector from = Ok (v, rest) -> wf_vector wf v /\ from = encode_vector v ++ rest)
  /\ decode_vector (A := A) from <> Undef.
Proof.
  intros Hok Hl. split; [intros Hv; split|split].
  - by apply decode_encode_vector.
  - by apply length_encode_vector.
  - by apply decode_vector_ok.
  - apply decode_vector_total.
Qed.

Lemma vector_correct_witness :
  [0xC3; 0x01; 0x81; 0x80; 0xFF] = encode_vector [mkUint64 1; mkUint64 128] ++ [0xFF].
Proof.
  apply (vector_correct [0xC3; 0x01; 0x81; 0x80; 0xFF] [0xFF] [mkUint64 1; mkUint64 128]).
  - bytes_dec.
  - cbn. lia.
  - reflexivity.
Defined.
