(* ===== verification/Ecdsa.v ===== *)
(** * Ecdsa: core/silkworm/crypto (ecdsa.hpp, ecdsa.cpp)

    The EIP-155 encoding of the y parity and the chain id in [v], the bounds on signature values and
    the wrapper of public-key recovery. libsecp256k1 itself is a parameter: parsing a compact
    signature and recovering the point are one partial function of the message, the 64 bytes of the
    signature and the parity, whose result is the serialised public key. *)

From S2P Require Import Prelude.
Local Open Scope Z_scope.

Definition kSecp256k1n : Z := 115792089237316195423570985008687907852837564279074904382605163141518161494337.
Definition kSecp256k1Halfn : Z := Z.shiftr kSecp256k1n 1.

Record YParityAndChainId : Type := mkYParityAndChainId {
  yp_odd : bool;
  yp_chain_id : option Z
}.

Definition y_parity_and_chain_id_to_v (odd : bool) (chain_id : option Z) : Z :=
  match chain_id with
  | Some id => u256 (u256 (u256 (id * 2) + 35) + Z.b2z odd)
  | None => if odd then 28 else 27
  end.

Definition v_to_y_parity_and_chain_id (v : Z) : YParityAndChainId :=
  if (v =? 27) || (v =? 28) then mkYParityAndChainId (v =? 28) None
  else
    let w := u256 (v - 35) in
    mkYParityAndChainId (negb (u64 w mod 2 =? 0)) (Some (Z.shiftr w 1)).

Definition is_valid_signature (r s : Z) (homestead : bool) : bool :=
  if (r =? 0) || (s =? 0) then false
  else if (kSecp256k1n <=? r) && (kSecp256k1n <=? s) then false
  else if homestead && (kSecp256k1Halfn <? s) then false
  else true.

(** [secp256k1 signature odd_y_parity message]: parse, recover, serialise uncompressed (65 bytes). *)
Definition recover (secp256k1 : bytes -> bool -> bytes -> option bytes)
    (message signature : bytes) (odd_y_parity : bool) : option bytes :=
  if negb (zlen message =? 32) || negb (zlen signature =? 64) then None
  else secp256k1 signature odd_y_parity message.

(** * Lemmas *)

(** A chain id that [v] can carry; an id that would make [v] 27 or 28 needs the wrap-around. *)
Definition wf_chain_id (chain_id : option Z) : Prop :=
  match chain_id with Some id => 0 <= id < 2 ^ 255 - 18 | None => True end.

Lemma v_of_range odd chain_id :
  wf_chain_id chain_id -> 0 <= y_parity_and_chain_id_to_v odd chain_id < 2 ^ 256.
Proof.
  destruct chain_id as [id|]; cbn; [|destruct odd; lia].
  intros _. apply u256_range.
Qed.

Lemma parity_chain_id_roundtrip odd chain_id :
  wf_chain_id chain_id ->
  v_to_y_parity_and_chain_id (y_parity_and_chain_id_to_v odd chain_id)
  = mkYParityAndChainId odd chain_id.
Proof.
  destruct chain_id as [id|]; cbn; [|by destruct odd].
  intros H. assert (0 <= Z.b2z odd <= 1) as Ho by (destruct odd; cbn; lia). unwrap.
  unfold v_to_y_parity_and_chain_id.
  destruct (Z.eqb_spec (id * 2 + 35 + Z.b2z odd) 27); [lia|].
  destruct (Z.eqb_spec (id * 2 + 35 + Z.b2z odd) 28); [lia|]. cbn [orb].
  replace (id * 2 + 35 + Z.b2z odd - 35) with (Z.b2z odd + id * 2) by lia. unwrap.
  f_equal.
  - unfold u64, wrap. rewrite <- Znumtheory.Zmod_div_mod; [|lia|lia|by exists (2 ^ 63)].
    rewrite Z.mod_add by lia. by destruct odd.
  - f_equal. rewrite Z.shiftr_div_pow2 by lia. change (2 ^ 1) with 2.
    rewrite Z.div_add by lia. by replace (Z.b2z odd / 2) with 0 by (by destruct odd).
Qed.

Lemma v_roundtrip v :
  0 <= v < 2 ^ 256 ->
  y_parity_and_chain_id_to_v (yp_odd (v_to_y_parity_and_chain_id v))
    (yp_chain_id (v_to_y_parity_and_chain_id v)) = v.
Proof.
  intros H. unfold v_to_y_parity_and_chain_id.
  destruct (Z.eqb_spec v 27) as [->|]; [done|]. destruct (Z.eqb_spec v 28) as [->|]; [done|].
  cbn [orb yp_odd yp_chain_id y_parity_and_chain_id_to_v].
  pose proof (u256_range (v - 35)) as Hw. set (w := u256 (v - 35)) in *.
  rewrite Z.shiftr_div_pow2 by lia. change (2 ^ 1) with 2.
  assert (u64 w mod 2 = w mod 2) as ->.
  { unfold u64, wrap. rewrite <- Znumtheory.Zmod_div_mod; [done|lia|lia|by exists (2 ^ 63)]. }
  assert (Z.b2z (negb (w mod 2 =? 0)) = w mod 2) as ->.
  { pose proof (Z.mod_pos_bound w 2 ltac:(lia)). destruct (Z.eqb_spec (w mod 2) 0); cbn; lia. }
  pose proof (Z.div_mod w 2 ltac:(lia)). pose proof (Z.mod_pos_bound w 2 ltac:(lia)).
  rewrite (u256_small (w / 2 * 2)) by lia.
  unfold u256, wrap. rewrite Zplus_mod_idemp_l.
  replace (w / 2 * 2 + 35 + w mod 2) with (w + 35) by lia. subst w. unfold u256, wrap.
  rewrite Zplus_mod_idemp_l. replace (v - 35 + 35) with v by lia. by apply Z.mod_small.
Qed.

(** * Properties *)

(** [v] loses nothing. The parity and the chain id are read back from the [v] they are packed into,
    for every chain id that fits (below 2^255 - 18); and every 256-bit [v] is rebuilt from what
    [v_to_y_parity_and_chain_id] makes of it, including the values below 35, which wrap. *)
Theorem v_codec (odd : bool) (chain_id : option Z) (v : Z) :
  wf_chain_id chain_id -> 0 <= v < 2 ^ 256 ->
  v_to_y_parity_and_chain_id (y_parity_and_chain_id_to_v odd chain_id)
    = mkYParityAndChainId odd chain_id
  /\ y_parity_and_chain_id_to_v (yp_odd (v_to_y_parity_and_chain_id v))
       (yp_chain_id (v_to_y_parity_and_chain_id v)) = v.
Proof. intros Hc Hv. split; [by apply parity_chain_id_roundtrip | by apply v_roundtrip]. Qed.

Lemma v_codec_witness :
  v_to_y_parity_and_chain_id 37 = mkYParityAndChainId false (Some 1).
Proof. apply (v_codec false (Some 1) 0); [cbn; lia | lia]. Defined.

(** From Homestead on, an accepted signature has [s] in the lower half of the group order and
    both components positive; but [r] is only compared with the group order when [s] is too large as
    well, so an [r] outside the group is accepted. Before Homestead a pair is refused exactly when one
    component is zero or both reach the order. *)
Theorem is_valid_signature_spec (r s : Z) :
  0 <= r < 2 ^ 256 -> 0 <= s < 2 ^ 256 ->
  (is_valid_signature r s true = true <-> 0 < r /\ 0 < s <= kSecp256k1Halfn)
  /\ (is_valid_signature r s false = true
      <-> 0 < r /\ 0 < s /\ (r < kSecp256k1n \/ s < kSecp256k1n))
  /\ is_valid_signature kSecp256k1n 1 true = true.
Proof.
  intros Hr Hs. unfold is_valid_signature. assert (kSecp256k1Halfn < kSecp256k1n) by done.
  split; [|split; [|done]];
    destruct (Z.eqb_spec r 0), (Z.eqb_spec s 0); cbn [orb]; try (split; [done|lia]);
    destruct (Z.leb_spec kSecp256k1n r), (Z.leb_spec kSecp256k1n s); cbn [andb];
    try destruct (Z.ltb_spec kSecp256k1Halfn s); split; intros; try done; lia.
Qed.

Lemma is_valid_signature_spec_witness :
  is_valid_signature 5 7 true = true <-> 0 < 5 /\ 0 < 7 <= kSecp256k1Halfn.
Proof. apply (is_valid_signature_spec 5 7); lia. Defined.
