(* ===== verification/Ethash.v ===== *)
(** * Ethash: src/ethash/ethash (ethash.hpp, ethash.cpp, the comparisons of hash_types.hpp)

    The proof of work: sizes and seeds of epochs, the light cache, items of the full dataset computed from it,
    the hash and its verification. A hash is the list of its bytes; the unions' views of it as 32-bit and
    64-bit words are [words] on a little-endian machine. The static variables that keep the last epoch and the
    last seed between calls are arguments and results. *)

From Stdlib Require Import Znumtheory.
From S2P Require Import Prelude Util Keccak.
Local Open Scope Z_scope.
Local Open Scope silk_scope.

(** ** hash_types.hpp *)

Definition words (n : nat) (h : bytes) : list Z :=
  map (fun i => of_le (take n (drop (n * i) h))) (seq 0 (length h / n)).
Definition of_words (n : nat) (ws : list Z) : bytes := concat (map (to_le n) ws).

(** [be::uint64] of each word. *)
Definition be_words (h : bytes) : list Z := map (fun w => of_be (to_le 8 w)) (words 8 h).

Fixpoint words_le (a b : list Z) : bool :=
  match a, b with
  | x :: a, y :: b => if y <? x then false else if x <? y then true else words_le a b
  | _, _ => true
  end.

Definition is_less_or_equal (a b : bytes) : bool := words_le (be_words a) (be_words b).
Definition is_equal (a b : bytes) : bool := bytes_eqb a b.

(** ** ethash.hpp *)

Definition epoch_length : Z := 30000.
Definition num_dataset_accesses : nat := 64.
Definition light_cache_init_size : Z := Z.shiftl 1 24.
Definition light_cache_growth : Z := Z.shiftl 1 17.
Definition light_cache_rounds : nat := 3.
Definition full_dataset_init_size : Z := Z.shiftl 1 30.
Definition full_dataset_growth : Z := Z.shiftl 1 23.
Definition full_dataset_item_parents : nat := 256.
Definition fnv_prime : Z := 0x01000193.

Record epoch_context : Type := mkEpochContext {
  epoch_number : Z;
  light_cache_num_items : Z;
  full_dataset_num_items : Z;
  light_cache : list bytes
}.

Record hash_result : Type := mkHashResult { final_hash : bytes; mix_hash : bytes }.

Inductive VerificationResult : Type := kOk | kInvalidNonce | kInvalidMixHash.

(** ** ethash.cpp *)

Definition fnv1 (u v : Z) : Z := Z.lxor (u32 (u * fnv_prime)) v.

Definition fnv1_512 (a b : bytes) : bytes := of_words 4 (zip_with fnv1 (words 4 a) (words 4 b)).
Definition xor_512 (x y : bytes) : bytes := of_words 8 (zip_with Z.lxor (words 8 x) (words 8 y)).

(** [item_state]: the seed and the mix; the cache is the context's. *)
Record item_state : Type := mkItemState { item_seed : Z; item_mix : bytes }.

Definition cache_at (context : epoch_context) (i : Z) : bytes :=
  nth (Z.to_nat (i mod light_cache_num_items context)) (light_cache context) [].

Definition new_item_state (context : epoch_context) (index : Z) : item_state :=
  let mix := words 4 (cache_at context index) in
  let mix := match mix with w :: mix => Z.lxor w index :: mix | [] => [] end in
  mkItemState index (keccak512 (of_words 4 mix)).

Definition item_update (context : epoch_context) (item : item_state) (round : nat) : item_state :=
  let num_words := 16%nat in
  let t := fnv1 (Z.lxor (item_seed item) (Z.of_nat round)) (nth (round mod num_words) (words 4 (item_mix item)) 0) in
  mkItemState (item_seed item) (fnv1_512 (item_mix item) (cache_at context t)).

Definition item_final (item : item_state) : bytes := keccak512 (item_mix item).

Definition calculate_dataset_item_1024 (context : epoch_context) (index : Z) : bytes :=
  let item0 := new_item_state context (u32 (index * 2)) in
  let item1 := new_item_state context (u32 (index * 2 + 1)) in
  let '(item0, item1) :=
    foldl (fun items i => (item_update context (fst items) i, item_update context (snd items) i)) (item0, item1)
      (seq 0 full_dataset_item_parents) in
  item_final item0 ++ item_final item1.

(** The first loop of [build_light_cache]: [n] items, each the hash of the one before. *)
Fixpoint hash_chain (n : nat) (item : bytes) : list bytes :=
  match n with O => [] | S n => item :: hash_chain n (keccak512 item) end.

Definition mix_cache_item (num_items : Z) (cache : list bytes) (i : nat) : list bytes :=
  let t := nth 0 (words 4 (nth i cache [])) 0 in
  let v := t mod num_items in
  let w := u32 (num_items + u32 (Z.of_nat i - 1)) mod num_items in
  let x := xor_512 (nth (Z.to_nat v) cache []) (nth (Z.to_nat w) cache []) in
  <[i := keccak512 x]> cache.

Definition build_light_cache (num_items : Z) (seed : bytes) : list bytes :=
  let n := Z.to_nat num_items in
  foldl (fun cache _ => foldl (mix_cache_item num_items) cache (seq 0 n)) (hash_chain n (keccak512 seed))
    (seq 0 light_cache_rounds).

Definition hash_seed (header : bytes) (nonce : Z) : bytes := keccak512 (header ++ to_le 8 nonce).

(** One access to the dataset. *)
Definition mix_access (context : epoch_context) (seed_init : Z) (mix : list Z) (i : nat) : list Z :=
  let p := fnv1 (Z.lxor (Z.of_nat i) seed_init) (nth (i mod 32) mix 0) mod full_dataset_num_items context in
  zip_with fnv1 mix (words 4 (calculate_dataset_item_1024 context p)).

Fixpoint compress_mix (mix : list Z) : list Z :=
  match mix with
  | a :: b :: c :: d :: mix => fnv1 (fnv1 (fnv1 a b) c) d :: compress_mix mix
  | _ => []
  end.

Definition hash_mix (context : epoch_context) (seed : bytes) : bytes :=
  let seed_init := nth 0 (words 4 seed) 0 in
  of_words 4 (compress_mix (foldl (mix_access context seed_init) (words 4 seed ++ words 4 seed)
                              (seq 0 num_dataset_accesses))).

Definition hash_final (seed mix : bytes) : bytes := keccak256 (seed ++ mix).

(** The loop over odd [d] while [d * d <= number], in 64 bits; the fuel bounds the steps. *)
Fixpoint no_odd_factor (fuel : nat) (number d : Z) : bool :=
  match fuel with
  | O => true
  | S fuel =>
      if u64 (d * d) <=? number then
        if number mod d =? 0 then false else no_odd_factor fuel number (d + 2)
      else true
  end.

Definition is_unsigned_odd_prime (number : Z) : bool :=
  if negb (Z.odd number) then false else no_odd_factor (Z.to_nat (Z.sqrt number)) number 3.

Fixpoint largest_prime_loop (fuel : nat) (n : Z) : Z :=
  match fuel with
  | O => n
  | S fuel => if is_unsigned_odd_prime n then n else largest_prime_loop fuel (u32 (n - 2))
  end.

Definition find_largest_unsigned_prime (upper_bound : Z) : Z :=
  if upper_bound <? 2 then 0
  else
    let n := if Z.odd upper_bound then upper_bound else upper_bound - 1 in
    largest_prime_loop (Z.to_nat n) n.

Definition calculate_light_cache_num_items (epoch_number : Z) : Z :=
  let item_size := 64 in
  let num_items_init := light_cache_init_size / item_size in
  let num_items_growth := light_cache_growth / item_size in
  find_largest_unsigned_prime (u32 (num_items_init + epoch_number * num_items_growth)).

Definition calculate_full_dataset_num_items (epoch_number : Z) : Z :=
  let item_size := 128 in
  let num_items_init := full_dataset_init_size / item_size in
  let num_items_growth := full_dataset_growth / item_size in
  find_largest_unsigned_prime (u32 (num_items_init + epoch_number * num_items_growth)).

Definition calculate_seed_from_epoch (epoch_number : Z) : bytes :=
  Nat.iter (Z.to_nat epoch_number) keccak256 zero_bytes32.

(** The function's static variables. *)
Record EpochSeedCache : Type := mkEpochSeedCache {
  cached_epoch_number : option Z;
  cached_epoch_seed : bytes
}.

Definition initial_seed_cache : EpochSeedCache := mkEpochSeedCache None zero_bytes32.

(** The linear search from epoch [i] on, whose seed is [cached]. *)
Fixpoint search_epoch (tries : nat) (i : Z) (seed cached : bytes) : option Z * EpochSeedCache :=
  match tries with
  | O => (None, mkEpochSeedCache None cached)
  | S tries =>
      if is_equal cached seed then (Some i, mkEpochSeedCache (Some i) cached)
      else search_epoch tries (i + 1) seed (keccak256 cached)
  end.

Definition kNumTries : nat := Z.to_nat 30000.

Definition calculate_epoch_from_seed (seed : bytes) (c : EpochSeedCache) : option Z * EpochSeedCache :=
  let restart := search_epoch kNumTries 0 seed zero_bytes32 in
  match cached_epoch_number c with
  | Some e =>
      if is_equal seed (cached_epoch_seed c) then (Some e, c)
      else
        let next := keccak256 (cached_epoch_seed c) in
        if is_equal next seed then (Some (u32 (e + 1)), mkEpochSeedCache (Some (u32 (e + 1))) next)
        else restart
  | None => restart
  end.

Definition create_epoch_context (epoch_number : Z) : epoch_context :=
  let light_cache_num_items := calculate_light_cache_num_items epoch_number in
  let full_dataset_num_items := calculate_full_dataset_num_items epoch_number in
  mkEpochContext epoch_number light_cache_num_items full_dataset_num_items
    (build_light_cache light_cache_num_items (calculate_seed_from_epoch epoch_number)).

Definition hash (context : epoch_context) (header : bytes) (nonce : Z) : hash_result :=
  let seed := hash_seed header nonce in
  let mix := hash_mix context seed in
  mkHashResult (hash_final seed mix) mix.

Definition verify_light (header_hash mix : bytes) (nonce : Z) (boundary : bytes) : bool :=
  is_less_or_equal (hash_final (hash_seed header_hash nonce) mix) boundary.

Definition verify_full (context : epoch_context) (header_hash mix : bytes) (nonce : Z) (boundary : bytes)
  : VerificationResult :=
  let seed := hash_seed header_hash nonce in
  if negb (is_less_or_equal (hash_final seed mix) boundary) then kInvalidNonce
  else if negb (is_equal mix (hash_mix context seed)) then kInvalidMixHash
  else kOk.

(** The overload that keeps the context of the last epoch. *)
Definition verify_full_block (block_num : Z) (header_hash mix : bytes) (nonce : Z) (boundary : bytes)
    (kept : option epoch_context) : VerificationResult * option epoch_context :=
  let e := u32 (block_num / epoch_length) in
  let context :=
    match kept with
    | Some c => if epoch_number c =? e then c else create_epoch_context e
    | None => create_epoch_context e
    end in
  (verify_full context header_hash mix nonce boundary, Some context).

Definition get_boundary_from_diff (difficulty : Z) : bytes :=
  let dividend := 2 ^ 256 - 1 in
  if 1 <? difficulty then to_be 32 (dividend / difficulty) else to_le 32 dividend.

(** ** Lemmas: prime numbers *)

Lemma odd_divisor a n : Z.odd n = true -> (a | n) -> Z.odd a = true.
Proof. intros Hn [k ->]. rewrite Z.odd_mul in Hn. by apply andb_true_iff in Hn as [_ ?]. Qed.

Lemma no_odd_factor_spec fuel number d :
  3 <= d <= 2 ^ 17 -> Z.odd d = true -> 0 <= number < 2 ^ 32 -> Z.sqrt number - d + 1 <= Z.of_nat fuel ->
  no_odd_factor fuel number d = true
  <-> forall a, d <= a -> Z.odd a = true -> a * a <= number -> ~ (a | number).
Proof.
  revert d. induction fuel as [|fuel IH]; intros d Hd Hodd Hn Hf; cbn [no_odd_factor].
  { split; [|done]. intros _ a Ha _ Hsq. exfalso. pose proof (Z.sqrt_le_square number a) as Hs. apply Hs in Hsq; lia. }
  rewrite u64_small by nia.
  destruct (Z.leb_spec (d * d) number) as [Hle|Hgt]; [|split; [|done]; intros _ a Ha _ Hsq; exfalso; nia].
  destruct (Z.eqb_spec (number mod d) 0) as [E|E].
  - split; [done|]. intros Hno. exfalso. apply (Hno d); [done|done|done|]. by apply Z.mod_divide; [lia|].
  - rewrite IH by (try (rewrite Z.odd_add, Hodd); nia || done).
    split; intros Hno a Ha Ho Hsq; [|apply Hno; [lia|done|done]].
    destruct (decide (a = d)) as [->|Hne]; [rewrite <- Z.mod_divide by lia; done|].
    destruct (decide (a = d + 1)) as [->|Hne']; [by rewrite Z.odd_add, Hodd in Ho|].
    apply Hno; [lia|done|done].
Qed.

Lemma is_unsigned_odd_prime_spec n :
  3 <= n < 2 ^ 32 -> is_unsigned_odd_prime n = true <-> Z.odd n = true /\ prime n.
Proof.
  intros Hn. unfold is_unsigned_odd_prime. destruct (Z.odd n) eqn:Hodd; cbn [negb]; [|by split; [|intros []]].
  rewrite no_odd_factor_spec by (try done; lia). split.
  - intros Hno. split; [done|]. apply prime_alt. split; [lia|]. intros m Hm Hdiv.
    assert (exists a, 1 < a /\ a * a <= n /\ (a | n)) as (a & Ha & Hsq & Hdiva).
    { pose proof Hdiv as [k Hk]. destruct (Z.le_gt_cases (m * m) n); [exists m; split_and!; [lia|done|done]|].
      exists k. split; [nia|]. split; [nia|]. exists m. lia. }
    pose proof (odd_divisor a n Hodd Hdiva) as Hoa.
    assert (a <> 2) by (by intros ->). by apply (Hno a); [lia|..].
  - intros [_ Hp] a Ha Ho Hsq Hdiv. apply prime_alt in Hp as [_ Hp]. by apply (Hp a); [nia|].
Qed.

Lemma even_not_prime q : 2 < q -> Z.odd q = false -> ~ prime q.
Proof.
  intros Hq Ho Hp. apply prime_alt in Hp as [_ Hp]. apply (Hp 2); [lia|].
  apply Z.mod_divide; [done|]. rewrite Zmod_odd, Ho. done.
Qed.

Lemma largest_prime_loop_spec fuel n :
  3 <= n < 2 ^ 32 -> Z.odd n = true -> n <= Z.of_nat fuel ->
  let p := largest_prime_loop fuel n in prime p /\ 3 <= p <= n /\ forall q, prime q -> q <= n -> q <= p.
Proof.
  revert n. induction fuel as [|fuel IH]; intros n Hn Hodd Hf; [lia|]. cbn [largest_prime_loop].
  destruct (is_unsigned_odd_prime n) eqn:E.
  { apply is_unsigned_odd_prime_spec in E as [_ Hp]; [|done]. by split_and!; [|lia..|]. }
  assert (~ prime n) as Hnp by (intros Hp; enough (is_unsigned_odd_prime n = true) by congruence; by apply is_unsigned_odd_prime_spec).
  assert (n <> 3) by (intros ->; by apply Hnp, prime_3).
  assert (n <> 4) by (by intros ->).
  assert (u32 (n - 2) = n - 2) as -> by (unfold u32; apply wrap_small; lia).
  assert (Z.odd (n - 2) = true) as Hodd2 by (by rewrite Z.odd_sub, Hodd).
  destruct (IH (n - 2)) as (Hp & Hle & Hmax); [lia|done|lia|]. split_and!; [done|lia|lia|].
  intros q Hq Hqn. destruct (decide (q = n)) as [->|]; [done|]. destruct (decide (q = n - 1)) as [->|].
  - exfalso. apply (even_not_prime (n - 1)); [lia| |done]. by rewrite Z.odd_sub, Hodd.
  - apply Hmax; [done|lia].
Qed.

Lemma find_largest_unsigned_prime_spec u :
  3 <= u < 2 ^ 32 ->
  let p := find_largest_unsigned_prime u in prime p /\ 3 <= p <= u /\ forall q, prime q -> q <= u -> q <= p.
Proof.
  intros Hu. unfold find_largest_unsigned_prime. rewrite (proj2 (Z.ltb_ge u 2)) by lia.
  destruct (Z.odd u) eqn:Ho.
  - apply largest_prime_loop_spec; [lia|done|lia].
  - assert (u <> 3) by (by intros ->).
    destruct (largest_prime_loop_spec (Z.to_nat (u - 1)) (u - 1)) as (Hp & Hle & Hmax);
      [lia|by rewrite Z.odd_sub, Ho|lia|].
    split_and!; [done|lia|lia|]. intros q Hq Hqu. destruct (decide (q = u)) as [->|]; [|apply Hmax; [done|lia]].
    exfalso. by apply (even_not_prime u); [lia|..].
Qed.

(** ** Lemmas: comparisons *)

Lemma words_cons n x h k :
  (0 < n)%nat -> length x = n -> length h = (n * k)%nat -> words n (x ++ h) = of_le x :: words n h.
Proof.
  intros Hn Hx Hh. unfold words. rewrite length_app, Hx, Hh.
  replace (n + n * k)%nat with (S k * n)%nat by lia. rewrite Nat.div_mul by lia.
  replace (n * k)%nat with (k * n)%nat by lia. rewrite Nat.div_mul by lia.
  change (seq 0 (S k)) with (0%nat :: seq 1 k). cbn [map].
  rewrite Nat.mul_0_r. f_equal; [f_equal; rewrite drop_0; by apply take_app_length'|].
  rewrite <- (seq_shift k 0), map_map. apply map_ext. intros i. do 2 f_equal.
  rewrite drop_app_ge by lia. f_equal. lia.
Qed.

Lemma rev_ok l : bytes_ok l -> bytes_ok (rev l).
Proof. apply List.Forall_rev. Qed.

Lemma to_le_of_le l : bytes_ok l -> to_le (length l) (of_le l) = l.
Proof.
  intros Hl. unfold to_le, of_le. rewrite <- (length_rev l), to_be_of_be by (by apply rev_ok). apply rev_involutive.
Qed.

Lemma be_words_cons x h k :
  length x = 8%nat -> bytes_ok x -> length h = (8 * k)%nat -> be_words (x ++ h) = of_be x :: be_words h.
Proof.
  intros Hx Hok Hh. unfold be_words. rewrite (words_cons 8 x h k) by (done || lia). cbn [map].
  by rewrite <- Hx, to_le_of_le.
Qed.

Lemma words_le_spec k : forall a b,
  length a = (8 * k)%nat -> length b = (8 * k)%nat -> bytes_ok a -> bytes_ok b ->
  words_le (be_words a) (be_words b) = (of_be a <=? of_be b).
Proof.
  induction k as [|k IH]; intros a b Ha Hb Hoka Hokb.
  { destruct a, b; try discriminate. reflexivity. }
  rewrite <- (take_drop 8 a), <- (take_drop 8 b) in *.
  apply Forall_app in Hoka as [Hxa Hra]. apply Forall_app in Hokb as [Hxb Hrb].
  assert (length (take 8 a) = 8%nat /\ length (take 8 b) = 8%nat) as [La Lb]
    by (rewrite !take_drop in *; rewrite !length_take; lia).
  assert (length (drop 8 a) = (8 * k)%nat /\ length (drop 8 b) = (8 * k)%nat) as [Lra Lrb]
    by (rewrite !take_drop in *; rewrite !length_drop; lia).
  rewrite !(be_words_cons _ _ k) by done. cbn [words_le].
  rewrite IH by done. rewrite !of_be_app, Lra, Lrb.
  pose proof (of_be_bound _ Hra) as Ba. pose proof (of_be_bound _ Hrb) as Bb. rewrite Lra in Ba. rewrite Lrb in Bb.
  set (w := 256 ^ Z.of_nat (8 * k)) in *.
  destruct (Z.ltb_spec (of_be (take 8 b)) (of_be (take 8 a))); [symmetry; apply Z.leb_gt; nia|].
  destruct (Z.ltb_spec (of_be (take 8 a)) (of_be (take 8 b))); [symmetry; apply Z.leb_le; nia|].
  replace (of_be (take 8 b)) with (of_be (take 8 a)) by lia.
  destruct (Z.leb_spec (of_be (drop 8 a)) (of_be (drop 8 b))); symmetry; [apply Z.leb_le|apply Z.leb_gt]; lia.
Qed.

Definition hash256_ok (h : bytes) : Prop := length h = 32%nat /\ bytes_ok h.

Lemma is_less_or_equal_spec a b : hash256_ok a -> hash256_ok b -> is_less_or_equal a b = (of_be a <=? of_be b).
Proof. intros [La Ha] [Lb Hb]. by apply (words_le_spec 4). Qed.

Lemma boundary_spec h d :
  hash256_ok h -> 0 <= d < 2 ^ 256 ->
  is_less_or_equal h (get_boundary_from_diff d) = (of_be h * d <=? 2 ^ 256 - 1).
Proof.
  intros Hh Hd. pose proof Hh as [Lh Hok]. pose proof (of_be_bound h Hok) as Hb. rewrite Lh in Hb.
  change (256 ^ Z.of_nat 32) with (2 ^ 256) in Hb.
  assert (hash256_ok (get_boundary_from_diff d)) as Hg.
  { unfold get_boundary_from_diff. case_match; split; try apply to_be_ok; try apply length_to_be; [by vm_compute|].
    apply rev_ok, to_be_ok. }
  rewrite is_less_or_equal_spec by done. unfold get_boundary_from_diff.
  destruct (Z.ltb_spec 1 d).
  - pose proof (Z.div_pos (2 ^ 256 - 1) d ltac:(lia) ltac:(lia)).
    pose proof (Z.div_le_upper_bound (2 ^ 256 - 1) d (2 ^ 256 - 1) ltac:(lia) ltac:(nia)).
    rewrite of_be_to_be_small by (change (256 ^ Z.of_nat 32) with (2 ^ 256); lia).
    destruct (Z.leb_spec (of_be h * d) (2 ^ 256 - 1)) as [Hle|Hgt].
    + apply Z.leb_le, Z.div_le_lower_bound; lia.
    + apply Z.leb_gt, Z.div_lt_upper_bound; lia.
  - change (of_be (to_le 32 (2 ^ 256 - 1))) with (2 ^ 256 - 1). assert (d = 0 \/ d = 1) as [->| ->] by lia.
    + rewrite Z.mul_0_r. apply Z.leb_le. lia.
    + by rewrite Z.mul_1_r.
Qed.

Lemma hash_final_ok seed mix : hash256_ok (hash_final seed mix).
Proof. split; [apply length_keccak256|apply keccak256_ok]. Qed.

Lemma verify_full_spec context header mix nonce boundary :
  verify_full context header mix nonce boundary = kOk
  <-> mix = mix_hash (hash context header nonce)
      /\ is_less_or_equal (final_hash (hash context header nonce)) boundary = true.
Proof.
  unfold verify_full, hash. cbn [mix_hash final_hash].
  destruct (is_less_or_equal _ boundary) eqn:El; cbn [negb].
  - unfold is_equal. destruct (bytes_eqb mix _) eqn:Em; cbn [negb].
    + apply bytes_eqb_eq in Em as ->. by rewrite El.
    + split; [done|]. intros [-> _]. by rewrite (proj2 (bytes_eqb_eq _ _) eq_refl) in Em.
  - split; [done|]. intros [-> E]. congruence.
Qed.

(** ** Lemmas: seeds of epochs *)

Lemma seed_succ e : 0 <= e -> calculate_seed_from_epoch (e + 1) = keccak256 (calculate_seed_from_epoch e).
Proof. intros He. unfold calculate_seed_from_epoch. by rewrite Z2Nat.inj_add, Nat.add_comm by lia. Qed.

Definition seed_cache_ok (c : EpochSeedCache) : Prop :=
  match cached_epoch_number c with
  | Some e => 0 <= e /\ cached_epoch_seed c = calculate_seed_from_epoch e
  | None => True
  end.

Lemma search_epoch_spec tries : forall i seed cached r c,
  0 <= i -> cached = calculate_seed_from_epoch i -> search_epoch tries i seed cached = (r, c) ->
  seed_cache_ok c /\ match r with
                     | Some e => i <= e < i + Z.of_nat tries /\ calculate_seed_from_epoch e = seed
                     | None => forall e, i <= e < i + Z.of_nat tries -> calculate_seed_from_epoch e <> seed
                     end.
Proof.
  induction tries as [|tries IH]; intros i seed cached r c Hi Hc; cbn [search_epoch].
  - intros [= <- <-]. split; [done|]. intros e He. lia.
  - unfold is_equal. destruct (bytes_eqb cached seed) eqn:E.
    + intros [= <- <-]. apply bytes_eqb_eq in E. split; [by split|]. split; [lia|congruence].
    + intros Hs. destruct (IH (i + 1) seed (keccak256 cached) r c) as [Hok Hr]; [lia|by rewrite seed_succ, Hc|done|].
      split; [done|]. destruct r as [e|]; [split; [lia|apply Hr]|].
      intros e He. destruct (decide (e = i)) as [->|Hne]; [|apply Hr; lia].
      intros Ee. rewrite <- Hc in Ee. by rewrite (proj2 (bytes_eqb_eq _ _) Ee) in E.
Qed.

(** What is kept between calls is the context of its epoch. *)
Definition kept_ok (kept : option epoch_context) : Prop :=
  match kept with Some c => c = create_epoch_context (epoch_number c) | None => True end.

Lemma verify_full_block_eq n header mix nonce boundary kept :
  kept_ok kept ->
  let context := create_epoch_context (u32 (n / epoch_length)) in
  verify_full_block n header mix nonce boundary kept
  = (verify_full context header mix nonce boundary, Some context).
Proof.
  intros Hk context. unfold verify_full_block. destruct kept as [c|]; [|done].
  destruct (Z.eqb_spec (epoch_number c) (u32 (n / epoch_length))) as [E|]; [|done].
  replace c with context; [done|]. unfold context. by rewrite <- E.
Qed.

(** * Properties *)

(** C38: The light cache and the full dataset of an epoch have the prescribed sizes: the largest prime number of
    items that fits into the linearly growing bound in bytes. The search for the prime ends, and nothing wraps
    in 32 bits before epoch 65408. Alone, the search is right from 3 on: for 2, itself prime, it answers 1. *)
Theorem epoch_sizes_correct (e : Z) :
  0 <= e < 2 ^ 16 - 128 ->
  let fits p item init growth := p * item <= init + e * growth in
  let light := calculate_light_cache_num_items e in
  let full := calculate_full_dataset_num_items e in
  (prime light /\ fits light 64 (2 ^ 24) (2 ^ 17) /\ forall q, prime q -> fits q 64 (2 ^ 24) (2 ^ 17) -> q <= light)
  /\ (prime full /\ fits full 128 (2 ^ 30) (2 ^ 23) /\ forall q, prime q -> fits q 128 (2 ^ 30) (2 ^ 23) -> q <= full)
  /\ find_largest_unsigned_prime 2 = 1.
Proof.
  intros He fits light full. subst light full fits. cbv beta.
  unfold calculate_light_cache_num_items, calculate_full_dataset_num_items.
  change (light_cache_init_size / 64) with (2 ^ 18). change (light_cache_growth / 64) with (2 ^ 11).
  change (full_dataset_init_size / 128) with (2 ^ 23). change (full_dataset_growth / 128) with (2 ^ 16).
  unfold u32. rewrite !wrap_small by lia.
  destruct (find_largest_unsigned_prime_spec (2 ^ 18 + e * 2 ^ 11)) as (Hp & Hle & Hmax); [lia|].
  destruct (find_largest_unsigned_prime_spec (2 ^ 23 + e * 2 ^ 16)) as (Hp' & Hle' & Hmax'); [lia|].
  split_and!; [done|lia| |done|lia| |reflexivity]; intros q Hq Hfit; [apply Hmax|apply Hmax']; done || lia.
Qed.

Lemma epoch_sizes_correct_witness : prime (calculate_light_cache_num_items 0).
Proof. apply (epoch_sizes_correct 0). lia. Defined.

(** C37: Verification of a seal: it is accepted exactly when the mix hash is the one [hash] computes in the context of
    the block's epoch and the final hash, as a big-endian number, times the difficulty is below 2^256. The
    context kept from the call before, for whatever block, does not change the answer; a seal accepted in
    full is accepted by the light verification. *)
Theorem seal_verification_correct (n : Z) (header mix : bytes) (nonce difficulty : Z) (kept : option epoch_context) :
  kept_ok kept -> 0 <= difficulty < 2 ^ 256 ->
  let boundary := get_boundary_from_diff difficulty in
  let '(r, kept') := verify_full_block n header mix nonce boundary kept in
  let h := hash (create_epoch_context (u32 (n / epoch_length))) header nonce in
  kept_ok kept'
  /\ (r = kOk <-> mix = mix_hash h /\ of_be (final_hash h) * difficulty < 2 ^ 256)
  /\ (r = kOk -> verify_light header mix nonce boundary = true).
Proof.
  intros Hk Hd boundary. rewrite verify_full_block_eq by done. cbv beta iota. split; [done|].
  set (context := create_epoch_context _).
  assert (is_less_or_equal (final_hash (hash context header nonce)) boundary
          = (of_be (final_hash (hash context header nonce)) * difficulty <=? 2 ^ 256 - 1)) as Eb
    by (apply boundary_spec; [apply hash_final_ok|done]).
  split.
  - rewrite verify_full_spec, Eb, Z.leb_le. split; intros [-> ?]; (split; [done|lia]).
  - intros Hr. apply verify_full_spec in Hr as [-> Hle]. exact Hle.
Qed.

Lemma seal_verification_correct_witness :
  let '(r, kept') := verify_full_block 0 zero_bytes32 zero_bytes32 0 (get_boundary_from_diff 1) None in
  kept_ok kept' /\ (r = kOk -> verify_light zero_bytes32 zero_bytes32 0 (get_boundary_from_diff 1) = true).
Proof.
  pose proof (seal_verification_correct 0 zero_bytes32 zero_bytes32 0 1 None I ltac:(lia)) as Hs. cbv zeta in Hs.
  destruct (verify_full_block 0 zero_bytes32 zero_bytes32 0 (get_boundary_from_diff 1) None) as [r kept'].
  destruct Hs as (Hk & _ & Hl). split; [exact Hk|exact Hl].
Defined.

(** The epoch of a seed is found by the search from epoch 0, or by the shortcut for the seed of the last answer
    and the one after it: an answer is an epoch with that seed, and without an answer none of the first 30000
    epochs has it. The static cache is consistent after every call if it was before. *)
Theorem calculate_epoch_from_seed_correct (seed : bytes) (c : EpochSeedCache) :
  seed_cache_ok c -> (forall e, cached_epoch_number c = Some e -> e < 2 ^ 32 - 1) ->
  let '(r, c') := calculate_epoch_from_seed seed c in
  seed_cache_ok c'
  /\ match r with
     | Some e => calculate_seed_from_epoch e = seed
     | None => forall e, 0 <= e < 30000 -> calculate_seed_from_epoch e <> seed
     end.
Proof.
  intros Hc Hmax.
  assert (let '(r, c') := search_epoch kNumTries 0 seed zero_bytes32 in
          seed_cache_ok c' /\ match r with
                              | Some e => calculate_seed_from_epoch e = seed
                              | None => forall e, 0 <= e < 30000 -> calculate_seed_from_epoch e <> seed
                              end) as Hsearch.
  { destruct (search_epoch kNumTries 0 seed zero_bytes32) as [r c'] eqn:E.
    apply search_epoch_spec in E as [Hok Hr]; [|lia|done]. split; [done|].
    unfold kNumTries in Hr. rewrite Z2Nat.id in Hr by lia. destruct r; [by destruct Hr|exact Hr]. }
  unfold calculate_epoch_from_seed. unfold seed_cache_ok in Hc. pose proof (Hmax) as Hm.
  destruct (cached_epoch_number c) as [e|] eqn:Ee; [|exact Hsearch]. destruct Hc as [He Hs].
  specialize (Hm e eq_refl). unfold is_equal.
  destruct (bytes_eqb seed (cached_epoch_seed c)) eqn:E1.
  { apply bytes_eqb_eq in E1. split; [unfold seed_cache_ok; by rewrite Ee|congruence]. }
  destruct (bytes_eqb (keccak256 (cached_epoch_seed c)) seed) eqn:E2; [|exact Hsearch].
  apply bytes_eqb_eq in E2. assert (u32 (e + 1) = e + 1) as -> by (unfold u32; apply wrap_small; lia).
  rewrite Hs in E2. split; [|by rewrite seed_succ].
  split; [lia|]. cbn [cached_epoch_seed]. by rewrite seed_succ, Hs.
Qed.

Lemma calculate_epoch_from_seed_correct_witness :
  fst (calculate_epoch_from_seed (keccak256 zero_bytes32) (mkEpochSeedCache (Some 0) zero_bytes32)) <> None
  /\ seed_cache_ok (snd (calculate_epoch_from_seed (keccak256 zero_bytes32) (mkEpochSeedCache (Some 0) zero_bytes32))).
Proof.
  pose proof (calculate_epoch_from_seed_correct (keccak256 zero_bytes32) (mkEpochSeedCache (Some 0) zero_bytes32)) as H.
  assert (fst (calculate_epoch_from_seed (keccak256 zero_bytes32) (mkEpochSeedCache (Some 0) zero_bytes32)) = Some 1) as E
    by (vm_compute; reflexivity).
  destruct (calculate_epoch_from_seed _ _) as [r c']. destruct H as [Hok _]; [by split|by intros e [= <-]|].
  cbn [fst] in E. rewrite E. by split.
Defined.
