(* ===== verification/Account.v ===== *)
(** * Account: core/silkworm/types (account.hpp, account.cpp)

    Accounts, their storage encoding (a field set followed by the fields present) and their RLP. *)

From S2P Require Import Prelude Util Rlp.
Local Open Scope Z_scope.
Local Open Scope silk_scope.

Definition kDefaultIncarnation : Z := 1.

Record Account : Type := mkAccount {
  nonce : Z;
  balance : Z;
  code_hash : bytes;
  incarnation : Z
}.

#[export] Instance Account_eq_dec : EqDecision Account.
Proof. solve_decision. Defined.

(** [Account{}] *)
Definition empty_account : Account := mkAccount 0 0 kEmptyHash 0.

(** [operator==] *)
Definition account_eqb (a b : Account) : bool :=
  (nonce a =? nonce b) && (balance a =? balance b) && bytes_eqb (code_hash a) (code_hash b)
  && (incarnation a =? incarnation b).

(** The bit of [field_set] and the bytes pushed for one present field. *)
Definition put_field (present : bool) (bit : Z) (be : bytes) (st : Z * bytes) : Z * bytes :=
  let '(field_set, res) := st in
  if present then (Z.lor field_set bit, res ++ [u8 (zlen be)] ++ be) else st.

(** [Account::encode_for_storage]; [res] starts with the byte that receives [field_set] last. *)
Definition encode_for_storage (a : Account) (omit_code_hash : bool) : bytes :=
  let st := (0, []) in
  let st := put_field (negb (nonce a =? 0)) 1 (big_endian_u64 (nonce a)) st in
  let st := put_field (negb (balance a =? 0)) 2 (big_endian_u256 (balance a)) st in
  let st := put_field (negb (incarnation a =? 0)) 4 (big_endian_u64 (incarnation a)) st in
  let st := put_field (negb (bytes_eqb (code_hash a) kEmptyHash) && negb omit_code_hash) 8
              (code_hash a) st in
  fst st :: snd st.

Definition encoding_length_for_storage (a : Account) : Z :=
  let len := 1 in
  let len := if nonce a =? 0 then len else len + (1 + zlen (big_endian_u64 (nonce a))) in
  let len := if balance a =? 0 then len else len + (1 + zlen (big_endian_u256 (balance a))) in
  let len := if incarnation a =? 0 then len else len + (1 + zlen (big_endian_u64 (incarnation a))) in
  if bytes_eqb (code_hash a) kEmptyHash then len else len + (1 + Z.of_nat kHashLength).

(** [encoded[pos++]]: reading at the end of the view is undefined. *)
Definition read_len (encoded : bytes) (pos : nat) : decoded nat :=
  match encoded !! pos with Some len => Ok (Z.to_nat len) | None => Undef end.

(** The check [encoded.length() < pos + len] and the view of the field. *)
Definition field_view (encoded : bytes) (pos len : nat) : decoded bytes :=
  if (length encoded <? pos + len)%nat then Err kInputTooShort
  else Ok (take len (drop pos encoded)).

Definition decode_uint64_field (encoded : bytes) (pos : nat) : decoded (Z * nat) :=
  try len := read_len encoded pos in
  try view := field_view encoded (pos + 1) len in
  try n := read_uint64 view in
  Ok (n, (pos + 1 + len)%nat).

(** The bytes are copied to the end of the 32 bytes of [a.balance] (undefined when they do not fit),
    whose byte order is then reversed: a big-endian load. *)
Definition decode_balance_field (encoded : bytes) (pos : nat) : decoded (Z * nat) :=
  try len := read_len encoded pos in
  try view := field_view encoded (pos + 1) len in
  if (32 <? len)%nat then Undef
  else Ok (of_be (memmove (zero_bytes 32) (32 - len) view), (pos + 1 + len)%nat).

Definition decode_code_hash_field (encoded : bytes) (pos : nat) : decoded bytes :=
  try len := read_len encoded pos in
  if negb (len =? kHashLength)%nat then Err kUnexpectedLength
  else field_view encoded (pos + 1) len.

(** [decode_account_from_storage]; the account returned beside an error is not used by callers. *)
Definition decode_account_from_storage (encoded : bytes) : decoded Account :=
  match encoded with
  | [] => Ok empty_account
  | field_set :: _ =>
      let pos := 1%nat in
      try (nonce, pos) :=
        if negb (Z.land field_set 1 =? 0) then decode_uint64_field encoded pos else Ok (0, pos) in
      try (balance, pos) :=
        if negb (Z.land field_set 2 =? 0) then decode_balance_field encoded pos else Ok (0, pos) in
      try (incarnation, pos) :=
        if negb (Z.land field_set 4 =? 0) then decode_uint64_field encoded pos else Ok (0, pos) in
      try code_hash :=
        if negb (Z.land field_set 8 =? 0) then decode_code_hash_field encoded pos
        else Ok kEmptyHash in
      Ok (mkAccount nonce balance code_hash incarnation)
  end.

(** [Account::rlp] *)
Definition account_rlp (a : Account) (storage_root : bytes) : bytes :=
  let payload_length :=
    length_u64 (nonce a) + length_u256 (balance a) + (Z.of_nat kHashLength + 1)
      + (Z.of_nat kHashLength + 1) in
  encode_header (mkHeader true payload_length)
  ++ encode_u64 (nonce a) ++ encode_u256 (balance a)
  ++ encode_fixed 32 storage_root ++ encode_fixed 32 (code_hash a).

(** * Lemmas *)

Record wf_account (a : Account) : Prop := {
  wf_nonce : wf_u64 (nonce a);
  wf_balance : wf_u256 (balance a);
  wf_code_hash : wf_fixed 32 (code_hash a);
  wf_incarnation : wf_u64 (incarnation a)
}.

Lemma account_eqb_eq a b : account_eqb a b = true <-> a = b.
Proof.
  destruct a, b. unfold account_eqb, bytes_eqb. cbn. split.
  - intros H. b2p. apply bool_decide_eq_true in H1. by subst.
  - intros [= -> -> -> ->]. by rewrite !Z.eqb_refl, bool_decide_eq_true_2.
Qed.

(** What one [put_field] appends. *)
Definition field (present : bool) (be : bytes) : bytes := if present then u8 (zlen be) :: be else [].
Definition field_bit (present : bool) (bit : Z) : Z := if present then bit else 0.

Lemma put_field_eq present bit be fs res :
  put_field present bit be (fs, res) = (Z.lor fs (field_bit present bit), res ++ field present be).
Proof.
  unfold put_field, field, field_bit. destruct present; [done|]. by rewrite Z.lor_0_r, app_nil_r.
Qed.

Lemma encode_for_storage_eq a omit :
  encode_for_storage a omit
  = Z.lor (Z.lor (Z.lor (field_bit (negb (nonce a =? 0)) 1) (field_bit (negb (balance a =? 0)) 2))
            (field_bit (negb (incarnation a =? 0)) 4))
      (field_bit (negb (bytes_eqb (code_hash a) kEmptyHash) && negb omit) 8)
    :: field (negb (nonce a =? 0)) (big_endian_u64 (nonce a))
    ++ field (negb (balance a =? 0)) (big_endian_u256 (balance a))
    ++ field (negb (incarnation a =? 0)) (big_endian_u64 (incarnation a))
    ++ field (negb (bytes_eqb (code_hash a) kEmptyHash) && negb omit) (code_hash a).
Proof.
  unfold encode_for_storage. rewrite !put_field_eq. cbn [fst snd]. rewrite Z.lor_0_l.
  by rewrite <- !app_assoc.
Qed.

Lemma read_len_field pre be post :
  zlen be < 256 -> read_len (pre ++ (u8 (zlen be) :: be) ++ post) (length pre) = Ok (length be).
Proof.
  intros H. unfold read_len. rewrite lookup_app_r, Nat.sub_diag by lia. cbn. unwrap. by rewrite Nat2Z.id.
Qed.

Lemma field_view_field pre be post :
  field_view (pre ++ (u8 (zlen be) :: be) ++ post) (length pre + 1) (length be) = Ok be.
Proof.
  unfold field_view. rewrite !length_app. cbn [length app].
  destruct (Nat.ltb_spec (length pre + (S (length be) + length post)) (length pre + 1 + length be)); [lia|].
  rewrite cons_middle, app_assoc, drop_app_length'; [|rewrite length_app; cbn; lia].
  by rewrite take_app_length.
Qed.

Lemma decode_uint64_field_app pre n post :
  wf_u64 n ->
  decode_uint64_field (pre ++ (u8 (zlen (big_endian_u64 n)) :: big_endian_u64 n) ++ post) (length pre)
  = Ok (n, length (pre ++ (u8 (zlen (big_endian_u64 n)) :: big_endian_u64 n))).
Proof.
  intros Hn. pose proof (be_len_u64 n Hn). unfold wf_u64 in Hn.
  assert (length (big_endian_u64 n) <= 8)%nat by (rewrite big_endian_u64_eq, length_to_be; done).
  unfold decode_uint64_field. rewrite read_len_field by lia. cbn [result_bind].
  rewrite field_view_field. cbn [result_bind].
  unfold read_uint64. rewrite big_endian_u64_eq by done. rewrite read_uint_compact by lia.
  cbn [result_bind]. do 2 f_equal. rewrite length_app. cbn [length]. lia.
Qed.

Lemma decode_balance_field_app pre n post :
  wf_u256 n ->
  decode_balance_field (pre ++ (u8 (zlen (big_endian_u256 n)) :: big_endian_u256 n) ++ post) (length pre)
  = Ok (n, length (pre ++ (u8 (zlen (big_endian_u256 n)) :: big_endian_u256 n))).
Proof.
  intros Hn. pose proof (be_len_u256 n Hn). unfold wf_u256 in Hn.
  assert (length (big_endian_u256 n) <= 32)%nat by (rewrite big_endian_u256_eq, length_to_be; done).
  unfold decode_balance_field. rewrite read_len_field by lia. cbn [result_bind].
  rewrite field_view_field. cbn [result_bind].
  destruct (Nat.ltb_spec 32 (length (big_endian_u256 n))); [lia|]. f_equal.
  apply pair_equal_spec. split; [|rewrite length_app; cbn [length]; lia].
  unfold memmove. rewrite drop_ge by (rewrite length_zero_bytes; lia). rewrite app_nil_r.
  rewrite take_zero_bytes, of_be_zeros_l, big_endian_u256_eq by done.
  apply of_be_compact. lia.
Qed.

Lemma decode_code_hash_field_app pre h :
  wf_fixed 32 h ->
  decode_code_hash_field (pre ++ (u8 (zlen h) :: h)) (length pre) = Ok h.
Proof.
  intros [_ Hl]. rewrite <- (app_nil_r (u8 (zlen h) :: h)). unfold decode_code_hash_field.
  rewrite read_len_field by lia. cbn [result_bind]. rewrite Hl. cbn [Nat.eqb kHashLength negb].
  change (negb (32 =? kHashLength)%nat) with false. rewrite <- Hl. apply field_view_field.
Qed.

(** The field-set byte tells which fields are present. *)
Lemma field_set_bits p1 p2 p4 p8 :
  let fs := Z.lor (Z.lor (Z.lor (field_bit p1 1) (field_bit p2 2)) (field_bit p4 4)) (field_bit p8 8) in
  negb (Z.land fs 1 =? 0) = p1 /\ negb (Z.land fs 2 =? 0) = p2
  /\ negb (Z.land fs 4 =? 0) = p4 /\ negb (Z.land fs 8 =? 0) = p8.
Proof. by destruct p1, p2, p4, p8. Qed.

Lemma uint64_step encoded pos pre n post :
  wf_u64 n -> encoded = pre ++ field (negb (n =? 0)) (big_endian_u64 n) ++ post -> pos = length pre ->
  (if negb (n =? 0) then decode_uint64_field encoded pos else Ok (0, pos))
  = Ok (n, length (pre ++ field (negb (n =? 0)) (big_endian_u64 n))).
Proof.
  intros Hn -> ->. destruct (Z.eqb_spec n 0) as [->|]; cbn [negb field].
  - by rewrite app_nil_r.
  - by apply decode_uint64_field_app.
Qed.

Lemma balance_step encoded pos pre n post :
  wf_u256 n -> encoded = pre ++ field (negb (n =? 0)) (big_endian_u256 n) ++ post -> pos = length pre ->
  (if negb (n =? 0) then decode_balance_field encoded pos else Ok (0, pos))
  = Ok (n, length (pre ++ field (negb (n =? 0)) (big_endian_u256 n))).
Proof.
  intros Hn -> ->. destruct (Z.eqb_spec n 0) as [->|]; cbn [negb field].
  - by rewrite app_nil_r.
  - by apply decode_balance_field_app.
Qed.

Lemma decode_encode_for_storage a omit :
  wf_account a ->
  decode_account_from_storage (encode_for_storage a omit)
  = Ok (if omit then mkAccount (nonce a) (balance a) kEmptyHash (incarnation a) else a).
Proof.
  destruct a as [n b h i]. intros [Hn Hb Hh Hi]. cbn [nonce balance code_hash incarnation] in *.
  rewrite encode_for_storage_eq. cbn [nonce balance code_hash incarnation].
  unfold decode_account_from_storage.
  set (p8 := negb (bytes_eqb h kEmptyHash) && negb omit).
  destruct (field_set_bits (negb (n =? 0)) (negb (b =? 0)) (negb (i =? 0)) p8) as (E1 & E2 & E4 & E8).
  set (fs := Z.lor _ _) in *. cbn zeta in *. rewrite E1, E2, E4, E8.
  set (f1 := field (negb (n =? 0)) (big_endian_u64 n)). set (f2 := field _ (big_endian_u256 b)).
  set (f4 := field _ (big_endian_u64 i)). set (f8 := field p8 h).
  rewrite (uint64_step _ _ [fs] n (f2 ++ f4 ++ f8)) by done. cbn [result_bind]. fold f1.
  rewrite (balance_step _ _ ([fs] ++ f1) b (f4 ++ f8)) by done. cbn [result_bind]. fold f2.
  rewrite (uint64_step _ _ (([fs] ++ f1) ++ f2) i f8) by (done || by rewrite <- !app_assoc).
  cbn [result_bind]. fold f4.
  replace (fs :: f1 ++ f2 ++ f4 ++ f8) with (((([fs] ++ f1) ++ f2) ++ f4) ++ f8) by by rewrite <- !app_assoc.
  subst f8 p8. unfold bytes_eqb. destruct (bool_decide_reflect (h = kEmptyHash)) as [->|Hne], omit; try done.
  cbn [negb andb field]. by rewrite decode_code_hash_field_app.
Qed.

Lemma length_field present be : zlen (field present be) = if present then 1 + zlen be else 0.
Proof. destruct present; cbn [field length]; lia. Qed.

(** * Properties *)

(** The storage encoding of an account is read back: every field is recovered (the code hash
    as the empty hash when it was omitted), and [encoding_length_for_storage] announces the length of
    the encoding with its code hash. *)
Theorem account_storage_roundtrip (a : Account) (omit : bool) :
  wf_account a ->
  decode_account_from_storage (encode_for_storage a omit)
    = Ok (if omit then mkAccount (nonce a) (balance a) kEmptyHash (incarnation a) else a)
  /\ zlen (encode_for_storage a false) = encoding_length_for_storage a.
Proof.
  intros Hw. split; [by apply decode_encode_for_storage|].
  rewrite encode_for_storage_eq. cbn [length]. rewrite !length_app, Nat2Z.inj_succ, !Nat2Z.inj_add, !length_field.
  unfold encoding_length_for_storage. destruct Hw as [_ _ [_ Hh] _]. rewrite Hh, andb_true_r.
  change (Z.of_nat kHashLength) with 32.
  destruct (nonce a =? 0), (balance a =? 0), (incarnation a =? 0), (bytes_eqb _ _); cbn [negb]; lia.
Qed.

Lemma account_storage_roundtrip_witness :
  decode_account_from_storage (encode_for_storage (mkAccount 7 1000 kEmptyHash 1) false)
  = Ok (mkAccount 7 1000 kEmptyHash 1).
Proof.
  apply (account_storage_roundtrip (mkAccount 7 1000 kEmptyHash 1) false).
  split; unfold wf_u64, wf_u256; cbn [nonce balance code_hash incarnation]; try lia.
  split; [bytes_dec|reflexivity].
Defined.

(** [decode_account_from_storage] trusts its input. A field set announcing a field at
    the very end of the view makes it read the length byte past the end, and a balance longer than
    32 bytes is copied in front of the 32 bytes of [a.balance]: on both inputs, shorter than the
    storage encoding allows or damaged, the behaviour is undefined rather than an error code. *)
Theorem account_decode_unchecked (field_set : Z) (len : nat) (be : bytes) :
  (negb (Z.land field_set 15 =? 0) = true -> decode_account_from_storage [field_set] = Undef)
  /\ ((32 < length be < 256)%nat -> decode_account_from_storage (2 :: zlen be :: be) = Undef).
Proof.
  split.
  - intros H. unfold decode_account_from_storage.
    assert (forall n, decode_uint64_field [n] 1 = Undef /\ decode_balance_field [n] 1 = Undef
      /\ decode_code_hash_field [n] 1 = Undef) as Hu by done.
    destruct (Hu field_set) as (U1 & U2 & U3).
    assert (forall i, 0 <= i -> negb (Z.land field_set (2 ^ i) =? 0) = Z.testbit field_set i) as Hbit.
    { intros i Hi. destruct (Z.eqb_spec (Z.land field_set (2 ^ i)) 0) as [E|E]; cbn.
      - apply (f_equal (fun z => Z.testbit z i)) in E. rewrite Z.land_spec, Z.pow2_bits_true in E by lia.
        rewrite Z.bits_0, andb_true_r in E. done.
      - destruct (Z.testbit field_set i) eqn:Eb; [done|]. exfalso. apply E. apply Z.bits_inj'.
        intros j Hj. rewrite Z.land_spec, Z.bits_0. destruct (Z.eq_dec i j) as [<-|Hne].
        + by rewrite Eb. + rewrite Z.pow2_bits_false by done. apply andb_false_r. }
    pose proof (Hbit 0 ltac:(lia)) as B0. pose proof (Hbit 1 ltac:(lia)) as B1.
    pose proof (Hbit 2 ltac:(lia)) as B2. pose proof (Hbit 3 ltac:(lia)) as B3.
    change (2 ^ 0) with 1 in B0. change (2 ^ 1) with 2 in B1. change (2 ^ 2) with 4 in B2.
    change (2 ^ 3) with 8 in B3. rewrite B0, B1, B2, B3. clear B0 B1 B2 B3.
    destruct (Z.testbit field_set 0) eqn:B0; [by rewrite U1|].
    destruct (Z.testbit field_set 1) eqn:B1; [by cbn [result_bind]; rewrite U2|].
    destruct (Z.testbit field_set 2) eqn:B2; [by cbn [result_bind]; rewrite U1|].
    destruct (Z.testbit field_set 3) eqn:B3; [by cbn [result_bind]; rewrite U3|].
    exfalso. apply negb_true_iff, Z.eqb_neq in H. apply H. apply Z.bits_inj'. intros j Hj.
    rewrite Z.land_spec, Z.bits_0. change 15 with (Z.ones 4). rewrite Z.testbit_ones_nonneg by lia.
    destruct (Z.ltb_spec j 4); [|apply andb_false_r]. rewrite andb_true_r.
    assert (j = 0 \/ j = 1 \/ j = 2 \/ j = 3) as [->|[->|[->| ->]]] by lia; done.
  - intros Hl. unfold decode_account_from_storage. 
    change (negb (Z.land 2 1 =? 0)) with false. change (negb (Z.land 2 2 =? 0)) with true.
    cbn [result_bind]. unfold decode_balance_field.
    assert (read_len (2 :: zlen be :: be) 1 = Ok (length be)) as ->
      by (unfold read_len; cbn; by rewrite Nat2Z.id).
    cbn [result_bind]. unfold field_view. cbn [length].
    destruct (Nat.ltb_spec (S (S (length be))) (1 + 1 + length be)); [lia|]. cbn [result_bind].
    destruct (Nat.ltb_spec 32 (length be)); [done|lia].
Qed.

Lemma account_decode_unchecked_witness :
  decode_account_from_storage [1] = Undef
  /\ decode_account_from_storage (2 :: zlen (zero_bytes 33) :: zero_bytes 33) = Undef.
Proof.
  split.
  - by apply (account_decode_unchecked 1 0 []).
  - apply (account_decode_unchecked 1 0 (zero_bytes 33)). rewrite length_zero_bytes. lia.
Defined.
