(* ===== verification/Transaction.v ===== *)
(** * Transaction: core/silkworm/types (transaction.hpp, transaction.cpp)

    Legacy and EIP-2930 transactions: their RLP for blocks, for the transaction root and for signing,
    and the recovery of the sender. *)

From S2P Require Import Prelude Util Keccak Rlp Ecdsa.
Local Open Scope Z_scope.
Local Open Scope silk_scope.

Definition kEip2930TransactionType : Z := 1.

Record AccessListEntry : Type := mkAccessListEntry {
  account : bytes;
  storage_keys : list Bytes32
}.

Record Transaction : Type := mkTransaction {
  txn_type : option Z;
  txn_nonce : Z;
  gas_price : Z;
  gas_limit : Z;
  txn_to : option bytes;
  value : Z;
  data : bytes;
  odd_y_parity : bool;
  chain_id : option Z;
  sig_r : Z;
  sig_s : Z;
  access_list : list AccessListEntry;
  txn_from : option bytes
}.

#[export] Instance Bytes32_eq_dec : EqDecision Bytes32.
Proof. solve_decision. Defined.
#[export] Instance AccessListEntry_eq_dec : EqDecision AccessListEntry.
Proof. solve_decision. Defined.
#[export] Instance Transaction_eq_dec : EqDecision Transaction.
Proof. solve_decision. Defined.

(** [Transaction{}] *)
Definition empty_transaction : Transaction :=
  mkTransaction None 0 0 0 None 0 [] false None 0 0 [] None.

(** [operator==] ignores the sender, which is derived from the signature. *)
Definition transaction_eqb (a b : Transaction) : bool :=
  bool_decide (txn_type a = txn_type b) && (txn_nonce a =? txn_nonce b) && (gas_price a =? gas_price b)
  && (gas_limit a =? gas_limit b) && bool_decide (txn_to a = txn_to b) && (value a =? value b)
  && bool_decide (data a = data b) && Bool.eqb (odd_y_parity a) (odd_y_parity b)
  && bool_decide (chain_id a = chain_id b) && (sig_r a =? sig_r b) && (sig_s a =? sig_s b)
  && bool_decide (access_list a = access_list b).

(** [Transaction::v] *)
Definition txn_v (txn : Transaction) : Z :=
  y_parity_and_chain_id_to_v (odd_y_parity txn) (chain_id txn).

(** [Transaction::set_v] *)
Definition set_v (txn : Transaction) (v : Z) : Transaction :=
  let y := v_to_y_parity_and_chain_id v in
  mkTransaction (txn_type txn) (txn_nonce txn) (gas_price txn) (gas_limit txn) (txn_to txn)
    (value txn) (data txn) (yp_odd y) (yp_chain_id y) (sig_r txn) (sig_s txn) (access_list txn)
    (txn_from txn).

(** ** Access list entries *)

Definition access_rlp_header (e : AccessListEntry) : Header :=
  mkHeader true (Z.of_nat kAddressLength + 1 + length_vector (storage_keys e)).

Definition length_access_entry (e : AccessListEntry) : Z :=
  length_of_length (h_payload_length (access_rlp_header e)) + h_payload_length (access_rlp_header e).

Definition encode_access_entry (e : AccessListEntry) : bytes :=
  encode_header (access_rlp_header e) ++ encode_fixed 20 (account e) ++ encode_vector (storage_keys e).

Definition decode_access_fields (from : bytes) : decoded (AccessListEntry * bytes) :=
  try (a, from) := decode_fixed 20 from in
  try (keys, from) := decode_vector from in
  Ok (mkAccessListEntry a keys, from).

Definition decode_access_entry : bytes -> decoded (AccessListEntry * bytes) :=
  decode_list decode_access_fields.

#[export] Instance AccessListEntry_encode : RlpEncode AccessListEntry :=
  {| rlp_encode := encode_access_entry; rlp_length := length_access_entry |}.
#[export] Instance AccessListEntry_decode : RlpDecode AccessListEntry :=
  {| rlp_decode := decode_access_entry |}.

(** ** Encoding of transactions *)

Definition value_or_0 (o : option Z) : Z := match o with Some x => x | None => 0 end.

Definition txn_rlp_header (txn : Transaction) (for_signing : bool) : Header :=
  let n := 0 in
  let n := match txn_type txn with Some _ => n + length_u256 (value_or_0 (chain_id txn)) | None => n end in
  let n := n + length_u64 (txn_nonce txn) in
  let n := n + length_u256 (gas_price txn) in
  let n := n + length_u64 (gas_limit txn) in
  let n := n + match txn_to txn with Some _ => Z.of_nat kAddressLength + 1 | None => 1 end in
  let n := n + length_u256 (value txn) in
  let n := n + length_bytes (data txn) in
  let n := if bool_decide (txn_type txn = Some kEip2930TransactionType)
           then n + length_vector (access_list txn) else n in
  let n :=
    if negb for_signing then
      let n := match txn_type txn with
               | Some _ => n + length_bool (odd_y_parity txn)
               | None => n + length_u256 (txn_v txn)
               end in
      n + length_u256 (sig_r txn) + length_u256 (sig_s txn)
    else match txn_type txn, chain_id txn with
         | None, Some id => n + (length_u256 id + 2)
         | _, _ => n
         end in
  mkHeader true n.

Definition length_transaction (txn : Transaction) : Z :=
  let rlp_head := txn_rlp_header txn false in
  let rlp_len := length_of_length (h_payload_length rlp_head) + h_payload_length rlp_head in
  match txn_type txn with
  | Some _ => length_of_length (rlp_len + 1) + rlp_len + 1
  | None => rlp_len
  end.

(** The recipient, or an empty string for a contract creation. *)
Definition encode_to (to : option bytes) : bytes :=
  match to with Some a => encode_fixed 20 a | None => [kEmptyStringCode] end.

Definition legacy_encode (txn : Transaction) (for_signing : bool) : bytes :=
  encode_header (txn_rlp_header txn for_signing)
  ++ encode_u64 (txn_nonce txn) ++ encode_u256 (gas_price txn) ++ encode_u64 (gas_limit txn)
  ++ encode_to (txn_to txn) ++ encode_u256 (value txn) ++ encode_bytes (data txn)
  ++ (if negb for_signing then encode_u256 (txn_v txn) ++ encode_u256 (sig_r txn) ++ encode_u256 (sig_s txn)
      else match chain_id txn with
           | Some id => encode_u256 id ++ encode_u64 0 ++ encode_u64 0
           | None => []
           end).

(** The assertion [txn.type == kEip2930TransactionType] is the caller's obligation. *)
Definition eip2930_encode (txn : Transaction) (type : Z) (for_signing wrap_into_array : bool) : bytes :=
  let rlp_head := txn_rlp_header txn for_signing in
  (if wrap_into_array then
     let rlp_len := length_of_length (h_payload_length rlp_head) + h_payload_length rlp_head in
     encode_header (mkHeader false (rlp_len + 1))
   else [])
  ++ [type]
  ++ encode_header rlp_head
  ++ encode_u256 (value_or_0 (chain_id txn))
  ++ encode_u64 (txn_nonce txn) ++ encode_u256 (gas_price txn) ++ encode_u64 (gas_limit txn)
  ++ encode_to (txn_to txn) ++ encode_u256 (value txn) ++ encode_bytes (data txn)
  ++ encode_vector (access_list txn)
  ++ (if negb for_signing then
        encode_bool (odd_y_parity txn) ++ encode_u256 (sig_r txn) ++ encode_u256 (sig_s txn)
      else []).

Definition encode_transaction_for (txn : Transaction) (for_signing wrap_eip2718_into_array : bool) : bytes :=
  match txn_type txn with
  | Some t => eip2930_encode txn t for_signing wrap_eip2718_into_array
  | None => legacy_encode txn for_signing
  end.

(** [encode(Bytes&, const Transaction&)] *)
Definition encode_transaction (txn : Transaction) : bytes := encode_transaction_for txn false true.

(** ** Decoding of transactions *)

(** [from[0]] is read without a check that the view is not empty. *)
Definition decode_to (from : bytes) : decoded (option bytes * bytes) :=
  match from with
  | [] => Undef
  | b :: rest =>
      if b =? kEmptyStringCode then Ok (None, rest)
      else try (a, from) := decode_fixed 20 from in Ok (Some a, from)
  end.

Definition legacy_decode (to : Transaction) (from : bytes) : decoded (Transaction * bytes) :=
  try (nonce, from) := decode_u64 from in
  try (price, from) := decode_u256 from in
  try (limit, from) := decode_u64 from in
  try (to_, from) := decode_to from in
  try (value_, from) := decode_u256 from in
  try (data_, from) := decode_bytes from in
  try (v, from) := decode_u256 from in
  try (r, from) := decode_u256 from in
  try (s, from) := decode_u256 from in
  Ok (set_v (mkTransaction (txn_type to) nonce price limit to_ value_ data_ (odd_y_parity to)
               (chain_id to) r s (access_list to) (txn_from to)) v, from).

(** The header must be a list's, but its length is not compared with anything. *)
Definition eip2930_decode (to : Transaction) (from : bytes) : decoded (Transaction * bytes) :=
  try (h, from) := decode_header from in
  if negb (h_list h) then Err kUnexpectedString
  else
    try (id, from) := decode_u256 from in
    try (nonce, from) := decode_u64 from in
    try (price, from) := decode_u256 from in
    try (limit, from) := decode_u64 from in
    try (to_, from) := decode_to from in
    try (value_, from) := decode_u256 from in
    try (data_, from) := decode_bytes from in
    try (al, from) := decode_vector from in
    try (odd, from) := decode_bool from in
    try (r, from) := decode_u256 from in
    try (s, from) := decode_u256 from in
    Ok (mkTransaction (txn_type to) nonce price limit to_ value_ data_ odd (Some id) r s al (txn_from to),
        from).

Definition with_type (txn : Transaction) (type : option Z) : Transaction :=
  mkTransaction type (txn_nonce txn) (gas_price txn) (gas_limit txn) (txn_to txn)
    (value txn) (data txn) (odd_y_parity txn) (chain_id txn) (sig_r txn) (sig_s txn) (access_list txn)
    (txn_from txn).

Definition decode_transaction (to : Transaction) (from : bytes) : decoded (Transaction * bytes) :=
  try (h, from) := decode_header from in
  if h_list h then
    let leftover := zlen from - h_payload_length h in
    try (to, from) := legacy_decode (with_type to None) from in
    if zlen from =? leftover then Ok (to, from) else Err kListLengthMismatch
  else if h_payload_length h =? 0 then Err kInputTooShort
  else match from with
       | [] => Undef
       | t :: from =>
           if negb (t =? kEip2930TransactionType) then Err kUnsupportedEip2718Type
           else
             let n := Z.to_nat (h_payload_length h - 1) in
             let eip2718_view := take n from in
             try (to, eip2718_view) := eip2930_decode (with_type to (Some t)) eip2718_view in
             match eip2718_view with
             | _ :: _ => Err kListLengthMismatch
             | [] => Ok (to, drop n from)
             end
       end.

(** In a vector every element is decoded into a fresh [Transaction]. *)
#[export] Instance Transaction_encode : RlpEncode Transaction :=
  {| rlp_encode := encode_transaction; rlp_length := length_transaction |}.
#[export] Instance Transaction_decode : RlpDecode Transaction :=
  {| rlp_decode := decode_transaction empty_transaction |}.

(** ** The sender *)

Definition with_from (txn : Transaction) (from : option bytes) : Transaction :=
  mkTransaction (txn_type txn) (txn_nonce txn) (gas_price txn) (gas_limit txn) (txn_to txn)
    (value txn) (data txn) (odd_y_parity txn) (chain_id txn) (sig_r txn) (sig_s txn) (access_list txn)
    from.

(** [Transaction::recover_sender], with the elliptic-curve library as a parameter. *)
Definition recover_sender (secp256k1 : bytes -> bool -> bytes -> option bytes) (txn : Transaction)
  : Transaction :=
  let rlp := encode_transaction_for txn true false in
  let hash := keccak256 rlp in
  let signature := to_be 32 (sig_r txn) ++ to_be 32 (sig_s txn) in
  match recover secp256k1 hash signature (odd_y_parity txn) with
  | Some recovered => with_from txn (Some (drop 12 (keccak256 (drop 1 recovered))))
  | None => with_from txn None
  end.

(** * Lemmas: access lists *)

Notation wf_bytes32 := (fun x => wf_fixed kHashLength (bytes32 x)).

Definition access_payload (e : AccessListEntry) : bytes :=
  encode_fixed 20 (account e) ++ encode_vector (storage_keys e).

Definition wf_access_fields (e : AccessListEntry) : Prop :=
  wf_fixed 20 (account e) /\ wf_vector wf_bytes32 (storage_keys e).

Definition wf_access (e : AccessListEntry) : Prop :=
  wf_access_fields e /\ zlen (access_payload e) < 2 ^ 63.

Lemma access_fields_codec : FieldCodec access_payload decode_access_fields wf_access_fields.
Proof.
  unfold access_payload, decode_access_fields. split.
  - intros [a ks] rest [Ha Hk]. cbn [account storage_keys] in *. rewrite <- app_assoc. by field_steps.
  - intros from e rest Hi Hd. inv_bind. injection Hd as <- <-. canon_steps. subst. by rewrite <- app_assoc.
Qed.

Lemma access_encode_list e : wf_access e -> encode_access_entry e = encode_list (access_payload e).
Proof.
  intros [[Ha Hk] Hl]. unfold encode_access_entry, encode_list, access_rlp_header.
  assert (zlen (access_payload e) = Z.of_nat kAddressLength + 1 + length_vector (storage_keys e)) as ->; [|done].
  unfold access_payload. rewrite zlen_app, (length_encode_fixed 20) by apply Ha.
  by rewrite length_encode_vector by done.
Qed.

Lemma length_access e : wf_access e -> zlen (encode_access_entry e) = length_access_entry e.
Proof.
  intros [[Ha Hk] Hl]. rewrite access_encode_list, length_encode_list by done.
  unfold length_access_entry, access_rlp_header. cbn [h_payload_length].
  unfold access_payload. rewrite zlen_app, (length_encode_fixed 20) by apply Ha.
  by rewrite length_encode_vector by done.
Qed.

#[export] Instance access_codec : RlpCodec AccessListEntry wf_access.
Proof.
  pose proof (list_field _ _ _ access_fields_codec) as Hc.
  split; cbn [rlp_encode rlp_length rlp_decode AccessListEntry_encode AccessListEntry_decode].
  - apply length_access.
  - intros e He Hn. rewrite access_encode_list in Hn by done.
    apply app_eq_nil in Hn as [Hn _]. by apply encode_header_nonempty in Hn.
  - intros e rest He. rewrite access_encode_list by done. by apply Hc.
Qed.

#[export] Instance access_canonical : RlpCanonical AccessListEntry wf_access.
Proof.
  pose proof (list_field _ _ _ access_fields_codec) as Hc. split. intros from e rest Hok Hl Hd.
  apply Hc in Hd as [Hw ->]; [|done]. split; [done|]. cbn. by rewrite access_encode_list.
Qed.

(** * Lemmas: transactions *)

Definition wf_to (to : option bytes) : Prop := match to with Some a => wf_fixed 20 a | None => True end.

#[export] Instance to_field : FieldCodec encode_to decode_to wf_to.
Proof.
  split.
  - intros [a|] rest Hw; [|done]. cbn [wf_to encode_to] in *. unfold decode_to.
    pose proof (field_roundtrip (dec := decode_fixed 20) a rest Hw) as Hr.
    unfold encode_fixed in *. cbn [app] in *. change (u8 (kEmptyStringCode + Z.of_nat 20)) with 148 in *.
    change (148 =? kEmptyStringCode) with false. cbv iota. by rewrite Hr.
  - intros from x rest Hi Hd. unfold decode_to in Hd. destruct from as [|b from]; [done|].
    destruct (Z.eqb_spec b kEmptyStringCode) as [->|]; [injection Hd as <- <-; done|].
    inv_bind. injection Hd as <- <-. canon_steps. done.
Qed.

Lemma length_encode_to to :
  wf_to to -> zlen (encode_to to) = match to with Some _ => Z.of_nat kAddressLength + 1 | None => 1 end.
Proof. destruct to; [|done]. intros [_ H]. by apply (length_encode_fixed 20). Qed.

(** The seven fields that both kinds of transaction share. *)
Record wf_common (txn : Transaction) : Prop := {
  wf_txn_nonce : wf_u64 (txn_nonce txn);
  wf_gas_price : wf_u256 (gas_price txn);
  wf_gas_limit : wf_u64 (gas_limit txn);
  wf_txn_to : wf_to (txn_to txn);
  wf_value : wf_u256 (value txn);
  wf_data : wf_bytes (data txn);
  wf_r : wf_u256 (sig_r txn);
  wf_s : wf_u256 (sig_s txn);
  wf_from : txn_from txn = None
}.

Definition legacy_payload (txn : Transaction) : bytes :=
  encode_u64 (txn_nonce txn) ++ encode_u256 (gas_price txn) ++ encode_u64 (gas_limit txn)
  ++ encode_to (txn_to txn) ++ encode_u256 (value txn) ++ encode_bytes (data txn)
  ++ encode_u256 (txn_v txn) ++ encode_u256 (sig_r txn) ++ encode_u256 (sig_s txn).

(** A legacy transaction carries no access list and a chain id that [v] can express. *)
Record wf_legacy (txn : Transaction) : Prop := {
  legacy_common : wf_common txn;
  legacy_type : txn_type txn = None;
  legacy_access : access_list txn = [];
  legacy_chain : v_to_y_parity_and_chain_id (txn_v txn)
                 = mkYParityAndChainId (odd_y_parity txn) (chain_id txn);
  legacy_v : wf_u256 (txn_v txn)
}.

Lemma legacy_fields_codec : FieldCodec legacy_payload (legacy_decode empty_transaction) wf_legacy.
Proof.
  unfold legacy_payload, legacy_decode. split.
  - intros txn rest [[] Ht Ha Hc Hv]. rewrite <- !app_assoc. field_steps. f_equal. apply pair_equal_spec.
    split; [|done]. unfold set_v. rewrite Hc. destruct txn. cbn in *. by subst.
  - intros from txn rest Hi Hd. inv_bind. injection Hd as <- <-. canon_steps. subst.
    rewrite <- !app_assoc. unfold txn_v, set_v. cbn. rewrite v_roundtrip by done. split; [|done].
    split; try done; unfold txn_v; cbn; rewrite v_roundtrip by done; [|done].
    by destruct (v_to_y_parity_and_chain_id _).
Qed.

Lemma legacy_payload_length txn :
  wf_common txn -> wf_u256 (txn_v txn) -> txn_type txn = None ->
  zlen (legacy_payload txn) = h_payload_length (txn_rlp_header txn false).
Proof.
  intros [] Hv Ht. unfold legacy_payload, txn_rlp_header. rewrite Ht. cbn [negb h_payload_length].
  rewrite bool_decide_eq_false_2 by done. rewrite !zlen_app.
  rewrite !(fun n H => proj1 (length_encode_u64 n H)), !(fun n H => proj1 (length_encode_u256 n H)) by done.
  rewrite length_encode_to, (fun s H => proj1 (length_encode_bytes s H)) by (done || apply wf_data0). lia.
Qed.

Lemma legacy_encode_list txn :
  wf_legacy txn -> encode_transaction txn = encode_list (legacy_payload txn).
Proof.
  intros [Hc Ht _ _ Hv]. unfold encode_transaction, encode_transaction_for, legacy_encode, encode_list.
  rewrite Ht. rewrite legacy_payload_length by done.
  cbn [negb]. unfold legacy_payload. by destruct (txn_rlp_header txn false) eqn:E; injection E as <-.
Qed.

Lemma decode_transaction_list from txn rest :
  decode_list (legacy_decode empty_transaction) from = Ok (txn, rest) ->
  decode_transaction empty_transaction from = Ok (txn, rest).
Proof.
  unfold decode_list, decode_transaction. intros Hd. inv_bind. rewrite E. cbn [result_bind].
  destruct (h_list h); cbn [negb] in Hd; [|done].
  change (with_type empty_transaction None) with empty_transaction. exact Hd.
Qed.

(** ** EIP-2930 *)

Definition eip2930_payload (txn : Transaction) : bytes :=
  encode_u256 (value_or_0 (chain_id txn))
  ++ encode_u64 (txn_nonce txn) ++ encode_u256 (gas_price txn) ++ encode_u64 (gas_limit txn)
  ++ encode_to (txn_to txn) ++ encode_u256 (value txn) ++ encode_bytes (data txn)
  ++ encode_vector (access_list txn)
  ++ encode_bool (odd_y_parity txn) ++ encode_u256 (sig_r txn) ++ encode_u256 (sig_s txn).

Record wf_eip2930 (txn : Transaction) : Prop := {
  eip_common : wf_common txn;
  eip_type : txn_type txn = Some kEip2930TransactionType;
  eip_access : wf_vector wf_access (access_list txn);
  eip_chain : match chain_id txn with Some id => wf_u256 id | None => False end
}.

Lemma eip2930_payload_length txn :
  wf_eip2930 txn ->
  zlen (eip2930_payload txn) = h_payload_length (txn_rlp_header txn false).
Proof.
  intros [[] Ht Ha Hc]. unfold eip2930_payload, txn_rlp_header. rewrite Ht. cbn [negb h_payload_length].
  rewrite bool_decide_eq_true_2 by done. rewrite !zlen_app.
  destruct (chain_id txn) as [id|]; [|done]. cbn [value_or_0].
  rewrite !(fun n H => proj1 (length_encode_u64 n H)), !(fun n H => proj1 (length_encode_u256 n H)) by done.
  unfold encode_bool, length_bool. rewrite (fun n H => proj1 (length_encode_u64 n H))
    by (destruct (odd_y_parity txn); unfold wf_u64; cbn; lia).
  rewrite length_encode_to, (fun s H => proj1 (length_encode_bytes s H)) by (done || apply wf_data0).
  rewrite length_encode_vector by done. lia.
Qed.

(** The EIP-2718 payload: the type and the list. *)
Definition eip2718_payload (txn : Transaction) : bytes :=
  kEip2930TransactionType :: encode_list (eip2930_payload txn).

Lemma eip2930_encode_eq txn :
  wf_eip2930 txn -> zlen (eip2718_payload txn) < 2 ^ 63 ->
  encode_transaction txn
  = encode_header (mkHeader false (zlen (eip2718_payload txn))) ++ eip2718_payload txn.
Proof.
  intros Hw Hl. unfold encode_transaction, encode_transaction_for. rewrite (eip_type _ Hw).
  unfold eip2930_encode. cbn zeta. rewrite <- (eip2930_payload_length _ Hw). cbn [negb].
  assert (zlen (eip2930_payload txn) < 2 ^ 63) as Hl'.
  { unfold eip2718_payload, encode_list in Hl. cbn [length] in Hl. rewrite length_app in Hl. lia. }
  assert (zlen (eip2718_payload txn)
    = length_of_length (zlen (eip2930_payload txn)) + zlen (eip2930_payload txn) + 1) as ->.
  { unfold eip2718_payload. cbn [length]. rewrite Nat2Z.inj_succ, length_encode_list by done. lia. }
  unfold eip2718_payload, encode_list. rewrite (eip2930_payload_length _ Hw). cbn [app]. do 2 f_equal.
Qed.

Lemma eip2930_decode_encode txn :
  wf_eip2930 txn -> zlen (eip2930_payload txn) < 2 ^ 63 ->
  eip2930_decode (with_type empty_transaction (Some kEip2930TransactionType))
    (encode_list (eip2930_payload txn)) = Ok (txn, []).
Proof.
  intros [[] Ht Ha Hc] Hl. unfold eip2930_decode, encode_list.
  rewrite <- (app_nil_r (eip2930_payload txn)) at 2. rewrite decode_list_header by done.
  cbn [result_bind h_list negb]. unfold eip2930_payload. rewrite <- !app_assoc.
  destruct (chain_id txn) as [id|] eqn:Ei; [|done]. cbn [value_or_0]. field_steps.
  destruct txn. cbn in *. by subst.
Qed.

(** A transaction that a block can hold: its whole encoding fits in memory. *)
Definition wf_transaction (txn : Transaction) : Prop :=
  (wf_legacy txn /\ zlen (legacy_payload txn) < 2 ^ 63)
  \/ (wf_eip2930 txn /\ zlen (eip2718_payload txn) < 2 ^ 63).

Lemma decode_encode_transaction txn rest :
  wf_transaction txn ->
  decode_transaction empty_transaction (encode_transaction txn ++ rest) = Ok (txn, rest).
Proof.
  intros [[Hw Hl]|[Hw Hl]].
  - rewrite legacy_encode_list by done. apply decode_transaction_list.
    apply (field_roundtrip (FieldCodec := list_field _ _ _ legacy_fields_codec)). done.
  - rewrite eip2930_encode_eq by done. unfold decode_transaction.
    assert (zlen (eip2930_payload txn) < 2 ^ 63 /\ 1 < zlen (eip2718_payload txn)) as [Hl' H1].
    { unfold eip2718_payload, encode_list in *. cbn [length] in *. rewrite length_app in *.
      destruct (encode_header (mkHeader true (zlen (eip2930_payload txn)))) eqn:E;
        [by apply encode_header_nonempty in E|cbn [length] in *; lia]. }
    rewrite <- app_assoc, decode_encode_header; cbn [h_payload_length].
    + cbn [result_bind h_list h_payload_length]. destruct (Z.eqb_spec (zlen (eip2718_payload txn)) 0); [lia|].
      unfold eip2718_payload. cbn [app length].
      change (negb (kEip2930TransactionType =? kEip2930TransactionType)) with false. cbv iota zeta.
      replace (Z.to_nat (Z.of_nat (S (length (encode_list (eip2930_payload txn)))) - 1))
        with (length (encode_list (eip2930_payload txn))) by lia.
      by rewrite take_app_length, drop_app_length, eip2930_decode_encode.
    + unfold header_ok. cbn [h_payload_length]. lia.
    + rewrite zlen_app. lia.
    + intros E. apply (f_equal h_payload_length) in E. cbn [h_payload_length] in E. lia.
Qed.

Lemma length_encode_transaction txn :
  wf_transaction txn -> zlen (encode_transaction txn) = length_transaction txn.
Proof.
  intros [[Hw Hl]|[Hw Hl]]; unfold length_transaction.
  - rewrite legacy_encode_list, length_encode_list by done. destruct Hw as [Hc Ht _ _ Hv]. rewrite Ht.
    by rewrite legacy_payload_length.
  - rewrite eip2930_encode_eq by done. rewrite (eip_type _ Hw), <- eip2930_payload_length by done.
    assert (zlen (eip2930_payload txn) < 2 ^ 63) as Hl'.
    { unfold eip2718_payload, encode_list in Hl. cbn [length] in Hl. rewrite length_app in Hl. lia. }
    rewrite zlen_app, length_encode_header by (unfold header_ok; cbn [h_payload_length]; lia). cbn [h_payload_length].
    assert (zlen (eip2718_payload txn)
      = length_of_length (zlen (eip2930_payload txn)) + zlen (eip2930_payload txn) + 1) as ->.
    { unfold eip2718_payload. cbn [length]. rewrite Nat2Z.inj_succ, length_encode_list by done. lia. }
    lia.
Qed.

Lemma encode_transaction_nonempty txn : encode_transaction txn <> [].
Proof.
  unfold encode_transaction, encode_transaction_for.
  destruct (txn_type txn); unfold eip2930_encode, legacy_encode; intros Hn;
    repeat (apply app_eq_nil in Hn as [Hn _]); by apply encode_header_nonempty in Hn.
Qed.

#[export] Instance transaction_codec : RlpCodec Transaction wf_transaction.
Proof.
  split; cbn [rlp_encode rlp_length rlp_decode Transaction_encode Transaction_decode].
  - apply length_encode_transaction.
  - intros txn _. apply encode_transaction_nonempty.
  - intros txn rest. apply decode_encode_transaction.
Qed.

Lemma decode_legacy_canonical from txn rest :
  input_ok from -> decode_transaction empty_transaction from = Ok (txn, rest) -> txn_type txn = None ->
  wf_legacy txn /\ from = encode_transaction txn ++ rest.
Proof.
  intros Hi Hd Ht. unfold decode_transaction in Hd.
  destruct (decode_header from) as [[h r]| |] eqn:E; cbn [result_bind] in Hd; [|done|done].
  destruct (h_list h) eqn:El.
  - assert (decode_list (legacy_decode empty_transaction) from = Ok (txn, rest)) as Hd'.
    { unfold decode_list. rewrite E. cbn [result_bind]. rewrite El. cbn [negb]. exact Hd. }
    apply (field_canonical (FieldCodec := list_field _ _ _ legacy_fields_codec)) in Hd' as [[Hw Hl] ->]; [|done].
    by rewrite legacy_encode_list.
  - exfalso. destruct (h_payload_length h =? 0); [done|]. destruct r as [|t r]; [done|].
    destruct (negb _); [done|]. inv_bind.
    match goal with E : eip2930_decode _ _ = Ok (_, ?v) |- _ =>
      rename E into Ee; destruct v; [|done] end.
    injection Hd as <- _. unfold eip2930_decode in Ee. inv_bind. case_in Ee; [done|]. inv_bind.
    by injection Ee as <- _.
Qed.

(** ** Signing *)

(** Two encoded field sequences that are equal start with the same field. *)
Lemma field_inj {A} {enc : A -> bytes} {dec wf} `{FieldCodec A enc dec wf} x y r1 r2 :
  wf x -> wf y -> enc x ++ r1 = enc y ++ r2 -> x = y /\ r1 = r2.
Proof.
  intros Hx Hy E. pose proof (field_roundtrip x r1 Hx) as H1. rewrite E, field_roundtrip in H1 by done.
  by injection H1 as -> ->.
Qed.

Lemma encode_header_inj h1 h2 p1 p2 :
  header_ok h1 -> header_ok h2 -> h_list h1 = true -> h_list h2 = true ->
  h_payload_length h1 <= zlen p1 -> h_payload_length h2 <= zlen p2 ->
  encode_header h1 ++ p1 = encode_header h2 ++ p2 -> p1 = p2.
Proof.
  intros H1 H2 L1 L2 Hp1 Hp2 E.
  pose proof (decode_encode_header h1 p1 H1 Hp1 ltac:(by intros ->)) as D.
  rewrite E, decode_encode_header in D; try done; [by injection D as _ ->|by intros ->].
Qed.

(** What is signed, without its header. *)
Definition signing_payload (txn : Transaction) : bytes :=
  match txn_type txn with
  | Some _ =>
      encode_u256 (value_or_0 (chain_id txn))
      ++ encode_u64 (txn_nonce txn) ++ encode_u256 (gas_price txn) ++ encode_u64 (gas_limit txn)
      ++ encode_to (txn_to txn) ++ encode_u256 (value txn) ++ encode_bytes (data txn)
      ++ encode_vector (access_list txn)
  | None =>
      encode_u64 (txn_nonce txn) ++ encode_u256 (gas_price txn) ++ encode_u64 (gas_limit txn)
      ++ encode_to (txn_to txn) ++ encode_u256 (value txn) ++ encode_bytes (data txn)
      ++ match chain_id txn with Some id => encode_u256 id ++ encode_u64 0 ++ encode_u64 0 | None => [] end
  end.

(** The fields that are signed are in range, and the type is one of the two supported. *)
Record wf_signed (txn : Transaction) : Prop := {
  sg_nonce : wf_u64 (txn_nonce txn);
  sg_price : wf_u256 (gas_price txn);
  sg_limit : wf_u64 (gas_limit txn);
  sg_to : wf_to (txn_to txn);
  sg_value : wf_u256 (value txn);
  sg_data : wf_bytes (data txn);
  sg_chain : wf_u256 (value_or_0 (chain_id txn));
  sg_type : txn_type txn = None \/ txn_type txn = Some kEip2930TransactionType;
  sg_access : wf_vector wf_access (access_list txn);
  sg_fits : zlen (signing_payload txn) < 2 ^ 63
}.

Lemma encode_signing_eq txn :
  wf_signed txn ->
  encode_transaction_for txn true false
  = match txn_type txn with Some t => [t] | None => [] end ++ encode_list (signing_payload txn).
Proof.
  intros []. assert (zlen (signing_payload txn) = h_payload_length (txn_rlp_header txn true)) as El.
  { unfold signing_payload, txn_rlp_header. cbn [negb h_payload_length].
    destruct sg_type0 as [Ht|Ht]; rewrite Ht;
      [rewrite bool_decide_eq_false_2 by done|rewrite bool_decide_eq_true_2 by done]; rewrite !zlen_app;
      rewrite !(fun n H => proj1 (length_encode_u64 n H)), !(fun n H => proj1 (length_encode_u256 n H)) by done;
      rewrite length_encode_to, (fun s H => proj1 (length_encode_bytes s H)) by (done || apply sg_data0).
    - destruct (chain_id txn) as [id|]; cbn [value_or_0] in *; [|cbn [length]; lia].
      rewrite !zlen_app, (fun n H => proj1 (length_encode_u256 n H)) by done.
      change (zlen (encode_u64 0)) with 1. lia.
    - rewrite length_encode_vector by done. lia. }
  unfold encode_transaction_for, encode_list, signing_payload in *. destruct (txn_type txn) as [t|] eqn:Ht.
  - unfold eip2930_encode. rewrite El. cbn [negb app]. rewrite app_nil_r. f_equal.
  - unfold legacy_encode. rewrite El. cbn [negb app]. f_equal.
Qed.

Lemma encode_list_inj p1 p2 :
  zlen p1 < 2 ^ 63 -> zlen p2 < 2 ^ 63 -> encode_list p1 = encode_list p2 -> p1 = p2.
Proof.
  intros H1 H2 E. apply (encode_header_inj (mkHeader true (zlen p1)) (mkHeader true (zlen p2)));
    unfold header_ok; cbn [h_payload_length h_list]; lia || done.
Qed.

(** The first byte of a list is not the EIP-2930 type. *)
Lemma encode_list_head p l : zlen p < 2 ^ 63 -> encode_list p <> kEip2930TransactionType :: l.
Proof.
  intros H. unfold encode_list, encode_header. cbn [h_payload_length h_list]. zif.
  - unfold kEmptyListCode. unwrap. cbn [app]. intros [= E]. unfold kEip2930TransactionType in E. lia.
  - rewrite big_endian_u64_eq, length_to_be by lia. pose proof (be_len_u64 (zlen p) ltac:(lia)).
    unwrap. cbn [app]. intros [= E]. unfold kEip2930TransactionType in E. lia.
Qed.

Ltac split_fields E :=
  repeat (apply field_inj in E as [? E]; [|done|done]).

(** * Properties *)

(** C6: A transaction is decoded back from the form it has in a block, whatever follows it: a legacy
    one from its list, an EIP-2930 one from its list behind the type byte inside a byte array; and
    [length] announces the bytes of that form. The sender is not transmitted. *)
Theorem transaction_roundtrip (txn : Transaction) (rest : bytes) :
  wf_transaction txn ->
  decode_transaction empty_transaction (encode_transaction txn ++ rest) = Ok (txn, rest)
  /\ zlen (encode_transaction txn) = length_transaction txn.
Proof. intros H. split; [by apply decode_encode_transaction | by apply length_encode_transaction]. Qed.

Lemma transaction_roundtrip_witness :
  let txn := mkTransaction (Some 1) 7 1000 21000 None 5 [0xAB] true (Some 1) 3 4
               [mkAccessListEntry (zero_bytes 20) [mkBytes32 (zero_bytes 32)]] None in
  decode_transaction empty_transaction (encode_transaction txn ++ [0xFF]) = Ok (txn, [0xFF]).
Proof.
  intros txn. apply (transaction_roundtrip txn [0xFF]). right.
  split; [split|vm_compute; reflexivity].
  - split; cbn; wf_dec.
  - reflexivity.
  - cbn. wf_dec; unfold wf_access, wf_access_fields; cbn; wf_dec; cbn; wf_dec.
  - cbn. wf_dec.
Defined.

(** A legacy transaction has one encoding: whenever a byte string is accepted as one, it
    starts with exactly the encoder's output for the transaction returned. This rests on [v]
    determining the parity and the chain id and on the strict reading of every field and of the
    list's length. *)
Theorem legacy_transaction_canonical (from rest : bytes) (txn : Transaction) :
  input_ok from -> decode_transaction empty_transaction from = Ok (txn, rest) -> txn_type txn = None ->
  wf_legacy txn /\ from = encode_transaction txn ++ rest.
Proof. apply decode_legacy_canonical. Qed.

Lemma legacy_transaction_canonical_witness :
  let txn := mkTransaction None 1 2 3 None 4 [] true None 5 6 [] None in
  [0xC9; 1; 2; 3; 0x80; 4; 0x80; 28; 5; 6; 9] = encode_transaction txn ++ [9].
Proof.
  intros txn. apply (legacy_transaction_canonical [0xC9; 1; 2; 3; 0x80; 4; 0x80; 28; 5; 6; 9] [9] txn).
  - split; [bytes_dec|reflexivity].
  - reflexivity.
  - reflexivity.
Defined.

(** EIP-2930 transactions do not have that property. [eip2930_decode] requires a list header
    but never compares the length it announces with the fields read, so two different byte strings
    are accepted as the same transaction; a legacy transaction with the corresponding defect is
    refused with [kListLengthMismatch]. *)
Theorem eip2930_not_canonical :
  let fields := [1; 1; 2; 3; 0x80; 4; 0x80; 0xC0; 0x80; 5; 6] in
  let txn := mkTransaction (Some 1) 1 2 3 None 4 [] false (Some 1) 5 6 [] None in
  decode_transaction empty_transaction ([0x8D; 1; 0xCB] ++ fields) = Ok (txn, [])
  /\ decode_transaction empty_transaction ([0x8D; 1; 0xC0] ++ fields) = Ok (txn, [])
  /\ decode_transaction empty_transaction [0xC0; 1; 2; 3; 0x80; 4; 0x80; 28; 5; 6]
     = Err kListLengthMismatch.
Proof. vm_compute. done. Qed.

(** The recipient's first byte is read without checking that the view still has one: every
    legacy transaction that ends after its gas limit, at the end of the input, is not refused with an
    error code but makes the decoder read past its view. *)
Theorem recipient_read_unchecked (nonce price limit : Z) :
  wf_u64 nonce -> wf_u256 price -> wf_u64 limit ->
  decode_transaction empty_transaction
    (encode_list (encode_u64 nonce ++ encode_u256 price ++ encode_u64 limit)) = Undef.
Proof.
  intros Hn Hp Hl. unfold decode_transaction, encode_list.
  set (p := encode_u64 nonce ++ _).
  assert (zlen p < 2 ^ 63) as Hlen.
  { subst p. rewrite !zlen_app. pose proof (length_encode_u64 nonce Hn).
    pose proof (length_encode_u256 price Hp). pose proof (length_encode_u64 limit Hl).
    lia. }
  rewrite <- (app_nil_r p) at 2. rewrite decode_list_header by done. cbn [result_bind h_list].
  subst p. rewrite <- !app_assoc. unfold legacy_decode. by field_steps.
Qed.

Lemma recipient_read_unchecked_witness :
  decode_transaction empty_transaction (encode_list (encode_u64 1 ++ encode_u256 2 ++ encode_u64 3)) = Undef.
Proof. apply (recipient_read_unchecked 1 2 3); unfold wf_u64, wf_u256; lia. Defined.

(** The bytes a sender signs determine every signed field: two transactions with the same
    signing payload have the same type, nonce, price, gas, recipient, value and data; legacy ones have
    the same chain id (or none, before EIP-155), EIP-2930 ones the same chain and access list. *)
Theorem signing_payload_injective (a b : Transaction) :
  wf_signed a -> wf_signed b ->
  encode_transaction_for a true false = encode_transaction_for b true false ->
  txn_type a = txn_type b /\ txn_nonce a = txn_nonce b /\ gas_price a = gas_price b
  /\ gas_limit a = gas_limit b /\ txn_to a = txn_to b /\ value a = value b /\ data a = data b
  /\ (txn_type a = None -> chain_id a = chain_id b)
  /\ (txn_type a <> None ->
      value_or_0 (chain_id a) = value_or_0 (chain_id b) /\ access_list a = access_list b).
Proof.
  intros Ha Hb E. rewrite !encode_signing_eq in E by done. destruct Ha, Hb.
  destruct sg_type0 as [Ta|Ta], sg_type1 as [Tb|Tb]; rewrite Ta, Tb in *; cbn [app] in E.
  - apply encode_list_inj in E; [|done|done]. unfold signing_payload in E. rewrite Ta, Tb in E.
    split_fields E. split_and!; try done. intros _.
    destruct (chain_id a) as [x|], (chain_id b) as [y|]; cbn [value_or_0] in *; try done.
    + split_fields E. by subst.
    + apply app_eq_nil in E as [_ E]. done.
    + symmetry in E. apply app_eq_nil in E as [_ E]. done.
  - exfalso. by eapply encode_list_head in E.
  - exfalso. symmetry in E. by eapply encode_list_head in E.
  - injection E as E. apply encode_list_inj in E; [|done|done]. unfold signing_payload in E.
    rewrite Ta, Tb in E. split_fields E.
    rewrite <- (app_nil_r (encode_vector (access_list a))), <- (app_nil_r (encode_vector (access_list b))) in E.
    split_fields E. split_and!; done.
Qed.

Lemma signing_payload_injective_witness :
  chain_id (mkTransaction None 1 2 3 None 4 [] true (Some 1) 5 6 [] None) = Some 1.
Proof.
  apply (signing_payload_injective (mkTransaction None 1 2 3 None 4 [] true (Some 1) 5 6 [] None)
    (mkTransaction None 1 2 3 None 4 [] false (Some 1) 7 8 [] None)); try reflexivity;
    split; try (by left); cbn; wf_dec.
Defined.
