(* ===== verification/Block.v ===== *)
(** * Block: core/silkworm/types (log.hpp, log.cpp, bloom.hpp, bloom.cpp, receipt.hpp, receipt.cpp,
    block.hpp, block.cpp)

    Logs, bloom filters, receipts, block headers and bodies, with their RLP. *)

From S2P Require Import Prelude Util Keccak Rlp Ecdsa Transaction.
Local Open Scope Z_scope.
Local Open Scope silk_scope.

(** ** Logs *)

Record Log : Type := mkLog {
  log_address : bytes;
  log_topics : list Bytes32;
  log_data : bytes
}.

Definition log_header (l : Log) : Header :=
  mkHeader true (Z.of_nat kAddressLength + 1 + length_vector (log_topics l) + length_bytes (log_data l)).

Definition length_log (l : Log) : Z :=
  length_of_length (h_payload_length (log_header l)) + h_payload_length (log_header l).

(** [encode(to, full_view(l.address))] is the byte-string overload. *)
Definition encode_log (l : Log) : bytes :=
  encode_header (log_header l)
  ++ encode_bytes (log_address l) ++ encode_vector (log_topics l) ++ encode_bytes (log_data l).

#[export] Instance Log_encode : RlpEncode Log := {| rlp_encode := encode_log; rlp_length := length_log |}.

(** ** Bloom filters *)

Definition kBloomByteLength : nat := 256.

Definition empty_bloom : bytes := zero_bytes kBloomByteLength.

(** The three bit numbers taken from a hash; [i] is 0, 2 and 4. *)
Definition bloom_bit (hash : bytes) (i : nat) : Z :=
  Z.land (nth (i + 1) hash 0 + Z.shiftl (nth i hash 0) 8) 0x7FF.

(** [bloom[kBloomByteLength - 1 - bit / 8] |= 1 << (bit % 8)] *)
Definition set_bloom_bit (bloom : bytes) (bit : Z) : bytes :=
  alter (fun b => u8 (Z.lor b (Z.shiftl 1 (bit mod 8)))) (kBloomByteLength - 1 - Z.to_nat (bit / 8))%nat bloom.

Definition m3_2048 (bloom x : bytes) : bytes :=
  let hash := keccak256 x in
  foldl (fun bloom i => set_bloom_bit bloom (bloom_bit hash i)) bloom [0%nat; 2%nat; 4%nat].

Definition logs_bloom (logs : list Log) : bytes :=
  foldl (fun bloom log =>
    foldl (fun bloom topic => m3_2048 bloom (bytes32 topic)) (m3_2048 bloom (log_address log))
      (log_topics log)) empty_bloom logs.

(** [join(sum, addend)] *)
Definition join (sum addend : bytes) : bytes := zip_with Z.lor sum addend.

(** ** Receipts *)

Record Receipt : Type := mkReceipt {
  receipt_type : option Z;
  success : bool;
  cumulative_gas_used : Z;
  bloom : bytes;
  logs : list Log
}.

Definition receipt_header (r : Receipt) : Header :=
  mkHeader true (1 + length_u64 (cumulative_gas_used r) + length_bytes (bloom r) + length_vector (logs r)).

Definition encode_receipt (r : Receipt) : bytes :=
  match receipt_type r with Some t => [t] | None => [] end
  ++ encode_header (receipt_header r)
  ++ encode_bool (success r) ++ encode_u64 (cumulative_gas_used r) ++ encode_bytes (bloom r)
  ++ encode_vector (logs r).

(** ** Block headers *)

Record BlockHeader : Type := mkBlockHeader {
  parent_hash : bytes;
  ommers_hash : bytes;
  beneficiary : bytes;
  state_root : bytes;
  transactions_root : bytes;
  receipts_root : bytes;
  header_bloom : bytes;
  difficulty : Z;
  number : Z;
  header_gas_limit : Z;
  gas_used : Z;
  timestamp : Z;
  extra_data : bytes;
  mix_hash : bytes;
  header_nonce : bytes
}.

#[export] Instance BlockHeader_eq_dec : EqDecision BlockHeader.
Proof. solve_decision. Defined.

(** [BlockHeader{}] *)
Definition empty_block_header : BlockHeader :=
  mkBlockHeader zero_bytes32 zero_bytes32 zero_address zero_bytes32 zero_bytes32 zero_bytes32
    empty_bloom 0 0 0 0 0 [] zero_bytes32 (zero_bytes 8).

Definition block_rlp_header (header : BlockHeader) (for_sealing : bool) : Header :=
  let n := 0 in
  let n := n + (Z.of_nat kHashLength + 1) in
  let n := n + (Z.of_nat kHashLength + 1) in
  let n := n + (Z.of_nat kAddressLength + 1) in
  let n := n + (Z.of_nat kHashLength + 1) in
  let n := n + (Z.of_nat kHashLength + 1) in
  let n := n + (Z.of_nat kHashLength + 1) in
  let n := n + (Z.of_nat kBloomByteLength + length_of_length (Z.of_nat kBloomByteLength)) in
  let n := n + length_u256 (difficulty header) in
  let n := n + length_u64 (number header) in
  let n := n + length_u64 (header_gas_limit header) in
  let n := n + length_u64 (gas_used header) in
  let n := n + length_u64 (timestamp header) in
  let n := n + length_bytes (extra_data header) in
  let n := if negb for_sealing then n + (Z.of_nat kHashLength + 1) + (8 + 1) else n in
  mkHeader true n.

Definition length_block_header (header : BlockHeader) : Z :=
  let rlp_head := block_rlp_header header false in
  length_of_length (h_payload_length rlp_head) + h_payload_length rlp_head.

Definition encode_block_header_for (header : BlockHeader) (for_sealing : bool) : bytes :=
  encode_header (block_rlp_header header for_sealing)
  ++ encode_fixed 32 (parent_hash header) ++ encode_fixed 32 (ommers_hash header)
  ++ encode_fixed 20 (beneficiary header) ++ encode_fixed 32 (state_root header)
  ++ encode_fixed 32 (transactions_root header) ++ encode_fixed 32 (receipts_root header)
  ++ encode_bytes (header_bloom header) ++ encode_u256 (difficulty header)
  ++ encode_u64 (number header) ++ encode_u64 (header_gas_limit header)
  ++ encode_u64 (gas_used header) ++ encode_u64 (timestamp header)
  ++ encode_bytes (extra_data header)
  ++ (if negb for_sealing then encode_fixed 32 (mix_hash header) ++ encode_fixed 8 (header_nonce header)
      else []).

Definition encode_block_header (header : BlockHeader) : bytes := encode_block_header_for header false.

Definition decode_header_fields (from : bytes) : decoded (BlockHeader * bytes) :=
  try (parent, from) := decode_fixed 32 from in
  try (ommers, from) := decode_fixed 32 from in
  try (benef, from) := decode_fixed 20 from in
  try (sroot, from) := decode_fixed 32 from in
  try (troot, from) := decode_fixed 32 from in
  try (rroot, from) := decode_fixed 32 from in
  try (lbloom, from) := decode_fixed kBloomByteLength from in
  try (diff, from) := decode_u256 from in
  try (num, from) := decode_u64 from in
  try (glimit, from) := decode_u64 from in
  try (gused, from) := decode_u64 from in
  try (time, from) := decode_u64 from in
  try (extra, from) := decode_bytes from in
  try (mix, from) := decode_fixed 32 from in
  try (nonce, from) := decode_fixed 8 from in
  Ok (mkBlockHeader parent ommers benef sroot troot rroot lbloom diff num glimit gused time extra mix nonce,
      from).

Definition decode_block_header : bytes -> decoded (BlockHeader * bytes) := decode_list decode_header_fields.

(** [BlockHeader::hash] *)
Definition block_header_hash (header : BlockHeader) (for_sealing : bool) : bytes :=
  keccak256 (encode_block_header_for header for_sealing).

#[export] Instance BlockHeader_encode : RlpEncode BlockHeader :=
  {| rlp_encode := encode_block_header; rlp_length := length_block_header |}.
#[export] Instance BlockHeader_decode : RlpDecode BlockHeader :=
  {| rlp_decode := decode_block_header |}.

(** ** Block bodies and blocks *)

Record BlockBody : Type := mkBlockBody {
  transactions : list Transaction;
  ommers : list BlockHeader
}.

(** [struct Block : public BlockBody] *)
Record Block : Type := mkBlock {
  body : BlockBody;
  header : BlockHeader
}.

Record BlockWithHash : Type := mkBlockWithHash { block : Block; block_hash : bytes }.

(** [operator==] of bodies compares transactions without their senders. *)
Definition block_body_eqb (a b : BlockBody) : bool :=
  Nat.eqb (length (transactions a)) (length (transactions b))
  && forallb (fun p => transaction_eqb (fst p) (snd p)) (zip (transactions a) (transactions b))
  && bool_decide (ommers a = ommers b).

Definition recover_senders (secp256k1 : bytes -> bool -> bytes -> option bytes) (b : Block) : Block :=
  mkBlock (mkBlockBody (map (recover_sender secp256k1) (transactions (body b))) (ommers (body b))) (header b).

Definition encode_block_body (b : BlockBody) : bytes :=
  encode_header (mkHeader true (length_vector (transactions b) + length_vector (ommers b)))
  ++ encode_vector (transactions b) ++ encode_vector (ommers b).

Definition decode_body_fields (from : bytes) : decoded (BlockBody * bytes) :=
  try (txns, from) := decode_vector from in
  try (oms, from) := decode_vector from in
  Ok (mkBlockBody txns oms, from).

Definition decode_block_body : bytes -> decoded (BlockBody * bytes) := decode_list decode_body_fields.

Definition decode_block_fields (from : bytes) : decoded (Block * bytes) :=
  try (h, from) := decode_block_header from in
  try (txns, from) := decode_vector from in
  try (oms, from) := decode_vector from in
  Ok (mkBlock (mkBlockBody txns oms) h, from).

Definition decode_block : bytes -> decoded (Block * bytes) := decode_list decode_block_fields.

(** * Lemmas: bloom filters *)

(** Bit [p] of a bloom filter (bit 0 is the least significant bit of the last byte). *)
Definition bloom_testbit (bloom : bytes) (p : Z) : bool :=
  match bloom !! (kBloomByteLength - 1 - Z.to_nat (p / 8))%nat with
  | Some b => Z.testbit b (p mod 8)
  | None => false
  end.

Definition wf_bloom (bloom : bytes) : Prop := wf_fixed kBloomByteLength bloom.

(** The items of a log that enter the filter. *)
Definition log_items (log : Log) : list bytes := log_address log :: map bytes32 (log_topics log).

Definition item_bits (x : bytes) : list Z := map (bloom_bit (keccak256 x)) [0%nat; 2%nat; 4%nat].

Lemma bloom_bit_range hash i : 0 <= bloom_bit hash i < 2048.
Proof. unfold bloom_bit. change 0x7FF with (Z.ones 11). rewrite Z.land_ones by lia. apply Z.mod_pos_bound. lia. Qed.

Lemma u8_lor_pow2 b k : byte_ok b -> 0 <= k < 8 -> u8 (Z.lor b (Z.shiftl 1 k)) = Z.lor b (2 ^ k).
Proof.
  unfold byte_ok. intros Hb Hk. rewrite Z.shiftl_1_l. apply u8_small.
  assert (0 <= Z.lor b (2 ^ k)) by (apply Z.lor_nonneg; lia).
  split; [done|]. destruct (Z.eq_dec (Z.lor b (2 ^ k)) 0) as [->|Hne]; [lia|].
  change 256 with (2 ^ 8). apply Z.log2_lt_pow2; [lia|]. rewrite Z.log2_lor by lia.
  rewrite Z.log2_pow2 by lia. apply Z.max_lub_lt; [|lia].
  destruct (Z.eq_dec b 0) as [->|]; [cbn; lia|]. apply Z.log2_lt_pow2; cbn; lia.
Qed.

Lemma set_bloom_bit_wf bl bit : wf_bloom bl -> wf_bloom (set_bloom_bit bl bit).
Proof.
  intros [Hok Hl]. unfold set_bloom_bit. split; [|by rewrite length_alter].
  apply Forall_alter; [done|]. intros b _ _. apply u8_range.
Qed.

Lemma set_bloom_bit_testbit bl bit p :
  wf_bloom bl -> 0 <= bit < 2048 -> 0 <= p < 2048 ->
  bloom_testbit (set_bloom_bit bl bit) p = bloom_testbit bl p || (p =? bit).
Proof.
  intros [Hok Hl] Hb Hp. unfold bloom_testbit, set_bloom_bit.
  assert (forall q, 0 <= q < 2048 -> 0 <= q / 8 < 256 /\ 0 <= q mod 8 < 8 /\ q = 8 * (q / 8) + q mod 8) as Hq.
  { intros q H. pose proof (Z.mod_pos_bound q 8 ltac:(lia)). pose proof (Z.div_mod q 8 ltac:(lia)). lia. }
  destruct (Hq _ Hb) as (B1 & B2 & B3), (Hq _ Hp) as (P1 & P2 & P3).
  assert (length bl = 256%nat) as Hl' by exact Hl.
  destruct (lookup_lt_is_Some_2 bl (kBloomByteLength - 1 - Z.to_nat (p / 8))%nat) as [b Eb];
    [rewrite Hl'; unfold kBloomByteLength; lia|].
  pose proof (Forall_lookup_1 _ _ _ _ Hok Eb) as Hbok.
  destruct (Z.eq_dec (p / 8) (bit / 8)) as [E|E].
  - rewrite <- E, list_lookup_alter_eq, Eb. cbn. rewrite u8_lor_pow2, Z.lor_spec by done.
    f_equal. destruct (Z.eqb_spec p bit) as [->|Hne]; [apply Z.pow2_bits_true; lia|].
    apply Z.pow2_bits_false. lia.
  - rewrite list_lookup_alter_ne by (unfold kBloomByteLength; lia). rewrite Eb.
    destruct (Z.eqb_spec p bit) as [->|]; [done|]. by rewrite orb_false_r.
Qed.

Lemma foldl_set_bits bits bl p :
  wf_bloom bl -> Forall (fun b => 0 <= b < 2048) bits -> 0 <= p < 2048 ->
  wf_bloom (foldl set_bloom_bit bl bits)
  /\ bloom_testbit (foldl set_bloom_bit bl bits) p = bloom_testbit bl p || existsb (Z.eqb p) bits.
Proof.
  intros Hbl Hbits Hp. revert bl Hbl. induction Hbits as [|b bits Hb Hbits IH]; intros bl Hbl; cbn.
  - by rewrite orb_false_r.
  - destruct (IH (set_bloom_bit bl b)) as [Hw Ht]; [by apply set_bloom_bit_wf|]. split; [done|].
    rewrite Ht, set_bloom_bit_testbit by done. by rewrite orb_assoc.
Qed.

Lemma m3_2048_fold bl x : m3_2048 bl x = foldl set_bloom_bit bl (item_bits x).
Proof. reflexivity. Qed.

Lemma log_bloom_fold bl l :
  foldl (fun bloom topic => m3_2048 bloom (bytes32 topic)) (m3_2048 bl (log_address l)) (log_topics l)
  = foldl set_bloom_bit bl (concat (map item_bits (log_items l))).
Proof.
  unfold log_items. cbn [map concat]. rewrite foldl_app, m3_2048_fold.
  generalize (foldl set_bloom_bit bl (item_bits (log_address l))).
  induction (log_topics l) as [|t ts IHt]; intros b; [done|].
  cbn [foldl map concat]. by rewrite foldl_app, IHt, m3_2048_fold.
Qed.

Lemma logs_bloom_fold_from bl ls :
  foldl (fun bloom log =>
    foldl (fun bloom topic => m3_2048 bloom (bytes32 topic)) (m3_2048 bloom (log_address log))
      (log_topics log)) bl ls
  = foldl set_bloom_bit bl (concat (map item_bits (concat (map log_items ls)))).
Proof.
  revert bl. induction ls as [|l ls IH]; intros bl; [done|].
  cbn [foldl]. rewrite IH, log_bloom_fold. change (map log_items (l :: ls)) with (log_items l :: map log_items ls).
  rewrite concat_cons, map_app, concat_app, foldl_app. done.
Qed.

Lemma logs_bloom_fold ls :
  logs_bloom ls = foldl set_bloom_bit empty_bloom (concat (map item_bits (concat (map log_items ls)))).
Proof. apply logs_bloom_fold_from. Qed.

Lemma item_bits_range xs : Forall (fun b => 0 <= b < 2048) (concat (map item_bits xs)).
Proof.
  induction xs as [|x xs IH]; [constructor|]. cbn [map concat]. apply Forall_app. split; [|done].
  repeat constructor; apply bloom_bit_range.
Qed.

Lemma empty_bloom_wf : wf_bloom empty_bloom.
Proof. split; [apply zero_bytes_ok|apply length_zero_bytes]. Qed.

Lemma empty_bloom_testbit p : bloom_testbit empty_bloom p = false.
Proof.
  unfold bloom_testbit, empty_bloom, zero_bytes.
  destruct (replicate _ 0 !! _) as [b|] eqn:E; [|done].
  apply lookup_replicate in E as [-> _]. apply Z.bits_0.
Qed.

Lemma logs_bloom_wf ls : wf_bloom (logs_bloom ls).
Proof.
  rewrite logs_bloom_fold. apply (foldl_set_bits _ _ 0); [apply empty_bloom_wf|apply item_bits_range|lia].
Qed.

Lemma logs_bloom_testbit ls p :
  0 <= p < 2048 ->
  bloom_testbit (logs_bloom ls) p = existsb (Z.eqb p) (concat (map item_bits (concat (map log_items ls)))).
Proof.
  intros Hp. rewrite logs_bloom_fold.
  destruct (foldl_set_bits (concat (map item_bits (concat (map log_items ls)))) empty_bloom p) as [_ ->];
    [apply empty_bloom_wf|apply item_bits_range|done|]. by rewrite empty_bloom_testbit.
Qed.

Lemma join_testbit a b p :
  wf_bloom a -> wf_bloom b -> bloom_testbit (join a b) p = bloom_testbit a p || bloom_testbit b p.
Proof.
  intros [_ Ha] [_ Hb]. unfold bloom_testbit, join. rewrite lookup_zip_with.
  set (i := (kBloomByteLength - 1 - _)%nat).
  destruct (a !! i) as [x|] eqn:Ex, (b !! i) as [y|] eqn:Ey; cbn; try done.
  - apply Z.lor_spec.
  - apply lookup_lt_Some in Ex. apply lookup_ge_None in Ey. lia.
  - apply lookup_lt_Some in Ey. apply lookup_ge_None in Ex. lia.
Qed.

Lemma lor_byte x y : byte_ok x -> byte_ok y -> byte_ok (Z.lor x y).
Proof.
  unfold byte_ok. intros Hx Hy. split; [apply Z.lor_nonneg; lia|].
  destruct (Z.eq_dec (Z.lor x y) 0) as [->|Hne]; [lia|].
  assert (0 <= Z.lor x y) by (apply Z.lor_nonneg; lia).
  change 256 with (2 ^ 8). apply Z.log2_lt_pow2; [lia|]. rewrite Z.log2_lor by lia.
  apply Z.max_lub_lt; match goal with |- Z.log2 ?b < _ => destruct (Z.eq_dec b 0) as [->|] end;
    try (cbn; lia); apply Z.log2_lt_pow2; cbn; lia.
Qed.

Lemma join_wf a b : wf_bloom a -> wf_bloom b -> wf_bloom (join a b).
Proof.
  intros [Ha La] [Hb Lb]. unfold join. split; [|rewrite length_zip_with, La, Lb; done].
  clear La Lb. revert b Hb. induction Ha as [|x a Hx Ha IH]; intros [|y b] Hb; cbn; try constructor.
  - apply lor_byte; [done|]. by apply Forall_cons in Hb as [? _].
  - apply IH. by apply Forall_cons in Hb as [_ ?].
Qed.

Lemma byte_high_bits x i : byte_ok x -> 8 <= i -> Z.testbit x i = false.
Proof.
  unfold byte_ok. intros Hx Hi. destruct (Z.eq_dec x 0) as [->|]; [apply Z.bits_0|].
  apply Z.bits_above_log2; [lia|]. assert (Z.log2 x < 8); [|lia]. apply Z.log2_lt_pow2; cbn; lia.
Qed.

Lemma bloom_ext a b :
  wf_bloom a -> wf_bloom b -> (forall p, 0 <= p < 2048 -> bloom_testbit a p = bloom_testbit b p) -> a = b.
Proof.
  intros [Ha La] [Hb Lb] H. apply list_eq_same_length with kBloomByteLength; [done|lia|].
  intros i x y Hi Hx Hy. unfold kBloomByteLength in Hi.
  pose proof (Forall_lookup_1 _ _ _ _ Ha Hx) as Bx. pose proof (Forall_lookup_1 _ _ _ _ Hb Hy) as By.
  apply Z.bits_inj'. intros j Hj.
  destruct (Z.lt_ge_cases j 8); [|by rewrite !byte_high_bits].
  set (k := Z.of_nat (255 - i)). specialize (H (8 * k + j) ltac:(lia)). unfold bloom_testbit in H.
  rewrite (Z.mul_comm 8 k), Z.div_add_l, (Z.div_small j), Z.add_0_r in H by lia.
  rewrite Z.add_comm, Z.mod_add, Z.mod_small in H by lia.
  replace (kBloomByteLength - 1 - Z.to_nat k)%nat with i in H by (unfold kBloomByteLength; lia).
  by rewrite Hx, Hy in H.
Qed.

Lemma logs_bloom_app a b : logs_bloom (a ++ b) = join (logs_bloom a) (logs_bloom b).
Proof.
  apply bloom_ext; [apply logs_bloom_wf|apply join_wf; apply logs_bloom_wf|]. intros p Hp.
  rewrite join_testbit by apply logs_bloom_wf. rewrite !logs_bloom_testbit by done.
  by rewrite map_app, concat_app, map_app, concat_app, existsb_app.
Qed.

(** * Lemmas: logs and receipts *)

Record wf_log (l : Log) : Prop := {
  wf_log_address : wf_fixed 20 (log_address l);
  wf_log_topics : wf_vector wf_bytes32 (log_topics l);
  wf_log_data : wf_bytes (log_data l)
}.

Definition log_payload (l : Log) : bytes :=
  encode_bytes (log_address l) ++ encode_vector (log_topics l) ++ encode_bytes (log_data l).

Lemma encode_bytes_fixed N s : (1 < N < 56)%nat -> length s = N -> encode_bytes s = encode_fixed N s.
Proof. intros. by rewrite encode_fixed_bytes. Qed.

Lemma log_payload_length l : wf_log l -> zlen (log_payload l) = h_payload_length (log_header l).
Proof.
  intros [[Ha La] Ht Hd]. unfold log_payload, log_header. cbn [h_payload_length].
  rewrite !zlen_app, (encode_bytes_fixed 20) by (done || lia).
  rewrite (length_encode_fixed 20), length_encode_vector by done.
  rewrite (proj1 (length_encode_bytes (log_data l) (proj2 Hd))). unfold kAddressLength. lia.
Qed.

Lemma encode_log_list l : wf_log l -> encode_log l = encode_list (log_payload l).
Proof. intros H. unfold encode_log, encode_list. by rewrite log_payload_length. Qed.

Lemma length_encode_log l :
  wf_log l -> zlen (log_payload l) < 2 ^ 63 -> zlen (encode_log l) = length_log l.
Proof.
  intros H Hl. rewrite encode_log_list, length_encode_list by done. unfold length_log.
  by rewrite log_payload_length.
Qed.

Definition receipt_payload (r : Receipt) : bytes :=
  encode_bool (success r) ++ encode_u64 (cumulative_gas_used r) ++ encode_bytes (bloom r)
  ++ encode_vector (logs r).

Record wf_receipt (r : Receipt) : Prop := {
  wf_cumulative : wf_u64 (cumulative_gas_used r);
  wf_receipt_bloom : wf_bloom (bloom r);
  wf_logs : Forall (fun l => wf_log l /\ zlen (log_payload l) < 2 ^ 63) (logs r);
  wf_receipt_fits : zlen (concat (map encode_log (logs r))) < 2 ^ 63
}.

Lemma length_encode_logs ls :
  Forall (fun l => wf_log l /\ zlen (log_payload l) < 2 ^ 63) ls ->
  zlen (concat (map encode_log ls)) < 2 ^ 63 -> zlen (encode_vector ls) = length_vector ls.
Proof.
  intros H Hl.
  assert (forall acc, 0 <= acc -> acc + zlen (concat (map encode_log ls)) < 2 ^ 63 ->
    foldl (fun acc x => u64 (acc + rlp_length x)) acc ls = acc + zlen (concat (map encode_log ls))) as E.
  { clear Hl. induction H as [|l ls [Hw Hf] H IH]; intros acc Ha Hl; [cbn; lia|].
    cbn [foldl map concat] in *. rewrite zlen_app in *. cbn [rlp_length Log_encode].
    rewrite <- length_encode_log by done. rewrite u64_small by lia. rewrite IH by lia. lia. }
  unfold encode_vector, length_vector, vector_payload_length. rewrite E by lia. rewrite Z.add_0_l.
  cbn [rlp_encode Log_encode].
  rewrite zlen_app, length_encode_header; cbn [h_payload_length]; [|unfold header_ok; cbn [h_payload_length]; lia].
  set (n := zlen _) in *. pose proof (length_of_length_range n ltac:(lia)). unwrap. lia.
Qed.

Lemma encode_receipt_list r :
  wf_receipt r ->
  encode_receipt r
  = match receipt_type r with Some t => [t] | None => [] end ++ encode_list (receipt_payload r).
Proof.
  intros []. unfold encode_receipt, encode_list. f_equal.
  assert (zlen (receipt_payload r) = h_payload_length (receipt_header r)) as ->.
  { unfold receipt_payload, receipt_header. cbn [h_payload_length]. rewrite !zlen_app.
    rewrite length_encode_logs by done.
    assert (zlen (bloom r) = 256) as Hb by (by rewrite (proj2 wf_receipt_bloom0)).
    rewrite (proj1 (length_encode_u64 _ wf_cumulative0)), (proj1 (length_encode_bytes (bloom r) ltac:(lia))).
    replace (zlen (encode_bool (success r))) with 1 by by destruct (success r). lia. }
  unfold receipt_header. by cbn [h_payload_length].
Qed.

(** * Lemmas: block headers *)

#[export] Instance bloom_field : FieldCodec encode_bytes (decode_fixed kBloomByteLength) wf_bloom.
Proof.
  split.
  - intros s rest [Hok Hl]. unfold encode_bytes, decode_fixed.
    assert (needs_header s = true) as -> by (destruct s as [|? [|? ?]]; done).
    rewrite Hl, <- app_assoc, decode_encode_header; cbn [h_payload_length].
    + cbn [result_bind h_list h_payload_length]. rewrite Z.eqb_refl. cbn [negb].
      by rewrite take_app_length', drop_app_length'.
    + unfold header_ok. cbn [h_payload_length]. by unfold kBloomByteLength.
    + rewrite zlen_app, Hl. lia.
    + done.
  - intros from s rest [Hok _] Hd. rewrite decode_fixed_bytes in Hd by done. inv_bind. case_in Hd; [done|].
    b2p. injection Hd as -> ->. apply decode_bytes_ok in E as (Hs & -> & _); [|done].
    split; [split; [done|lia]|done].
Qed.

Record wf_header_fields (h : BlockHeader) : Prop := {
  wf_parent : wf_fixed 32 (parent_hash h);
  wf_ommers : wf_fixed 32 (ommers_hash h);
  wf_benef : wf_fixed 20 (beneficiary h);
  wf_sroot : wf_fixed 32 (state_root h);
  wf_troot : wf_fixed 32 (transactions_root h);
  wf_rroot : wf_fixed 32 (receipts_root h);
  wf_hbloom : wf_bloom (header_bloom h);
  wf_diff : wf_u256 (difficulty h);
  wf_number : wf_u64 (number h);
  wf_glimit : wf_u64 (header_gas_limit h);
  wf_gused : wf_u64 (gas_used h);
  wf_time : wf_u64 (timestamp h);
  wf_extra : wf_bytes (extra_data h);
  wf_mix : wf_fixed 32 (mix_hash h);
  wf_hnonce : wf_fixed 8 (header_nonce h)
}.

Definition header_payload (h : BlockHeader) : bytes :=
  encode_fixed 32 (parent_hash h) ++ encode_fixed 32 (ommers_hash h)
  ++ encode_fixed 20 (beneficiary h) ++ encode_fixed 32 (state_root h)
  ++ encode_fixed 32 (transactions_root h) ++ encode_fixed 32 (receipts_root h)
  ++ encode_bytes (header_bloom h) ++ encode_u256 (difficulty h)
  ++ encode_u64 (number h) ++ encode_u64 (header_gas_limit h)
  ++ encode_u64 (gas_used h) ++ encode_u64 (timestamp h)
  ++ encode_bytes (extra_data h)
  ++ encode_fixed 32 (mix_hash h) ++ encode_fixed 8 (header_nonce h).

Lemma header_fields_codec : FieldCodec header_payload decode_header_fields wf_header_fields.
Proof.
  unfold header_payload, decode_header_fields. split.
  - intros h rest []. rewrite <- !app_assoc. field_steps. by destruct h.
  - intros from h rest Hi Hd. inv_bind. injection Hd as <- <-. canon_steps. subst.
    rewrite <- !app_assoc. split; [by split|done].
Qed.

Definition wf_block_header (h : BlockHeader) : Prop :=
  wf_header_fields h /\ zlen (header_payload h) < 2 ^ 63.

Lemma header_payload_length h :
  wf_header_fields h -> zlen (header_payload h) = h_payload_length (block_rlp_header h false).
Proof.
  intros []. unfold header_payload, block_rlp_header. cbn [h_payload_length negb]. rewrite !zlen_app.
  assert (forall N b, wf_fixed N b -> zlen (encode_fixed N b) = Z.of_nat N + 1) as Hf
    by (intros N b [_ Hb]; by apply length_encode_fixed).
  rewrite !(Hf 32%nat), (Hf 20%nat), (Hf 8%nat) by done.
  rewrite !(fun n H => proj1 (length_encode_u64 n H)), !(fun n H => proj1 (length_encode_u256 n H)) by done.
  rewrite (proj1 (length_encode_bytes (extra_data h) (proj2 wf_extra0))).
  assert (zlen (encode_bytes (header_bloom h)) = 259) as ->.
  { destruct wf_hbloom0 as [_ Hb]. unfold encode_bytes. rewrite zlen_app, Hb.
    assert (needs_header (header_bloom h) = true) as -> by (destruct (header_bloom h) as [|? [|? ?]]; done).
    done. }
  change (Z.of_nat kHashLength + 1) with 33. change (Z.of_nat kAddressLength + 1) with 21.
  change (Z.of_nat kBloomByteLength + length_of_length (Z.of_nat kBloomByteLength)) with 259. lia.
Qed.

Lemma encode_header_list h :
  wf_header_fields h -> encode_block_header h = encode_list (header_payload h).
Proof.
  intros H. unfold encode_block_header, encode_block_header_for, encode_list.
  rewrite header_payload_length by done. reflexivity.
Qed.

#[export] Instance block_header_field : FieldCodec encode_block_header decode_block_header wf_block_header.
Proof.
  pose proof (list_field _ _ _ header_fields_codec) as Hc. split.
  - intros h rest Hw. rewrite encode_header_list by apply Hw. by apply Hc.
  - intros from h rest Hi Hd. apply Hc in Hd as [Hw ->]; [|done]. split; [done|].
    by rewrite encode_header_list by apply Hw.
Qed.

Lemma length_encode_block_header h :
  wf_block_header h -> zlen (encode_block_header h) = length_block_header h.
Proof.
  intros [Hw Hl]. rewrite encode_header_list, length_encode_list by done.
  unfold length_block_header. by rewrite header_payload_length.
Qed.

#[export] Instance block_header_codec : RlpCodec BlockHeader wf_block_header.
Proof.
  split; cbn [rlp_encode rlp_length rlp_decode BlockHeader_encode BlockHeader_decode].
  - apply length_encode_block_header.
  - intros h _ Hn. apply app_eq_nil in Hn as [Hn _]. by apply encode_header_nonempty in Hn.
  - intros h rest Hw. by apply field_roundtrip.
Qed.

#[export] Instance block_header_canonical : RlpCanonical BlockHeader wf_block_header.
Proof. split. intros from h rest Hok Hl Hd. by apply (field_canonical (dec := decode_block_header)) in Hd. Qed.

(** * Lemmas: bodies and blocks *)

Definition wf_body (b : BlockBody) : Prop :=
  wf_vector wf_transaction (transactions b) /\ wf_vector wf_block_header (ommers b)
  /\ zlen (encode_vector (transactions b) ++ encode_vector (ommers b)) < 2 ^ 63.

Lemma encode_body_list b :
  wf_body b ->
  encode_block_body b = encode_list (encode_vector (transactions b) ++ encode_vector (ommers b)).
Proof.
  intros (Ht & Ho & _). unfold encode_block_body, encode_list.
  by rewrite zlen_app, !length_encode_vector.
Qed.

Lemma decode_list_step {A} (fields : bytes -> decoded (A * bytes)) payload x rest :
  zlen payload < 2 ^ 63 -> fields (payload ++ rest) = Ok (x, rest) ->
  decode_list fields (encode_list payload ++ rest) = Ok (x, rest).
Proof.
  intros Hl Hf. unfold decode_list, encode_list. rewrite <- app_assoc, decode_list_header by done.
  cbn [result_bind h_list h_payload_length negb]. rewrite Hf. cbn [result_bind]. rewrite zlen_app.
  replace (zlen payload + zlen rest - zlen payload) with (zlen rest) by lia. by rewrite Z.eqb_refl.
Qed.

Lemma decode_encode_body b rest :
  wf_body b -> decode_block_body (encode_block_body b ++ rest) = Ok (b, rest).
Proof.
  intros Hw. rewrite encode_body_list by done. destruct Hw as (Ht & Ho & Hl).
  apply decode_list_step; [done|]. unfold decode_body_fields. rewrite <- app_assoc.
  rewrite !decode_encode_vector by done. cbn [result_bind]. rewrite decode_encode_vector by done.
  by destruct b.
Qed.

Lemma empty_header_wf : wf_block_header empty_block_header.
Proof.
  split; [|vm_compute; reflexivity]. split; cbn; try (wf_dec; fail); try apply empty_bloom_wf; wf_dec.
Qed.

(** * Properties *)

(** The filter of a block's logs is exactly what its receipts' filters join to, and holds a bit
    for a log's address or topic and no other bit: bit [p] is set precisely when [p] is one of the three
    bits of the hash of an address or topic. So an item that was logged is never missed. *)
Theorem logs_bloom_correct (a b : list Log) (p : Z) :
  0 <= p < 2048 ->
  wf_bloom (logs_bloom a)
  /\ logs_bloom (a ++ b) = join (logs_bloom a) (logs_bloom b)
  /\ (bloom_testbit (logs_bloom a) p = true
      <-> exists log x i, In log a /\ In x (log_items log) /\ In i [0%nat; 2%nat; 4%nat]
          /\ p = bloom_bit (keccak256 x) i).
Proof.
  intros Hp. split; [apply logs_bloom_wf|]. split; [apply logs_bloom_app|].
  rewrite logs_bloom_testbit, existsb_exists by done. split.
  - intros (q & Hin & E). apply Z.eqb_eq in E. subst q.
    apply in_concat in Hin as (bits & Hbits & Hin). apply in_map_iff in Hbits as (x & <- & Hx).
    apply in_concat in Hx as (items & Hitems & Hx). apply in_map_iff in Hitems as (log & <- & Hlog).
    apply in_map_iff in Hin as (i & <- & Hi). by exists log, x, i.
  - intros (log & x & i & Hlog & Hx & Hi & ->). exists (bloom_bit (keccak256 x) i).
    split; [|apply Z.eqb_refl]. apply in_concat. exists (item_bits x). split.
    + apply in_map, in_concat. exists (log_items log). split; [by apply in_map|done].
    + by apply in_map.
Qed.

Lemma logs_bloom_correct_witness :
  logs_bloom ([mkLog (zero_bytes 20) [] []] ++ [mkLog (zero_bytes 20) [] []])
  = join (logs_bloom [mkLog (zero_bytes 20) [] []]) (logs_bloom [mkLog (zero_bytes 20) [] []]).
Proof.
  apply (logs_bloom_correct [mkLog (zero_bytes 20) [] []] [mkLog (zero_bytes 20) [] []] 0). lia.
Defined.

(** The lengths that logs and receipts announce are exact: a log is its three fields behind
    the header of a list of precisely their length, and a receipt is the same for its four fields,
    behind the EIP-2718 type byte when it has one. *)
Theorem receipt_encoding (r : Receipt) (l : Log) :
  wf_receipt r -> In l (logs r) ->
  encode_receipt r
    = match receipt_type r with Some t => [t] | None => [] end
      ++ encode_list (encode_bool (success r) ++ encode_u64 (cumulative_gas_used r)
                      ++ encode_bytes (bloom r) ++ encode_vector (logs r))
  /\ encode_log l
     = encode_list (encode_bytes (log_address l) ++ encode_vector (log_topics l) ++ encode_bytes (log_data l))
  /\ zlen (encode_log l) = length_log l.
Proof.
  intros Hr Hl. pose proof (wf_logs r Hr) as Hf. rewrite Forall_forall in Hf.
  apply list_elem_of_In in Hl. destruct (Hf l Hl) as [Hw Hfit].
  split; [by apply encode_receipt_list|]. split; [by apply encode_log_list|by apply length_encode_log].
Qed.

Lemma receipt_encoding_witness :
  let l := mkLog (zero_bytes 20) [mkBytes32 (zero_bytes 32)] [1; 2] in
  zlen (encode_log l) = length_log l.
Proof.
  intros l. apply (receipt_encoding (mkReceipt (Some 1) true 21000 empty_bloom [l]) l); [|by left].
  split; cbn.
  - wf_dec.
  - apply empty_bloom_wf.
  - repeat constructor; cbn; wf_dec.
  - wf_dec.
Defined.

(** C40: Block headers and bodies are decoded back from their encodings, whatever follows; a header
    has only one accepted encoding, and [length] announces it. *)
Theorem block_roundtrip (h : BlockHeader) (b : BlockBody) (from rest : bytes) :
  wf_block_header h -> wf_body b -> input_ok from ->
  decode_block_header (encode_block_header h ++ rest) = Ok (h, rest)
  /\ zlen (encode_block_header h) = length_block_header h
  /\ (decode_block_header from = Ok (h, rest) -> from = encode_block_header h ++ rest)
  /\ decode_block_body (encode_block_body b ++ rest) = Ok (b, rest).
Proof.
  intros Hh Hb Hi. split; [by apply field_roundtrip|]. split; [by apply length_encode_block_header|].
  split; [|by apply decode_encode_body].
  intros Hd. by apply (field_canonical (dec := decode_block_header)) in Hd as [_ ->].
Qed.

Lemma block_roundtrip_witness :
  decode_block_header (encode_block_header empty_block_header ++ [7]) = Ok (empty_block_header, [7]).
Proof.
  apply (block_roundtrip empty_block_header (mkBlockBody [] [empty_block_header]) [] [7]).
  - apply empty_header_wf.
  - split; [cbn; wf_dec|]. split; [|vm_compute; reflexivity].
    split; [repeat constructor; apply empty_header_wf|vm_compute; reflexivity].
  - split; [constructor|done].
Defined.

(** A whole block is its header followed by the two lists of its body in one list: [decode] of a
    block returns the three parts that were encoded. *)
Theorem block_decode (h : BlockHeader) (b : BlockBody) (rest : bytes) :
  wf_block_header h -> wf_body b ->
  zlen (encode_block_header h ++ encode_vector (transactions b) ++ encode_vector (ommers b)) < 2 ^ 63 ->
  decode_block (encode_list (encode_block_header h ++ encode_vector (transactions b)
                             ++ encode_vector (ommers b)) ++ rest) = Ok (mkBlock b h, rest).
Proof.
  intros Hh (Ht & Ho & _) Hl. apply decode_list_step; [done|]. unfold decode_block_fields.
  rewrite <- !app_assoc, field_roundtrip by done. cbn [result_bind].
  rewrite decode_encode_vector by done. cbn [result_bind]. rewrite decode_encode_vector by done.
  by destruct b.
Qed.

Lemma block_decode_witness :
  decode_block (encode_list (encode_block_header empty_block_header ++ [0xC0] ++ [0xC0]) ++ [9])
  = Ok (mkBlock (mkBlockBody [] []) empty_block_header, [9]).
Proof.
  apply (block_decode empty_block_header (mkBlockBody [] []) [9]).
  - apply empty_header_wf.
  - split; [|split]; cbn; wf_dec.
  - vm_compute. reflexivity.
Defined.
