(* ===== verification/HashBuilder.v ===== *)
(** * HashBuilder: core/silkworm/trie (hash_builder.hpp, hash_builder.cpp, vector_root.hpp)

    The streaming computation of the root of a Merkle Patricia trie from its entries in key order, and
    the root of a list of values keyed by their RLP-encoded indices.

    A failed [assert] and an access outside a container are [Undef]. The stack is kept with
    [stack_.back()] at its head. A node collector, when there is one, is an observer: the model keeps
    the list of its calls. *)

From S2P Require Import Prelude Util Keccak Rlp.
Local Open Scope Z_scope.
Local Open Scope silk_scope.

(** ** Nibbles and paths *)

Definition unpack_nibbles (packed : bytes) : bytes :=
  concat (map (fun b => [Z.shiftr b 4; Z.land b 0xF]) packed).

(** [res[i] = (path[2 * i - 1] << 4) + path[2 * i]] over what follows the first byte. *)
Fixpoint pack_nibbles (path : bytes) : bytes :=
  match path with
  | a :: b :: rest => u8 (Z.shiftl a 4 + b) :: pack_nibbles rest
  | _ => []
  end.

Definition encode_path (path : bytes) (terminating : bool) : bytes :=
  let odd := negb (length path mod 2 =? 0)%nat in
  let res0 := match terminating, odd with
              | false, false => 0x00
              | false, true => 0x10
              | true, false => 0x20
              | true, true => 0x30
              end in
  match odd, path with
  | true, p0 :: rest => u8 (Z.lor res0 p0) :: pack_nibbles rest
  | _, _ => res0 :: pack_nibbles path
  end.

Definition leaf_node_rlp (path value : bytes) : bytes :=
  let encoded_path := encode_path path true in
  encode_header (mkHeader true (length_bytes encoded_path + length_bytes value))
  ++ encode_bytes encoded_path ++ encode_bytes value.

Definition extension_node_rlp (path child_ref : bytes) : bytes :=
  let encoded_path := encode_path path false in
  encode_header (mkHeader true (length_bytes encoded_path + zlen child_ref))
  ++ encode_bytes encoded_path ++ child_ref.

Definition node_ref (rlp : bytes) : bytes :=
  if (length rlp <? kHashLength)%nat then rlp
  else u8 (kEmptyStringCode + Z.of_nat kHashLength) :: keccak256 rlp.

(** ** Nodes of the database trie *)

Record Node : Type := mkNode {
  state_mask : Z;
  tree_mask : Z;
  hash_mask : Z;
  hashes : list bytes;
  root_hash_ : option bytes
}.

(** [std::bitset<16>(mask).count()] *)
Definition popcount (mask : Z) : nat :=
  length (filter (fun d => Z.testbit mask (Z.of_nat d) = true) (seq 0 16)).

Definition subset_mask (sub sup : Z) : bool := Z.land sub sup =? sub.

(** The constructor, with its three assertions. *)
Definition make_node (n : Node) : result unit Node :=
  if subset_mask (tree_mask n) (state_mask n) && subset_mask (hash_mask n) (state_mask n)
     && (popcount (hash_mask n) =? length (hashes n))%nat
  then Ok n else Undef.

(** ** The builder *)

Record HashBuilder : Type := mkHB {
  hb_key : bytes;
  hb_value : bytes;
  groups : list Z;
  tree_masks : list Z;
  hash_masks : list Z;
  stack : list bytes;
  collecting : bool;
  collected : list (bytes * Node)
}.

(** [HashBuilder{}], with or without a [node_collector]. *)
Definition new_hash_builder (collecting : bool) : HashBuilder := mkHB [] [] [] [] [] [] collecting [].

(** [std::vector::resize] with zero fill. *)
Definition vresize (n : nat) (l : list Z) : list Z := take n l ++ replicate (n - length l) 0.

(** [v[i] |= bits] *)
Definition or_at (i : nat) (bits : Z) (l : list Z) : list Z := alter (fun m => u16 (Z.lor m bits)) i l.

Definition at_index (i : nat) (l : list Z) : Z := nth i l 0.

(** The sixteen children: the next item of the stack where [mask] has the digit's bit. *)
Fixpoint branch_slots (digits : list nat) (mask : Z) (items : list bytes) : list (nat * option bytes) :=
  match digits with
  | [] => []
  | d :: ds =>
      if Z.testbit mask (Z.of_nat d) then
        match items with
        | r :: items' => (d, Some r) :: branch_slots ds mask items'
        | [] => (d, Some []) :: branch_slots ds mask []
        end
      else (d, None) :: branch_slots ds mask items
  end.

Definition slot_length (s : nat * option bytes) : Z := match snd s with Some r => zlen r | None => 1 end.
Definition slot_rlp (s : nat * option bytes) : bytes :=
  match snd s with Some r => r | None => [kEmptyStringCode] end.

Definition branch_node_rlp (slots : list (nat * option bytes)) : bytes :=
  let payload_length := foldl (fun n s => n + slot_length s) 1 slots in
  encode_header (mkHeader true payload_length) ++ concat (map slot_rlp slots) ++ [kEmptyStringCode].

(** [branch_ref]: the child hashes and the new stack. *)
Definition branch_ref (st : list bytes) (state_mask hash_mask : Z) : result unit (list bytes * list bytes) :=
  if negb (subset_mask hash_mask state_mask) then Undef
  else if (length st <? popcount state_mask)%nat then Undef
  else
    let children := rev (take (popcount state_mask) st) in
    let slots := branch_slots (seq 0 16) state_mask children in
    let child_hashes :=
      concat (map (fun s => match snd s with
                            | Some r => if Z.testbit hash_mask (Z.of_nat (fst s)) then [r] else []
                            | None => []
                            end) slots) in
    Ok (child_hashes, node_ref (branch_node_rlp slots) :: drop (popcount state_mask) st).

(** [root_hash(/*auto_finalize=*/false)] *)
Definition stack_root_hash (st : list bytes) : bytes :=
  match st with
  | [] => kEmptyRoot
  | node_ref :: _ =>
      if (length node_ref =? kHashLength + 1)%nat then take kHashLength (drop 1 node_ref)
      else keccak256 node_ref
  end.

(** What is done for the node collector when a branch at depth [len] is closed. *)
Definition collect_branch (hb : HashBuilder) (curr : bytes) (len : nat) (child_hashes : list bytes)
  : result unit HashBuilder :=
  if negb (collecting hb) then Ok hb
  else
    let parent_bit := Z.shiftl 1 (nth (len - 1) curr 0) in
    let hash_masks' := if (0 <? len)%nat then or_at (len - 1) parent_bit (hash_masks hb) else hash_masks hb in
    let store_in_db_trie := negb (at_index len (tree_masks hb) =? 0) || negb (at_index len hash_masks' =? 0) in
    if negb store_in_db_trie then
      Ok (mkHB (hb_key hb) (hb_value hb) (groups hb) (tree_masks hb) hash_masks' (stack hb) (collecting hb)
            (collected hb))
    else
      let tree_masks' := if (0 <? len)%nat then or_at (len - 1) parent_bit (tree_masks hb) else tree_masks hb in
      if negb (forallb (fun h => length h =? kHashLength + 1)%nat child_hashes) then Undef
      else
        try n := make_node (mkNode (at_index len (groups hb)) (at_index len (tree_masks hb))
                   (at_index len hash_masks') (map (drop 1) child_hashes)
                   (if (len =? 0)%nat then Some (stack_root_hash (stack hb)) else None)) in
        Ok (mkHB (hb_key hb) (hb_value hb) (groups hb) tree_masks' hash_masks' (stack hb) (collecting hb)
              (collected hb ++ [(take len curr, n)])).

(** [while (!groups_.empty() && groups_.back() == 0) groups_.pop_back();] *)
Fixpoint pop_zeros_rev (l : list Z) : list Z :=
  match l with
  | g :: l' => if g =? 0 then pop_zeros_rev l' else l
  | [] => []
  end.
Definition pop_zeros (l : list Z) : list Z := rev (pop_zeros_rev (rev l)).

Definition with_stacks (hb : HashBuilder) (groups tree_masks hash_masks : list Z) (stack : list bytes)
  : HashBuilder :=
  mkHB (hb_key hb) (hb_value hb) groups tree_masks hash_masks stack (collecting hb) (collected hb).

(** [groups_.resize(len + 1)] when too short, then [groups_[len] |= 1u << extra_digit]. *)
Definition add_digit (len : nat) (extra_digit : Z) (groups : list Z) : list Z :=
  or_at len (Z.shiftl 1 extra_digit) (if (length groups <=? len)%nat then vresize (len + 1) groups else groups).

(** The leaf on the first iteration, afterwards the extension of the node on top, if there is one. *)
Definition push_node (build_extensions : bool) (short_node_key value : bytes) (st : list bytes)
  : result unit (list bytes) :=
  if negb build_extensions then Ok (node_ref (leaf_node_rlp short_node_key value) :: st)
  else if negb (length short_node_key =? 0)%nat then
    match st with
    | top :: st => Ok (node_ref (extension_node_rlp short_node_key top) :: st)
    | [] => Undef
    end
  else Ok st.

(** "Close the immediately encompassing prefix group": the branch node at depth [len]. *)
Definition close_branch (hb : HashBuilder) (curr : bytes) (len : nat) : result unit HashBuilder :=
  try (child_hashes, st) := branch_ref (stack hb) (at_index len (groups hb)) (at_index len (hash_masks hb)) in
  collect_branch (with_stacks hb (groups hb) (tree_masks hb) (hash_masks hb) st) curr len child_hashes.

(** The loop of [gen_struct_step]. Every iteration cuts [curr] to [prec_len], below its length, so the
    length of the key plus one is fuel enough. *)
Fixpoint gen_struct_loop (fuel : nat) (build_extensions : bool) (hb : HashBuilder)
    (curr succ value : bytes) : result unit HashBuilder :=
  match fuel with
  | O => Undef
  | S fuel' =>
      let prec_exists := negb (length (groups hb) =? 0)%nat in
      let prec_len := (length (groups hb) - 1)%nat in
      let succ_len := prefix_length succ curr in
      let len := Nat.max prec_len succ_len in
      if negb (len <? length curr)%nat then Undef
      else
        let groups' := add_digit len (nth len curr 0) (groups hb) in
        let succ_nonempty := negb (length succ =? 0)%nat in
        let remainder_start := if succ_nonempty || prec_exists then (len + 1)%nat else len in
        let grow := (length (tree_masks hb) <? length curr)%nat in
        let tree_masks' := if grow then vresize (length curr) (tree_masks hb) else tree_masks hb in
        let hash_masks' := if grow then vresize (length curr) (hash_masks hb) else hash_masks hb in
        try st := push_node build_extensions (drop remainder_start curr) value (stack hb) in
        let hb := with_stacks hb groups' tree_masks' hash_masks' st in
        if (prec_len <=? succ_len)%nat && succ_nonempty then Ok hb
        else
          try hb := if succ_nonempty || prec_exists then close_branch hb curr len else Ok hb in
          let hb := with_stacks hb (vresize len (groups hb)) (vresize len (tree_masks hb))
                      (vresize len (hash_masks hb)) (stack hb) in
          if (prec_len =? 0)%nat then Ok hb
          else
            gen_struct_loop fuel' true
              (with_stacks hb (pop_zeros (groups hb)) (tree_masks hb) (hash_masks hb) (stack hb))
              (take prec_len curr) succ value
  end.

Definition gen_struct_step (hb : HashBuilder) (curr succ value : bytes) : result unit HashBuilder :=
  gen_struct_loop (length curr + 1) false hb curr succ value.

Definition with_entry (hb : HashBuilder) (key value : bytes) : HashBuilder :=
  mkHB key value (groups hb) (tree_masks hb) (hash_masks hb) (stack hb) (collecting hb) (collected hb).

(** [HashBuilder::add] *)
Definition add (hb : HashBuilder) (packed value : bytes) : result unit HashBuilder :=
  let key := unpack_nibbles packed in
  if negb (bytes_ltb (hb_key hb) key) then Undef
  else
    try hb :=
      if negb (length (hb_key hb) =? 0)%nat then gen_struct_step hb (hb_key hb) key (hb_value hb)
      else Ok hb in
    Ok (with_entry hb key value).

Definition finalize (hb : HashBuilder) : result unit HashBuilder :=
  if negb (length (hb_key hb) =? 0)%nat then
    try hb := gen_struct_step hb (hb_key hb) [] (hb_value hb) in
    Ok (with_entry hb [] [])
  else Ok hb.

(** [HashBuilder::root_hash] *)
Definition root_hash (hb : HashBuilder) : result unit bytes :=
  try hb := finalize hb in Ok (stack_root_hash (stack hb)).

(** All entries in order, then the root. *)
Fixpoint add_all (hb : HashBuilder) (entries : list (bytes * bytes)) : result unit HashBuilder :=
  match entries with
  | [] => Ok hb
  | (k, v) :: es => try hb := add hb k v in add_all hb es
  end.

Definition root_of (entries : list (bytes * bytes)) : result unit bytes :=
  try hb := add_all (new_hash_builder false) entries in root_hash hb.

(** ** Roots of lists (vector_root.hpp) *)

Definition adjust_index_for_rlp (i len : Z) : Z :=
  if 0x7f <? i then i
  else if (i =? 0x7f) || (i + 1 =? len) then 0
  else i + 1.

(** The entries that [root_hash(v, value_encoder)] adds, in order. *)
Definition vector_entries {A} (v : list A) (value_encoder : A -> bytes) : list (bytes * bytes) :=
  omap (fun j =>
    let index := adjust_index_for_rlp (Z.of_nat j) (zlen v) in
    x ← v !! Z.to_nat index; Some (encode_u64 index, value_encoder x)) (seq 0 (length v)).

Definition vector_root_hash {A} (v : list A) (value_encoder : A -> bytes) : result unit bytes :=
  root_of (vector_entries v value_encoder).

(** ** Reference: the trie of the Yellow Paper, appendix D *)

(** Hex-prefix encoding: the nibbles behind one or two flag nibbles, two to a byte. *)
Fixpoint pair_up (l : bytes) : bytes :=
  match l with a :: b :: l' => (16 * a + b) :: pair_up l' | _ => [] end.

Definition hex_prefix (path : bytes) (t : bool) : bytes :=
  let f := if t then 2 else 0 in
  pair_up (if Nat.even (length path) then f :: 0 :: path else f + 1 :: path).

(** Inverse of [hex_prefix]. *)
Definition hex_prefix_decode (l : bytes) : option (bytes * bool) :=
  match unpack_nibbles l with
  | f :: p => if f =? 0 then Some (drop 1 p, false) else if f =? 1 then Some (p, false)
              else if f =? 2 then Some (drop 1 p, true) else if f =? 3 then Some (p, true) else None
  | [] => None
  end.

(** Entries of a trie: unpacked keys with their values. *)
Notation entry := (bytes * bytes)%type.

Definition entries_at (d : nat) (i : nat) (es : list entry) : list entry :=
  filter (fun e => fst e !! i = Some (Z.of_nat d)) es.

(** Length of the prefix common to all keys. *)
Definition common_prefix (es : list entry) : nat :=
  match es with
  | [] => 0
  | e :: es' => foldr (fun e' n => Nat.min n (prefix_length (fst e) (fst e'))) (length (fst e)) es'
  end.

(** The RLP of the node for the entries [es], all sharing their first [i] nibbles. *)
Fixpoint trie_rlp (fuel : nat) (i : nat) (es : list entry) : bytes :=
  match fuel, es with
  | S fuel', [(k, v)] => encode_list (encode_bytes (hex_prefix (drop i k) true) ++ encode_bytes v)
  | S fuel', (k, _) :: _ :: _ =>
      let j := common_prefix es in
      let child d := match entries_at d j es with
                     | [] => [kEmptyStringCode]
                     | es' => node_ref (trie_rlp fuel' (j + 1) es')
                     end in
      let branch := encode_list (concat (map child (seq 0 16)) ++ [kEmptyStringCode]) in
      if (i <? j)%nat
      then encode_list (encode_bytes (hex_prefix (take (j - i) (drop i k)) false) ++ node_ref branch)
      else branch
  | _, _ => []
  end.

Definition max_key (es : list entry) : nat := foldr (fun e n => Nat.max (length (fst e)) n) 0%nat es.

Definition trie_root (es : list entry) : bytes :=
  match es with
  | [] => kEmptyRoot
  | _ => keccak256 (trie_rlp (max_key es + 1) 0 es)
  end.
