(* ===== verification/TrieCorrect.v ===== *)
(** * TrieCorrect: the streaming trie builder computes the Merkle Patricia root

    Proofs about HashBuilder.v: hex-prefix paths, the nodes' encodings, and the simulation of the
    recursive reference trie by the builder's stack and group masks. *)

From Stdlib Require Import Sorted.
From S2P Require Import Prelude Util Keccak Rlp HashBuilder.
Local Open Scope Z_scope.
Local Open Scope silk_scope.

(** * Paths *)

Definition nibble_ok (x : Z) : Prop := 0 <= x < 16.
Notation nibbles_ok l := (Forall nibble_ok l).

Lemma list_ind2 {A} (P : list A -> Prop) :
  P [] -> (forall a, P [a]) -> (forall a b l, P l -> P (a :: b :: l)) -> forall l, P l.
Proof.
  intros H0 H1 H2 l. enough (P l /\ forall a, P (a :: l)) by tauto.
  induction l as [|x l [IH IHa]]; split; auto.
Qed.

Lemma unpack_nibbles_ok p : bytes_ok p -> nibbles_ok (unpack_nibbles p).
Proof.
  induction 1 as [|b p Hb Hp IH]; [constructor|]. unfold unpack_nibbles in *. cbn [map concat app].
  destruct (byte_nibbles b Hb) as (H1 & H2 & _).
  constructor; [done|]. by constructor.
Qed.

Lemma length_unpack p : length (unpack_nibbles p) = (2 * length p)%nat.
Proof. induction p as [|b p IH]; [done|]. unfold unpack_nibbles in *. cbn [map concat app length]. rewrite IH. lia. Qed.

Lemma byte_of_nibbles a b : nibble_ok a -> nibble_ok b -> u8 (Z.shiftl a 4 + b) = 16 * a + b.
Proof. unfold nibble_ok. intros Ha Hb. rewrite Z.shiftl_mul_pow2 by lia. change (2 ^ 4) with 16. rewrite u8_small; lia. Qed.

Lemma pack_pair_up l : nibbles_ok l -> pack_nibbles l = pair_up l.
Proof.
  induction l as [|a|a b l IH] using list_ind2; [done|done|]. intros H.
  apply Forall_cons in H as [Ha H]. apply Forall_cons in H as [Hb H].
  cbn [pack_nibbles pair_up]. by rewrite byte_of_nibbles, IH.
Qed.

Lemma pair_up_ok l : nibbles_ok l -> bytes_ok (pair_up l).
Proof.
  induction l as [|a|a b l IH] using list_ind2; [constructor|constructor|]. intros H.
  apply Forall_cons in H as [Ha H]. apply Forall_cons in H as [Hb H].
  cbn [pair_up]. constructor; [unfold byte_ok, nibble_ok in *; lia|auto].
Qed.

Lemma length_pair_up l : length (pair_up l) = (length l / 2)%nat.
Proof.
  induction l as [|a|a b l IH] using list_ind2; [done|done|]. cbn [pair_up length]. rewrite IH.
  replace (S (S (length l))) with (length l + 1 * 2)%nat by lia. rewrite Nat.div_add by lia. lia.
Qed.

Lemma even_mod2 n : negb (n mod 2 =? 0)%nat = negb (Nat.even n).
Proof.
  destruct (Nat.even n) eqn:E.
  - apply Nat.even_spec in E as [k ->]. rewrite Nat.mul_comm, Nat.Div0.mod_mul. done.
  - apply (f_equal negb) in E. rewrite Nat.negb_even in E. apply Nat.odd_spec in E as [k ->].
    rewrite Nat.mul_comm, Nat.add_comm, Nat.Div0.mod_add. done.
Qed.

Lemma encode_path_eq path t : nibbles_ok path -> encode_path path t = hex_prefix path t.
Proof.
  intros Hp. unfold encode_path, hex_prefix. rewrite even_mod2.
  destruct (Nat.even (length path)) eqn:E; cbn [negb].
  - assert (nibbles_ok ((if t then 2 else 0) :: 0 :: path)) as Hok
      by (repeat constructor; try done; unfold nibble_ok; destruct t; lia).
    rewrite <- pack_pair_up by done. cbn [pack_nibbles]. by destruct t.
  - destruct path as [|a path]; [done|]. cbn [pair_up].
    apply Forall_cons in Hp as [Ha Hp]. rewrite <- pack_pair_up by done.
    f_equal. unfold nibble_ok in Ha.
    assert (forall k, 0 <= k < 16 -> Z.land (16 * k) a = 0) as Hd.
    { intros k Hk. apply Z.bits_inj'. intros i Hi. rewrite Z.land_spec, Z.bits_0.
      replace (16 * k) with (Z.shiftl k 4) by (rewrite Z.shiftl_mul_pow2; lia).
      destruct (Z.lt_ge_cases i 4); [by rewrite Z.shiftl_spec_low|].
      replace a with (a mod 2 ^ 4) by (apply Z.mod_small; cbn; lia).
      rewrite Z.mod_pow2_bits_high by lia. apply andb_false_r. }
    pose proof (Z.add_lor_land 48 a) as E3. pose proof (Z.add_lor_land 16 a) as E1.
    pose proof (Hd 3 ltac:(lia)) as D3. pose proof (Hd 1 ltac:(lia)) as D1.
    change (16 * 3) with 48 in D3. change (16 * 1) with 16 in D1.
    destruct t; rewrite u8_small; lia.
Qed.

Lemma length_hex_prefix p t : length (hex_prefix p t) = (length p / 2 + 1)%nat.
Proof.
  unfold hex_prefix. rewrite length_pair_up. destruct (Nat.even (length p)) eqn:E; cbn [length].
  - replace (S (S (length p))) with (length p + 1 * 2)%nat by lia. by rewrite Nat.div_add by lia.
  - apply (f_equal negb) in E. rewrite Nat.negb_even in E. apply Nat.odd_spec in E as [k ->].
    replace (S (2 * k + 1)) with ((k + 1) * 2)%nat by lia. rewrite Nat.div_mul by lia.
    rewrite Nat.mul_comm, Nat.div_add_l by lia. change (1 / 2)%nat with 0%nat. lia.
Qed.

Lemma hex_prefix_nibbles p t : nibbles_ok p -> bytes_ok (hex_prefix p t).
Proof.
  intros Hp. unfold hex_prefix. apply pair_up_ok.
  destruct (Nat.even _); repeat constructor; try done; unfold nibble_ok; destruct t; lia.
Qed.

Lemma unpack_pair_up l : nibbles_ok l -> Nat.even (length l) = true -> unpack_nibbles (pair_up l) = l.
Proof.
  induction l as [|a|a b l IH] using list_ind2; [done|done|]. intros H He.
  apply Forall_cons in H as [Ha H]. apply Forall_cons in H as [Hb H].
  cbn [pair_up]. change (unpack_nibbles (16 * a + b :: pair_up l))
    with (Z.shiftr (16 * a + b) 4 :: Z.land (16 * a + b) 15 :: unpack_nibbles (pair_up l)).
  rewrite IH by done. unfold nibble_ok in *. f_equal; [|f_equal].
  - rewrite Z.shiftr_div_pow2 by lia. change (2 ^ 4) with 16.
    rewrite Z.mul_comm, Z.div_add_l, Z.div_small by lia. lia.
  - change 15 with (Z.ones 4). rewrite Z.land_ones by lia. change (2 ^ 4) with 16.
    rewrite Z.add_comm, Z.mul_comm, Z.mod_add by lia. apply Z.mod_small. lia.
Qed.

Lemma hex_prefix_roundtrip p t : nibbles_ok p -> hex_prefix_decode (hex_prefix p t) = Some (p, t).
Proof.
  intros Hp. unfold hex_prefix_decode, hex_prefix.
  destruct (Nat.even (length p)) eqn:E; rewrite unpack_pair_up.
  - by destruct t.
  - repeat constructor; try done; unfold nibble_ok; destruct t; lia.
  - done.
  - by destruct t.
  - constructor; [|done]. unfold nibble_ok; destruct t; lia.
  - cbn [length]. rewrite Nat.even_succ, <- Nat.negb_even, E. done.
Qed.

(** * Encodings of nodes *)

(** A key and a value that fit in memory with room to spare for a node's encoding. *)
Definition entry_ok (e : entry) : Prop :=
  nibbles_ok (fst e) /\ zlen (fst e) < 2 ^ 61 /\ bytes_ok (snd e) /\ zlen (snd e) < 2 ^ 61.

Lemma zlen_hex_prefix p t : zlen (hex_prefix p t) <= zlen p + 1.
Proof.
  rewrite length_hex_prefix. pose proof (Nat.Div0.div_le_mono (length p) (length p) 2).
  pose proof (Nat.div_le_upper_bound (length p) 2 (length p) ltac:(lia) ltac:(lia)). lia.
Qed.

Lemma leaf_node_eq path value :
  nibbles_ok path -> zlen path < 2 ^ 61 -> zlen value < 2 ^ 61 ->
  leaf_node_rlp path value = encode_list (encode_bytes (hex_prefix path true) ++ encode_bytes value).
Proof.
  intros Hp Hl Hv. unfold leaf_node_rlp, encode_list. rewrite encode_path_eq by done.
  pose proof (zlen_hex_prefix path true).
  rewrite zlen_app, (proj1 (length_encode_bytes (hex_prefix path true) ltac:(lia))),
    (proj1 (length_encode_bytes value ltac:(lia))). done.
Qed.

Lemma extension_node_eq path ref :
  nibbles_ok path -> zlen path < 2 ^ 61 ->
  extension_node_rlp path ref = encode_list (encode_bytes (hex_prefix path false) ++ ref).
Proof.
  intros Hp Hl. unfold extension_node_rlp, encode_list. rewrite encode_path_eq by done.
  pose proof (zlen_hex_prefix path false).
  rewrite zlen_app, (proj1 (length_encode_bytes (hex_prefix path false) ltac:(lia))). done.
Qed.

Lemma length_node_ref rlp : (length (node_ref rlp) <= 33)%nat.
Proof.
  unfold node_ref. destruct (Nat.ltb_spec (length rlp) kHashLength); unfold kHashLength in *; [lia|].
  cbn [length]. rewrite length_keccak256. lia.
Qed.

Lemma branch_node_eq slots :
  branch_node_rlp slots = encode_list (concat (map slot_rlp slots) ++ [kEmptyStringCode]).
Proof.
  unfold branch_node_rlp, encode_list.
  assert (forall n, foldl (fun n s => n + slot_length s) n slots = n + zlen (concat (map slot_rlp slots))) as E.
  { induction slots as [|[d o] slots IH]; intros n; [cbn; lia|]. cbn [foldl map concat]. rewrite IH, zlen_app.
    destruct o; unfold slot_length, slot_rlp; cbn [snd length]; lia. }
  rewrite E, zlen_app. change (zlen [kEmptyStringCode]) with 1. do 3 f_equal. lia.
Qed.

(** * Masks and slots *)

Definition mask_add (m : Z) (d : nat) : Z := u16 (Z.lor m (Z.shiftl 1 (Z.of_nat d))).
Definition mask_of (ds : list nat) : Z := foldl mask_add 0 ds.

Lemma lor_u16 m d : 0 <= m < 2 ^ 16 -> (d < 16)%nat ->
  mask_add m d = Z.lor m (2 ^ Z.of_nat d) /\ 0 <= mask_add m d < 2 ^ 16.
Proof.
  intros Hm Hd. unfold mask_add. rewrite Z.shiftl_1_l.
  assert (0 <= Z.lor m (2 ^ Z.of_nat d) < 2 ^ 16) as Hr.
  { assert (0 <= Z.lor m (2 ^ Z.of_nat d)) by (apply Z.lor_nonneg; lia). split; [done|].
    destruct (Z.eq_dec (Z.lor m (2 ^ Z.of_nat d)) 0) as [->|]; [lia|].
    apply Z.log2_lt_pow2; [lia|]. rewrite Z.log2_lor, Z.log2_pow2 by lia. apply Z.max_lub_lt; [|lia].
    destruct (Z.eq_dec m 0) as [->|]; [cbn; lia|]. apply Z.log2_lt_pow2; lia. }
  assert (u16 (Z.lor m (2 ^ Z.of_nat d)) = Z.lor m (2 ^ Z.of_nat d)) as -> by by apply wrap_small.
  done.
Qed.

Lemma mask_of_spec ds i :
  Forall (fun d => d < 16)%nat ds ->
  0 <= mask_of ds < 2 ^ 16 /\ Z.testbit (mask_of ds) (Z.of_nat i) = bool_decide (i ∈ ds).
Proof.
  intros H. unfold mask_of. induction ds as [|d ds IH] using rev_ind.
  - split; [cbn; lia|]. by rewrite Z.bits_0.
  - apply Forall_app in H as [H Hd]. apply Forall_cons in Hd as [Hd _]. destruct (IH H) as [Hr Ht].
    rewrite foldl_app. cbn [foldl]. destruct (lor_u16 _ _ Hr Hd) as [E Hr']. split; [done|].
    rewrite E, Z.lor_spec, Ht. destruct (decide (i = d)) as [->|Hne].
    + rewrite Z.pow2_bits_true by lia. rewrite orb_true_r. symmetry. apply bool_decide_eq_true.
      set_solver.
    + rewrite Z.pow2_bits_false by lia. rewrite orb_false_r. apply bool_decide_ext. set_solver.
Qed.

Lemma mask_of_snoc ds d : mask_of (ds ++ [d]) = mask_add (mask_of ds) d.
Proof. unfold mask_of. by rewrite foldl_app. Qed.

Lemma mask_of_nonzero ds : Forall (fun d => d < 16)%nat ds -> ds <> [] -> mask_of ds <> 0.
Proof.
  intros H Hne E. destruct ds as [|d ds]; [done|].
  destruct (mask_of_spec (d :: ds) d H) as [_ Ht]. rewrite E, Z.bits_0 in Ht.
  symmetry in Ht. apply bool_decide_eq_false in Ht. set_solver.
Qed.

(** Association of a digit in a list of children. *)
Fixpoint assoc {A} (d : nat) (cs : list (nat * A)) : option A :=
  match cs with
  | [] => None
  | (d', a) :: cs' => if (d =? d')%nat then Some a else assoc d cs'
  end.

Notation sorted_digits cs := (StronglySorted lt (map fst cs)).

Lemma branch_slots_assoc mask (cs : list (nat * bytes)) n a :
  sorted_digits cs -> Forall (fun c => a <= fst c < a + n)%nat cs ->
  (forall d, (a <= d < a + n)%nat -> Z.testbit mask (Z.of_nat d) = bool_decide (d ∈ map fst cs)) ->
  branch_slots (seq a n) mask (map snd cs) = map (fun d => (d, assoc d cs)) (seq a n)
  /\ length (filter (fun d => Z.testbit mask (Z.of_nat d) = true) (seq a n)) = length cs.
Proof.
  revert a cs. induction n as [|n IH]; intros a cs Hs Hr Hm.
  - destruct cs as [|c cs]; [done|]. apply Forall_cons in Hr as [Hr _]. lia.
  - cbn [seq branch_slots map]. rewrite (Hm a) by lia. rewrite filter_cons, (Hm a) by lia.
    destruct (decide (a ∈ map fst cs)) as [Hin|Hout].
    + rewrite bool_decide_eq_true_2 by done. rewrite decide_True by done.
      destruct cs as [|[d r] cs]; [set_solver|]. cbn [map fst snd] in *.
      apply StronglySorted_inv in Hs as [Hs Hlt]. apply Forall_cons in Hr as [Hd Hr]. cbn [fst] in Hd.
      assert (d = a) as ->.
      { apply list_elem_of_In in Hin. destruct Hin as [->|Hin]; [done|].
        rewrite Forall_forall in Hlt. apply list_elem_of_In in Hin. specialize (Hlt a Hin). lia. }
      destruct (IH (S a) cs Hs) as [E1 E2].
      * apply Forall_forall. intros c Hc. pose proof (proj1 (Forall_forall _ _) Hr c Hc) as Hc'.
        cbn beta in Hc'. assert (a < fst c)%nat; [|lia]. apply (proj1 (Forall_forall _ _) Hlt).
        apply list_elem_of_In, in_map, list_elem_of_In, Hc.
      * intros d Hd'. rewrite (Hm d) by lia. apply bool_decide_ext.
        rewrite elem_of_cons. split; [|by right]. intros [->|]; [lia|done].
      * cbn [length]. rewrite E2. split; [|done].
        cbn [assoc]. rewrite Nat.eqb_refl. f_equal. rewrite E1.
        apply map_ext_in. intros d Hd'. apply in_seq in Hd'. f_equal. cbn [assoc].
        destruct (Nat.eqb_spec d a); [lia|done].
    + rewrite bool_decide_eq_false_2 by done. rewrite decide_False by done.
      destruct (IH (S a) cs Hs) as [E1 E2].
      * apply Forall_forall. intros c Hc. pose proof (proj1 (Forall_forall _ _) Hr c Hc) as Hc'.
        cbn beta in Hc'. assert (fst c <> a); [|lia]. intros <-. apply Hout.
        apply list_elem_of_In, in_map, list_elem_of_In, Hc.
      * intros d Hd'. apply Hm. lia.
      * split; [|done]. f_equal; [|done].
        f_equal. clear -Hout. induction cs as [|[d r] cs IH]; [done|]. cbn [assoc].
        destruct (Nat.eqb_spec a d) as [->|]; [set_solver|]. apply IH. set_solver.
Qed.

Lemma popcount_mask cs :
  sorted_digits cs -> Forall (fun c => fst c < 16)%nat cs ->
  popcount (mask_of (map (@fst nat bytes) cs)) = length cs
  /\ branch_slots (seq 0 16) (mask_of (map fst cs)) (map snd cs)
     = map (fun d => (d, assoc d cs)) (seq 0 16).
Proof.
  intros Hs Hr. assert (Forall (fun d => d < 16)%nat (map fst cs)) as Hr' by by apply Forall_map.
  destruct (branch_slots_assoc (mask_of (map fst cs)) cs 16 0 Hs) as [E1 E2].
  - eapply Forall_impl; [exact Hr|]. cbn. lia.
  - intros d _. by apply mask_of_spec.
  - done.
Qed.

(** * The reference trie *)

Lemma prefix_length_ge a b n :
  (n <= prefix_length a b)%nat <-> (n <= length a)%nat /\ (n <= length b)%nat /\ take n a = take n b.
Proof.
  split; [|intros (? & ? & ?); by apply prefix_length_max]. intros H.
  pose proof (prefix_length_le a b). split; [lia|]. split; [lia|].
  pose proof (prefix_length_take a b) as E. apply (f_equal (take n)) in E.
  by rewrite !take_take, Nat.min_l in E by lia.
Qed.

Lemma common_prefix_ge e es n :
  (n <= common_prefix (e :: es))%nat
  <-> (n <= length (fst e))%nat /\ Forall (fun e' => n <= prefix_length (fst e) (fst e'))%nat es.
Proof.
  cbn [common_prefix]. induction es as [|e' es IH]; cbn [foldr].
  - split; [by split|tauto].
  - rewrite Forall_cons, Nat.min_glb_iff, IH. tauto.
Qed.

(** All keys start with [p]. *)
Definition under (p : bytes) (es : list entry) : Prop :=
  Forall (fun e => take (length p) (fst e) = p) es.

Lemma under_length p es e : under p es -> e ∈ es -> (length p <= length (fst e))%nat.
Proof.
  intros H He. unfold under in H. rewrite Forall_forall in H. specialize (H e He).
  apply (f_equal length) in H. rewrite length_take in H. lia.
Qed.

Lemma under_common_prefix p e es : under p (e :: es) -> (length p <= common_prefix (e :: es))%nat.
Proof.
  intros H. apply common_prefix_ge. split; [apply (under_length p (e :: es)); [done|set_solver]|].
  apply Forall_forall. intros e' He'. apply prefix_length_ge.
  split; [apply (under_length p (e :: es)); [done|set_solver]|].
  split; [apply (under_length p (e :: es)); [done|set_solver]|].
  unfold under in H. rewrite Forall_forall in H. rewrite !H by set_solver. done.
Qed.

Lemma common_prefix_under e es :
  under (take (common_prefix (e :: es)) (fst e)) (e :: es).
Proof.
  destruct (proj1 (common_prefix_ge e es (common_prefix (e :: es))) (Nat.le_refl _)) as [Hl Hp].
  unfold under. rewrite length_take, Nat.min_l by done. constructor; [done|].
  eapply Forall_impl; [exact Hp|]. intros e' He'. cbn beta in He'. apply prefix_length_ge in He' as (_ & _ & E).
  by rewrite E.
Qed.

(** Two keys that differ right after [p] bound the common prefix. *)
Lemma common_prefix_branch p es e1 e2 :
  under p es -> e1 ∈ es -> e2 ∈ es -> fst e1 !! length p <> fst e2 !! length p ->
  common_prefix es = length p.
Proof.
  intros Hu H1 H2 Hd. destruct es as [|e es]; [set_solver|].
  apply Nat.le_antisymm; [|by apply under_common_prefix].
  destruct (decide (common_prefix (e :: es) <= length p)%nat) as [|Hgt]; [done|exfalso].
  pose proof (common_prefix_under e es) as Hc. unfold under in Hc.
  destruct (proj1 (common_prefix_ge e es (common_prefix (e :: es))) (Nat.le_refl _)) as [Hl _].
  rewrite length_take, Nat.min_l in Hc by done. rewrite Forall_forall in Hc.
  apply Hd. pose proof (Hc e1 H1) as E1. pose proof (Hc e2 H2) as E2. rewrite <- E2 in E1.
  apply (f_equal (fun l => l !! length p)) in E1. by rewrite !lookup_take_lt in E1 by lia.
Qed.

Lemma max_key_ge es e : e ∈ es -> (length (fst e) <= max_key es)%nat.
Proof.
  induction es as [|e' es IH]; [set_solver|]. intros H. cbn [max_key foldr].
  apply elem_of_cons in H as [->|H]; [lia|]. specialize (IH H). unfold max_key in IH. lia.
Qed.

Lemma max_key_le es n : (forall e, e ∈ es -> (length (fst e) <= n)%nat) -> (max_key es <= n)%nat.
Proof.
  induction es as [|e es IH]; intros H; cbn [max_key foldr]; [lia|].
  apply Nat.max_lub; [apply H; set_solver|]. apply IH. intros e' He'. apply H. set_solver.
Qed.

Lemma entries_at_elem d i es e : e ∈ entries_at d i es <-> fst e !! i = Some (Z.of_nat d) /\ e ∈ es.
Proof. unfold entries_at. by rewrite list_elem_of_filter. Qed.

Lemma entries_at_under d es e' es' :
  es <> [] -> entries_at d (common_prefix es) es = e' :: es' ->
  (common_prefix es + 1 <= common_prefix (e' :: es'))%nat.
Proof.
  intros Hne E. destruct es as [|e es]; [done|].
  set (j := common_prefix (e :: es)) in *. pose proof (common_prefix_under e es) as Hu. fold j in Hu.
  destruct (proj1 (common_prefix_ge e es j) (Nat.le_refl _)) as [Hl _].
  assert (forall x, x ∈ e' :: es' -> take (j + 1) (fst x) = take j (fst e) ++ [Z.of_nat d]) as Hx.
  { intros x Hx. rewrite <- E in Hx. apply entries_at_elem in Hx as [Hd Hx].
    unfold under in Hu. rewrite length_take, Nat.min_l, Forall_forall in Hu by done.
    rewrite Nat.add_1_r, (take_S_r _ _ _ Hd). by rewrite (Hu x Hx). }
  assert (length (take j (fst e) ++ [Z.of_nat d]) = j + 1)%nat as Hlen
    by (rewrite length_app, length_take; cbn [length]; lia).
  rewrite <- Hlen. apply under_common_prefix. unfold under. rewrite Hlen. apply Forall_forall. exact Hx.
Qed.

Lemma trie_rlp_fuel f g i es :
  (i <= common_prefix es)%nat -> (max_key es + 1 - i <= f)%nat -> (max_key es + 1 - i <= g)%nat ->
  trie_rlp f i es = trie_rlp g i es.
Proof.
  revert g i es. induction f as [|f IH]; intros g i es Hi Hf Hg.
  - destruct es as [|e es]; [by destruct g|].
    pose proof (max_key_ge (e :: es) e ltac:(set_solver)). apply common_prefix_ge in Hi as [Hi _]. lia.
  - destruct g as [|g].
    + destruct es as [|e es]; [done|].
      pose proof (max_key_ge (e :: es) e ltac:(set_solver)). apply common_prefix_ge in Hi as [Hi _]. lia.
    + destruct es as [|[k v] [|e es]]; [done|done|].
      cbn [trie_rlp]. set (es0 := (k, v) :: e :: es) in *. set (j := common_prefix es0) in *.
      assert (forall d, match entries_at d j es0 with [] => [kEmptyStringCode]
                        | es' => node_ref (trie_rlp f (j + 1) es') end
                      = match entries_at d j es0 with [] => [kEmptyStringCode]
                        | es' => node_ref (trie_rlp g (j + 1) es') end) as Hc.
      { intros d. destruct (entries_at d j es0) as [|e' es'] eqn:E; [done|]. f_equal.
        assert (max_key (e' :: es') <= max_key es0)%nat.
        { apply max_key_le. intros x Hx. apply max_key_ge. rewrite <- E in Hx.
          by apply entries_at_elem in Hx as [_ Hx]. }
        apply IH; [by apply entries_at_under with d|lia|lia]. }
      assert (map (fun d => match entries_at d j es0 with [] => [kEmptyStringCode]
                        | es' => node_ref (trie_rlp f (j + 1) es') end) (seq 0 16)
              = map (fun d => match entries_at d j es0 with [] => [kEmptyStringCode]
                        | es' => node_ref (trie_rlp g (j + 1) es') end) (seq 0 16)) as ->
        by (apply map_ext; exact Hc).
      reflexivity.
Qed.

(** The reference with fuel enough. *)
Definition T (i : nat) (es : list entry) : bytes := trie_rlp (max_key es + 1) i es.

Lemma T_leaf i k v : T i [(k, v)] = encode_list (encode_bytes (hex_prefix (drop i k) true) ++ encode_bytes v).
Proof. unfold T. by rewrite Nat.add_1_r. Qed.

Lemma T_branch es :
  (2 <= length es)%nat ->
  T (common_prefix es) es
  = encode_list (concat (map (fun d => match entries_at d (common_prefix es) es with
                                       | [] => [kEmptyStringCode]
                                       | es' => node_ref (T (common_prefix es + 1) es')
                                       end) (seq 0 16)) ++ [kEmptyStringCode]).
Proof.
  intros Hl. unfold T at 1. rewrite Nat.add_1_r. destruct es as [|[k v] [|e es]]; [cbn in Hl; lia|cbn in Hl; lia|].
  cbn [trie_rlp]. set (es0 := (k, v) :: e :: es) in *. set (j := common_prefix es0) in *.
  rewrite Nat.ltb_irrefl. do 3 f_equal. apply map_ext. intros d.
  destruct (entries_at d j es0) as [|e' es'] eqn:E; [done|]. f_equal. unfold T.
  assert (max_key (e' :: es') <= max_key es0)%nat.
  { apply max_key_le. intros x Hx. apply max_key_ge. rewrite <- E in Hx.
    by apply entries_at_elem in Hx as [_ Hx]. }
  apply trie_rlp_fuel; [by apply entries_at_under with d|lia|lia].
Qed.

Lemma T_extension i p es :
  (2 <= length es)%nat -> under p es -> common_prefix es = length p -> (i < length p)%nat ->
  T i es = encode_list (encode_bytes (hex_prefix (drop i p) false) ++ node_ref (T (length p) es)).
Proof.
  intros Hl Hu Hc Hi. unfold T. rewrite Nat.add_1_r. destruct es as [|[k v] [|e es]]; [cbn in Hl; lia|cbn in Hl; lia|].
  cbn [trie_rlp]. rewrite Hc. destruct (Nat.ltb_spec i (length p)); [|lia]. rewrite Nat.ltb_irrefl.
  do 3 f_equal. f_equal. unfold under in Hu. apply Forall_cons in Hu as [Hk _]. cbn [fst] in Hk.
  rewrite <- Hk at 2. by rewrite skipn_firstn_comm.
Qed.

(** * Frames: the open branches of the builder *)

Notation child := (nat * list entry)%type.
Notation frame := (nat * list child)%type.

Definition child_ref (depth : nat) (c : child) : bytes := node_ref (T (depth + 1) (snd c)).

(** The group masks, the stack (back first) and the entries of the open branches, deepest first. *)
Fixpoint groups_of (fs : list frame) : list Z :=
  match fs with
  | [] => []
  | (d, cs) :: fs' => vresize d (groups_of fs') ++ [mask_of (map fst cs)]
  end.

Definition stack_of (fs : list frame) : list bytes :=
  concat (map (fun f => rev (map (child_ref (fst f)) (snd f))) fs).

Definition child_entries (cs : list child) : list entry := concat (map snd cs).

Fixpoint entries_of (fs : list frame) : list entry :=
  match fs with
  | [] => []
  | (_, cs) :: fs' => entries_of fs' ++ child_entries cs
  end.

(** A child of the branch at [depth] on the path [cur]. *)
Definition child_ok (cur : bytes) (depth : nat) (c : child) : Prop :=
  (fst c < 16)%nat /\ snd c <> []
  /\ Forall (fun e => entry_ok e /\ take depth (fst e) = take depth cur
                      /\ fst e !! depth = Some (Z.of_nat (fst c))) (snd c).

Definition frame_ok (cur : bytes) (f : frame) : Prop :=
  snd f <> [] /\ sorted_digits (snd f) /\ Forall (child_ok cur (fst f)) (snd f)
  /\ exists x, cur !! fst f = Some (Z.of_nat x) /\ Forall (fun c => fst c < x)%nat (snd f).

Definition frames_ok (cur : bytes) (fs : list frame) : Prop :=
  StronglySorted (fun f g => fst g < fst f)%nat fs /\ Forall (frame_ok cur) fs.

Definition top_depth (fs : list frame) : nat := match fs with [] => 0 | f :: _ => fst f end.

Lemma length_vresize n l : length (vresize n l) = n.
Proof. unfold vresize. rewrite length_app, length_take, length_replicate. lia. Qed.

Lemma vresize_0 l : vresize 0 l = [].
Proof. unfold vresize. by rewrite take_0. Qed.

Lemma length_groups_of fs : length (groups_of fs) = match fs with [] => 0 | f :: _ => fst f + 1 end%nat.
Proof. destruct fs as [|[d cs] fs]; [done|]. cbn [groups_of fst]. rewrite length_app, length_vresize. done. Qed.

Lemma prec_len_top fs : (length (groups_of fs) - 1 = top_depth fs)%nat.
Proof. rewrite length_groups_of. destruct fs; cbn; lia. Qed.

Lemma or_at_last n l m d :
  length l = n -> or_at n (Z.shiftl 1 (Z.of_nat d)) (l ++ [m]) = l ++ [mask_add m d].
Proof.
  intros <-. unfold or_at. rewrite <- (Nat.add_0_r (length l)) at 1. by rewrite alter_app_r.
Qed.

Lemma at_index_last l m : at_index (length l) (l ++ [m]) = m.
Proof. unfold at_index. rewrite app_nth2 by lia. by rewrite Nat.sub_diag. Qed.

Lemma pop_zeros_replicate l n : pop_zeros (l ++ replicate n 0) = pop_zeros l.
Proof.
  unfold pop_zeros. f_equal. rewrite rev_app_distr.
  assert (rev (replicate n 0) = replicate n 0) as -> by (rewrite rev_alt; exact (reverse_replicate n 0)).
  by induction n as [|n IH].
Qed.

Lemma pop_zeros_last l m : m <> 0 -> pop_zeros (l ++ [m]) = l ++ [m].
Proof.
  intros Hm. unfold pop_zeros. rewrite rev_app_distr. cbn [rev app pop_zeros_rev].
  destruct (Z.eqb_spec m 0); [done|]. by rewrite <- (rev_involutive (l ++ [m])), rev_app_distr.
Qed.

Lemma frame_mask_nonzero cur f : frame_ok cur f -> mask_of (map fst (snd f)) <> 0.
Proof.
  intros (Hne & _ & Hc & _). apply mask_of_nonzero.
  - apply Forall_map. eapply Forall_impl; [exact Hc|]. by intros c [? _].
  - by destruct (snd f).
Qed.

(** Closing a branch leaves the masks of the branches above it. *)
Lemma pop_zeros_groups cur fs n :
  frames_ok cur fs -> (length (groups_of fs) <= n)%nat -> pop_zeros (vresize n (groups_of fs)) = groups_of fs.
Proof.
  intros [_ Hf] Hn. unfold vresize. rewrite take_ge, pop_zeros_replicate by done.
  destruct fs as [|[d cs] fs]; [done|]. cbn [groups_of]. apply pop_zeros_last.
  apply Forall_cons in Hf as [Hf _]. by apply frame_mask_nonzero in Hf.
Qed.

(** ** Pushing a reference *)

(** What the loop holds for the path [curr]: the entries below it, and the top of the stack. *)
Definition item_ok (ext : bool) (curr value : bytes) (es : list entry) : Prop :=
  Forall entry_ok es /\ under curr es /\ es <> []
  /\ (if ext then (2 <= length es)%nat /\ common_prefix es = length curr else es = [(curr, value)]).

Definition push_top (ext : bool) (curr : bytes) (es : list entry) (st : list bytes) : list bytes :=
  if ext then node_ref (T (length curr) es) :: st else st.

Lemma under_nibbles p es : Forall entry_ok es -> under p es -> es <> [] -> nibbles_ok p /\ zlen p < 2 ^ 61.
Proof.
  intros He Hu Hne. destruct es as [|e es]; [done|]. apply Forall_cons in He as [(Hn & Hl & _) _].
  apply Forall_cons in Hu as [Hu _]. rewrite <- Hu. split; [by apply Forall_take|]. rewrite length_take. lia.
Qed.

Lemma push_node_ok ext curr value es st rs :
  item_ok ext curr value es -> (rs <= length curr)%nat ->
  push_node ext (drop rs curr) value (push_top ext curr es st) = Ok (node_ref (T rs es) :: st).
Proof.
  intros (He & Hu & Hne & Hi) Hrs. destruct (under_nibbles _ _ He Hu Hne) as [Hn Hl].
  assert (nibbles_ok (drop rs curr) /\ zlen (drop rs curr) < 2 ^ 61) as [Hn' Hl'].
  { split; [by apply Forall_drop|]. rewrite length_drop. lia. }
  unfold push_node, push_top. destruct ext; cbn [negb].
  - destruct Hi as [H2 Hc]. destruct (Nat.eqb_spec (length (drop rs curr)) 0) as [E|E]; cbn [negb].
    + rewrite length_drop in E. by replace rs with (length curr) by lia.
    + rewrite length_drop in E. rewrite extension_node_eq by done.
      rewrite (T_extension rs curr) by (done || lia). done.
  - subst es. apply Forall_cons in He as [(_ & _ & _ & Hv) _]. cbn [snd] in Hv.
    by rewrite leaf_node_eq, T_leaf.
Qed.

(** ** Closing a branch *)

Lemma entries_at_children cur depth cs d :
  Forall (child_ok cur depth) cs -> sorted_digits cs ->
  entries_at d depth (child_entries cs) = match assoc d cs with Some es => es | None => [] end.
Proof.
  intros Hc Hs. induction cs as [|[x es] cs IH]; [done|].
  apply Forall_cons in Hc as [(_ & _ & Hx) Hc]. cbn [map fst snd] in *.
  apply StronglySorted_inv in Hs as [Hs Hlt]. specialize (IH Hc Hs).
  unfold child_entries, entries_at in *. cbn [map concat snd assoc]. rewrite filter_app, IH.
  destruct (Nat.eqb_spec d x) as [->|Hne].
  - assert (assoc x cs = None) as ->.
    { clear -Hlt. induction cs as [|[y es] cs IH]; [done|]. cbn [map fst] in Hlt.
      apply Forall_cons in Hlt as [H1 H2]. cbn [assoc]. destruct (Nat.eqb_spec x y); [lia|auto]. }
    rewrite app_nil_r. clear -Hx. induction Hx as [|e es (_ & _ & He) Hx IH]; [done|].
    rewrite filter_cons, decide_True by done. by rewrite IH.
  - assert (filter (fun e : entry => fst e !! depth = Some (Z.of_nat d)) es = []) as ->; [|done].
    clear -Hx Hne. induction Hx as [|e es (_ & _ & He) Hx IH]; [done|].
    rewrite filter_cons, decide_False; [done|]. rewrite He. intros [= E]. lia.
Qed.

Lemma child_entries_under cur depth cs :
  (depth <= length cur)%nat -> Forall (child_ok cur depth) cs ->
  Forall entry_ok (child_entries cs) /\ under (take depth cur) (child_entries cs).
Proof.
  intros Hd Hc. unfold child_entries, under. rewrite length_take, Nat.min_l by done.
  induction Hc as [|c cs (_ & _ & Hx) Hc [IH1 IH2]]; [by split|]. cbn [map concat].
  split; apply Forall_app; split; try done; (eapply Forall_impl; [exact Hx|]); intros e (H1 & H2 & _); done.
Qed.

Lemma child_entries_length cur depth cs :
  Forall (child_ok cur depth) cs -> (length cs <= length (child_entries cs))%nat.
Proof.
  induction 1 as [|c cs (_ & Hne & _) Hc IH]; [done|]. unfold child_entries in *. cbn [map concat length].
  rewrite length_app. destruct (snd c); [done|]. cbn [length]. lia.
Qed.

Lemma child_entries_elem cs e : e ∈ child_entries cs <-> exists c, c ∈ cs /\ e ∈ snd c.
Proof.
  unfold child_entries. rewrite list_elem_of_In, in_concat. split.
  - intros (l & Hl & He). apply in_map_iff in Hl as (c & <- & Hc). exists c. by rewrite !list_elem_of_In.
  - intros (c & Hc & He). exists (snd c). rewrite !list_elem_of_In in *. split; [by apply in_map|done].
Qed.

(** A branch with at least two children ends the prefix common to its entries. *)
Lemma children_common_prefix cur depth cs :
  (depth <= length cur)%nat -> Forall (child_ok cur depth) cs -> sorted_digits cs -> (2 <= length cs)%nat ->
  common_prefix (child_entries cs) = depth.
Proof.
  intros Hd Hc Hs Hl. destruct (child_entries_under _ _ _ Hd Hc) as [_ Hu].
  destruct cs as [|c1 [|c2 cs]]; [cbn in Hl; lia|cbn in Hl; lia|].
  apply Forall_cons in Hc as [(_ & Hn1 & Hc1) Hc]. apply Forall_cons in Hc as [(_ & Hn2 & Hc2) _].
  destruct (snd c1) as [|e1 es1] eqn:E1; [done|]. destruct (snd c2) as [|e2 es2] eqn:E2; [done|].
  apply Forall_cons in Hc1 as [(_ & _ & L1) _]. apply Forall_cons in Hc2 as [(_ & _ & L2) _].
  cbn [map] in Hs. apply StronglySorted_inv in Hs as [_ Hlt]. apply Forall_cons in Hlt as [Hlt _].
  pose proof (common_prefix_branch (take depth cur) (child_entries (c1 :: c2 :: cs)) e1 e2 Hu) as Hp.
  rewrite length_take, Nat.min_l in Hp by done. apply Hp.
  - apply child_entries_elem. exists c1. rewrite E1. set_solver.
  - apply child_entries_elem. exists c2. rewrite E2. set_solver.
  - rewrite L1, L2. intros [= E]. lia.
Qed.

Lemma assoc_map {A B} (f : A -> B) d (cs : list (nat * A)) :
  assoc d (map (fun c => (fst c, f (snd c))) cs) = f <$> assoc d cs.
Proof. induction cs as [|[x a] cs IH]; [done|]. cbn [map assoc fst snd]. by case_match. Qed.

(** The branch node that [branch_ref] assembles is the reference's. *)
Lemma branch_of_children cur depth cs :
  (depth <= length cur)%nat -> Forall (child_ok cur depth) cs -> sorted_digits cs -> (2 <= length cs)%nat ->
  popcount (mask_of (map fst cs)) = length cs
  /\ branch_node_rlp (branch_slots (seq 0 16) (mask_of (map fst cs)) (map (child_ref depth) cs))
     = T depth (child_entries cs).
Proof.
  intros Hd Hc Hs Hl. pose proof (children_common_prefix _ _ _ Hd Hc Hs Hl) as Hcp.
  set (cs' := map (fun c => (fst c, node_ref (T (depth + 1) (snd c)))) cs).
  assert (map fst cs' = map fst cs) as Ef by (subst cs'; rewrite map_map; by apply map_ext).
  assert (map snd cs' = map (child_ref depth) cs) as Es by (subst cs'; rewrite map_map; by apply map_ext).
  destruct (popcount_mask cs') as [Ep Eb].
  - by rewrite Ef.
  - subst cs'. apply Forall_map. eapply Forall_impl; [exact Hc|]. by intros c [? _].
  - rewrite Ef in Ep, Eb. rewrite Es in Eb. split; [rewrite Ep; subst cs'; apply length_map|].
    rewrite Eb, branch_node_eq. rewrite <- Hcp at 1. rewrite T_branch
      by (pose proof (child_entries_length _ _ _ Hc); lia).
    rewrite Hcp. do 3 f_equal. rewrite map_map. apply map_ext. intros d.
    rewrite (entries_at_children cur) by done. unfold slot_rlp. cbn [snd]. subst cs'.
    rewrite (assoc_map (fun es => node_ref (T (depth + 1) es))).
    destruct (assoc d cs) as [es|] eqn:Ea; cbn; [|done].
    destruct es; [|done]. exfalso. clear -Hc Ea. induction Hc as [|[x es] cs (_ & Hne & _) Hc IH]; [done|].
    cbn [assoc] in Ea. case_match; [by simplify_eq|auto].
Qed.

(** ** Adding a child to the open branches *)

Definition push_child (len : nat) (c : child) (fs : list frame) : list frame :=
  match fs with
  | (d, cs) :: fs' => if (d =? len)%nat then (d, cs ++ [c]) :: fs' else (len, [c]) :: fs
  | [] => [(len, [c])]
  end.

Lemma vresize_snoc n l : (length l <= n)%nat -> vresize (n + 1) l = vresize n l ++ [0].
Proof.
  intros H. unfold vresize. rewrite !take_ge by lia.
  replace (n + 1 - length l)%nat with (n - length l + 1)%nat by lia.
  by rewrite replicate_add, app_assoc.
Qed.

Lemma add_digit_groups len d es fs :
  (top_depth fs <= len)%nat ->
  add_digit len (Z.of_nat d) (groups_of fs) = groups_of (push_child len (d, es) fs).
Proof.
  intros Ht. unfold add_digit, push_child. rewrite length_groups_of. destruct fs as [|[d' cs] fs].
  - destruct (Nat.leb_spec 0 len); [|lia]. rewrite vresize_snoc by (cbn; lia).
    by rewrite or_at_last by apply length_vresize.
  - cbn [top_depth fst] in *. destruct (Nat.eqb_spec d' len) as [->|Hne].
    + destruct (Nat.leb_spec (len + 1) len); [lia|]. cbn [groups_of].
      rewrite or_at_last by apply length_vresize. rewrite map_app. cbn [map fst]. by rewrite mask_of_snoc.
    + destruct (Nat.leb_spec (d' + 1) len); [|lia].
      rewrite vresize_snoc by (rewrite length_groups_of; cbn [fst]; lia).
      by rewrite or_at_last by apply length_vresize.
Qed.

Lemma stack_push len d es fs :
  stack_of (push_child len (d, es) fs) = node_ref (T (len + 1) es) :: stack_of fs.
Proof.
  unfold push_child, stack_of. destruct fs as [|[d' cs] fs]; [done|].
  destruct (Nat.eqb_spec d' len) as [->|Hne]; [|done].
  cbn [map concat fst snd]. by rewrite map_app, rev_app_distr.
Qed.

Lemma entries_push len d es fs : entries_of (push_child len (d, es) fs) = entries_of fs ++ es.
Proof.
  unfold push_child. destruct fs as [|[d' cs] fs]; cbn [entries_of].
  - unfold child_entries. cbn. by rewrite app_nil_r.
  - destruct (d' =? len)%nat; cbn [entries_of]; unfold child_entries; [|cbn; by rewrite app_nil_r].
    rewrite map_app, concat_app. cbn. by rewrite app_nil_r, app_assoc.
Qed.

(** Frames depend on the path only up to their depth. *)
Lemma child_ok_path cur cur' depth c : take depth cur = take depth cur' -> child_ok cur depth c -> child_ok cur' depth c.
Proof. intros E. unfold child_ok. by rewrite E. Qed.

Lemma frames_ok_path cur cur' fs n :
  take n cur = take n cur' -> Forall (fun f => fst f < n)%nat fs -> frames_ok cur fs -> frames_ok cur' fs.
Proof.
  intros E Hd [Hs Hf]. split; [done|]. rewrite Forall_forall in *. intros f Hin.
  specialize (Hd f Hin). specialize (Hf f Hin). cbn beta in Hd. destruct Hf as (H1 & H2 & H3 & x & H4 & H5).
  assert (take (fst f) cur = take (fst f) cur') as E'.
  { apply (f_equal (take (fst f))) in E. by rewrite !take_take, Nat.min_l in E by lia. }
  split; [done|]. split; [done|]. split.
  - eapply Forall_impl; [exact H3|]. intros c. by apply child_ok_path.
  - exists x. split; [|done]. rewrite <- H4. apply (f_equal (fun l => l !! fst f)) in E.
    by rewrite !lookup_take_lt in E by lia.
Qed.

Lemma frames_depth cur f fs : frames_ok cur (f :: fs) -> Forall (fun g => fst g < fst f)%nat fs.
Proof. intros [Hs _]. by apply StronglySorted_inv in Hs as [_ Hs]. Qed.

Lemma item_child ext curr value es len x :
  item_ok ext curr value es -> curr !! len = Some (Z.of_nat x) -> (x < 16)%nat -> child_ok curr len (x, es).
Proof.
  intros (He & Hu & Hne & _) Hx H16. split; [done|]. split; [done|]. cbn [fst snd].
  apply Forall_forall. intros e Hin. unfold under in Hu. rewrite Forall_forall in Hu, He.
  split; [by apply He|]. pose proof (Hu e Hin) as E. assert (len < length curr)%nat by by apply lookup_lt_Some in Hx.
  split.
  - apply (f_equal (take len)) in E. rewrite take_take, Nat.min_l in E by lia. done.
  - apply (f_equal (fun l => l !! len)) in E. rewrite lookup_take_lt in E by lia. by rewrite E.
Qed.

Lemma sorted_snoc (cs : list child) x es :
  sorted_digits cs -> Forall (fun c => fst c < x)%nat cs -> sorted_digits (cs ++ [(x, es)]).
Proof.
  induction cs as [|c cs IH]; intros Hs Hx; cbn [map app]; [repeat constructor|].
  apply StronglySorted_inv in Hs as [Hs Hlt]. apply Forall_cons in Hx as [Hc Hx].
  constructor; [by apply IH|]. rewrite map_app. apply Forall_app. split; [done|]. by constructor.
Qed.

(** The children of the top branch together with the item, when the branch is closed. *)
Lemma close_children ext curr value es depth cs x fs :
  frames_ok curr ((depth, cs) :: fs) -> item_ok ext curr value es -> curr !! depth = Some (Z.of_nat x) ->
  (x < 16)%nat ->
  Forall (child_ok curr depth) (cs ++ [(x, es)]) /\ sorted_digits (cs ++ [(x, es)])
  /\ (2 <= length (cs ++ [(x, es)]))%nat.
Proof.
  intros [_ Hf] Hi Hx H16. apply Forall_cons in Hf as [(Hne & Hs & Hc & y & Hy & Hlt) _].
  cbn [fst snd] in *. rewrite Hx in Hy. injection Hy as Hy. apply Nat2Z.inj in Hy as <-. split; [|split].
  - apply Forall_app. split; [done|]. constructor; [|constructor]. by eapply item_child.
  - by apply sorted_snoc.
  - rewrite length_app. destruct cs; [done|]. cbn [length]. lia.
Qed.

(** When the step returns, the open branches are those of the next key. *)
Lemma push_child_frames ext curr value es fs succ x y len :
  frames_ok curr fs -> item_ok ext curr value es -> (top_depth fs <= len)%nat ->
  take len curr = take len succ ->
  curr !! len = Some (Z.of_nat x) -> succ !! len = Some (Z.of_nat y) -> (x < y < 16)%nat ->
  frames_ok succ (push_child len (x, es) fs).
Proof.
  intros Hf Hi Ht Htake Hx Hy Hxy.
  pose proof (item_child _ _ _ _ _ _ Hi Hx ltac:(lia)) as Hc.
  assert (forall fs', frames_ok curr fs' -> Forall (fun f => fst f < len)%nat fs' ->
    frames_ok succ ((len, [(x, es)]) :: fs')) as Hnew.
  { intros fs' Hf' Hd. destruct (frames_ok_path _ succ _ len Htake Hd Hf') as [Hs' Hf'']. split.
    - by constructor.
    - constructor; [|done]. split; [done|]. split; [repeat constructor|]. cbn [fst snd]. split.
      + constructor; [|constructor]. by eapply child_ok_path.
      + exists y. split; [done|]. constructor; [cbn [fst]; lia|constructor]. }
  unfold push_child. destruct fs as [|[d cs] fs]; [by apply Hnew|]. cbn [top_depth fst] in Ht.
  destruct (Nat.eqb_spec d len) as [->|Hne].
  - pose proof (frames_depth _ _ _ Hf) as Hd. cbn [fst] in Hd.
    destruct (close_children _ _ _ _ _ _ _ _ Hf Hi Hx ltac:(lia)) as (Hcs & Hsort & _).
    destruct Hf as [Hs Hf]. apply StronglySorted_inv in Hs as [Hs _]. apply Forall_cons in Hf as [Hf1 Hf].
    destruct (frames_ok_path _ succ _ len Htake Hd (conj Hs Hf)) as [Hs' Hf'']. split; [by constructor|].
    constructor; [|done]. split; [by destruct cs|]. cbn [fst snd]. split; [done|]. split.
    + eapply Forall_impl; [exact Hcs|]. intros c. by apply child_ok_path.
    + exists y. split; [done|]. destruct Hf1 as (_ & _ & _ & z & Hz & Hlt). cbn [fst snd] in *.
      rewrite Hx in Hz. injection Hz as Hz. apply Nat2Z.inj in Hz as <-. apply Forall_app. split.
      * eapply Forall_impl; [exact Hlt|]. cbn beta. lia.
      * constructor; [cbn [fst]; lia|constructor].
  - apply Hnew; [done|]. pose proof (frames_depth _ _ _ Hf) as Hd. cbn [fst] in Hd.
    constructor; [cbn [fst]; lia|]. eapply Forall_impl; [exact Hd|]. cbn beta. lia.
Qed.

Lemma branch_ref_ok curr depth cs st :
  (depth <= length curr)%nat -> Forall (child_ok curr depth) cs -> sorted_digits cs -> (2 <= length cs)%nat ->
  exists child_hashes,
    branch_ref (rev (map (child_ref depth) cs) ++ st) (mask_of (map fst cs)) 0
    = Ok (child_hashes, node_ref (T depth (child_entries cs)) :: st).
Proof.
  intros Hd Hc Hs Hl. destruct (branch_of_children _ _ _ Hd Hc Hs Hl) as [Hp Hb].
  assert (length (rev (map (child_ref depth) cs)) = length cs) as Hlen by by rewrite length_rev, length_map.
  unfold branch_ref. change (subset_mask 0 _) with true. cbn [negb]. rewrite Hp.
  destruct (Nat.ltb_spec (length (rev (map (child_ref depth) cs) ++ st)) (length cs)) as [Hlt|_];
    [rewrite length_app in Hlt; lia|].
  rewrite take_app_length', drop_app_length', rev_involutive, Hb by done. eauto.
Qed.

(** The masks of the branches above the one closed. *)
Lemma groups_pop curr depth cs fs :
  frames_ok curr ((depth, cs) :: fs) ->
  (forall cs', vresize depth (groups_of ((depth, cs') :: fs)) = vresize depth (groups_of fs))
  /\ pop_zeros (vresize depth (groups_of fs)) = groups_of fs.
Proof.
  intros Hf. assert (length (groups_of fs) <= depth)%nat as Hl.
  { rewrite length_groups_of. pose proof (frames_depth _ _ _ Hf) as Hd. destruct fs; [lia|].
    apply Forall_cons in Hd as [Hd _]. cbn [fst] in *. lia. }
  split.
  - intros cs'. cbn [groups_of]. unfold vresize at 1. rewrite take_app_length' by (symmetry; apply length_vresize).
    rewrite length_app, length_vresize. replace (depth - (depth + length [mask_of (map fst cs')]))%nat with 0%nat by lia.
    cbn [replicate]. apply app_nil_r.
  - destruct Hf as [Hs Hf]. apply StronglySorted_inv in Hs as [Hs _]. apply Forall_cons in Hf as [_ Hf].
    by apply (pop_zeros_groups curr fs).
Qed.

(** ** The loop *)

Definition zero_masks (l : list Z) : Prop := Forall (fun m => m = 0) l.

Lemma zero_masks_resize n l : zero_masks l -> zero_masks (vresize n l).
Proof. intros H. apply Forall_app. split; [by apply Forall_take|by apply Forall_replicate]. Qed.

Lemma zero_masks_at i l : zero_masks l -> at_index i l = 0.
Proof.
  intros H. unfold at_index. destruct (Nat.lt_ge_cases i (length l)) as [Hl|Hl]; [|by apply nth_overflow].
  unfold zero_masks in H. rewrite Forall_forall in H. apply H, list_elem_of_In, nth_In, Hl.
Qed.

(** The next key branches off [curr] with a larger nibble. *)
Definition next_ok (curr succ : bytes) : Prop :=
  succ = [] \/ exists x y, curr !! prefix_length succ curr = Some (Z.of_nat x)
    /\ succ !! prefix_length succ curr = Some (Z.of_nat y) /\ (x < y < 16)%nat.

(** What a step leaves behind. *)
Definition step_post (succ : bytes) (es : list entry) (hb : HashBuilder) : Prop :=
  collecting hb = false /\ zero_masks (hash_masks hb)
  /\ (succ = [] -> stack hb = [node_ref (T 0 es)])
  /\ (succ <> [] -> exists fs, frames_ok succ fs /\ groups hb = groups_of fs
                    /\ stack hb = stack_of fs /\ entries_of fs = es).

Lemma close_branch_ok hb curr depth cs st fs :
  collecting hb = false -> zero_masks (hash_masks hb) -> groups hb = groups_of ((depth, cs) :: fs) ->
  stack hb = rev (map (child_ref depth) cs) ++ st -> (depth <= length curr)%nat ->
  Forall (child_ok curr depth) cs -> sorted_digits cs -> (2 <= length cs)%nat ->
  close_branch hb curr depth
  = Ok (with_stacks hb (groups hb) (tree_masks hb) (hash_masks hb) (node_ref (T depth (child_entries cs)) :: st)).
Proof.
  intros Hco Hz Hg Hst Hd Hc Hs Hl. unfold close_branch. rewrite Hst, (zero_masks_at _ _ Hz), Hg.
  assert (at_index depth (groups_of ((depth, cs) :: fs)) = mask_of (map fst cs)) as ->.
  { cbn [groups_of]. rewrite <- (length_vresize depth (groups_of fs)) at 1. apply at_index_last. }
  destruct (branch_ref_ok curr depth cs st Hd Hc Hs Hl) as [ch E]. rewrite E. cbn [result_bind].
  unfold collect_branch, with_stacks. cbn [collecting]. by rewrite Hco.
Qed.

Lemma frames_nil_iff fs : (length (groups_of fs) =? 0)%nat = match fs with [] => true | _ => false end.
Proof. rewrite length_groups_of. destruct fs; [done|]. apply Nat.eqb_neq. lia. Qed.

Lemma next_prefix curr succ n :
  next_ok curr succ -> succ <> [] -> (prefix_length succ curr < n)%nat ->
  prefix_length succ (take n curr) = prefix_length succ curr /\ next_ok (take n curr) succ.
Proof.
  intros [->|(x & y & Hx & Hy & Hxy)] Hne Hn; [done|].
  assert (prefix_length succ (take n curr) = prefix_length succ curr) as E.
  { apply Nat.le_antisymm.
    - apply prefix_length_ge. destruct (proj1 (prefix_length_ge succ (take n curr) _) (Nat.le_refl _)) as (H1 & H2 & H3).
      rewrite length_take in H2. split; [done|]. split; [lia|]. rewrite H3, take_take. f_equal. lia.
    - apply prefix_length_ge. destruct (proj1 (prefix_length_ge succ curr _) (Nat.le_refl _)) as (H1 & H2 & H3).
      split; [done|]. split; [rewrite length_take; lia|]. by rewrite take_take, Nat.min_l by lia. }
  split; [done|]. right. exists x, y. rewrite E, lookup_take_lt by done. done.
Qed.

(** The digit that the loop adds: the nibble of [curr] at [len]. *)
Lemma extra_digit_ok ext curr value es fs succ :
  frames_ok curr fs -> item_ok ext curr value es -> next_ok curr succ -> (0 < length curr)%nat ->
  exists x, curr !! Nat.max (top_depth fs) (prefix_length succ curr) = Some (Z.of_nat x) /\ (x < 16)%nat.
Proof.
  intros Hf (He & Hu & Hne & _) Hn Hl. set (len := Nat.max _ _).
  assert (len < length curr)%nat as Hlen.
  { assert (top_depth fs < length curr)%nat.
    { destruct fs as [|[d cs] fs]; cbn [top_depth fst]; [lia|]. destruct Hf as [_ Hf].
      apply Forall_cons in Hf as [(_ & _ & _ & x & Hx & _) _]. by apply lookup_lt_Some in Hx. }
    assert (prefix_length succ curr < length curr)%nat; [|lia].
    destruct Hn as [->|(x & y & Hx & _)]; [cbn; lia|by apply lookup_lt_Some in Hx]. }
  destruct (lookup_lt_is_Some_2 curr len Hlen) as [z Hz].
  destruct (under_nibbles _ _ He Hu Hne) as [Hok _]. pose proof (Forall_lookup_1 _ _ _ _ Hok Hz) as Hz'.
  unfold nibble_ok in Hz'. exists (Z.to_nat z). rewrite Z2Nat.id by lia. split; [done|lia].
Qed.

(** The item of the iteration after a branch is closed. *)
Lemma close_item ext curr value es depth cs x fs :
  frames_ok curr ((depth, cs) :: fs) -> item_ok ext curr value es -> curr !! depth = Some (Z.of_nat x) ->
  (x < 16)%nat ->
  item_ok true (take depth curr) value (child_entries (cs ++ [(x, es)])) /\ frames_ok (take depth curr) fs.
Proof.
  intros Hf Hi Hx H16. destruct (close_children _ _ _ _ _ _ _ _ Hf Hi Hx H16) as (Hc & Hs & H2).
  assert (depth < length curr)%nat as Hd by by apply lookup_lt_Some in Hx.
  destruct (child_entries_under curr depth _ ltac:(lia) Hc) as [He Hu].
  pose proof (child_entries_length _ _ _ Hc) as Hlen. split.
  - split; [done|]. split; [done|]. split; [intros E; rewrite E in Hlen; cbn [length] in Hlen; lia|].
    split; [lia|]. rewrite (children_common_prefix curr depth) by (done || lia).
    rewrite length_take. lia.
  - pose proof (frames_depth _ _ _ Hf) as Hdep. cbn [fst] in Hdep.
    destruct Hf as [Hs' Hf]. apply StronglySorted_inv in Hs' as [Hs' _]. apply Forall_cons in Hf as [_ Hf].
    apply (frames_ok_path curr _ _ depth); [|done|done]. rewrite take_take. f_equal. lia.
Qed.

Lemma nth_of_lookup (l : bytes) i z : l !! i = Some z -> nth i l 0 = z.
Proof. intros H. rewrite nth_lookup, H. done. Qed.

Lemma gen_loop_ok fuel ext hb curr succ value fs es :
  collecting hb = false -> zero_masks (hash_masks hb) -> groups hb = groups_of fs ->
  stack hb = push_top ext curr es (stack_of fs) -> frames_ok curr fs -> item_ok ext curr value es ->
  next_ok curr succ -> (0 < length curr < fuel)%nat ->
  exists hb', gen_struct_loop fuel ext hb curr succ value = Ok hb' /\ step_post succ (entries_of fs ++ es) hb'.
Proof.
  revert ext hb curr fs es. induction fuel as [|fuel IH]; intros ext hb curr fs es Hco Hz Hg Hst Hf Hi Hn Hl; [lia|].
  destruct (extra_digit_ok _ _ _ _ _ _ Hf Hi Hn ltac:(lia)) as (x & Hx & Hx16).
  cbn [gen_struct_loop]. rewrite Hg, prec_len_top, frames_nil_iff, Hst.
  set (len := Nat.max _ _) in *. assert (len < length curr)%nat as Hlen by by apply lookup_lt_Some in Hx.
  destruct (Nat.ltb_spec len (length curr)); [|lia]. cbn [negb].
  rewrite (nth_of_lookup _ _ _ Hx). rewrite (add_digit_groups len x es) by lia.
  rewrite (push_node_ok _ _ _ es) by (done || (case_match; lia)). cbn [result_bind].
  set (hm := if (length (tree_masks hb) <? length curr)%nat then _ else hash_masks hb).
  assert (zero_masks hm) as Hhm by (subst hm; case_match; [by apply zero_masks_resize|done]).
  destruct (decide (succ <> [] /\ (top_depth fs <= prefix_length succ curr)%nat)) as [[Hne Htop]|Hclose].
  - destruct (Nat.leb_spec (top_depth fs) (prefix_length succ curr)); [|lia].
    assert (negb (length succ =? 0)%nat = true) as -> by by destruct succ.
    cbn [andb orb]. eexists. split; [reflexivity|]. split; [done|]. split; [done|]. split; [done|].
    intros _. exists (push_child len (x, es) fs). destruct Hn as [->|(x' & y & Hx' & Hy & Hxy)]; [done|].
    assert (len = prefix_length succ curr) as El by lia. rewrite El in *.
    rewrite Hx in Hx'. injection Hx' as Hx'. apply Nat2Z.inj in Hx' as <-.
    split; [|split; [done|split; [by rewrite stack_push|apply entries_push]]].
    apply (push_child_frames ext curr value es fs succ x y); try done. symmetry. apply prefix_length_take.
  - assert ((top_depth fs <=? prefix_length succ curr)%nat && negb (length succ =? 0)%nat = false) as ->.
    { destruct (Nat.leb_spec (top_depth fs) (prefix_length succ curr)); [|done].
      destruct succ; [done|]. exfalso. apply Hclose. done. }
    assert (len = top_depth fs) as El.
    { subst len. destruct (decide (succ = [])) as [->|]; [cbn; lia|].
      destruct (decide (top_depth fs <= prefix_length succ curr)%nat); [exfalso; by apply Hclose|lia]. }
    destruct fs as [|[d cs] fs].
    + assert (succ = []) as -> by (destruct (decide (succ = [])); [done|exfalso; apply Hclose; split; [done|cbn; lia]]).
      cbn [length Nat.eqb negb orb top_depth result_bind]. eexists. split; [reflexivity|].
      split; [done|]. split; [by apply zero_masks_resize|]. split; [done|done].
    + cbn [top_depth fst] in El. cbn [negb]. rewrite orb_true_r.
      rewrite El in *. clear El Hlen. rewrite <- (stack_push d x es).
      destruct (close_children _ _ _ _ _ _ _ _ Hf Hi Hx Hx16) as (Hc & Hs & H2).
      destruct (close_item _ _ _ _ _ _ _ _ Hf Hi Hx Hx16) as [Hi' Hf'].
      assert (push_child d (x, es) ((d, cs) :: fs) = (d, cs ++ [(x, es)]) :: fs) as ->
        by (cbn [push_child]; by rewrite Nat.eqb_refl).
      rewrite (close_branch_ok _ curr d (cs ++ [(x, es)]) (stack_of fs) fs) by (done || lia).
      cbn [result_bind with_stacks groups stack hash_masks tree_masks collecting].
      destruct (groups_pop _ _ _ _ Hf) as [Hg1 Hg2].
      rewrite Hg1, Hg2. cbn [entries_of]. rewrite <- app_assoc.
      assert (child_entries cs ++ es = child_entries (cs ++ [(x, es)])) as ->.
      { unfold child_entries. rewrite map_app, concat_app. cbn. by rewrite app_nil_r. }
      cbn [top_depth fst]. destruct (Nat.eqb_spec d 0) as [->|Hd].
      * assert (fs = []) as ->.
        { pose proof (frames_depth _ _ _ Hf) as Hdep. destruct fs; [done|].
          apply Forall_cons in Hdep as [Hdep _]. cbn [fst] in Hdep. lia. }
        eexists. split; [reflexivity|]. split; [done|]. split; [by apply zero_masks_resize|]. split; [done|].
        intros Hne. exfalso. apply Hclose. split; [done|cbn; lia].
      * assert (next_ok (take d curr) succ) as Hn'.
        { destruct (decide (succ = [])) as [->|Hne]; [by left|]. apply next_prefix; [done|done|].
          destruct (decide (top_depth ((d, cs) :: fs) <= prefix_length succ curr)%nat); [exfalso; by apply Hclose|].
          cbn [top_depth fst] in *. lia. }
        apply IH; try done.
        -- by apply zero_masks_resize.
        -- cbn [push_top stack]. rewrite length_take, Nat.min_l by lia. done.
        -- rewrite length_take. lia.
Qed.

(** * The whole run *)

(** [a] and [b] first differ at a position where [a]'s element is smaller. *)
Definition diverge (a b : bytes) : Prop :=
  exists p x y a' b', a = p ++ x :: a' /\ b = p ++ y :: b' /\ x < y.

(** [a] comes before [b] and is not a prefix of it: the order in which entries must be added. *)
Definition key_before (a b : bytes) : bool := bytes_ltb a b && negb (has_prefix b a).

Lemma key_before_diverge a b : key_before a b = true -> diverge a b.
Proof.
  unfold key_before. intros H. apply andb_true_iff in H as [Hlt Hp]. apply negb_true_iff in Hp.
  revert b Hlt Hp. induction a as [|x a IH]; intros [|y b] Hlt Hp; try done.
  cbn in Hlt. destruct (Z.ltb_spec x y); [by exists [], x, y, a, b|].
  destruct (Z.ltb_spec y x); [done|]. assert (y = x) as -> by lia.
  destruct (IH b Hlt) as (p & x' & y' & a' & b' & -> & -> & Hlt').
  - unfold has_prefix, bytes_eqb in *. cbn [length take] in Hp. apply bool_decide_eq_false in Hp.
    apply bool_decide_eq_false. intros E. apply Hp. by rewrite E.
  - by exists (x :: p), x', y', a', b'.
Qed.

Lemma unpack_app a b : unpack_nibbles (a ++ b) = unpack_nibbles a ++ unpack_nibbles b.
Proof. unfold unpack_nibbles. by rewrite map_app, concat_app. Qed.

Lemma unpack_diverge a b : bytes_ok a -> bytes_ok b -> diverge a b -> diverge (unpack_nibbles a) (unpack_nibbles b).
Proof.
  intros Ha Hb (p & x & y & a' & b' & -> & -> & Hlt).
  apply Forall_app in Ha as [_ Ha]. apply Forall_cons in Ha as [Hx _].
  apply Forall_app in Hb as [_ Hb]. apply Forall_cons in Hb as [Hy _].
  rewrite !unpack_app.
  change (unpack_nibbles (x :: a')) with (Z.shiftr x 4 :: Z.land x 15 :: unpack_nibbles a').
  change (unpack_nibbles (y :: b')) with (Z.shiftr y 4 :: Z.land y 15 :: unpack_nibbles b').
  assert (forall z, z = 16 * Z.shiftr z 4 + Z.land z 15 /\ 0 <= Z.land z 15 < 16) as Hz.
  { intros z. rewrite Z.shiftr_div_pow2 by lia. change 15 with (Z.ones 4). rewrite Z.land_ones by lia.
    pose proof (Z.div_mod z (2 ^ 4) ltac:(lia)). pose proof (Z.mod_pos_bound z (2 ^ 4) ltac:(lia)).
    change (2 ^ 4) with 16 in *. lia. }
  destruct (Hz x) as [Ex Rx], (Hz y) as [Ey Ry].
  destruct (Z.eq_dec (Z.shiftr x 4) (Z.shiftr y 4)) as [E|E].
  - rewrite E. exists (unpack_nibbles p ++ [Z.shiftr y 4]), (Z.land x 15), (Z.land y 15),
      (unpack_nibbles a'), (unpack_nibbles b'). rewrite <- !app_assoc. split; [done|]. split; [done|lia].
  - exists (unpack_nibbles p), (Z.shiftr x 4), (Z.shiftr y 4), (Z.land x 15 :: unpack_nibbles a'),
      (Z.land y 15 :: unpack_nibbles b'). split; [done|]. split; [done|lia].
Qed.

Lemma prefix_length_app p a b : prefix_length (p ++ a) (p ++ b) = (length p + prefix_length a b)%nat.
Proof. induction p as [|x p IH]; [done|]. cbn. by rewrite Z.eqb_refl, IH. Qed.

Lemma diverge_next a b : nibbles_ok a -> nibbles_ok b -> diverge a b -> next_ok a b /\ bytes_ltb a b = true.
Proof.
  intros Ha Hb (p & x & y & a' & b' & -> & -> & Hlt).
  apply Forall_app in Ha as [_ Ha]. apply Forall_cons in Ha as [Hx _].
  apply Forall_app in Hb as [_ Hb]. apply Forall_cons in Hb as [Hy _]. unfold nibble_ok in *.
  split.
  - right. rewrite prefix_length_app. cbn [prefix_length]. destruct (Z.eqb_spec y x); [lia|].
    rewrite Nat.add_0_r, !list_lookup_middle by done. exists (Z.to_nat x), (Z.to_nat y).
    rewrite !Z2Nat.id by lia. split; [done|]. split; [done|lia].
  - induction p as [|z p IH]; cbn [app bytes_ltb].
    + by destruct (Z.ltb_spec x y); [|lia].
    + by rewrite Z.ltb_irrefl.
Qed.

(** Packed entries, as [add] takes them. *)
Definition packed_ok (e : entry) : Prop :=
  fst e <> [] /\ bytes_ok (fst e) /\ zlen (fst e) < 2 ^ 60 /\ bytes_ok (snd e) /\ zlen (snd e) < 2 ^ 61.

Definition unpack_entry (e : entry) : entry := (unpack_nibbles (fst e), snd e).

Lemma unpack_entry_ok e : packed_ok e -> entry_ok (unpack_entry e).
Proof.
  intros (Hne & Hok & Hl & Hv & Hlv). unfold entry_ok, unpack_entry. cbn [fst snd].
  rewrite length_unpack. split; [by apply unpack_nibbles_ok|]. split; [lia|]. done.
Qed.

Lemma unpack_nonempty k : k <> [] -> (0 < length (unpack_nibbles k))%nat.
Proof. intros H. rewrite length_unpack. destruct k; [done|]. cbn [length]. lia. Qed.

(** Between two calls of [add]: [last] is pending, the entries before it are in the open branches. *)
Definition pending (hb : HashBuilder) (before : list entry) (last : entry) : Prop :=
  collecting hb = false /\ zero_masks (hash_masks hb)
  /\ hb_key hb = unpack_nibbles (fst last) /\ hb_value hb = snd last
  /\ exists fs, frames_ok (hb_key hb) fs /\ groups hb = groups_of fs /\ stack hb = stack_of fs
               /\ entries_of fs = map unpack_entry before.

Lemma pending_item last :
  packed_ok last -> item_ok false (unpack_nibbles (fst last)) (snd last) [unpack_entry last].
Proof.
  intros Hp. split; [constructor; [by apply unpack_entry_ok|constructor]|].
  split; [|split; [done|done]]. constructor; [|constructor]. cbn [fst unpack_entry]. by rewrite take_ge.
Qed.

(** One step on the pending entry. *)
Lemma pending_step hb before last succ :
  pending hb before last -> packed_ok last -> next_ok (unpack_nibbles (fst last)) succ ->
  exists hb', gen_struct_step hb (hb_key hb) succ (hb_value hb) = Ok hb'
    /\ step_post succ (map unpack_entry (before ++ [last])) hb'.
Proof.
  intros (Hco & Hz & Hk & Hv & fs & Hf & Hg & Hst & He) Hp Hn. unfold gen_struct_step.
  rewrite Hv. rewrite Hk in *. pose proof (unpack_nonempty (fst last) (proj1 Hp)).
  destruct (gen_loop_ok (length (unpack_nibbles (fst last)) + 1) false hb (unpack_nibbles (fst last)) succ
    (snd last) fs [unpack_entry last]) as (hb' & E & Hpost); try done.
  - by apply pending_item.
  - lia.
  - exists hb'. split; [done|]. by rewrite map_app, <- He.
Qed.

Lemma add_pending hb before last e :
  pending hb before last -> packed_ok last -> packed_ok e -> key_before (fst last) (fst e) = true ->
  exists hb', add hb (fst e) (snd e) = Ok hb' /\ pending hb' (before ++ [last]) e.
Proof.
  intros Hpend Hpl Hpe Hlt. pose proof Hpend as (Hco & Hz & Hk & Hv & _).
  apply key_before_diverge in Hlt. apply unpack_diverge in Hlt; [|apply Hpl|apply Hpe].
  apply diverge_next in Hlt as [Hn Hlt]; [|by apply unpack_nibbles_ok, Hpl|by apply unpack_nibbles_ok, Hpe].
  destruct (pending_step _ _ _ _ Hpend Hpl Hn) as (hb' & E & (Hco' & Hz' & _ & Hfs)).
  unfold add. assert (bytes_ltb (hb_key hb) (unpack_nibbles (fst e)) = true) as -> by (rewrite Hk; done).
  cbn [negb].
  assert (negb (length (hb_key hb) =? 0)%nat = true) as ->.
  { rewrite Hk. pose proof (unpack_nonempty (fst last) (proj1 Hpl)). apply negb_true_iff, Nat.eqb_neq. lia. }
  rewrite E. cbn [result_bind]. eexists. split; [reflexivity|].
  destruct Hfs as (fs & Hf & Hg & Hst & He).
  { intros Ee. pose proof (unpack_nonempty (fst e) (proj1 Hpe)). rewrite Ee in *. cbn in *. lia. }
  split; [done|]. split; [done|]. split; [done|]. split; [done|]. by exists fs.
Qed.

Lemma stack_root_of_ref r : stack_root_hash [node_ref r] = keccak256 r.
Proof.
  unfold stack_root_hash, node_ref. destruct (Nat.ltb_spec (length r) kHashLength) as [H|H]; unfold kHashLength in *.
  - destruct (Nat.eqb_spec (length r) (32 + 1)); [lia|done].
  - cbn [length]. rewrite length_keccak256. change (33 =? 32 + 1)%nat with true. cbn [drop].
    rewrite drop_0. apply take_ge. rewrite length_keccak256. lia.
Qed.

Lemma root_pending hb before last :
  pending hb before last -> packed_ok last ->
  root_hash hb = Ok (trie_root (map unpack_entry (before ++ [last]))).
Proof.
  intros Hpend Hpl. pose proof Hpend as (_ & _ & Hk & _).
  destruct (pending_step _ _ _ [] Hpend Hpl ltac:(by left)) as (hb' & E & (_ & _ & Hs & _)).
  unfold root_hash, finalize.
  assert (negb (length (hb_key hb) =? 0)%nat = true) as ->.
  { rewrite Hk. pose proof (unpack_nonempty (fst last) (proj1 Hpl)). apply negb_true_iff, Nat.eqb_neq. lia. }
  rewrite E. cbn [result_bind with_entry stack]. rewrite Hs, stack_root_of_ref by done.
  unfold trie_root, T. rewrite map_app. by destruct (map unpack_entry before).
Qed.

Lemma root_of_pending es hb before last :
  pending hb before last -> Forall packed_ok (last :: es) ->
  Sorted (fun a b => key_before (fst a) (fst b) = true) (last :: es) ->
  (try hb := add_all hb es in root_hash hb) = Ok (trie_root (map unpack_entry (before ++ last :: es))).
Proof.
  revert hb before last. induction es as [|e es IH]; intros hb before last Hpend Hok Hs.
  - cbn [add_all result_bind]. apply Forall_cons in Hok as [Hl _]. by apply root_pending.
  - apply Forall_cons in Hok as [Hl Hok]. apply Sorted_inv in Hs as [Hs Hhd].
    apply HdRel_inv in Hhd. pose proof (Forall_inv Hok) as He.
    destruct (add_pending _ _ _ _ Hpend Hl He Hhd) as (hb' & E & Hpend').
    destruct e as [k v]. cbn [add_all fst snd] in *. rewrite E. cbn [result_bind].
    rewrite (IH hb' (before ++ [last]) (k, v)) by done. by rewrite <- app_assoc.
Qed.

Lemma root_of_correct es :
  Forall packed_ok es -> Sorted (fun a b => key_before (fst a) (fst b) = true) es ->
  root_of es = Ok (trie_root (map unpack_entry es)).
Proof.
  intros Hok Hs. unfold root_of. destruct es as [|[k v] es]; [done|].
  cbn [add_all]. pose proof (Forall_inv Hok) as Hp.
  pose proof (unpack_nonempty k (proj1 Hp)) as Hl.
  assert (add (new_hash_builder false) k v = Ok (with_entry (new_hash_builder false) (unpack_nibbles k) v)) as ->.
  { unfold add. cbn [new_hash_builder hb_key]. by destruct (unpack_nibbles k); [cbn in Hl; lia|]. }
  cbn [result_bind]. apply (root_of_pending es _ [] (k, v)); [|done|done].
  split; [done|]. split; [constructor|]. split; [done|]. split; [done|]. exists [].
  split; [split; constructor|]. done.
Qed.

(** * Roots of lists *)

Lemma diverge_key_before a b : diverge a b -> key_before a b = true.
Proof.
  intros (p & x & y & a' & b' & -> & -> & Hlt). unfold key_before. apply andb_true_iff. split.
  - induction p as [|z p IH]; cbn [app bytes_ltb]; [by destruct (Z.ltb_spec x y); [|lia]|by rewrite Z.ltb_irrefl].
  - apply negb_true_iff. unfold has_prefix, bytes_eqb. apply bool_decide_eq_false. intros E.
    apply (f_equal (fun l => l !! length p)) in E. rewrite lookup_take_lt in E by (rewrite length_app; cbn; lia).
    rewrite !list_lookup_middle in E by done. injection E as E. lia.
Qed.

Lemma diverge_app a b s t : diverge a b -> diverge (a ++ s) (b ++ t).
Proof.
  intros (p & x & y & a' & b' & -> & -> & Hlt). exists p, x, y, (a' ++ s), (b' ++ t).
  by rewrite <- !app_assoc.
Qed.

Lemma diverge_cons c a b : diverge a b -> diverge (c :: a) (c :: b).
Proof. intros (p & x & y & a' & b' & -> & -> & Hlt). by exists (c :: p), x, y, a', b'. Qed.

Lemma diverge_head x y a b : x < y -> diverge (x :: a) (y :: b).
Proof. intros H. by exists [], x, y, a, b. Qed.

(** Big-endian strings of one length are ordered as their numbers. *)
Lemma to_be_diverge n x y : 0 <= x < y -> y < 256 ^ Z.of_nat n -> diverge (to_be n x) (to_be n y).
Proof.
  revert x y. induction n as [|n IH]; intros x y Hxy Hy; [cbn in Hy; lia|]. cbn [to_be].
  rewrite Nat2Z.inj_succ, Z.pow_succ_r in Hy by lia.
  pose proof (Z.div_mod x 256 ltac:(lia)). pose proof (Z.div_mod y 256 ltac:(lia)).
  pose proof (Z.mod_pos_bound x 256 ltac:(lia)). pose proof (Z.mod_pos_bound y 256 ltac:(lia)).
  assert (0 <= x / 256) by (apply Z.div_pos; lia).
  destruct (Z.lt_ge_cases (x / 256) (y / 256)) as [Hlt|Hge].
  - apply diverge_app, IH; [lia|]. apply Z.div_lt_upper_bound; lia.
  - assert (x / 256 = y / 256) as E by (pose proof (Z.div_le_mono x y 256 ltac:(lia) ltac:(lia)); lia).
    rewrite E. exists (to_be n (y / 256)), (x mod 256), (y mod 256), [], []. split; [done|]. split; [done|lia].
Qed.

Lemma be_len_mono x y : 0 <= x <= y -> (be_len x <= be_len y)%nat.
Proof. intros H. apply be_len_le. pose proof (be_len_spec y ltac:(lia)). lia. Qed.

Lemma encode_u64_big n :
  128 <= n < 2 ^ 64 -> encode_u64 n = u8 (0x80 + Z.of_nat (be_len n)) :: to_be (be_len n) n.
Proof.
  intros H. unfold encode_u64, kEmptyStringCode.
  destruct (Z.eqb_spec n 0); [lia|]. destruct (Z.ltb_spec n 128); [lia|].
  rewrite big_endian_u64_eq by lia. by rewrite length_to_be.
Qed.

Lemma encode_u64_small n : 0 < n < 128 -> encode_u64 n = [n].
Proof.
  intros H. unfold encode_u64, kEmptyStringCode.
  destruct (Z.eqb_spec n 0); [lia|]. destruct (Z.ltb_spec n 128); [|lia]. by unwrap.
Qed.

(** The encodings of indices, in the adjusted order, are ordered and prefix free. *)
Lemma encode_index_ordered j n :
  0 <= j -> j + 1 < n < 2 ^ 64 ->
  diverge (encode_u64 (adjust_index_for_rlp j n)) (encode_u64 (adjust_index_for_rlp (j + 1) n)).
Proof.
  intros Hj Hn. unfold adjust_index_for_rlp.
  assert (encode_u64 0 = [0x80]) as E0 by done.
  destruct (Z.ltb_spec 0x7f j).
  - destruct (Z.ltb_spec 0x7f (j + 1)); [|lia]. rewrite !encode_u64_big by lia.
    pose proof (be_len_mono j (j + 1) ltac:(lia)). pose proof (be_len_u64 (j + 1) ltac:(lia)). unwrap.
    destruct (decide (be_len j = be_len (j + 1))) as [E|Hne]; [|apply diverge_head; lia].
    rewrite E. apply diverge_cons, to_be_diverge; [lia|apply be_len_spec; lia].
  - destruct (Z.eqb_spec j 0x7f) as [->|Hne]; cbn [orb].
    + change (127 <? 127 + 1) with true. cbv iota. rewrite E0. by apply diverge_head.
    + destruct (Z.eqb_spec (j + 1) n); [lia|]. rewrite encode_u64_small by lia.
      destruct (Z.ltb_spec 0x7f (j + 1)); [lia|].
      destruct (_ || _) eqn:E; [rewrite E0; apply diverge_head; lia|].
      apply orb_false_iff in E as [E _]. apply Z.eqb_neq in E.
      rewrite encode_u64_small by lia. apply diverge_head. lia.
Qed.

Definition adjusted (n j : nat) : nat := Z.to_nat (adjust_index_for_rlp (Z.of_nat j) (Z.of_nat n)).

Lemma adjusted_order n :
  (0 < n)%nat ->
  map (adjusted n) (seq 0 n)
  = seq 1 (Nat.min n 128 - 1) ++ [0%nat] ++ seq (Nat.min n 128) (n - Nat.min n 128).
Proof.
  intros Hn. remember (Nat.min n 128) as m eqn:Em.
  replace (seq 0 n) with (seq 0 (m - 1) ++ [(m - 1)%nat] ++ seq m (n - m)).
  - rewrite !map_app. f_equal; [|f_equal].
    + rewrite <- seq_shift. apply map_ext_in. intros j Hj. apply in_seq in Hj.
      unfold adjusted, adjust_index_for_rlp. zif. destruct (_ || _) eqn:E; [|lia].
      apply orb_true_iff in E as [E|E]; apply Z.eqb_eq in E; lia.
    + cbn [map]. f_equal. unfold adjusted, adjust_index_for_rlp. zif. destruct (_ || _) eqn:E; [done|].
      apply orb_false_iff in E as [E1 E2]. apply Z.eqb_neq in E1, E2. lia.
    + rewrite <- (map_id (seq m (n - m))) at 2. apply map_ext_in. intros j Hj. apply in_seq in Hj.
      unfold adjusted, adjust_index_for_rlp. zif. lia.
  - change [(m - 1)%nat] with (seq (m - 1) 1).
    assert (forall a b c, seq a b ++ seq (a + b) c = seq a (b + c)) as Hs by (intros; by rewrite seq_app).
    pose proof (Hs (m - 1)%nat 1%nat (n - m)%nat) as H1. replace (m - 1 + 1)%nat with m in H1 by lia. rewrite H1.
    pose proof (Hs 0%nat (m - 1)%nat (1 + (n - m))%nat) as H2. replace (0 + (m - 1))%nat with (m - 1)%nat in H2 by lia.
    rewrite H2. f_equal. lia.
Qed.

Lemma adjusted_permutation n : map (adjusted n) (seq 0 n) ≡ₚ seq 0 n.
Proof.
  destruct (decide (n = 0)%nat) as [->|Hn]; [done|]. rewrite adjusted_order by lia.
  remember (Nat.min n 128) as m eqn:Em.
  rewrite (Permutation_app_comm (seq 1 (m - 1))), <- app_assoc. cbn [app].
  rewrite (Permutation_app_comm (seq m (n - m))). change (0%nat :: ?l) with ([0%nat] ++ l).
  assert (0%nat :: seq 1 (m - 1) ++ seq m (n - m) = seq 0 n) as <-; [|done].
  assert (forall a b c, seq a b ++ seq (a + b) c = seq a (b + c)) as Hs by (intros; by rewrite seq_app).
  pose proof (Hs 1%nat (m - 1)%nat (n - m)%nat) as H1. replace (1 + (m - 1))%nat with m in H1 by lia.
  rewrite H1. change (0%nat :: seq 1 ?k) with (seq 0 (S k)). f_equal. lia.
Qed.

Definition index_entry {A} (v : list A) (enc : A -> bytes) (i : nat) : option entry :=
  x ← v !! i; Some (encode_u64 (Z.of_nat i), enc x).

Lemma adjusted_range n j : (j < n)%nat -> (adjusted n j < n)%nat /\
  Z.of_nat (adjusted n j) = adjust_index_for_rlp (Z.of_nat j) (Z.of_nat n).
Proof.
  intros H. assert (0 <= adjust_index_for_rlp (Z.of_nat j) (Z.of_nat n) < Z.of_nat n) as Hr; [|unfold adjusted; lia].
  unfold adjust_index_for_rlp. zif; [lia|]. destruct (_ || _) eqn:E; [lia|].
  apply orb_false_iff in E as [E1 E2]. apply Z.eqb_neq in E1, E2. lia.
Qed.

Lemma vector_entries_eq {A} (v : list A) enc :
  vector_entries v enc = omap (index_entry v enc) (map (adjusted (length v)) (seq 0 (length v))).
Proof.
  unfold vector_entries. assert (forall l, (forall j, In j l -> (j < length v)%nat) ->
    omap (fun j => x ← v !! Z.to_nat (adjust_index_for_rlp (Z.of_nat j) (zlen v));
                   Some (encode_u64 (adjust_index_for_rlp (Z.of_nat j) (zlen v)), enc x)) l
    = omap (index_entry v enc) (map (adjusted (length v)) l)) as H.
  { induction l as [|j l IH]; intros Hl; [done|]. cbn [map omap list_omap]. rewrite IH by (intros; apply Hl; by right).
    destruct (adjusted_range (length v) j) as [_ E]; [apply Hl; by left|].
    assert (index_entry v enc (adjusted (length v) j)
      = x ← v !! Z.to_nat (adjust_index_for_rlp (Z.of_nat j) (zlen v));
        Some (encode_u64 (adjust_index_for_rlp (Z.of_nat j) (zlen v)), enc x)) as ->
      by (unfold index_entry; by rewrite E). reflexivity. }
  apply H. intros j Hj. apply in_seq in Hj. lia.
Qed.

Lemma vector_entries_permutation {A} (v : list A) enc :
  vector_entries v enc ≡ₚ omap (index_entry v enc) (seq 0 (length v)).
Proof. rewrite vector_entries_eq. by rewrite adjusted_permutation. Qed.

Lemma vector_entries_map {A} (v : list A) enc :
  Forall2 (fun j e => fst e = encode_u64 (adjust_index_for_rlp (Z.of_nat j) (zlen v))
                      /\ exists x, x ∈ v /\ snd e = enc x) (seq 0 (length v)) (vector_entries v enc).
Proof.
  rewrite vector_entries_eq. assert (forall j, In j (seq 0 (length v)) -> (j < length v)%nat) as H
    by (intros j Hj; apply in_seq in Hj; lia).
  induction (seq 0 (length v)) as [|j l IH]; [constructor|]. cbn [map omap list_omap].
  destruct (adjusted_range (length v) j) as [Hr E]; [apply H; by left|].
  destruct (lookup_lt_is_Some_2 v _ Hr) as [x Hx].
  assert (index_entry v enc (adjusted (length v) j) = Some (encode_u64 (Z.of_nat (adjusted (length v) j)), enc x)) as ->
    by (unfold index_entry; by rewrite Hx).
  constructor; [|apply IH; intros; apply H; by right]. cbn [fst snd]. rewrite E. split; [done|].
  exists x. split; [by apply list_elem_of_lookup_2 in Hx|done].
Qed.

Lemma encode_u64_index_ok n : 0 <= n < 2 ^ 64 ->
  encode_u64 n <> [] /\ bytes_ok (encode_u64 n) /\ zlen (encode_u64 n) <= 9.
Proof.
  intros H. pose proof (length_encode_u64 n H) as [Hl Hr]. split; [|split; [|lia]].
  - unfold encode_u64. zif; done.
  - rewrite encode_u64_bytes by done. apply encode_bytes_ok, to_be_ok.
Qed.

Lemma vector_entries_sorted {A} (v : list A) enc :
  zlen v < 2 ^ 64 -> Sorted (fun a b => key_before (fst a) (fst b) = true) (vector_entries v enc).
Proof.
  intros Hl. pose proof (vector_entries_map v enc) as Hm.
  assert (forall i l es, (i + length l <= length v)%nat -> l = seq i (length l) ->
    Forall2 (fun j e => fst e = encode_u64 (adjust_index_for_rlp (Z.of_nat j) (zlen v))
                      /\ exists x, x ∈ v /\ snd e = enc x) l es ->
    Sorted (fun a b : entry => key_before (fst a) (fst b) = true) es) as H.
  { intros i l es Hi El H. revert i Hi El. induction H as [|j e l es (He & _) H IH]; intros i Hi El; [constructor|].
    cbn [length seq] in *. injection El as -> El. constructor; [apply (IH (S i)); [lia|done]|].
    destruct H as [|j' e' l' es' (He' & _) H]; [constructor|]. constructor.
    cbn [length seq] in *. injection El as -> _. rewrite He, He'. apply diverge_key_before.
    replace (Z.of_nat (S i)) with (Z.of_nat i + 1) by lia. apply encode_index_ordered; lia. }
  apply (H 0%nat (seq 0 (length v))); rewrite ?length_seq; done.
Qed.

Lemma vector_root_ok {A} (v : list A) enc :
  zlen v < 2 ^ 64 -> Forall (fun x => bytes_ok (enc x) /\ zlen (enc x) < 2 ^ 61) v ->
  vector_root_hash v enc = Ok (trie_root (map unpack_entry (vector_entries v enc))).
Proof.
  intros Hl Hv. apply root_of_correct; [|by apply vector_entries_sorted].
  pose proof (vector_entries_map v enc) as Hm.
  assert (forall j, In j (seq 0 (length v)) -> (j < length v)%nat) as H by (intros j Hj; apply in_seq in Hj; lia).
  induction Hm as [|j e l es (He & x & Hx & Ex) Hm IH]; [constructor|].
  constructor; [|apply IH; intros; apply H; by right].
  destruct (adjusted_range (length v) j) as [Hr E]; [apply H; by left|].
  destruct (encode_u64_index_ok (adjust_index_for_rlp (Z.of_nat j) (zlen v)) ltac:(lia)) as (H1 & H2 & H3).
  rewrite Forall_forall in Hv. destruct (Hv x Hx) as [H4 H5]. unfold packed_ok. rewrite He, Ex.
  split; [done|]. split; [done|]. split; [lia|done].
Qed.

(** * Properties *)

(** C1: The streaming builder is the trie. Whatever entries are added in strictly increasing order, no
    key a prefix of the next, [root_hash] is the Merkle Patricia root of the Yellow Paper computed by
    recursion over the whole set: one leaf, extension or branch per prefix group, children referenced
    by hash from 32 bytes on. No assertion of [gen_struct_step] fails on the way. *)
Theorem root_hash_correct (es : list entry) :
  Forall packed_ok es -> Sorted (fun a b => key_before (fst a) (fst b) = true) es ->
  root_of es = Ok (trie_root (map unpack_entry es)).
Proof. apply root_of_correct. Qed.

Lemma root_hash_correct_witness :
  root_of [([0x64; 0x6f], [1]); ([0x67; 0x6f], [2])]
  = Ok (trie_root (map unpack_entry [([0x64; 0x6f], [1]); ([0x67; 0x6f], [2])])).
Proof.
  apply root_hash_correct.
  - apply Forall_cons; split; [|apply Forall_cons; split; [|constructor]];
      (split; [done|]; split; [bytes_dec|]; split; [reflexivity|]; split; [bytes_dec|reflexivity]).
  - repeat constructor.
Defined.

(** The root of a list (of transactions, of receipts) is the root of the trie that maps the
    RLP of every index to the encoding of its element. The adjusted order visits every index once and
    makes the keys strictly increasing and prefix free, as [HashBuilder::add] requires: 0, whose RLP is
    0x80, is visited between 0x7f and 0x80. *)
Theorem vector_root_correct {A : Type} (v : list A) (value_encoder : A -> bytes) :
  zlen v < 2 ^ 64 -> Forall (fun x => bytes_ok (value_encoder x) /\ zlen (value_encoder x) < 2 ^ 61) v ->
  vector_root_hash v value_encoder = Ok (trie_root (map unpack_entry (vector_entries v value_encoder)))
  /\ vector_entries v value_encoder
     ≡ₚ omap (fun i => x ← v !! i; Some (encode_u64 (Z.of_nat i), value_encoder x)) (seq 0 (length v))
  /\ Sorted (fun a b => key_before (fst a) (fst b) = true) (vector_entries v value_encoder).
Proof.
  intros Hl Hv. split; [by apply vector_root_ok|].
  split; [apply vector_entries_permutation|by apply vector_entries_sorted].
Qed.

Lemma vector_root_correct_witness :
  vector_root_hash [1; 2; 3] encode_u64 = Ok (trie_root (map unpack_entry (vector_entries [1; 2; 3] encode_u64))).
Proof.
  apply (vector_root_correct [1; 2; 3] encode_u64); [cbn; lia|].
  repeat (apply Forall_cons; split; [split; [bytes_dec|reflexivity]|]). constructor.
Defined.

(** Paths in leaf and extension nodes are hex-prefix encoded: the encoding is the reference's
    and is read back with its flag, so distinct paths or kinds of node never share an encoding. *)
Theorem encode_path_correct (path : bytes) (terminating : bool) :
  nibbles_ok path ->
  encode_path path terminating = hex_prefix path terminating
  /\ hex_prefix_decode (encode_path path terminating) = Some (path, terminating).
Proof. intros H. rewrite encode_path_eq by done. split; [done|by apply hex_prefix_roundtrip]. Qed.

Lemma encode_path_correct_witness : hex_prefix_decode (encode_path [1; 2; 3] true) = Some ([1; 2; 3], true).
Proof. apply (encode_path_correct [1; 2; 3] true). repeat constructor; unfold nibble_ok; lia. Defined.

(** With a node collector the builder keeps hash masks below an extension node: after a
    branch under an extension is closed, the mask at the depth above it survives (only [groups_] is
    cut to the new branch), and a later branch at that depth, elsewhere in the trie, is closed with a
    hash mask that is not within its state mask. Four sorted keys of equal length suffice: the root is
    computed without a collector, and the assertion in [branch_ref] fails with one. *)
Theorem collector_stale_masks :
  let es := [([0x00; 0x00], replicate 40 7); ([0x00; 0x01], replicate 40 7);
             ([0x01; 0x50], replicate 40 7); ([0x01; 0x60], replicate 40 7)] in
  Sorted (fun a b => key_before (fst a) (fst b) = true) es
  /\ is_Ok (root_of es) = true
  /\ (try hb := add_all (new_hash_builder true) es in root_hash hb) = Undef.
Proof. split; [repeat constructor|]. vm_compute. split; reflexivity. Qed.
