(* ===== verification/Chain.v ===== *)
(** * Chain: core/silkworm/chain (config.hpp, config.cpp, protocol_param.hpp, difficulty.hpp,
    difficulty.cpp, intrinsic_gas.cpp)

    Chain configurations and their JSON form, fee and protocol parameters, the canonical difficulty and
    the intrinsic gas of a transaction. *)

From Stdlib Require Import String.
From stdpp Require Import strings.
From S2P Require Import Prelude Util Rlp Transaction.
Local Open Scope Z_scope.
Local Open Scope silk_scope.

(** ** EVM revisions: the values of [evmc_revision] *)

Definition EVMC_FRONTIER : Z := 0.
Definition EVMC_HOMESTEAD : Z := 1.
Definition EVMC_TANGERINE_WHISTLE : Z := 2.
Definition EVMC_SPURIOUS_DRAGON : Z := 3.
Definition EVMC_BYZANTIUM : Z := 4.
Definition EVMC_CONSTANTINOPLE : Z := 5.
Definition EVMC_PETERSBURG : Z := 6.
Definition EVMC_ISTANBUL : Z := 7.
Definition EVMC_BERLIN : Z := 8.
Definition EVMC_LONDON : Z := 9.
Definition EVMC_MAX_REVISION : nat := 9.

(** ** Chain configurations *)

Inductive SealEngineType : Type := kNoProof | kEthash | kClique | kAuRA.

#[export] Instance SealEngineType_eq_dec : EqDecision SealEngineType.
Proof. solve_decision. Defined.

Definition kJsonForkNames : list string :=
  ["homesteadBlock"; "eip150Block"; "eip155Block"; "byzantiumBlock"; "constantinopleBlock";
   "petersburgBlock"; "istanbulBlock"; "berlinBlock"; "londonBlock"]%string.

Record ChainConfig : Type := mkChainConfig {
  config_chain_id : Z;
  seal_engine : SealEngineType;
  fork_blocks : list (option Z);
  muir_glacier_block : option Z;
  dao_block : option Z
}.

#[export] Instance ChainConfig_eq_dec : EqDecision ChainConfig.
Proof. solve_decision. Defined.

(** [std::array<std::optional<uint64_t>, EVMC_MAX_REVISION>]: as many entries as fork names. *)
Definition pad_forks (l : list Z) : list (option Z) :=
  map Some l ++ replicate (EVMC_MAX_REVISION - length l) None.

Definition kMainnetConfig : ChainConfig :=
  mkChainConfig 1 kEthash
    (pad_forks [1150000; 2463000; 2675000; 4370000; 7280000; 7280000; 9069000; 12244000])
    (Some 9200000) (Some 1920000).

Definition kRopstenConfig : ChainConfig :=
  mkChainConfig 3 kEthash
    (pad_forks [0; 0; 10; 1700000; 4230000; 4939394; 6485846; 9812189]) (Some 7117117) None.

Definition kRinkebyConfig : ChainConfig :=
  mkChainConfig 4 kClique
    (pad_forks [1; 2; 3; 1035301; 3660663; 4321234; 5435345; 8290928]) None None.

Definition kGoerliConfig : ChainConfig :=
  mkChainConfig 5 kClique (pad_forks [0; 0; 0; 0; 0; 0; 1561651; 4460644]) None None.

Definition lookup_chain_config (chain_id : Z) : option ChainConfig :=
  if chain_id =? config_chain_id kMainnetConfig then Some kMainnetConfig
  else if chain_id =? config_chain_id kRopstenConfig then Some kRopstenConfig
  else if chain_id =? config_chain_id kRinkebyConfig then Some kRinkebyConfig
  else if chain_id =? config_chain_id kGoerliConfig then Some kGoerliConfig
  else None.

(** The loop of [ChainConfig::revision], [i] counting down; [n] is [i + 1]. *)
Fixpoint revision_loop (forks : list (option Z)) (n : nat) (block_number : Z) : Z :=
  match n with
  | O => EVMC_FRONTIER
  | S i =>
      match nth i forks None with
      | Some b => if b <=? block_number then Z.of_nat i + 1 else revision_loop forks i block_number
      | None => revision_loop forks i block_number
      end
  end.

Definition revision (config : ChainConfig) (block_number : Z) : Z :=
  revision_loop (fork_blocks config) EVMC_MAX_REVISION block_number.

(** [fork_blocks.at(rev - 1)] throws in a [noexcept] function when out of range: [Undef]. *)
Definition revision_block (config : ChainConfig) (rev : Z) : result unit (option Z) :=
  if rev =? EVMC_FRONTIER then Ok (Some 0)
  else match fork_blocks config !! Z.to_nat (rev - 1) with Some b => Ok b | None => Undef end.

(** ** JSON

    nlohmann::json is a parameter: objects whose members are numbers or objects. *)
Inductive json_value : Type := JNumber (n : Z) | JObject.

Class Json (J : Type) : Type := {
  json_empty : J;
  json_set : J -> string -> json_value -> J;
  json_find : J -> string -> option json_value
}.

(** What the code relies on: members are independent of each other. *)
Class JsonLaws (J : Type) `{Json J} : Prop := {
  find_empty : forall k, json_find json_empty k = None;
  find_set : forall j k v, json_find (json_set j k v) k = Some v;
  find_set_ne : forall j k k' v, k <> k' -> json_find (json_set j k v) k' = json_find j k'
}.

Section json.
Context {J : Type} `{Json J}.

Definition member_to_json (json : J) (key : string) (source : option Z) : J :=
  match source with Some v => json_set json key (JNumber v) | None => json end.

(** [json[key].get<uint64_t>()] throws on a member that is not a number, which terminates: [Undef]. *)
Definition read_json_config_member (json : J) (key : string) : result unit (option Z) :=
  match json_find json key with
  | Some (JNumber n) => Ok (Some n)
  | Some JObject => Undef
  | None => Ok None
  end.

Definition to_json (c : ChainConfig) : J :=
  let ret := json_set json_empty "chainId"%string (JNumber (config_chain_id c)) in
  let ret := match seal_engine c with
             | kEthash => json_set ret "ethash"%string JObject
             | kClique => json_set ret "clique"%string JObject
             | kAuRA => json_set ret "aura"%string JObject
             | kNoProof => ret
             end in
  let ret := foldl (fun ret p => member_to_json ret (fst p) (snd p)) ret (zip kJsonForkNames (fork_blocks c)) in
  let ret := member_to_json ret "muirGlacierBlock"%string (muir_glacier_block c) in
  member_to_json ret "daoForkBlock"%string (dao_block c).

Fixpoint read_forks (json : J) (names : list string) : result unit (list (option Z)) :=
  match names with
  | [] => Ok []
  | k :: names =>
      try b := read_json_config_member json k in
      try bs := read_forks json names in
      Ok (b :: bs)
  end.

(** [from_json]; [None] is the discarded value of a parse error. *)
Definition from_json (json : option J) : result unit (option ChainConfig) :=
  match json with
  | None => Ok None
  | Some json =>
      match json_find json "chainId"%string with
      | Some (JNumber id) =>
          let contains k := match json_find json k with Some _ => true | None => false end in
          let engine := if contains "ethash"%string then kEthash
                        else if contains "clique"%string then kClique
                        else if contains "aura"%string then kAuRA else kNoProof in
          try forks := read_forks json kJsonForkNames in
          try muir := read_json_config_member json "muirGlacierBlock"%string in
          try dao := read_json_config_member json "daoForkBlock"%string in
          Ok (Some (mkChainConfig id engine forks muir dao))
      | _ => Ok None
      end
  end.
End json.

(** ** Protocol parameters (protocol_param.hpp) *)

Definition kGSLoadTangerineWhistle : Z := 200.
Definition kGSLoadIstanbul : Z := 800.
Definition kWarmStorageReadCost : Z := 100.
Definition kColdSloadCost : Z := 2100.
Definition kAccessListStorageKeyCost : Z := 1900.
Definition kAccessListAddressCost : Z := 2400.
Definition kGSSet : Z := 20000.
Definition kGSReset : Z := 5000.
Definition kRSClear : Z := 15000.
Definition kRSelfDestruct : Z := 24000.
Definition kGCodeDeposit : Z := 200.
Definition kGTxCreate : Z := 32000.
Definition kGTxDataZero : Z := 4.
Definition kGTxDataNonZeroFrontier : Z := 68.
Definition kGTxDataNonZeroIstanbul : Z := 16.
Definition kGTransaction : Z := 21000.
Definition kMaxCodeSize : Z := 0x6000.
Definition kBlockRewardFrontier : Z := 5 * kEther.
Definition kBlockRewardByzantium : Z := 3 * kEther.
Definition kBlockRewardConstantinople : Z := 2 * kEther.
Definition kGQuadDivisorByzantium : Z := 20.
Definition kGQuadDivisorBerlin : Z := 3.
Definition kMaxRefundQuotientFrontier : Z := 2.
Definition kMaxRefundQuotientLondon : Z := 5.

(** ** Difficulty *)

Definition kMinDifficulty : Z := 0x20000.

(** [one << (n - 2)] on 256 bits is 0 from 256 on. *)
Definition difficulty_bomb (difficulty block_number : Z) : Z :=
  let n := block_number / 100000 in
  let difficulty := if 2 <=? n then u256 (difficulty + u256 (Z.shiftl 1 (n - 2))) else difficulty in
  if difficulty <? kMinDifficulty then kMinDifficulty else difficulty.

Definition canonical_difficulty_frontier (block_number block_timestamp parent_difficulty parent_timestamp : Z) : Z :=
  let x := Z.shiftr parent_difficulty 11 in
  let difficulty := if u64 (block_timestamp - parent_timestamp) <? 13 then u256 (parent_difficulty + x)
                    else u256 (parent_difficulty - x) in
  difficulty_bomb difficulty block_number.

Definition canonical_difficulty_homestead (block_number block_timestamp parent_difficulty parent_timestamp : Z) : Z :=
  let x := Z.shiftr parent_difficulty 11 in
  let difficulty := u256 (parent_difficulty - u256 (x * 99)) in
  let z := u64 (block_timestamp - parent_timestamp) / 10 in
  let difficulty := if z <? 100 then u256 (difficulty + u256 ((100 - z) * x)) else difficulty in
  difficulty_bomb difficulty block_number.

Definition canonical_difficulty_byzantium (block_number block_timestamp parent_difficulty parent_timestamp : Z)
    (parent_has_uncles : bool) (bomb_delay : Z) : Z :=
  let x := Z.shiftr parent_difficulty 11 in
  let difficulty := u256 (parent_difficulty - u256 (x * 99)) in
  let y := if parent_has_uncles then 2 else 1 in
  let z := u64 (block_timestamp - parent_timestamp) / 9 in
  let difficulty := if z <? 99 + y then u256 (difficulty + u256 ((99 + y - z) * x)) else difficulty in
  let block_number := if bomb_delay <? block_number then block_number - bomb_delay else 0 in
  difficulty_bomb difficulty block_number.

(** [muir_glacier_block && block_number >= muir_glacier_block] *)
Definition reached (block : option Z) (block_number : Z) : bool :=
  match block with Some b => b <=? block_number | None => false end.

Definition bomb_delay_of (config : ChainConfig) (rev block_number : Z) : Z :=
  if EVMC_LONDON <=? rev then 9700000
  else if reached (muir_glacier_block config) block_number then 9000000
  else if EVMC_CONSTANTINOPLE <=? rev then 5000000
  else 3000000.

Definition canonical_difficulty (block_number block_timestamp parent_difficulty parent_timestamp : Z)
    (parent_has_uncles : bool) (config : ChainConfig) : Z :=
  let rev := revision config block_number in
  if EVMC_BYZANTIUM <=? rev then
    canonical_difficulty_byzantium block_number block_timestamp parent_difficulty parent_timestamp
      parent_has_uncles (bomb_delay_of config rev block_number)
  else if EVMC_HOMESTEAD <=? rev then
    canonical_difficulty_homestead block_number block_timestamp parent_difficulty parent_timestamp
  else canonical_difficulty_frontier block_number block_timestamp parent_difficulty parent_timestamp.

(** ** Intrinsic gas *)

Definition count_nonzero (data : bytes) : Z := zlen (List.filter (fun c => negb (c =? 0)) data).

Definition intrinsic_gas (txn : Transaction) (homestead istanbul : bool) : Z :=
  let gas := kGTransaction in
  let gas := match txn_to txn with
             | None => if homestead then u128 (gas + kGTxCreate) else gas
             | Some _ => gas
             end in
  let gas := u128 (gas + u128 (zlen (access_list txn) * kAccessListAddressCost)) in
  let gas := foldl (fun gas e => u128 (gas + u128 (zlen (storage_keys e) * kAccessListStorageKeyCost)))
               gas (access_list txn) in
  match data txn with
  | [] => gas
  | _ =>
      let non_zero_bytes := count_nonzero (data txn) in
      let nonZeroGas := if istanbul then kGTxDataNonZeroIstanbul else kGTxDataNonZeroFrontier in
      let gas := u128 (gas + u128 (non_zero_bytes * nonZeroGas)) in
      let zero_bytes := u128 (zlen (data txn) - non_zero_bytes) in
      u128 (gas + u128 (zero_bytes * kGTxDataZero))
  end.

(** * Lemmas: configurations *)

Lemma revision_loop_range forks n block_number : 0 <= revision_loop forks n block_number <= Z.of_nat n.
Proof.
  induction n as [|i IH]; [by cbn|]. cbn [revision_loop]. destruct (nth i forks None) as [b|]; [|lia].
  destruct (b <=? block_number); lia.
Qed.

(** The revision is the last fork, in the order of the array, whose block has been reached. *)
Lemma revision_loop_spec forks n block_number r :
  revision_loop forks n block_number = r ->
  (r = 0 \/ exists b, nth (Z.to_nat (r - 1)) forks None = Some b /\ b <= block_number)
  /\ forall i b, r < Z.of_nat i + 1 <= Z.of_nat n -> nth i forks None = Some b -> block_number < b.
Proof.
  intros <-. induction n as [|n [IH1 IH2]]; [split; [by left|intros; lia]|]. cbn [revision_loop].
  destruct (nth n forks None) as [b|] eqn:E.
  - destruct (Z.leb_spec b block_number) as [Hb|Hb].
    + split; [|intros; lia]. right. exists b. by replace (Z.to_nat (Z.of_nat n + 1 - 1)) with n by lia.
    + split; [done|]. intros i b' Hi Hb'. destruct (Nat.eq_dec i n) as [->|]; [simplify_eq; lia|].
      apply (IH2 i); [lia|done].
  - split; [done|]. intros i b' Hi Hb'. destruct (Nat.eq_dec i n) as [->|]; [simplify_eq|].
    apply (IH2 i); [lia|done].
Qed.

Lemma revision_loop_mono forks n b1 b2 :
  b1 <= b2 -> revision_loop forks n b1 <= revision_loop forks n b2.
Proof.
  intros H. induction n as [|n IH]; [done|]. cbn [revision_loop].
  destruct (nth n forks None) as [b|]; [|done].
  destruct (Z.leb_spec b b1), (Z.leb_spec b b2); try lia.
  pose proof (revision_loop_range forks n b1). lia.
Qed.

Section json_lemmas.
Context {J : Type} `{JsonLaws J}.

Lemma find_member (j : J) k o k' :
  json_find (member_to_json j k o) k'
  = if decide (k = k') then match o with Some v => Some (JNumber v) | None => json_find j k' end
    else json_find j k'.
Proof.
  destruct o as [v|]; cbn; [|by destruct (decide (k = k'))].
  destruct (decide (k = k')) as [->|]; [apply find_set|by apply find_set_ne].
Qed.

Lemma find_set_eq (j : J) k v k' :
  json_find (json_set j k v) k' = if decide (k = k') then Some v else json_find j k'.
Proof. destruct (decide (k = k')) as [->|]; [apply find_set|by apply find_set_ne]. Qed.

Lemma read_number (j : J) k o :
  json_find j k = match o with Some v => Some (JNumber v) | None => None end ->
  read_json_config_member j k = Ok o.
Proof. intros E. unfold read_json_config_member. rewrite E. by destruct o. Qed.
End json_lemmas.

Lemma find_members {J} `{JsonLaws J} l (j : J) k :
  NoDup (map fst l) ->
  (k ∉ map fst l -> json_find (foldl (fun j p => member_to_json j (fst p) (snd p)) j l) k = json_find j k)
  /\ (forall o, (k, o) ∈ l -> json_find (foldl (fun j p => member_to_json j (fst p) (snd p)) j l) k
       = match o with Some v => Some (JNumber v) | None => json_find j k end).
Proof.
  revert j. induction l as [|[k0 o0] l IH]; intros j Hnd; [split; [done|set_solver]|].
  cbn [map fst foldl snd] in *. apply NoDup_cons in Hnd as [Hk0 Hnd].
  destruct (IH (member_to_json j k0 o0) Hnd) as [IH1 IH2]. split.
  - intros Hk. rewrite IH1 by set_solver. rewrite find_member, decide_False; [done|set_solver].
  - intros o Ho. apply elem_of_cons in Ho as [Ho|Ho].
    + injection Ho as -> ->. rewrite IH1 by done. by rewrite find_member, decide_True.
    + rewrite (IH2 o Ho). destruct o as [v|]; [done|]. rewrite find_member, decide_False; [done|].
      intros ->. apply Hk0. apply list_elem_of_In. apply list_elem_of_In in Ho. by apply (in_map fst) in Ho.
Qed.

Lemma read_forks_ok {J} `{Json J} (j : J) names forks :
  length names = length forks ->
  (forall k o, (k, o) ∈ zip names forks -> read_json_config_member j k = Ok o) ->
  read_forks j names = Ok forks.
Proof.
  revert forks. induction names as [|k names IH]; intros [|o forks] Hl Hr; try done. cbn [read_forks].
  rewrite (Hr k o) by (cbn; set_solver). cbn [result_bind].
  rewrite (IH forks); [done|by injection Hl|]. intros k' o' Hin. apply Hr. cbn. set_solver.
Qed.

(** Decides a closed proposition by evaluation. *)
Ltac decide_prop := refine (bool_decide_unpack _ _); vm_compute; exact I.

(** The members written after the chain id and the engine. *)
Definition members (c : ChainConfig) : list (string * option Z) :=
  zip kJsonForkNames (fork_blocks c)
  ++ [("muirGlacierBlock"%string, muir_glacier_block c); ("daoForkBlock"%string, dao_block c)].

Lemma members_keys c :
  length (fork_blocks c) = EVMC_MAX_REVISION ->
  map fst (members c) = kJsonForkNames ++ ["muirGlacierBlock"; "daoForkBlock"]%string.
Proof. intros Hl. unfold members. rewrite map_app. f_equal. apply fst_zip. by rewrite Hl. Qed.

Lemma from_to_json {J : Type} `{JsonLaws J} (c : ChainConfig) :
  length (fork_blocks c) = EVMC_MAX_REVISION -> from_json (Some (to_json (J := J) c)) = Ok (Some c).
Proof.
  intros Hl. pose proof (members_keys c Hl) as Hkeys.
  assert (NoDup (map fst (members c))) as Hnd by (rewrite Hkeys; decide_prop).
  unfold to_json. set (j0 := match seal_engine c with kNoProof => _ | _ => _ end).
  set (jf := member_to_json _ "daoForkBlock"%string _).
  assert (jf = foldl (fun j p => member_to_json j (fst p) (snd p)) j0 (members c)) as Ejf
    by (unfold members; by rewrite foldl_app).
  assert (forall k, k ∉ ["chainId"; "ethash"; "clique"; "aura"]%string -> json_find j0 k = None) as Hj0.
  { intros k Hk. subst j0. destruct (seal_engine c); rewrite ?find_set_ne by set_solver; apply find_empty. }
  assert (forall k o, (k, o) ∈ members c -> read_json_config_member jf k = Ok o) as Hread.
  { intros k o Hin. apply read_number. rewrite Ejf. destruct (find_members (members c) j0 k Hnd) as [_ Hf].
    rewrite (Hf o Hin). destruct o; [done|]. apply Hj0.
    assert (k ∈ map fst (members c)) as Hk
      by (apply list_elem_of_In; apply list_elem_of_In in Hin; by apply (in_map fst) in Hin).
    rewrite Hkeys in Hk. intros Hk'. clear -Hk Hk'.
    assert (Forall (fun k => k ∉ ["chainId"; "ethash"; "clique"; "aura"]%string)
      (kJsonForkNames ++ ["muirGlacierBlock"; "daoForkBlock"]%string)) as Hall by (decide_prop).
    rewrite Forall_forall in Hall. by apply (Hall k). }
  assert (forall k, k ∉ map fst (members c) -> json_find jf k = json_find j0 k) as Hother
    by (intros k Hk; rewrite Ejf; by apply find_members).
  rewrite Hkeys in Hother. clearbody jf. unfold from_json.
  rewrite !Hother by (decide_prop).
  assert (json_find j0 "chainId" = Some (JNumber (config_chain_id c))
    /\ json_find j0 "ethash" = (if decide (seal_engine c = kEthash) then Some JObject else None)
    /\ json_find j0 "clique" = (if decide (seal_engine c = kClique) then Some JObject else None)
    /\ json_find j0 "aura" = (if decide (seal_engine c = kAuRA) then Some JObject else None)) as (E1 & E2 & E3 & E4).
  { subst j0. destruct (seal_engine c); rewrite !find_set_eq, ?find_empty; done. }
  rewrite E1, E2, E3, E4, (read_forks_ok jf kJsonForkNames (fork_blocks c)).
  - cbn [result_bind]. rewrite (Hread _ (muir_glacier_block c)) by (unfold members; set_solver).
    cbn [result_bind]. rewrite (Hread _ (dao_block c)) by (unfold members; set_solver). cbn [result_bind].
    destruct c as [id engine forks muir dao]. cbn in *. by destruct engine.
  - by rewrite Hl.
  - intros k o Hin. apply Hread. unfold members. set_solver.
Qed.

(** * Lemmas: difficulty *)

(** The ice age: 2^(n - 2) for every full 100000 blocks from the second on. *)
Definition bomb (block_number : Z) : Z :=
  let n := block_number / 100000 in if 2 <=? n then 2 ^ (n - 2) else 0.

(** The difficulty of the Yellow Paper and the EIPs over unbounded integers: the parent's difficulty,
    adjusted by [adj] times its 2048th part, plus the bomb, and at least the minimum. *)
Definition reference_difficulty (parent_difficulty adj bomb : Z) : Z :=
  Z.max 131072 (parent_difficulty + parent_difficulty / 2048 * adj + bomb).

(** The adjustment factor: [dt] is the time since the parent. *)
Definition adjustment (rev dt : Z) (parent_has_uncles : bool) : Z :=
  if EVMC_BYZANTIUM <=? rev then Z.max ((if parent_has_uncles then 2 else 1) - dt / 9) (-99)
  else if EVMC_HOMESTEAD <=? rev then Z.max (1 - dt / 10) (-99)
  else if dt <? 13 then 1 else -1.

(** By how many blocks the EIPs put the ice age off, the last one in force counting: EIP-649 from Byzantium on,
    EIP-1234 from Constantinople on, EIP-2384 from the Muir Glacier block on, EIP-3554 from London on. *)
Definition eip_delays (config : ChainConfig) (n : Z) : list (bool * Z) :=
  let rev := revision config n in
  [(EVMC_BYZANTIUM <=? rev, 3000000);
   (EVMC_CONSTANTINOPLE <=? rev, 5000000);
   ((EVMC_BYZANTIUM <=? rev) && match muir_glacier_block config with Some m => m <=? n | None => false end, 9000000);
   (EVMC_LONDON <=? rev, 9700000)].
Definition ice_age_delay (config : ChainConfig) (n : Z) : Z :=
  foldl (fun delay x => if (fst x : bool) then snd x else delay) 0 (eip_delays config n).

Lemma ice_age_delay_eq config n :
  ice_age_delay config n = if EVMC_BYZANTIUM <=? revision config n then bomb_delay_of config (revision config n) n else 0.
Proof.
  unfold ice_age_delay, eip_delays, bomb_delay_of, reached, EVMC_LONDON, EVMC_CONSTANTINOPLE, EVMC_BYZANTIUM. cbn [foldl fst snd].
  generalize (revision config n) as rev. intros rev.
  destruct (Z.leb_spec 9 rev), (Z.leb_spec 5 rev), (Z.leb_spec 4 rev); try lia; cbn [andb]; try reflexivity.
  all: by destruct (muir_glacier_block config) as [m|]; [destruct (m <=? n)|].
Qed.

Lemma difficulty_bomb_min difficulty block_number : kMinDifficulty <= difficulty_bomb difficulty block_number.
Proof. unfold difficulty_bomb. case_match; [done|]. b2p. done. Qed.

Lemma bomb_range n : 0 <= n < 25600000 -> 0 <= bomb n < 2 ^ 254.
Proof.
  intros H. unfold bomb. assert (0 <= n / 100000 < 256).
  { split; [apply Z.div_pos; lia|apply Z.div_lt_upper_bound; lia]. }
  destruct (Z.leb_spec 2 (n / 100000)); [|done]. split; [apply Z.pow_nonneg; lia|].
  apply Z.pow_lt_mono_r; lia.
Qed.

Lemma difficulty_bomb_eq difficulty n :
  0 <= difficulty < 2 ^ 255 + 2 ^ 254 -> 0 <= n < 25600000 ->
  difficulty_bomb difficulty n = Z.max kMinDifficulty (difficulty + bomb n).
Proof.
  intros Hd Hn. pose proof (bomb_range n Hn) as Hb. unfold difficulty_bomb, bomb in *.
  destruct (Z.leb_spec 2 (n / 100000)).
  - rewrite Z.shiftl_1_l. change (2 ^ 255 + 2 ^ 254) with (2 ^ 256 - 2 ^ 254) in Hd.
    rewrite (u256_small (2 ^ _)) by lia. rewrite u256_small by lia. zif; lia.
  - rewrite Z.add_0_r. zif; lia.
Qed.

Lemma x_bounds pd : 0 <= pd < 2 ^ 255 ->
  Z.shiftr pd 11 = pd / 2048 /\ 0 <= pd / 2048 < 2 ^ 244 /\ 2048 * (pd / 2048) <= pd.
Proof.
  intros H. rewrite Z.shiftr_div_pow2 by lia. change (2 ^ 11) with 2048. split; [done|].
  split; [split; [apply Z.div_pos; lia|apply Z.div_lt_upper_bound; lia]|apply Z.mul_div_le; lia].
Qed.

Lemma adjust_down_up pd c z :
  0 <= pd < 2 ^ 255 -> 0 <= z -> 99 < c <= 102 ->
  (if z <? c then u256 (u256 (pd - u256 (pd / 2048 * 99)) + u256 ((c - z) * (pd / 2048)))
   else u256 (pd - u256 (pd / 2048 * 99)))
  = pd + pd / 2048 * Z.max (c - 99 - z) (-99)
  /\ 0 <= pd + pd / 2048 * Z.max (c - 99 - z) (-99) < 2 ^ 255 + 2 ^ 254.
Proof.
  intros Hpd Hz Hc. destruct (x_bounds pd Hpd) as (_ & Hx & H2048). set (x := pd / 2048) in *.
  rewrite (u256_small (x * 99)) by lia. rewrite (u256_small (pd - x * 99)) by lia.
  destruct (Z.ltb_spec z c).
  - assert (0 <= (c - z) * x <= 102 * x) by nia. rewrite (u256_small ((c - z) * x)) by lia.
    rewrite u256_small by lia. rewrite Z.max_l by lia.
    replace (x * (c - 99 - z)) with ((c - z) * x - x * 99) by ring. split; lia.
  - rewrite Z.max_r by lia. split; lia.
Qed.

Lemma canonical_difficulty_eq n ts pd pts uncles config :
  0 <= pts < ts -> ts < 2 ^ 64 -> 0 <= pd < 2 ^ 255 -> 0 <= n < 25600000 ->
  let rev := revision config n in
  let delay := if EVMC_BYZANTIUM <=? rev then bomb_delay_of config rev n else 0 in
  canonical_difficulty n ts pd pts uncles config
  = reference_difficulty pd (adjustment rev (ts - pts) uncles) (bomb (Z.max 0 (n - delay))).
Proof.
  intros Hts Hts' Hpd Hn rev delay. unfold canonical_difficulty, reference_difficulty, adjustment. fold rev.
  destruct (x_bounds pd Hpd) as (Ex & Hx & H2048).
  assert (u64 (ts - pts) = ts - pts) as Edt by (apply u64_small; lia).
  subst delay. destruct (Z.leb_spec EVMC_BYZANTIUM rev) as [Hb|Hb]; [|destruct (Z.leb_spec EVMC_HOMESTEAD rev) as [Hh|Hh]].
  - unfold canonical_difficulty_byzantium. rewrite Ex, Edt.
    assert (0 <= (ts - pts) / 9) by (apply Z.div_pos; lia).
    destruct (adjust_down_up pd (99 + (if uncles then 2 else 1)) ((ts - pts) / 9)) as [E Hr];
      [done|done|destruct uncles; lia|]. rewrite E.
    assert (0 < bomb_delay_of config rev n) by (unfold bomb_delay_of; repeat case_match; lia).
    replace (if bomb_delay_of config rev n <? n then n - bomb_delay_of config rev n else 0)
      with (Z.max 0 (n - bomb_delay_of config rev n)) by (zif; lia).
    rewrite difficulty_bomb_eq by (done || lia). do 4 f_equal. lia.
  - unfold canonical_difficulty_homestead. rewrite Ex, Edt.
    assert (0 <= (ts - pts) / 10) by (apply Z.div_pos; lia).
    destruct (adjust_down_up pd 100 ((ts - pts) / 10)) as [E Hr]; [done|done|lia|]. rewrite E.
    replace (Z.max 0 (n - 0)) with n by lia. rewrite difficulty_bomb_eq by (done || lia).
    do 4 f_equal.
  - unfold canonical_difficulty_frontier. rewrite Ex, Edt. replace (Z.max 0 (n - 0)) with n by lia.
    destruct (Z.ltb_spec (ts - pts) 13); rewrite (u256_small (_ + _)) || rewrite (u256_small (_ - _)); try lia;
      rewrite difficulty_bomb_eq by lia; do 2 f_equal; lia.
Qed.

(** * Lemmas: intrinsic gas *)

Lemma count_nonzero_range d : 0 <= count_nonzero d <= zlen d.
Proof.
  unfold count_nonzero. induction d as [|c d IH]; [done|]. cbn [List.filter length].
  destruct (negb (c =? 0)); cbn [length]; lia.
Qed.

(** The storage keys of all entries. *)
Definition total_keys (al : list AccessListEntry) : Z := foldr (fun e n => zlen (storage_keys e) + n) 0 al.

Lemma total_keys_nonneg al : 0 <= total_keys al.
Proof. unfold total_keys. induction al as [|e al IH]; cbn [foldr]; lia. Qed.

Lemma keys_gas gas al :
  0 <= gas -> gas + total_keys al * 1900 < 2 ^ 128 ->
  foldl (fun gas e => u128 (gas + u128 (zlen (storage_keys e) * kAccessListStorageKeyCost))) gas al
  = gas + total_keys al * 1900.
Proof.
  unfold kAccessListStorageKeyCost. revert gas.
  induction al as [|e al IH]; intros gas Hg Hb; [cbn; lia|].
  change (total_keys (e :: al)) with (zlen (storage_keys e) + total_keys al) in *. cbn [foldl]. pose proof (total_keys_nonneg al).
  unwrap. rewrite IH by lia. lia.
Qed.

(** The intrinsic gas as a sum over unbounded integers. *)
Definition reference_intrinsic_gas (txn : Transaction) (homestead istanbul : bool) : Z :=
  21000 + (if homestead && bool_decide (txn_to txn = None) then 32000 else 0)
  + 2400 * zlen (access_list txn) + 1900 * total_keys (access_list txn)
  + (if istanbul then 16 else 68) * count_nonzero (data txn) + 4 * (zlen (data txn) - count_nonzero (data txn)).

Lemma intrinsic_gas_eq txn homestead istanbul :
  zlen (access_list txn) < 2 ^ 64 -> total_keys (access_list txn) < 2 ^ 64 -> zlen (data txn) < 2 ^ 64 ->
  intrinsic_gas txn homestead istanbul = reference_intrinsic_gas txn homestead istanbul.
Proof.
  intros Ha Hk Hd. pose proof (total_keys_nonneg (access_list txn)). pose proof (count_nonzero_range (data txn)).
  unfold intrinsic_gas, reference_intrinsic_gas, kGTransaction, kGTxCreate, kAccessListAddressCost.
  set (base := match txn_to txn with None => _ | _ => _ end).
  assert (base = 21000 + (if homestead && bool_decide (txn_to txn = None) then 32000 else 0)) as ->.
  { subst base. destruct (txn_to txn); [by rewrite bool_decide_eq_false_2, andb_false_r|].
    rewrite bool_decide_eq_true_2, andb_true_r by done. by destruct homestead. }
  set (c := if homestead && _ then 32000 else 0). assert (0 <= c <= 32000) by (subst c; case_match; lia).
  rewrite (u128_small (zlen _ * 2400)) by lia. rewrite u128_small by lia.
  rewrite keys_gas by lia. destruct (data txn) as [|b d] eqn:E.
  { change (count_nonzero []) with 0. change (zlen (@nil Z)) with 0. lia. }
  rewrite <- E in *.
  unfold kGTxDataNonZeroIstanbul, kGTxDataNonZeroFrontier, kGTxDataZero.
  set (g := if istanbul then 16 else 68). assert (0 <= g <= 68) by (subst g; destruct istanbul; lia).
  assert (0 <= count_nonzero (data txn) * g <= 68 * 2 ^ 64) by nia.
  unwrap. lia.
Qed.

(** * Properties *)

(** The revision at a block is the latest one, in the order of [evmc_revision], whose fork
    block has been reached: that fork is at or below the block, every later one is above it or not
    scheduled; and revisions never decrease with the block number. *)
Theorem revision_correct (config : ChainConfig) (block_number later : Z) :
  block_number <= later ->
  (revision config block_number = EVMC_FRONTIER
   \/ exists b, nth (Z.to_nat (revision config block_number - 1)) (fork_blocks config) None = Some b /\ b <= block_number)
  /\ (forall i b, revision config block_number < Z.of_nat i + 1 <= 9 ->
      nth i (fork_blocks config) None = Some b -> block_number < b)
  /\ revision config block_number <= revision config later.
Proof.
  intros H. destruct (revision_loop_spec (fork_blocks config) EVMC_MAX_REVISION block_number _ eq_refl) as [H1 H2].
  split; [done|]. split; [done|]. by apply revision_loop_mono.
Qed.

Lemma revision_correct_witness :
  revision kMainnetConfig 4370000 <= revision kMainnetConfig 12244000.
Proof. apply (revision_correct kMainnetConfig 4370000 12244000). lia. Defined.

(** A chain configuration survives its JSON form: whatever object library is used (its members
    being independent), [from_json] reads back every fork block, scheduled or not, the seal engine and
    the chain id that [to_json] wrote. *)
Theorem config_json_roundtrip {J : Type} `{JsonLaws J} (c : ChainConfig) :
  length (fork_blocks c) = EVMC_MAX_REVISION -> from_json (Some (to_json (J := J) c)) = Ok (Some c).
Proof. apply from_to_json. Qed.

#[local] Instance gmap_json : Json (gmap string json_value) :=
  {| json_empty := ∅; json_set j k v := <[k := v]> j; json_find j k := j !! k |}.

#[local] Instance gmap_json_laws : JsonLaws (gmap string json_value).
Proof.
  split; intros; cbn; [apply lookup_empty|apply lookup_insert_eq|by apply lookup_insert_ne].
Qed.

Lemma config_json_roundtrip_witness :
  from_json (Some (to_json (J := gmap string json_value) kMainnetConfig)) = Ok (Some kMainnetConfig).
Proof. apply (config_json_roundtrip (J := gmap string json_value)). reflexivity. Defined.

(** C39: The canonical difficulty never falls below 131072; and for a timestamp after the parent's, a parent difficulty
    below 2^255 and a block below 25.6 million it is the formula of the Yellow Paper and EIP-100 over unbounded integers,
    no wrap-around of the 256-bit arithmetic shows, with the ice age put off by the blocks of the last of EIP-649 (3
    million), EIP-1234 (5 million), EIP-2384 (9 million) and EIP-3554 (9.7 million) in force. *)
Theorem canonical_difficulty_correct (n ts pd pts : Z) (uncles : bool) (config : ChainConfig) :
  0 <= pts < ts -> ts < 2 ^ 64 -> 0 <= pd < 2 ^ 255 -> 0 <= n < 25600000 ->
  canonical_difficulty n ts pd pts uncles config
  = reference_difficulty pd (adjustment (revision config n) (ts - pts) uncles) (bomb (Z.max 0 (n - ice_age_delay config n)))
  /\ 131072 <= canonical_difficulty n ts pd pts uncles config.
Proof.
  intros Hts Hts' Hpd Hn. split; [rewrite ice_age_delay_eq; by apply canonical_difficulty_eq|].
  unfold canonical_difficulty, canonical_difficulty_byzantium, canonical_difficulty_homestead,
    canonical_difficulty_frontier. repeat case_match; apply difficulty_bomb_min.
Qed.

(** The delays of the main chain, and one of a chain that has London. *)
Example main_chain_delays :
  map (ice_age_delay kMainnetConfig) [4369999; 4370000; 7280000; 9200000] = [0; 3000000; 5000000; 9000000]
  /\ ice_age_delay (mkChainConfig 1 kEthash (pad_forks [0; 0; 0; 0; 0; 0; 0; 0; 7]) (Some 3) None) 7 = 9700000.
Proof. split; reflexivity. Qed.

Lemma canonical_difficulty_correct_witness :
  canonical_difficulty 12000000 1615234816 5949437371609020 1615234801 true kMainnetConfig
  = reference_difficulty 5949437371609020 1 (bomb 3000000).
Proof.
  apply (canonical_difficulty_correct 12000000 1615234816 5949437371609020 1615234801 true kMainnetConfig); lia.
Defined.

Lemma intrinsic_gas_range txn homestead istanbul :
  zlen (access_list txn) < 2 ^ 64 -> total_keys (access_list txn) < 2 ^ 64 -> zlen (data txn) < 2 ^ 64 ->
  21000 <= intrinsic_gas txn homestead istanbul < 2 ^ 77.
Proof.
  intros Ha Hk Hd. rewrite intrinsic_gas_eq by done. unfold reference_intrinsic_gas.
  pose proof (total_keys_nonneg (access_list txn)). pose proof (count_nonzero_range (data txn)).
  destruct istanbul, (homestead && _); lia.
Qed.

(** The intrinsic gas is the sum the Yellow Paper and EIP-2930 prescribe, and the 128-bit
    accumulator never wraps for sizes that fit in memory. *)
Theorem intrinsic_gas_correct (txn : Transaction) (homestead istanbul : bool) :
  zlen (access_list txn) < 2 ^ 64 -> total_keys (access_list txn) < 2 ^ 64 -> zlen (data txn) < 2 ^ 64 ->
  intrinsic_gas txn homestead istanbul
  = 21000 + (if homestead && bool_decide (txn_to txn = None) then 32000 else 0)
    + 2400 * zlen (access_list txn) + 1900 * total_keys (access_list txn)
    + (if istanbul then 16 else 68) * count_nonzero (data txn)
    + 4 * (zlen (data txn) - count_nonzero (data txn))
  /\ 21000 <= intrinsic_gas txn homestead istanbul < 2 ^ 77.
Proof.
  intros Ha Hk Hd. split; [by apply intrinsic_gas_eq|by apply intrinsic_gas_range].
Qed.

Lemma intrinsic_gas_correct_witness :
  intrinsic_gas (mkTransaction None 0 0 0 None 0 [0; 1; 2] false None 0 0 [] None) true true = 53036.
Proof. apply (intrinsic_gas_correct (mkTransaction None 0 0 0 None 0 [0; 1; 2] false None 0 0 [] None) true true); cbn; lia. Defined.
