(* ===== verification/MemoryBuffer.v ===== *)
(** * MemoryBuffer: core/silkworm/state (buffer.hpp, memory_buffer.hpp, memory_buffer.cpp)

    The interface between the state of a block under execution and what is stored, and its in-memory
    implementation: accounts, code, storage, block data, and the change sets that undo a block. *)

From Stdlib Require Import Sorted.
From S2P Require Import Prelude Util Keccak Rlp Account Transaction Block HashBuilder TrieCorrect.
Local Open Scope Z_scope.
Local Open Scope silk_scope.

(** ** The interface [StateBuffer]

    Readers are [const noexcept]; a writer returns the changed buffer. *)
Class StateBuffer (B : Type) : Type := {
  read_account : B -> bytes -> option Account;
  read_code : B -> bytes -> bytes;
  read_storage : B -> bytes -> Z -> bytes -> bytes;
  previous_incarnation : B -> bytes -> Z;
  read_header : B -> Z -> bytes -> option BlockHeader;
  read_body : B -> Z -> bytes -> option BlockBody;
  total_difficulty : B -> Z -> bytes -> option Z;
  state_root_hash : B -> result unit bytes;
  current_canonical_block : B -> Z;
  canonical_hash : B -> Z -> option bytes;
  insert_block : Block -> bytes -> B -> B;
  canonize_block : Z -> bytes -> B -> B;
  decanonize_block : Z -> B -> B;
  insert_receipts : Z -> list Receipt -> B -> B;
  begin_block : Z -> B -> B;
  update_account : bytes -> option Account -> option Account -> B -> B;
  update_account_code : bytes -> Z -> bytes -> bytes -> B -> B;
  update_storage : bytes -> Z -> bytes -> bytes -> bytes -> B -> B;
  unwind_state_changes : Z -> B -> B
}.

(** ** Nested maps: address -> incarnation -> location -> value *)

Notation storage_map := (gmap bytes (gmap Z (gmap bytes bytes))).

Definition storage_lookup (m : storage_map) (address : bytes) (incarnation : Z) (location : bytes) : option bytes :=
  m1 ← m !! address; m2 ← m1 !! incarnation; m2 !! location.

(** [storage[address][incarnation]], creating what is missing, then a change of the innermost map. *)
Definition storage_alter (f : gmap bytes bytes -> gmap bytes bytes) (address : bytes) (incarnation : Z)
    (m : storage_map) : storage_map :=
  let m1 := default ∅ (m !! address) in
  <[address := <[incarnation := f (default ∅ (m1 !! incarnation))]> m1]> m.

(** Erase on zero, store otherwise: what both [update_storage] and the unwinding do. *)
Definition storage_write (address : bytes) (incarnation : Z) (location value : bytes) : storage_map -> storage_map :=
  storage_alter (if is_zero value then delete location else insert location value) address incarnation.

(** ** The in-memory buffer *)

Record MemoryBuffer : Type := mkMemoryBuffer {
  accounts : gmap bytes Account;
  code : gmap bytes bytes;
  prev_incarnations : gmap bytes Z;
  storage : storage_map;
  headers : list (gmap bytes BlockHeader);
  bodies : list (gmap bytes BlockBody);
  difficulties : list (gmap bytes Z);
  canonical_hashes : list bytes;
  account_changes : gmap Z (gmap bytes (option Account));
  storage_changes : gmap Z storage_map;
  buffer_block_number : Z
}.

Definition empty_buffer : MemoryBuffer := mkMemoryBuffer ∅ ∅ ∅ ∅ [] [] [] [] ∅ ∅ 0.

Definition mb_read_account (b : MemoryBuffer) (address : bytes) : option Account := accounts b !! address.

Definition mb_read_code (b : MemoryBuffer) (code_hash : bytes) : bytes := default [] (code b !! code_hash).

Definition mb_read_storage (b : MemoryBuffer) (address : bytes) (incarnation : Z) (location : bytes) : bytes :=
  default zero_bytes32 (storage_lookup (storage b) address incarnation location).

Definition mb_previous_incarnation (b : MemoryBuffer) (address : bytes) : Z :=
  default 0 (prev_incarnations b !! address).

(** [block_number >= v.size()] ? null : find(hash) *)
Definition block_lookup {A} (v : list (gmap bytes A)) (block_number : Z) (hash : bytes) : option A :=
  if zlen v <=? block_number then None else m ← v !! Z.to_nat block_number; m !! hash.

Definition mb_read_header (b : MemoryBuffer) := block_lookup (headers b).
Definition mb_read_body (b : MemoryBuffer) := block_lookup (bodies b).
Definition mb_total_difficulty (b : MemoryBuffer) := block_lookup (difficulties b).

(** [canonical_hashes_.size() - 1] on 64 bits. *)
Definition mb_current_canonical_block (b : MemoryBuffer) : Z := u64 (zlen (canonical_hashes b) - 1).

Definition mb_canonical_hash (b : MemoryBuffer) (block_number : Z) : option bytes :=
  if zlen (canonical_hashes b) <=? block_number then None
  else canonical_hashes b !! Z.to_nat block_number.

(** [std::vector::resize], and growing it up to an index. *)
Definition vector_resize {A} (d : A) (n : nat) (v : list A) : list A := take n v ++ replicate (n - length v) d.
Definition grow {A} (d : A) (block_number : Z) (v : list A) : list A :=
  if zlen v <=? block_number then vector_resize d (Z.to_nat block_number + 1) v else v.

Definition mb_insert_block (block : Block) (hash : bytes) (b : MemoryBuffer) : MemoryBuffer :=
  let block_number := number (header block) in
  let n := Z.to_nat block_number in
  let headers' := alter (<[hash := header block]>) n (grow ∅ block_number (headers b)) in
  let bodies' := alter (<[hash := body block]>) n (grow ∅ block_number (bodies b)) in
  let diff := grow ∅ block_number (difficulties b) in
  let parent_total :=
    if block_number =? 0 then 0
    else default 0 (m ← diff !! (n - 1)%nat; m !! parent_hash (header block)) in
  (* operator[] creates the parent's missing entry with a total difficulty of 0 *)
  let diff := if block_number =? 0 then diff
              else alter (<[parent_hash (header block) := parent_total]>) (n - 1)%nat diff in
  let diff := alter (<[hash := u256 (parent_total + difficulty (header block))]>) n diff in
  mkMemoryBuffer (accounts b) (code b) (prev_incarnations b) (storage b) headers' bodies' diff
    (canonical_hashes b) (account_changes b) (storage_changes b) (buffer_block_number b).

Definition with_canonical (b : MemoryBuffer) (hashes : list bytes) : MemoryBuffer :=
  mkMemoryBuffer (accounts b) (code b) (prev_incarnations b) (storage b) (headers b) (bodies b)
    (difficulties b) hashes (account_changes b) (storage_changes b) (buffer_block_number b).

Definition mb_canonize_block (block_number : Z) (block_hash : bytes) (b : MemoryBuffer) : MemoryBuffer :=
  with_canonical b (<[Z.to_nat block_number := block_hash]> (grow zero_bytes32 block_number (canonical_hashes b))).

Definition mb_decanonize_block (block_number : Z) (b : MemoryBuffer) : MemoryBuffer :=
  with_canonical b (vector_resize zero_bytes32 (Z.to_nat block_number) (canonical_hashes b)).

Definition mb_insert_receipts (block_number : Z) (receipts : list Receipt) (b : MemoryBuffer) : MemoryBuffer := b.

Definition mb_begin_block (block_number : Z) (b : MemoryBuffer) : MemoryBuffer :=
  mkMemoryBuffer (accounts b) (code b) (prev_incarnations b) (storage b) (headers b) (bodies b)
    (difficulties b) (canonical_hashes b) (delete block_number (account_changes b))
    (delete block_number (storage_changes b)) block_number.

Definition mb_update_account (address : bytes) (initial current : option Account) (b : MemoryBuffer) : MemoryBuffer :=
  let n := buffer_block_number b in
  let changes := <[n := <[address := initial]> (default ∅ (account_changes b !! n))]> (account_changes b) in
  let accounts' := match current with Some a => <[address := a]> (accounts b) | None => delete address (accounts b) end in
  let prev' := match current, initial with
               | None, Some i => <[address := incarnation i]> (prev_incarnations b)
               | _, _ => prev_incarnations b
               end in
  mkMemoryBuffer accounts' (code b) prev' (storage b) (headers b) (bodies b) (difficulties b)
    (canonical_hashes b) changes (storage_changes b) n.

Definition mb_update_account_code (address : bytes) (incarnation : Z) (code_hash new_code : bytes)
    (b : MemoryBuffer) : MemoryBuffer :=
  mkMemoryBuffer (accounts b) (<[code_hash := new_code]> (code b)) (prev_incarnations b) (storage b)
    (headers b) (bodies b) (difficulties b) (canonical_hashes b) (account_changes b) (storage_changes b)
    (buffer_block_number b).

Definition mb_update_storage (address : bytes) (incarnation : Z) (location initial current : bytes)
    (b : MemoryBuffer) : MemoryBuffer :=
  let n := buffer_block_number b in
  let changes := <[n := storage_alter (insert location initial) address incarnation
                          (default ∅ (storage_changes b !! n))]> (storage_changes b) in
  mkMemoryBuffer (accounts b) (code b) (prev_incarnations b)
    (storage_write address incarnation location current (storage b)) (headers b) (bodies b)
    (difficulties b) (canonical_hashes b) (account_changes b) changes n.

(** [for (const auto& [address, account] : account_changes_[block_number])] *)
Definition unwind_accounts (changes : gmap bytes (option Account)) (accs : gmap bytes Account) : gmap bytes Account :=
  map_fold (fun address account accs =>
    match account with Some a => <[address := a]> accs | None => delete address accs end) accs changes.

Definition unwind_storage (changes : storage_map) (st : storage_map) : storage_map :=
  map_fold (fun address storage1 st =>
    map_fold (fun incarnation storage2 st =>
      map_fold (fun location value st => storage_write address incarnation location value st) st storage2)
      st storage1) st changes.

Definition mb_unwind_state_changes (block_number : Z) (b : MemoryBuffer) : MemoryBuffer :=
  let changes := default ∅ (account_changes b !! block_number) in
  let schanges := default ∅ (storage_changes b !! block_number) in
  mkMemoryBuffer (unwind_accounts changes (accounts b)) (code b) (prev_incarnations b)
    (unwind_storage schanges (storage b)) (headers b) (bodies b) (difficulties b) (canonical_hashes b)
    (<[block_number := changes]> (account_changes b)) (<[block_number := schanges]> (storage_changes b))
    (buffer_block_number b).

Definition number_of_accounts (b : MemoryBuffer) : Z := Z.of_nat (size (accounts b)).

Definition storage_size (b : MemoryBuffer) (address : bytes) (incarnation : Z) : Z :=
  match (m1 ← storage b !! address; m1 !! incarnation) with
  | Some m => Z.of_nat (size m)
  | None => 0
  end.

(** ** Root hashes *)

(** [std::map<evmc::bytes32, Bytes>]: insertion into a list kept in key order. *)
Fixpoint ordered_insert (k v : bytes) (l : list (bytes * bytes)) : list (bytes * bytes) :=
  match l with
  | [] => [(k, v)]
  | (k', v') :: l' =>
      if bytes_ltb k k' then (k, v) :: l
      else if bytes_ltb k' k then (k', v') :: ordered_insert k v l'
      else (k, v) :: l'
  end.

Definition encode_storage_value (value : bytes) : bytes := encode_bytes (zeroless_view value).

Definition account_storage_root (b : MemoryBuffer) (address : bytes) (incarnation : Z) : result unit bytes :=
  match (m1 ← storage b !! address; m1 !! incarnation) with
  | None => Ok kEmptyRoot
  | Some m =>
      if (size m =? 0)%nat then Ok kEmptyRoot
      else
        let storage_rlp :=
          foldl (fun l p => ordered_insert (to_bytes32 (keccak256 (fst p))) (encode_storage_value (snd p)) l)
            [] (map_to_list m) in
        try hb := add_all (new_hash_builder false) storage_rlp in root_hash hb
  end.

(** The entries of the accounts' map; a failed storage root fails the whole. *)
Fixpoint account_rlps (b : MemoryBuffer) (l : list (bytes * Account)) (out : list (bytes * bytes))
  : result unit (list (bytes * bytes)) :=
  match l with
  | [] => Ok out
  | (address, account) :: l' =>
      try storage_root := account_storage_root b address (incarnation account) in
      account_rlps b l' (ordered_insert (to_bytes32 (keccak256 address)) (account_rlp account storage_root) out)
  end.

Definition mb_state_root_hash (b : MemoryBuffer) : result unit bytes :=
  if (size (accounts b) =? 0)%nat then Ok kEmptyRoot
  else
    try rlps := account_rlps b (map_to_list (accounts b)) [] in
    try hb := add_all (new_hash_builder false) rlps in root_hash hb.

#[export] Instance MemoryBuffer_StateBuffer : StateBuffer MemoryBuffer := {
  read_account := mb_read_account;
  read_code := mb_read_code;
  read_storage := mb_read_storage;
  previous_incarnation := mb_previous_incarnation;
  read_header := mb_read_header;
  read_body := mb_read_body;
  total_difficulty := mb_total_difficulty;
  state_root_hash := mb_state_root_hash;
  current_canonical_block := mb_current_canonical_block;
  canonical_hash := mb_canonical_hash;
  insert_block := mb_insert_block;
  canonize_block := mb_canonize_block;
  decanonize_block := mb_decanonize_block;
  insert_receipts := mb_insert_receipts;
  begin_block := mb_begin_block;
  update_account := mb_update_account;
  update_account_code := mb_update_account_code;
  update_storage := mb_update_storage;
  unwind_state_changes := mb_unwind_state_changes
}.

(** * Lemmas: nested maps *)

Lemma storage_lookup_alter f a i m a' i' l' :
  storage_lookup (storage_alter f a i m) a' i' l'
  = if decide (a = a' /\ i = i') then f (default ∅ (default ∅ (m !! a) !! i)) !! l' else storage_lookup m a' i' l'.
Proof.
  unfold storage_lookup, storage_alter. destruct (decide (a = a')) as [<-|Ha].
  - rewrite lookup_insert_eq. cbn. destruct (decide (i = i')) as [<-|Hi].
    + rewrite decide_True by done. by rewrite lookup_insert_eq.
    + rewrite decide_False by tauto. rewrite lookup_insert_ne by done. destruct (m !! a); cbn; [done|].
      by rewrite lookup_empty.
  - rewrite decide_False by tauto. by rewrite lookup_insert_ne.
Qed.

Lemma storage_lookup_default (m : storage_map) a i l :
  default ∅ (default ∅ (m !! a) !! i) !! l = storage_lookup m a i l.
Proof.
  unfold storage_lookup. destruct (m !! a) as [m1|]; cbn; [|by rewrite lookup_empty].
  destruct (m1 !! i); cbn; [done|]. apply lookup_empty.
Qed.

(** Zero is stored as absence. *)
Definition stored (value : bytes) : option bytes := if is_zero value then None else Some value.

Lemma storage_lookup_write a i l v m a' i' l' :
  storage_lookup (storage_write a i l v m) a' i' l'
  = if decide (a = a' /\ i = i' /\ l = l') then stored v else storage_lookup m a' i' l'.
Proof.
  unfold storage_write. rewrite storage_lookup_alter. unfold stored.
  destruct (decide (a = a' /\ i = i')) as [[<- <-]|Hn].
  - destruct (decide (l = l')) as [<-|Hl].
    + rewrite decide_True by done. destruct (is_zero v); [apply lookup_delete_eq|apply lookup_insert_eq].
    + rewrite decide_False by tauto. rewrite <- storage_lookup_default.
      destruct (is_zero v); [by apply lookup_delete_ne|by apply lookup_insert_ne].
  - rewrite decide_False by tauto. done.
Qed.

Lemma storage_lookup_insert a i l v m a' i' l' :
  storage_lookup (storage_alter (insert l v) a i m) a' i' l'
  = if decide (a = a' /\ i = i' /\ l = l') then Some v else storage_lookup m a' i' l'.
Proof.
  rewrite storage_lookup_alter. destruct (decide (a = a' /\ i = i')) as [[<- <-]|Hn].
  - destruct (decide (l = l')) as [<-|Hl].
    + rewrite decide_True by done. apply lookup_insert_eq.
    + rewrite decide_False by tauto. rewrite <- storage_lookup_default. by apply lookup_insert_ne.
  - rewrite decide_False by tauto. done.
Qed.

(** * Lemmas: unwinding *)

Lemma unwind_accounts_lookup ch accs a :
  unwind_accounts ch accs !! a = match ch !! a with Some o => o | None => accs !! a end.
Proof.
  unfold unwind_accounts.
  refine (map_fold_weak_ind (fun r m => r !! a = match m !! a with Some o => o | None => accs !! a end) _ _ _ _ ch).
  - by rewrite lookup_empty.
  - intros i x m r Hi IH. destruct (decide (i = a)) as [->|Hne].
    + rewrite lookup_insert_eq. destruct x; [apply lookup_insert_eq|apply lookup_delete_eq].
    + rewrite lookup_insert_ne by done. destruct x; [by rewrite lookup_insert_ne|by rewrite lookup_delete_ne].
Qed.

Lemma unwind_locations_lookup (a : bytes) (i : Z) (ch : gmap bytes bytes) (st : storage_map) a' i' l' :
  storage_lookup (map_fold (fun location value st => storage_write a i location value st) st ch) a' i' l'
  = if decide (a = a' /\ i = i') then match ch !! l' with Some v => stored v | None => storage_lookup st a' i' l' end
    else storage_lookup st a' i' l'.
Proof.
  refine (map_fold_weak_ind (fun r m => storage_lookup r a' i' l'
    = if decide (a = a' /\ i = i') then match m !! l' with Some v => stored v | None => storage_lookup st a' i' l' end
      else storage_lookup st a' i' l') _ _ _ _ ch).
  - rewrite lookup_empty. by case_decide.
  - intros l v m r Hl IH. rewrite storage_lookup_write, IH. destruct (decide (a = a' /\ i = i')) as [[-> ->]|Hn].
    + destruct (decide (l = l')) as [->|Hne]; [by rewrite decide_True, lookup_insert_eq|].
      rewrite decide_False by tauto. by rewrite lookup_insert_ne.
    + rewrite decide_False by tauto. done.
Qed.

Lemma unwind_incarnations_lookup (a : bytes) (ch : gmap Z (gmap bytes bytes)) (st : storage_map) a' i' l' :
  storage_lookup (map_fold (fun incarnation storage2 st =>
      map_fold (fun location value st => storage_write a incarnation location value st) st storage2) st ch) a' i' l'
  = if decide (a = a') then match (m ← ch !! i'; m !! l') with Some v => stored v | None => storage_lookup st a' i' l' end
    else storage_lookup st a' i' l'.
Proof.
  refine (map_fold_weak_ind (fun r ch => storage_lookup r a' i' l'
    = if decide (a = a') then match (m ← ch !! i'; m !! l') with Some v => stored v | None => storage_lookup st a' i' l' end
      else storage_lookup st a' i' l') _ _ _ _ ch).
  - rewrite lookup_empty. by case_decide.
  - intros i m2 m r Hi IH. rewrite unwind_locations_lookup, IH. destruct (decide (a = a')) as [->|Hn].
    + destruct (decide (i = i')) as [->|Hne].
      * rewrite decide_True, lookup_insert_eq by done. cbn. destruct (m2 !! l'); [done|]. by rewrite Hi.
      * rewrite decide_False by tauto. by rewrite lookup_insert_ne.
    + rewrite decide_False by tauto. done.
Qed.

Lemma storage_lookup_insert_outer (a : bytes) (m1 : gmap Z (gmap bytes bytes)) (m : storage_map) a' i l :
  storage_lookup (<[a := m1]> m) a' i l
  = if decide (a = a') then (m2 ← m1 !! i; m2 !! l) else storage_lookup m a' i l.
Proof.
  unfold storage_lookup. destruct (decide (a = a')) as [->|Hne]; [by rewrite lookup_insert_eq|].
  by rewrite lookup_insert_ne.
Qed.

Lemma unwind_storage_lookup ch st a i l :
  storage_lookup (unwind_storage ch st) a i l
  = match storage_lookup ch a i l with Some v => stored v | None => storage_lookup st a i l end.
Proof.
  unfold unwind_storage.
  refine (map_fold_weak_ind (fun r ch => storage_lookup r a i l
    = match storage_lookup ch a i l with Some v => stored v | None => storage_lookup st a i l end) _ _ _ _ ch).
  - unfold storage_lookup at 2. by rewrite lookup_empty.
  - intros a0 m1 m r Ha IH. rewrite unwind_incarnations_lookup, IH, storage_lookup_insert_outer.
    destruct (decide (a0 = a)) as [->|Hne]; [|done].
    destruct (m2 ← m1 !! i; m2 !! l) as [v|]; [done|]. unfold storage_lookup. by rewrite Ha.
Qed.

(** ** The writes of one block *)

Inductive write : Type :=
| WAccount (address : bytes) (initial current : option Account)
| WCode (address : bytes) (incarnation : Z) (code_hash code : bytes)
| WStorage (address : bytes) (incarnation : Z) (location initial current : bytes).

Definition apply_write {B} `{StateBuffer B} (b : B) (w : write) : B :=
  match w with
  | WAccount a i c => update_account a i c b
  | WCode a i h c => update_account_code a i h c b
  | WStorage a i l v c => update_storage a i l v c b
  end.

(** The values given as initial are the stored ones. *)
Definition initial_ok (b : MemoryBuffer) (w : write) : Prop :=
  match w with
  | WAccount a i _ => i = read_account b a
  | WCode _ _ _ _ => True
  | WStorage a i l v _ => v = read_storage b a i l
  end.

(** Every stored word has 32 bytes. *)
Definition words_ok (b : MemoryBuffer) : Prop :=
  forall a i l v, storage_lookup (storage b) a i l = Some v -> length v = 32%nat.

(** What the change sets of block [n] know during its execution: entries give the values of [b0], and
    what they do not mention is unchanged. *)
Definition undoes (n : Z) (b0 b : MemoryBuffer) : Prop :=
  buffer_block_number b = n
  /\ (forall a, match default ∅ (account_changes b !! n) !! a with
                | Some o => o = accounts b0 !! a
                | None => accounts b !! a = accounts b0 !! a
                end)
  /\ (forall a i l, match storage_lookup (default ∅ (storage_changes b !! n)) a i l with
                    | Some v => v = mb_read_storage b0 a i l
                    | None => storage_lookup (storage b) a i l = storage_lookup (storage b0) a i l
                    end).

Lemma begin_undoes n b : undoes n b (begin_block n b).
Proof.
  split; [done|]. cbn. unfold mb_begin_block. cbn. rewrite !lookup_delete_eq. cbn.
  split; intros; [by rewrite lookup_empty|]. unfold storage_lookup at 1. by rewrite lookup_empty.
Qed.

Lemma write_undoes n b0 b w : undoes n b0 b -> initial_ok b0 w -> undoes n b0 (apply_write b w).
Proof.
  intros (Hn & Ha & Hs) Hw. destruct w as [a i c|a i h c|a i l v c]; cbn in Hw |- *; [| |].
  - split; [done|]. unfold mb_update_account. cbn. rewrite Hn, lookup_insert_eq. cbn. split; [|done].
    intros a'. specialize (Ha a'). destruct (decide (a = a')) as [->|Hne].
    + rewrite lookup_insert_eq. by subst.
    + rewrite lookup_insert_ne by done. case_match; [done|]. rewrite <- Ha.
      destruct c; [by rewrite lookup_insert_ne|by rewrite lookup_delete_ne].
  - split; [done|]. by split.
  - split; [done|]. unfold mb_update_storage. cbn. rewrite Hn, lookup_insert_eq. cbn. split; [done|].
    intros a' i' l'. specialize (Hs a' i' l'). rewrite storage_lookup_insert, storage_lookup_write.
    destruct (decide (a = a' /\ i = i' /\ l = l')) as [(-> & -> & ->)|Hne]; done.
Qed.

Lemma writes_undoes n b0 b ws : undoes n b0 b -> Forall (initial_ok b0) ws -> undoes n b0 (foldl apply_write b ws).
Proof.
  intros Hu Hw. revert b Hu. induction Hw as [|w ws Hw Hws IH]; intros b Hu; [done|]. cbn [foldl].
  by apply IH, write_undoes.
Qed.

Lemma is_zero_word v : length v = 32%nat -> is_zero v = true -> v = zero_bytes32.
Proof. intros Hl Hz. apply is_zero_spec in Hz. by rewrite Hl in Hz. Qed.

Lemma undoes_unwind n b0 b :
  words_ok b0 -> undoes n b0 b ->
  (forall a, read_account (unwind_state_changes n b) a = read_account b0 a)
  /\ (forall a i l, read_storage (unwind_state_changes n b) a i l = read_storage b0 a i l).
Proof.
  intros Hok (_ & Ha & Hs). split.
  - intros a. specialize (Ha a). cbn. unfold mb_read_account. cbn. rewrite unwind_accounts_lookup.
    by case_match; subst.
  - intros a i l. specialize (Hs a i l). cbn. unfold mb_read_storage at 1. cbn. rewrite unwind_storage_lookup.
    destruct (storage_lookup (default ∅ (storage_changes b !! n)) a i l) as [v|].
    + rewrite Hs. unfold stored, mb_read_storage. destruct (is_zero _) eqn:Ez; [|done]. cbn.
      destruct (storage_lookup (storage b0) a i l) as [v0|] eqn:Ev; [|done]. cbn in *.
      symmetry. apply is_zero_word; [by apply (Hok a i l)|done].
    + by rewrite Hs.
Qed.

(** * Lemmas: root hashes *)

Definition key32 (e : bytes * bytes) : Prop := length (fst e) = 32%nat.

Lemma same_length_before a b : length a = length b -> bytes_ltb a b = true -> key_before a b = true.
Proof.
  intros Hl Hlt. unfold key_before. rewrite Hlt. cbn [andb]. apply negb_true_iff.
  unfold has_prefix, bytes_eqb. apply bool_decide_eq_false. rewrite Hl, take_ge by done.
  intros ->. by rewrite bytes_ltb_irrefl in Hlt.
Qed.

Notation in_key_order l := (Sorted (fun a b : bytes * bytes => key_before (fst a) (fst b) = true) l).

Lemma ordered_insert_hd x k v l :
  HdRel (fun a b : bytes * bytes => key_before (fst a) (fst b) = true) x l ->
  key_before (fst x) k = true ->
  HdRel (fun a b : bytes * bytes => key_before (fst a) (fst b) = true) x (ordered_insert k v l).
Proof.
  intros H Hk. destruct l as [|[k' v'] l]; cbn [ordered_insert]; [by constructor|].
  inversion_clear H as [|? ? H']. destruct (bytes_ltb k k'); [by constructor|].
  destruct (bytes_ltb k' k); by constructor.
Qed.

Lemma ordered_insert_sorted k v l :
  length k = 32%nat -> Forall key32 l -> in_key_order l -> in_key_order (ordered_insert k v l).
Proof.
  intros Hk Hl Hs. induction Hs as [|[k' v'] l Hs IH Hhd]; cbn [ordered_insert]; [by repeat constructor|].
  apply Forall_cons in Hl as [Hk' Hl]. unfold key32 in Hk'. cbn [fst] in Hk'.
  destruct (bytes_ltb k k') eqn:E1.
  - constructor; [by constructor|]. constructor. apply same_length_before; cbn [fst]; [lia|done].
  - destruct (bytes_ltb k' k) eqn:E2.
    + constructor; [by apply IH|]. apply ordered_insert_hd; [done|]. apply same_length_before; cbn [fst]; [lia|done].
    + assert (k = k') as -> by by apply bytes_ltb_total. constructor; [done|]. inversion Hhd; by constructor.
Qed.

Lemma ordered_insert_in k v l e : In e (ordered_insert k v l) -> e = (k, v) \/ In e l.
Proof.
  induction l as [|[k' v'] l IH]; cbn [ordered_insert].
  - intros [->|[]]; by left.
  - destruct (bytes_ltb k k'); [intros [->|H]; [by left|by right]|].
    destruct (bytes_ltb k' k); [intros [->|H]; [right; by left|]|intros [->|H]; [by left|right; by right]].
    apply IH in H as [->|H]; [by left|right; by right].
Qed.

Lemma ordered_insert_keys k v l : In k (map fst (ordered_insert k v l))
  /\ forall k', In k' (map fst l) -> In k' (map fst (ordered_insert k v l)).
Proof.
  induction l as [|[k0 v0] l [IH1 IH2]]; cbn [ordered_insert]; [split; [by left|done]|].
  destruct (bytes_ltb k k0) eqn:E1; [split; [by left|intros k' H; by right]|].
  destruct (bytes_ltb k0 k) eqn:E2.
  - split; [by right|]. intros k' [<-|H]; [by left|right; by apply IH2].
  - assert (k = k0) as -> by by apply bytes_ltb_total. split; [by left|done].
Qed.

Lemma ordered_insert_forall (P : bytes * bytes -> Prop) k v l :
  P (k, v) -> Forall P l -> Forall P (ordered_insert k v l).
Proof.
  intros Hp Hl. apply List.Forall_forall. intros e He. apply ordered_insert_in in He as [->|He]; [done|].
  rewrite List.Forall_forall in Hl. by apply Hl.
Qed.

(** Every account and every stored word is in range. *)
Record wf_buffer (b : MemoryBuffer) : Prop := {
  wf_accounts : forall a acc, accounts b !! a = Some acc -> wf_account acc;
  wf_words : forall a i l v, storage_lookup (storage b) a i l = Some v -> wf_fixed 32 v
}.

Lemma zeroless_storage_ok v : wf_fixed 32 v -> bytes_ok (encode_storage_value v) /\ zlen (encode_storage_value v) <= 41.
Proof.
  intros [Hok Hl]. unfold encode_storage_value. pose proof (zeroless_view_length v).
  split; [apply encode_bytes_ok, zeroless_view_ok, Hok|].
  pose proof (length_encode_bytes (zeroless_view v) ltac:(lia)). lia.
Qed.

Lemma to_bytes32_keccak x : to_bytes32 (keccak256 x) = keccak256 x.
Proof. apply to_bytes32_full, length_keccak256. Qed.

Lemma hashed_packed_ok x v : bytes_ok v -> zlen v < 2 ^ 61 -> packed_ok (keccak256 x, v).
Proof.
  intros Hv Hl. split; cbn [fst snd].
  - intros E. apply (f_equal length) in E. rewrite length_keccak256 in E. done.
  - rewrite length_keccak256. split; [apply keccak256_ok|done].
Qed.

Lemma storage_entries_ok (m : list (bytes * bytes)) l :
  Forall (fun p => wf_fixed 32 (snd p)) m -> Forall packed_ok l -> Forall key32 l -> in_key_order l ->
  let l' := foldl (fun l p => ordered_insert (to_bytes32 (keccak256 (fst p))) (encode_storage_value (snd p)) l) l m in
  Forall packed_ok l' /\ in_key_order l'.
Proof.
  revert l. induction m as [|p m IH]; intros l Hm Hp Hk Hs; [done|]. apply Forall_cons in Hm as [Hw Hm].
  cbn [foldl]. destruct (zeroless_storage_ok _ Hw). rewrite to_bytes32_keccak. apply IH; [done| | |].
  - apply ordered_insert_forall; [|done]. apply hashed_packed_ok; [done|lia].
  - apply ordered_insert_forall; [|done]. apply length_keccak256.
  - apply ordered_insert_sorted; [apply length_keccak256|done|done].
Qed.

(** What the entries are: one for each word, under the hash of its location. *)
Lemma storage_entries_from (m : list (bytes * bytes)) (P : bytes * bytes -> Prop) : forall l,
  let entry p := (keccak256 (fst p), encode_bytes (zeroless_view (snd p))) in
  (forall p, In p m -> P (entry p)) -> Forall P l ->
  let l' := foldl (fun l p => ordered_insert (to_bytes32 (keccak256 (fst p))) (encode_storage_value (snd p)) l) l m in
  Forall P l' /\ (forall p, In p m -> In (keccak256 (fst p)) (map fst l')) /\ (forall k, In k (map fst l) -> In k (map fst l')).
Proof.
  cbv zeta. induction m as [|p m IH]; intros l Hm Hl; [by split; [|split]|]. cbn [foldl]. rewrite to_bytes32_keccak.
  destruct (ordered_insert_keys (keccak256 (fst p)) (encode_storage_value (snd p)) l) as [K1 K2].
  destruct (IH (ordered_insert (keccak256 (fst p)) (encode_storage_value (snd p)) l)) as (H1 & H2 & H3).
  - intros q Hq. apply Hm. by right.
  - apply ordered_insert_forall; [|done]. apply Hm. by left.
  - split; [done|]. split; [|intros k Hk; by apply H3, K2]. intros q [->|Hq]; [by apply H3|by apply H2].
Qed.

Lemma length_trie_root es : length (trie_root es) = 32%nat.
Proof. unfold trie_root. destruct es; [done|apply length_keccak256]. Qed.

Lemma trie_root_ok es : bytes_ok (trie_root es).
Proof. unfold trie_root. destruct es; [apply to_be_ok|apply keccak256_ok]. Qed.

(** The entries of the storage trie of an account: its words, without leading zeros, under the hashes of their
    locations. *)
Record storage_entries (b : MemoryBuffer) (a : bytes) (i : Z) (es : list (bytes * bytes)) : Prop := {
  se_order : in_key_order es;
  se_words e : In e es -> exists l v, storage_lookup (storage b) a i l = Some v /\ e = (keccak256 l, encode_bytes (zeroless_view v));
  se_all l v : storage_lookup (storage b) a i l = Some v -> In (keccak256 l) (map fst es)
}.

Lemma account_storage_root_ok b a i :
  wf_buffer b -> exists es, account_storage_root b a i = Ok (trie_root (map unpack_entry es)) /\ storage_entries b a i es.
Proof.
  intros Hw. unfold account_storage_root.
  assert (forall l, storage_lookup (storage b) a i l = (m ← (m1 ← storage b !! a; m1 !! i); m !! l)) as Hl
    by (intros l; unfold storage_lookup; by destruct (storage b !! a)).
  destruct (m1 ← storage b !! a; m1 !! i) as [m|] eqn:E.
  2:{ exists []. split; [done|]. split; [constructor|done|]. intros l v. by rewrite Hl. }
  destruct (Nat.eqb_spec (size m) 0) as [E0|_].
  { exists []. split; [done|]. split; [constructor|done|]. intros l v. rewrite Hl. apply map_size_empty_inv in E0. by subst m. }
  assert (forall l v, In (l, v) (map_to_list m) <-> storage_lookup (storage b) a i l = Some v) as Hin
    by (intros l v; rewrite <- list_elem_of_In, elem_of_map_to_list, Hl; done).
  assert (Forall (fun p => wf_fixed 32 (snd p)) (map_to_list m)) as Hm
    by (apply List.Forall_forall; intros [l v] Hlv%Hin; by apply (wf_words b Hw a i l v)).
  destruct (storage_entries_ok (map_to_list m) [] Hm) as [Hp Hs]; [constructor|constructor|constructor|].
  destruct (storage_entries_from (map_to_list m)
    (fun e => exists l v, storage_lookup (storage b) a i l = Some v /\ e = (keccak256 l, encode_bytes (zeroless_view v))) []) as (Hf & Hk & _);
    [intros [l v] Hlv%Hin; by exists l, v|constructor|].
  eexists. split; [by apply (root_of_correct _ Hp Hs)|]. split; [done|by apply List.Forall_forall|].
  intros l v Hlv%Hin. apply (Hk (l, v) Hlv).
Qed.

Lemma encode_u64_ok n : wf_u64 n -> bytes_ok (encode_u64 n).
Proof. intros H. rewrite encode_u64_bytes by done. apply encode_bytes_ok, to_be_ok. Qed.

Lemma encode_u256_ok n : wf_u256 n -> bytes_ok (encode_u256 n).
Proof. intros H. rewrite encode_u256_bytes by done. apply encode_bytes_ok, to_be_ok. Qed.

Lemma account_rlp_ok a root :
  wf_account a -> wf_fixed 32 root ->
  account_rlp a root
  = encode_list (encode_u64 (nonce a) ++ encode_u256 (balance a) ++ encode_fixed 32 root
                 ++ encode_fixed 32 (code_hash a))
  /\ bytes_ok (account_rlp a root) /\ zlen (account_rlp a root) < 2 ^ 61.
Proof.
  intros [Hn Hb [Hc Hcl] _] [Hr Hrl].
  destruct (length_encode_u64 _ Hn) as [En Rn]. destruct (length_encode_u256 _ Hb) as [Eb Rb].
  assert (zlen (encode_u64 (nonce a) ++ encode_u256 (balance a) ++ encode_fixed 32 root
    ++ encode_fixed 32 (code_hash a))
    = length_u64 (nonce a) + length_u256 (balance a) + (Z.of_nat kHashLength + 1) + (Z.of_nat kHashLength + 1)) as El.
  { rewrite !zlen_app, !(length_encode_fixed 32) by done. unfold kHashLength. lia. }
  assert (account_rlp a root
    = encode_list (encode_u64 (nonce a) ++ encode_u256 (balance a) ++ encode_fixed 32 root
                   ++ encode_fixed 32 (code_hash a))) as E.
  { unfold account_rlp, encode_list. by rewrite El. }
  split; [exact E|]. unfold kHashLength in El. split.
  - unfold account_rlp. assert (forall l, bytes_ok l -> bytes_ok (encode_fixed 32 l)) as Hf.
    { intros l Hl. unfold encode_fixed. constructor; [apply u8_range|done]. }
    rewrite !Forall_app. split_and!; auto using encode_u64_ok, encode_u256_ok, encode_header_ok.
  - rewrite E, length_encode_list by lia.
    rewrite El. set (n := _ + _ + _ + _) in *.
    pose proof (length_of_length_range n ltac:(lia)). lia.
Qed.

(** One entry per account: its hashed address and its RLP with its storage root. *)
Definition account_entry_of (b : MemoryBuffer) (e : bytes * bytes) : Prop :=
  exists a acc root, accounts b !! a = Some acc /\ account_storage_root b a (incarnation acc) = Ok root
    /\ e = (keccak256 a, account_rlp acc root).

Lemma account_rlps_ok b l out :
  wf_buffer b -> (forall a acc, In (a, acc) l -> accounts b !! a = Some acc) ->
  Forall packed_ok out -> Forall key32 out -> in_key_order out -> Forall (account_entry_of b) out ->
  exists es, account_rlps b l out = Ok es /\ Forall packed_ok es /\ in_key_order es
    /\ Forall (account_entry_of b) es
    /\ (forall a acc, In (a, acc) l -> In (keccak256 a) (map fst es))
    /\ (forall k, In k (map fst out) -> In k (map fst es)).
Proof.
  intros Hw. revert out. induction l as [|[a acc] l IH]; intros out Hl Hp Hk Hs He.
  - exists out. cbn. split_and!; try done.
  - cbn [account_rlps]. destruct (account_storage_root_ok b a (incarnation acc) Hw) as (es0 & Er & _).
    rewrite Er. cbn [result_bind]. rewrite to_bytes32_keccak.
    pose proof (Hl a acc ltac:(by left)) as Ha.
    destruct (account_rlp_ok acc (trie_root (map unpack_entry es0)) (wf_accounts b Hw a acc Ha)) as (_ & Hb & Hlen).
    { split; [apply trie_root_ok|apply length_trie_root]. }
    destruct (IH (ordered_insert (keccak256 a) (account_rlp acc (trie_root (map unpack_entry es0))) out))
      as (es & E & H1 & H2 & H3 & H4 & H5).
    + intros a' acc' Hin. apply Hl. by right.
    + apply ordered_insert_forall; [|done]. by apply hashed_packed_ok.
    + apply ordered_insert_forall; [|done]. apply length_keccak256.
    + apply ordered_insert_sorted; [apply length_keccak256|done|done].
    + apply ordered_insert_forall; [|done]. by exists a, acc, (trie_root (map unpack_entry es0)).
    + destruct (ordered_insert_keys (keccak256 a) (account_rlp acc (trie_root (map unpack_entry es0))) out) as [K1 K2].
      exists es. split_and!; try done.
      * intros a' acc' [[= -> ->]|Hin]; [by apply H5|by apply (H4 a' acc')].
      * intros k Hin. by apply H5, K2.
Qed.

Lemma state_root_ok b :
  wf_buffer b -> exists es, mb_state_root_hash b = Ok (trie_root (map unpack_entry es))
    /\ in_key_order es /\ Forall (account_entry_of b) es
    /\ (forall a, accounts b !! a <> None -> In (keccak256 a) (map fst es)).
Proof.
  intros Hw. unfold mb_state_root_hash. destruct (Nat.eqb_spec (size (accounts b)) 0) as [E|E].
  - exists []. split_and!; try done; try constructor. intros a Ha. apply map_size_empty_inv in E. by rewrite E in Ha.
  - destruct (account_rlps_ok b (map_to_list (accounts b)) [] Hw) as (es & Er & H1 & H2 & H3 & H4 & _);
      try constructor.
    + intros a acc Hin. apply elem_of_map_to_list. by apply list_elem_of_In.
    + exists es. rewrite Er. cbn [result_bind]. split; [by apply (root_of_correct _ H1 H2)|].
      split; [done|]. split; [done|]. intros a Ha. destruct (accounts b !! a) as [acc|] eqn:Ea; [|done].
      apply (H4 a acc). apply list_elem_of_In. by apply elem_of_map_to_list.
Qed.

(** * Lemmas: blocks *)

Lemma length_vector_resize {A} (d : A) n v : length (vector_resize d n v) = n.
Proof. unfold vector_resize. rewrite length_app, length_take, length_replicate. lia. Qed.

Lemma grow_length {A} (d : A) n v : 0 <= n -> (Z.to_nat n < length (grow d n v))%nat.
Proof. intros H. unfold grow. zif; [rewrite length_vector_resize; lia|lia]. Qed.

Lemma grow_lookup {A} (d : A) n v i x : v !! i = Some x -> grow d n v !! i = Some x.
Proof.
  intros H. unfold grow. zif; [|done]. unfold vector_resize. pose proof (lookup_lt_Some _ _ _ H).
  rewrite lookup_app_l by (rewrite length_take; lia). by rewrite lookup_take_lt by lia.
Qed.

Lemma block_lookup_eq {A} (v : list (gmap bytes A)) n h :
  0 <= n -> block_lookup v n h = (m ← v !! Z.to_nat n; m !! h).
Proof.
  intros Hn. unfold block_lookup. zif; [|done]. rewrite lookup_ge_None_2 by lia. done.
Qed.

Lemma block_lookup_insert {A} (v : list (gmap bytes A)) n h x :
  0 <= n -> block_lookup (alter (<[h := x]>) (Z.to_nat n) (grow ∅ n v)) n h = Some x.
Proof.
  intros Hn. rewrite block_lookup_eq, list_lookup_alter_eq by done.
  destruct (lookup_lt_is_Some_2 (grow ∅ n v) (Z.to_nat n) (grow_length _ _ _ Hn)) as [m ->].
  cbn. apply lookup_insert_eq.
Qed.

Lemma block_lookup_insert_other {A} (v : list (gmap bytes A)) n h x n' h' y :
  0 <= n -> 0 <= n' -> (n, h) <> (n', h') -> block_lookup v n' h' = Some y ->
  block_lookup (alter (<[h := x]>) (Z.to_nat n) (grow ∅ n v)) n' h' = Some y.
Proof.
  intros Hn Hn' Hne. rewrite !block_lookup_eq by done. destruct (v !! Z.to_nat n') as [m|] eqn:Em; [|done].
  cbn. intros Hy. destruct (decide (n = n')) as [->|Hnn].
  - rewrite list_lookup_alter_eq, (grow_lookup _ _ _ _ _ Em). cbn. by rewrite lookup_insert_ne by congruence.
  - rewrite list_lookup_alter_ne by lia. by rewrite (grow_lookup _ _ _ _ _ Em).
Qed.

Lemma canonical_hash_canonize n h b : 0 <= n -> mb_canonical_hash (mb_canonize_block n h b) n = Some h.
Proof.
  intros Hn. unfold mb_canonical_hash, mb_canonize_block, with_canonical. cbn [canonical_hashes].
  pose proof (grow_length zero_bytes32 n (canonical_hashes b) Hn) as Hg. rewrite length_insert.
  destruct (Z.leb_spec (zlen (grow zero_bytes32 n (canonical_hashes b))) n); [lia|]. by apply list_lookup_insert_eq.
Qed.

Lemma canonical_hash_decanonize n b : 0 <= n -> mb_canonical_hash (mb_decanonize_block n b) n = None.
Proof.
  intros Hn. unfold mb_canonical_hash, mb_decanonize_block, with_canonical. cbn [canonical_hashes].
  rewrite length_vector_resize. by destruct (Z.leb_spec (Z.of_nat (Z.to_nat n)) n); [|lia].
Qed.

(** * Properties *)

(** Unwinding undoes a block. Whatever accounts, code and storage a block writes, if it was begun
    with [begin_block] and every write names as initial the value stored before the block, then
    [unwind_state_changes] of that block restores every account and every storage word: repeated
    writes of one key, deletions, creations and zero words included. *)
Theorem unwind_restores (b : MemoryBuffer) (n : Z) (ws : list write) :
  words_ok b -> Forall (initial_ok b) ws ->
  let b' := unwind_state_changes n (foldl apply_write (begin_block n b) ws) in
  (forall a, read_account b' a = read_account b a)
  /\ (forall a i l, read_storage b' a i l = read_storage b a i l).
Proof. intros Hok Hw. eapply undoes_unwind; [done|]. apply writes_undoes; [apply begin_undoes|done]. Qed.

Lemma unwind_restores_witness :
  let a := zero_bytes 20 in
  let acc := mkAccount 1 5 kEmptyHash 0 in
  let b := update_account a None (Some acc) (begin_block 1 empty_buffer) in
  read_account (unwind_state_changes 2 (foldl apply_write (begin_block 2 b)
    [WAccount a (Some acc) None; WAccount a (Some acc) (Some (mkAccount 2 3 kEmptyHash 0))])) a = Some acc.
Proof.
  intros a acc b. apply (unwind_restores b 2 [WAccount a (Some acc) None;
    WAccount a (Some acc) (Some (mkAccount 2 3 kEmptyHash 0))]).
  - intros a0 i l v H. cbv in H. discriminate.
  - repeat constructor; vm_compute; reflexivity.
Defined.

(** C31: The state root is always computed, and is the root of the state trie: exactly one entry per account, under the
    hash of its address, with the RLP list of its nonce, its balance, the root of its storage trie and its code hash; and
    the storage trie has exactly one entry per stored word, its value without leading zeros under the hash of its
    location. *)
Theorem state_root_correct (b : MemoryBuffer) :
  wf_buffer b ->
  exists es, state_root_hash b = Ok (trie_root (map unpack_entry es))
    /\ in_key_order es
    /\ (forall e, In e es -> exists a acc storage_es,
          read_account b a = Some acc
          /\ storage_entries b a (incarnation acc) storage_es
          /\ e = (keccak256 a,
                  encode_list (encode_u64 (nonce acc) ++ encode_u256 (balance acc)
                               ++ encode_fixed 32 (trie_root (map unpack_entry storage_es)) ++ encode_fixed 32 (code_hash acc))))
    /\ (forall a, read_account b a <> None -> In (keccak256 a) (map fst es)).
Proof.
  intros Hw. destruct (state_root_ok b Hw) as (es & E & Hs & Hf & Hk). exists es. split_and!; try done.
  intros e He. rewrite List.Forall_forall in Hf. destruct (Hf e He) as (a & acc & root & Ha & Hr & ->).
  destruct (account_storage_root_ok b a (incarnation acc) Hw) as (ses & Es & Hses). rewrite Es in Hr.
  injection Hr as <-. exists a, acc, ses. split; [done|]. split; [done|]. f_equal.
  apply account_rlp_ok; [by apply (wf_accounts b Hw a)|]. split; [apply trie_root_ok|apply length_trie_root].
Qed.

Lemma state_root_correct_witness :
  exists es, state_root_hash (update_account (zero_bytes 20) None (Some (mkAccount 1 5 kEmptyHash 0)) empty_buffer)
             = Ok (trie_root (map unpack_entry es)).
Proof.
  destruct (state_root_correct (update_account (zero_bytes 20) None (Some (mkAccount 1 5 kEmptyHash 0)) empty_buffer))
    as (es & E & _); [|by exists es].
  split.
  - intros a acc H. change (<[zero_bytes 20 := mkAccount 1 5 kEmptyHash 0]> (∅ : gmap bytes Account) !! a = Some acc) in H.
    rewrite lookup_insert in H. case_decide; [|by rewrite lookup_empty in H]. injection H as <-.
    split; cbn; wf_dec.
  - intros a i l v H. cbv in H. discriminate.
Defined.

(** Blocks are found again under their number and hash with the total difficulty of their
    parent plus their own; inserting another block, or the same hash at another height, keeps them; and
    the canonical chain grows and is cut as asked. *)
Theorem insert_block_correct (b : MemoryBuffer) (block other : Block) (hash other_hash : bytes) :
  0 <= number (header block) -> 0 <= number (header other) ->
  (number (header other), other_hash) <> (number (header block), hash) ->
  let b1 := insert_block block hash b in
  let b2 := insert_block other other_hash b1 in
  read_header b1 (number (header block)) hash = Some (header block)
  /\ read_body b1 (number (header block)) hash = Some (body block)
  /\ (number (header block) <> 0 -> forall td,
        total_difficulty b (number (header block) - 1) (parent_hash (header block)) = Some td ->
        total_difficulty b1 (number (header block)) hash = Some (u256 (td + difficulty (header block))))
  /\ read_header b2 (number (header block)) hash = Some (header block)
  /\ read_body b2 (number (header block)) hash = Some (body block)
  /\ canonical_hash (canonize_block (number (header block)) hash b2) (number (header block)) = Some hash
  /\ canonical_hash (decanonize_block (number (header block)) b2) (number (header block)) = None.
Proof.
  intros Hn Hn' Hne b1 b2.
  assert (read_header b1 (number (header block)) hash = Some (header block)) as H1 by by apply block_lookup_insert.
  assert (read_body b1 (number (header block)) hash = Some (body block)) as H2 by by apply block_lookup_insert.
  split; [exact H1|]. split; [exact H2|]. split; [|split; [|split; [|split]]].
  - intros H0 td Htd. cbn in *. unfold mb_total_difficulty in *. rewrite block_lookup_eq in * by lia.
    unfold b1, mb_insert_block. cbn [difficulties]. destruct (Z.eqb_spec (number (header block)) 0); [done|].
    remember (Z.to_nat (number (header block))) as k eqn:Ek.
    replace (Z.to_nat (number (header block) - 1)) with (k - 1)%nat in Htd by lia.
    destruct (difficulties b !! (k - 1)%nat) as [m|] eqn:Em; [|done]. cbn in Htd.
    rewrite list_lookup_alter_eq, list_lookup_alter_ne by lia.
    rewrite (grow_lookup _ _ _ _ _ Em). cbn. rewrite Htd. cbn.
    pose proof (grow_length ∅ (number (header block)) (difficulties b) Hn) as Hg. rewrite <- Ek in Hg.
    destruct (lookup_lt_is_Some_2 _ _ Hg) as [m' ->].
    cbn. by rewrite lookup_insert_eq.
  - apply block_lookup_insert_other; done.
  - apply block_lookup_insert_other; done.
  - apply canonical_hash_canonize; lia.
  - apply canonical_hash_decanonize; lia.
Qed.

Lemma insert_block_correct_witness :
  let block := mkBlock (mkBlockBody [] []) empty_block_header in
  read_header (insert_block block [2] (insert_block block [1] empty_buffer)) 0 [1] = Some empty_block_header.
Proof.
  intros block. apply (insert_block_correct empty_buffer block block [1] [2]); cbn; [lia|lia|congruence].
Defined.
