(* ===== verification/Validity.v ===== *)
(** * Validity: core/silkworm/chain/validity.hpp, validity.cpp

    The validation of transactions, headers and blocks that needs no execution. The static variable in which
    the verification of seals keeps the context of the last epoch is threaded through. *)

From S2P Require Import Prelude Util Keccak Ecdsa Ethash Rlp Transaction Block HashBuilder TrieCorrect Chain MemoryBuffer.
Local Open Scope Z_scope.
Local Open Scope silk_scope.

Inductive ValidationResult : Type :=
| kOk
| kWrongStateRoot | kWrongOmmersHash | kWrongTransactionsRoot | kWrongReceiptsRoot | kWrongLogsBloom
| kUnknownParent | kWrongDifficulty | kGasAboveLimit | kInvalidGasLimit | kInvalidTimestamp | kExtraDataTooLong
| kWrongDaoExtraData | kInvalidSeal
| kMissingSender | kWrongNonce | kIntrinsicGas | kInsufficientFunds | kBlockGasLimitExceeded
| kTooManyOmmers | kInvalidOmmerHeader | kNotAnOmmer | kDuplicateOmmer
| kWrongBlockGas
| kInvalidSignature
| kWrongChainId
| kUnsupportedEip2718Type.

#[export] Instance ValidationResult_eq_dec : EqDecision ValidationResult.
Proof. solve_decision. Defined.

(** The context of the last epoch, kept between seals. *)
Definition Kept : Type := option epoch_context.

Definition pre_validate_transaction (txn : Transaction) (block_number : Z) (config : ChainConfig) : ValidationResult :=
  let rev := revision config block_number in
  if match chain_id txn with
     | Some id => (rev <? EVMC_SPURIOUS_DRAGON) || negb (id =? config_chain_id config)
     | None => false
     end then kWrongChainId
  else if match txn_type txn with
          | Some t => (rev <? EVMC_BERLIN) || negb (t =? kEip2930TransactionType)
          | None => false
          end then kUnsupportedEip2718Type
  else if negb (is_valid_signature (sig_r txn) (sig_s txn) (EVMC_HOMESTEAD <=? rev)) then kInvalidSignature
  else if gas_limit txn <? intrinsic_gas txn (EVMC_HOMESTEAD <=? rev) (EVMC_ISTANBUL <=? rev) then kIntrinsicGas
  else kOk.

(** [*from_hex("0x64616f2d686172642d666f726b")]: dao-hard-fork. *)
Definition kDaoExtraData : bytes := to_be 13 0x64616f2d686172642d666f726b.

Section Validity.
Context {B : Type} `{StateBuffer B}.

Definition get_parent (state : B) (header : BlockHeader) : option BlockHeader :=
  read_header state (u64 (number header - 1)) (parent_hash header).

(** The seal of a header, for chains with proof of work. *)
Definition verify_seal (header : BlockHeader) (config : ChainConfig) (kept : Kept) : ValidationResult * Kept :=
  if bool_decide (seal_engine config = kEthash) then
    let boundary256 := get_boundary_from_diff (difficulty header) in
    let seal_hash := block_header_hash header true in
    let nonce := of_be (take 8 (header_nonce header)) in
    let '(r, kept) := verify_full_block (number header) seal_hash (Block.mix_hash header) nonce boundary256 kept in
    match r with
    | Ethash.kOk => (kOk, kept)
    | _ => (kInvalidSeal, kept)
    end
  else (kOk, kept).

Definition validate_block_header (header : BlockHeader) (state : B) (config : ChainConfig) (kept : Kept)
  : ValidationResult * Kept :=
  if header_gas_limit header <? gas_used header then (kGasAboveLimit, kept)
  else if header_gas_limit header <? 5000 then (kInvalidGasLimit, kept)
  else if 0x7fffffffffffffff <? header_gas_limit header then (kInvalidGasLimit, kept)
  else if 32 <? zlen (extra_data header) then (kExtraDataTooLong, kept)
  else
    match get_parent state header with
    | None => (kUnknownParent, kept)
    | Some parent =>
        if timestamp header <=? timestamp parent then (kInvalidTimestamp, kept)
        else
          let gas_delta :=
            if header_gas_limit parent <? header_gas_limit header
            then u64 (header_gas_limit header - header_gas_limit parent)
            else u64 (header_gas_limit parent - header_gas_limit header) in
          if header_gas_limit parent / 1024 <=? gas_delta then (kInvalidGasLimit, kept)
          else
            let parent_has_uncles := negb (bytes_eqb (ommers_hash parent) kEmptyListHash) in
            let d := canonical_difficulty (number header) (timestamp header) (difficulty parent) (timestamp parent)
                       parent_has_uncles config in
            if negb (d =? difficulty header) then (kWrongDifficulty, kept)
            else if match dao_block config with
                    | Some n => (n <=? number header) && (number header <=? u64 (n + 9))
                                && negb (bytes_eqb (extra_data header) kDaoExtraData)
                    | None => false
                    end then (kWrongDaoExtraData, kept)
            else verify_seal header config kept
    end.

(** The ommers of the mainline blocks on the way are appended to [old_ommers]. *)
Fixpoint is_kin (branch_header mainline_header : BlockHeader) (mainline_hash : bytes) (n : nat) (state : B)
    (old_ommers : list BlockHeader) : bool * list BlockHeader :=
  match n with
  | O => (false, old_ommers)
  | S n =>
      if bool_decide (branch_header = mainline_header) then (false, old_ommers)
      else
        match read_body state (number mainline_header) mainline_hash with
        | None => (false, old_ommers)
        | Some mainline_body =>
            let old_ommers := old_ommers ++ ommers mainline_body in
            let mainline_parent := get_parent state mainline_header in
            let branch_parent := get_parent state branch_header in
            match mainline_parent with
            | None => (false, old_ommers)
            | Some parent =>
                if bool_decide (branch_parent = mainline_parent) then (true, old_ommers)
                else is_kin branch_header parent (parent_hash mainline_header) n state old_ommers
            end
        end
  end.

(** The loop over the ommers of a block: the first error, if any. *)
Fixpoint validate_ommers (ommers : list BlockHeader) (header parent : BlockHeader) (state : B) (config : ChainConfig)
    (kept : Kept) : ValidationResult * Kept :=
  match ommers with
  | [] => (kOk, kept)
  | ommer :: ommers =>
      let '(err, kept) := validate_block_header ommer state config kept in
      if negb (bool_decide (err = kOk)) then (kInvalidOmmerHeader, kept)
      else
        let '(kin, old_ommers) := is_kin ommer parent (parent_hash header) 6 state [] in
        if negb kin then (kNotAnOmmer, kept)
        else if existsb (fun oo => bool_decide (oo = ommer)) old_ommers then (kDuplicateOmmer, kept)
        else validate_ommers ommers header parent state config kept
  end.

Fixpoint pre_validate_transactions (txns : list Transaction) (block_number : Z) (config : ChainConfig)
  : ValidationResult :=
  match txns with
  | [] => kOk
  | txn :: txns =>
      let err := pre_validate_transaction txn block_number config in
      if negb (bool_decide (err = kOk)) then err else pre_validate_transactions txns block_number config
  end.

(** [Undef]: an assertion of the trie builder, or the absent parent, would be reached. *)
Definition pre_validate_block (block : Block) (state : B) (config : ChainConfig) (kept : Kept)
  : result unit (ValidationResult * Kept) :=
  let h := header block in
  let '(err, kept) := validate_block_header h state config kept in
  if negb (bool_decide (err = kOk)) then Ok (err, kept)
  else if negb (bytes_eqb (keccak256 (encode_vector (ommers (body block)))) (ommers_hash h)) then
    Ok (kWrongOmmersHash, kept)
  else
    try txn_root := vector_root_hash (transactions (body block)) (fun txn => encode_transaction_for txn false false) in
    if negb (bytes_eqb txn_root (transactions_root h)) then Ok (kWrongTransactionsRoot, kept)
    else if 2 <? zlen (ommers (body block)) then Ok (kTooManyOmmers, kept)
    else if match ommers (body block) with [o1; o2] => bool_decide (o1 = o2) | _ => false end then
      Ok (kDuplicateOmmer, kept)
    else
      let parent := get_parent state h in
      try (err, kept) :=
        (match ommers (body block), parent with
         | [], _ => Ok (kOk, kept)
         | os, Some parent => Ok (validate_ommers os h parent state config kept)
         | _, None => Undef
         end) in
      if negb (bool_decide (err = kOk)) then Ok (err, kept)
      else Ok (pre_validate_transactions (transactions (body block)) (number h) config, kept).

End Validity.

(** * Specification: Yellow Paper sections 4.3.4, 6.2, 11.1 *)

Definition seal_valid (header : BlockHeader) : Prop :=
  let h := Ethash.hash (create_epoch_context (u32 (number header / epoch_length))) (block_header_hash header true)
             (of_be (take 8 (header_nonce header))) in
  Block.mix_hash header = Ethash.mix_hash h /\ of_be (final_hash h) * difficulty header < 2 ^ 256.

(** The order of the group of secp256k1. *)
Definition group_order : Z := 0xfffffffffffffffffffffffffffffffebaaedce6af48a03bbfd25e8cd0364141.

(** A signature of the Yellow Paper (appendix F, with EIP-2 from Homestead on): both parts are in the group. *)
Definition group_signature (homestead : bool) (r s : Z) : Prop :=
  0 < r < group_order /\ 0 < s < group_order /\ (homestead = true -> s <= group_order / 2).

(** What is accepted beside these: one part alone may reach the order of the group. *)
Definition accepted_signature (homestead : bool) (r s : Z) : Prop :=
  0 < r /\ 0 < s /\ (r < group_order \/ s < group_order) /\ (homestead = true -> s <= group_order / 2).

(** A transaction by itself, for a predicate of signatures. *)
Definition transaction_valid (signature_ok : bool -> Z -> Z -> Prop) (txn : Transaction) (rev : Z) (config : ChainConfig) : Prop :=
  (forall id, chain_id txn = Some id -> EVMC_SPURIOUS_DRAGON <= rev /\ id = config_chain_id config)
  /\ (forall t, txn_type txn = Some t -> EVMC_BERLIN <= rev /\ t = kEip2930TransactionType)
  /\ signature_ok (EVMC_HOMESTEAD <=? rev) (sig_r txn) (sig_s txn)
  /\ intrinsic_gas txn (EVMC_HOMESTEAD <=? rev) (EVMC_ISTANBUL <=? rev) <= gas_limit txn.

(** The header continues the parent's chain. *)
Definition header_follows (parent header : BlockHeader) (config : ChainConfig) : Prop :=
  timestamp parent < timestamp header
  /\ Z.abs (header_gas_limit header - header_gas_limit parent) < header_gas_limit parent / 1024
  /\ difficulty header
     = canonical_difficulty (number header) (timestamp header) (difficulty parent) (timestamp parent)
         (negb (bytes_eqb (ommers_hash parent) kEmptyListHash)) config.

Section Spec.
Context {B : Type} `{StateBuffer B}.

Definition header_valid (header : BlockHeader) (state : B) (config : ChainConfig) : Prop :=
  gas_used header <= header_gas_limit header
  /\ 5000 <= header_gas_limit header < 2 ^ 63
  /\ zlen (extra_data header) <= 32
  /\ (exists parent, get_parent state header = Some parent /\ header_follows parent header config)
  /\ (forall n, dao_block config = Some n -> n <= number header <= n + 9 -> extra_data header = kDaoExtraData)
  /\ (seal_engine config = kEthash -> seal_valid header).

(** The blocks of the mainline from the one with header [h] and hash [hash] down to its [i]-th ancestor. *)
Fixpoint mainline (state : B) (h : BlockHeader) (hash : bytes) (i : nat) : option (list (BlockHeader * BlockBody)) :=
  b ← read_body state (number h) hash;
  match i with
  | O => Some [(h, b)]
  | S i => p ← get_parent state h; l ← mainline state p (parent_hash h) i; Some ((h, b) :: l)
  end.

(** [u] has the parent of the oldest of [n] mainline blocks at most, and is none of them. *)
Definition kin (state : B) (u h : BlockHeader) (hash : bytes) (n : nat) (l : list (BlockHeader * BlockBody)) : Prop :=
  exists i, (i < n)%nat /\ mainline state h hash i = Some l /\ u ∉ map fst l
    /\ exists oldest p, List.last (map fst l) h = oldest
         /\ get_parent state oldest = Some p /\ get_parent state u = Some p.

Definition ommer_valid (u : BlockHeader) (block : Block) (state : B) (config : ChainConfig) : Prop :=
  header_valid u state config
  /\ exists parent l, get_parent state (header block) = Some parent
       /\ kin state u parent (parent_hash (header block)) 6 l /\ u ∉ concat (map (fun hb => ommers (snd hb)) l).

Definition block_valid (signature_ok : bool -> Z -> Z -> Prop) (block : Block) (state : B) (config : ChainConfig) : Prop :=
  header_valid (header block) state config
  /\ keccak256 (encode_vector (ommers (body block))) = ommers_hash (header block)
  /\ vector_root_hash (transactions (body block)) (fun txn => encode_transaction_for txn false false)
     = Ok (transactions_root (header block))
  /\ (length (ommers (body block)) <= 2)%nat /\ NoDup (ommers (body block))
  /\ Forall (fun u => ommer_valid u block state config) (ommers (body block))
  /\ Forall (fun txn => transaction_valid signature_ok txn (revision config (number (header block))) config)
       (transactions (body block)).

(** * Lemmas *)

Lemma bytes_eqb_neq a b : bytes_eqb a b = false <-> a <> b.
Proof. rewrite <- bytes_eqb_eq. by destruct (bytes_eqb a b). Qed.

(** The parts of a signature are 256-bit numbers. *)
Definition signature_words (txn : Transaction) : Prop := 0 <= sig_r txn /\ 0 <= sig_s txn.

Lemma is_valid_signature_accepts r s homestead : 0 <= r -> 0 <= s ->
  is_valid_signature r s homestead = true <-> accepted_signature homestead r s.
Proof.
  intros Hr Hs. unfold is_valid_signature, accepted_signature.
  change kSecp256k1Halfn with (group_order / 2). change kSecp256k1n with group_order.
  destruct (Z.eqb_spec r 0), (Z.eqb_spec s 0); cbn [orb]; try (split; [done|lia]).
  destruct (Z.leb_spec group_order r), (Z.leb_spec group_order s); cbn [andb]; [split; [done|lia]|..].
  all: destruct homestead; cbn [andb]; [destruct (Z.ltb_spec (group_order / 2) s)|]; split; try done; try lia.
  all: intros (_ & _ & _ & Hh); specialize (Hh eq_refl); lia.
Qed.

(** In the group, and accepted. *)
Lemma group_signature_iff homestead r s :
  group_signature homestead r s <-> accepted_signature homestead r s /\ r < group_order /\ s < group_order.
Proof. unfold group_signature, accepted_signature. tauto || (split; intros; split_and!; try tauto; lia). Qed.

Lemma pre_validate_transaction_spec txn n config : signature_words txn ->
  pre_validate_transaction txn n config = kOk <-> transaction_valid accepted_signature txn (revision config n) config.
Proof.
  intros [Hr Hs]. unfold transaction_valid. rewrite <- (is_valid_signature_accepts _ _ _ Hr Hs).
  unfold pre_validate_transaction. set (rev := revision config n).
  assert (forall (o : option Z) (lo x : Z),
            match o with Some y => (rev <? lo) || negb (y =? x) | None => false end = false
            <-> forall y, o = Some y -> lo <= rev /\ y = x) as Hopt.
  { intros [y|] lo x; [|by split]. rewrite orb_false_iff, negb_false_iff, Z.ltb_ge, Z.eqb_eq.
    split; [by intros Hy ? [= <-]|]. intros Hy. by apply Hy. }
  rewrite <- !Hopt. destruct (match chain_id txn with Some _ => _ | None => _ end); [by split; [|intros [? _]]|].
  destruct (match txn_type txn with Some _ => _ | None => _ end); [by split; [|intros (_ & ? & _)]|].
  destruct (is_valid_signature _ _ _); cbn [negb]; [|by split; [|intros (_ & _ & ? & _)]].
  destruct (Z.ltb_spec (gas_limit txn) (intrinsic_gas txn (EVMC_HOMESTEAD <=? rev) (EVMC_ISTANBUL <=? rev))).
  - split; [done|]. intros (_ & _ & _ & ?). lia.
  - by split.
Qed.

Lemma pre_validate_transactions_spec txns n config : Forall signature_words txns ->
  pre_validate_transactions txns n config = kOk
  <-> Forall (fun txn => transaction_valid accepted_signature txn (revision config n) config) txns.
Proof.
  induction 1 as [|txn txns Hw _ IH]; cbn [pre_validate_transactions]; [by split|].
  rewrite Forall_cons, <- IH, <- pre_validate_transaction_spec by done. case_bool_decide; cbn [negb]; [naive_solver|].
  split; [done|]. by intros [? _].
Qed.

Lemma is_kin_acc u h hash n (state : B) old : forall r old', is_kin u h hash n state old = (r, old') ->
  exists l, old' = old ++ l /\ is_kin u h hash n state [] = (r, l).
Proof.
  revert h hash old. induction n as [|n IH]; intros h hash old r old'; cbn [is_kin].
  { intros [= <- <-]. exists []. by rewrite app_nil_r. }
  assert (forall r0 : bool, (r0, old) = (r, old') -> exists l, old' = old ++ l /\ (r0, []) = (r, l)) as Hnil
    by (intros r0 [= <- <-]; exists []; by rewrite app_nil_r).
  case_bool_decide; [apply Hnil|]. destruct (read_body _ _ _) as [b|]; [|apply Hnil]. cbn [app].
  destruct (get_parent state h) as [p|]; [|by intros [= <- <-]; exists (ommers b)].
  case_bool_decide; [by intros [= <- <-]; exists (ommers b)|].
  intros E. apply IH in E as (l & -> & E).
  destruct (is_kin u p (parent_hash h) n state (ommers b)) as [r1 l1] eqn:E1.
  apply IH in E1 as (l2 & -> & E1). rewrite E1 in E. injection E as -> ->.
  exists (ommers b ++ l). by rewrite app_assoc.
Qed.

Lemma list_last_cons {A} (x : A) l d : List.last (x :: l) d = List.last l x.
Proof. revert x d. induction l as [|y l IH]; intros x d; [done|]. change (List.last (y :: l) d = List.last (y :: l) x). by rewrite !IH. Qed.

Lemma mainline_head (state : B) h hash i l : mainline state h hash i = Some l -> exists b l', l = (h, b) :: l'.
Proof.
  destruct i as [|i]; cbn [mainline]; (destruct (read_body state (number h) hash) as [b|]; cbn [mbind option_bind]; [|done]).
  - intros [= <-]. by exists b, [].
  - destruct (get_parent state h) as [p|]; cbn [mbind option_bind]; [|done].
    destruct (mainline state p (parent_hash h) i) as [l'|]; cbn [mbind option_bind]; [|done]. intros [= <-]. by exists b, l'.
Qed.

(** What the search for kinship finds: the mainline blocks down to the first sibling. *)
Lemma is_kin_found u n (state : B) : forall h hash old,
  is_kin u h hash n state [] = (true, old) ->
  exists l, kin state u h hash n l /\ old = concat (map (fun hb => ommers (snd hb)) l).
Proof.
  induction n as [|n IH]; intros h hash old; cbn [is_kin]; [done|].
  case_bool_decide as Hne; [done|]. destruct (read_body _ _ _) as [b|] eqn:Eb; [|done]. cbn [app].
  destruct (get_parent state h) as [p|] eqn:Ep; [|done]. case_bool_decide as Hs.
  - intros [= <-]. exists [(h, b)]. split; [|cbn; by rewrite app_nil_r].
    exists 0%nat. split; [lia|]. split; [cbn; by rewrite Eb|]. split; [cbn; set_solver|]. by exists h, p.
  - intros E. apply is_kin_acc in E as (l & -> & E). apply IH in E as (bs & (i & Hi & Em & Hni & o & q & Ho & Hq & Hu) & ->).
    exists ((h, b) :: bs). split; [|done]. exists (S i). split; [lia|].
    split; [cbn [mainline]; rewrite Eb; cbn [mbind option_bind]; rewrite Ep; cbn [mbind option_bind]; by rewrite Em|].
    split; [cbn [map fst]; set_solver|]. exists o, q. split; [|done]. cbn [map fst]. rewrite list_last_cons.
    apply mainline_head in Em as (b' & bs' & ->). cbn [map fst] in *. rewrite list_last_cons in *. exact Ho.
Qed.

Lemma is_kin_complete u (state : B) i : forall n h hash l p,
  (i < n)%nat -> mainline state h hash i = Some l -> u ∉ map fst l ->
  get_parent state (List.last (map fst l) h) = Some p -> get_parent state u = Some p ->
  exists l1 l2, l = l1 ++ l2 /\ is_kin u h hash n state [] = (true, concat (map (fun hb => ommers (snd hb)) l1)).
Proof.
  induction i as [|i IH]; intros [|n] h hash l p Hi Em Hni Hp Hu; [lia| |lia|].
  all: pose proof (mainline_head _ _ _ _ _ Em) as (b & l' & ->); cbn [map fst] in *.
  all: apply not_elem_of_cons in Hni as [Hne Hni]; rewrite list_last_cons in Hp; cbn [is_kin mainline] in *.
  all: rewrite bool_decide_false by done; destruct (read_body state (number h) hash) as [b0|]; cbn [mbind option_bind app] in *; [|done].
  - injection Em as -> <-. cbn [map List.last] in Hp. rewrite Hp, Hu, bool_decide_true by done.
    exists [(h, b)], []. split; [done|]. cbn. by rewrite app_nil_r.
  - destruct (get_parent state h) as [q|] eqn:Eq; cbn [mbind option_bind] in *; [|done].
    destruct (mainline state q (parent_hash h) i) as [l0|] eqn:El; cbn [mbind option_bind] in *; [|done].
    injection Em as -> <-. case_bool_decide as Hs.
    + exists [(h, b)], l0. split; [done|]. cbn. by rewrite app_nil_r.
    + pose proof (mainline_head _ _ _ _ _ El) as (b1 & l1 & ->).
      destruct (IH n q (parent_hash h) ((q, b1) :: l1) p) as (m1 & m2 & Em & E); [lia|done|done| |done|].
      { cbn [map fst] in *. rewrite list_last_cons in *. exact Hp. }
      exists ((h, b) :: m1), m2. split; [by rewrite Em|].
      destruct (is_kin u q (parent_hash h) n state (ommers b)) as [r old] eqn:Ek.
      apply is_kin_acc in Ek as (l2 & -> & Ek). rewrite E in Ek. injection Ek as <- <-. done.
Qed.

(** The numbers of the headers at hand fit their fields. *)
Definition numbers_ok (h : BlockHeader) : Prop := 0 <= header_gas_limit h < 2 ^ 64 /\ 0 <= difficulty h < 2 ^ 256.
Definition headers_ok (state : B) : Prop :=
  forall n hash p, read_header state n hash = Some p -> 0 <= header_gas_limit p < 2 ^ 64.
Definition config_ok (config : ChainConfig) : Prop := forall n, dao_block config = Some n -> 0 <= n < 2 ^ 64 - 9.

Lemma verify_seal_spec header config kept :
  kept_ok kept -> numbers_ok header ->
  let '(r, kept') := verify_seal header config kept in
  kept_ok kept' /\ (r = kOk <-> (seal_engine config = kEthash -> seal_valid header)).
Proof.
  intros Hk [_ Hd]. unfold verify_seal. case_bool_decide as He; [|by split].
  rewrite verify_full_block_eq by done. unfold seal_valid.
  set (context := create_epoch_context (u32 (number header / epoch_length))).
  set (nonce := of_be (take 8 (header_nonce header))).
  pose proof (verify_full_spec context (block_header_hash header true) (Block.mix_hash header) nonce
                (get_boundary_from_diff (difficulty header))) as Hv.
  rewrite boundary_spec, Z.leb_le in Hv by (done || apply hash_final_ok).
  destruct (verify_full _ _ _ _ _); (split; [done|]).
  - split; [|done]. intros _ _. destruct (proj1 Hv eq_refl) as [Hm Hle]. split; [done|lia].
  - split; [done|]. intros Hs. destruct (Hs He) as [Hm Hlt]. assert (kInvalidNonce = Ethash.kOk) by (apply Hv; split; [done|lia]). done.
  - split; [done|]. intros Hs. destruct (Hs He) as [Hm Hlt]. assert (kInvalidMixHash = Ethash.kOk) by (apply Hv; split; [done|lia]). done.
Qed.

Lemma validate_block_header_spec header state config kept :
  kept_ok kept -> numbers_ok header -> headers_ok state -> config_ok config ->
  let '(r, kept') := validate_block_header header state config kept in
  kept_ok kept' /\ (r = kOk <-> header_valid header state config).
Proof.
  intros Hk Hh Hs Hc. pose proof Hh as [Hl _]. unfold validate_block_header, header_valid.
  destruct (Z.ltb_spec (header_gas_limit header) (gas_used header)); [split; [done|]; split; [done|]; intros (? & _); lia|].
  destruct (Z.ltb_spec (header_gas_limit header) 5000); [split; [done|]; split; [done|]; intros (_ & ? & _); lia|].
  destruct (Z.ltb_spec 0x7fffffffffffffff (header_gas_limit header)); [split; [done|]; split; [done|]; intros (_ & ? & _); lia|].
  destruct (Z.ltb_spec 32 (zlen (extra_data header))); [split; [done|]; split; [done|]; intros (_ & _ & ? & _); lia|].
  destruct (get_parent state header) as [p|] eqn:Ep; [|split; [done|]; split; [done|]; by intros (_ & _ & _ & (? & ? & _) & _)].
  assert (0 <= header_gas_limit p < 2 ^ 64) as Hp by (by eapply Hs).
  destruct (Z.leb_spec (timestamp header) (timestamp p)); [split; [done|]; split; [done|]; intros (_ & _ & _ & (? & [= <-] & ? & _) & _); lia|].
  set (delta := if header_gas_limit p <? header_gas_limit header then _ else _).
  assert (delta = Z.abs (header_gas_limit header - header_gas_limit p)) as ->.
  { unfold delta. destruct (Z.ltb_spec (header_gas_limit p) (header_gas_limit header)); rewrite u64_small by lia; lia. }
  destruct (Z.leb_spec (header_gas_limit p / 1024) (Z.abs (header_gas_limit header - header_gas_limit p)));
    [split; [done|]; split; [done|]; intros (_ & _ & _ & (? & [= <-] & _ & ? & _) & _); lia|].
  destruct (Z.eqb_spec (canonical_difficulty (number header) (timestamp header) (difficulty p) (timestamp p)
                          (negb (bytes_eqb (ommers_hash p) kEmptyListHash)) config) (difficulty header)) as [Ed|Ed]; cbn [negb];
    [|split; [done|]; split; [done|]; intros (_ & _ & _ & (? & [= <-] & _ & _ & ?) & _); congruence].
  set (dao_wrong := match dao_block config with Some n => _ | None => _ end).
  assert (dao_wrong = false
          <-> forall n, dao_block config = Some n -> n <= number header <= n + 9 -> extra_data header = kDaoExtraData) as Hdao.
  { unfold dao_wrong. destruct (dao_block config) as [n|] eqn:En; [|by split].
    specialize (Hc n En). rewrite u64_small by lia. split.
    - intros E n' [= <-] Hn. rewrite (proj2 (Z.leb_le n _)), (proj2 (Z.leb_le _ (n + 9))) in E by lia.
      apply negb_false_iff in E. by apply bytes_eqb_eq.
    - intros Hall. destruct (Z.leb_spec n (number header)); [|done]. destruct (Z.leb_spec (number header) (n + 9)); [|done].
      apply negb_false_iff, bytes_eqb_eq. by apply (Hall n). }
  destruct dao_wrong; [split; [done|]; split; [done|]; intros (_ & _ & _ & _ & Hd & _); by apply Hdao in Hd|].
  pose proof (verify_seal_spec header config kept Hk Hh) as Hv. destruct (verify_seal header config kept) as [r kept'].
  destruct Hv as [Hk' Hr]. split; [done|]. rewrite Hr. split.
  - intros Hseal. split_and!; try done; try lia; [by exists p|by apply Hdao].
  - by intros (_ & _ & _ & _ & _ & Hseal).
Qed.

Lemma existsb_elem (u : BlockHeader) l : existsb (fun oo => bool_decide (oo = u)) l = false <-> u ∉ l.
Proof.
  induction l as [|x l IH]; cbn; [by split; [set_solver|]|].
  rewrite orb_false_iff, IH, bool_decide_eq_false, not_elem_of_cons. naive_solver.
Qed.

Lemma validate_ommers_spec os block parent (state : B) config : forall kept,
  kept_ok kept -> Forall numbers_ok os -> headers_ok state -> config_ok config ->
  get_parent state (header block) = Some parent ->
  let '(r, kept') := validate_ommers os (header block) parent state config kept in
  kept_ok kept' /\ (r = kOk <-> Forall (fun u => ommer_valid u block state config) os).
Proof.
  intros kept Hk Hos Hs Hc Hp. revert kept Hk. induction Hos as [|u os Hu _ IH]; intros kept Hk; cbn [validate_ommers]; [by split; [|split]|].
  pose proof (validate_block_header_spec u state config kept Hk Hu Hs Hc) as Hv.
  destruct (validate_block_header u state config kept) as [err kept1]. destruct Hv as [Hk1 Hv].
  assert (forall r, r <> kOk -> ~ ommer_valid u block state config ->
            kept_ok kept1 /\ (r = kOk <-> Forall (fun u => ommer_valid u block state config) (u :: os))) as Hbad.
  { intros r Hr Hn. split; [done|]. split; [done|]. intros Hall. by apply Forall_cons in Hall as [? _]. }
  case_bool_decide as He; cbn [negb]; [|apply Hbad; [done|]; intros [Hh _]; by apply He, Hv].
  destruct (is_kin u parent (parent_hash (header block)) 6 state []) as [k old] eqn:Ek.
  assert (ommer_valid u block state config <-> k = true /\ u ∉ old) as Hkin.
  { split.
    - intros (_ & p & l & Ep & (i & Hi & Em & Hni & o & q & Ho & Hq & Hu') & Hold). rewrite Hp in Ep. injection Ep as <-.
      destruct (is_kin_complete u state i 6 parent (parent_hash (header block)) l q) as (l1 & l2 & -> & E);
        [done|done|done|by rewrite Ho|done|].
      rewrite E in Ek. injection Ek as <- <-. split; [done|]. rewrite map_app, concat_app in Hold. set_solver.
    - intros [-> Hni]. apply is_kin_found in Ek as (l & Hl & ->). split; [by apply Hv|]. by exists parent, l. }
  destruct k; cbn [negb]; [|apply Hbad; [done|]; rewrite Hkin; by intros []].
  destruct (existsb _ old) eqn:Eo; [apply Hbad; [done|]; rewrite Hkin; intros [_ Hni]; apply existsb_elem in Hni; congruence|].
  apply existsb_elem in Eo. specialize (IH kept1 Hk1).
  destruct (validate_ommers os (header block) parent state config kept1) as [r kept2]. destruct IH as [Hk2 Hr].
  split; [done|]. rewrite Hr, Forall_cons, Hkin. naive_solver.
Qed.

Lemma at_most_two_distinct (l : list BlockHeader) :
  (length l <= 2)%nat ->
  match l with [o1; o2] => bool_decide (o1 = o2) | _ => false end = false <-> NoDup l.
Proof.
  intros Hl. destruct l as [|x [|y [|z l]]]; [by split; [constructor|]|by split; [intros _; apply NoDup_singleton|]| |cbn in Hl; lia].
  rewrite bool_decide_eq_false, NoDup_cons. split.
  - intros Hne. split; [set_solver|apply NoDup_singleton].
  - intros [Hni _] ->. apply Hni. set_solver.
Qed.

Definition encodings_ok (txns : list Transaction) : Prop :=
  zlen txns < 2 ^ 64
  /\ Forall (fun txn => let e := encode_transaction_for txn false false in bytes_ok e /\ zlen e < 2 ^ 61) txns.

(** * Properties *)

(** A valid block of the Yellow Paper is one that is accepted and has its signatures in the group. *)
Lemma block_valid_signatures (block : Block) (state : B) (config : ChainConfig) :
  block_valid group_signature block state config
  <-> block_valid accepted_signature block state config
      /\ Forall (fun txn => sig_r txn < group_order /\ sig_s txn < group_order) (transactions (body block)).
Proof.
  unfold block_valid. assert (forall txn rev, transaction_valid group_signature txn rev config
    <-> transaction_valid accepted_signature txn rev config /\ sig_r txn < group_order /\ sig_s txn < group_order) as Ht
    by (intros txn rev; unfold transaction_valid; rewrite group_signature_iff; tauto).
  setoid_rewrite Ht. rewrite Forall_and. tauto.
Qed.

(** Validation accepts exactly the blocks that are valid but for the signatures. *)
Lemma pre_validate_block_spec (block : Block) (state : B) (config : ChainConfig) (kept : Kept) :
  kept_ok kept -> numbers_ok (header block) -> Forall numbers_ok (ommers (body block)) -> headers_ok state ->
  config_ok config -> Forall signature_words (transactions (body block)) ->
  ((exists kept', pre_validate_block block state config kept = Ok (kOk, kept')) <-> block_valid accepted_signature block state config)
  /\ (encodings_ok (transactions (body block)) ->
      exists r kept', pre_validate_block block state config kept = Ok (r, kept') /\ kept_ok kept').
Proof.
  intros Hk Hh Hos Hs Hc Hwords. unfold pre_validate_block, block_valid.
  set (root := vector_root_hash (transactions (body block)) _).
  assert (encodings_ok (transactions (body block)) -> exists x, root = Ok x) as Hroot.
  { intros [Hl Hall]. eexists. by apply vector_root_ok. }
  pose proof (validate_block_header_spec (header block) state config kept Hk Hh Hs Hc) as Hv.
  destruct (validate_block_header (header block) state config kept) as [err kept1]. destruct Hv as [Hk1 Hv].
  case_bool_decide as He; cbn [negb]; [|split; [|by eexists _, _]; split; [by intros [? [= ->]]|intros [Hb _]; by apply Hv in Hb]].
  destruct (bytes_eqb (keccak256 _) _) eqn:Eo; cbn [negb]; [apply bytes_eqb_eq in Eo|];
    [|split; [|by eexists _, _]; split; [by intros [? [=]]|]; intros (_ & Hb & _); apply bytes_eqb_neq in Eo; congruence].
  destruct root as [txn_root|[]|]; cbn [result_bind];
    [|split; [split; [by intros [? ?]|by intros (_ & _ & ? & _)]|intros Hx; by destruct (Hroot Hx)]..].
  destruct (bytes_eqb txn_root _) eqn:Er; cbn [negb]; [apply bytes_eqb_eq in Er|];
    [|split; [|by eexists _, _]; split; [by intros [? [=]]|]; intros (_ & _ & Hb & _); apply bytes_eqb_neq in Er; congruence].
  destruct (Z.ltb_spec 2 (zlen (ommers (body block))));
    [split; [|by eexists _, _]; split; [by intros [? [=]]|]; intros (_ & _ & _ & Hb & _); lia|].
  pose proof (at_most_two_distinct (ommers (body block)) ltac:(lia)) as Hd.
  destruct (match ommers (body block) with [o1; o2] => bool_decide (o1 = o2) | _ => false end);
    [split; [|by eexists _, _]; split; [by intros [? [=]]|]; intros (_ & _ & _ & _ & Hb & _); by apply Hd in Hb|].
  assert (exists parent, get_parent state (header block) = Some parent) as [parent Ep]
    by (apply Hv in He as (_ & _ & _ & (p & Ep & _) & _); by exists p).
  rewrite Ep.
  pose proof (validate_ommers_spec (ommers (body block)) block parent state config kept1 Hk1 Hos Hs Hc Ep) as Ho.
  match goal with |- context [result_bind ?m _] =>
    assert (m = Ok (validate_ommers (ommers (body block)) (header block) parent state config kept1)) as ->
      by (by destruct (ommers (body block)))
  end.
  cbn [result_bind].
  destruct (validate_ommers _ _ parent state config kept1) as [err2 kept2]. destruct Ho as [Hk2 Ho].
  case_bool_decide as He2; cbn [negb];
    [|split; [|by eexists _, _]; split; [by intros [? [= ->]]|]; intros (_ & _ & _ & _ & _ & Hb & _); by apply Ho in Hb].
  split; [|by eexists _, _].
  rewrite <- (pre_validate_transactions_spec _ _ _ Hwords), <- Hv, <- Ho, <- Hd, Eo, Er. split.
  - intros [? [= E _]]. split_and!; try done; lia.
  - intros (_ & _ & _ & _ & _ & _ & E). exists kept2. by rewrite E.
Qed.


End Spec.

(** ** An example: the second block of a chain without proof of work, with the sibling of the first as ommer *)

Definition plain_config : ChainConfig := mkChainConfig 1 kNoProof (pad_forks []) None None.

Definition plain_header (n ts d : Z) (parent ommers extra : bytes) : BlockHeader :=
  mkBlockHeader parent ommers zero_address zero_bytes32 kEmptyRoot kEmptyRoot empty_bloom d n 5000000 0 ts extra
    zero_bytes32 (zero_bytes 8).

Definition genesis_header : BlockHeader := plain_header 0 0 131072 zero_bytes32 kEmptyListHash [].
Definition first_header (extra : bytes) : BlockHeader :=
  plain_header 1 10 (canonical_difficulty 1 10 131072 0 false plain_config) (to_be 32 100) kEmptyListHash extra.
Definition sibling_header : BlockHeader := first_header [1].
Definition second_block : Block :=
  let d := difficulty (first_header []) in
  mkBlock (mkBlockBody [] [sibling_header])
    (plain_header 2 20 (canonical_difficulty 2 20 d 10 false plain_config) (to_be 32 101)
       (keccak256 (encode_vector [sibling_header])) []).

Definition plain_buffer : MemoryBuffer :=
  let b := mb_insert_block (mkBlock (mkBlockBody [] []) genesis_header) (to_be 32 100) empty_buffer in
  mb_insert_block (mkBlock (mkBlockBody [] []) (first_header [])) (to_be 32 101) b.

Lemma buffer_headers_ok (b : MemoryBuffer) :
  Forall (map_Forall (fun _ p => 0 <= header_gas_limit p < 2 ^ 64)) (headers b) -> headers_ok b.
Proof.
  intros Hall n hash p. cbn. unfold mb_read_header, block_lookup. case_match; [done|].
  destruct (headers b !! Z.to_nat n) as [m|] eqn:Em; cbn; [|done]. intros Hp.
  rewrite Forall_forall in Hall. apply (Hall m (list_elem_of_lookup_2 _ _ _ Em) hash p Hp).
Qed.


(** A signature with [r] at the order of the group is accepted, and is not one of the Yellow Paper. *)
Example signature_outside_group :
  is_valid_signature group_order 1 true = true /\ accepted_signature true group_order 1 /\ ~ group_signature true group_order 1.
Proof. split; [reflexivity|]. unfold accepted_signature, group_signature. split; [|lia]. split_and!; [done|done|right; done|done]. Qed.
