(* ===== verification/IntraBlockState.v ===== *)
(** * IntraBlockState: core/silkworm/state (object.hpp, delta.hpp, delta.cpp, intra_block_state.hpp,
    intra_block_state.cpp)

    The state of a block under execution, over any [StateBuffer]: cached accounts and storage, the journal
    whose entries undo each change, the substate of a transaction, and the writing back. A C++ member
    function becomes a function on [IntraBlockState]; the [mutable] caches make getters return a state too. *)

From S2P Require Import Prelude Util Keccak Account Block MemoryBuffer.
Local Open Scope Z_scope.
Local Open Scope silk_scope.

(** ** object.hpp *)

Record Object : Type := mkObject {
  initial : option Account;
  current : option Account
}.

Record CommittedValue : Type := mkCommittedValue {
  value_initial : bytes;   (* at the beginning of the block *)
  value_original : bytes   (* at the beginning of the transaction; EIP-2200 *)
}.

Record Storage : Type := mkStorage {
  committed : gmap bytes CommittedValue;
  current_values : gmap bytes bytes
}.

Definition empty_object : Object := mkObject None None.
Definition empty_storage : Storage := mkStorage ∅ ∅.

(** ** delta.hpp *)

Inductive Delta : Type :=
| CreateDelta (address : bytes)
| UpdateDelta (address : bytes) (previous : Object)
| SuicideDelta (address : bytes)
| TouchDelta (address : bytes)
| StorageChangeDelta (address key previous : bytes)
| StorageWipeDelta (address : bytes) (storage : Storage)
| StorageCreateDelta (address : bytes)
| StorageAccessDelta (address key : bytes)
| AccountAccessDelta (address : bytes).

Definition EVMC_ACCESS_COLD : Z := 0.
Definition EVMC_ACCESS_WARM : Z := 1.

(** 0x0000000000000000000000000000000000000003 *)
Definition kRipemdAddress : bytes := zero_bytes 19 ++ [3].

Definition empty_log : Log := mkLog zero_address [] [].

(** Assignments to one member of an account. *)
Definition with_balance (a : Account) (v : Z) : Account := mkAccount (nonce a) v (code_hash a) (incarnation a).
Definition with_nonce (a : Account) (v : Z) : Account := mkAccount v (balance a) (code_hash a) (incarnation a).
Definition with_code_hash (a : Account) (v : bytes) : Account := mkAccount (nonce a) (balance a) v (incarnation a).

(** ** intra_block_state.hpp

    [journal] has the latest entry first. *)
Record IntraBlockState (B : Type) : Type := mkIntraBlockState {
  db : B;
  objects : gmap bytes Object;
  storages : gmap bytes Storage;
  codes : gmap bytes bytes;
  journal : list Delta;
  self_destructs : gset bytes;
  state_logs : list Log;
  touched : gset bytes;
  refund : Z;
  accessed_addresses : gset bytes;
  accessed_storage_keys : gmap bytes (gset bytes)
}.
Arguments mkIntraBlockState {B}.
Arguments db {B}. Arguments objects {B}. Arguments storages {B}. Arguments codes {B}. Arguments journal {B}.
Arguments self_destructs {B}. Arguments state_logs {B}. Arguments touched {B}. Arguments refund {B}.
Arguments accessed_addresses {B}. Arguments accessed_storage_keys {B}.

Record Snapshot : Type := mkSnapshot {
  journal_size : nat;
  log_size : nat;
  snapshot_refund : Z
}.

Section State.
Context {B : Type} `{StateBuffer B}.
Notation IBS := (IntraBlockState B).

Definition new_state (d : B) : IBS := mkIntraBlockState d ∅ ∅ ∅ [] ∅ [] ∅ 0 ∅ ∅.

(** Assignments to one member of the state. *)
Definition with_db (d : B) (s : IBS) : IBS :=
  mkIntraBlockState d (objects s) (storages s) (codes s) (journal s) (self_destructs s) (state_logs s)
    (touched s) (refund s) (accessed_addresses s) (accessed_storage_keys s).
Definition with_objects (o : gmap bytes Object) (s : IBS) : IBS :=
  mkIntraBlockState (db s) o (storages s) (codes s) (journal s) (self_destructs s) (state_logs s)
    (touched s) (refund s) (accessed_addresses s) (accessed_storage_keys s).
Definition with_storages (m : gmap bytes Storage) (s : IBS) : IBS :=
  mkIntraBlockState (db s) (objects s) m (codes s) (journal s) (self_destructs s) (state_logs s)
    (touched s) (refund s) (accessed_addresses s) (accessed_storage_keys s).
Definition with_codes (c : gmap bytes bytes) (s : IBS) : IBS :=
  mkIntraBlockState (db s) (objects s) (storages s) c (journal s) (self_destructs s) (state_logs s)
    (touched s) (refund s) (accessed_addresses s) (accessed_storage_keys s).
Definition with_journal (j : list Delta) (s : IBS) : IBS :=
  mkIntraBlockState (db s) (objects s) (storages s) (codes s) j (self_destructs s) (state_logs s)
    (touched s) (refund s) (accessed_addresses s) (accessed_storage_keys s).
Definition with_self_destructs (x : gset bytes) (s : IBS) : IBS :=
  mkIntraBlockState (db s) (objects s) (storages s) (codes s) (journal s) x (state_logs s)
    (touched s) (refund s) (accessed_addresses s) (accessed_storage_keys s).
Definition with_logs (l : list Log) (s : IBS) : IBS :=
  mkIntraBlockState (db s) (objects s) (storages s) (codes s) (journal s) (self_destructs s) l
    (touched s) (refund s) (accessed_addresses s) (accessed_storage_keys s).
Definition with_touched (x : gset bytes) (s : IBS) : IBS :=
  mkIntraBlockState (db s) (objects s) (storages s) (codes s) (journal s) (self_destructs s) (state_logs s)
    x (refund s) (accessed_addresses s) (accessed_storage_keys s).
Definition with_refund (r : Z) (s : IBS) : IBS :=
  mkIntraBlockState (db s) (objects s) (storages s) (codes s) (journal s) (self_destructs s) (state_logs s)
    (touched s) r (accessed_addresses s) (accessed_storage_keys s).
Definition with_accessed_addresses (x : gset bytes) (s : IBS) : IBS :=
  mkIntraBlockState (db s) (objects s) (storages s) (codes s) (journal s) (self_destructs s) (state_logs s)
    (touched s) (refund s) x (accessed_storage_keys s).
Definition with_accessed_storage_keys (m : gmap bytes (gset bytes)) (s : IBS) : IBS :=
  mkIntraBlockState (db s) (objects s) (storages s) (codes s) (journal s) (self_destructs s) (state_logs s)
    (touched s) (refund s) (accessed_addresses s) m.

Definition put_object (address : bytes) (o : Object) (s : IBS) : IBS :=
  with_objects (<[address := o]> (objects s)) s.
Definition push_delta (d : Delta) (s : IBS) : IBS := with_journal (d :: journal s) s.

(** [storage_[address]] *)
Definition storage_at (address : bytes) (s : IBS) : Storage := default empty_storage (storages s !! address).
Definition put_storage (address : bytes) (st : Storage) (s : IBS) : IBS :=
  with_storages (<[address := st]> (storages s)) s.

(** *** delta.cpp *)

Definition revert_delta (d : Delta) (s : IBS) : IBS :=
  match d with
  | CreateDelta a => with_objects (delete a (objects s)) s
  | UpdateDelta a previous => put_object a previous s
  | SuicideDelta a => with_self_destructs (self_destructs s ∖ {[a]}) s
  | TouchDelta a => with_touched (touched s ∖ {[a]}) s
  | StorageChangeDelta a key previous =>
      let st := storage_at a s in
      put_storage a (mkStorage (committed st) (<[key := previous]> (current_values st))) s
  | StorageWipeDelta a st => put_storage a st s
  | StorageCreateDelta a => with_storages (delete a (storages s)) s
  | StorageAccessDelta a key =>
      let keys := default ∅ (accessed_storage_keys s !! a) in
      with_accessed_storage_keys (<[a := keys ∖ {[key]}]> (accessed_storage_keys s)) s
  | AccountAccessDelta a => with_accessed_addresses (accessed_addresses s ∖ {[a]}) s
  end.

Definition revert_deltas (ds : list Delta) (s : IBS) : IBS := foldl (fun s d => revert_delta d s) s ds.

(** *** Objects *)

Definition get_object (address : bytes) (s : IBS) : option Object * IBS :=
  match objects s !! address with
  | Some obj => (Some obj, s)
  | None =>
      match read_account (db s) address with
      | None => (None, s)
      | Some account =>
          let obj := mkObject (Some account) (Some account) in
          (Some obj, put_object address obj s)
      end
  end.

(** The object returned has a current account, given separately. *)
Definition get_or_create_object (address : bytes) (s : IBS) : Object * Account * IBS :=
  let '(obj, s) := get_object address s in
  match obj with
  | None =>
      let created := mkObject None (Some empty_account) in
      (created, empty_account, put_object address created (push_delta (CreateDelta address) s))
  | Some obj =>
      match current obj with
      | None =>
          let created := mkObject (initial obj) (Some empty_account) in
          (created, empty_account, put_object address created (push_delta (UpdateDelta address obj) s))
      | Some account => (obj, account, s)
      end
  end.

Definition exists_ (address : bytes) (s : IBS) : bool * IBS :=
  let '(obj, s) := get_object address s in
  (match obj with Some o => match current o with Some _ => true | None => false end | None => false end, s).

Definition account_dead (a : Account) : bool :=
  bytes_eqb (code_hash a) kEmptyHash && (nonce a =? 0) && (balance a =? 0).

Definition is_dead (address : bytes) (s : IBS) : bool * IBS :=
  let '(obj, s) := get_object address s in
  (match obj with Some o => match current o with Some a => account_dead a | None => true end | None => true end, s).

Definition create_contract (address : bytes) (s : IBS) : IBS :=
  let '(prev, s) := get_object address s in
  let created_initial := match prev with Some p => initial p | None => None end in
  let created_balance :=
    match prev with Some p => match current p with Some c => balance c | None => 0 end | None => 0 end in
  let prev_incarnation :=
    match prev with
    | Some p =>
        match current p with
        | Some c => Some (incarnation c)
        | None => match initial p with Some i => Some (incarnation i) | None => None end
        end
    | None => None
    end in
  let s := push_delta (match prev with Some p => UpdateDelta address p | None => CreateDelta address end) s in
  let prev_incarnation :=
    match prev_incarnation with
    | Some n => if n =? 0 then previous_incarnation (db s) address else n
    | None => previous_incarnation (db s) address
    end in
  let s := put_object address
    (mkObject created_initial (Some (mkAccount 0 created_balance kEmptyHash (u64 (prev_incarnation + 1))))) s in
  match storages s !! address with
  | None => push_delta (StorageCreateDelta address) s
  | Some st => with_storages (delete address (storages s)) (push_delta (StorageWipeDelta address st) s)
  end.

Definition touch (address : bytes) (s : IBS) : IBS :=
  let inserted := bool_decide (address ∉ touched s) in
  let s := with_touched (touched s ∪ {[address]}) s in
  if inserted && negb (bytes_eqb address kRipemdAddress) then push_delta (TouchDelta address) s else s.

Definition record_suicide (address : bytes) (s : IBS) : IBS :=
  let inserted := bool_decide (address ∉ self_destructs s) in
  let s := with_self_destructs (self_destructs s ∪ {[address]}) s in
  if inserted then push_delta (SuicideDelta address) s else s.

Definition destruct_ (address : bytes) (s : IBS) : IBS :=
  let s := with_storages (delete address (storages s)) s in
  let '(obj, s) := get_object address s in
  match obj with
  | Some o => put_object address (mkObject (initial o) None) s
  | None => s
  end.

Definition destruct_suicides (s : IBS) : IBS :=
  foldl (fun s address => destruct_ address s) s (elements (self_destructs s)).

Definition destruct_touched_dead (s : IBS) : IBS :=
  foldl (fun s address => let '(dead, s) := is_dead address s in if dead : bool then destruct_ address s else s)
    s (elements (touched s)).

Definition number_of_self_destructs (s : IBS) : Z := Z.of_nat (size (self_destructs s)).

(** *** Balances, nonces, code *)

(** A member of the current account, or a default. *)
Definition get_account_field {A} (f : Account -> A) (d : A) (address : bytes) (s : IBS) : A * IBS :=
  let '(obj, s) := get_object address s in
  (match obj with Some o => match current o with Some a => f a | None => d end | None => d end, s).

Definition get_balance : bytes -> IBS -> Z * IBS := get_account_field balance 0.

(** [get_or_create_object], an [UpdateDelta], then the assignment. *)
Definition update_current (f : Account -> Account) (address : bytes) (s : IBS) : IBS :=
  let '(obj, account, s) := get_or_create_object address s in
  let s := push_delta (UpdateDelta address obj) s in
  put_object address (mkObject (initial obj) (Some (f account))) s.

Definition set_balance (address : bytes) (value : Z) (s : IBS) : IBS :=
  touch address (update_current (fun a => with_balance a value) address s).

Definition add_to_balance (address : bytes) (addend : Z) (s : IBS) : IBS :=
  touch address (update_current (fun a => with_balance a (u256 (balance a + addend))) address s).

Definition subtract_from_balance (address : bytes) (subtrahend : Z) (s : IBS) : IBS :=
  touch address (update_current (fun a => with_balance a (u256 (balance a - subtrahend))) address s).

Definition get_nonce : bytes -> IBS -> Z * IBS := get_account_field nonce 0.

Definition set_nonce (address : bytes) (nonce : Z) (s : IBS) : IBS :=
  update_current (fun a => with_nonce a nonce) address s.

Definition get_code_hash : bytes -> IBS -> bytes * IBS := get_account_field code_hash kEmptyHash.

(** [code_.find(h)], else the stored code, which is then cached. *)
Definition find_code (h : bytes) (s : IBS) : bytes * IBS :=
  match codes s !! h with
  | Some c => (c, s)
  | None => let c := read_code (db s) h in (c, with_codes (<[h := c]> (codes s)) s)
  end.

Definition get_code (address : bytes) (s : IBS) : bytes * IBS :=
  let '(obj, s) := get_object address s in
  match obj with
  | Some o =>
      match current o with
      | Some a => if bytes_eqb (code_hash a) kEmptyHash then ([], s) else find_code (code_hash a) s
      | None => ([], s)
      end
  | None => ([], s)
  end.

Definition set_code (address code : bytes) (s : IBS) : IBS :=
  let h := to_bytes32 (keccak256 code) in
  let s := update_current (fun a => with_code_hash a h) address s in
  match codes s !! h with
  | Some _ => s   (* try_emplace *)
  | None => with_codes (<[h := code]> (codes s)) s
  end.

(** *** Access lists (EIP-2929) *)

Definition access_account (address : bytes) (s : IBS) : Z * IBS :=
  let cold_read := bool_decide (address ∉ accessed_addresses s) in
  let s := with_accessed_addresses (accessed_addresses s ∪ {[address]}) s in
  if cold_read then (EVMC_ACCESS_COLD, push_delta (AccountAccessDelta address) s) else (EVMC_ACCESS_WARM, s).

Definition access_storage (address key : bytes) (s : IBS) : Z * IBS :=
  let keys := default ∅ (accessed_storage_keys s !! address) in
  let cold_read := bool_decide (key ∉ keys) in
  let s := with_accessed_storage_keys (<[address := keys ∪ {[key]}]> (accessed_storage_keys s)) s in
  if cold_read then (EVMC_ACCESS_COLD, push_delta (StorageAccessDelta address key) s) else (EVMC_ACCESS_WARM, s).

(** *** Storage *)

Definition get_storage (address key : bytes) (original : bool) (s : IBS) : bytes * IBS :=
  let '(obj, s) := get_object address s in
  match obj with
  | None => (zero_bytes32, s)
  | Some o =>
      match current o with
      | None => (zero_bytes32, s)
      | Some account =>
          (* operator[] creates the address's entry *)
          let st := storage_at address s in
          let s := put_storage address st s in
          let from_committed :=
            match committed st !! key with
            | Some v => (value_original v, s)
            | None =>
                match initial o with
                | Some i =>
                    if incarnation i =? incarnation account then
                      let v := read_storage (db s) address (incarnation account) key in
                      (v, put_storage address
                            (mkStorage (<[key := mkCommittedValue v v]> (committed st)) (current_values st)) s)
                    else (zero_bytes32, s)
                | None => (zero_bytes32, s)
                end
            end in
          if original then from_committed
          else match current_values st !! key with
               | Some v => (v, s)
               | None => from_committed
               end
      end
  end.

Definition get_current_storage (address key : bytes) : IBS -> bytes * IBS := get_storage address key false.
Definition get_original_storage (address key : bytes) : IBS -> bytes * IBS := get_storage address key true.

Definition set_storage (address key value : bytes) (s : IBS) : IBS :=
  let '(prev, s) := get_current_storage address key s in
  if bytes_eqb prev value then s
  else
    let st := storage_at address s in
    push_delta (StorageChangeDelta address key prev)
      (put_storage address (mkStorage (committed st) (<[key := value]> (current_values st))) s).

(** *** Writing to the buffer *)

Definition write_storage (s : IBS) (d : B) (p : bytes * Storage) : B :=
  let '(address, st) := p in
  match objects s !! address with
  | None => d
  | Some obj =>
      match current obj with
      | None => d
      | Some account =>
          foldl (fun d kv => update_storage address (incarnation account) (fst kv) (value_initial (snd kv))
                               (value_original (snd kv)) d)
            d (map_to_list (committed st))
      end
  end.

Definition incarnation_differs (initial : option Account) (account : Account) : bool :=
  match initial with Some i => negb (incarnation i =? incarnation account) | None => true end.

(** [code_[h]] creates a missing entry with empty code. *)
Definition write_object (s : IBS) (p : bytes * Object) : IBS :=
  let '(address, obj) := p in
  let s := with_db (update_account address (initial obj) (current obj) (db s)) s in
  match current obj with
  | Some account =>
      if negb (bytes_eqb (code_hash account) kEmptyHash) && incarnation_differs (initial obj) account then
        let c := default [] (codes s !! code_hash account) in
        with_db (update_account_code address (incarnation account) (code_hash account) c (db s))
          (with_codes (<[code_hash account := c]> (codes s)) s)
      else s
  | None => s
  end.

(** The order of the entries of a hash map is [map_to_list]'s here; the language leaves it open. *)
Definition write_to_db (block_number : Z) (s : IBS) : IBS :=
  let d := begin_block block_number (db s) in
  let s := with_db (foldl (write_storage s) d (map_to_list (storages s))) s in
  foldl write_object s (map_to_list (objects s)).

(** *** Snapshots and transactions *)

Definition take_snapshot (s : IBS) : Snapshot := mkSnapshot (length (journal s)) (length (state_logs s)) (refund s).

(** The journal never is shorter than a snapshot's when it is reverted to. *)
Definition revert_to_snapshot (snapshot : Snapshot) (s : IBS) : IBS :=
  let n := (length (journal s) - journal_size snapshot)%nat in
  let s' := revert_deltas (take n (journal s)) s in
  with_refund (snapshot_refund snapshot)
    (with_logs (vector_resize empty_log (log_size snapshot) (state_logs s'))
      (with_journal (drop n (journal s)) s')).

(** [committed[key].original = val] for every current value. *)
Definition commit_values (st : Storage) : Storage :=
  mkStorage
    (map_fold (fun key val c =>
       <[key := mkCommittedValue (from_option value_initial zero_bytes32 (c !! key)) val]> c)
      (committed st) (current_values st)) ∅.

Definition finalize_transaction (s : IBS) : IBS := with_storages (commit_values <$> storages s) s.

Definition clear_journal_and_substate (s : IBS) : IBS :=
  mkIntraBlockState (db s) (objects s) (storages s) (codes s) [] ∅ [] ∅ 0 ∅ ∅.

Definition add_log (log : Log) (s : IBS) : IBS := with_logs (state_logs s ++ [log]) s.

Definition add_refund (addend : Z) (s : IBS) : IBS := with_refund (u64 (refund s + addend)) s.

Definition subtract_refund (subtrahend : Z) (s : IBS) : IBS := with_refund (u64 (refund s - subtrahend)) s.

End State.

Arguments IntraBlockState B : clear implicits.
