(* ===== verification/StateCorrect.v ===== *)
(** * StateCorrect: what the state of a block promises

    The views of an [IntraBlockState] are what its getters answer, whatever is cached. Operations are
    stated by their effect on the views; every operation can be undone by its journal entries; and the
    views are what is written to the buffer. *)

From S2P Require Import Prelude Util Keccak Account Block MemoryBuffer IntraBlockState.
Local Open Scope Z_scope.
Local Open Scope silk_scope.

Section Views.
Context {B : Type} `{StateBuffer B}.
Notation IBS := (IntraBlockState B).
Implicit Types (s t : IBS) (a k h : bytes).

(** ** Views *)

Definition view_object (a : bytes) (s : IBS) : option Object :=
  match objects s !! a with
  | Some o => Some o
  | None => match read_account (db s) a with
            | Some acc => Some (mkObject (Some acc) (Some acc))
            | None => None
            end
  end.

Definition view_account (a : bytes) (s : IBS) : option Account := view_object a s ≫= current.

(** The word the buffer holds for an account: none if the account is not the stored one any more. *)
Definition stored_word (d : B) (a : bytes) (i : option Account) (acc : Account) (k : bytes) : bytes :=
  if incarnation_differs i acc then zero_bytes32 else read_storage d a (incarnation acc) k.

(** The committed value of a key, cached or not. *)
Definition committed_value (d : B) (a : bytes) (i : option Account) (acc : Account) (st : Storage) (k : bytes)
  : CommittedValue :=
  match committed st !! k with
  | Some v => v
  | None => mkCommittedValue (stored_word d a i acc k) (stored_word d a i acc k)
  end.

Record KeyView : Type := mkKeyView {
  key_committed : CommittedValue;  (* at the beginning of the block and of the transaction *)
  key_current : bytes
}.

Definition storage_view (d : B) (a : bytes) (o : option Object) (st : Storage) (k : bytes) : option KeyView :=
  obj ← o;
  acc ← current obj;
  let v := committed_value d a (initial obj) acc st k in
  Some (mkKeyView v (default (value_original v) (current_values st !! k))).

Definition view_storage (a k : bytes) (s : IBS) : option KeyView :=
  storage_view (db s) a (view_object a s) (storage_at a s) k.

(** A key of an existing account is known when setting it cannot lose the stored word. *)
Definition known_in (d : B) (a : bytes) (o : option Object) (st : Storage) (k : bytes) : Prop :=
  match o with
  | Some (mkObject i (Some acc)) =>
      committed st !! k <> None \/ current_values st !! k <> None \/ stored_word d a i acc k = zero_bytes32
  | _ => True
  end.

Definition known (a k : bytes) (s : IBS) : Prop := known_in (db s) a (view_object a s) (storage_at a s) k.

(** The cached words of an existing account are the buffer's; those set without a cached word are new. *)
Definition sound_in (d : B) (a : bytes) (o : option Object) (st : Storage) (k : bytes) : Prop :=
  match o with
  | Some (mkObject i (Some acc)) =>
      (forall v, committed st !! k = Some v -> value_initial v = stored_word d a i acc k)
      /\ (committed st !! k = None -> current_values st !! k <> None -> stored_word d a i acc k = zero_bytes32)
  | _ => True
  end.

Definition sound (a k : bytes) (s : IBS) : Prop := sound_in (db s) a (view_object a s) (storage_at a s) k.

(** What may be cached of the storage of an account that does not exist. *)
Definition hidden_ok (a : bytes) (s : IBS) : Prop :=
  (forall k, read_storage (db s) a 0 k = zero_bytes32)
  /\ forall k v, committed (storage_at a s) !! k = Some v -> value_initial v = zero_bytes32.

Definition view_code (h : bytes) (s : IBS) : bytes := default (read_code (db s) h) (codes s !! h).

Definition view_keys (a : bytes) (s : IBS) : gset bytes := default ∅ (accessed_storage_keys s !! a).

(** The object of an account is cached, or there is none to cache; storage is only cached for those. *)
Definition loaded (a : bytes) (s : IBS) : Prop := objects s !! a <> None \/ read_account (db s) a = None.
Definition cached_ok (a : bytes) (s : IBS) : Prop := storages s !! a <> None -> loaded a s.

(** *** [restores t s]: the getters answer in [t] as in [s]

    Two things survive a reverted execution: code under its own hash, and the touch of address 3. *)
Record restores (t s : IBS) : Prop := {
  rs_db : db t = db s;
  rs_object : forall a, view_object a t = view_object a s;
  rs_storage : forall a k, view_storage a k t = view_storage a k s;
  rs_code : forall h, view_code h t = view_code h s \/ to_bytes32 (keccak256 (view_code h t)) = h;
  rs_self_destructs : self_destructs t = self_destructs s;
  rs_touched : touched s ⊆ touched t /\ touched t ⊆ touched s ∪ {[kRipemdAddress]};
  rs_addresses : accessed_addresses t = accessed_addresses s;
  rs_keys : forall a, view_keys a t = view_keys a s;
  rs_known : forall a k, known a k s -> known a k t;
  rs_sound : forall a k, sound a k s -> sound a k t;
  rs_hidden : forall a, view_account a s = None -> hidden_ok a s -> hidden_ok a t;
  rs_loaded : forall a, loaded a s -> loaded a t;
  rs_cached : forall a, cached_ok a s -> cached_ok a t
}.

(** [s'] comes from [s] by changes that its new journal entries undo. *)
Definition undoable (s s' : IBS) : Prop :=
  exists ds, journal s' = ds ++ journal s
    /\ state_logs s `prefix_of` state_logs s'
    /\ forall t, restores t s' -> restores (revert_deltas ds t) s.

(** ** The operations as a step relation *)

Inductive operation : Type :=
| OGetObject (a : bytes)
| OCreateContract (a : bytes)
| ORecordSuicide (a : bytes)
| OTouch (a : bytes)
| OSetBalance (a : bytes) (v : Z)
| OAddToBalance (a : bytes) (v : Z)
| OSubtractFromBalance (a : bytes) (v : Z)
| OSetNonce (a : bytes) (v : Z)
| OGetCode (a : bytes)
| OSetCode (a code : bytes)
| OAccessAccount (a : bytes)
| OAccessStorage (a k : bytes)
| OGetStorage (a k : bytes) (original : bool)
| OSetStorage (a k v : bytes)
| OAddLog (log : Log)
| OAddRefund (n : Z)
| OSubtractRefund (n : Z).

Definition run_operation (o : operation) (s : IBS) : IBS :=
  match o with
  | OGetObject a => snd (get_object a s)
  | OCreateContract a => create_contract a s
  | ORecordSuicide a => record_suicide a s
  | OTouch a => touch a s
  | OSetBalance a v => set_balance a v s
  | OAddToBalance a v => add_to_balance a v s
  | OSubtractFromBalance a v => subtract_from_balance a v s
  | OSetNonce a v => set_nonce a v s
  | OGetCode a => snd (get_code a s)
  | OSetCode a c => set_code a c s
  | OAccessAccount a => snd (access_account a s)
  | OAccessStorage a k => snd (access_storage a k s)
  | OGetStorage a k original => snd (get_storage a k original s)
  | OSetStorage a k v => set_storage a k v s
  | OAddLog l => add_log l s
  | OAddRefund n => add_refund n s
  | OSubtractRefund n => subtract_refund n s
  end.

(** What a call frame does to the state: operations, and inner frames that are reverted. *)
Inductive runs : IBS -> IBS -> Prop :=
| runs_refl s : runs s s
| runs_step s s1 o : runs s s1 -> runs s (run_operation o s1)
| runs_reverted s s1 s2 : runs s s1 -> runs s1 s2 -> runs s (revert_to_snapshot (take_snapshot s1) s2).

(** ** Lemmas: the order *)

Lemma restores_refl s : restores s s.
Proof. split; try done; [by left|set_solver]. Qed.

Lemma restores_trans t s' s : restores t s' -> restores s' s -> restores t s.
Proof.
  intros [] []. split; try congruence; eauto.
  - intros h. destruct (rs_code0 h) as [E|E]; [|by right]. rewrite E. apply rs_code1.
  - set_solver.
  - intros a Ha Hh. apply rs_hidden0; [|by apply rs_hidden1]. unfold view_account. by rewrite rs_object1.
Qed.

Lemma undoable_refl s : undoable s s.
Proof. exists []. split_and!; [done|done|]. intros t Ht. exact Ht. Qed.

Lemma undoable_trans s s1 s2 : undoable s s1 -> undoable s1 s2 -> undoable s s2.
Proof.
  intros (d1 & J1 & L1 & R1) (d2 & J2 & L2 & R2). exists (d2 ++ d1). split_and!.
  - by rewrite J2, J1, app_assoc.
  - by etransitivity.
  - intros t Ht. unfold revert_deltas. rewrite foldl_app. apply R1, R2, Ht.
Qed.

(** A step without journal entry. *)
Lemma undoable_quiet s s' :
  journal s' = journal s -> state_logs s `prefix_of` state_logs s' -> restores s' s -> undoable s s'.
Proof. intros J L R. exists []. split_and!; [done|done|]. intros t Ht. by eapply restores_trans. Qed.

(** A change with its journal entry. *)
Lemma undoable_delta d s s1 :
  journal s1 = journal s -> state_logs s1 = state_logs s ->
  (forall t, restores t s1 -> restores (revert_delta d t) s) -> undoable s (push_delta d s1).
Proof.
  intros J L R. exists [d]. split_and!; [cbn; by rewrite J|cbn; by rewrite L|].
  intros t Ht. apply R. destruct Ht. by split.
Qed.

(** ** Lemmas: objects *)

Lemma view_object_put a o s a' :
  view_object a' (put_object a o s) = if decide (a = a') then Some o else view_object a' s.
Proof.
  unfold view_object. cbn. destruct (decide (a = a')) as [->|Hne]; [by rewrite lookup_insert_eq|].
  by rewrite lookup_insert_ne.
Qed.

Lemma view_object_same objs s a :
  objs !! a = objects s !! a -> view_object a (with_objects objs s) = view_object a s.
Proof. unfold view_object. cbn. by intros ->. Qed.

(** Steps that change only cached objects and leave the object views alone. *)
Lemma restores_objects objs s :
  (forall a, view_object a (with_objects objs s) = view_object a s) ->
  (forall a, objects s !! a <> None -> objs !! a <> None) -> restores (with_objects objs s) s.
Proof.
  intros E Hl. assert (forall a, loaded a s -> loaded a (with_objects objs s)) as Hl'.
  { intros a [H1|H1]; [left; by apply Hl|by right]. }
  split; try done; [|by left|set_solver|..].
  - intros a k. unfold view_storage. by rewrite E.
  - intros a k. unfold known. by rewrite E.
  - intros a k. unfold sound. by rewrite E.
  - intros a Hc Hs. by apply Hl', Hc.
Qed.

Lemma get_object_eq a s :
  get_object a s = (view_object a s, with_objects (match view_object a s with
                                                   | Some o => <[a := o]> (objects s)
                                                   | None => objects s
                                                   end) s).
Proof.
  unfold get_object, view_object. destruct (objects s !! a) as [o|] eqn:E.
  - rewrite insert_id by done. by destruct s.
  - destruct (read_account (db s) a); [done|]. by destruct s.
Qed.

Lemma get_object_quiet a s : restores (snd (get_object a s)) s.
Proof.
  rewrite get_object_eq. cbn. apply restores_objects; intros a'.
  - destruct (view_object a s) as [o|] eqn:E; [|by apply view_object_same].
    change (with_objects (<[a:=o]> (objects s)) s) with (put_object a o s). rewrite view_object_put.
    destruct (decide (a = a')) as [<-|]; done.
  - destruct (view_object a s); [|done]. rewrite lookup_insert. by case_decide.
Qed.

Lemma get_object_undoable a s : undoable s (snd (get_object a s)).
Proof. apply undoable_quiet; [by rewrite get_object_eq..|apply get_object_quiet]. Qed.

(** ** Lemmas: changing one account *)

Lemma stored_word_incarnation d a i acc acc' k :
  incarnation acc = incarnation acc' -> stored_word d a i acc k = stored_word d a i acc' k.
Proof. intros E. unfold stored_word, incarnation_differs. rewrite E. by destruct i. Qed.

Lemma storage_view_object d a i acc acc' st k :
  incarnation acc = incarnation acc' ->
  storage_view d a (Some (mkObject i (Some acc))) st k = storage_view d a (Some (mkObject i (Some acc'))) st k.
Proof.
  intros E. unfold storage_view, committed_value. cbn.
  by rewrite (stored_word_incarnation d a i acc acc' k E).
Qed.

Lemma known_in_object d a i acc acc' st k :
  incarnation acc = incarnation acc' ->
  known_in d a (Some (mkObject i (Some acc))) st k = known_in d a (Some (mkObject i (Some acc'))) st k.
Proof. intros E. unfold known_in. by rewrite (stored_word_incarnation d a i acc acc' k E). Qed.

Lemma sound_in_object d a i acc acc' st k :
  incarnation acc = incarnation acc' ->
  sound_in d a (Some (mkObject i (Some acc))) st k = sound_in d a (Some (mkObject i (Some acc'))) st k.
Proof. intros E. unfold sound_in. by rewrite (stored_word_incarnation d a i acc acc' k E). Qed.

(** An account created over nothing keeps what is hidden. *)
Lemma hidden_of_created a i acc (s t : IBS) :
  hidden_ok a s ->
  (incarnation acc = 0 \/ i = None) -> db t = db s ->
  (forall k, storage_view (db t) a (Some (mkObject i (Some acc))) (storage_at a t) k
             = storage_view (db s) a (Some (mkObject i (Some acc))) (storage_at a s) k) ->
  hidden_ok a t.
Proof.
  intros [Hz Hs] Hi Ed E. split; [by rewrite Ed|]. intros k v Hv. specialize (E k).
  unfold storage_view, committed_value in E. cbn in E. rewrite Hv in E.
  assert (stored_word (db s) a i acc k = zero_bytes32) as Hw.
  { unfold stored_word, incarnation_differs. destruct Hi as [Hi| ->]; [|done]. rewrite Hi, Hz. destruct i as [i0|]; [by destruct (negb _)|done]. }
  destruct (committed (storage_at a s) !! k) as [w|] eqn:Ew; injection E as Ev _.
  - subst. by eapply Hs.
  - by rewrite Ev, Hw.
Qed.

(** Only the objects differ, and only at [a]. *)
Definition changes_object (a : bytes) (o : option Object) (s s' : IBS) : Prop :=
  (forall a', view_object a' s' = if decide (a = a') then o else view_object a' s)
  /\ db s' = db s /\ storages s' = storages s /\ codes s' = codes s
  /\ self_destructs s' = self_destructs s /\ touched s' = touched s
  /\ accessed_addresses s' = accessed_addresses s /\ accessed_storage_keys s' = accessed_storage_keys s
  /\ state_logs s' = state_logs s /\ refund s' = refund s.

Lemma changes_object_put a o ds s :
  changes_object a (Some o) s (put_object a o (with_journal ds s)).
Proof. split; [|done]. intros a'. rewrite view_object_put. by case_decide. Qed.

Lemma changes_object_trans a o1 o2 s s1 s2 :
  changes_object a o1 s s1 -> changes_object a o2 s1 s2 -> changes_object a o2 s s2.
Proof.
  intros (V1 & ?) (V2 & ?). split; [|intuition congruence]. intros a'. rewrite V2. case_decide; [done|].
  rewrite V1. by rewrite decide_False.
Qed.

Lemma get_object_changes a s : changes_object a (view_object a s) s (snd (get_object a s)).
Proof.
  rewrite get_object_eq. split; [|done]. intros a'. cbn. destruct (view_object a s) as [o|] eqn:E.
  - change (with_objects (<[a:=o]> (objects s)) s) with (put_object a o s). apply view_object_put.
  - rewrite view_object_same by done. by case_decide; subst.
Qed.

Lemma loaded_put a o s a' : loaded a' s -> loaded a' (put_object a o s).
Proof.
  intros [Hl|Hl]; [left|by right]. cbn. rewrite lookup_insert. by case_decide.
Qed.

Lemma cached_put a o s a' : cached_ok a' s -> cached_ok a' (put_object a o s).
Proof. intros Hc Hs. by apply loaded_put, Hc. Qed.

(** Reverting an [UpdateDelta]: the account had the same incarnation, or did not exist. *)
Lemma update_undoable a o o' s :
  view_object a s = Some o -> initial o' = initial o ->
  match current o, current o' with
  | Some acc, Some acc' => incarnation acc = incarnation acc'
  | None, Some acc' => incarnation acc' = 0
  | _, None => False
  end ->
  undoable s (put_object a o' (push_delta (UpdateDelta a o) s)).
Proof.
  intros V I C. change (undoable s (push_delta (UpdateDelta a o) (put_object a o' s))).
  apply undoable_delta; [done..|]. intros t [Rd Ro Rs Rc Rx Rt Ra Rk Rn Rw Rh Rl Rz].
  assert (forall a', view_object a' (put_object a o t) = view_object a' s) as Vo.
  { intros a'. rewrite view_object_put. case_decide; [by subst|]. rewrite Ro, view_object_put.
    by rewrite decide_False. }
  change (db t = db s) in Rd. destruct o as [i c], o' as [i' [acc'|]]; cbn in I, C; [|by destruct c]. subst i'.
  split; try done.
  - intros a' k. unfold view_storage. rewrite Vo. specialize (Rs a' k). unfold view_storage in Rs.
    rewrite Ro, view_object_put in Rs. case_decide as Ea; [subst a'|exact Rs]. rewrite V.
    destruct c as [acc|]; [|done]. rewrite !(storage_view_object _ _ i acc acc') by done. exact Rs.
  - intros a' k. unfold known. rewrite Vo. specialize (Rn a' k). unfold known in Rn.
    rewrite Ro, view_object_put in Rn. case_decide as Ea; [subst a'|exact Rn]. rewrite V.
    destruct c as [acc|]; [|done]. rewrite !(known_in_object _ _ i acc acc') by done. exact Rn.
  - intros a' k. unfold sound. rewrite Vo. specialize (Rw a' k). unfold sound in Rw.
    rewrite Ro, view_object_put in Rw. case_decide as Ea; [subst a'|exact Rw]. rewrite V.
    destruct c as [acc|]; [|done]. rewrite !(sound_in_object _ _ i acc acc') by done. exact Rw.
  - intros a' Ha Hh. destruct (decide (a = a')) as [<-|Hne].
    + unfold view_account in Ha. rewrite V in Ha. cbn in Ha. subst c.
      apply (hidden_of_created a i acc' s); [done|by left|done|]. intros k. specialize (Rs a k).
      unfold view_storage in Rs. rewrite Ro, view_object_put, decide_True in Rs by done. exact Rs.
    + apply (Rh a'); [|exact Hh]. unfold view_account. rewrite view_object_put. by rewrite decide_False.
  - intros a' Hl. by apply loaded_put, Rl, loaded_put.
  - intros a' Hc. by apply cached_put, Rz, cached_put.
Qed.

Lemma create_undoable a acc s :
  view_object a s = None ->
  undoable s (put_object a (mkObject None (Some acc)) (push_delta (CreateDelta a) s)).
Proof.
  intros V. set (o := mkObject None (Some acc)). change (undoable s (push_delta (CreateDelta a) (put_object a o s))).
  apply undoable_delta; [done..|]. intros t [Rd Ro Rs Rc Rx Rt Ra Rk Rn Rw Rh Rl Rz].
  assert (forall a', view_object a' (revert_delta (CreateDelta a) t) = view_object a' s) as Vo.
  { intros a'. cbn. destruct (decide (a = a')) as [<-|Hne].
    - rewrite V. unfold view_object in *. cbn. rewrite lookup_delete_eq.
      change (db t = db s) in Rd. rewrite Rd. destruct (objects s !! a); [done|]. destruct (read_account (db s) a); done.
    - rewrite view_object_same by (by apply lookup_delete_ne). rewrite Ro, view_object_put. by rewrite decide_False. }
  assert (forall a', loaded a' t -> loaded a' (revert_delta (CreateDelta a) t)) as Hld.
  { intros a' [Hl|Hl]; [|by right]. unfold loaded. cbn. rewrite lookup_delete. case_decide as Ea; [|by left].
    subst a'. right. rewrite Rd. cbn. unfold view_object in V. destruct (objects s !! a); [done|].
    by destruct (read_account (db s) a). }
  change (db t = db s) in Rd. split; try done.
  - intros a' k. unfold view_storage. rewrite Vo. specialize (Rs a' k). unfold view_storage in Rs.
    rewrite Ro, view_object_put in Rs. case_decide as Ea; [subst a'; by rewrite V|exact Rs].
  - intros a' k. unfold known. rewrite Vo. specialize (Rn a' k). unfold known in Rn.
    rewrite Ro, view_object_put in Rn. case_decide as Ea; [subst a'; by rewrite V|exact Rn].
  - intros a' k. unfold sound. rewrite Vo. specialize (Rw a' k). unfold sound in Rw.
    rewrite Ro, view_object_put in Rw. case_decide as Ea; [subst a'; by rewrite V|exact Rw].
  - intros a' Ha Hh. destruct (decide (a = a')) as [<-|Hne].
    + apply (hidden_of_created a None acc s); [done|by right|done|]. intros k. specialize (Rs a k).
      unfold view_storage in Rs. rewrite Ro, view_object_put, decide_True in Rs by done. exact Rs.
    + apply (Rh a'); [|exact Hh]. unfold view_account. rewrite view_object_put. by rewrite decide_False.
  - intros a' Hl. apply Hld. by apply Rl, loaded_put.
  - intros a' Hc Hs. apply Hld. by apply (Rz a'); [apply cached_put|].
Qed.

Lemma get_or_create_spec a s o acc s' :
  get_or_create_object a s = (o, acc, s') ->
  o = mkObject (view_object a s ≫= initial) (Some acc) /\ acc = default empty_account (view_account a s)
  /\ changes_object a (Some o) s s' /\ undoable s s'.
Proof.
  unfold get_or_create_object, view_account. pose proof (get_object_changes a s) as Hc.
  pose proof (get_object_undoable a s) as Hu. rewrite get_object_eq in *.
  set (s0 := with_objects _ s) in *. cbn [snd] in *.
  assert (view_object a s0 = view_object a s) as V0.
  { destruct Hc as [Hc _]. rewrite Hc. by rewrite decide_True. }
  destruct (view_object a s) as [[i [c|]]|] eqn:V; cbn; intros [= <- <- <-]; (split; [done|]); (split; [done|]); split.
  - done.
  - done.
  - eapply changes_object_trans; [exact Hc|]. apply changes_object_put.
  - eapply undoable_trans; [exact Hu|]. by apply update_undoable.
  - eapply changes_object_trans; [exact Hc|]. apply changes_object_put.
  - eapply undoable_trans; [exact Hu|]. by apply create_undoable.
Qed.

Lemma update_current_spec f a s :
  (forall acc, incarnation (f acc) = incarnation acc) ->
  changes_object a (Some (mkObject (view_object a s ≫= initial) (Some (f (default empty_account (view_account a s))))))
    s (update_current f a s)
  /\ undoable s (update_current f a s).
Proof.
  intros Hf. unfold update_current. destruct (get_or_create_object a s) as [[o acc] s1] eqn:E.
  apply get_or_create_spec in E as (Eo & Ea & Hc & Hu). rewrite <- Ea. split.
  - eapply changes_object_trans; [exact Hc|]. rewrite Eo. cbn. apply changes_object_put.
  - eapply undoable_trans; [exact Hu|]. apply update_undoable.
    + destruct Hc as [V _]. rewrite V. by rewrite decide_True.
    + done.
    + rewrite Eo. cbn. by rewrite Hf.
Qed.

(** ** Lemmas: the substate *)

Lemma touch_undoable a s : undoable s (touch a s).
Proof.
  unfold touch. case_bool_decide as Hin; cbn [andb].
  - destruct (bytes_eqb a kRipemdAddress) eqn:E; cbn [negb].
    + apply bytes_eqb_eq in E as ->. apply undoable_quiet; [done..|].
      split; try done; [by left|set_solver].
    + apply undoable_delta; [done..|]. intros t []. split; try done. cbn in *. set_solver.
  - apply undoable_quiet; [done..|]. split; try done; [by left|]. cbn. set_solver.
Qed.

Lemma touch_touched a s : touched (touch a s) = touched s ∪ {[a]}.
Proof. unfold touch. by case_match. Qed.

Lemma record_suicide_undoable a s : undoable s (record_suicide a s).
Proof.
  unfold record_suicide. case_bool_decide as Hin.
  - apply undoable_delta; [done..|]. intros t []. split; try done. cbn in *. set_solver.
  - apply undoable_quiet; [done..|]. split; try done; [by left| |]; cbn; set_solver.
Qed.

Lemma access_account_undoable a s : undoable s (snd (access_account a s)).
Proof.
  unfold access_account. case_bool_decide as Hin; cbn [snd].
  - apply undoable_delta; [done..|]. intros t []. split; try done. cbn in *. set_solver.
  - apply undoable_quiet; [done..|]. split; try done; [by left|..]; cbn; set_solver.
Qed.

Lemma view_keys_put a a' ks (s : IBS) :
  view_keys a' (with_accessed_storage_keys (<[a := ks]> (accessed_storage_keys s)) s)
  = if decide (a = a') then ks else view_keys a' s.
Proof.
  unfold view_keys. cbn. destruct (decide (a = a')) as [->|Hne]; [by rewrite lookup_insert_eq|].
  by rewrite lookup_insert_ne.
Qed.

Lemma access_storage_undoable a k s : undoable s (snd (access_storage a k s)).
Proof.
  unfold access_storage. fold (view_keys a s). case_bool_decide as Hin; cbn [snd].
  - apply undoable_delta; [done..|]. intros t []. split; try done. intros a'. cbn [revert_delta].
    fold (view_keys a t). rewrite view_keys_put. specialize (rs_keys0 a') as Ek. rewrite view_keys_put in Ek.
    destruct (decide (a = a')) as [<-|Hne]; [|done]. rewrite Ek. set_solver.
  - apply undoable_quiet; [done..|]. split; try done; [by left|set_solver|].
    intros a'. rewrite view_keys_put. case_decide as Ea; [subst|done]. set_solver.
Qed.

(** ** Lemmas: code *)

Lemma view_code_put h c s h' :
  view_code h' (with_codes (<[h := c]> (codes s)) s) = if decide (h = h') then c else view_code h' s.
Proof.
  unfold view_code. cbn. destruct (decide (h = h')) as [->|Hne]; [by rewrite lookup_insert_eq|].
  by rewrite lookup_insert_ne.
Qed.

Lemma find_code_spec h s : fst (find_code h s) = view_code h s
  /\ undoable s (snd (find_code h s)).
Proof.
  unfold find_code. destruct (codes s !! h) eqn:E; cbn; unfold view_code; rewrite E; cbn.
  - split; [done|apply undoable_refl].
  - split; [done|]. apply undoable_quiet; [done..|]. split; try done; [|set_solver].
    intros h'. left. rewrite view_code_put. case_decide; [|done]. subst. unfold view_code. by rewrite E.
Qed.

Definition view_code_of (a : bytes) (s : IBS) : bytes :=
  match view_account a s with
  | Some acc => if bytes_eqb (code_hash acc) kEmptyHash then [] else view_code (code_hash acc) s
  | None => []
  end.

Lemma get_code_spec a s : fst (get_code a s) = view_code_of a s /\ undoable s (snd (get_code a s)).
Proof.
  unfold get_code, view_code_of, view_account. pose proof (get_object_undoable a s) as Hu.
  rewrite get_object_eq in *. cbn [snd] in Hu. destruct (view_object a s) as [[i0 [c|]]|]; cbn [current mbind option_bind]; [|by split..].
  destruct (bytes_eqb (code_hash c) kEmptyHash); [by split|].
  match goal with |- context [find_code _ ?s0] => destruct (find_code_spec (code_hash c) s0) as [Ef Hu'] end.
  split; [exact Ef|]. by eapply undoable_trans.
Qed.

Lemma set_code_undoable a c s : undoable s (set_code a c s).
Proof.
  unfold set_code. set (h := to_bytes32 (keccak256 c)).
  destruct (update_current_spec (fun acc => with_code_hash acc h) a s) as [_ Hu]; [done|].
  set (s1 := update_current _ a s) in *. destruct (codes s1 !! h) eqn:E; [done|].
  eapply undoable_trans; [exact Hu|]. apply undoable_quiet; [done..|]. split; try done; [|set_solver].
  intros h'. rewrite view_code_put. case_decide as Eh; [right; by rewrite <- Eh|by left].
Qed.

(** ** Lemmas: storage *)

Lemma storage_at_put a st s a' :
  storage_at a' (put_storage a st s) = if decide (a = a') then st else storage_at a' s.
Proof.
  unfold storage_at. cbn. destruct (decide (a = a')) as [->|Hne]; [by rewrite lookup_insert_eq|].
  by rewrite lookup_insert_ne.
Qed.

Lemma view_storage_put a st s a' k :
  view_storage a' k (put_storage a st s)
  = if decide (a = a') then storage_view (db s) a (view_object a s) st k else view_storage a' k s.
Proof.
  unfold view_storage. rewrite storage_at_put. change (view_object a' (put_storage a st s)) with (view_object a' s).
  case_decide; [by subst|done].
Qed.

(** What another storage entry may cache more. *)
Definition storage_refines (a : bytes) (st : Storage) (s : IBS) : Prop :=
  forall k, storage_view (db s) a (view_object a s) st k = view_storage a k s
    /\ (known a k s -> known_in (db s) a (view_object a s) st k)
    /\ (sound a k s -> sound_in (db s) a (view_object a s) st k).

(** Steps that change only the cached storage of an existing account and leave its views alone. *)
Lemma restores_storage a st s :
  view_account a s <> None -> objects s !! a <> None -> storage_refines a st s -> restores (put_storage a st s) s.
Proof.
  intros Hx Hl E. split; try done; [|by left|set_solver|..].
  - intros a' k. rewrite view_storage_put. case_decide; [subst; apply E|done].
  - intros a' k. unfold known. rewrite storage_at_put. change (view_object a' (put_storage a st s)) with (view_object a' s).
    case_decide; [subst; apply E|done].
  - intros a' k. unfold sound. rewrite storage_at_put. change (view_object a' (put_storage a st s)) with (view_object a' s).
    case_decide; [subst; apply E|done].
  - intros a' Ha Hh. unfold hidden_ok. rewrite storage_at_put. rewrite decide_False by congruence. exact Hh.
  - intros a' Hc. unfold cached_ok. cbn. rewrite lookup_insert. case_decide; [subst; by left|exact Hc].
Qed.

Lemma storage_refines_cached a k i acc s :
  view_object a s = Some (mkObject i (Some acc)) ->
  committed (storage_at a s) !! k = None ->
  let w := stored_word (db s) a i acc k in
  storage_refines a (mkStorage (<[k := mkCommittedValue w w]> (committed (storage_at a s))) (current_values (storage_at a s))) s.
Proof.
  intros V E w k'. unfold view_storage, known, sound. rewrite V. unfold storage_view, known_in, sound_in, committed_value.
  cbn. destruct (decide (k = k')) as [<-|Hne].
  - rewrite lookup_insert_eq, E. split_and!; [done|by left|]. intros [_ _]. split; [|done].
    intros v. intros [= <-]. done.
  - rewrite lookup_insert_ne by done. done.
Qed.

(** The value [get_storage] answers. *)
Definition view_value (a k : bytes) (original : bool) (s : IBS) : bytes :=
  match view_storage a k s with
  | Some v => if original then value_original (key_committed v) else key_current v
  | None => zero_bytes32
  end.

Lemma get_storage_spec a k original s :
  fst (get_storage a k original s) = view_value a k original s
  /\ restores (snd (get_storage a k original s)) s
  /\ journal (snd (get_storage a k original s)) = journal s
  /\ state_logs (snd (get_storage a k original s)) = state_logs s.
Proof.
  unfold get_storage, view_value, view_storage. pose proof (get_object_quiet a s) as Hq.
  destruct (get_object_changes a s) as (Vo & Ed & Es & _). rewrite get_object_eq in *. cbn [snd] in *.
  set (s0 := with_objects _ s) in *. specialize (Vo a). rewrite decide_True in Vo by done.
  destruct (view_object a s) as [[i [acc|]]|] eqn:V; cbn [current initial]; [|done..].
  change (storage_at a s) with (storage_at a s0). change (db s) with (db s0).
  set (st := storage_at a s0) in *.
  assert (view_account a s0 <> None) as Hx by (unfold view_account; by rewrite Vo).
  assert (objects s0 !! a <> None) as Hl by (subst s0; cbn; by rewrite lookup_insert_eq).
  assert (forall kv, storage_refines a kv s0 -> restores (put_storage a kv (put_storage a st s0)) s) as Hr2.
  { intros kv Hkv. eapply restores_trans; [|exact Hq].
    replace (put_storage a kv (put_storage a st s0)) with (put_storage a kv s0); [by apply restores_storage|].
    unfold put_storage, with_storages. cbn. by rewrite insert_insert_eq. }
  assert (restores (put_storage a st s0) s) as Hr.
  { eapply restores_trans; [|exact Hq]. apply restores_storage; [done..|]. intros k'. done. }
  cbn [mbind option_bind storage_view]. unfold storage_view. cbn.
  pose proof (storage_refines_cached a k i acc s0 Vo) as Hc. fold st in Hc.
  unfold committed_value, stored_word, incarnation_differs in *.
  destruct original; [|destruct (current_values st !! k) as [v|] eqn:Ec; [by split_and!|]].
  all: cbn [default from_option].
  all: destruct (committed st !! k) as [v|] eqn:Em; [by split_and!|].
  all: destruct i as [i|]; [|by split_and!].
  all: destruct (incarnation i =? incarnation acc) eqn:Ei; cbn [negb] in *; [|by split_and!].
  all: cbn [fst snd]; split_and!; [done| |done..].
  all: apply Hr2; by apply Hc.
Qed.

Lemma get_object_loaded a s : loaded a (snd (get_object a s)).
Proof.
  rewrite get_object_eq. unfold loaded, view_object. cbn. destruct (objects s !! a) eqn:E.
  - left. by rewrite lookup_insert_eq.
  - destruct (read_account (db s) a) eqn:Er; [left; by rewrite lookup_insert_eq|by right].
Qed.

Lemma get_storage_loaded a k original s : loaded a (snd (get_storage a k original s)).
Proof.
  pose proof (get_object_loaded a s) as Hl. unfold get_storage. destruct (get_object a s) as [[[i [acc|]]|] s0];
    cbn [current initial snd] in *; [|exact Hl..].
  destruct original; [|destruct (current_values _ !! k); [exact Hl|]].
  all: destruct (committed _ !! k); [exact Hl|].
  all: destruct i as [i|]; [|exact Hl].
  all: by destruct (incarnation i =? incarnation acc).
Qed.

(** After a key is read, setting it cannot lose the stored word. *)
Lemma get_storage_known a k s : known a k (snd (get_storage a k false s)).
Proof.
  unfold get_storage. destruct (get_object_changes a s) as (Vo & _). rewrite get_object_eq in *. cbn [snd] in *.
  set (s0 := with_objects _ s) in *. specialize (Vo a). rewrite decide_True in Vo by done.
  destruct (view_object a s) as [[i [acc|]]|] eqn:V; cbn [current initial];
    [|unfold known; cbn [snd]; by rewrite Vo..].
  change (storage_at a s) with (storage_at a s0). set (st := storage_at a s0).
  assert (forall kv, known_in (db s0) a (Some (mkObject i (Some acc))) kv k ->
          known a k (put_storage a kv (put_storage a st s0))) as Hk.
  { intros kv Hkv. unfold known. rewrite storage_at_put, decide_True by done.
    change (view_object a (put_storage a kv (put_storage a st s0))) with (view_object a s0). rewrite Vo. exact Hkv. }
  assert (known_in (db s0) a (Some (mkObject i (Some acc))) st k -> known a k (put_storage a st s0)) as Hk0.
  { intros Hkv. specialize (Hk st Hkv). unfold known in *. rewrite storage_at_put, decide_True in * by done. exact Hk. }
  unfold known_in, stored_word, incarnation_differs in Hk, Hk0.
  destruct (current_values st !! k) as [v|] eqn:Ec; [apply Hk0; right; by left|].
  destruct (committed st !! k) as [v|] eqn:Em; [apply Hk0; by left|].
  destruct i as [i|]; [|apply Hk0; right; by right].
  destruct (incarnation i =? incarnation acc) eqn:Ei; cbn [negb snd] in *; [|apply Hk0; right; by right].
  apply Hk. left. cbn. by rewrite lookup_insert_eq.
Qed.

Lemma get_storage_undoable a k original s : undoable s (snd (get_storage a k original s)).
Proof. destruct (get_storage_spec a k original s) as (_ & R & J & L). apply undoable_quiet; [done|by rewrite L|done]. Qed.

Lemma storage_view_insert d a o st k v k' :
  storage_view d a o (mkStorage (committed st) (<[k := v]> (current_values st))) k'
  = if decide (k = k')
    then match storage_view d a o st k' with Some c => Some (mkKeyView (key_committed c) v) | None => None end
    else storage_view d a o st k'.
Proof.
  unfold storage_view. destruct o as [[i [acc|]]|]; cbn; [|by case_decide..].
  unfold committed_value. cbn. case_decide as E; [subst; by rewrite lookup_insert_eq|].
  by rewrite lookup_insert_ne.
Qed.

Lemma known_in_insert d a o st k v k' :
  known_in d a o st k' -> known_in d a o (mkStorage (committed st) (<[k := v]> (current_values st))) k'.
Proof.
  destruct o as [[i [acc|]]|]; cbn; [|done..]. intros [Hk|[Hk|Hk]]; [by left| |by right; right].
  right. left. destruct (decide (k = k')) as [<-|Hne]; [by rewrite lookup_insert_eq|by rewrite lookup_insert_ne].
Qed.

Lemma sound_in_insert d a o st k v k' :
  known_in d a o st k -> sound_in d a o st k' ->
  sound_in d a o (mkStorage (committed st) (<[k := v]> (current_values st))) k'.
Proof.
  destruct o as [[i [acc|]]|]; cbn; [|done..]. intros Hk [H1 H2]. split; [done|]. intros Hn.
  destruct (decide (k = k')) as [<-|Hne]; [|rewrite lookup_insert_ne by done; by apply H2]. intros _.
  destruct Hk as [Hk|[Hk|Hk]]; [done|by apply H2|done].
Qed.

(** [storage_[address].current[key] = value] *)
Definition put_value (a k v : bytes) (s : IBS) : IBS :=
  put_storage a (mkStorage (committed (storage_at a s)) (<[k := v]> (current_values (storage_at a s)))) s.

Lemma put_value_view a k v s a' k' :
  view_storage a' k' (put_value a k v s)
  = if decide (a = a' /\ k = k')
    then match view_storage a k s with Some c => Some (mkKeyView (key_committed c) v) | None => None end
    else view_storage a' k' s.
Proof.
  unfold put_value. rewrite view_storage_put, storage_view_insert. destruct (decide (a = a')) as [<-|Ha].
  - case_decide as Hk; [subst; by rewrite decide_True|]. by rewrite decide_False by tauto.
  - by rewrite decide_False by tauto.
Qed.

Lemma put_value_known a k v s a' k' : known a' k' s -> known a' k' (put_value a k v s).
Proof.
  unfold known, put_value. rewrite storage_at_put. intros Hk. case_decide; [subst|exact Hk]. by apply known_in_insert.
Qed.

Lemma put_value_sound a k v s a' k' : known a k s -> sound a' k' s -> sound a' k' (put_value a k v s).
Proof.
  unfold sound, known, put_value. rewrite storage_at_put. intros Hk Hs. case_decide; [subst|exact Hs].
  by apply sound_in_insert.
Qed.

Lemma put_value_hidden a k v s a' : hidden_ok a' (put_value a k v s) <-> hidden_ok a' s.
Proof.
  unfold hidden_ok, put_value. rewrite storage_at_put. change (db (put_storage _ _ s)) with (db s).
  case_decide; [by subst|done].
Qed.

Lemma put_value_cached a k v s a' : loaded a s -> cached_ok a' s -> cached_ok a' (put_value a k v s).
Proof.
  intros Hl Hc. unfold cached_ok, put_value. cbn. rewrite lookup_insert. case_decide; [by subst|exact Hc].
Qed.

Lemma put_value_undoable a k v s :
  known a k s -> loaded a s -> undoable s (push_delta (StorageChangeDelta a k (view_value a k false s)) (put_value a k v s)).
Proof.
  intros Hkn Hld. apply undoable_delta; [done..|]. intros t [Rd Ro Rs Rc Rx Rt Ra Rk Rn Rw Rh Rl Rz]. cbn [revert_delta].
  fold (put_value a k (view_value a k false s) t). split; try done.
  - intros a' k'. rewrite put_value_view. pose proof (Rs a' k') as E. rewrite put_value_view in E.
    destruct (decide (a = a' /\ k = k')) as [[<- <-]|Hne]; [|exact E]. rewrite E. unfold view_value.
    destruct (view_storage a k s) as [[c w]|]; done.
  - intros a' k' Hk'. apply put_value_known, Rn. by apply put_value_known.
  - intros a' k' Hs'. apply put_value_sound; [by apply Rn, put_value_known|]. by apply Rw, put_value_sound.
  - intros a' Ha Hh. apply put_value_hidden, (Rh a'); [exact Ha|]. by apply put_value_hidden.
  - intros a' Hc. apply put_value_cached; [by apply Rl|]. apply Rz. by apply put_value_cached.
Qed.

Lemma set_storage_eq a k v s :
  set_storage a k v s
  = let s1 := snd (get_storage a k false s) in
    if bytes_eqb (view_value a k false s1) v then s1
    else push_delta (StorageChangeDelta a k (view_value a k false s1)) (put_value a k v s1).
Proof.
  unfold set_storage, get_current_storage. destruct (get_storage_spec a k false s) as (Ev & R & _).
  destruct (get_storage a k false s) as [prev s1]. cbn [fst snd] in *.
  assert (view_value a k false s1 = prev) as ->; [|done].
  rewrite Ev. unfold view_value. by rewrite (rs_storage _ _ R).
Qed.

Lemma set_storage_undoable a k v s : undoable s (set_storage a k v s).
Proof.
  rewrite set_storage_eq. cbn. pose proof (get_storage_undoable a k false s) as Hu.
  destruct (bytes_eqb _ v); [exact Hu|]. eapply undoable_trans; [exact Hu|].
  apply put_value_undoable; [apply get_storage_known|apply get_storage_loaded].
Qed.

(** ** Lemmas: creating a contract *)

Definition previous_incarnation_of (a : bytes) (s : IBS) : Z :=
  let n := match view_object a s with
           | Some o => match current o with
                       | Some c => incarnation c
                       | None => match initial o with Some i => incarnation i | None => 0 end
                       end
           | None => 0
           end in
  if n =? 0 then previous_incarnation (db s) a else n.

Definition created_object (a : bytes) (s : IBS) : Object :=
  mkObject (view_object a s ≫= initial)
    (Some (mkAccount 0 (from_option balance 0 (view_account a s)) kEmptyHash
             (u64 (previous_incarnation_of a s + 1)))).

(** The entries before the storage is dropped, then the dropping. *)
Definition created_state (a : bytes) (s : IBS) : IBS :=
  put_object a (created_object a s)
    (push_delta (match view_object a s with Some p => UpdateDelta a p | None => CreateDelta a end)
      (snd (get_object a s))).

Definition drop_storage (a : bytes) (s : IBS) : IBS :=
  match storages s !! a with
  | None => push_delta (StorageCreateDelta a) s
  | Some st => with_storages (delete a (storages s)) (push_delta (StorageWipeDelta a st) s)
  end.

Lemma create_contract_eq a s : create_contract a s = drop_storage a (created_state a s).
Proof.
  unfold create_contract, drop_storage, created_state, created_object, previous_incarnation_of, view_account.
  rewrite get_object_eq. cbn [snd]. destruct (view_object a s) as [[i [c|]]|]; cbn; try done.
  by destruct i.
Qed.

Lemma storage_at_delete a s a' :
  storage_at a' (with_storages (delete a (storages s)) s) = if decide (a = a') then empty_storage else storage_at a' s.
Proof.
  unfold storage_at. cbn. destruct (decide (a = a')) as [->|Hne]; [by rewrite lookup_delete_eq|].
  by rewrite lookup_delete_ne.
Qed.

Lemma created_view a s a' :
  view_object a' (created_state a s) = if decide (a = a') then Some (created_object a s) else view_object a' s.
Proof.
  unfold created_state. rewrite view_object_put. case_decide; [done|].
  destruct (get_object_changes a s) as [V _].
  change (view_object a' (push_delta _ (snd (get_object a s)))) with (view_object a' (snd (get_object a s))).
  rewrite V. by rewrite decide_False.
Qed.

Lemma drop_storage_view a s a' : view_object a' (drop_storage a s) = view_object a' s.
Proof. unfold drop_storage. by case_match. Qed.

Lemma drop_storage_at a s a' :
  storage_at a' (drop_storage a s) = if decide (a = a') then empty_storage else storage_at a' s.
Proof.
  unfold drop_storage. destruct (storages s !! a) eqn:E.
  - change (storage_at a' (with_storages (delete a (storages s)) (push_delta (StorageWipeDelta a s0) s)))
      with (storage_at a' (with_storages (delete a (storages s)) s)). apply storage_at_delete.
  - change (storage_at a' (push_delta (StorageCreateDelta a) s)) with (storage_at a' s).
    case_decide as Ea; [|done]. unfold storage_at. subst. by rewrite E.
Qed.

(** Everything but objects, storage, journal, logs and refund. *)
Definition same_rest (s s' : IBS) : Prop :=
  db s' = db s /\ codes s' = codes s /\ self_destructs s' = self_destructs s /\ touched s' = touched s
  /\ accessed_addresses s' = accessed_addresses s /\ accessed_storage_keys s' = accessed_storage_keys s.

Definition object_delta (a : bytes) (s : IBS) : Delta :=
  match view_object a s with Some p => UpdateDelta a p | None => CreateDelta a end.
Definition storage_delta (a : bytes) (s : IBS) : Delta :=
  match storages s !! a with None => StorageCreateDelta a | Some st => StorageWipeDelta a st end.

Lemma create_contract_rest a s :
  same_rest s (create_contract a s) /\ journal (create_contract a s) = [storage_delta a s; object_delta a s] ++ journal s
  /\ state_logs (create_contract a s) = state_logs s.
Proof.
  rewrite create_contract_eq. unfold drop_storage, created_state, storage_delta, object_delta.
  rewrite get_object_eq. cbn. by destruct (storages s !! a).
Qed.

Lemma create_contract_view a s a' :
  view_object a' (create_contract a s) = if decide (a = a') then Some (created_object a s) else view_object a' s.
Proof. rewrite create_contract_eq, drop_storage_view. apply created_view. Qed.

Lemma create_contract_storage_at a s a' :
  storage_at a' (create_contract a s) = if decide (a = a') then empty_storage else storage_at a' s.
Proof.
  rewrite create_contract_eq, drop_storage_at. case_decide; [done|].
  unfold storage_at, created_state. by rewrite get_object_eq.
Qed.

Lemma revert_created_rest a s t : same_rest t (revert_deltas [storage_delta a s; object_delta a s] t).
Proof. unfold storage_delta, object_delta. by destruct (view_object a s), (storages s !! a). Qed.

Lemma revert_created_view a s t a' :
  db t = db s ->
  view_object a' (revert_deltas [storage_delta a s; object_delta a s] t)
  = if decide (a = a') then view_object a s else view_object a' t.
Proof.
  intros Ed. unfold storage_delta, object_delta. cbn. case_decide as Ea; [subst a'|].
  - destruct (view_object a s) as [o|] eqn:V; cbn; [rewrite view_object_put; by rewrite decide_True|].
    unfold view_object in V |- *. cbn. rewrite lookup_delete_eq.
    replace (db (revert_delta _ t)) with (db s) by (by destruct (storages s !! a)).
    destruct (objects s !! a); [done|]. destruct (read_account (db s) a); done.
  - destruct (view_object a s) as [o|], (storages s !! a); cbn; unfold view_object; cbn;
      rewrite ?lookup_insert_ne, ?lookup_delete_ne by done; done.
Qed.

Lemma revert_created_storage a s t a' :
  storage_at a' (revert_deltas [storage_delta a s; object_delta a s] t)
  = if decide (a = a') then storage_at a s else storage_at a' t.
Proof.
  unfold storage_delta, object_delta. cbn.
  trans (storage_at a' (revert_delta (storage_delta a s) t)); [by destruct (view_object a s)|].
  unfold storage_delta. destruct (storages s !! a) as [st|] eqn:E; cbn.
  - rewrite storage_at_put. unfold storage_at at 2. by rewrite E.
  - rewrite storage_at_delete. unfold storage_at at 2. by rewrite E.
Qed.

Lemma create_contract_loaded a s a' : loaded a' s -> loaded a' (create_contract a s).
Proof.
  destruct (create_contract_rest a s) as ((Ed & _) & _). unfold loaded. rewrite Ed.
  intros [Hl|Hl]; [left|by right]. rewrite create_contract_eq. unfold drop_storage, created_state. rewrite get_object_eq.
  destruct (storages _ !! a); cbn; rewrite lookup_insert; (case_decide; [done|]); destruct (view_object a s); try done;
    by rewrite lookup_insert_ne.
Qed.

Lemma create_contract_storages a s a' :
  storages (create_contract a s) !! a' = if decide (a = a') then None else storages s !! a'.
Proof.
  rewrite create_contract_eq. unfold drop_storage, created_state. rewrite get_object_eq. cbn.
  destruct (storages s !! a) eqn:E; cbn; [by rewrite lookup_delete|]. case_decide; by subst.
Qed.

Lemma revert_created_loaded a s t a' :
  db t = db s -> loaded a' t -> loaded a' (revert_deltas [storage_delta a s; object_delta a s] t).
Proof.
  intros Ed Hl. destruct (revert_created_rest a s t) as (Fd & _). unfold loaded. rewrite Fd.
  destruct Hl as [Hl|Hl]; [|by right]. unfold object_delta. cbn.
  assert (objects (revert_delta (storage_delta a s) t) = objects t) as Eo by (unfold storage_delta; by case_match).
  destruct (view_object a s) as [o|] eqn:V; cbn; rewrite Eo.
  - left. rewrite lookup_insert. by case_decide.
  - rewrite lookup_delete. case_decide as Ea; [|by left]. subst a'. right. rewrite Ed.
    unfold view_object in V. destruct (objects s !! a); [done|]. by destruct (read_account (db s) a).
Qed.

Lemma revert_created_storages a s t a' :
  storages (revert_deltas [storage_delta a s; object_delta a s] t) !! a'
  = if decide (a = a') then storages s !! a else storages t !! a'.
Proof.
  unfold object_delta, storage_delta. cbn.
  destruct (view_object a s), (storages s !! a) eqn:E; cbn; rewrite ?lookup_insert, ?lookup_delete; done.
Qed.

Lemma create_contract_undoable a s : undoable s (create_contract a s).
Proof.
  destruct (create_contract_rest a s) as ((Ed & Ec & Ex & Et & Ea & Ek) & EJ & EL).
  eexists. split; [exact EJ|]. split; [by rewrite EL|]. intros t [Rd Ro Rs Rc Rx Rt Ra Rk Rn Rw Rh Rl Rz].
  destruct (revert_created_rest a s t) as (Fd & Fc & Fx & Ft & Fa & Fk).
  assert (forall a', view_object a' (revert_deltas [storage_delta a s; object_delta a s] t) = view_object a' s) as Vo.
  { intros a'. rewrite revert_created_view by congruence. case_decide; [by subst|].
    rewrite Ro, create_contract_view. by rewrite decide_False. }
  split; try congruence.
  - intros a' k. unfold view_storage. rewrite Vo, revert_created_storage, Fd, Rd, Ed. case_decide; [by subst|].
    specialize (Rs a' k). unfold view_storage in Rs. rewrite Ro, Rd, Ed, create_contract_view, create_contract_storage_at in Rs.
    by rewrite !decide_False in Rs.
  - intros h. specialize (Rc h). unfold view_code in *. rewrite Fc, Fd. rewrite Ec, Ed in Rc. exact Rc.
  - intros a'. specialize (Rk a'). unfold view_keys in *. by rewrite Fk, Rk, Ek.
  - intros a' k Hk. specialize (Rn a' k). unfold known in *. rewrite Vo, revert_created_storage, Fd, Rd, Ed.
    case_decide; [by subst|].
    rewrite Ro, Rd, Ed, create_contract_view, create_contract_storage_at in Rn. rewrite !decide_False in Rn by done.
    by apply Rn.
  - intros a' k Hk. specialize (Rw a' k). unfold sound in *. rewrite Vo, revert_created_storage, Fd, Rd, Ed.
    case_decide; [by subst|].
    rewrite Ro, Rd, Ed, create_contract_view, create_contract_storage_at in Rw. rewrite !decide_False in Rw by done.
    by apply Rw.
  - intros a' Ha Hh. specialize (Rh a'). unfold hidden_ok, view_account in *.
    rewrite revert_created_storage, Fd, Rd, Ed. case_decide; [by subst|].
    rewrite Rd, Ed, create_contract_view, create_contract_storage_at in Rh. rewrite !decide_False in Rh by done.
    by apply Rh.
  - intros a' Hl. apply revert_created_loaded; [congruence|]. by apply Rl, create_contract_loaded.
  - intros a' Hc Hs. apply revert_created_loaded; [congruence|]. rewrite revert_created_storages in Hs.
    case_decide as E; [subst a'; by apply Rl, create_contract_loaded, Hc|].
    apply (Rz a'); [|exact Hs]. intros Hs'. rewrite create_contract_storages, decide_False in Hs' by done.
    by apply create_contract_loaded, Hc.
Qed.

(** ** Lemmas: whole runs *)

Lemma update_balance_undoable f a s :
  (forall acc, incarnation (f acc) = incarnation acc) -> undoable s (touch a (update_current f a s)).
Proof.
  intros Hf. eapply undoable_trans; [|apply touch_undoable]. by apply update_current_spec.
Qed.

Lemma add_log_undoable l s : undoable s (add_log l s).
Proof. apply undoable_quiet; [done|by eexists|]. destruct (restores_refl s). by split. Qed.

Lemma refund_undoable r s : undoable s (with_refund r s).
Proof. apply undoable_quiet; [done..|]. destruct (restores_refl s). by split. Qed.

Lemma run_operation_undoable o s : undoable s (run_operation o s).
Proof.
  destruct o; cbn.
  - apply get_object_undoable.
  - apply create_contract_undoable.
  - apply record_suicide_undoable.
  - apply touch_undoable.
  - by apply update_balance_undoable.
  - by apply update_balance_undoable.
  - by apply update_balance_undoable.
  - by apply update_current_spec.
  - apply get_code_spec.
  - apply set_code_undoable.
  - apply access_account_undoable.
  - apply access_storage_undoable.
  - apply get_storage_undoable.
  - apply set_storage_undoable.
  - apply add_log_undoable.
  - apply refund_undoable.
  - apply refund_undoable.
Qed.

Lemma vector_resize_prefix {A} (d : A) l l' : l `prefix_of` l' -> vector_resize d (length l) l' = l.
Proof.
  intros [x ->]. unfold vector_resize. rewrite take_app_length. rewrite length_app.
  replace (length l - (length l + length x))%nat with 0%nat by lia. cbn. apply app_nil_r.
Qed.

Lemma revert_deltas_logs ds s : state_logs (revert_deltas ds s) = state_logs s.
Proof. revert s. induction ds as [|d ds IH]; intros s; [done|]. cbn. unfold revert_deltas in IH. rewrite IH. by destruct d. Qed.

(** Reverting to a snapshot undoes what is undoable, and the journal, logs and refund exactly. *)
Lemma revert_to_snapshot_spec s s' :
  undoable s s' ->
  let r := revert_to_snapshot (take_snapshot s) s' in
  restores r s /\ journal r = journal s /\ state_logs r = state_logs s /\ refund r = refund s.
Proof.
  intros (ds & J & L & R) r. subst r. unfold revert_to_snapshot, take_snapshot. cbn [journal_size log_size snapshot_refund].
  rewrite J, length_app. replace (length ds + length (journal s) - length (journal s))%nat with (length ds) by lia.
  rewrite take_app_length, drop_app_length. split.
  - specialize (R s' (restores_refl s')). destruct R. by split.
  - cbn. by rewrite revert_deltas_logs, vector_resize_prefix.
Qed.

Lemma runs_undoable s s' : runs s s' -> undoable s s'.
Proof.
  induction 1 as [s|s s1 o H1 IH1|s s1 s2 H1 IH1 H2 IH2].
  - apply undoable_refl.
  - eapply undoable_trans; [exact IH1|apply run_operation_undoable].
  - eapply undoable_trans; [exact IH1|]. destruct (revert_to_snapshot_spec _ _ IH2) as (R & J & L & _).
    apply undoable_quiet; [done|by rewrite L|done].
Qed.

(** ** Lemmas: getters *)

Lemma get_account_field_eq {A} (f : Account -> A) d a s :
  fst (get_account_field f d a s) = from_option f d (view_account a s).
Proof.
  unfold get_account_field, view_account. rewrite get_object_eq. cbn.
  by destruct (view_object a s) as [[i [acc|]]|].
Qed.

Lemma exists_eq a s : fst (exists_ a s) = bool_decide (view_account a s <> None).
Proof.
  unfold exists_, view_account. rewrite get_object_eq. cbn. by destruct (view_object a s) as [[i [acc|]]|].
Qed.

Lemma is_dead_eq a s : fst (is_dead a s) = from_option account_dead true (view_account a s).
Proof. unfold is_dead, view_account. rewrite get_object_eq. cbn. by destruct (view_object a s) as [[i [acc|]]|]. Qed.

Lemma access_account_eq a s : fst (access_account a s) = if decide (a ∈ accessed_addresses s) then EVMC_ACCESS_WARM else EVMC_ACCESS_COLD.
Proof. unfold access_account. case_bool_decide; case_decide; done. Qed.

Lemma access_storage_eq a k s : fst (access_storage a k s) = if decide (k ∈ view_keys a s) then EVMC_ACCESS_WARM else EVMC_ACCESS_COLD.
Proof. unfold access_storage. fold (view_keys a s). case_bool_decide; case_decide; done. Qed.

Lemma restores_account t s a : restores t s -> view_account a t = view_account a s.
Proof. intros R. unfold view_account. by rewrite (rs_object _ _ R). Qed.

Lemma restores_value t s a k original : restores t s -> view_value a k original t = view_value a k original s.
Proof. intros R. unfold view_value. by rewrite (rs_storage _ _ R). Qed.

(** ** Lemmas: views after the operations *)

Lemma changes_object_storage a i acc acc' s s' a' k :
  view_account a s = Some acc -> i = view_object a s ≫= initial -> incarnation acc' = incarnation acc ->
  changes_object a (Some (mkObject i (Some acc'))) s s' -> view_storage a' k s' = view_storage a' k s.
Proof.
  intros Ha Hi Hinc (V & Ed & Es & _). unfold view_storage. rewrite V, Ed. unfold storage_at. rewrite Es.
  fold (storage_at a' s). case_decide as E; [subst a'|done]. unfold view_account in Ha.
  destruct (view_object a s) as [[i0 [acc0|]]|]; [|done..]. cbn in Ha, Hi. injection Ha as ->. subst i.
  by apply storage_view_object.
Qed.

Lemma touch_views a s :
  (forall a', view_object a' (touch a s) = view_object a' s) /\ (forall a' k, view_storage a' k (touch a s) = view_storage a' k s).
Proof. unfold touch. by case_match. Qed.

Lemma view_account_changed a i acc s s' a' :
  changes_object a (Some (mkObject i (Some acc))) s s' ->
  view_account a' s' = if decide (a = a') then Some acc else view_account a' s.
Proof. intros (V & _). unfold view_account. rewrite V. by case_decide. Qed.

Lemma set_storage_views a k v s :
  (forall a', view_object a' (set_storage a k v s) = view_object a' s)
  /\ (view_account a s <> None -> forall a' k' original,
        view_value a' k' original (set_storage a k v s)
        = if decide (a = a' /\ k = k' /\ original = false) then v else view_value a' k' original s).
Proof.
  rewrite set_storage_eq. cbn zeta. destruct (get_storage_spec a k false s) as (Ev & R & _).
  set (s1 := snd (get_storage a k false s)) in *. split.
  - intros a'. rewrite <- (rs_object _ _ R). by destruct (bytes_eqb _ v).
  - intros Hx a' k' original. rewrite <- (restores_value s1 s a' k') by done.
    destruct (bytes_eqb (view_value a k false s1) v) eqn:E.
    + apply bytes_eqb_eq in E. case_decide as Hd; [|done]. destruct Hd as (<- & <- & ->). exact E.
    + change (view_value a' k' original (push_delta _ (put_value a k v s1))) with (view_value a' k' original (put_value a k v s1)).
      unfold view_value. rewrite put_value_view.
      rewrite <- (restores_account s1 s a R) in Hx. unfold view_account in Hx.
      destruct (decide (a = a' /\ k = k')) as [[<- <-]|Hne].
      * unfold view_storage, storage_view. destruct (view_object a s1) as [[i [acc|]]|]; [|done..]. cbn.
        destruct original; [by rewrite decide_False by naive_solver|by rewrite decide_True].
      * by rewrite decide_False by tauto.
Qed.

(** * Properties *)

(** C3: Reverting to a snapshot restores the state. Whatever operations ran since the snapshot, inner
    frames that were themselves reverted included, every getter answers as it did: balances, nonces, code
    hashes, existence, current and original storage, warm accounts and keys, self-destructs, logs, refund.
    Code is the same, or at least is code with the hash asked for; and addresses touched are the same but for
    address 3, which stays touched. *)
Theorem revert_restores (s s' : IBS) :
  runs s s' ->
  let r := revert_to_snapshot (take_snapshot s) s' in
  (forall a, fst (get_balance a r) = fst (get_balance a s) /\ fst (get_nonce a r) = fst (get_nonce a s)
             /\ fst (get_code_hash a r) = fst (get_code_hash a s) /\ fst (exists_ a r) = fst (exists_ a s)
             /\ fst (is_dead a r) = fst (is_dead a s))
  /\ (forall a k, fst (get_current_storage a k r) = fst (get_current_storage a k s)
                  /\ fst (get_original_storage a k r) = fst (get_original_storage a k s))
  /\ (forall a, fst (get_code a r) = fst (get_code a s)
                \/ to_bytes32 (keccak256 (fst (get_code a r))) = fst (get_code_hash a s))
  /\ (forall a, fst (access_account a r) = fst (access_account a s)
                /\ forall k, fst (access_storage a k r) = fst (access_storage a k s))
  /\ self_destructs r = self_destructs s /\ state_logs r = state_logs s /\ refund r = refund s
  /\ journal r = journal s
  /\ touched s ⊆ touched r ⊆ touched s ∪ {[kRipemdAddress]}.
Proof.
  intros Hr r. destruct (revert_to_snapshot_spec s s' (runs_undoable s s' Hr)) as (R & J & L & F). fold r in R, J, L, F.
  pose proof (fun a => restores_account r s a R) as Ea. split_and!; try done; try apply R.
  - intros a. unfold get_balance, get_nonce, get_code_hash. by rewrite !get_account_field_eq, !exists_eq, !is_dead_eq, Ea.
  - intros a k. unfold get_current_storage, get_original_storage.
    rewrite !(proj1 (get_storage_spec _ _ _ _)), !(restores_value r s) by done. done.
  - intros a. unfold get_code_hash. rewrite !(proj1 (get_code_spec _ _)), get_account_field_eq. unfold view_code_of.
    rewrite Ea. destruct (view_account a s) as [acc|]; [|by left]. destruct (bytes_eqb _ kEmptyHash); [by left|]. apply R.
  - intros a. rewrite !access_account_eq, (rs_addresses _ _ R). split; [done|]. intros k.
    by rewrite !access_storage_eq, (rs_keys _ _ R).
Qed.

(** Setting a word of an existing account changes that word's current value and nothing else:
    its original value, every other word and every account are as before. *)
Theorem set_storage_correct (s : IBS) (a k v : bytes) :
  fst (exists_ a s) = true ->
  let s' := set_storage a k v s in
  fst (get_current_storage a k s') = v
  /\ (forall a' k', fst (get_original_storage a' k' s') = fst (get_original_storage a' k' s))
  /\ (forall a' k', (a', k') <> (a, k) -> fst (get_current_storage a' k' s') = fst (get_current_storage a' k' s))
  /\ (forall a', view_account a' s' = view_account a' s).
Proof.
  intros Hx s'. rewrite exists_eq in Hx. apply bool_decide_eq_true in Hx.
  destruct (set_storage_views a k v s) as [Vo Vs]. specialize (Vs Hx).
  unfold get_current_storage, get_original_storage, s'. split_and!.
  - rewrite (proj1 (get_storage_spec _ _ _ _)), Vs. by rewrite decide_True.
  - intros a' k'. rewrite !(proj1 (get_storage_spec _ _ _ _)), Vs. by rewrite decide_False by naive_solver.
  - intros a' k' Hne. rewrite !(proj1 (get_storage_spec _ _ _ _)), Vs. by rewrite decide_False by naive_solver.
  - intros a'. unfold view_account. by rewrite Vo.
Qed.

(** A created contract keeps the balance of what was at its address, has nonce 0, no code
    and, if its incarnation is not the stored account's, no storage; every other account and its storage is
    untouched. *)
Theorem create_contract_correct (s : IBS) (a : bytes) :
  let s' := create_contract a s in
  fst (exists_ a s') = true
  /\ fst (get_balance a s') = fst (get_balance a s)
  /\ fst (get_nonce a s') = 0
  /\ fst (get_code a s') = []
  /\ (incarnation_differs (view_object a s ≫= initial) (mkAccount 0 0 kEmptyHash (u64 (previous_incarnation_of a s + 1))) = true ->
       forall k, fst (get_current_storage a k s') = zero_bytes32 /\ fst (get_original_storage a k s') = zero_bytes32)
  /\ (forall a', a' <> a -> view_account a' s' = view_account a' s
        /\ forall k, fst (get_current_storage a' k s') = fst (get_current_storage a' k s)).
Proof.
  intros s'. assert (view_account a s' = current (created_object a s)) as Ea.
  { unfold view_account, s'. rewrite create_contract_view. by rewrite decide_True. }
  unfold get_balance, get_nonce, get_current_storage, get_original_storage.
  rewrite !get_account_field_eq, exists_eq, (proj1 (get_code_spec _ _)). unfold view_code_of. rewrite Ea. cbn [created_object current].
  split_and!; try done.
  - intros Hi k. rewrite !(proj1 (get_storage_spec _ _ _ _)). unfold view_value, view_storage, s'.
    rewrite create_contract_view, create_contract_storage_at, !decide_True by done. unfold created_object, storage_view. cbn.
    unfold committed_value, stored_word, incarnation_differs in *. cbn in *. by rewrite Hi.
  - intros a' Hne. unfold view_account, s'. rewrite create_contract_view, decide_False by done. split; [done|]. intros k.
    rewrite !(proj1 (get_storage_spec _ _ _ _)). unfold view_value, view_storage.
    rewrite create_contract_view, create_contract_storage_at, !decide_False by done.
    destruct (create_contract_rest a s) as ((Ed & _) & _). by rewrite Ed.
Qed.

End Views.

Lemma revert_restores_witness :
  let a := zero_bytes 20 in
  let s := new_state empty_buffer in
  let s1 := revert_to_snapshot (take_snapshot s) (set_storage a [1] [2] (create_contract a s)) in
  fst (get_balance a (revert_to_snapshot (take_snapshot s) (add_to_balance a 5 s1))) = 0.
Proof.
  intros a s s1.
  assert (runs s (add_to_balance a 5 s1)) as Hr.
  { apply (runs_step s s1 (OAddToBalance a 5)). apply runs_reverted; [apply runs_refl|].
    apply (runs_step s _ (OSetStorage a [1] [2])). apply (runs_step s s (OCreateContract a)), runs_refl. }
  destruct (revert_restores s _ Hr) as (Hb & _). by destruct (Hb a) as (-> & _).
Defined.

Lemma set_storage_correct_witness :
  let a := zero_bytes 20 in
  let s := create_contract a (new_state empty_buffer) in
  fst (get_current_storage a [1] (set_storage a [1] [2] s)) = [2].
Proof. intros a s. apply (set_storage_correct s a [1] [2]). vm_compute. reflexivity. Defined.

Lemma create_contract_correct_witness :
  let a := zero_bytes 20 in
  fst (get_current_storage a [1] (create_contract a (new_state empty_buffer))) = zero_bytes32.
Proof.
  intros a. destruct (create_contract_correct (new_state empty_buffer) a) as (_ & _ & _ & _ & Hs & _).
  apply Hs. vm_compute. reflexivity.
Defined.
