(* ===== verification/BlockState.v ===== *)
(** * BlockState: the state of a whole block

    The invariant of the cached state over every operation, reverted frames and ends of transactions
    included; what the end of a transaction does; and that writing the state to the in-memory buffer stores
    exactly what the getters answer, in a way that unwinding the block undoes. *)

From S2P Require Import Prelude Util Keccak Account Block MemoryBuffer IntraBlockState StateCorrect.
Local Open Scope Z_scope.
Local Open Scope silk_scope.

Section Invariant.
Context {B : Type} `{StateBuffer B}.
Notation IBS := (IntraBlockState B).
Implicit Types (s t : IBS) (a k h : bytes).

(** Contracts have incarnations from 1: nothing is stored under incarnation 0. *)
Definition zero_incarnation_empty (d : B) : Prop := forall a k, read_storage d a 0 k = zero_bytes32.

Record state_ok (d : B) (s : IBS) : Prop := {
  ok_db : db s = d;
  ok_initial : forall a o, view_object a s = Some o -> initial o = read_account d a;
  ok_none : forall a, view_object a s = None -> read_account d a = None;
  ok_sound : forall a k, sound a k s;
  ok_hidden : forall a, view_account a s = None -> hidden_ok a s;
  ok_cached : forall a, cached_ok a s
}.

(** The states a block goes through before it is written. *)
Inductive block_reaches (d : B) : IBS -> Prop :=
| reach_new : block_reaches d (new_state d)
| reach_operation s o : block_reaches d s -> block_reaches d (run_operation o s)
| reach_reverted s s' : block_reaches d s -> runs s s' -> block_reaches d (revert_to_snapshot (take_snapshot s) s')
| reach_destruct_suicides s : block_reaches d s -> block_reaches d (destruct_suicides s)
| reach_destruct_touched_dead s : block_reaches d s -> block_reaches d (destruct_touched_dead s)
| reach_finalize s : block_reaches d s -> block_reaches d (finalize_transaction s)
| reach_clear s : block_reaches d s -> block_reaches d (clear_journal_and_substate s).

(** ** Lemmas: preservation *)

Lemma restores_ok d t s : restores t s -> state_ok d s -> state_ok d t.
Proof.
  intros R []. split.
  - rewrite (rs_db _ _ R). done.
  - intros a o. rewrite (rs_object _ _ R). apply ok_initial0.
  - intros a. rewrite (rs_object _ _ R). apply ok_none0.
  - intros a k. apply R, ok_sound0.
  - intros a Ha. apply R; [|apply ok_hidden0]; by rewrite <- (restores_account t s a R).
  - intros a. apply R, ok_cached0.
Qed.

(** The invariant reads the buffer, the objects and the storage only. *)
Lemma state_ok_same d s t :
  db t = db s -> objects t = objects s -> storages t = storages s -> state_ok d s -> state_ok d t.
Proof.
  intros Ed Eo Es [].
  assert (forall a, view_object a t = view_object a s) as V by (intros a; unfold view_object; by rewrite Eo, Ed).
  assert (forall a, storage_at a t = storage_at a s) as S by (intros a; unfold storage_at; by rewrite Es).
  split; [congruence|intros a; rewrite V; auto..| | |].
  - intros a k. unfold sound. rewrite V, S, Ed. apply ok_sound0.
  - intros a. unfold view_account, hidden_ok. rewrite V, S, Ed. apply ok_hidden0.
  - intros a. unfold cached_ok, loaded. rewrite Ed, Eo, Es. apply ok_cached0.
Qed.

Lemma new_state_ok d : zero_incarnation_empty d -> state_ok d (new_state d).
Proof.
  intros Hz. split; [done|..].
  - intros a o. unfold view_object. cbn. rewrite lookup_empty. case_match; [|done]. by intros [= <-].
  - intros a. unfold view_object. cbn. rewrite lookup_empty. by case_match.
  - intros a k. unfold sound, storage_at. cbn. rewrite lookup_empty. cbn.
    destruct (view_object a (new_state d)) as [[i [acc|]]|]; cbn; [|done..]. by rewrite lookup_empty.
  - intros a _. split; [apply Hz|]. intros k v. unfold storage_at. cbn. rewrite lookup_empty. cbn. by rewrite lookup_empty.
  - intros a. unfold cached_ok. cbn. by rewrite lookup_empty.
Qed.

Lemma update_current_loaded f a s a' : loaded a' s -> loaded a' (update_current f a s).
Proof.
  unfold update_current, get_or_create_object. rewrite get_object_eq. intros [Hl|Hl].
  - left. destruct (view_object a s) as [[i [acc|]]|]; cbn; rewrite !lookup_insert; by repeat case_decide.
  - right. by destruct (view_object a s) as [[i [acc|]]|].
Qed.

Lemma hidden_sound d i acc a (s : IBS) k :
  hidden_ok a s -> db s = d -> incarnation acc = 0 -> sound_in d a (Some (mkObject i (Some acc))) (storage_at a s) k.
Proof.
  intros [Hz Hh] Ed Hi. assert (stored_word d a i acc k = zero_bytes32) as E.
  { unfold stored_word, incarnation_differs. rewrite Hi, <- Ed, Hz. destruct i as [i|]; [|done]. by destruct (negb _). }
  cbn. rewrite E. split; [|done]. apply Hh.
Qed.

Lemma update_current_ok d f a s :
  (forall acc, incarnation (f acc) = incarnation acc) -> state_ok d s -> state_ok d (update_current f a s).
Proof.
  intros Hf [Hd Hi Hn Hs Hh Hca]. destruct (update_current_spec f a s Hf) as [(V & Ed & Es & _) _].
  set (s' := update_current f a s) in *.
  assert (forall a', storage_at a' s' = storage_at a' s) as S by (intros a'; unfold storage_at; by rewrite Es).
  split; [congruence|..].
  - intros a' o. rewrite V. case_decide as E; [subst a'|apply Hi]. intros [= <-]. cbn.
    destruct (view_object a s) as [o|] eqn:Vo; cbn; [by apply Hi|]. symmetry. by apply Hn.
  - intros a'. rewrite V. case_decide; [done|apply Hn].
  - intros a' k. unfold sound. rewrite V, S, Ed, Hd. specialize (Hs a' k). unfold sound in Hs. rewrite Hd in Hs.
    case_decide as E; [subst a'|exact Hs]. specialize (Hh a). unfold view_account in *.
    destruct (view_object a s) as [[i [acc|]]|]; cbn -[sound_in] in *.
    + rewrite (sound_in_object d a i (f acc) acc) by done. exact Hs.
    + apply hidden_sound; [by apply Hh|done|by rewrite Hf].
    + apply hidden_sound; [by apply Hh|done|by rewrite Hf].
  - intros a'. unfold view_account, hidden_ok. rewrite V, S, Ed. case_decide; [done|]. apply Hh.
  - intros a'. unfold cached_ok. rewrite Es. intros Hst. by apply update_current_loaded, Hca.
Qed.

Lemma create_contract_ok d a s : state_ok d s -> state_ok d (create_contract a s).
Proof.
  intros [Hd Hi Hn Hs Hh Hca]. destruct (create_contract_rest a s) as ((Ed & _) & _). split; [congruence|..].
  - intros a' o. rewrite create_contract_view. case_decide as E; [subst a'|apply Hi]. intros [= <-]. cbn.
    destruct (view_object a s) as [o|] eqn:Vo; cbn; [by apply Hi|]. symmetry. by apply Hn.
  - intros a'. rewrite create_contract_view. case_decide; [done|apply Hn].
  - intros a' k. unfold sound. rewrite create_contract_view, create_contract_storage_at, Ed.
    case_decide; [subst a'; cbn; by rewrite lookup_empty|apply Hs].
  - intros a'. unfold view_account, hidden_ok. rewrite create_contract_view, create_contract_storage_at, Ed.
    case_decide; [done|apply Hh].
  - intros a'. unfold cached_ok. rewrite create_contract_storages. case_decide; [done|]. intros Hst.
    by apply create_contract_loaded, Hca.
Qed.

Lemma put_value_ok d a k v s : known a k s -> loaded a s -> state_ok d s -> state_ok d (put_value a k v s).
Proof.
  intros Hk Hl [Hd Hi Hn Hs Hh Hca]. split; try done.
  - intros a' k'. by apply put_value_sound.
  - intros a' Ha. apply put_value_hidden, Hh. exact Ha.
  - intros a'. by apply put_value_cached.
Qed.

Lemma set_storage_ok d a k v s : state_ok d s -> state_ok d (set_storage a k v s).
Proof.
  intros Hs. rewrite set_storage_eq. cbn zeta. destruct (get_storage_spec a k false s) as (_ & R & _).
  pose proof (restores_ok d _ _ R Hs) as Hs1. pose proof (get_storage_known a k s) as Hk.
  pose proof (get_storage_loaded a k false s) as Hl.
  destruct (bytes_eqb _ v); [done|].
  eapply (state_ok_same d (put_value a k v (snd (get_storage a k false s)))); [done..|]. by apply put_value_ok.
Qed.

Lemma touch_ok d a s : state_ok d s -> state_ok d (touch a s).
Proof. intros Hs. unfold touch. by case_match; apply (state_ok_same d s). Qed.

Lemma get_code_same a s : exists c, snd (get_code a s) = with_codes c (snd (get_object a s)).
Proof.
  unfold get_code. rewrite get_object_eq. cbn [snd]. set (s0 := with_objects _ s).
  assert (exists c, s0 = with_codes c s0) as H0 by (exists (codes s0); done).
  destruct (view_object a s) as [[i [acc|]]|]; cbn [current snd]; try exact H0.
  destruct (bytes_eqb (code_hash acc) kEmptyHash); [exact H0|]. unfold find_code.
  destruct (codes s0 !! code_hash acc); cbn; [exact H0|]. by eexists.
Qed.

Lemma run_operation_ok d o s : state_ok d s -> state_ok d (run_operation o s).
Proof.
  intros Hs. destruct o; cbn.
  - eapply restores_ok; [apply get_object_quiet|done].
  - by apply create_contract_ok.
  - unfold record_suicide. by case_match; apply (state_ok_same d s).
  - by apply touch_ok.
  - by apply touch_ok, update_current_ok.
  - by apply touch_ok, update_current_ok.
  - by apply touch_ok, update_current_ok.
  - by apply update_current_ok.
  - destruct (get_code_same a s) as [c ->]. eapply (state_ok_same d (snd (get_object a s))); [done..|].
    eapply restores_ok; [apply get_object_quiet|done].
  - unfold set_code. set (h := to_bytes32 (keccak256 code)).
    pose proof (update_current_ok d (fun acc => with_code_hash acc h) a s (fun _ => eq_refl) Hs) as H1.
    case_match; [done|]. by eapply (state_ok_same d (update_current _ a s)).
  - unfold access_account. by case_match; apply (state_ok_same d s).
  - unfold access_storage. by case_match; apply (state_ok_same d s).
  - destruct (get_storage_spec a k original s) as (_ & R & _). by eapply restores_ok.
  - by apply set_storage_ok.
  - by apply (state_ok_same d s).
  - by apply (state_ok_same d s).
  - by apply (state_ok_same d s).
Qed.

(** ** Lemmas: the end of a transaction *)

Lemma storage_at_destruct a s a' :
  storage_at a' (destruct_ a s) = if decide (a = a') then empty_storage else storage_at a' s.
Proof.
  unfold destruct_. rewrite get_object_eq. cbn. transitivity (storage_at a' (with_storages (delete a (storages s)) s)).
  - by destruct (view_object a _).
  - apply storage_at_delete.
Qed.

Definition destructed (o : Object) : Object := mkObject (initial o) None.

Lemma view_object_destruct a s a' :
  view_object a' (destruct_ a s) = if decide (a = a') then destructed <$> view_object a s else view_object a' s.
Proof.
  unfold destruct_. set (s0 := with_storages _ s). destruct (get_object_changes a s0) as [V _].
  change (view_object a s0) with (view_object a s) in V.
  rewrite get_object_eq in *. cbn [snd] in V. change (view_object a s0) with (view_object a s) in *.
  destruct (view_object a s) as [o|] eqn:E.
  - rewrite view_object_put. case_decide; [done|]. rewrite V, decide_False by done. done.
  - rewrite V. case_decide; [by subst|done].
Qed.

(** What [destruct] leaves alone. *)
Lemma destruct_rest a s : db (destruct_ a s) = db s /\ codes (destruct_ a s) = codes s
  /\ self_destructs (destruct_ a s) = self_destructs s /\ touched (destruct_ a s) = touched s.
Proof. unfold destruct_. rewrite get_object_eq. by destruct (view_object a _). Qed.

Lemma destruct_ok d a s : zero_incarnation_empty d -> state_ok d s -> state_ok d (destruct_ a s).
Proof.
  intros Hz [Hd Hi Hn Hs Hh Hca]. destruct (destruct_rest a s) as (Ed & _). split; [congruence|..].
  - intros a' o. rewrite view_object_destruct. case_decide as E; [subst a'|apply Hi].
    destruct (view_object a s) as [o'|] eqn:V; [|done]. intros [= <-]. cbn. by apply Hi.
  - intros a'. rewrite view_object_destruct. case_decide as E; [subst a'|apply Hn].
    destruct (view_object a s) eqn:V; [done|]. intros _. by apply Hn.
  - intros a' k. unfold sound. rewrite view_object_destruct, storage_at_destruct, Ed.
    case_decide as E; [|apply Hs]. subst a'. by destruct (view_object a s) as [[i c]|].
  - intros a'. unfold view_account, hidden_ok. rewrite view_object_destruct, storage_at_destruct, Ed.
    case_decide as E; [|apply Hh]. intros _. rewrite Hd. split; [apply Hz|]. intros k v. cbn. by rewrite lookup_empty.
  - intros a'. unfold cached_ok, destruct_. rewrite get_object_eq. set (s0 := with_storages _ s).
    intros Hst. assert (storages s !! a' <> None) as Hst'.
    { destruct (view_object a s0); cbn in Hst; rewrite lookup_delete in Hst; by case_decide. }
    destruct (Hca a' Hst') as [Hl|Hl]; [left|right].
    + destruct (view_object a s0); cbn; rewrite ?lookup_insert; repeat case_decide; done.
    + by destruct (view_object a s0).
Qed.

Lemma commit_values_lookup st k :
  committed (commit_values st) !! k
  = match current_values st !! k with
    | Some v => Some (mkCommittedValue (from_option value_initial zero_bytes32 (committed st !! k)) v)
    | None => committed st !! k
    end.
Proof.
  unfold commit_values. cbn.
  refine (map_fold_weak_ind (fun r m => r !! k = match m !! k with
     | Some v => Some (mkCommittedValue (from_option value_initial zero_bytes32 (committed st !! k)) v)
     | None => committed st !! k end) _ _ _ _ (current_values st)).
  - by rewrite lookup_empty.
  - intros k' v m r Hm IH. destruct (decide (k' = k)) as [->|Hne].
    + rewrite !lookup_insert_eq. rewrite IH, Hm. done.
    + by rewrite !lookup_insert_ne.
Qed.

Lemma storage_at_finalize a s : storage_at a (finalize_transaction s) = commit_values (storage_at a s).
Proof.
  unfold storage_at, finalize_transaction. cbn. rewrite lookup_fmap. by destruct (storages s !! a).
Qed.

(** After the end of a transaction the current word is also the original one. *)
Lemma finalize_value s a k original :
  view_value a k original (finalize_transaction s) = view_value a k false s.
Proof.
  unfold view_value, view_storage. rewrite storage_at_finalize. change (view_object a (finalize_transaction s)) with (view_object a s).
  change (db (finalize_transaction s)) with (db s). set (st := storage_at a s).
  destruct (view_object a s) as [[i [acc|]]|]; [|done..]. unfold storage_view.
  cbn [mbind option_bind current initial key_committed key_current].
  assert (value_original (committed_value (db s) a i acc (commit_values st) k)
          = default (value_original (committed_value (db s) a i acc st k)) (current_values st !! k)) as E.
  { unfold committed_value. rewrite commit_values_lookup. by destruct (current_values st !! k), (committed st !! k). }
  assert (current_values (commit_values st) !! k = None) as -> by apply lookup_empty.
  by destruct original.
Qed.

Lemma finalize_ok d s : state_ok d s -> state_ok d (finalize_transaction s).
Proof.
  intros [Hd Hi Hn Hs Hh Hca]. split; try done.
  - intros a k. unfold sound. rewrite storage_at_finalize. specialize (Hs a k). unfold sound in Hs.
    change (view_object a (finalize_transaction s)) with (view_object a s). change (db (finalize_transaction s)) with (db s).
    destruct (view_object a s) as [[i [acc|]]|]; cbn [sound_in] in *; [|done..]. destruct Hs as [H1 H2].
    rewrite commit_values_lookup. split; [|intros _ []; apply lookup_empty]. intros v.
    destruct (current_values (storage_at a s) !! k) as [w|] eqn:Ec; [|apply H1]. intros [= <-]. cbn.
    destruct (committed (storage_at a s) !! k) as [x|] eqn:Em; cbn; [by apply H1|]. symmetry. by apply H2.
  - intros a Ha. destruct (Hh a Ha) as [Hz Hc]. split; [exact Hz|]. intros k v. rewrite storage_at_finalize, commit_values_lookup.
    destruct (current_values (storage_at a s) !! k) as [w|] eqn:Ec; [|apply Hc]. intros [= <-]. cbn.
    destruct (committed (storage_at a s) !! k) as [x|] eqn:Em; cbn; [by eapply Hc|done].
  - intros a. unfold cached_ok, finalize_transaction. cbn. rewrite lookup_fmap. intros Hst. apply (Hca a).
    by destruct (storages s !! a).
Qed.

Lemma foldl_ok {A} d (f : IBS -> A -> IBS) (l : list A) s :
  (forall s x, state_ok d s -> state_ok d (f s x)) -> state_ok d s -> state_ok d (foldl f s l).
Proof. intros Hf. revert s. induction l as [|x l IH]; intros s Hs; [done|]. cbn. by apply IH, Hf. Qed.

Lemma destruct_dead_ok d s a :
  zero_incarnation_empty d -> state_ok d s ->
  state_ok d (let '(dead, s) := is_dead a s in if dead : bool then destruct_ a s else s).
Proof.
  intros Hz Hs. unfold is_dead. pose proof (restores_ok d _ s (get_object_quiet a s) Hs) as H1.
  destruct (get_object a s) as [o s1]. cbn in *. case_match; [by apply destruct_ok|done].
Qed.

Lemma reach_ok d s : zero_incarnation_empty d -> block_reaches d s -> state_ok d s.
Proof.
  intros Hz. induction 1 as [|s o Hs IH|s s' Hs IH Hr|s Hs IH|s Hs IH|s Hs IH|s Hs IH].
  - by apply new_state_ok.
  - by apply run_operation_ok.
  - eapply restores_ok; [|exact IH]. apply revert_to_snapshot_spec. by apply runs_undoable.
  - apply foldl_ok; [|done]. intros. by apply destruct_ok.
  - apply foldl_ok; [|done]. intros. by apply destruct_dead_ok.
  - by apply finalize_ok.
  - by apply (state_ok_same d s).
Qed.

(** The accounts and words left by destructing some addresses. *)
Definition destructs (P : bytes -> Prop) (s s' : IBS) : Prop :=
  (forall a, P a -> view_account a s' = None)
  /\ (forall a, ~ P a -> view_object a s' = view_object a s /\ storage_at a s' = storage_at a s)
  /\ db s' = db s /\ codes s' = codes s /\ self_destructs s' = self_destructs s /\ touched s' = touched s.

Lemma destructs_one a s : destructs (eq a) s (destruct_ a s).
Proof.
  split; [|split; [|apply destruct_rest]].
  - intros ? <-. unfold view_account. rewrite view_object_destruct, decide_True by done. by destruct (view_object a s).
  - intros a' Hne. by rewrite view_object_destruct, storage_at_destruct, !decide_False.
Qed.

Lemma destructs_foldl l s : destructs (fun a => a ∈ l) s (foldl (fun s address => destruct_ address s) s l).
Proof.
  induction l as [|x l IH] using rev_ind.
  - split; [intros a Ha; by apply elem_of_nil in Ha|done].
  - rewrite foldl_app. cbn. destruct IH as (H1 & H2 & Hr), (destructs_one x (foldl (fun s address => destruct_ address s) s l)) as (D1 & D2 & Dr).
    split; [|split; [|intuition congruence]].
    + intros a Ha. destruct (decide (x = a)) as [E|Hne]; [by apply D1|].
      destruct (D2 a Hne) as [Ev _]. unfold view_account. rewrite Ev. apply H1. apply elem_of_app in Ha as [Ha|Ha]; [done|].
      apply list_elem_of_singleton in Ha. congruence.
    + intros a Ha. destruct (D2 a) as [E1 E2]; [intros ->; apply Ha, elem_of_app; right; by apply list_elem_of_singleton|].
      rewrite E1, E2. apply H2. intros Hin. apply Ha, elem_of_app. by left.
Qed.

Definition dead_in (s : IBS) (a : bytes) : bool := from_option account_dead true (view_account a s).

Lemma destruct_dead_step a s :
  let s' := (let '(dead, s) := is_dead a s in if dead : bool then destruct_ a s else s) in
  (forall a', view_account a' s' = if decide (a = a') then if dead_in s a then None else view_account a s else view_account a' s)
  /\ (forall a', a <> a' \/ dead_in s a = false -> view_object a' s' = view_object a' s /\ storage_at a' s' = storage_at a' s)
  /\ db s' = db s /\ codes s' = codes s /\ self_destructs s' = self_destructs s /\ touched s' = touched s.
Proof.
  pose proof (is_dead_eq a s) as E. fold (dead_in s a) in E.
  assert (snd (is_dead a s) = snd (get_object a s)) as Es by (unfold is_dead; by destruct (get_object a s)).
  destruct (is_dead a s) as [dead s1]. cbn [fst snd] in *. subst dead s1. cbn zeta.
  destruct (get_object_changes a s) as (V & R). set (s1 := snd (get_object a s)) in *.
  assert (forall a', view_object a' s1 = view_object a' s) as V' by (intros a'; rewrite V; case_decide; by subst).
  assert (forall a', storage_at a' s1 = storage_at a' s) as S' by (intros a'; unfold storage_at; by rewrite (proj1 (proj2 R))).
  destruct (dead_in s a).
  - destruct (destructs_one a s1) as (D1 & D2 & Dr). split; [|split; [|intuition congruence]].
    + intros a'. case_decide as Ea; [by apply D1|]. unfold view_account. destruct (D2 a' Ea) as [-> _]. by rewrite V'.
    + intros a' [Hne|?]; [|done]. destruct (D2 a' Hne) as [-> ->]. by rewrite V', S'.
  - split; [|split; [|intuition congruence]].
    + intros a'. unfold view_account. rewrite V'. by case_decide; subst.
    + intros a' _. by rewrite V', S'.
Qed.

Lemma destruct_touched_dead_foldl l s :
  NoDup l ->
  let s' := foldl (fun s address => let '(dead, s) := is_dead address s in if dead : bool then destruct_ address s else s) s l in
  (forall a, view_account a s' = if decide (a ∈ l /\ dead_in s a = true) then None else view_account a s)
  /\ (forall a, ~ (a ∈ l /\ dead_in s a = true) -> view_object a s' = view_object a s /\ storage_at a s' = storage_at a s)
  /\ db s' = db s /\ codes s' = codes s /\ self_destructs s' = self_destructs s /\ touched s' = touched s.
Proof.
  induction l as [|x l IH] using rev_ind; intros Hnd.
  - cbn. split; [|done]. intros a. rewrite decide_False; [done|]. intros [Ha _]. by apply elem_of_nil in Ha.
  - apply NoDup_app in Hnd as (Hl & Hx & _). specialize (IH Hl). cbn zeta in *. rewrite foldl_app. cbn [foldl].
    set (s1 := foldl _ s l) in *. destruct IH as (H1 & H2 & Hr).
    assert (x ∉ l) as Hxl by (intros Hin; apply (Hx x Hin); by apply list_elem_of_singleton).
    assert (view_account x s1 = view_account x s) as Ex by (rewrite H1, decide_False; [done|tauto]).
    assert (dead_in s1 x = dead_in s x) as Edx by (unfold dead_in; by rewrite Ex).
    destruct (destruct_dead_step x s1) as (D1 & D2 & Dr). rewrite Edx in *.
    split; [|split; [|intuition congruence]].
    + intros a. rewrite D1. destruct (decide (x = a)) as [<-|Hne].
      * rewrite Ex. destruct (dead_in s x) eqn:E.
        -- rewrite decide_True; [done|]. split; [apply elem_of_app; right; by apply list_elem_of_singleton|done].
        -- rewrite decide_False; [done|]. by intros [_ ?].
      * rewrite H1. apply decide_ext. rewrite elem_of_app, list_elem_of_singleton. intuition congruence.
    + intros a Ha. rewrite elem_of_app, list_elem_of_singleton in Ha.
      destruct (D2 a) as [-> ->].
      * destruct (decide (x = a)) as [<-|]; [right|by left]. apply not_true_is_false. tauto.
      * apply H2. tauto.
Qed.

Lemma destructed_accounts s :
  let s2 := destruct_touched_dead (destruct_suicides s) in
  let gone a := a ∈ self_destructs s \/ (a ∈ touched s /\ dead_in s a = true) in
  (forall a, gone a -> view_account a s2 = None)
  /\ (forall a, ~ gone a -> view_object a s2 = view_object a s /\ storage_at a s2 = storage_at a s)
  /\ db s2 = db s /\ codes s2 = codes s.
Proof.
  intros s2 gone. unfold s2, destruct_touched_dead, destruct_suicides.
  destruct (destructs_foldl (elements (self_destructs s)) s) as (H1 & H2 & Hd & Hc & Hx & Ht).
  set (s1 := foldl (fun s address => destruct_ address s) s (elements (self_destructs s))) in *.
  destruct (destruct_touched_dead_foldl (elements (touched s1)) s1 (NoDup_elements _)) as (D1 & D2 & Dd & Dc & _ & _).
  rewrite Ht in *. setoid_rewrite elem_of_elements in H1. setoid_rewrite elem_of_elements in H2.
  setoid_rewrite elem_of_elements in D2.
  assert (forall a, a ∉ self_destructs s -> dead_in s1 a = dead_in s a) as Hdead.
  { intros a Ha. unfold dead_in, view_account. by destruct (H2 a Ha) as [-> _]. }
  split; [|split; [|split; congruence]].
  - intros a Hg. rewrite D1. case_decide as E; [done|]. destruct (decide (a ∈ self_destructs s)) as [Hin|Hin]; [by apply H1|].
    destruct Hg as [?|[Ha Hda]]; [done|]. exfalso. apply E. split; [by apply elem_of_elements|]. by rewrite Hdead.
  - intros a Hg. assert (a ∉ self_destructs s) as Hin by (intros ?; apply Hg; by left).
    destruct (D2 a) as [-> ->]; [|by apply H2]. rewrite Hdead by done. intros [??]. apply Hg. by right.
Qed.

(** ** Lemmas: the writes of a block *)

Definition storage_writes (s : IBS) : list write :=
  List.flat_map (fun p =>
    match (obj ← objects s !! fst p; current obj) with
    | Some account =>
        map (fun kv => WStorage (fst p) (incarnation account) (fst kv) (value_initial (snd kv)) (value_original (snd kv)))
          (map_to_list (committed (snd p)))
    | None => []
    end) (map_to_list (storages s)).

Definition object_writes (c : gmap bytes bytes) (p : bytes * Object) : list write :=
  WAccount (fst p) (initial (snd p)) (current (snd p))
  :: match current (snd p) with
     | Some account =>
         if negb (bytes_eqb (code_hash account) kEmptyHash) && incarnation_differs (initial (snd p)) account
         then [WCode (fst p) (incarnation account) (code_hash account) (default [] (c !! code_hash account))]
         else []
     | None => []
     end.

Definition block_writes (s : IBS) : list write :=
  storage_writes s ++ List.flat_map (object_writes (codes s)) (map_to_list (objects s)).

Lemma write_storage_eq s d p : write_storage s d p
  = foldl apply_write d
      match (obj ← objects s !! fst p; current obj) with
      | Some account =>
          map (fun kv => WStorage (fst p) (incarnation account) (fst kv) (value_initial (snd kv)) (value_original (snd kv)))
            (map_to_list (committed (snd p)))
      | None => []
      end.
Proof.
  unfold write_storage. destruct p as [a st]. cbn [fst snd]. destruct (objects s !! a) as [o|]; cbn; [|done].
  destruct (current o) as [acc|]; [|done]. revert d. induction (map_to_list (committed st)) as [|kv l IH]; intros d; [done|].
  cbn. apply IH.
Qed.

Lemma write_storages_eq s l d :
  foldl (write_storage s) d l
  = foldl apply_write d (List.flat_map (fun p =>
      match (obj ← objects s !! fst p; current obj) with
      | Some account =>
          map (fun kv => WStorage (fst p) (incarnation account) (fst kv) (value_initial (snd kv)) (value_original (snd kv)))
            (map_to_list (committed (snd p)))
      | None => []
      end) l).
Proof. revert d. induction l as [|p l IH]; intros d; [done|]. cbn. by rewrite foldl_app, <- write_storage_eq, IH. Qed.

(** Writing an object keeps what [code_[h]] answers. *)
Lemma write_object_eq s p :
  db (write_object s p) = foldl apply_write (db s) (object_writes (codes s) p)
  /\ forall h, default [] (codes (write_object s p) !! h) = default [] (codes s !! h).
Proof.
  unfold write_object, object_writes. destruct p as [a o]. cbn [fst snd].
  destruct (current o) as [acc|]; [|done]. destruct (negb _ && _); [|done]. split; [done|].
  intros h. cbn. destruct (decide (code_hash acc = h)) as [<-|Hne]; [by rewrite lookup_insert_eq|by rewrite lookup_insert_ne].
Qed.

Lemma object_writes_ext c c' p :
  (forall h, default [] (c !! h) = default [] (c' !! h)) -> object_writes c p = object_writes c' p.
Proof. intros E. unfold object_writes. destruct (current (snd p)); [|done]. by rewrite E. Qed.

Lemma write_objects_eq l s :
  db (foldl write_object s l) = foldl apply_write (db s) (List.flat_map (object_writes (codes s)) l).
Proof.
  revert s. induction l as [|p l IH]; intros s; [done|]. cbn [foldl List.flat_map].
  destruct (write_object_eq s p) as [Ed Ec]. rewrite IH, foldl_app, Ed. f_equal.
  clear -Ec. induction l as [|q l IHl]; [done|]. cbn [List.flat_map]. by rewrite IHl, (object_writes_ext _ (codes s)).
Qed.

Lemma write_to_db_eq n s : db (write_to_db n s) = foldl apply_write (begin_block n (db s)) (block_writes s).
Proof. unfold write_to_db, block_writes. rewrite write_objects_eq, write_storages_eq, foldl_app. done. Qed.

Lemma in_storage_writes s w :
  In w (storage_writes s) <-> exists a st obj acc k v,
    storages s !! a = Some st /\ objects s !! a = Some obj /\ current obj = Some acc
    /\ committed st !! k = Some v /\ w = WStorage a (incarnation acc) k (value_initial v) (value_original v).
Proof.
  unfold storage_writes. rewrite in_flat_map. split.
  - intros ([a st] & Hin & Hw). apply list_elem_of_In, elem_of_map_to_list in Hin. cbn in Hw.
    destruct (objects s !! a) as [o|] eqn:Eo; cbn in Hw; [|done]. destruct (current o) as [acc|] eqn:Ec; [|done].
    apply in_map_iff in Hw as ([k v] & <- & Hk). apply list_elem_of_In, elem_of_map_to_list in Hk. naive_solver.
  - intros (a & st & o & acc & k & v & Hs & Ho & Hc & Hk & ->). exists (a, st). split.
    + by apply list_elem_of_In, elem_of_map_to_list.
    + cbn. rewrite Ho. cbn. rewrite Hc. apply in_map_iff. exists (k, v). split; [done|].
      by apply list_elem_of_In, elem_of_map_to_list.
Qed.

Lemma in_object_writes s w :
  In w (List.flat_map (object_writes (codes s)) (map_to_list (objects s))) <-> exists a obj,
    objects s !! a = Some obj /\ In w (object_writes (codes s) (a, obj)).
Proof.
  rewrite in_flat_map. split.
  - intros ([a o] & Hin & Hw). apply list_elem_of_In, elem_of_map_to_list in Hin. by exists a, o.
  - intros (a & o & Ho & Hw). exists (a, o). split; [|done]. by apply list_elem_of_In, elem_of_map_to_list.
Qed.

End Invariant.

(** ** Lemmas: reading after writes *)

Lemma writes_account (b : MemoryBuffer) ws a c :
  (exists i, In (WAccount a i c) ws) -> (forall i c', In (WAccount a i c') ws -> c' = c) ->
  read_account (foldl apply_write b ws) a = c.
Proof.
  induction ws as [|w ws IH] using rev_ind; intros [i Hin] Hu; [done|].
  rewrite foldl_app. cbn [foldl]. setoid_rewrite in_app_iff in Hu. apply in_app_iff in Hin.
  destruct w as [a' i' c'|a' n h cd|a' n l v c']; cbn.
  - unfold mb_read_account, mb_update_account. cbn. destruct (decide (a' = a)) as [->|Hne].
    + rewrite <- (Hu i' c') by (right; by left). destruct c'; [apply lookup_insert_eq|apply lookup_delete_eq].
    + transitivity (accounts (foldl apply_write b ws) !! a); [destruct c'; [by apply lookup_insert_ne|by apply lookup_delete_ne]|].
      apply IH; [|intros; eapply Hu; by left]. destruct Hin as [Hin|[[=]|[]]]; [by exists i|congruence].
  - apply IH; [|intros; eapply Hu; by left]. destruct Hin as [Hin|[[=]|[]]]. by exists i.
  - apply IH; [|intros; eapply Hu; by left]. destruct Hin as [Hin|[[=]|[]]]. by exists i.
Qed.

Lemma writes_account_other (b : MemoryBuffer) ws a :
  (forall i c, ~ In (WAccount a i c) ws) -> read_account (foldl apply_write b ws) a = read_account b a.
Proof.
  induction ws as [|w ws IH] using rev_ind; intros Hn; [done|]. rewrite foldl_app. cbn [foldl].
  setoid_rewrite in_app_iff in Hn. rewrite <- IH by (intros i c Hin; eapply Hn; by left).
  destruct w as [a' i' c'|a' n h cd|a' n l v c']; cbn; [|done..].
  unfold mb_read_account, mb_update_account. cbn. assert (a' <> a) by (intros ->; eapply Hn; right; by left).
  destruct c'; [by apply lookup_insert_ne|by apply lookup_delete_ne].
Qed.

Lemma read_after_write (b : MemoryBuffer) a n l v c a' n' l' :
  read_storage (mb_update_storage a n l v c b) a' n' l'
  = if decide (a = a' /\ n = n' /\ l = l') then if is_zero c then zero_bytes32 else c else read_storage b a' n' l'.
Proof.
  cbn. unfold mb_read_storage, mb_update_storage. cbn. rewrite storage_lookup_write. unfold stored.
  case_decide; [|done]. by destruct (is_zero c).
Qed.

Lemma writes_storage (b : MemoryBuffer) ws a n l c :
  (exists v, In (WStorage a n l v c) ws) -> (forall v c', In (WStorage a n l v c') ws -> c' = c) ->
  read_storage (foldl apply_write b ws) a n l = if is_zero c then zero_bytes32 else c.
Proof.
  induction ws as [|w ws IH] using rev_ind; intros [v Hin] Hu; [done|].
  rewrite foldl_app. cbn [foldl]. setoid_rewrite in_app_iff in Hu. apply in_app_iff in Hin.
  destruct w as [a' i' c'|a' n' h cd|a' n' l' v' c']; cbn [apply_write].
  - apply IH; [|intros; eapply Hu; by left]. destruct Hin as [Hin|[[=]|[]]]. by exists v.
  - apply IH; [|intros; eapply Hu; by left]. destruct Hin as [Hin|[[=]|[]]]. by exists v.
  - change (update_storage a' n' l' v' c' (foldl apply_write b ws)) with (mb_update_storage a' n' l' v' c' (foldl apply_write b ws)).
    rewrite read_after_write. case_decide as E.
    + destruct E as (-> & -> & ->). by rewrite <- (Hu v' c') by (right; by left).
    + apply IH; [|intros; eapply Hu; by left]. destruct Hin as [Hin|[[=]|[]]]; [by exists v|]. subst. exfalso. by apply E.
Qed.

Lemma writes_storage_other (b : MemoryBuffer) ws a n l :
  (forall v c, ~ In (WStorage a n l v c) ws) -> read_storage (foldl apply_write b ws) a n l = read_storage b a n l.
Proof.
  induction ws as [|w ws IH] using rev_ind; intros Hn; [done|]. rewrite foldl_app. cbn [foldl].
  setoid_rewrite in_app_iff in Hn. rewrite <- IH by (intros v c Hin; eapply Hn; by left).
  destruct w as [a' i' c'|a' n' h cd|a' n' l' v' c']; [done..|]. cbn [apply_write].
  change (update_storage a' n' l' v' c' (foldl apply_write b ws)) with (mb_update_storage a' n' l' v' c' (foldl apply_write b ws)).
  rewrite read_after_write. rewrite decide_False; [done|]. intros (-> & -> & ->). eapply Hn. right. by left.
Qed.

Lemma writes_code (b : MemoryBuffer) ws h c :
  (exists a n, In (WCode a n h c) ws) -> (forall a n c', In (WCode a n h c') ws -> c' = c) ->
  read_code (foldl apply_write b ws) h = c.
Proof.
  induction ws as [|w ws IH] using rev_ind; intros (a & n & Hin) Hu; [done|].
  rewrite foldl_app. cbn [foldl]. setoid_rewrite in_app_iff in Hu. apply in_app_iff in Hin.
  destruct w as [a' i' c'|a' n' h' cd|a' n' l' v' c']; cbn [apply_write].
  - apply IH; [|intros; eapply Hu; by left]. destruct Hin as [Hin|[[=]|[]]]. by exists a, n.
  - cbn. unfold mb_read_code, mb_update_account_code. cbn. destruct (decide (h' = h)) as [->|Hne].
    + rewrite lookup_insert_eq. cbn. eapply (Hu a' n'). right. by left.
    + rewrite lookup_insert_ne by done. apply IH; [|intros; eapply Hu; by left].
      destruct Hin as [Hin|[[=]|[]]]; [by exists a, n|congruence].
  - apply IH; [|intros; eapply Hu; by left]. destruct Hin as [Hin|[[=]|[]]]. by exists a, n.
Qed.

(** ** Lemmas: the written block *)

Definition finalized (s : IntraBlockState MemoryBuffer) : Prop := forall a k, current_values (storage_at a s) !! k = None.

(** Nothing is stored yet under the incarnation of an account that is not the stored one. *)
Definition incarnations_fresh (d : MemoryBuffer) (s : IntraBlockState MemoryBuffer) : Prop :=
  forall a acc k, view_account a s = Some acc -> incarnation_differs (view_object a s ≫= initial) acc = true ->
    read_storage d a (incarnation acc) k = zero_bytes32.

Lemma view_object_cached (s : IntraBlockState MemoryBuffer) a o : objects s !! a = Some o -> view_object a s = Some o.
Proof. unfold view_object. by intros ->. Qed.

Lemma storage_at_some (s : IntraBlockState MemoryBuffer) a st : storages s !! a = Some st -> storage_at a s = st.
Proof. unfold storage_at. by intros ->. Qed.

Lemma block_writes_initial_ok d s :
  state_ok d s -> incarnations_fresh d s -> Forall (initial_ok d) (block_writes s).
Proof.
  intros [Hd Hi _ Hs _ _] Hf. apply List.Forall_forall. intros w Hw. apply in_app_iff in Hw as [Hw|Hw].
  - apply in_storage_writes in Hw as (a & st & o & acc & k & v & Es & Eo & Ec & Ek & ->). cbn.
    specialize (Hs a k). unfold sound in Hs. rewrite (storage_at_some _ _ _ Es), (view_object_cached _ _ _ Eo), Hd in Hs.
    specialize (Hf a acc k). unfold view_account in Hf. rewrite (view_object_cached _ _ _ Eo) in Hf. cbn in Hf.
    destruct o as [i c]. cbn in Ec, Hf. subst c. cbn [sound_in] in Hs. destruct Hs as [Hs _]. rewrite (Hs v Ek).
    unfold stored_word. destruct (incarnation_differs i acc); [by rewrite Hf|done].
  - apply in_object_writes in Hw as (a & o & Eo & Hw). unfold object_writes in Hw. cbn [fst snd] in Hw.
    destruct Hw as [<-|Hw]; [by apply Hi, view_object_cached|].
    destruct (current o) as [acc|]; [|done]. destruct (negb _ && _); [|done]. by destruct Hw as [<-|[]].
Qed.

Lemma in_block_writes_account (s : IntraBlockState MemoryBuffer) a i c :
  In (WAccount a i c) (block_writes s) <-> exists o, objects s !! a = Some o /\ i = initial o /\ c = current o.
Proof.
  unfold block_writes. rewrite in_app_iff, in_storage_writes, in_object_writes. split.
  - intros [Hw|(a' & o & Eo & Hw)]; [naive_solver|]. unfold object_writes in Hw. cbn [fst snd] in Hw.
    destruct Hw as [[= <- <- <-]|Hw]; [by exists o|]. destruct (current o) as [acc|]; [|done].
    destruct (negb _ && _); [|done]. by destruct Hw as [[=]|[]].
  - intros (o & Eo & -> & ->). right. exists a, o. split; [done|]. by left.
Qed.

Lemma in_block_writes_storage (s : IntraBlockState MemoryBuffer) a n k v c :
  In (WStorage a n k v c) (block_writes s) <-> exists st o acc x,
    storages s !! a = Some st /\ objects s !! a = Some o /\ current o = Some acc /\ committed st !! k = Some x
    /\ n = incarnation acc /\ v = value_initial x /\ c = value_original x.
Proof.
  unfold block_writes. rewrite in_app_iff, in_storage_writes, in_object_writes. split.
  - intros [Hw|(a' & o & Eo & Hw)]; [naive_solver|]. unfold object_writes in Hw. cbn [fst snd] in Hw.
    destruct Hw as [[=]|Hw]. destruct (current o) as [acc|]; [|done].
    destruct (negb _ && _); [|done]. by destruct Hw as [[=]|[]].
  - intros (st & o & acc & x & Es & Eo & Ec & Ek & -> & -> & ->). left. naive_solver.
Qed.

Lemma in_block_writes_code (s : IntraBlockState MemoryBuffer) a n h c :
  In (WCode a n h c) (block_writes s) <-> exists o acc,
    objects s !! a = Some o /\ current o = Some acc /\ n = incarnation acc /\ h = code_hash acc
    /\ h <> kEmptyHash /\ incarnation_differs (initial o) acc = true /\ c = default [] (codes s !! h).
Proof.
  unfold block_writes. rewrite in_app_iff, in_storage_writes, in_object_writes. split.
  - intros [Hw|(a' & o & Eo & Hw)]; [naive_solver|]. unfold object_writes in Hw. cbn [fst snd] in Hw.
    destruct Hw as [[=]|Hw]. destruct (current o) as [acc|] eqn:Ec; [|done].
    destruct (bytes_eqb (code_hash acc) kEmptyHash) eqn:Eh; cbn [negb andb] in Hw; [done|].
    destruct (incarnation_differs (initial o) acc) eqn:Ei; [|done].
    destruct Hw as [[= <- <- <- <-]|[]]. exists o, acc. split_and!; try done.
    intros E. apply (proj2 (bytes_eqb_eq _ _)) in E. congruence.
  - intros (o & acc & Eo & Ec & -> & -> & Hh & Ei & ->). right. exists a, o. split; [done|].
    unfold object_writes. cbn [fst snd]. rewrite Ec. destruct (bytes_eqb (code_hash acc) kEmptyHash) eqn:Eh.
    + by apply bytes_eqb_eq in Eh.
    + rewrite Ei. right. by left.
Qed.

Lemma written_accounts d s n a :
  state_ok d s -> read_account (db (write_to_db n s)) a = view_account a s.
Proof.
  intros [Hd _ _ _ _ _]. rewrite write_to_db_eq. unfold view_account, view_object.
  destruct (objects s !! a) as [o|] eqn:Eo; cbn [mbind option_bind].
  - apply writes_account.
    + exists (initial o). apply in_block_writes_account. by exists o.
    + intros i c' Hin. apply in_block_writes_account in Hin as (o' & Eo' & _ & ->). congruence.
  - rewrite writes_account_other.
    + change (read_account (begin_block n (db s)) a) with (read_account (db s) a). by destruct (read_account (db s) a).
    + intros i c Hin. apply in_block_writes_account in Hin as (o' & Eo' & _). congruence.
Qed.

Lemma written_storage d s n a acc k :
  state_ok d s -> finalized s -> incarnations_fresh d s -> view_account a s = Some acc ->
  length (view_value a k false s) = 32%nat ->
  read_storage (db (write_to_db n s)) a (incarnation acc) k = view_value a k false s.
Proof.
  intros [Hd Hi Hn Hs Hh Hca] Hf Hfr Ha Hlen. rewrite write_to_db_eq.
  specialize (Hfr a acc k Ha). unfold view_account in Ha.
  destruct (view_object a s) as [[i c]|] eqn:V; [|done]. cbn in Ha. subst c.
  assert (view_value a k false s = value_original (committed_value d a i acc (storage_at a s) k)) as Ev.
  { unfold view_value, view_storage. rewrite V. unfold storage_view. cbn. by rewrite Hf, Hd. }
  rewrite Ev in *. unfold committed_value in *. destruct (committed (storage_at a s) !! k) as [x|] eqn:Ek.
  - assert (exists st, storages s !! a = Some st /\ committed st !! k = Some x) as (st & Es & Ek').
    { unfold storage_at in Ek. destruct (storages s !! a) as [st|]; [by exists st|]. cbn in Ek. by rewrite lookup_empty in Ek. }
    assert (objects s !! a = Some (mkObject i (Some acc))) as Eo.
    { unfold view_object in V. destruct (objects s !! a) as [o|] eqn:Eo; [done|].
      destruct (Hca a) as [Hl|Hl]; [congruence|congruence|]. by rewrite Hl in V. }
    rewrite (writes_storage _ _ _ _ _ (value_original x)).
    + destruct (is_zero (value_original x)) eqn:Ez; [|done]. symmetry. by apply is_zero_word.
    + exists (value_initial x). apply in_block_writes_storage. by exists st, (mkObject i (Some acc)), acc, x.
    + intros v c' Hin. apply in_block_writes_storage in Hin as (st' & o' & acc' & x' & Es' & _ & _ & Ex & _ & _ & ->). congruence.
  - rewrite writes_storage_other.
    + change (read_storage (begin_block n (db s)) a (incarnation acc) k) with (read_storage (db s) a (incarnation acc) k).
      rewrite Hd. cbn. unfold stored_word. cbn in Hfr. destruct (incarnation_differs i acc); [by apply Hfr|done].
    + intros v c Hin. apply in_block_writes_storage in Hin as (st' & o' & acc' & x' & Es' & _ & _ & Ex & _).
      rewrite (storage_at_some _ _ _ Es') in Ek. congruence.
Qed.

Lemma written_code (s : IntraBlockState MemoryBuffer) n a acc c :
  view_account a s = Some acc -> code_hash acc <> kEmptyHash ->
  incarnation_differs (view_object a s ≫= initial) acc = true -> codes s !! code_hash acc = Some c ->
  read_code (db (write_to_db n s)) (code_hash acc) = c.
Proof.
  intros Ha Hh Hi Hc. rewrite write_to_db_eq. unfold view_account in Ha.
  destruct (objects s !! a) as [o|] eqn:Eo.
  - rewrite (view_object_cached _ _ _ Eo) in *. cbn in Ha, Hi. apply writes_code.
    + exists a, (incarnation acc). apply in_block_writes_code. exists o, acc. by rewrite Hc.
    + intros a' n' c' Hin. apply in_block_writes_code in Hin as (o' & acc' & _ & _ & _ & _ & _ & _ & ->). by rewrite Hc.
  - unfold view_object in Ha, Hi. rewrite Eo in Ha, Hi. destruct (read_account (db s) a) as [x|]; [|done].
    cbn in Ha, Hi. injection Ha as ->. by rewrite Z.eqb_refl in Hi.
Qed.

(** * Properties *)

(** C32: The end of a transaction removes exactly the self-destructed accounts and the touched dead ones.
    Every other account is as it was, and its storage words become the original words of the next
    transaction. *)
Theorem end_of_transaction_correct {B} `{StateBuffer B} (s : IntraBlockState B) :
  let s' := finalize_transaction (destruct_touched_dead (destruct_suicides s)) in
  let gone a := a ∈ self_destructs s \/ (a ∈ touched s /\ fst (is_dead a s) = true) in
  (forall a, gone a -> fst (exists_ a s') = false /\ forall k, fst (get_current_storage a k s') = zero_bytes32)
  /\ (forall a, ~ gone a ->
        view_account a s' = view_account a s
        /\ forall k, fst (get_current_storage a k s') = fst (get_current_storage a k s)
                     /\ fst (get_original_storage a k s') = fst (get_current_storage a k s)).
Proof.
  intros s' gone. destruct (destructed_accounts s) as (H1 & H2 & Hd & _).
  set (s2 := destruct_touched_dead (destruct_suicides s)) in *. unfold get_current_storage, get_original_storage.
  assert (forall a, view_account a s' = view_account a s2) as Ev by done.
  assert (forall a, gone a <-> a ∈ self_destructs s \/ (a ∈ touched s /\ dead_in s a = true)) as Hg.
  { intros a. unfold gone. by rewrite is_dead_eq. }
  split; intros a Ha.
  - apply Hg, H1 in Ha. rewrite exists_eq, Ev, Ha. split; [done|]. intros k. rewrite (proj1 (get_storage_spec _ _ _ _)).
    unfold s'. rewrite finalize_value. unfold view_value, view_storage, storage_view.
    unfold view_account in Ha. destruct (view_object a s2) as [o|]; [|done]. cbn in *. by rewrite Ha.
  - rewrite Hg in Ha. destruct (H2 a Ha) as [Eo Es]. rewrite Ev. split; [unfold view_account; by rewrite Eo|].
    intros k. rewrite !(proj1 (get_storage_spec _ _ _ _)). unfold s'. rewrite !finalize_value.
    unfold view_value, view_storage. by rewrite Eo, Es, Hd.
Qed.

(** C5: Writing a finished block stores what the getters answer: every account, every storage word under
    the account's incarnation, and the code of created contracts. Every write gives the buffer's own value
    as the initial one, so unwinding the block restores all accounts and storage. This holds in every state
    reached by operations, reverted frames and transaction ends, when the incarnations of created contracts
    are new. *)
Theorem write_to_db_correct (d : MemoryBuffer) (s : IntraBlockState MemoryBuffer) (n : Z) :
  zero_incarnation_empty d -> block_reaches d s -> finalized s -> incarnations_fresh d s ->
  let d' := db (write_to_db n s) in
  (forall a, read_account d' a = view_account a s)
  /\ (forall a acc k, view_account a s = Some acc -> length (fst (get_current_storage a k s)) = 32%nat ->
        read_storage d' a (incarnation acc) k = fst (get_current_storage a k s))
  /\ (forall a acc c, view_account a s = Some acc -> code_hash acc <> kEmptyHash ->
        incarnation_differs (view_object a s ≫= initial) acc = true -> codes s !! code_hash acc = Some c ->
        read_code d' (code_hash acc) = c)
  /\ (words_ok d ->
        (forall a, read_account (unwind_state_changes n d') a = read_account d a)
        /\ (forall a i k, read_storage (unwind_state_changes n d') a i k = read_storage d a i k)).
Proof.
  intros Hz Hr Hf Hfr d'. pose proof (reach_ok d s Hz Hr) as Hs. unfold get_current_storage. split_and!.
  - intros a. by eapply written_accounts.
  - intros a acc k Ha. rewrite (proj1 (get_storage_spec _ _ _ _)). by eapply written_storage.
  - intros a acc c. apply written_code.
  - intros Hw. unfold d'. rewrite write_to_db_eq, (ok_db _ _ Hs). eapply undoes_unwind; [done|].
    apply writes_undoes; [apply begin_undoes|]. by apply block_writes_initial_ok.
Qed.

Lemma write_to_db_correct_witness :
  let a := zero_bytes 20 in
  let s := run_operation (OAddToBalance a 5) (new_state empty_buffer) in
  read_account (db (write_to_db 1 s)) a = Some (mkAccount 0 5 kEmptyHash 0).
Proof.
  intros a s. destruct (write_to_db_correct empty_buffer s 1) as (Ha & _).
  - intros a' k. cbn. unfold mb_read_storage, storage_lookup. cbn. by rewrite lookup_empty.
  - apply reach_operation, reach_new.
  - intros a' k. unfold storage_at. apply lookup_empty.
  - intros a' acc k _ _. cbn. unfold mb_read_storage, storage_lookup. cbn. by rewrite lookup_empty.
  - rewrite Ha. vm_compute. reflexivity.
Defined.

(** A contract re-created in the block that destroyed it, after a transfer to its address in
    between, gets the incarnation of the destroyed one: the old storage shows through, and the new code is
    not written. *)
Theorem recreated_contract_sees_old_storage :
  let a := zero_bytes 19 ++ [7] in
  let key := zero_bytes32 in
  let word := zero_bytes 31 ++ [9] in
  let old := mkAccount 1 0 (replicate 32 1) 1 in
  let d := update_storage a 1 key zero_bytes32 word (update_account a None (Some old) (begin_block 1 empty_buffer)) in
  let next s := clear_journal_and_substate (finalize_transaction s) in
  let s1 := next (destruct_suicides (record_suicide a (new_state d))) in
  let s2 := next (add_to_balance a 1 s1) in
  let s3 := create_contract a s2 in
  block_reaches d s3
  /\ fst (exists_ a s1) = false
  /\ fst (get_current_storage a key s2) = zero_bytes32
  /\ view_account a s3 = Some (mkAccount 0 1 kEmptyHash 1)
  /\ fst (get_current_storage a key s3) = word
  /\ (let s4 := set_code a [96] s3 in
      fst (get_code a s4) = [96] /\ read_code (db (write_to_db 2 (next s4))) (fst (get_code_hash a s4)) = []).
Proof.
  intros a key word old d next s1 s2 s3. split.
  - apply (reach_operation d s2 (OCreateContract a)). apply reach_clear, reach_finalize.
    apply (reach_operation d s1 (OAddToBalance a 1)). apply reach_clear, reach_finalize, reach_destruct_suicides.
    apply (reach_operation d (new_state d) (ORecordSuicide a)). apply reach_new.
  - split_and!; [vm_compute; reflexivity..|]. intros s4. split; vm_compute; reflexivity.
Qed.
