(* ===== verification/Cache.v ===== *)
(** * Cache: core/silkworm/common/lru_cache.hpp, core/silkworm/execution/analysis_cache.hpp and
    analysis_cache.cpp, core/silkworm/execution/state_pool.hpp and state_pool.cpp

    The bounded cache of recently used entries, the cache of code analyses over it, and the pool of
    execution states. A list iterator of the C++ is the identity of its node. *)

From S2P Require Import Prelude.
Local Open Scope Z_scope.

(** ** lru_cache.hpp *)

Section Lru.
Context {K V : Type} `{Countable K}.

Record lru_cache : Type := mkLruCache {
  cache_items_list : list (nat * (K * V));
  cache_items_map : gmap K nat;
  max_size : nat;
  next_node : nat
}.

Definition new_lru_cache (max_size : nat) : lru_cache := mkLruCache [] ∅ max_size 0.

Definition erase_node (n : nat) (l : list (nat * (K * V))) : list (nat * (K * V)) :=
  List.filter (fun p => negb (Nat.eqb (fst p) n)) l.

Definition lru_put (key : K) (value : V) (c : lru_cache) : lru_cache :=
  let it := cache_items_map c !! key in
  let items := (next_node c, (key, value)) :: cache_items_list c in
  let '(items, index) :=
    match it with
    | Some n => (erase_node n items, delete key (cache_items_map c))
    | None => (items, cache_items_map c)
    end in
  let index := <[key := next_node c]> index in
  if (max_size c <? size index)%nat then
    match last items with
    | Some (_, (k, _)) => mkLruCache (removelast items) (delete k index) (max_size c) (S (next_node c))
    | None => mkLruCache items index (max_size c) (S (next_node c))
    end
  else mkLruCache items index (max_size c) (S (next_node c)).

(** [splice] moves the node to the front. *)
Definition lru_get (key : K) (c : lru_cache) : option V * lru_cache :=
  match cache_items_map c !! key with
  | None => (None, c)
  | Some n =>
      match List.find (fun p => Nat.eqb (fst p) n) (cache_items_list c) with
      | Some (m, (k, v)) =>
          (Some v, mkLruCache ((m, (k, v)) :: erase_node n (cache_items_list c)) (cache_items_map c)
                     (max_size c) (next_node c))
      | None => (None, c)
      end
  end.

Definition lru_size (c : lru_cache) : nat := size (cache_items_map c).

Definition lru_clear (c : lru_cache) : lru_cache := mkLruCache [] ∅ (max_size c) (next_node c).

(** ** The abstract cache: at most [max_size] entries, the latest used first *)

Definition without (key : K) (l : list (K * V)) : list (K * V) :=
  List.filter (fun p => negb (bool_decide (fst p = key))) l.

Definition spec_put (max : nat) (key : K) (value : V) (l : list (K * V)) : list (K * V) :=
  take max ((key, value) :: without key l).

Definition spec_get (key : K) (l : list (K * V)) : option V * list (K * V) :=
  match List.find (fun p => bool_decide (fst p = key)) l with
  | Some (k, v) => (Some v, (k, v) :: without key l)
  | None => (None, l)
  end.

Definition entries (c : lru_cache) : list (K * V) := map snd (cache_items_list c).

(** The index points to the nodes of the list, one per key. *)
Record index_ok (l : list (nat * (K * V))) (index : gmap K nat) (next : nat) : Prop := {
  ix_nodes : NoDup (map fst l);
  ix_keys : NoDup (map fst (map snd l));
  ix_fresh : forall n, In n (map fst l) -> (n < next)%nat;
  ix_index : forall k n, index !! k = Some n <-> exists v, In (n, (k, v)) l
}.

Definition lru_ok (c : lru_cache) : Prop :=
  index_ok (cache_items_list c) (cache_items_map c) (next_node c)
  /\ (length (cache_items_list c) <= max_size c)%nat.

End Lru.
Arguments lru_cache K V {_ _}.

(** ** analysis_cache.hpp, analysis_cache.cpp *)

Section Analysis.
Context {Analysis : Type}.

Record AnalysisCache : Type := mkAnalysisCache {
  cache : lru_cache bytes Analysis;
  cache_revision : Z
}.

Definition kDefaultMaxSize : nat := 5000.

Definition new_analysis_cache (max_size : nat) (max_revision : Z) : AnalysisCache :=
  mkAnalysisCache (new_lru_cache max_size) max_revision.

Definition analysis_get (key : bytes) (revision : Z) (c : AnalysisCache) : option Analysis * AnalysisCache :=
  if cache_revision c =? revision then
    let '(v, l) := lru_get key (cache c) in (v, mkAnalysisCache l (cache_revision c))
  else (None, c).

Definition analysis_put (key : bytes) (analysis : Analysis) (revision : Z) (c : AnalysisCache) : AnalysisCache :=
  let l := if cache_revision c =? revision then cache c else lru_clear (cache c) in
  mkAnalysisCache (lru_put key analysis l) revision.

(** Everything cached is the analysis, at the cache's revision, of what its key stands for. *)
Definition analysis_ok (analyze : Z -> bytes -> Analysis) (c : AnalysisCache) : Prop :=
  lru_ok (cache c) /\ forall k v, In (k, v) (entries (cache c)) -> v = analyze (cache_revision c) k.

End Analysis.
Arguments AnalysisCache : clear implicits.

(** ** state_pool.hpp, state_pool.cpp *)

Section Pool.
Context {ExecutionState : Type}.

(** The top of the stack is the head. *)
Definition pool_acquire (fresh : ExecutionState) (pool : list ExecutionState) : ExecutionState * list ExecutionState :=
  match pool with
  | [] => (fresh, [])
  | obj :: pool => (obj, pool)
  end.

Definition pool_release (obj : ExecutionState) (pool : list ExecutionState) : list ExecutionState := obj :: pool.

End Pool.

(** * Lemmas *)

Section LruLemmas.
Context {K V : Type} `{Countable K}.
Implicit Types (c : lru_cache K V) (l : list (nat * (K * V))).

Lemma erase_node_in n l p : In p (erase_node n l) <-> In p l /\ fst p <> n.
Proof. unfold erase_node. rewrite filter_In, negb_true_iff, Nat.eqb_neq. done. Qed.

Lemma erase_node_map n l : map fst (erase_node n l) = List.filter (fun m => negb (Nat.eqb m n)) (map fst l).
Proof. unfold erase_node. induction l as [|[m x] l IH]; [done|]. cbn. destruct (Nat.eqb m n); cbn; by rewrite IH. Qed.

Lemma NoDup_filter_list {A} (f : A -> bool) (l : list A) : NoDup l -> NoDup (List.filter f l).
Proof.
  induction 1 as [|x l Hx Hl IH]; cbn; [constructor|]. destruct (f x); [|done]. constructor; [|done].
  rewrite list_elem_of_In in *. intros Hin. apply filter_In in Hin. tauto.
Qed.

Lemma NoDup_map_inj {A B} (f : A -> B) (l : list A) x y :
  NoDup (map f l) -> In x l -> In y l -> f x = f y -> x = y.
Proof.
  induction l as [|z l IH]; [done|]. cbn. intros Hn [->|Hx] [->|Hy] E; try done.
  - apply NoDup_cons in Hn as [Hn _]. destruct Hn. apply list_elem_of_In. rewrite E. by apply in_map.
  - apply NoDup_cons in Hn as [Hn _]. destruct Hn. apply list_elem_of_In. rewrite <- E. by apply in_map.
  - apply NoDup_cons in Hn as [_ Hn]. by apply IH.
Qed.

(** Erasing the node of a key erases the key. *)
Lemma erase_node_entries n k v l :
  NoDup (map fst l) -> NoDup (map fst (map snd l)) -> In (n, (k, v)) l ->
  map snd (erase_node n l) = without k (map snd l).
Proof.
  intros Hn Hk Hin. unfold erase_node, without.
  assert (forall m x w, In (m, (x, w)) l -> (m = n <-> x = k)) as Heq.
  { intros m x w Hm. split; intros E.
    - pose proof (NoDup_map_inj fst l _ _ Hn Hm Hin E) as [= _ -> _]. done.
    - rewrite List.map_map in Hk. pose proof (NoDup_map_inj _ l _ _ Hk Hm Hin E) as [= -> _ _]. done. }
  clear Hn Hk Hin. induction l as [|[m [x w]] l IH]; [done|]. cbn.
  rewrite <- (IH (fun m' x' w' Hm => Heq m' x' w' (or_intror Hm))).
  specialize (Heq m x w (or_introl eq_refl)). destruct (Nat.eqb_spec m n); case_bool_decide; try tauto; done.
Qed.

Lemma without_absent k (l : list (K * V)) : ~ In k (map fst l) -> without k l = l.
Proof.
  unfold without. induction l as [|[x w] l IH]; [done|]. cbn. intros Hn. rewrite bool_decide_eq_false_2 by tauto. cbn.
  by rewrite IH by tauto.
Qed.

Lemma without_in k p (l : list (K * V)) : In p (without k l) <-> In p l /\ fst p <> k.
Proof. unfold without. rewrite filter_In, negb_true_iff, bool_decide_eq_false. done. Qed.

Lemma without_keys k (l : list (K * V)) :
  map fst (without k l) = List.filter (fun x => negb (bool_decide (x = k))) (map fst l).
Proof. unfold without. induction l as [|[x w] l IH]; [done|]. cbn. case_bool_decide; cbn; by rewrite IH. Qed.

Lemma index_lookup l index next k : index_ok l index next -> (index !! k <> None <-> In k (map fst (map snd l))).
Proof.
  intros [_ _ _ Hi]. rewrite List.map_map, in_map_iff. split.
  - destruct (index !! k) as [n|] eqn:E; [|done]. intros _. apply Hi in E as [v Hv]. by exists (n, (k, v)).
  - intros ((n & k' & v) & <- & Hin). cbn. assert (index !! k' = Some n) as -> by (apply Hi; by exists v). done.
Qed.

Lemma index_size l index next : index_ok l index next -> size index = length l.
Proof.
  intros Hok. rewrite <- size_dom.
  assert (dom index ≡ (list_to_set (map fst (map snd l)) : gset K)) as ->.
  { intros k. rewrite elem_of_dom, elem_of_list_to_set, list_elem_of_In, <- (index_lookup l index next k Hok).
    destruct (index !! k); split; done. }
  rewrite size_list_to_set by apply Hok. by rewrite !length_map.
Qed.

Lemma index_insert l index next k v :
  index_ok l index next ->
  let l' := match index !! k with Some n => erase_node n ((next, (k, v)) :: l) | None => (next, (k, v)) :: l end in
  let index' := match index !! k with Some n => delete k index | None => index end in
  index_ok l' (<[k := next]> index') (S next) /\ map snd l' = (k, v) :: without k (map snd l).
Proof.
  intros Hok. pose proof Hok as [Hn Hk Hf Hi].
  assert (forall l0, ~ In k (map fst (map snd l0)) -> incl l0 l ->
            NoDup (map fst l0) -> NoDup (map fst (map snd l0)) ->
            (forall k' n, k' <> k -> index !! k' = Some n <-> exists w, In (n, (k', w)) l0) ->
            forall index0, (forall k', k' <> k -> index0 !! k' = index !! k') ->
            index_ok ((next, (k, v)) :: l0) (<[k := next]> index0) (S next)) as Hgen.
  { intros l0 Hk0 Hincl Hn0 Hkn0 Hi0 index0 Hx. split; cbn.
    - constructor; [|done]. rewrite list_elem_of_In. intros Hin. apply in_map_iff in Hin as (p & Ep & Hp).
      assert (fst p < next)%nat; [|lia]. apply Hf. by apply in_map, Hincl.
    - constructor; [|done]. by rewrite list_elem_of_In.
    - intros n [<-|Hin]; [lia|]. apply in_map_iff in Hin as (p & <- & Hp). apply Nat.lt_lt_succ_r, Hf. by apply in_map, Hincl.
    - intros k' n. destruct (decide (k = k')) as [<-|Hne].
      + rewrite lookup_insert_eq. split; [intros [= <-]; exists v; by left|].
        intros [w [[= -> ->]|Hin]]; [done|]. destruct Hk0. rewrite List.map_map. apply in_map_iff. by exists (n, (k, w)).
      + rewrite lookup_insert_ne, Hx, Hi0 by done. split; intros [w Hw]; exists w; [by right|].
        by destruct Hw as [[= _ E _]|?]. }
  destruct (index !! k) as [n|] eqn:E; cbn zeta.
  - pose proof (proj1 (Hi k n) E) as [w Hw]. assert (n < next)%nat as Hlt by (apply Hf, in_map_iff; by exists (n, (k, w))).
    assert (erase_node n ((next, (k, v)) :: l) = (next, (k, v)) :: erase_node n l) as ->.
    { unfold erase_node. cbn. destruct (Nat.eqb_spec next n); [lia|done]. }
    pose proof (erase_node_entries n k w l Hn Hk Hw) as Ee. split; [|cbn; by rewrite Ee].
    apply Hgen.
    + rewrite Ee, in_map_iff. intros (p & <- & Hp). apply without_in in Hp. tauto.
    + intros p Hp. by apply erase_node_in in Hp as [? _].
    + rewrite erase_node_map. by apply NoDup_filter_list.
    + rewrite Ee, without_keys. by apply NoDup_filter_list.
    + intros k' m Hne. rewrite Hi. split; intros [x Hx]; exists x.
      * apply erase_node_in. split; [done|]. cbn. intros ->.
        pose proof (NoDup_map_inj fst l _ _ Hn Hx Hw eq_refl). congruence.
      * by apply erase_node_in in Hx as [? _].
    + intros k' Hne. by apply lookup_delete_ne.
  - assert (~ In k (map fst (map snd l))) as Hk0 by (intros Hin; by apply (index_lookup _ _ _ k Hok) in Hin).
    split; [|cbn; by rewrite without_absent]. apply Hgen; try done. apply incl_refl.
Qed.

Lemma index_evict l n k v index next :
  index_ok (l ++ [(n, (k, v))]) index next -> index_ok l (delete k index) next.
Proof.
  intros [Hn Hk Hf Hi]. rewrite !map_app in *. cbn in *. apply NoDup_app in Hn as (Hn & _ & _).
  apply NoDup_app in Hk as (Hk & Hkx & _). split; try done.
  - intros m Hm. apply Hf, in_app_iff. by left.
  - intros k' m. destruct (decide (k = k')) as [<-|Hne].
    + rewrite lookup_delete_eq. split; [done|]. intros [w Hw]. exfalso. apply (Hkx k).
      * apply list_elem_of_In. rewrite List.map_map. apply in_map_iff. by exists (m, (k, w)).
      * by apply list_elem_of_singleton.
    + rewrite lookup_delete_ne, Hi by done. split; intros [w Hw]; exists w.
      * apply in_app_iff in Hw as [Hw|[[=]|[]]]; congruence.
      * apply in_app_iff. by left.
Qed.

End LruLemmas.

Section LruProperties.
Context {K V : Type} `{Countable K}.
Implicit Types (c : lru_cache K V).

Lemma take_removelast {A} (l : list A) n : length l = S n -> take n l = removelast l.
Proof.
  intros Hl. destruct (exists_last (l := l)) as (l' & x & ->); [by destruct l|].
  rewrite length_app in Hl. cbn in Hl. rewrite removelast_last. apply take_app_length'. lia.
Qed.

Lemma map_removelast {A B} (f : A -> B) (l : list A) : map f (removelast l) = removelast (map f l).
Proof. induction l as [|x [|y l] IH]; [done|done|]. cbn in *. by rewrite IH. Qed.

Lemma lru_put_ok k v c :
  lru_ok c -> lru_ok (lru_put k v c) /\ entries (lru_put k v c) = spec_put (max_size c) k v (entries c)
    /\ max_size (lru_put k v c) = max_size c.
Proof.
  intros [Hok Hb]. pose proof (index_insert _ _ _ k v Hok) as [Hi He]. unfold lru_put, entries, spec_put.
  set (l' := match cache_items_map c !! k with Some n => erase_node n _ | None => _ end) in *.
  set (index' := match cache_items_map c !! k with Some n => delete k _ | None => _ end) in *.
  replace (match cache_items_map c !! k with Some n => _ | None => _ end) with (l', index')
    by (subst l' index'; by destruct (cache_items_map c !! k)).
  pose proof (index_size _ _ _ Hi) as Hsz. rewrite Hsz.
  assert (length (without k (map snd (cache_items_list c))) <= max_size c)%nat as Hw.
  { unfold without. etransitivity; [apply filter_length_le|]. by rewrite length_map. }
  assert (length l' = S (length (without k (map snd (cache_items_list c))))) as Hl.
  { rewrite <- (length_map snd l'), He. done. }
  destruct (Nat.ltb_spec (max_size c) (length l')) as [Hlt|Hge].
  - destruct (exists_last (l := l')) as (l0 & [n [k0 v0]] & El); [by destruct l'|].
    rewrite El in *. rewrite last_snoc, removelast_last. cbn [cache_items_list max_size].
    rewrite length_app in Hl, Hlt. cbn in Hl, Hlt. split; [split|split; [|done]].
    + by eapply index_evict.
    + cbn. lia.
    + rewrite <- He, map_app. symmetry. apply take_app_length'. rewrite length_map. lia.
  - split; [by split|]. split; [|done]. cbn [cache_items_list]. rewrite He. symmetry. apply take_ge. cbn. lia.
Qed.

Lemma lru_get_ok k c :
  lru_ok c -> lru_ok (snd (lru_get k c)) /\ fst (lru_get k c) = fst (spec_get k (entries c))
    /\ entries (snd (lru_get k c)) = snd (spec_get k (entries c)) /\ max_size (snd (lru_get k c)) = max_size c.
Proof.
  intros [Hok Hb]. pose proof Hok as [Hn Hk Hf Hi]. unfold lru_get, spec_get, entries.
  destruct (cache_items_map c !! k) as [n|] eqn:E.
  - apply Hi in E as [v Hv].
    assert (List.find (fun p => Nat.eqb (fst p) n) (cache_items_list c) = Some (n, (k, v))) as ->.
    { destruct (List.find _ _) as [p|] eqn:Ef.
      - apply find_some in Ef as [Hp Ep]. apply Nat.eqb_eq in Ep. f_equal. by eapply (NoDup_map_inj fst).
      - apply (find_none _ _ Ef) in Hv. cbn in Hv. by rewrite Nat.eqb_refl in Hv. }
    assert (List.find (fun p => bool_decide (fst p = k)) (map snd (cache_items_list c)) = Some (k, v)) as ->.
    { destruct (List.find _ _) as [p|] eqn:Ef.
      - apply find_some in Ef as [Hp Ep]. apply bool_decide_eq_true in Ep. f_equal.
        apply (NoDup_map_inj fst (map snd (cache_items_list c))); [done|done| |done]. apply in_map_iff. by exists (n, (k, v)).
      - assert (In (k, v) (map snd (cache_items_list c))) as Hin by (apply in_map_iff; by exists (n, (k, v))).
        apply (find_none _ _ Ef) in Hin. cbn in Hin. by rewrite bool_decide_eq_true_2 in Hin. }
    pose proof (erase_node_entries n k v _ Hn Hk Hv) as Ee. cbn. split; [|by rewrite Ee].
    assert (forall p, In p ((n, (k, v)) :: erase_node n (cache_items_list c)) <-> In p (cache_items_list c)) as Hin.
    { intros p. cbn. rewrite erase_node_in. split; [intros [<-|[? _]]; done|]. intros Hp.
      destruct (decide (fst p = n)) as [Ep|]; [left|by right]. symmetry. by eapply (NoDup_map_inj fst). }
    split; [split|]; cbn.
    + constructor; [|rewrite erase_node_map; by apply NoDup_filter_list]. rewrite list_elem_of_In, erase_node_map, filter_In.
      rewrite Nat.eqb_refl. by intros [_ ?].
    + constructor; [|rewrite Ee, without_keys; by apply NoDup_filter_list]. rewrite list_elem_of_In, Ee, without_keys, filter_In.
      rewrite bool_decide_eq_true_2 by done. by intros [_ ?].
    + intros m Hm. apply Hf. apply in_map_iff. destruct Hm as [<-|Hm]; [by exists (n, (k, v))|].
      apply in_map_iff in Hm as (p & <- & Hp). apply erase_node_in in Hp as [Hp _]. by exists p.
    + intros k' m. rewrite Hi. by setoid_rewrite <- Hin.
    + assert (length (erase_node n (cache_items_list c)) < length (cache_items_list c))%nat; [|cbn; lia].
      clear -Hv. unfold erase_node. induction (cache_items_list c) as [|p l IH]; [done|]. cbn.
      destruct Hv as [->|Hv].
      * cbn. rewrite Nat.eqb_refl. cbn. pose proof (filter_length_le (fun p : nat * (K * V) => negb (fst p =? n)%nat) l). lia.
      * specialize (IH Hv). destruct (negb _); cbn; lia.
  - assert (List.find (fun p => bool_decide (fst p = k)) (map snd (cache_items_list c)) = None) as ->.
    { destruct (List.find _ _) as [p|] eqn:Ef; [|done]. apply find_some in Ef as [Hp Ep]. apply bool_decide_eq_true in Ep.
      assert (In k (map fst (map snd (cache_items_list c)))) as Hin by (subst k; by apply in_map).
      by apply (index_lookup _ _ _ k Hok) in Hin. }
    by split_and!.
Qed.

Lemma lru_clear_ok c : lru_ok c -> lru_ok (lru_clear c) /\ entries (lru_clear c) = [].
Proof.
  intros _. split; [|done]. split; [|cbn; lia]. split; cbn; [constructor|constructor|done|].
  intros k n. rewrite lookup_empty. split; [done|]. by intros [v []].
Qed.

(** * Properties *)

(** The node list and its index are a cache of at most [max_size] entries with one entry per key: a put
    places its entry first and drops the least recently used one when there is no room, a get answers what was
    last put under the key and makes it the most recently used. *)
Theorem lru_cache_correct (c : lru_cache K V) (k : K) (v : V) :
  lru_ok c ->
  (lru_ok (lru_put k v c) /\ entries (lru_put k v c) = spec_put (max_size c) k v (entries c))
  /\ (lru_ok (snd (lru_get k c)) /\ fst (lru_get k c) = fst (spec_get k (entries c))
      /\ entries (snd (lru_get k c)) = snd (spec_get k (entries c)))
  /\ lru_size c = length (entries c) /\ (lru_size (lru_put k v c) <= max_size c)%nat
  /\ (max_size c <> 0%nat -> fst (lru_get k (lru_put k v c)) = Some v).
Proof.
  intros Hok. destruct (lru_put_ok k v c Hok) as (Hp & Ep & Em), (lru_get_ok k c Hok) as (Hg & Eg & Ege & _).
  split_and!; try done.
  - unfold lru_size, entries. by rewrite (index_size _ _ _ (proj1 Hok)), length_map.
  - unfold lru_size. rewrite (index_size _ _ _ (proj1 Hp)), <- Em. apply Hp.
  - intros Hm. destruct (lru_get_ok k _ Hp) as (_ & -> & _). rewrite Ep. unfold spec_get, spec_put.
    destruct (max_size c) as [|m]; [done|]. cbn. by rewrite bool_decide_eq_true_2.
Qed.

End LruProperties.

Lemma lru_cache_correct_witness :
  fst (lru_get 1 (lru_put 1 true (new_lru_cache (K := Z) 2))) = Some true.
Proof.
  apply (lru_cache_correct (new_lru_cache (K := Z) 2) 1 true); [|discriminate].
  split; [|cbn; lia]. split; cbn; [constructor|constructor|done|].
  intros k n. rewrite lookup_empty. split; [done|]. by intros [v []].
Defined.

(** An analysis answered by the cache is the analysis of the code asked for at the revision
    asked for, if only such analyses are put: entries of another revision are never answered. *)
Theorem analysis_cache_correct {Analysis} (analyze : Z -> bytes -> Analysis) (c : AnalysisCache Analysis)
    (k : bytes) (revision : Z) :
  analysis_ok analyze c ->
  (match fst (analysis_get k revision c) with Some v => v = analyze revision k | None => True end)
  /\ analysis_ok analyze (snd (analysis_get k revision c))
  /\ analysis_ok analyze (analysis_put k (analyze revision k) revision c)
  /\ (max_size (cache c) <> 0%nat ->
        fst (analysis_get k revision (analysis_put k (analyze revision k) revision c)) = Some (analyze revision k)).
Proof.
  intros [Hok Ha].
  assert (forall (k : bytes) (v : Analysis) l, fst (spec_get k l) = Some v -> In (k, v) l) as Hsg.
  { intros k0 v l. unfold spec_get. destruct (List.find _ l) as [[x w]|] eqn:Ef; [|done]. cbn. intros [= ->].
    apply find_some in Ef as [Hin Hx]. by apply bool_decide_eq_true in Hx as <-. }
  assert (forall (k : bytes) p (l : list (bytes * Analysis)), In p (snd (spec_get k l)) -> In p l) as Hsi.
  { intros k0 p l. unfold spec_get. destruct (List.find _ l) as [[x w]|] eqn:Ef; [|done]. cbn.
    apply find_some in Ef as [Hin _]. intros [<-|Hp]; [done|]. by apply without_in in Hp as [? _]. }
  split_and!.
  - unfold analysis_get. destruct (Z.eqb_spec (cache_revision c) revision) as [<-|]; [|done].
    destruct (lru_get_ok k _ Hok) as (_ & Eg & _). destruct (lru_get k (cache c)) as [[v|] l]; [|done]. cbn in *.
    by apply Ha, Hsg.
  - unfold analysis_get. destruct (Z.eqb_spec (cache_revision c) revision) as [<-|]; [|done].
    destruct (lru_get_ok k _ Hok) as (Hg & _ & Ee & _). destruct (lru_get k (cache c)) as [v l]. cbn in *.
    split; [done|]. cbn. rewrite Ee. intros k' v' Hin. by apply Ha, (Hsi k).
  - unfold analysis_put. set (l := if cache_revision c =? revision then cache c else lru_clear (cache c)).
    assert (lru_ok l /\ forall k v, In (k, v) (entries l) -> v = analyze revision k) as [Hl Hla].
    { subst l. destruct (Z.eqb_spec (cache_revision c) revision) as [<-|]; [done|].
      destruct (lru_clear_ok _ Hok) as [? ->]. done. }
    destruct (lru_put_ok k (analyze revision k) l Hl) as (Hp & Ep & _). split; [done|]. cbn. rewrite Ep.
    intros k' v' Hin. unfold spec_put in Hin.
    assert (In (k', v') ((k, analyze revision k) :: without k (entries l))) as Hi.
    { rewrite <- (take_drop (max_size l)). apply in_app_iff. by left. }
    destruct Hi as [[= <- <-]|Hi]; [done|].
    apply without_in in Hi as [Hi _]. by apply Hla.
  - intros Hm. unfold analysis_get, analysis_put. cbn. rewrite Z.eqb_refl.
    set (l := if cache_revision c =? revision then cache c else lru_clear (cache c)).
    assert (lru_ok l) as Hl by (subst l; destruct (cache_revision c =? revision); [done|by apply lru_clear_ok]).
    assert (max_size l = max_size (cache c)) as Em by (subst l; by destruct (cache_revision c =? revision)).
    destruct (lru_put_ok k (analyze revision k) l Hl) as (Hp & Ep & _).
    destruct (lru_get_ok k _ Hp) as (_ & Eg & _). destruct (lru_get k (lru_put k (analyze revision k) l)) as [v x]. cbn in *.
    rewrite Eg, Ep. unfold spec_get, spec_put. rewrite Em. destruct (max_size (cache c)); [done|]. cbn. by rewrite bool_decide_eq_true_2.
Qed.

Lemma analysis_cache_correct_witness :
  fst (analysis_get [1] 9 (analysis_put [1] (Some [1]) 9 (new_analysis_cache 5 9))) = Some (Some [1]).
Proof.
  apply (analysis_cache_correct (fun _ k => Some k) (new_analysis_cache 5 9) [1] 9); [|discriminate].
  split; [|done]. split; [|cbn; lia]. split; cbn; [constructor|constructor|done|].
  intros k n. rewrite lookup_empty. split; [done|]. by intros [v []].
Defined.
