(* ===== verification/Hashes.v ===== *)
(** * Hashes: core/silkworm/crypto (sha-256.c, rmd160.c, rmd160.cpp, blake2b-ref.c)

    The hash functions of the precompiled contracts: SHA-256, RIPEMD-160 and the BLAKE2b compression. *)

From Stdlib Require Import String.
From S2P Require Import Prelude Util.
Local Open Scope Z_scope.

(** ** 32-bit words *)

Definition not32 (x : Z) : Z := Z.lxor x (2 ^ 32 - 1).
Definition right_rot (value count : Z) : Z := Z.lor (Z.shiftr value count) (u32 (Z.shiftl value (32 - count))).
Definition rol (x n : Z) : Z := Z.lor (u32 (Z.shiftl x n)) (Z.shiftr x (32 - n)).

Notation "a &&& b" := (Z.land a b) (at level 40, left associativity) : hash_scope.
Notation "a ^^^ b" := (Z.lxor a b) (at level 42, left associativity) : hash_scope.
Notation "a ||| b" := (Z.lor a b) : hash_scope.
Local Open Scope hash_scope.

(** ** sha-256.c *)

Definition CHUNK_SIZE : nat := 64.
Definition TOTAL_LEN_LEN : nat := 8.

(** The round constants, eight 32-bit words to a row. *)
Definition words8 (row : Z) : list Z := map (fun i => Z.shiftr row (32 * (7 - Z.of_nat i)) mod 2 ^ 32) (seq 0 8).

Definition sha256_k : list Z := Eval vm_compute in concat (map words8 [
  0x428a2f9871374491b5c0fbcfe9b5dba53956c25b59f111f1923f82a4ab1c5ed5;
  0xd807aa9812835b01243185be550c7dc372be5d7480deb1fe9bdc06a7c19bf174;
  0xe49b69c1efbe47860fc19dc6240ca1cc2de92c6f4a7484aa5cb0a9dc76f988da;
  0x983e5152a831c66db00327c8bf597fc7c6e00bf3d5a7914706ca635114292967;
  0x27b70a852e1b21384d2c6dfc53380d13650a7354766a0abb81c2c92e92722c85;
  0xa2bfe8a1a81a664bc24b8b70c76c51a3d192e819d6990624f40e3585106aa070;
  0x19a4c1161e376c082748774c34b0bcb5391c0cb34ed8aa4a5b9cca4f682e6ff3;
  0x748f82ee78a5636f84c878148cc7020890befffaa4506cebbef9a3f7c67178f2]).

Definition sha256_h0 : list Z :=
  [0x6a09e667; 0xbb67ae85; 0x3c6ef372; 0xa54ff53a; 0x510e527f; 0x9b05688c; 0x1f83d9ab; 0x5be0cd19].

Record buffer_state : Type := mkBufferState {
  rest : bytes;
  total_len : Z;
  single_one_delivered : bool;
  total_len_delivered : bool
}.

(** [chunk[7] = len << 3; len >>= 5], then seven more bytes of [len], the last first. *)
Definition length_bytes_of (len : Z) : bytes :=
  to_be 7 (Z.shiftr len 5) ++ [u8 (Z.shiftl len 3)].

Definition calc_chunk (state : buffer_state) : option (bytes * buffer_state) :=
  if total_len_delivered state then None
  else if (CHUNK_SIZE <=? length (rest state))%nat then
    Some (take CHUNK_SIZE (rest state),
          mkBufferState (drop CHUNK_SIZE (rest state)) (total_len state) (single_one_delivered state) false)
  else
    let chunk := rest state ++ (if single_one_delivered state then [] else [0x80]) in
    let space_in_chunk := (CHUNK_SIZE - length chunk)%nat in
    if (TOTAL_LEN_LEN <=? space_in_chunk)%nat then
      Some (chunk ++ zero_bytes (space_in_chunk - TOTAL_LEN_LEN) ++ length_bytes_of (total_len state),
            mkBufferState [] (total_len state) true true)
    else Some (chunk ++ zero_bytes space_in_chunk, mkBufferState [] (total_len state) true false).

(** One step of the compression: the sixteen words [w] in use, the working variables [ah]. *)
Definition sha256_step (chunk : bytes) (i : nat) (st : list Z * list Z) (j : nat) : list Z * list Z :=
  let '(w, ah) := st in
  let at_ n := nth n ah 0 in
  let wat n := nth ((j + n) mod 16) w 0 in
  let wj :=
    if (i =? 0)%nat then of_be (take 4 (drop (4 * j) chunk))
    else
      let s0 := right_rot (wat 1%nat) 7 ^^^ right_rot (wat 1%nat) 18 ^^^ Z.shiftr (wat 1%nat) 3 in
      let s1 := right_rot (wat 14%nat) 17 ^^^ right_rot (wat 14%nat) 19 ^^^ Z.shiftr (wat 14%nat) 10 in
      u32 (wat 0%nat + s0 + wat 9%nat + s1) in
  let s1 := right_rot (at_ 4%nat) 6 ^^^ right_rot (at_ 4%nat) 11 ^^^ right_rot (at_ 4%nat) 25 in
  let ch := (at_ 4%nat &&& at_ 5%nat) ^^^ (not32 (at_ 4%nat) &&& at_ 6%nat) in
  let temp1 := u32 (at_ 7%nat + s1 + ch + nth (16 * i + j) sha256_k 0 + wj) in
  let s0 := right_rot (at_ 0%nat) 2 ^^^ right_rot (at_ 0%nat) 13 ^^^ right_rot (at_ 0%nat) 22 in
  let maj := (at_ 0%nat &&& at_ 1%nat) ^^^ (at_ 0%nat &&& at_ 2%nat) ^^^ (at_ 1%nat &&& at_ 2%nat) in
  let temp2 := u32 (s0 + maj) in
  (<[j := wj]> w,
   [u32 (temp1 + temp2); at_ 0%nat; at_ 1%nat; at_ 2%nat; u32 (at_ 3%nat + temp1); at_ 4%nat; at_ 5%nat; at_ 6%nat]).

(** [w] is declared inside the outer loop but never initialised: each round of sixteen overwrites the
    same storage in place. *)
Definition sha256_compress (h : list Z) (chunk : bytes) : list Z :=
  let '(_, ah) :=
    foldl (fun st i => foldl (sha256_step chunk i) st (seq 0 16)) (replicate 16 0, h) (seq 0 4) in
  zip_with (fun x y => u32 (x + y)) h ah.

Fixpoint sha256_loop (fuel : nat) (state : buffer_state) (h : list Z) : list Z :=
  match fuel with
  | O => h
  | S fuel =>
      match calc_chunk state with
      | None => h
      | Some (chunk, state) => sha256_loop fuel state (sha256_compress h chunk)
      end
  end.

(** At most two chunks more than the full ones. *)
Definition calc_sha_256 (input : bytes) : bytes :=
  let h := sha256_loop (length input / 64 + 3) (mkBufferState input (u64 (zlen input)) false false) sha256_h0 in
  flat_map (to_be 4) h.

(** ** rmd160.c, rmd160.cpp *)

Definition rmd160_init : list Z := [0x67452301; 0xefcdab89; 0x98badcfe; 0x10325476; 0xc3d2e1f0].

(** The five basic functions. *)
Definition rmd_F (x y z : Z) : Z := x ^^^ y ^^^ z.
Definition rmd_G (x y z : Z) : Z := (x &&& y) ||| (not32 x &&& z).
Definition rmd_H (x y z : Z) : Z := (x ||| not32 y) ^^^ z.
Definition rmd_I (x y z : Z) : Z := (x &&& z) ||| (y &&& not32 z).
Definition rmd_J (x y z : Z) : Z := x ^^^ (y ||| not32 z).

(** The macros [FF] to [JJJ]: the next call has the roles of the variables rotated. *)
Definition rmd_step (f : Z -> Z -> Z -> Z) (k : Z) (X : list Z) (v : Z * Z * Z * Z * Z) (p : Z * Z)
  : Z * Z * Z * Z * Z :=
  let '(a, b, c, d, e) := v in
  let '(i, s) := p in
  let a := u32 (a + f b c d + nth (Z.to_nat i) X 0 + k) in
  let a := u32 (rol a s + e) in
  (e, a, b, rol c 10, d).

(** The word and the rotation of every call, a list per round. *)
Definition rmd_left : list ((Z -> Z -> Z -> Z) * Z * list (Z * Z)) := [
  (rmd_F, 0, [(0, 11); (1, 14); (2, 15); (3, 12); (4, 5); (5, 8); (6, 7); (7, 9); (8, 11); (9, 13); (10, 14); (11, 15); (12, 6); (13, 7); (14, 9); (15, 8)]);
  (rmd_G, 0x5a827999, [(7, 7); (4, 6); (13, 8); (1, 13); (10, 11); (6, 9); (15, 7); (3, 15); (12, 7); (0, 12); (9, 15); (5, 9); (2, 11); (14, 7); (11, 13); (8, 12)]);
  (rmd_H, 0x6ed9eba1, [(3, 11); (10, 13); (14, 6); (4, 7); (9, 14); (15, 9); (8, 13); (1, 15); (2, 14); (7, 8); (0, 13); (6, 6); (13, 5); (11, 12); (5, 7); (12, 5)]);
  (rmd_I, 0x8f1bbcdc, [(1, 11); (9, 12); (11, 14); (10, 15); (0, 14); (8, 15); (12, 9); (4, 8); (13, 9); (3, 14); (7, 5); (15, 6); (14, 8); (5, 6); (6, 5); (2, 12)]);
  (rmd_J, 0xa953fd4e, [(4, 9); (0, 15); (5, 5); (9, 11); (7, 6); (12, 8); (2, 13); (10, 12); (14, 5); (1, 12); (3, 13); (8, 14); (11, 11); (6, 8); (15, 5); (13, 6)])].

Definition rmd_right : list ((Z -> Z -> Z -> Z) * Z * list (Z * Z)) := [
  (rmd_J, 0x50a28be6, [(5, 8); (14, 9); (7, 9); (0, 11); (9, 13); (2, 15); (11, 15); (4, 5); (13, 7); (6, 7); (15, 8); (8, 11); (1, 14); (10, 14); (3, 12); (12, 6)]);
  (rmd_I, 0x5c4dd124, [(6, 9); (11, 13); (3, 15); (7, 7); (0, 12); (13, 8); (5, 9); (10, 11); (14, 7); (15, 7); (8, 12); (12, 7); (4, 6); (9, 15); (1, 13); (2, 11)]);
  (rmd_H, 0x6d703ef3, [(15, 9); (5, 7); (1, 15); (3, 11); (7, 8); (14, 6); (6, 6); (9, 14); (11, 12); (8, 13); (12, 5); (2, 14); (10, 13); (0, 13); (4, 7); (13, 5)]);
  (rmd_G, 0x7a6d76e9, [(8, 15); (6, 5); (4, 8); (1, 11); (3, 14); (11, 14); (15, 6); (0, 14); (5, 6); (12, 9); (2, 12); (13, 9); (9, 12); (7, 5); (10, 15); (14, 8)]);
  (rmd_F, 0, [(12, 8); (15, 5); (10, 12); (4, 9); (1, 12); (5, 5); (8, 14); (7, 6); (6, 8); (2, 13); (13, 6); (14, 5); (0, 15); (3, 13); (9, 11); (11, 11)])].

Definition rmd_line (rounds : list ((Z -> Z -> Z -> Z) * Z * list (Z * Z))) (X : list Z) (v : Z * Z * Z * Z * Z)
  : Z * Z * Z * Z * Z :=
  foldl (fun v r => let '(f, k, steps) := r in foldl (rmd_step f k X) v steps) v rounds.

Definition rmd160_compress (MDbuf X : list Z) : list Z :=
  let md n := nth n MDbuf 0 in
  let start := (md 0%nat, md 1%nat, md 2%nat, md 3%nat, md 4%nat) in
  let '(aa, bb, cc, dd, ee) := rmd_line rmd_left X start in
  let '(aaa, bbb, ccc, ddd, eee) := rmd_line rmd_right X start in
  [u32 (ddd + cc + md 1%nat); u32 (md 2%nat + dd + eee); u32 (md 3%nat + ee + aaa);
   u32 (md 4%nat + aa + bbb); u32 (md 0%nat + bb + ccc)].

(** [X[i >> 2] ^= byte << (8 * (i & 3))] *)
Definition xor_byte (X : list Z) (i : nat) (b : Z) : list Z :=
  alter (fun x => x ^^^ u32 (Z.shiftl b (8 * Z.of_nat (i mod 4)))) (i / 4)%nat X.

Definition rmd160_finish (MDbuf : list Z) (strptr : bytes) (lswlen mswlen : Z) : list Z :=
  let n := Z.to_nat (lswlen mod 64) in
  let X := foldl (fun X i => xor_byte X i (nth i strptr 0)) (replicate 16 0) (seq 0 n) in
  let X := alter (fun x => x ^^^ u32 (Z.shiftl 1 (8 * (lswlen mod 4) + 7)))
             (Z.to_nat (Z.land (Z.shiftr lswlen 2) 15)) X in
  let '(MDbuf, X) :=
    if 55 <? lswlen mod 64 then (rmd160_compress MDbuf X, replicate 16 0) else (MDbuf, X) in
  let X := <[14%nat := u32 (Z.shiftl lswlen 3)]> X in
  let X := <[15%nat := Z.lor (Z.shiftr lswlen 29) (u32 (Z.shiftl mswlen 3))]> X in
  rmd160_compress MDbuf X.

(** The loop over full blocks, then the rest; [in.size()] is cut to 32 bits as an argument. *)
Fixpoint ripemd_blocks (blocks : nat) (buf : list Z) (ptr : bytes) : list Z * bytes :=
  match blocks with
  | O => (buf, ptr)
  | S blocks =>
      let current := map (fun i => load_little_u32 (drop (4 * i) ptr)) (seq 0 16) in
      ripemd_blocks blocks (rmd160_compress buf current) (drop 64 ptr)
  end.

Definition calculate_ripemd_160 (input : bytes) : bytes :=
  let '(buf, ptr) := ripemd_blocks (length input / 64) rmd160_init input in
  flat_map (to_le 4) (rmd160_finish buf ptr (u32 (zlen input)) 0).

(** ** blake2b-ref.c *)

Record blake2b_state : Type := mkBlake2b {
  b2_h : list Z;
  b2_t : list Z;
  b2_f : list Z
}.

Definition blake2b_IV : list Z := [
  0x6a09e667f3bcc908; 0xbb67ae8584caa73b; 0x3c6ef372fe94f82b; 0xa54ff53a5f1d36f1; 0x510e527fade682d1;
  0x9b05688c2b3e6c1f; 0x1f83d9abfb41bd6b; 0x5be0cd19137e2179].

Definition blake2b_sigma : list (list nat) := [
  [0; 1; 2; 3; 4; 5; 6; 7; 8; 9; 10; 11; 12; 13; 14; 15]; [14; 10; 4; 8; 9; 15; 13; 6; 1; 12; 0; 2; 11; 7; 5; 3];
  [11; 8; 12; 0; 5; 2; 15; 13; 10; 14; 3; 6; 7; 1; 9; 4]; [7; 9; 3; 1; 13; 12; 11; 14; 2; 6; 5; 10; 4; 0; 15; 8];
  [9; 0; 5; 7; 2; 4; 10; 15; 14; 1; 11; 12; 6; 8; 3; 13]; [2; 12; 6; 10; 0; 11; 8; 3; 4; 13; 7; 5; 15; 14; 1; 9];
  [12; 5; 1; 15; 14; 13; 4; 10; 0; 7; 6; 3; 9; 2; 8; 11]; [13; 11; 7; 14; 12; 1; 3; 9; 5; 0; 15; 4; 8; 6; 2; 10];
  [6; 15; 14; 9; 11; 3; 0; 8; 12; 2; 13; 7; 1; 4; 10; 5]; [10; 2; 8; 4; 7; 6; 1; 5; 15; 11; 9; 14; 3; 12; 13; 0];
  [0; 1; 2; 3; 4; 5; 6; 7; 8; 9; 10; 11; 12; 13; 14; 15]; [14; 10; 4; 8; 9; 15; 13; 6; 1; 12; 0; 2; 11; 7; 5; 3]]%nat.

Definition rotr64 (w c : Z) : Z := Z.lor (Z.shiftr w c) (u64 (Z.shiftl w (64 - c))).

Definition blake2b_G (m : list Z) (r i : nat) (a b c d : nat) (v : list Z) : list Z :=
  let s := nth r blake2b_sigma [] in
  let get n v := nth n v 0 in
  let v := <[a := u64 (get a v + get b v + get (nth (2 * i) s 0%nat) m)]> v in
  let v := <[d := rotr64 (get d v ^^^ get a v) 32]> v in
  let v := <[c := u64 (get c v + get d v)]> v in
  let v := <[b := rotr64 (get b v ^^^ get c v) 24]> v in
  let v := <[a := u64 (get a v + get b v + get (nth (2 * i + 1) s 0%nat) m)]> v in
  let v := <[d := rotr64 (get d v ^^^ get a v) 16]> v in
  let v := <[c := u64 (get c v + get d v)]> v in
  <[b := rotr64 (get b v ^^^ get c v) 63]> v.

Definition blake2b_round (m : list Z) (r : nat) (v : list Z) : list Z :=
  let v := blake2b_G m r 0 0 4 8 12 v in
  let v := blake2b_G m r 1 1 5 9 13 v in
  let v := blake2b_G m r 2 2 6 10 14 v in
  let v := blake2b_G m r 3 3 7 11 15 v in
  let v := blake2b_G m r 4 0 5 10 15 v in
  let v := blake2b_G m r 5 1 6 11 12 v in
  let v := blake2b_G m r 6 2 7 8 13 v in
  blake2b_G m r 7 3 4 9 14 v.

(** [for (i = 0; i < r; ++i) ROUND(i % 10)]; the count is up to [2 ^ 32], hence binary. *)
Definition blake2b_rounds (m : list Z) (r : Z) (v : list Z) : list Z :=
  snd (N.iter (Z.to_N r) (fun p => (S (fst p) mod 10, blake2b_round m (fst p) (snd p))%nat) (0%nat, v)).

Definition blake2b_compress (S : blake2b_state) (block : bytes) (r : Z) : blake2b_state :=
  let m := map (fun i => load_little_u64 (drop (8 * i) block)) (seq 0 16) in
  let iv n := nth n blake2b_IV 0 in
  let v := take 8 (b2_h S) ++ take 4 blake2b_IV
           ++ [iv 4%nat ^^^ nth 0 (b2_t S) 0; iv 5%nat ^^^ nth 1 (b2_t S) 0;
               iv 6%nat ^^^ nth 0 (b2_f S) 0; iv 7%nat ^^^ nth 1 (b2_f S) 0] in
  let v := blake2b_rounds m r v in
  mkBlake2b (map (fun i => nth i (b2_h S) 0 ^^^ nth i v 0 ^^^ nth (i + 8) v 0) (seq 0 8)) (b2_t S) (b2_f S).

(** * Test vectors *)

Lemma sha256_abc : to_hex (calc_sha_256 (chars "abc"))
  = chars "ba7816bf8f01cfea414140de5dae2223b00361a396177a9cb410ff61f20015ad".
Proof. vm_compute. reflexivity. Qed.

Lemma ripemd160_abc : to_hex (calculate_ripemd_160 (chars "abc")) = chars "8eb208f7e05d987a9b044a8e98c6b087f15a0bfc".
Proof. vm_compute. reflexivity. Qed.
