(* ===== verification/Precompiled.v ===== *)
(** * Precompiled: core/silkworm/execution/precompiled.cpp, precompiled.hpp and crypto/snark.cpp

    The nine precompiled contracts: a gas function and a run function each. libsecp256k1, GMP and libff are
    classes of operations, with the documented facts the properties need as separate classes of laws. A
    [ByteView] that may alias the local padding buffer is a [View]; reading past a view is [Undef]. *)

From Stdlib Require Import String.
From S2P Require Import Prelude Util Keccak Ecdsa Chain Hashes.
Local Open Scope Z_scope.
Local Open Scope silk_scope.

(** ** The libraries *)

Class Secp256k1 : Type := secp256k1_recover : bytes -> bool -> bytes -> option bytes.

(** GMP: import of big-endian bytes, modular power, export as little-endian bytes. *)
Class Gmp : Type := {
  mpz_import : bytes -> Z;
  mpz_powm : Z -> Z -> Z -> Z;
  mpz_export_le : Z -> bytes
}.

Class GmpLaws `{Gmp} : Prop := {
  mpz_import_be : forall l, bytes_ok l -> mpz_import l = of_be l;
  mpz_powm_spec : forall b e m, 0 <= e -> 0 < m -> mpz_powm b e m = b ^ e mod m;
  mpz_export_min : forall x, 0 <= x -> mpz_export_le x = to_le (be_len x) x
}.

(** libff on alt_bn128. [g1_make x y] is the point of affine coordinates [x], [y]. *)
Class Libff : Type := {
  G1 : Type;
  G2 : Type;
  Fq12 : Type;
  alt_bn128_modulus_q : Z;
  g1_zero : G1;
  g1_make : Z -> Z -> G1;
  g1_is_well_formed : G1 -> bool;
  g1_is_zero : G1 -> bool;
  g1_add : G1 -> G1 -> G1;
  g1_mul : Z -> G1 -> G1;
  g1_affine : G1 -> Z * Z;
  g2_zero : G2;
  g2_make : Z * Z -> Z * Z -> G2;
  g2_is_well_formed : G2 -> bool;
  g2_is_zero : G2 -> bool;
  g2_order : Z;
  g2_mul : Z -> G2 -> G2;
  fq12_one : Fq12;
  fq12_mul : Fq12 -> Fq12 -> Fq12;
  fq12_eqb : Fq12 -> Fq12 -> bool;
  miller_loop : G1 -> G2 -> Fq12;
  final_exponentiation : Fq12 -> Fq12
}.

Class LibffLaws `{Libff} : Prop := {
  modulus_q_256 : 0 < alt_bn128_modulus_q < 2 ^ 256;
  g1_zero_is_zero : g1_is_zero g1_zero = true;
  g1_make_affine : forall x y,
    0 <= x < alt_bn128_modulus_q -> 0 <= y < alt_bn128_modulus_q -> g1_affine (g1_make x y) = (x, y);
  g1_make_not_zero : forall x y, g1_is_zero (g1_make x y) = false
}.

(** ** snark.cpp *)

Section Snark.
Context `{Gmp} `{Libff}.

(** [libff::bigint]: a number of 256 bits. *)
Definition to_scalar (be : bytes) : Z := mpz_import be.

Definition valid_element_of_fp (x : Z) : bool := x <? alt_bn128_modulus_q.

Definition decode_g1_element (bytes64_be : bytes) : option G1 :=
  let x := to_scalar (take 32 bytes64_be) in
  if negb (valid_element_of_fp x) then None
  else
    let y := to_scalar (take 32 (drop 32 bytes64_be)) in
    if negb (valid_element_of_fp y) then None
    else if (x =? 0) && (y =? 0) then Some g1_zero
    else
      let point := g1_make x y in
      if g1_is_well_formed point then Some point else None.

Definition decode_fp2_element (bytes64_be : bytes) : option (Z * Z) :=
  let c0 := to_scalar (take 32 (drop 32 bytes64_be)) in
  let c1 := to_scalar (take 32 bytes64_be) in
  if negb (valid_element_of_fp c0) || negb (valid_element_of_fp c1) then None else Some (c0, c1).

Definition decode_g2_element (bytes128_be : bytes) : option G2 :=
  x ← decode_fp2_element (take 64 bytes128_be);
  y ← decode_fp2_element (take 64 (drop 64 bytes128_be));
  if (fst x =? 0) && (snd x =? 0) && ((fst y =? 0) && (snd y =? 0)) then Some g2_zero
  else
    let point := g2_make x y in
    if negb (g2_is_well_formed point) then None
    else if negb (g2_is_zero (g2_mul g2_order point)) then None
    else Some point.

(** The little-endian limbs of [y] then of [x], the whole reversed. *)
Definition encode_g1_element (p : G1) : bytes :=
  if g1_is_zero p then zero_bytes 64
  else let '(x, y) := g1_affine p in rev (to_le 32 y ++ to_le 32 x).

End Snark.

(** ** precompiled.cpp *)

Definition kNumOfFrontierContracts : Z := 4.
Definition kNumOfByzantiumContracts : Z := 8.
Definition kNumOfIstanbulContracts : Z := 9.
Definition kSnarkvStride : nat := 192.
Definition UINT64_MAX : Z := 2 ^ 64 - 1.

(** [std::basic_string_view::substr] and [remove_prefix] on a view. *)
Definition view_drop (n : nat) (v : View) : View :=
  match v with Ext d => Ext (drop n d) | Buf off len => Buf (off + n) (len - n) end.
Definition view_take (n : nat) (v : View) : View :=
  match v with Ext d => Ext (take n d) | Buf off len => Buf off (Nat.min n len) end.

Definition word_gas (base per_word : Z) (input : bytes) : Z :=
  u64 (base + u64 (per_word * (u64 (zlen input + 31) / 32))).

Definition ecrec_gas (input : bytes) (rev : Z) : result unit Z := Ok 3000.
Definition sha256_gas (input : bytes) (rev : Z) : result unit Z := Ok (word_gas 60 12 input).
Definition rip160_gas (input : bytes) (rev : Z) : result unit Z := Ok (word_gas 600 120 input).
Definition id_gas (input : bytes) (rev : Z) : result unit Z := Ok (word_gas 15 3 input).

Definition sqr (x : Z) : Z := u256 (x * x).

Definition mult_complexity_eip198 (x : Z) : Z :=
  if x <=? 64 then sqr x
  else if x <=? 1024 then u256 (u256 (Z.shiftr (sqr x) 2 + u256 (96 * x)) - 3072)
  else u256 (u256 (Z.shiftr (sqr x) 4 + u256 (480 * x)) - 199680).

Definition mult_complexity_eip2565 (max_length : Z) : Z := sqr (Z.shiftr (u256 (max_length + 7)) 3).

(** The first 32 bytes of the exponent. *)
Definition exponent_head (input : View) (base_len64 exp_len64 : Z) (buffer : bytes) : result unit Z :=
  if base_len64 <? Z.of_nat (view_size input) then
    try (exp_input, buffer) := right_pad (view_drop (Z.to_nat base_len64) input) 32 buffer in
    if exp_len64 <? 32 then
      try (exp_input, buffer) := left_pad (view_take (Z.to_nat exp_len64) exp_input) 32 buffer in
      Ok (of_be (take 32 (view_bytes buffer exp_input)))
    else Ok (of_be (take 32 (view_bytes buffer exp_input)))
  else Ok 0.

Definition adjusted_exponent_length (exp_len256 exp_head : Z) : Z :=
  let bit_len := 256 - clz 256 exp_head in
  let adjusted := if 32 <? exp_len256 then u256 (8 * u256 (exp_len256 - 32)) else 0 in
  let adjusted := if 1 <? bit_len then u256 (adjusted + (bit_len - 1)) else adjusted in
  if adjusted <? 1 then 1 else adjusted.

Definition expmod_gas (input : bytes) (rev : Z) : result unit Z :=
  let min_gas := if rev <? EVMC_BERLIN then 0 else 200 in
  try (input, buffer) := right_pad (Ext input) 96 [] in
  let lengths := view_bytes buffer input in
  let base_len256 := of_be (take 32 lengths) in
  let exp_len256 := of_be (take 32 (drop 32 lengths)) in
  let mod_len256 := of_be (take 32 (drop 64 lengths)) in
  if (base_len256 =? 0) && (mod_len256 =? 0) then Ok min_gas
  else if (2 ^ 64 <=? base_len256) || (2 ^ 64 <=? exp_len256) || (2 ^ 64 <=? mod_len256) then Ok UINT64_MAX
  else
    try exp_head := exponent_head (view_drop 96 input) base_len256 exp_len256 buffer in
    let adjusted := adjusted_exponent_length exp_len256 exp_head in
    let max_length := Z.max mod_len256 base_len256 in
    let gas :=
      if rev <? EVMC_BERLIN then u256 (mult_complexity_eip198 max_length * adjusted) / kGQuadDivisorByzantium
      else u256 (mult_complexity_eip2565 max_length * adjusted) / kGQuadDivisorBerlin in
    if 2 ^ 64 <=? gas then Ok UINT64_MAX else Ok (Z.max min_gas gas).

Definition bn_add_gas (input : bytes) (rev : Z) : result unit Z := Ok (if EVMC_ISTANBUL <=? rev then 150 else 500).
Definition bn_mul_gas (input : bytes) (rev : Z) : result unit Z := Ok (if EVMC_ISTANBUL <=? rev then 6000 else 40000).

Definition snarkv_gas (input : bytes) (rev : Z) : result unit Z :=
  let k := zlen input / Z.of_nat kSnarkvStride in
  Ok (if EVMC_ISTANBUL <=? rev then u64 (u64 (34000 * k) + 45000) else u64 (u64 (80000 * k) + 100000)).

Definition blake2_f_gas (input : bytes) (rev : Z) : result unit Z :=
  Ok (if (length input <? 4)%nat then 0 else load_big_u32 input).

Section Contracts.
Context `{Secp256k1} `{Gmp} `{Libff}.

Definition ecrec_run (input : bytes) : result unit (option bytes) :=
  let d := if (length input <? 128)%nat then resize 128 input else input in
  let v := of_be (take 32 (drop 32 d)) in
  let r := of_be (take 32 (drop 64 d)) in
  let s := of_be (take 32 (drop 96 d)) in
  if negb (is_valid_signature r s false) then Ok (Some [])
  else
    let y := v_to_y_parity_and_chain_id v in
    match yp_chain_id y with
    | Some _ => Ok (Some [])
    | None =>
        match recover secp256k1_recover (take 32 d) (take 64 (drop 64 d)) (yp_odd y) with
        | None => Ok (Some [])
        | Some [] => Err tt   (* [at(0)] throws *)
        | Some (first :: public) =>
            if negb (first =? 4) then Ok (Some [])
            else Ok (Some (zero_bytes 12 ++ take 20 (drop 12 (keccak256 public))))
        end
    end.

Definition sha256_run (input : bytes) : result unit (option bytes) := Ok (Some (calc_sha_256 input)).

Definition rip160_run (input : bytes) : result unit (option bytes) :=
  Ok (Some (zero_bytes 12 ++ calculate_ripemd_160 input)).

Definition id_run (input : bytes) : result unit (option bytes) := Ok (Some input).

(** [mpz_import] of the first [n] bytes of a view: none at all for [n = 0]. *)
Definition import_number (n : Z) (data : bytes) : result unit Z :=
  if n =? 0 then Ok 0
  else if zlen data <? n then Undef
  else Ok (mpz_import (take (Z.to_nat n) data)).

Definition expmod_run (input : bytes) : result unit (option bytes) :=
  try (input, buffer) := right_pad (Ext input) 96 [] in
  let lengths := view_bytes buffer input in
  let base_len := load_big_u64 (drop 24 lengths) in
  let exponent_len := load_big_u64 (drop 56 lengths) in
  let modulus_len := load_big_u64 (drop 88 lengths) in
  if modulus_len =? 0 then Ok (Some [])
  else
    try (input, buffer) :=
      right_pad (view_drop 96 input) (Z.to_nat (u64 (u64 (base_len + exponent_len) + modulus_len))) buffer in
    let data := view_bytes buffer input in
    try base := import_number base_len data in
    let data := drop (Z.to_nat base_len) data in
    try exponent := import_number exponent_len data in
    let data := drop (Z.to_nat exponent_len) data in
    try modulus := import_number modulus_len data in
    if modulus =? 0 then Ok (Some (zero_bytes (Z.to_nat modulus_len)))
    else
      let exported := mpz_export_le (mpz_powm base exponent modulus) in
      if (Z.to_nat modulus_len <? length exported)%nat then Undef
      else Ok (Some (rev (memmove (zero_bytes (Z.to_nat modulus_len)) 0 exported))).

Definition bn_add_run (input : bytes) : result unit (option bytes) :=
  try (input, buffer) := right_pad (Ext input) 128 [] in
  let data := view_bytes buffer input in
  Ok (x ← decode_g1_element (take 64 data);
      y ← decode_g1_element (take 64 (drop 64 data));
      Some (encode_g1_element (g1_add x y))).

Definition bn_mul_run (input : bytes) : result unit (option bytes) :=
  try (input, buffer) := right_pad (Ext input) 96 [] in
  let data := view_bytes buffer input in
  Ok (x ← decode_g1_element (take 64 data);
      Some (encode_g1_element (g1_mul (to_scalar (take 32 (drop 64 data))) x))).

(** The loop over the pairs of points. *)
Fixpoint pairing_loop (k : nat) (input : bytes) (accumulator : Fq12) : option Fq12 :=
  match k with
  | O => Some accumulator
  | S k =>
      a ← decode_g1_element (take 64 input);
      b ← decode_g2_element (take 128 (drop 64 input));
      pairing_loop k (drop kSnarkvStride input)
        (if g1_is_zero a || g2_is_zero b then accumulator else fq12_mul accumulator (miller_loop a b))
  end.

Definition snarkv_run (input : bytes) : result unit (option bytes) :=
  if negb (length input mod kSnarkvStride =? 0)%nat then Ok None
  else
    Ok (accumulator ← pairing_loop (length input / kSnarkvStride) input fq12_one;
        Some (zero_bytes 31 ++ [if fq12_eqb (final_exponentiation accumulator) fq12_one then 1 else 0])).

Definition blake2_f_run (input : bytes) : result unit (option bytes) :=
  if negb (length input =? 213)%nat then Ok None
  else
    let f := nth 212 input 0 in
    if negb (f =? 0) && negb (f =? 1) then Ok None
    else
      let words n data := map (fun i => load_little_u64 (drop (8 * i) data)) (seq 0 n) in
      let state := mkBlake2b (words 8%nat (drop 4 input)) (words 2%nat (drop 196 input))
                     [if f =? 0 then 0 else UINT64_MAX; 0] in
      let state := blake2b_compress state (take 128 (drop 68 input)) (load_big_u32 input) in
      Ok (Some (flat_map (to_le 8) (b2_h state))).

(** *** precompiled.hpp *)

Record Contract : Type := mkContract {
  contract_gas : bytes -> Z -> result unit Z;
  contract_run : bytes -> result unit (option bytes)
}.

Definition kContracts : list Contract := [
  mkContract ecrec_gas ecrec_run; mkContract sha256_gas sha256_run; mkContract rip160_gas rip160_run;
  mkContract id_gas id_run; mkContract expmod_gas expmod_run; mkContract bn_add_gas bn_add_run;
  mkContract bn_mul_gas bn_mul_run; mkContract snarkv_gas snarkv_run; mkContract blake2_f_gas blake2_f_run].

End Contracts.

(** * Test vectors of EIP-152 *)

Definition eip152_input (rounds final : Z) : bytes :=
  to_be 4 rounds
  ++ default [] (from_hex (chars "48c9bdf267e6096a3ba7ca8485ae67bb2bf894fe72f36e3cf1361d5f3af54fa5d182e6ad7f520e511f6c3e2b8c68059b6bbd41fbabd9831f79217e1319cde05b"))
  ++ chars "abc" ++ zero_bytes 125 ++ [3] ++ zero_bytes 15 ++ [final].

Section TestVectors.
Context `{Secp256k1} `{Gmp} `{Libff}.

Lemma blake2_f_vectors :
  option_map to_hex (match blake2_f_run (eip152_input 12 1) with Ok o => o | _ => None end)
  = Some (chars "ba80a53f981c4d0d6a2797b69f12f6e94c212f14685ac4b74b12bb6fdbffa2d17d87c5392aab792dc252d5de4533cc9518d38aa8dbf1925ab92386edd4009923")
  /\ option_map to_hex (match blake2_f_run (eip152_input 0 1) with Ok o => o | _ => None end)
  = Some (chars "08c9bcf367e6096a3ba7ca8485ae67bb2bf894fe72f36e3cf1361d5f3af54fa5d282e6ad7f520e511f6c3e2b8c68059b9442be0454267ce079217e1319cde05b")
  /\ option_map to_hex (match blake2_f_run (eip152_input 12 0) with Ok o => o | _ => None end)
  = Some (chars "75ab69d3190a562c51aef8d88f1c2775876944407270c42c9844252c26d2875298743e7f6d5ea2f2d3e8d226039cd31b4e426ac4f2d3d666a610c2116fde4735")
  /\ blake2_f_run (eip152_input 12 2) = Ok None.
Proof. vm_compute. done. Qed.

End TestVectors.

(** * Lemmas *)

(** A byte string read as if followed by zeros. *)
Definition padded (n : nat) (input : bytes) : bytes := input ++ zero_bytes (n - length input).

Lemma right_pad_ext d n buffer :
  exists v b', right_pad (Ext d) n buffer = Ok (v, b') /\ view_bytes b' v = padded n d
    /\ ((n <= length d)%nat -> v = Ext d /\ b' = buffer)
    /\ ((length d < n)%nat -> v = Buf 0 n /\ length b' = n).
Proof.
  destruct (right_pad_spec (Ext d) n buffer) as (v & b' & E & Hv); [done|by left|].
  exists v, b'. split_and!; [done|done| |].
  - intros Hn. revert E. unfold right_pad. cbn [view_size]. rewrite (proj2 (Nat.leb_le _ _) Hn). by intros [= <- <-].
  - intros Hn. revert E. unfold right_pad. cbn [view_size is_Buf]. rewrite (proj2 (Nat.leb_gt _ _) Hn), andb_false_r.
    intros [= <- <-]. by rewrite !length_resize.
Qed.

Lemma of_be_take_zeros n k : of_be (take n (zero_bytes k)) = 0.
Proof.
  rewrite take_zero_bytes. rewrite <- (app_nil_r (zero_bytes _)). by rewrite of_be_zeros_l.
Qed.

Lemma exponent_head_ext d b e buffer :
  0 <= b -> 0 <= e ->
  exponent_head (Ext d) b e buffer
  = Ok (of_be (take (Z.to_nat (Z.min 32 e)) (padded 32 (drop (Z.to_nat b) d)))).
Proof.
  intros Hb He. unfold exponent_head. cbn [view_size]. destruct (Z.ltb_spec b (zlen d)).
  2: { rewrite drop_ge by lia. unfold padded. cbn [app]. by rewrite of_be_take_zeros. }
  cbn [view_drop]. destruct (right_pad_ext (drop (Z.to_nat b) d) 32 buffer) as (v & b' & -> & Hv & Hge & Hlt).
  cbn [result_bind]. destruct (Z.ltb_spec e 32).
  2: { rewrite Hv. by rewrite Z.min_l by lia. }
  rewrite Z.min_r by lia.
  assert (view_bytes b' (view_take (Z.to_nat e) v) = take (Z.to_nat e) (padded 32 (drop (Z.to_nat b) d))
          /\ view_in b' (view_take (Z.to_nat e) v)
          /\ (is_Buf (view_take (Z.to_nat e) v) = false \/ (32 <= length b')%nat)) as (Hvt & Hin & Hdef).
  { rewrite <- Hv. destruct (le_lt_dec 32 (length (drop (Z.to_nat b) d))) as [Hn|Hn].
    - destruct (Hge Hn) as [-> ->]. by split_and!; [| |left].
    - destruct (Hlt Hn) as [-> Hl]. cbn [view_take view_bytes view_in]. split_and!; [by rewrite take_take|lia|right; lia]. }
  destruct (left_pad_spec _ 32 _ Hin Hdef) as (v'' & b'' & -> & E''). cbn [result_bind]. rewrite E'', Hvt.
  rewrite <- (length_view_bytes _ _ Hin), Hvt, length_take.
  rewrite take_app, length_zero_bytes, take_zero_bytes, take_take, of_be_zeros_l.
  f_equal. f_equal. f_equal. unfold padded. rewrite length_app, length_zero_bytes. lia.
Qed.

(** ** The gas of modular exponentiation over unbounded integers (EIP-198, EIP-2565) *)

Definition ref_length (i : nat) (input : bytes) : Z := of_be (take 32 (drop (32 * i) (padded 96 input))).

Definition ref_exponent_head (base_len exp_len : Z) (input : bytes) : Z :=
  of_be (take (Z.to_nat (Z.min 32 exp_len)) (padded 32 (drop (Z.to_nat base_len) (drop 96 input)))).

Definition ref_complexity (berlin : bool) (x : Z) : Z :=
  if berlin then ((x + 7) / 8) ^ 2
  else if x <=? 64 then x ^ 2
  else if x <=? 1024 then x ^ 2 / 4 + 96 * x - 3072
  else x ^ 2 / 16 + 480 * x - 199680.

Definition ref_expmod_gas (berlin : bool) (base_len exp_len mod_len exp_head : Z) : Z :=
  let adjusted := Z.max 1 ((if exp_len <=? 32 then 0 else 8 * (exp_len - 32)) + Z.log2 exp_head) in
  ref_complexity berlin (Z.max mod_len base_len) * adjusted / (if berlin then 3 else 20).

Lemma clz_log2 w x : 0 < w -> 0 <= x -> 1 < w - clz w x -> w - clz w x - 1 = Z.log2 x.
Proof. unfold clz. intros Hw Hx. destruct (Z.eqb_spec x 0) as [->|]; lia. Qed.

Lemma log2_small w x : 0 < w -> 0 <= x -> w - clz w x <= 1 -> Z.log2 x = 0.
Proof. unfold clz. intros Hw Hx. pose proof (Z.log2_nonneg x). destruct (Z.eqb_spec x 0) as [->|]; [done|lia]. Qed.

Lemma adjusted_exponent_length_eq e head :
  0 <= e < 2 ^ 64 -> 0 <= head < 2 ^ 256 ->
  adjusted_exponent_length e head = Z.max 1 ((if e <=? 32 then 0 else 8 * (e - 32)) + Z.log2 head)
  /\ 1 <= adjusted_exponent_length e head < 2 ^ 68.
Proof.
  intros He Hh. assert (0 <= Z.log2 head < 256) as Hl.
  { split; [apply Z.log2_nonneg|]. destruct (Z.eq_dec head 0) as [->|]; [done|]. apply Z.log2_lt_pow2; lia. }
  assert (adjusted_exponent_length e head = Z.max 1 ((if e <=? 32 then 0 else 8 * (e - 32)) + Z.log2 head)) as ->.
  { unfold adjusted_exponent_length.
    destruct (Z.ltb_spec 1 (256 - clz 256 head)) as [Hb|Hb];
      [rewrite (clz_log2 256 head) by lia|rewrite (log2_small 256 head) by lia];
      destruct (Z.ltb_spec 32 e), (Z.leb_spec e 32); try lia; unwrap; zif; lia. }
  split; [done|]. destruct (e <=? 32); lia.
Qed.

Lemma mult_complexity_eq x :
  0 <= x < 2 ^ 64 ->
  mult_complexity_eip198 x = ref_complexity false x /\ mult_complexity_eip2565 x = ref_complexity true x
  /\ 0 <= ref_complexity false x < 2 ^ 129 /\ 0 <= ref_complexity true x < 2 ^ 129.
Proof.
  intros Hx. unfold mult_complexity_eip198, mult_complexity_eip2565, ref_complexity, sqr.
  rewrite !Z.pow_2_r, !Z.shiftr_div_pow2 by lia. change (2 ^ 2) with 4. change (2 ^ 4) with 16. change (2 ^ 3) with 8.
  assert (0 <= x * x < 2 ^ 128) by nia.
  assert (0 <= (x + 7) / 8 < 2 ^ 62) by (split; [apply Z.div_pos|apply Z.div_lt_upper_bound]; lia).
  assert (0 <= (x + 7) / 8 * ((x + 7) / 8) < 2 ^ 124) by nia.
  assert (0 <= x * x / 4 < 2 ^ 126) by (split; [apply Z.div_pos|apply Z.div_lt_upper_bound]; lia).
  assert (0 <= x * x / 16 < 2 ^ 124) by (split; [apply Z.div_pos|apply Z.div_lt_upper_bound]; lia).
  unwrap. split_and!; zif; try lia; unwrap; lia.
Qed.

Lemma of_be_word l : bytes_ok l -> (length l <= 32)%nat -> 0 <= of_be l < 2 ^ 256.
Proof.
  intros Hok Hl. pose proof (of_be_bound l Hok) as [H1 H2]. split; [done|].
  rewrite pow256 in H2 by lia. eapply Z.lt_le_trans; [exact H2|]. apply Z.pow_le_mono_r; lia.
Qed.

Lemma bytes_ok_take n l : bytes_ok l -> bytes_ok (take n l).
Proof. apply Forall_take. Qed.
Lemma bytes_ok_drop n l : bytes_ok l -> bytes_ok (drop n l).
Proof. apply Forall_drop. Qed.
Lemma bytes_ok_padded n l : bytes_ok l -> bytes_ok (padded n l).
Proof. intros H. apply Forall_app. split; [done|apply zero_bytes_ok]. Qed.
#[local] Hint Resolve bytes_ok_take bytes_ok_drop bytes_ok_padded : core.

Lemma take_length_le {A} n (l : list A) : (length (take n l) <= n)%nat.
Proof. rewrite length_take. lia. Qed.

Lemma gas_quotient (berlin : bool) x a :
  0 <= x < 2 ^ 64 -> 1 <= a < 2 ^ 68 ->
  (if berlin then u256 (mult_complexity_eip2565 x * a) / 3 else u256 (mult_complexity_eip198 x * a) / 20)
  = ref_complexity berlin x * a / (if berlin then 3 else 20).
Proof.
  intros Hx Ha. destruct (mult_complexity_eq x Hx) as (E1 & E2 & B1 & B2).
  destruct berlin; rewrite ?E1, ?E2, u256_small; try done; nia.
Qed.

Lemma expmod_gas_eq input rev :
  bytes_ok input ->
  let b := ref_length 0 input in
  let e := ref_length 1 input in
  let m := ref_length 2 input in
  let min_gas := if rev <? EVMC_BERLIN then 0 else 200 in
  expmod_gas input rev
  = Ok (if (b =? 0) && (m =? 0) then min_gas
        else if (2 ^ 64 <=? b) || (2 ^ 64 <=? e) || (2 ^ 64 <=? m) then 2 ^ 64 - 1
        else let gas := ref_expmod_gas (negb (rev <? EVMC_BERLIN)) b e m (ref_exponent_head b e input) in
             if 2 ^ 64 <=? gas then 2 ^ 64 - 1 else Z.max min_gas gas).
Proof.
  intros Hok b e m min_gas. unfold expmod_gas. change (if rev <? EVMC_BERLIN then 0 else 200) with min_gas.
  destruct (right_pad_ext input 96 []) as (v & b' & -> & Hv & Hge & Hlt). cbn [result_bind]. rewrite Hv.
  change (of_be (take 32 (padded 96 input))) with b.
  change (of_be (take 32 (drop 32 (padded 96 input)))) with e.
  change (of_be (take 32 (drop 64 (padded 96 input)))) with m.
  destruct ((b =? 0) && (m =? 0)); [done|].
  assert (forall i, 0 <= ref_length i input < 2 ^ 256) as Hr by (intros i; apply of_be_word; auto using take_length_le).
  pose proof (Hr 0%nat) as Hb. pose proof (Hr 1%nat) as He. pose proof (Hr 2%nat) as Hm.
  fold b in Hb. fold e in He. fold m in Hm.
  destruct (Z.leb_spec (2 ^ 64) b); [done|]. destruct (Z.leb_spec (2 ^ 64) e); [done|].
  destruct (Z.leb_spec (2 ^ 64) m); [done|]. cbn [orb].
  assert (exponent_head (view_drop 96 v) b e b' = Ok (ref_exponent_head b e input)) as ->.
  { destruct (le_lt_dec 96 (length input)) as [Hn|Hn].
    - destruct (Hge Hn) as [-> ->]. apply exponent_head_ext; lia.
    - destruct (Hlt Hn) as [-> Hl]. unfold exponent_head, ref_exponent_head. cbn [view_drop view_size].
      rewrite (proj2 (Z.ltb_ge b (Z.of_nat (96 - 96)))) by lia.
      rewrite (drop_ge input) by lia. rewrite drop_nil. unfold padded. cbn [app]. by rewrite of_be_take_zeros. }
  cbn [result_bind].
  assert (0 <= ref_exponent_head b e input < 2 ^ 256) as Hh.
  { apply of_be_word; [auto|]. rewrite length_take. lia. }
  destruct (adjusted_exponent_length_eq e (ref_exponent_head b e input) ltac:(lia) Hh) as [Ea Ba].
  unfold ref_expmod_gas. rewrite <- Ea.
  cbv zeta. rewrite <- (gas_quotient (negb (rev <? EVMC_BERLIN)) (Z.max m b)) by (clear - Hb Hm H H1 Ba; lia).
  unfold kGQuadDivisorByzantium, kGQuadDivisorBerlin.
  destruct (rev <? EVMC_BERLIN); cbn [negb]; by destruct (2 ^ 64 <=? _).
Qed.

(** ** Modular exponentiation *)

Section ExpMod.
Context `{!Gmp} `{!GmpLaws}.

Lemma import_number_eq n data :
  bytes_ok data -> 0 <= n <= zlen data -> import_number n data = Ok (of_be (take (Z.to_nat n) data)).
Proof.
  intros Hok Hn. unfold import_number. destruct (Z.eqb_spec n 0) as [->|]; [done|].
  rewrite (proj2 (Z.ltb_ge (zlen data) n)) by lia. by rewrite mpz_import_be by auto.
Qed.

(** The little-endian export, written at the front of zeros and reversed, is the big-endian number. *)
Lemma export_reversed k x :
  0 <= x < 256 ^ Z.of_nat k ->
  (length (mpz_export_le x) <= k)%nat
  /\ rev (memmove (zero_bytes k) 0 (mpz_export_le x)) = to_be k x.
Proof.
  intros Hx. rewrite mpz_export_min by lia. pose proof (be_len_le x k Hx) as Hl. unfold to_le.
  rewrite length_rev, length_to_be. split; [done|].
  unfold memmove. rewrite take_0. cbn [app Nat.add]. rewrite rev_app_distr, rev_involutive, length_rev, length_to_be.
  unfold zero_bytes. rewrite drop_replicate, (rev_alt (replicate _ _)). setoid_rewrite (reverse_replicate (A := Z)).
  replace k with ((k - be_len x) + be_len x)%nat at 2 by lia.
  rewrite to_be_add; [done|]. split; [lia|apply be_len_spec; lia].
Qed.

Definition ref_number (off len : Z) (input : bytes) : Z :=
  of_be (take (Z.to_nat len) (drop (Z.to_nat off) (padded (Z.to_nat (off + len)) (drop 96 input)))).

Lemma padded_slice n m l off len :
  (off + len <= n)%nat -> (n <= m)%nat -> take len (drop off (padded m l)) = take len (drop off (padded n l)).
Proof.
  intros Hl Hn. assert (take (off + len) (padded m l) = take (off + len) (padded n l)) as E.
  { unfold padded. rewrite !take_app, !take_zero_bytes. f_equal. f_equal. lia. }
  by rewrite (firstn_skipn_comm len off (padded m l)), (firstn_skipn_comm len off (padded n l)), E.
Qed.

Lemma ref_number_eq off len n input :
  0 <= off -> 0 <= len -> off + len <= Z.of_nat n ->
  of_be (take (Z.to_nat len) (drop (Z.to_nat off) (padded n (drop 96 input)))) = ref_number off len input.
Proof. intros Ho Hl Hn. unfold ref_number. f_equal. apply padded_slice; lia. Qed.

Lemma ref_number_nonneg off len input : bytes_ok input -> 0 <= ref_number off len input.
Proof. intros Hok. apply (of_be_bound _). auto. Qed.

Lemma ref_length_range i input : bytes_ok input -> 0 <= ref_length i input < 2 ^ 256.
Proof. intros Hok. apply of_be_word; auto using take_length_le. Qed.

Lemma low_word l : bytes_ok l -> length l = 32%nat -> load_big_u64 (drop 24 l) = u64 (of_be l).
Proof.
  intros Hok Hl. unfold load_big_u64. rewrite take_ge by (rewrite length_drop; lia).
  rewrite <- (take_drop 24 l) at 2. rewrite of_be_app, length_drop, Hl.
  change (256 ^ Z.of_nat (32 - 24)) with (2 ^ 64).
  pose proof (of_be_bound (drop 24 l) ltac:(auto)) as Hd. rewrite length_drop, Hl in Hd. change (256 ^ Z.of_nat (32 - 24)) with (2 ^ 64) in Hd.
  unfold u64, wrap. rewrite Z.add_comm, Z.mod_add by done. by rewrite Z.mod_small.
Qed.

(** What is read of a length: its low 64 bits. *)
Definition read_length (i : nat) (input : bytes) : Z := u64 (ref_length i input).

Lemma read_length_range i input : 0 <= read_length i input < 2 ^ 64.
Proof. apply u64_range. Qed.

Lemma length_word i input n :
  bytes_ok input -> (i < 3)%nat -> n = (32 * i + 24)%nat -> load_big_u64 (drop n (padded 96 input)) = read_length i input.
Proof.
  intros Hok Hi ->. unfold read_length, ref_length. set (p := padded 96 input).
  assert (96 <= length p)%nat by (unfold p, padded; rewrite length_app, length_zero_bytes; lia).
  assert (bytes_ok p) by (unfold p; auto).
  rewrite <- low_word; [|auto|rewrite length_take, length_drop; lia].
  unfold load_big_u64. rewrite skipn_firstn_comm, take_take, drop_drop. f_equal.
Qed.

(** Padding the empty rest of the padded header. *)
Lemma right_pad_empty n off buffer :
  (off <= length buffer)%nat ->
  exists v b', right_pad (Buf off 0) n buffer = Ok (v, b') /\ view_bytes b' v = padded n [].
Proof.
  intros Hoff. destruct (right_pad (Buf off 0) n buffer) as [[v b']|u|] eqn:E.
  - exists v, b'. split; [done|]. rewrite (right_pad_ok (Buf off 0) n buffer v b' ltac:(cbn; lia) E). cbn [view_bytes view_size].
    by rewrite take_0.
  - exfalso. revert E. unfold right_pad. by repeat case_match.
  - exfalso. revert E. unfold right_pad. cbn [view_size is_Buf Nat.ltb Nat.leb andb]. by case_match.
Qed.

(** The lengths, and the rest of the input behind them, padded. *)
Lemma padded_parts input : exists v b', right_pad (Ext input) 96 [] = Ok (v, b') /\ view_bytes b' v = padded 96 input
  /\ forall n, exists v2 b2, right_pad (view_drop 96 v) n b' = Ok (v2, b2) /\ view_bytes b2 v2 = padded n (drop 96 input).
Proof.
  destruct (right_pad_ext input 96 []) as (v & b' & E & Hv & Hge & Hlt). exists v, b'. split; [done|]. split; [done|]. intros n.
  destruct (le_lt_dec 96 (length input)) as [Hn|Hn].
  - destruct (Hge Hn) as [-> ->]. destruct (right_pad_ext (drop 96 input) n []) as (v2 & b2 & E2 & Hv2 & _). by exists v2, b2.
  - destruct (Hlt Hn) as [-> Hl]. rewrite (drop_ge input) by lia. apply right_pad_empty. lia.
Qed.

Lemma expmod_run_eq input :
  bytes_ok input ->
  let b := read_length 0 input in
  let e := read_length 1 input in
  let m := read_length 2 input in
  b + e + m < 2 ^ 64 ->
  let base := ref_number 0 b input in
  let exponent := ref_number b e input in
  let modulus := ref_number (b + e) m input in
  expmod_run input
  = Ok (Some (to_be (Z.to_nat m) (if modulus =? 0 then 0 else base ^ exponent mod modulus))).
Proof.
  intros Hok b e m Hsum base exponent modulus.
  pose proof (read_length_range 0 input) as Hb. pose proof (read_length_range 1 input) as He.
  pose proof (read_length_range 2 input) as Hm. fold b in Hb. fold e in He. fold m in Hm.
  unfold expmod_run. destruct (padded_parts input) as (v & b' & -> & Hv & Hrest).
  cbn [result_bind]. rewrite Hv.
  rewrite (length_word 0 input 24), (length_word 1 input 56), (length_word 2 input 88); try done; try lia.
  fold b e m.
  destruct (Z.eqb_spec m 0) as [->|Hm0]; [done|].
  rewrite (u64_small (b + e)), u64_small by (clear - Hb He Hm Hsum; lia).
  destruct (Hrest (Z.to_nat (b + e + m))) as (v2 & b2 & -> & Ev). set (data := padded (Z.to_nat (b + e + m)) (drop 96 input)) in *.
  cbn [result_bind]. rewrite Ev.
  assert (bytes_ok data) as Hd by (unfold data; auto).
  assert (b + e + m <= zlen data) as Hlen.
  { unfold data, padded. rewrite length_app, length_zero_bytes. clear - Hb He Hm. lia. }
  rewrite import_number_eq by (done || (clear - Hb He Hm Hlen; lia)). cbn [result_bind].
  rewrite import_number_eq by (auto || (rewrite length_drop; clear - Hb He Hm Hlen; lia)). cbn [result_bind].
  rewrite import_number_eq by (auto || (rewrite !length_drop; clear - Hb He Hm Hlen; lia)). cbn [result_bind].
  rewrite drop_drop, <- Z2Nat.inj_add by (clear - Hb He; lia).
  assert (of_be (take (Z.to_nat b) data) = base) as -> by (apply (ref_number_eq 0 b); clear - Hb He Hm; lia).
  assert (of_be (take (Z.to_nat e) (drop (Z.to_nat b) data)) = exponent) as ->
    by (apply ref_number_eq; clear - Hb He Hm; lia).
  assert (of_be (take (Z.to_nat m) (drop (Z.to_nat (b + e)) data)) = modulus) as ->
    by (apply ref_number_eq; clear - Hb He Hm; lia).
  pose proof (ref_number_nonneg (b + e) m input Hok) as Hmod. fold modulus in Hmod.
  destruct (Z.eqb_spec modulus 0) as [_|Hm1]; [by rewrite to_be_0|].
  assert (0 < modulus < 256 ^ Z.of_nat (Z.to_nat m)) as Hmod2.
  { split; [clear - Hmod Hm1; lia|]. unfold modulus, ref_number. eapply Z.lt_le_trans; [apply of_be_bound; auto|].
    apply Z.pow_le_mono_r; [lia|]. rewrite length_take. lia. }
  rewrite mpz_powm_spec by (try apply ref_number_nonneg; done || (clear - Hmod2; lia)).
  pose proof (Z.mod_pos_bound (base ^ exponent) modulus ltac:(clear - Hmod2; lia)) as Hr.
  destruct (export_reversed (Z.to_nat m) (base ^ exponent mod modulus)) as [Hexp ->];
    [clear - Hr Hmod2; lia|].
  by rewrite (proj2 (Nat.ltb_ge _ _)).
Qed.

(** Lengths that do not add up in 64 bits: there are fewer bytes than one of the numbers needs. *)
Lemma expmod_run_past_end input :
  bytes_ok input -> zlen input < 2 ^ 64 ->
  0 < read_length 2 input -> 2 ^ 64 <= read_length 0 input + read_length 1 input + read_length 2 input ->
  expmod_run input = Undef.
Proof.
  intros Hok Hlen Hm Hsum. unfold expmod_run. destruct (padded_parts input) as (v & b' & -> & Hv & Hrest). cbn [result_bind].
  rewrite Hv, (length_word 0 input 24), (length_word 1 input 56), (length_word 2 input 88) by done || lia.
  pose proof (read_length_range 0 input) as Hb. pose proof (read_length_range 1 input) as He.
  set (b := read_length 0 input) in *. set (e := read_length 1 input) in *. set (m := read_length 2 input) in *.
  destruct (Z.eqb_spec m 0) as [|_]; [lia|]. pose proof (u64_range (u64 (b + e) + m)) as Hn. set (n := u64 (u64 (b + e) + m)) in *.
  destruct (Hrest (Z.to_nat n)) as (v2 & b2 & -> & Ev). cbn [result_bind]. rewrite Ev. set (data := padded _ _).
  assert (zlen data < 2 ^ 64) as Hd by (unfold data, padded; rewrite length_app, length_zero_bytes, length_drop; lia).
  assert (forall (k : Z) (l : bytes), 0 <= k -> (exists x, import_number k l = Ok x /\ k <= zlen l) \/ import_number k l = Undef) as Himport.
  { intros k l Hk. unfold import_number. destruct (Z.eqb_spec k 0) as [->|_]; [left; eexists; split; [done|lia]|].
    destruct (Z.ltb_spec (zlen l) k); [by right|left; by eexists]. }
  destruct (Himport b data) as [(x & -> & Lb)| ->]; [lia| |done]. cbn [result_bind].
  destruct (Himport e (drop (Z.to_nat b) data)) as [(y & -> & Le)| ->]; [lia| |done]. cbn [result_bind]. rewrite length_drop in Le.
  destruct (Himport m (drop (Z.to_nat e) (drop (Z.to_nat b) data))) as [(z & _ & Lm)| ->]; [lia| |done].
  rewrite !length_drop in Lm. lia.
Qed.

End ExpMod.

(** ** Points *)

Section Points.
Context `{!Gmp} `{!GmpLaws} `{!Libff} `{!LibffLaws}.

Lemma decode_g1_encode b p :
  bytes_ok b -> length b = 64%nat -> decode_g1_element b = Some p -> encode_g1_element p = b.
Proof.
  intros Hok Hl. unfold decode_g1_element, to_scalar, valid_element_of_fp.
  rewrite !mpz_import_be by auto. set (x := of_be (take 32 b)). set (y := of_be (take 32 (drop 32 b))).
  assert (b = to_be 32 x ++ to_be 32 y) as Hb.
  { rewrite <- (take_drop 32 b) at 1. f_equal.
    - rewrite <- (to_be_of_be (take 32 b)) at 1 by auto. by rewrite length_take, Hl.
    - rewrite <- (to_be_of_be (drop 32 b)) at 1 by auto. rewrite length_drop, Hl. unfold y.
      by rewrite (take_ge (drop 32 b)) by (rewrite length_drop; lia). }
  pose proof modulus_q_256 as Hq.
  assert (0 <= x) as Hx by (apply of_be_bound; auto). assert (0 <= y) as Hy by (apply of_be_bound; auto).
  destruct (Z.ltb_spec x alt_bn128_modulus_q) as [Hxq|]; [|done]. cbn [negb].
  destruct (Z.ltb_spec y alt_bn128_modulus_q) as [Hyq|]; [|done]. cbn [negb].
  destruct (Z.eqb_spec x 0) as [Ex|_], (Z.eqb_spec y 0) as [Ey|_]; cbn [andb].
  1: { intros [= <-]. unfold encode_g1_element. by rewrite g1_zero_is_zero, Hb, Ex, Ey. }
  all: destruct (g1_is_well_formed (g1_make x y)); [|done]; intros [= <-]; unfold encode_g1_element;
    rewrite g1_make_not_zero, g1_make_affine by lia; unfold to_le;
    by rewrite rev_app_distr, !rev_involutive, Hb.
Qed.

End Points.

(** ** What is affordable is defined *)

Section Affordable.
Context `{!Secp256k1} `{!Gmp} `{!GmpLaws} `{!Libff}.

Lemma ref_complexity_lower (berlin : bool) x :
  1 <= x -> 1 <= ref_complexity berlin x /\ (2 ^ 40 <= x -> 2 ^ 70 <= ref_complexity berlin x).
Proof.
  intros Hx. unfold ref_complexity. rewrite !Z.pow_2_r. destruct berlin.
  - assert (x <= 8 * ((x + 7) / 8)) by (pose proof (Z.div_mod (x + 7) 8 ltac:(lia)); pose proof (Z.mod_pos_bound (x + 7) 8 ltac:(lia)); lia).
    split; [nia|]. intros Hb. assert (2 ^ 37 <= (x + 7) / 8) by lia. nia.
  - pose proof (Z.div_mod (x * x) 4 ltac:(lia)). pose proof (Z.mod_pos_bound (x * x) 4 ltac:(lia)).
    pose proof (Z.div_mod (x * x) 16 ltac:(lia)). pose proof (Z.mod_pos_bound (x * x) 16 ltac:(lia)).
    split; [zif; nia|]. intros Hb. zif. assert (2 ^ 80 <= x * x) by nia. lia.
Qed.

Lemma affordable_lengths (berlin : bool) b e m head :
  0 <= b -> 0 <= e < 2 ^ 64 -> 0 <= m -> ~ (b = 0 /\ m = 0) ->
  ref_expmod_gas berlin b e m head < 2 ^ 61 -> b + e + m < 2 ^ 64.
Proof.
  intros Hb He Hm Hne. unfold ref_expmod_gas. set (x := Z.max m b).
  set (adj := Z.max 1 _). assert (1 <= adj /\ 8 * (e - 32) <= adj) as [Ha1 Ha2].
  { pose proof (Z.log2_nonneg head). subst adj. destruct (Z.leb_spec e 32); lia. }
  destruct (ref_complexity_lower berlin x ltac:(lia)) as [Hc1 Hc2].
  set (c := ref_complexity berlin x) in *. intros Hg.
  assert (c * adj < 2 ^ 66) as Hp.
  { assert (c * adj / (if berlin then 3 else 20) < 2 ^ 61) as Hq by exact Hg.
    destruct berlin.
    - pose proof (Z.div_mod (c * adj) 3 ltac:(lia)). pose proof (Z.mod_pos_bound (c * adj) 3 ltac:(lia)). lia.
    - pose proof (Z.div_mod (c * adj) 20 ltac:(lia)). pose proof (Z.mod_pos_bound (c * adj) 20 ltac:(lia)). lia. }
  assert (e < 2 ^ 63 + 64) by nia.
  assert (x < 2 ^ 40) by (destruct (Z.lt_ge_cases x (2 ^ 40)) as [|Hge]; [done|]; specialize (Hc2 Hge); nia).
  lia.
Qed.

Lemma expmod_run_no_modulus input :
  bytes_ok input -> read_length 2 input = 0 -> expmod_run input = Ok (Some []).
Proof.
  intros Hok Hm. unfold expmod_run. destruct (right_pad_ext input 96 []) as (v & b' & -> & Hv & _).
  cbn [result_bind]. rewrite Hv, (length_word 2 input 88) by (done || lia). by rewrite Hm.
Qed.

Lemma i64_max : i64 (2 ^ 64 - 1) = -1.
Proof. by vm_compute. Qed.

Lemma expmod_affordable input rev g :
  bytes_ok input -> expmod_gas input rev = Ok g -> 0 <= i64 g < 2 ^ 61 -> exists out, expmod_run input = Ok out.
Proof.
  intros Hok. rewrite expmod_gas_eq by done. cbv zeta.
  set (b := ref_length 0 input). set (e := ref_length 1 input). set (m := ref_length 2 input).
  pose proof (ref_length_range 0 input Hok) as Hb. fold b in Hb.
  pose proof (ref_length_range 1 input Hok) as He. fold e in He.
  pose proof (ref_length_range 2 input Hok) as Hm. fold m in Hm.
  destruct (Z.eqb_spec b 0) as [Eb|Eb], (Z.eqb_spec m 0) as [Em|Em]; cbn [andb].
  1: { intros _ _. eexists. apply expmod_run_no_modulus; [done|]. unfold read_length. fold m. by rewrite Em. }
  all: destruct (Z.leb_spec (2 ^ 64) b); [intros [= <-]; rewrite i64_max; lia|].
  all: destruct (Z.leb_spec (2 ^ 64) e); [intros [= <-]; rewrite i64_max; lia|].
  all: destruct (Z.leb_spec (2 ^ 64) m); [intros [= <-]; rewrite i64_max; lia|]; cbn [orb].
  all: set (gas := ref_expmod_gas _ b e m _); destruct (Z.leb_spec (2 ^ 64) gas); intros [= <-];
    [rewrite i64_max; lia|]; intros Hi.
  all: assert (gas < 2 ^ 61) as Hgas by
    (unfold i64 in Hi; set (g := Z.max _ gas) in *;
     assert (0 <= g < 2 ^ 64) as Hg by (subst g; destruct (rev <? EVMC_BERLIN); lia);
     rewrite (u64_small g Hg) in Hi; destruct (Z.ltb_spec g (2 ^ 63)); lia).
  all: apply affordable_lengths in Hgas; [|lia..]; eexists; apply expmod_run_eq; [done|].
  all: unfold read_length; rewrite !u64_small by (fold b e m; lia); exact Hgas.
Qed.

(** libsecp256k1 answers no key or an uncompressed one of 65 bytes. *)
Class Secp256k1Laws : Prop := secp256k1_key : forall s odd m k, secp256k1_recover s odd m = Some k -> length k = 65%nat.
Context `{!Secp256k1Laws}.

(** Every contract has a gas for every input, and runs when that gas is one that a call can have. *)
Lemma contracts_defined c input rev :
  c ∈ kContracts -> bytes_ok input ->
  exists g, contract_gas c input rev = Ok g /\ (0 <= i64 g < 2 ^ 61 -> exists out, contract_run c input = Ok out).
Proof.
  intros Hc Hok. unfold kContracts in Hc. rewrite !elem_of_cons, elem_of_nil in Hc.
  destruct Hc as [->|[->|[->|[->|[->|[->|[->|[->|[->|[]]]]]]]]]]; cbn [contract_gas contract_run].
  5: { destruct (expmod_gas input rev) as [g|[]|] eqn:E.
       - exists g. split; [done|]. intros Hg. by eapply expmod_affordable.
       - by rewrite expmod_gas_eq in E.
       - by rewrite expmod_gas_eq in E. }
  all: eexists; split; [reflexivity|]; intros _.
  - unfold ecrec_run. cbv zeta. destruct (negb (is_valid_signature _ _ _)); [by eexists|].
    destruct (yp_chain_id _); [by eexists|].
    unfold recover. destruct (negb _ || _); [by eexists|].
    destruct (secp256k1_recover _ _ _) as [[|x k]|] eqn:E; [|destruct (negb (x =? 4)); by eexists|by eexists].
    by apply secp256k1_key in E.
  - by eexists.
  - by eexists.
  - by eexists.
  - unfold bn_add_run. destruct (right_pad_ext input 128 []) as (v & b' & -> & _). by eexists.
  - unfold bn_mul_run. destruct (right_pad_ext input 96 []) as (v & b' & -> & _). by eexists.
  - unfold snarkv_run. destruct (negb _); by eexists.
  - unfold blake2_f_run. destruct (negb _); [by eexists|]. cbv zeta. destruct (negb _ && _); by eexists.
Qed.

End Affordable.

(** * Properties *)

(** The gas of modular exponentiation is the formula of EIP-198, or of EIP-2565 from Berlin on, over
    unbounded integers, for every input: missing bytes count as zeros, the 256-bit arithmetic never wraps,
    and what does not fit into 64 bits is charged 2^64 - 1. The aliasing views into the padding buffer are
    all defined. *)
Theorem expmod_gas_correct (input : bytes) (rev : Z) :
  bytes_ok input ->
  let b := ref_length 0 input in
  let e := ref_length 1 input in
  let m := ref_length 2 input in
  let min_gas := if rev <? EVMC_BERLIN then 0 else 200 in
  expmod_gas input rev
  = Ok (if (b =? 0) && (m =? 0) then min_gas
        else if (2 ^ 64 <=? b) || (2 ^ 64 <=? e) || (2 ^ 64 <=? m) then 2 ^ 64 - 1
        else let gas := ref_expmod_gas (negb (rev <? EVMC_BERLIN)) b e m (ref_exponent_head b e input) in
             if 2 ^ 64 <=? gas then 2 ^ 64 - 1 else Z.max min_gas gas).
Proof. apply expmod_gas_eq. Qed.

(** The first example of EIP-198: 3 ** (2**256 - 2**32 - 978) modulo 2**256 - 2**32 - 977. *)
Definition eip198_example : bytes :=
  to_be 32 1 ++ to_be 32 32 ++ to_be 32 32 ++ [3] ++ to_be 32 (2 ^ 256 - 2 ^ 32 - 978)
  ++ to_be 32 (2 ^ 256 - 2 ^ 32 - 977).

Lemma expmod_gas_correct_witness :
  expmod_gas eip198_example EVMC_BYZANTIUM = Ok 13056 /\ expmod_gas eip198_example EVMC_BERLIN = Ok 1360.
Proof. split; rewrite expmod_gas_correct by bytes_dec; vm_compute; reflexivity. Defined.

(** C28: Modular exponentiation computes base ^ exponent mod modulus, big-endian in exactly as many bytes as the modulus
    has, zero for a zero modulus; missing bytes count as zeros. Of the three lengths in front, the low 64 bits count.
    Nothing comes out for an empty modulus; and if the lengths do not add up in 64 bits, their sum wraps, the padding is
    too short and a number is read past the end of the input, whatever the input is. Such an input can have a gas that
    before Berlin fits into the 63 bits allowed. *)
Theorem expmod_run_correct `{GmpLaws} (input : bytes) :
  bytes_ok input -> zlen input < 2 ^ 64 ->
  let b := ref_length 0 input mod 2 ^ 64 in
  let e := ref_length 1 input mod 2 ^ 64 in
  let m := ref_length 2 input mod 2 ^ 64 in
  let base := ref_number 0 b input in
  let exponent := ref_number b e input in
  let modulus := ref_number (b + e) m input in
  (b + e + m < 2 ^ 64 ->
   expmod_run input
   = Ok (Some (to_be (Z.to_nat m) (if modulus =? 0 then 0 else base ^ exponent mod modulus))))
  /\ (m = 0 -> expmod_run input = Ok (Some []))
  /\ (0 < m -> 2 ^ 64 <= b + e + m -> expmod_run input = Undef)
  /\ (let wrapping := to_be 32 0 ++ to_be 32 (2 ^ 64 - 1) ++ to_be 32 1 in
      expmod_gas wrapping EVMC_BYZANTIUM = Ok (8 * (2 ^ 64 - 33) / 20)
      /\ 8 * (2 ^ 64 - 33) / 20 < 2 ^ 63
      /\ expmod_run wrapping = Undef).
Proof.
  intros Hok Hlen b e m base exponent modulus. split; [by apply expmod_run_eq|]. split; [by apply expmod_run_no_modulus|].
  split; [by apply expmod_run_past_end|]. cbv zeta. split_and!; by vm_compute.
Qed.

(** GMP's functions over [Z]. *)
Definition reference_gmp : Gmp := {|
  mpz_import := of_be;
  mpz_powm := fun b e m => b ^ e mod m;
  mpz_export_le := fun x => to_le (be_len x) x
|}.

Lemma reference_gmp_laws : @GmpLaws reference_gmp.
Proof. by split. Qed.

(** 5 ^ 3 mod 256. *)
Definition power_example : bytes := to_be 32 1 ++ to_be 32 1 ++ to_be 32 2 ++ [5; 3; 1; 0].

Lemma expmod_run_correct_witness : @expmod_run reference_gmp power_example = Ok (Some [0; 125]).
Proof.
  assert (bytes_ok power_example) as Hok by bytes_dec.
  rewrite (proj1 (@expmod_run_correct reference_gmp reference_gmp_laws power_example Hok eq_refl)) by (vm_compute; done).
  vm_compute. reflexivity.
Defined.

(** The encoding of curve points is strict: a 64-byte string that is accepted as a point, by the addition or
    the multiplication contract, is exactly the encoding of that point. So no point has two accepted
    encodings; coordinates not below the field's modulus are refused. *)
Theorem g1_encoding_strict `{GmpLaws} `{LibffLaws} (b : bytes) (p : G1) :
  bytes_ok b -> length b = 64%nat -> decode_g1_element b = Some p -> encode_g1_element p = b.
Proof. apply decode_g1_encode. Qed.

(** A curve of affine points on which every pair of coordinates but the origin lies. *)
Definition plane : Libff := {|
  G1 := option (Z * Z); G2 := unit; Fq12 := unit;
  alt_bn128_modulus_q := 21888242871839275222246405745257275088696311157297823662689037894645226208583;
  g1_zero := None; g1_make := fun x y => Some (x, y); g1_is_well_formed := fun _ => true;
  g1_is_zero := fun p => bool_decide (p = None); g1_add := fun p _ => p; g1_mul := fun _ p => p;
  g1_affine := fun p => default (0, 0) p;
  g2_zero := tt; g2_make := fun _ _ => tt; g2_is_well_formed := fun _ => true; g2_is_zero := fun _ => true;
  g2_order := 0; g2_mul := fun _ p => p; fq12_one := tt; fq12_mul := fun p _ => p; fq12_eqb := fun _ _ => true;
  miller_loop := fun _ _ => tt; final_exponentiation := fun p => p
|}.

Lemma plane_laws : @LibffLaws plane.
Proof. by split. Qed.

Lemma g1_encoding_strict_witness :
  @encode_g1_element plane (@g1_make plane 1 2) = to_be 32 1 ++ to_be 32 2.
Proof.
  apply (@g1_encoding_strict reference_gmp reference_gmp_laws plane plane_laws); [bytes_dec|done|].
  vm_compute. reflexivity.
Defined.
