(* ===== verification/Evm.v ===== *)
(** * Evm: core/silkworm/execution (address.cpp, evm.hpp, evm.cpp)

    Message calls, contract creation and the host that an interpreter of bytecode calls back. The interpreter
    itself (evmone, or any EVMC virtual machine) is not part of the repository: a run of it is a tree of host
    calls, each answered by the host before it goes on, and functions from messages and code to such trees
    are parameters. Every run makes finitely many host calls, for every instruction costs gas. *)

From S2P Require Import Prelude Util Keccak Rlp Account Transaction Block Chain MemoryBuffer IntraBlockState.
From S2P Require Import StateCorrect Cache Precompiled.
Local Open Scope Z_scope.
Local Open Scope silk_scope.

(** ** address.cpp *)

Definition create_address (caller : bytes) (nonce : Z) : bytes :=
  let h := mkHeader true (1 + Z.of_nat kAddressLength + length_u64 nonce) in
  take 20 (drop 12 (keccak256 (encode_header h ++ encode_fixed kAddressLength caller ++ encode_u64 nonce))).

Definition create2_address (caller salt code_hash : bytes) : bytes :=
  take 20 (drop 12 (keccak256 ([0xff] ++ caller ++ salt ++ code_hash))).

(** ** Messages and results of EVMC *)

Inductive CallKind : Type :=
| EVMC_CALL | EVMC_DELEGATECALL | EVMC_CALLCODE | EVMC_CREATE | EVMC_CREATE2.

#[export] Instance CallKind_eq_dec : EqDecision CallKind.
Proof. solve_decision. Defined.

(** [EVMC_OTHER] are the failures only interpreters report. *)
Inductive StatusCode : Type :=
| EVMC_SUCCESS
| EVMC_REVERT
| EVMC_OUT_OF_GAS
| EVMC_INVALID_INSTRUCTION
| EVMC_INSUFFICIENT_BALANCE
| EVMC_PRECOMPILE_FAILURE
| EVMC_OTHER (code : Z).

#[export] Instance StatusCode_eq_dec : EqDecision StatusCode.
Proof. solve_decision. Defined.

Record Message : Type := mkMessage {
  msg_kind : CallKind;
  msg_static : bool;         (* flags & EVMC_STATIC *)
  msg_depth : Z;
  msg_gas : Z;               (* int64_t *)
  msg_destination : bytes;
  msg_sender : bytes;
  msg_input : bytes;
  msg_value : Z;             (* uint256be *)
  msg_create2_salt : bytes
}.

Record EvmResult : Type := mkEvmResult {
  res_status : StatusCode;
  res_gas_left : Z;          (* int64_t *)
  res_output : bytes;
  res_create_address : bytes
}.

Inductive StorageStatus : Type :=
| EVMC_STORAGE_UNCHANGED
| EVMC_STORAGE_MODIFIED
| EVMC_STORAGE_MODIFIED_AGAIN
| EVMC_STORAGE_ADDED
| EVMC_STORAGE_DELETED.

Record TxContext : Type := mkTxContext {
  tx_gas_price : Z;
  tx_origin : bytes;
  block_coinbase : bytes;
  block_number : Z;
  block_timestamp : Z;
  block_gas_limit : Z;
  block_difficulty : Z;
  tx_chain_id : Z
}.

(** [evmc_host_interface]: one constructor per function, with the type it answers. *)
Inductive HostCall : Type -> Type :=
| HAccountExists (address : bytes) : HostCall bool
| HAccessAccount (address : bytes) : HostCall Z
| HAccessStorage (address key : bytes) : HostCall Z
| HGetStorage (address key : bytes) : HostCall bytes
| HSetStorage (address key value : bytes) : HostCall StorageStatus
| HGetBalance (address : bytes) : HostCall Z
| HGetCodeSize (address : bytes) : HostCall Z
| HGetCodeHash (address : bytes) : HostCall bytes
| HCopyCode (address : bytes) (code_offset buffer_size : Z) : HostCall bytes
| HSelfdestruct (address beneficiary : bytes) : HostCall unit
| HCall (message : Message) : HostCall EvmResult
| HGetTxContext : HostCall TxContext
| HGetBlockHash (n : Z) : HostCall bytes
| HEmitLog (address data : bytes) (topics : list bytes) : HostCall unit.

(** What an interpreter does next. *)
Inductive Interp : Type :=
| IReturn (res : EvmResult)
| ICall {A : Type} (call : HostCall A) (continue : A -> Interp).

(** evmone's two interpreters: the analysis of code, the object holding the state of a run, whose [reset]
    binds it to a message and code, and the run. *)
Class Evmone : Type := {
  CodeAnalysis : Type;
  BaselineAnalysis : Type;
  ExecutionState : Type;
  new_execution_state : ExecutionState;
  reset_state : Message -> Z -> bytes -> ExecutionState -> ExecutionState;
  analyze : Z -> bytes -> CodeAnalysis;
  advanced_execute : ExecutionState -> CodeAnalysis -> Interp;
  baseline_analyze : bytes -> BaselineAnalysis;
  baseline_execute : ExecutionState -> BaselineAnalysis -> Interp
}.

(** An exogenous EVMC virtual machine. *)
Definition Vm : Type := Z -> Message -> bytes -> Interp.

(** The fuel of [execute] ran out. *)
Inductive Halt : Type := OutOfFuel.

Section Evm.
Context {B : Type} `{StateBuffer B} `{Evmone} `{Secp256k1} `{Gmp} `{Libff}.
Notation IBS := (IntraBlockState B).

(** ** evm.hpp *)

Record CallResult : Type := mkCallResult {
  call_status : StatusCode;
  call_gas_left : Z;
  call_data : bytes
}.

Record EVM : Type := mkEVM {
  evm_block : Block;
  state : IBS;
  config : ChainConfig;
  evm_txn : Transaction;
  block_hashes : list bytes;
  address_stack : list bytes;                               (* the top is the head *)
  analysis_cache : option (AnalysisCache CodeAnalysis);
  state_pool : option (list ExecutionState);
  exo_evm : option Vm
}.

Definition with_state (s : IBS) (e : EVM) : EVM :=
  mkEVM (evm_block e) s (config e) (evm_txn e) (block_hashes e) (address_stack e) (analysis_cache e) (state_pool e)
    (exo_evm e).
Definition with_txn (txn : Transaction) (e : EVM) : EVM :=
  mkEVM (evm_block e) (state e) (config e) txn (block_hashes e) (address_stack e) (analysis_cache e) (state_pool e)
    (exo_evm e).
Definition with_block_hashes (l : list bytes) (e : EVM) : EVM :=
  mkEVM (evm_block e) (state e) (config e) (evm_txn e) l (address_stack e) (analysis_cache e) (state_pool e)
    (exo_evm e).
Definition with_address_stack (l : list bytes) (e : EVM) : EVM :=
  mkEVM (evm_block e) (state e) (config e) (evm_txn e) (block_hashes e) l (analysis_cache e) (state_pool e)
    (exo_evm e).
Definition with_analysis_cache (c : option (AnalysisCache CodeAnalysis)) (e : EVM) : EVM :=
  mkEVM (evm_block e) (state e) (config e) (evm_txn e) (block_hashes e) (address_stack e) c (state_pool e)
    (exo_evm e).
Definition with_state_pool (p : option (list ExecutionState)) (e : EVM) : EVM :=
  mkEVM (evm_block e) (state e) (config e) (evm_txn e) (block_hashes e) (address_stack e) (analysis_cache e) p
    (exo_evm e).

Definition new_evm (block : Block) (s : IBS) (config : ChainConfig) : EVM :=
  mkEVM block s config empty_transaction [] [] None None None.

Definition evm_revision (e : EVM) : Z := revision (config e) (number (header (evm_block e))).

Definition number_of_precompiles (e : EVM) : Z :=
  if EVMC_ISTANBUL <=? evm_revision e then kNumOfIstanbulContracts
  else if EVMC_BYZANTIUM <=? evm_revision e then kNumOfByzantiumContracts
  else kNumOfFrontierContracts.

(** Addresses compare as big-endian numbers, that is lexicographically. *)
Definition is_precompiled (contract : bytes) (e : EVM) : bool :=
  if is_zero contract then false
  else negb (bytes_ltb (zero_bytes 19 ++ [number_of_precompiles e]) contract).

(** A getter of the state, which may load what it answers. *)
Definition on_state {A} (f : IBS -> A * IBS) (e : EVM) : A * EVM :=
  let '(x, s) := f (state e) in (x, with_state s e).

Definition update_state (f : IBS -> IBS) (e : EVM) : EVM := with_state (f (state e)) e.

(** ** evm.cpp: the host *)

Definition account_exists (address : bytes) (e : EVM) : bool * EVM :=
  if EVMC_SPURIOUS_DRAGON <=? evm_revision e then
    let '(dead, e) := on_state (is_dead address) e in (negb dead, e)
  else on_state (exists_ address) e.

Definition host_access_account (address : bytes) (e : EVM) : Z * EVM :=
  if is_precompiled address e then (EVMC_ACCESS_WARM, e) else on_state (access_account address) e.

Definition host_access_storage (address key : bytes) (e : EVM) : Z * EVM := on_state (access_storage address key) e.

Definition host_get_storage (address key : bytes) (e : EVM) : bytes * EVM :=
  on_state (get_current_storage address key) e.

(** The gas constants of SSTORE at a revision: what a load costs, what a reset costs, what clearing refunds. *)
Definition sload_cost_of (rev : Z) : Z :=
  if EVMC_BERLIN <=? rev then kWarmStorageReadCost
  else if EVMC_ISTANBUL <=? rev then kGSLoadIstanbul
  else kGSLoadTangerineWhistle.

Definition sstore_reset_gas_of (rev : Z) : Z :=
  if EVMC_BERLIN <=? rev then u64 (kGSReset - kColdSloadCost) else kGSReset.

Definition sstore_clears_refund_of (rev : Z) : Z :=
  if EVMC_LONDON <=? rev then u64 (sstore_reset_gas_of rev + kAccessListStorageKeyCost) else kRSClear.

Definition host_set_storage (address key new_val : bytes) (e : EVM) : StorageStatus * EVM :=
  let '(current_val, e) := on_state (get_current_storage address key) e in
  if bytes_eqb current_val new_val then (EVMC_STORAGE_UNCHANGED, e)
  else
    let e := update_state (IntraBlockState.set_storage address key new_val) e in
    let rev := evm_revision e in
    let eip1283 := (EVMC_ISTANBUL <=? rev) || (rev =? EVMC_CONSTANTINOPLE) in
    if negb eip1283 then
      if is_zero current_val then (EVMC_STORAGE_ADDED, e)
      else if is_zero new_val then (EVMC_STORAGE_DELETED, update_state (add_refund kRSClear) e)
      else (EVMC_STORAGE_MODIFIED, e)
    else
      let sload_cost := sload_cost_of rev in
      let sstore_reset_gas := sstore_reset_gas_of rev in
      let '(original_val, e) := on_state (get_original_storage address key) e in
      let sstore_clears_refund := sstore_clears_refund_of rev in
      if bytes_eqb original_val current_val then
        if is_zero original_val then (EVMC_STORAGE_ADDED, e)
        else (EVMC_STORAGE_MODIFIED,
              if is_zero new_val then update_state (add_refund sstore_clears_refund) e else e)
      else
        let e :=
          if negb (is_zero original_val) then
            let e := if is_zero current_val then update_state (subtract_refund sstore_clears_refund) e else e in
            if is_zero new_val then update_state (add_refund sstore_clears_refund) e else e
          else e in
        let e :=
          if bytes_eqb original_val new_val then
            if is_zero original_val then update_state (add_refund (u64 (kGSSet - sload_cost))) e
            else update_state (add_refund (u64 (sstore_reset_gas - sload_cost))) e
          else e in
        (EVMC_STORAGE_MODIFIED_AGAIN, e).

Definition host_get_balance (address : bytes) (e : EVM) : Z * EVM := on_state (get_balance address) e.

Definition get_code_size (address : bytes) (e : EVM) : Z * EVM :=
  let '(code, e) := on_state (get_code address) e in (zlen code, e).

Definition host_get_code_hash (address : bytes) (e : EVM) : bytes * EVM :=
  let '(dead, e) := on_state (is_dead address) e in
  if dead : bool then (zero_bytes32, e) else on_state (get_code_hash address) e.

(** The bytes written to the front of the buffer. *)
Definition copy_code (address : bytes) (code_offset buffer_size : Z) (e : EVM) : bytes * EVM :=
  let '(code, e) := on_state (get_code address) e in
  if zlen code <=? code_offset then ([], e)
  else (take (Z.to_nat (Z.min buffer_size (zlen code - code_offset))) (drop (Z.to_nat code_offset) code), e).

Definition selfdestruct (address beneficiary : bytes) (e : EVM) : EVM :=
  let e := update_state (record_suicide address) e in
  let '(balance, e) := on_state (get_balance address) e in
  let e := update_state (add_to_balance beneficiary balance) e in
  update_state (set_balance address 0) e.

Definition get_tx_context (e : EVM) : result Halt TxContext :=
  match txn_from (evm_txn e) with
  | None => Undef
  | Some from =>
      let h := header (evm_block e) in
      Ok (mkTxContext (gas_price (evm_txn e)) from (beneficiary h) (number h) (timestamp h) (header_gas_limit h)
            (difficulty h) (config_chain_id (config e)))
  end.

(** The loop that follows the parents from the [i]-th hash on, [count] times at most. *)
Fixpoint fill_hashes (d : B) (base_number : Z) (count i : nat) (hashes : list bytes) : list bytes :=
  match count with
  | O => hashes
  | S count =>
      match read_header d (u64 (base_number - Z.of_nat i)) (nth (i - 1) hashes zero_bytes32) with
      | None => hashes
      | Some h => fill_hashes d base_number count (S i) (<[i := parent_hash h]> hashes)
      end
  end.

Definition get_block_hash (n : Z) (e : EVM) : result Halt (bytes * EVM) :=
  let base_number := number (header (evm_block e)) in
  let new_size := u64 (base_number - n) in
  if negb (new_size <=? 256) then Undef
  else
    let size := Z.to_nat new_size in
    let hashes := match block_hashes e with [] => [parent_hash (header (evm_block e))] | l => l end in
    let old_size := length hashes in
    let hashes := if (old_size <? size)%nat then hashes ++ replicate (size - old_size) zero_bytes32 else hashes in
    let hashes := fill_hashes (db (state e)) base_number (size - old_size) old_size hashes in
    if (size =? 0)%nat then Undef
    else Ok (nth (size - 1) hashes zero_bytes32, with_block_hashes hashes e).

Definition emit_log (address data : bytes) (topics : list bytes) (e : EVM) : EVM :=
  update_state (add_log (mkLog address (map mkBytes32 topics) data)) e.

(** ** evm.cpp: message calls

    [execute] runs code in a new frame; [create] and [call] are written over any such function, and the fuel
    of [execute] counts the nested frames: EVMC stops them at depth 1024. *)

Definition Execute : Type := Message -> bytes -> option bytes -> EVM -> result Halt (EvmResult * EVM).

(** [res.gas_left -= code_deploy_gas] and the storing of the code, or the failure to pay for it. *)
Definition deploy_code (rev : Z) (contract_addr : bytes) (res : EvmResult) (s : IBS) : EvmResult * IBS :=
  if decide (res_status res = EVMC_SUCCESS) then
    let code_len := zlen (res_output res) in
    let code_deploy_gas := u64 (code_len * kGCodeDeposit) in
    let out_of_gas := mkEvmResult EVMC_OUT_OF_GAS (res_gas_left res) (res_output res) (res_create_address res) in
    if (EVMC_SPURIOUS_DRAGON <=? rev) && (kMaxCodeSize <? code_len) then (out_of_gas, s)
    else if (0 <=? res_gas_left res) && (code_deploy_gas <=? u64 (res_gas_left res)) then
      (mkEvmResult EVMC_SUCCESS (i64 (res_gas_left res - code_deploy_gas)) (res_output res) (res_create_address res),
       set_code contract_addr (res_output res) s)
    else if EVMC_HOMESTEAD <=? rev then (out_of_gas, s)
    else (res, s)
  else (res, s).

(** A failed result keeps its gas only when it reverted. *)
Definition failed_result (res : EvmResult) : EvmResult :=
  if decide (res_status res = EVMC_REVERT) then res
  else mkEvmResult (res_status res) 0 (res_output res) (res_create_address res).

Definition new_contract_address (message : Message) (nonce : Z) : bytes :=
  match msg_kind message with
  | EVMC_CREATE => create_address (msg_sender message) nonce
  | EVMC_CREATE2 => create2_address (msg_sender message) (msg_create2_salt message) (keccak256 (msg_input message))
  | _ => zero_address
  end.

(** [state_.get_nonce(a) != 0 || state_.get_code_hash(a) != kEmptyHash] *)
Definition address_taken (a : bytes) (s : IBS) : bool * IBS :=
  let '(nonce, s) := get_nonce a s in
  if negb (nonce =? 0) then (true, s)
  else let '(h, s) := get_code_hash a s in (negb (bytes_eqb h kEmptyHash), s).

Definition create (execute : Execute) (message : Message) (e : EVM) : result Halt (EvmResult * EVM) :=
  let value := msg_value message in
  let '(balance, s) := get_balance (msg_sender message) (state e) in
  if balance <? value then
    Ok (mkEvmResult EVMC_INSUFFICIENT_BALANCE (msg_gas message) [] zero_address, with_state s e)
  else
    let '(nonce, s) := get_nonce (msg_sender message) s in
    let s := set_nonce (msg_sender message) (u64 (nonce + 1)) s in
    let contract_addr := new_contract_address message nonce in
    let '(_, s) := access_account contract_addr s in
    let '(taken, s) := address_taken contract_addr s in
    if taken : bool then Ok (mkEvmResult EVMC_INVALID_INSTRUCTION 0 [] zero_address, with_state s e)
    else
      let snapshot := take_snapshot s in
      let s := create_contract contract_addr s in
      let rev := evm_revision e in
      let s := if EVMC_SPURIOUS_DRAGON <=? rev then set_nonce contract_addr 1 s else s in
      let s := subtract_from_balance (msg_sender message) value s in
      let s := add_to_balance contract_addr value s in
      let deploy_message :=
        mkMessage EVMC_CALL false (msg_depth message) (msg_gas message) contract_addr (msg_sender message) []
          (msg_value message) zero_bytes32 in
      try (res, e) := execute deploy_message (msg_input message) None (with_state s e) in
      let '(res, s) := deploy_code rev contract_addr res (state e) in
      if decide (res_status res = EVMC_SUCCESS) then
        Ok (mkEvmResult EVMC_SUCCESS (res_gas_left res) (res_output res) contract_addr, with_state s e)
      else Ok (failed_result res, with_state (revert_to_snapshot snapshot s) e).

(** The end of [call]: a failure reverts the state. *)
Definition finish_call (snapshot : Snapshot) (res : EvmResult) (e : EVM) : EvmResult * EVM :=
  if decide (res_status res = EVMC_SUCCESS) then (res, e)
  else (failed_result res, update_state (revert_to_snapshot snapshot) e).

Definition run_precompiled (num : Z) (message : Message) (rev : Z) : result Halt EvmResult :=
  match kContracts !! Z.to_nat (num - 1) with
  | None => Undef
  | Some contract =>
      match contract_gas contract (msg_input message) rev with
      | Ok gas64 =>
          let gas := i64 gas64 in
          if (gas <? 0) || (msg_gas message <? gas) then
            Ok (mkEvmResult EVMC_OUT_OF_GAS (msg_gas message) [] zero_address)
          else
            match contract_run contract (msg_input message) with
            | Ok (Some output) => Ok (mkEvmResult EVMC_SUCCESS (i64 (msg_gas message - gas)) output zero_address)
            | Ok None => Ok (mkEvmResult EVMC_PRECOMPILE_FAILURE (msg_gas message) [] zero_address)
            | _ => Undef
            end
      | _ => Undef
      end
  end.

(** The transfer of value of a plain call, or the touch of a static one. *)
Definition transfer_value (message : Message) (s : IBS) : IBS :=
  match msg_kind message with
  | EVMC_CALL =>
      if msg_static message then touch (msg_destination message) s
      else add_to_balance (msg_destination message) (msg_value message)
             (subtract_from_balance (msg_sender message) (msg_value message) s)
  | _ => s
  end.

(** The address whose storage the code of a call works on. *)
Definition with_storage_address (message : Message) (e : EVM) : result Halt Message :=
  let to dst := mkMessage (msg_kind message) (msg_static message) (msg_depth message) (msg_gas message) dst
                  (msg_sender message) (msg_input message) (msg_value message) (msg_create2_salt message) in
  match msg_kind message with
  | EVMC_CALLCODE => Ok (to (msg_sender message))
  | EVMC_DELEGATECALL => match address_stack e with top :: _ => Ok (to top) | [] => Undef end
  | _ => Ok message
  end.

Definition call (execute : Execute) (message : Message) (e : EVM) : result Halt (EvmResult * EVM) :=
  let res := mkEvmResult EVMC_SUCCESS (msg_gas message) [] zero_address in
  let value := msg_value message in
  let '(insufficient, s) :=
    if decide (msg_kind message = EVMC_DELEGATECALL) then (false, state e)
    else let '(balance, s) := get_balance (msg_sender message) (state e) in (balance <? value, s) in
  if insufficient : bool then
    Ok (mkEvmResult EVMC_INSUFFICIENT_BALANCE (msg_gas message) [] zero_address, with_state s e)
  else
    let precompiled := is_precompiled (msg_destination message) e in
    let rev := evm_revision e in
    let '(nothing_to_do, s) :=
      if (value =? 0) && (EVMC_SPURIOUS_DRAGON <=? rev) then
        let '(ex, s) := exists_ (msg_destination message) s in (negb ex && negb precompiled, s)
      else (false, s) in
    if nothing_to_do : bool then Ok (res, with_state s e)
    else
      let snapshot := take_snapshot s in
      let s := transfer_value message s in
      if precompiled then
        try res := run_precompiled (nth (kAddressLength - 1) (msg_destination message) 0) message rev in
        Ok (finish_call snapshot res (with_state s e))
      else
        let '(code, s) := get_code (msg_destination message) s in
        match code with
        | [] => Ok (res, with_state s e)
        | _ =>
            let '(code_hash, s) := get_code_hash (msg_destination message) s in
            try msg := with_storage_address message e in
            try (res, e) := execute msg code (Some code_hash) (with_state s e) in
            Ok (finish_call snapshot res e)
        end.

(** [EvmHost::call]: the output of a creation is only returned when it reverts (EIP-211). *)
Definition host_call (execute : Execute) (message : Message) (e : EVM) : result Halt (EvmResult * EVM) :=
  match msg_kind message with
  | EVMC_CREATE | EVMC_CREATE2 =>
      try (res, e) := create execute message e in
      if decide (res_status res = EVMC_REVERT) then Ok (res, e)
      else Ok (mkEvmResult (res_status res) (res_gas_left res) [] (res_create_address res), e)
  | _ => call execute message e
  end.

(** One call of the host interface. *)
Definition answer (execute : Execute) {A : Type} (c : HostCall A) : EVM -> result Halt (A * EVM) :=
  match c in HostCall A return EVM -> result Halt (A * EVM) with
  | HAccountExists a => fun e => Ok (account_exists a e)
  | HAccessAccount a => fun e => Ok (host_access_account a e)
  | HAccessStorage a k => fun e => Ok (host_access_storage a k e)
  | HGetStorage a k => fun e => Ok (host_get_storage a k e)
  | HSetStorage a k v => fun e => Ok (host_set_storage a k v e)
  | HGetBalance a => fun e => Ok (host_get_balance a e)
  | HGetCodeSize a => fun e => Ok (get_code_size a e)
  | HGetCodeHash a => fun e => Ok (host_get_code_hash a e)
  | HCopyCode a off n => fun e => Ok (copy_code a off n e)
  | HSelfdestruct a b => fun e => Ok (tt, selfdestruct a b e)
  | HCall m => host_call execute m
  | HGetTxContext => fun e => try c := get_tx_context e in Ok (c, e)
  | HGetBlockHash n => get_block_hash n
  | HEmitLog a data topics => fun e => Ok (tt, emit_log a data topics e)
  end.

Fixpoint interpret (execute : Execute) (t : Interp) (e : EVM) : result Halt (EvmResult * EVM) :=
  match t with
  | IReturn res => Ok (res, e)
  | ICall c continue => try (x, e) := answer execute c e in interpret execute (continue x) e
  end.

(** [state_pool->acquire()], or a new object. *)
Definition acquire_state (e : EVM) : ExecutionState * EVM :=
  match state_pool e with
  | Some pool => let '(st, pool) := pool_acquire new_execution_state pool in (st, with_state_pool (Some pool) e)
  | None => (new_execution_state, e)
  end.

Definition release_state (st : ExecutionState) (e : EVM) : EVM :=
  match state_pool e with
  | Some pool => with_state_pool (Some (pool_release st pool)) e
  | None => e
  end.

Definition execute_with_baseline_interpreter (execute : Execute) (rev : Z) (msg : Message) (code : bytes) (e : EVM)
  : result Halt (EvmResult * EVM) :=
  let analysis := baseline_analyze code in
  let '(st, e) := acquire_state e in
  let st := reset_state msg rev code st in
  try (res, e) := interpret execute (baseline_execute st analysis) e in
  Ok (res, release_state st e).

(** [analysis_cache->get], or the analysis of the code, which is cached under the code's hash. *)
Definition find_analysis (rev : Z) (code : bytes) (code_hash : option bytes) (e : EVM) : CodeAnalysis * EVM :=
  match code_hash, analysis_cache e with
  | Some h, Some c =>
      let '(found, c) := analysis_get h rev c in
      match found with
      | Some analysis => (analysis, with_analysis_cache (Some c) e)
      | None => (analyze rev code, with_analysis_cache (Some (analysis_put h (analyze rev code) rev c)) e)
      end
  | _, _ => (analyze rev code, e)
  end.

Definition execute_with_default_interpreter (execute : Execute) (rev : Z) (msg : Message) (code : bytes)
    (code_hash : option bytes) (e : EVM) : result Halt (EvmResult * EVM) :=
  let '(analysis, e) := find_analysis rev code code_hash e in
  let '(st, e) := acquire_state e in
  let st := reset_state msg rev code st in
  try (res, e) := interpret execute (advanced_execute st analysis) e in
  Ok (res, release_state st e).

Fixpoint execute (fuel : nat) (msg : Message) (code : bytes) (code_hash : option bytes) (e : EVM)
  : result Halt (EvmResult * EVM) :=
  match fuel with
  | O => Err OutOfFuel
  | S fuel =>
      let e := with_address_stack (msg_destination msg :: address_stack e) e in
      let rev := evm_revision e in
      try (res, e) :=
        (match exo_evm e with
         | Some vm => interpret (execute fuel) (vm rev msg code) e
         | None =>
             match analysis_cache e with
             | Some _ => execute_with_default_interpreter (execute fuel) rev msg code code_hash e
             | None => execute_with_baseline_interpreter (execute fuel) rev msg code e
             end
         end) in
      Ok (res, with_address_stack (tail (address_stack e)) e)
  end.

(** A message of depth 0 to 1024 runs at most 1025 nested frames. *)
Definition kCallFuel : nat := 1025.

Definition evm_execute_with (fuel : nat) (txn : Transaction) (gas : Z) (e : EVM) : result Halt (CallResult * EVM) :=
  let e := with_txn txn e in
  match txn_from txn with
  | None => Undef
  | Some from =>
      let message := mkMessage (if txn_to txn then EVMC_CALL else EVMC_CREATE) false 0 (i64 gas)
                       (default zero_address (txn_to txn)) from (data txn) (value txn) zero_bytes32 in
      try (res, e) := (if txn_to txn then call else create) (execute fuel) message e in
      Ok (mkCallResult (res_status res) (u64 (res_gas_left res)) (res_output res), e)
  end.

Definition evm_execute : Transaction -> Z -> EVM -> result Halt (CallResult * EVM) := evm_execute_with kCallFuel.

End Evm.
