(* ===== verification/EvmCorrect.v ===== *)
(** * EvmCorrect: what message calls promise

    Whatever the interpreter does, a frame only changes the state by its operations and reverts; so a failed
    call or creation leaves the state as it was. Storage refunds, block hashes and created addresses are
    those of the EIPs and the Yellow Paper; and for interpreters that keep EVMC's rules every call ends
    within the fuel, without undefined behaviour, and with no more gas than it was given. *)

From S2P Require Import Prelude Util Keccak Rlp Account Transaction Block Chain MemoryBuffer IntraBlockState.
From S2P Require Import StateCorrect Cache Precompiled Evm.
Local Open Scope Z_scope.
Local Open Scope silk_scope.

Section Evm.
Context {B : Type} `{StateBuffer B} `{Evmone} `{Secp256k1} `{Gmp} `{Libff}.
Notation IBS := (IntraBlockState B).
Notation EVM := (EVM (B := B)).
Implicit Types (e : EVM) (s : IBS) (m : Message) (a k v : bytes).

(** ** Frames *)

Lemma runs_trans s s1 s2 : runs s s1 -> runs s1 s2 -> runs s s2.
Proof.
  intros H01 H12. revert H01. induction H12 as [|s1 s2 o _ IH|s1 s2 s3 _ IH H23 _]; intros H01; [done| |].
  - apply runs_step. by apply IH.
  - apply runs_reverted; [by apply IH|done].
Qed.

Lemma runs_one o s s' : s' = run_operation o s -> runs s s'.
Proof. intros ->. apply runs_step, runs_refl. Qed.

(** Getters load the object they read. *)
Lemma get_account_field_runs {A} (f : Account -> A) d a s : runs s (snd (get_account_field f d a s)).
Proof. apply (runs_one (OGetObject a)). unfold get_account_field. cbn. by destruct (get_object a s). Qed.

Lemma get_balance_runs a s : runs s (snd (get_balance a s)).
Proof. apply get_account_field_runs. Qed.
Lemma get_nonce_runs a s : runs s (snd (get_nonce a s)).
Proof. apply get_account_field_runs. Qed.
Lemma get_code_hash_runs a s : runs s (snd (get_code_hash a s)).
Proof. apply get_account_field_runs. Qed.

Lemma exists_runs a s : runs s (snd (exists_ a s)).
Proof. apply (runs_one (OGetObject a)). unfold exists_. cbn. by destruct (get_object a s). Qed.

Lemma is_dead_runs a s : runs s (snd (is_dead a s)).
Proof. apply (runs_one (OGetObject a)). unfold is_dead. cbn. by destruct (get_object a s). Qed.

(** Getters do not change what is answered. *)
Lemma get_account_field_quiet {A} (f : Account -> A) d a s : restores (snd (get_account_field f d a s)) s.
Proof. unfold get_account_field. pose proof (get_object_quiet a s). by destruct (get_object a s). Qed.

Lemma exists_quiet a s : restores (snd (exists_ a s)) s.
Proof. unfold exists_. pose proof (get_object_quiet a s). by destruct (get_object a s). Qed.

Ltac one_operation o := apply (runs_one o); reflexivity.

Lemma set_nonce_runs a n s : runs s (set_nonce a n s).
Proof. one_operation (OSetNonce a n). Qed.
Lemma add_to_balance_runs a n s : runs s (add_to_balance a n s).
Proof. one_operation (OAddToBalance a n). Qed.
Lemma subtract_from_balance_runs a n s : runs s (subtract_from_balance a n s).
Proof. one_operation (OSubtractFromBalance a n). Qed.
Lemma set_balance_runs a n s : runs s (set_balance a n s).
Proof. one_operation (OSetBalance a n). Qed.
Lemma touch_runs a s : runs s (touch a s).
Proof. one_operation (OTouch a). Qed.
Lemma record_suicide_runs a s : runs s (record_suicide a s).
Proof. one_operation (ORecordSuicide a). Qed.
Lemma create_contract_runs a s : runs s (create_contract a s).
Proof. one_operation (OCreateContract a). Qed.
Lemma set_code_runs a c s : runs s (set_code a c s).
Proof. one_operation (OSetCode a c). Qed.
Lemma get_code_runs a s : runs s (snd (get_code a s)).
Proof. one_operation (OGetCode a). Qed.
Lemma access_account_runs a s : runs s (snd (access_account a s)).
Proof. one_operation (OAccessAccount a). Qed.
Lemma access_storage_runs a k s : runs s (snd (access_storage a k s)).
Proof. one_operation (OAccessStorage a k). Qed.
Lemma get_storage_runs a k original s : runs s (snd (get_storage a k original s)).
Proof. one_operation (OGetStorage a k original). Qed.
Lemma set_storage_runs a k v s : runs s (IntraBlockState.set_storage a k v s).
Proof. one_operation (OSetStorage a k v). Qed.
Lemma add_log_runs l s : runs s (add_log l s).
Proof. one_operation (OAddLog l). Qed.
Lemma add_refund_runs n s : runs s (add_refund n s).
Proof. one_operation (OAddRefund n). Qed.
Lemma subtract_refund_runs n s : runs s (subtract_refund n s).
Proof. one_operation (OSubtractRefund n). Qed.

(** What a frame does to the machine: operations on the state, and nothing to its context. *)
Record evolves (e e' : EVM) : Prop := {
  ev_runs : runs (state e) (state e');
  ev_stack : address_stack e' = address_stack e;
  ev_block : evm_block e' = evm_block e;
  ev_config : config e' = config e;
  ev_txn : evm_txn e' = evm_txn e;
  ev_vm : exo_evm e' = exo_evm e;
  ev_cache : analysis_cache e = None -> analysis_cache e' = None
}.

Lemma evolves_refl e : evolves e e.
Proof. split; [apply runs_refl|done..]. Qed.

Lemma evolves_trans e e1 e2 : evolves e e1 -> evolves e1 e2 -> evolves e e2.
Proof. intros [] []. split; [by eapply runs_trans|congruence..|eauto]. Qed.

Lemma with_state_evolves s e : runs (state e) s -> evolves e (with_state s e).
Proof. by split. Qed.

Lemma update_state_evolves f e : (forall s, runs s (f s)) -> evolves e (update_state f e).
Proof. intros Hf. apply with_state_evolves, Hf. Qed.

Lemma on_state_evolves {A} (f : IBS -> A * IBS) e x e' :
  (forall s, runs s (snd (f s))) -> on_state f e = (x, e') -> evolves e e'.
Proof.
  intros Hf. unfold on_state. specialize (Hf (state e)). destruct (f (state e)) as [y s].
  intros [= -> <-]. by apply with_state_evolves.
Qed.

#[local] Hint Resolve get_balance_runs get_nonce_runs get_code_hash_runs exists_runs is_dead_runs set_nonce_runs add_to_balance_runs
  subtract_from_balance_runs set_balance_runs touch_runs record_suicide_runs create_contract_runs set_code_runs
  get_code_runs access_account_runs access_storage_runs get_storage_runs set_storage_runs add_log_runs
  add_refund_runs subtract_refund_runs runs_refl evolves_refl update_state_evolves : runs.

(** Follows a chain of getters, updates and tests of the machine. *)
Ltac frame :=
  repeat match goal with
  | |- evolves ?e (update_state ?f ?e') =>
      eapply (evolves_trans e e'); [|apply update_state_evolves; auto with runs]
  | |- evolves ?e ?e => apply evolves_refl
  | |- context [if ?b then _ else _] => destruct b
  end.

(** ** The host's answers *)

Lemma on_state_snd {A} (f : IBS -> A * IBS) e : (forall s, runs s (snd (f s))) -> evolves e (snd (on_state f e)).
Proof. intros Hf. destruct (on_state f e) as [x e'] eqn:E. by eapply on_state_evolves. Qed.

#[local] Hint Resolve on_state_snd : runs.

Lemma account_exists_evolves a e : evolves e (snd (account_exists a e)).
Proof.
  unfold account_exists. case_match; [|auto with runs].
  pose proof (on_state_snd (is_dead a) e (is_dead_runs a)). by destruct (on_state _ _).
Qed.

Lemma host_access_account_evolves a e : evolves e (snd (host_access_account a e)).
Proof. unfold host_access_account. case_match; [apply evolves_refl|auto with runs]. Qed.

Lemma host_set_storage_evolves a k v e : evolves e (snd (host_set_storage a k v e)).
Proof.
  unfold host_set_storage.
  destruct (on_state (get_current_storage a k) e) as [cur e1] eqn:E1.
  apply on_state_evolves in E1; [|apply get_storage_runs].
  destruct (bytes_eqb cur v); [done|].
  set (e2 := update_state (IntraBlockState.set_storage a k v) e1).
  assert (evolves e e2) as E2 by (eapply evolves_trans; [exact E1|subst e2; auto with runs]).
  destruct (negb _); [repeat case_match; cbn [snd]; try done; eapply evolves_trans; eauto with runs|].
  destruct (on_state (get_original_storage a k) e2) as [orig e3] eqn:E3.
  apply on_state_evolves in E3; [|apply get_storage_runs].
  apply (evolves_trans e e3); [by eapply evolves_trans|].
  destruct (bytes_eqb orig cur); [repeat case_match; cbn [snd]; auto with runs|].
  cbn [snd]. frame.
Qed.

Lemma get_code_size_evolves a e : evolves e (snd (get_code_size a e)).
Proof.
  unfold get_code_size. pose proof (on_state_snd (get_code a) e (get_code_runs a)). by destruct (on_state _ _).
Qed.

Lemma host_get_code_hash_evolves a e : evolves e (snd (host_get_code_hash a e)).
Proof.
  unfold host_get_code_hash. destruct (on_state (is_dead a) e) as [dead e1] eqn:E1.
  apply on_state_evolves in E1; [|apply is_dead_runs]. destruct dead; [done|].
  eapply evolves_trans; [exact E1|]. apply on_state_snd, get_account_field_runs.
Qed.

Lemma copy_code_evolves a off n e : evolves e (snd (copy_code a off n e)).
Proof.
  unfold copy_code. pose proof (on_state_snd (get_code a) e (get_code_runs a)). destruct (on_state _ _). by case_match.
Qed.

Lemma selfdestruct_evolves a b e : evolves e (selfdestruct a b e).
Proof.
  unfold selfdestruct. destruct (on_state (get_balance a) _) as [n e1] eqn:E1.
  apply on_state_evolves in E1; [|apply get_account_field_runs].
  frame. eapply evolves_trans; [|exact E1]. auto with runs.
Qed.

Lemma get_block_hash_evolves n e x e' : get_block_hash n e = Ok (x, e') -> evolves e e'.
Proof. unfold get_block_hash. intros E. repeat (case_in E; try done); injection E as _ <-; by split; [apply runs_refl|..]. Qed.

Lemma host_access_storage_evolves a k e : evolves e (snd (host_access_storage a k e)).
Proof. apply on_state_snd, access_storage_runs. Qed.
Lemma host_get_storage_evolves a k e : evolves e (snd (host_get_storage a k e)).
Proof. apply on_state_snd. intros s. apply get_storage_runs. Qed.
Lemma host_get_balance_evolves a e : evolves e (snd (host_get_balance a e)).
Proof. apply on_state_snd, get_balance_runs. Qed.
Lemma emit_log_evolves a d ts e : evolves e (emit_log a d ts e).
Proof. apply update_state_evolves, add_log_runs. Qed.

#[local] Hint Resolve host_access_storage_evolves host_get_storage_evolves host_get_balance_evolves emit_log_evolves
  account_exists_evolves host_access_account_evolves host_set_storage_evolves get_code_size_evolves
  host_get_code_hash_evolves copy_code_evolves selfdestruct_evolves : runs.

(** ** Calls and creations, over an [execute] that only evolves the machine *)

Definition evolving (exec : Execute) : Prop :=
  forall m code h e r e', exec m code h e = Ok (r, e') -> evolves e e'.

Lemma deploy_code_runs rev a res s : runs s (snd (deploy_code rev a res s)).
Proof. unfold deploy_code. repeat case_match; cbn [snd]; auto with runs. Qed.

Lemma address_taken_runs a s : runs s (snd (address_taken a s)).
Proof.
  unfold address_taken. pose proof (get_nonce_runs a s) as R1. destruct (get_nonce a s) as [n s1].
  case_match; [done|]. pose proof (get_code_hash_runs a s1) as R2. destruct (get_code_hash a s1) as [h s2].
  eapply runs_trans; [exact R1|exact R2].
Qed.

(** *** States that answer alike *)

Record quiet (s s' : IBS) : Prop := {
  qt_restores : restores s' s;
  qt_logs : state_logs s' = state_logs s;
  qt_refund : refund s' = refund s
}.

Lemma quiet_refl s : quiet s s.
Proof. split; [apply restores_refl|done..]. Qed.

Lemma quiet_trans s s1 s2 : quiet s s1 -> quiet s1 s2 -> quiet s s2.
Proof. intros [] []. split; [by eapply restores_trans|congruence..]. Qed.

Lemma get_object_is_quiet a s : quiet s (snd (get_object a s)).
Proof. split; [apply get_object_quiet|by rewrite get_object_eq..]. Qed.

Lemma get_account_field_is_quiet {A} (f : Account -> A) d a s : quiet s (snd (get_account_field f d a s)).
Proof. unfold get_account_field. pose proof (get_object_is_quiet a s). by destruct (get_object a s). Qed.

Lemma exists_is_quiet a s : quiet s (snd (exists_ a s)).
Proof. unfold exists_. pose proof (get_object_is_quiet a s). by destruct (get_object a s). Qed.

Lemma address_taken_is_quiet a s : quiet s (snd (address_taken a s)).
Proof.
  unfold address_taken, get_nonce, get_code_hash. pose proof (get_account_field_is_quiet nonce 0 a s) as R1.
  destruct (get_account_field nonce 0 a s) as [n s1]. case_match; [done|].
  pose proof (get_account_field_is_quiet code_hash kEmptyHash a s1) as R2.
  destruct (get_account_field code_hash kEmptyHash a s1) as [h s2]. by eapply quiet_trans.
Qed.

(** Reverting what ran since a snapshot. *)
Lemma reverted_is_quiet s s1 s2 :
  quiet s s1 -> runs s1 s2 -> quiet s (revert_to_snapshot (take_snapshot s1) s2).
Proof.
  intros Q R. eapply quiet_trans; [exact Q|].
  destruct (revert_to_snapshot_spec s1 s2 (runs_undoable _ _ R)) as (Hr & _ & Hl & Hf). by split.
Qed.

(** *** [finish_call], and the preparation of a call *)

Lemma failed_result_status r : res_status (failed_result r) = res_status r.
Proof. unfold failed_result. by case_decide. Qed.

Lemma finish_call_spec s e1 e2 r :
  quiet s (state e1) -> evolves e1 e2 ->
  let '(r', e') := finish_call (take_snapshot (state e1)) r e2 in
  evolves e1 e' /\ (res_status r' <> EVMC_SUCCESS -> quiet s (state e')).
Proof.
  intros Q V. unfold finish_call. case_decide as Hs; [done|]. split.
  - destruct V. split; [|done..]. cbn. apply runs_reverted; [apply runs_refl|done].
  - intros _. cbn. apply reverted_is_quiet; [done|apply V].
Qed.

Lemma transfer_value_runs m s : runs s (transfer_value m s).
Proof.
  unfold transfer_value. repeat case_match; auto with runs.
  eapply runs_trans; [apply subtract_from_balance_runs|apply add_to_balance_runs].
Qed.

Lemma call_spec exec m e r e' :
  evolving exec -> call exec m e = Ok (r, e') ->
  evolves e e' /\ (res_status r <> EVMC_SUCCESS -> quiet (state e) (state e')).
Proof.
  intros Hexec. unfold call.
  destruct (if decide (msg_kind m = EVMC_DELEGATECALL) then _ else _) as [insufficient s1] eqn:E1.
  assert (quiet (state e) s1 /\ runs (state e) s1) as [Q1 R1].
  { case_decide; [injection E1 as _ <-; split; [apply quiet_refl|apply runs_refl]|].
    pose proof (get_account_field_is_quiet balance 0 (msg_sender m) (state e)) as Q.
    pose proof (get_balance_runs (msg_sender m) (state e)) as R. unfold get_balance in *.
    destruct (get_account_field balance 0 _ _). by injection E1 as _ <-. }
  destruct insufficient; [intros [= <- <-]; split; [by apply with_state_evolves|done]|].
  destruct (if (msg_value m =? 0) && _ then _ else _) as [nothing s2] eqn:E2.
  assert (quiet (state e) s2 /\ runs (state e) s2) as [Q2 R2].
  { case_match; [|by injection E2 as _ <-].
    pose proof (exists_is_quiet (msg_destination m) s1) as Q. pose proof (exists_runs (msg_destination m) s1) as R.
    destruct (exists_ _ s1). injection E2 as _ <-. split; [by eapply quiet_trans|by eapply runs_trans]. }
  destruct nothing; [intros [= <- <-]; split; [by apply with_state_evolves|done]|].
  pose proof (transfer_value_runs m s2) as R3. set (s3 := transfer_value m s2) in *.
  assert (evolves e (with_state s2 e)) as V2 by (by apply with_state_evolves).
  destruct (is_precompiled _ _).
  - destruct (run_precompiled _ _ _) as [r0|[]|]; cbn [result_bind]; [|done..]. intros E.
    pose proof (finish_call_spec (state e) (with_state s2 e) (with_state s3 e) r0 Q2 ltac:(by split)) as Hf.
    cbn [state with_state] in Hf. injection E as E. rewrite E in Hf. destruct Hf as [V Q].
    split; [by eapply evolves_trans|done].
  - pose proof (get_code_runs (msg_destination m) s3) as R4.
    destruct (get_code (msg_destination m) s3) as [code s4]. cbn [snd] in R4.
    assert (runs s2 s4) as R24 by (by eapply runs_trans).
    destruct code as [|c0 code]; [intros [= <- <-]; split; [apply with_state_evolves; by eapply runs_trans|done]|].
    pose proof (get_code_hash_runs (msg_destination m) s4) as R5.
    destruct (get_code_hash (msg_destination m) s4) as [h s5]. cbn [snd] in R5.
    destruct (with_storage_address m e) as [msg|[]|]; cbn [result_bind]; [|done..].
    destruct (exec msg (c0 :: code) (Some h) (with_state s5 e)) as [[r0 e0]|[]|] eqn:Ex; cbn [result_bind]; [|done..].
    apply Hexec in Ex. intros E.
    assert (evolves (with_state s2 e) e0) as V0.
    { eapply evolves_trans; [|exact Ex]. split; [|done..]. cbn. by eapply runs_trans. }
    pose proof (finish_call_spec (state e) (with_state s2 e) e0 r0 Q2 V0) as Hf.
    cbn [state with_state] in Hf. injection E as E. rewrite E in Hf. destruct Hf as [V Q].
    split; [by eapply evolves_trans|done].
Qed.

(** *** Creations *)

(** The state in which a creation starts to run: the sender's nonce is used up and the address is warm. *)
Definition creation_start m s : IBS :=
  let n := fst (get_nonce (msg_sender m) s) in
  snd (access_account (new_contract_address m n) (set_nonce (msg_sender m) (u64 (n + 1)) (snd (get_nonce (msg_sender m) s)))).

Lemma create_spec exec m e r e' :
  evolving exec -> create exec m e = Ok (r, e') ->
  let s := snd (get_balance (msg_sender m) (state e)) in
  evolves e e'
  /\ (res_status r <> EVMC_SUCCESS ->
      quiet (if fst (get_balance (msg_sender m) (state e)) <? msg_value m then s else creation_start m s) (state e')).
Proof.
  intros Hexec Hc s0. revert Hc. unfold create, creation_start.
  pose proof (get_balance_runs (msg_sender m) (state e)) as R0. fold s0 in R0.
  subst s0. destruct (get_balance (msg_sender m) (state e)) as [b s0]. cbn [fst snd] in *.
  destruct (b <? msg_value m).
  { intros [= <- <-]. split; [by apply with_state_evolves|intros _; apply quiet_refl]. }
  pose proof (get_nonce_runs (msg_sender m) s0) as R1.
  destruct (get_nonce (msg_sender m) s0) as [n s1]. cbn [fst snd] in *.
  set (a := new_contract_address m n). set (s2 := set_nonce (msg_sender m) (u64 (n + 1)) s1).
  assert (runs (state e) s2) as R2 by (eapply runs_trans; [|apply set_nonce_runs]; by eapply runs_trans).
  pose proof (access_account_runs a s2) as R3. destruct (access_account a s2) as [status s3]. cbn [snd] in *.
  assert (runs (state e) s3) as R3' by (by eapply runs_trans).
  pose proof (address_taken_runs a s3) as R4. pose proof (address_taken_is_quiet a s3) as Q4.
  destruct (address_taken a s3) as [taken s4]. cbn [snd] in *.
  assert (runs (state e) s4) as R4' by (by eapply runs_trans).
  destruct taken; [intros [= <- <-]; split; [by apply with_state_evolves|done]|].
  set (s5 := if EVMC_SPURIOUS_DRAGON <=? evm_revision e then set_nonce a 1 (create_contract a s4) else create_contract a s4).
  set (s6 := add_to_balance a (msg_value m) (subtract_from_balance (msg_sender m) (msg_value m) s5)).
  assert (runs s4 s6) as R6.
  { eapply runs_trans; [|apply add_to_balance_runs]. eapply runs_trans; [|apply subtract_from_balance_runs].
    eapply runs_trans; [apply create_contract_runs|]. subst s5. case_match; auto with runs. }
  destruct (exec _ (msg_input m) None (with_state s6 e)) as [[r0 e0]|[]|] eqn:Ex; cbn [result_bind]; [|done..].
  apply Hexec in Ex. pose proof (deploy_code_runs (evm_revision e) a r0 (state e0)) as R7.
  destruct (deploy_code (evm_revision e) a r0 (state e0)) as [r1 s7]. cbn [snd] in R7.
  assert (evolves (with_state s4 e) (with_state s7 e0)) as V7.
  { apply (evolves_trans _ e0); [eapply evolves_trans; [|exact Ex]; by split|by split]. }
  assert (evolves e (with_state s4 e)) as V4 by (by apply with_state_evolves).
  case_decide as Hs; intros [= <- <-].
  - split; [by eapply evolves_trans|done].
  - rewrite failed_result_status. destruct V7. split.
    + eapply evolves_trans; [exact V4|]. split; [|done..]. cbn. apply runs_reverted; [apply runs_refl|done].
    + intros _. cbn. by apply reverted_is_quiet.
Qed.

Lemma host_call_evolving exec m e r e' : evolving exec -> host_call exec m e = Ok (r, e') -> evolves e e'.
Proof.
  intros Hexec. unfold host_call.
  assert (forall r0 e0, create exec m e = Ok (r0, e0) -> evolves e e0) as Hc
    by (intros r0 e0 E; by apply create_spec in E as [V _]).
  assert (forall r0 e0, call exec m e = Ok (r0, e0) -> evolves e e0) as Hl
    by (intros r0 e0 E; by apply call_spec in E as [V _]).
  destruct (msg_kind m); eauto; (destruct (create exec m e) as [[r0 e0]|[]|]; cbn [result_bind]; [|done..]);
    case_decide; intros [= <- <-]; eauto.
Qed.

(** ** Runs of an interpreter *)

Lemma answer_evolving exec {A} (c : HostCall A) e x e' : evolving exec -> answer exec c e = Ok (x, e') -> evolves e e'.
Proof.
  intros Hexec. destruct c; cbn [answer]; intros E.
  all: try (injection E as E; apply (f_equal snd) in E; cbn [snd] in E; rewrite <- E; auto with runs; fail).
  all: try (injection E as _ <-; auto with runs; fail).
  - by eapply host_call_evolving.
  - destruct (get_tx_context e); [|done..]. injection E as _ <-. apply evolves_refl.
  - by eapply get_block_hash_evolves.
Qed.

Lemma interpret_evolving exec t e r e' : evolving exec -> interpret exec t e = Ok (r, e') -> evolves e e'.
Proof.
  intros Hexec. revert e. induction t as [r0|A c k IH]; intros e; cbn [interpret].
  - intros [= <- <-]. apply evolves_refl.
  - destruct (answer exec c e) as [[x e1]|[]|] eqn:E; cbn [result_bind]; [|done..]. intros Hk.
    eapply evolves_trans; [by eapply answer_evolving|by eapply IH].
Qed.

Lemma acquire_state_evolves e : evolves e (snd (acquire_state e)).
Proof.
  unfold acquire_state. case_match; [|apply evolves_refl]. destruct (pool_acquire _ _). by split; [apply runs_refl|..].
Qed.

Lemma release_state_evolves st e : evolves e (release_state st e).
Proof. unfold release_state. case_match; [by split; [apply runs_refl|..]|apply evolves_refl]. Qed.

Lemma find_analysis_evolves rev code h e : evolves e (snd (find_analysis rev code h e)).
Proof.
  unfold find_analysis. destruct h as [h|]; [|apply evolves_refl].
  destruct (analysis_cache e) as [c|] eqn:E; [|apply evolves_refl].
  destruct (analysis_get h rev c) as [[a|] c']; cbn [snd]; by split; [apply runs_refl|done..|cbn; rewrite E].
Qed.

Lemma execute_evolving fuel : evolving (execute fuel).
Proof.
  induction fuel as [|fuel IH]; intros m code h e r e'; cbn [execute]; [done|].
  set (e0 := with_address_stack _ e).
  assert (forall e1, evolves e0 e1 -> evolves e (with_address_stack (tail (address_stack e1)) e1)) as Hpop.
  { intros e1 []. subst e0. cbn in *. split; [done|cbn; by rewrite ev_stack0|done..]. }
  match goal with |- (try _ := ?t in _) = _ -> _ => assert (forall r1 e1, t = Ok (r1, e1) -> evolves e0 e1) as Ht end.
  { intros r1 e1. destruct (exo_evm e0) as [vm|]; [by apply interpret_evolving|].
    destruct (analysis_cache e0).
    - unfold execute_with_default_interpreter.
      pose proof (find_analysis_evolves (evm_revision e0) code h e0) as V1. destruct (find_analysis _ _ _ _) as [an e2].
      pose proof (acquire_state_evolves e2) as V2. destruct (acquire_state e2) as [st e3]. cbn [snd] in *.
      destruct (interpret _ _ _) as [[r2 e4]|[]|] eqn:Ei; cbn [result_bind]; [|done..]. intros [= <- <-].
      apply interpret_evolving in Ei; [|done].
      eapply evolves_trans; [|apply release_state_evolves]. by do 2 (eapply evolves_trans; [eassumption|]).
    - unfold execute_with_baseline_interpreter.
      pose proof (acquire_state_evolves e0) as V2. destruct (acquire_state e0) as [st e3]. cbn [snd] in *.
      destruct (interpret _ _ _) as [[r2 e4]|[]|] eqn:Ei; cbn [result_bind]; [|done..]. intros [= <- <-].
      apply interpret_evolving in Ei; [|done].
      eapply evolves_trans; [|apply release_state_evolves]. by eapply evolves_trans. }
  destruct (match exo_evm e0 with Some vm => _ | None => _ end) as [[r1 e1]|[]|]; cbn [result_bind]; [|done..].
  intros [= <- <-]. by eapply Hpop, Ht.
Qed.

(** ** What a failed call leaves *)

Lemma access_account_views a s :
  (forall a', view_object a' (snd (access_account a s)) = view_object a' s)
  /\ (forall a' k, view_storage a' k (snd (access_account a s)) = view_storage a' k s)
  /\ self_destructs (snd (access_account a s)) = self_destructs s
  /\ state_logs (snd (access_account a s)) = state_logs s /\ refund (snd (access_account a s)) = refund s.
Proof. unfold access_account. by case_match. Qed.

Lemma set_nonce_views a n s :
  (forall a', view_account a' (set_nonce a n s)
     = if decide (a = a') then Some (with_nonce (default empty_account (view_account a s)) n) else view_account a' s)
  /\ (view_account a s <> None -> forall a' k, view_storage a' k (set_nonce a n s) = view_storage a' k s)
  /\ self_destructs (set_nonce a n s) = self_destructs s
  /\ state_logs (set_nonce a n s) = state_logs s /\ refund (set_nonce a n s) = refund s.
Proof.
  destruct (update_current_spec (fun acc => with_nonce acc n) a s ltac:(done)) as [Hc _].
  change (update_current (fun acc => with_nonce acc n) a s) with (set_nonce a n s) in Hc. split_and!.
  - intros a'. by eapply view_account_changed.
  - intros Hx a' k. destruct (view_account a s) as [acc|] eqn:Ea; [|done].
    eapply changes_object_storage; [exact Ea|done| |exact Hc]. done.
  - apply Hc.
  - apply Hc.
  - apply Hc.
Qed.

Lemma view_value_same s s' :
  (forall a k, view_storage a k s' = view_storage a k s) ->
  forall a k original, view_value a k original s' = view_value a k original s.
Proof. intros E a k original. unfold view_value. by rewrite E. Qed.

Lemma creation_start_views m s :
  let n := nonce (default empty_account (view_account (msg_sender m) s)) in
  let s' := creation_start m s in
  (forall a, view_account a s'
     = if decide (msg_sender m = a)
       then Some (with_nonce (default empty_account (view_account (msg_sender m) s)) (u64 (n + 1)))
       else view_account a s)
  /\ (view_account (msg_sender m) s <> None ->
      forall a k original, view_value a k original s' = view_value a k original s)
  /\ self_destructs s' = self_destructs s /\ state_logs s' = state_logs s /\ refund s' = refund s.
Proof.
  intros n s'. pose proof (get_account_field_is_quiet nonce 0 (msg_sender m) s) as [Q Ql Qr].
  assert (fst (get_nonce (msg_sender m) s) = n) as En.
  { unfold get_nonce. rewrite get_account_field_eq. by destruct (view_account (msg_sender m) s). }
  unfold s', creation_start. rewrite En. set (s1 := snd (get_nonce (msg_sender m) s)) in *.
  change (snd (get_account_field nonce 0 (msg_sender m) s)) with s1 in *.
  set (s2 := set_nonce (msg_sender m) (u64 (n + 1)) s1).
  destruct (access_account_views (new_contract_address m n) s2) as (Av & As & Ad & Al & Ar).
  destruct (set_nonce_views (msg_sender m) (u64 (n + 1)) s1) as (Nv & Ns & Nd & Nl & Nr). fold s2 in Nv, Ns, Nd, Nl, Nr.
  split_and!.
  - intros a. unfold view_account at 1. rewrite Av. change (view_object a s2 ≫= current) with (view_account a s2).
    rewrite Nv, !(restores_account s1 s) by done. done.
  - intros Hx a k original. rewrite (view_value_same s2) by done.
    rewrite (view_value_same s1) by (apply Ns; by rewrite (restores_account s1 s)). by apply restores_value.
  - rewrite Ad, Nd. apply Q.
  - by rewrite Al, Nl.
  - by rewrite Ar, Nr.
Qed.

Definition is_creation m : bool := bool_decide (msg_kind m = EVMC_CREATE \/ msg_kind m = EVMC_CREATE2).

(** A creation by a sender who can pay counts in the sender's nonce. *)
Definition counted m s : bool := is_creation m && (msg_value m <=? fst (get_balance (msg_sender m) s)).

Lemma host_call_failed exec m e r e' :
  evolving exec -> host_call exec m e = Ok (r, e') -> res_status r <> EVMC_SUCCESS ->
  exists s, quiet (state e) s /\ quiet (if counted m (state e) then creation_start m s else s) (state e').
Proof.
  intros Hexec. unfold host_call, counted, is_creation.
  assert (call exec m e = Ok (r, e') -> res_status r <> EVMC_SUCCESS ->
          exists s, quiet (state e) s /\ quiet s (state e')) as Hcall.
  { intros E Hs. apply call_spec in E as [_ Q]; [|done]. exists (state e). split; [apply quiet_refl|by apply Q]. }
  assert (forall r0 e0, create exec m e = Ok (r0, e0) -> res_status r0 <> EVMC_SUCCESS ->
          exists s, quiet (state e) s
            /\ quiet (if msg_value m <=? fst (get_balance (msg_sender m) (state e)) then creation_start m s else s) (state e0))
    as Hcreate.
  { intros r0 e0 E Hs. apply create_spec in E as [_ Q]; [|done].
    exists (snd (get_balance (msg_sender m) (state e))). split; [apply get_account_field_is_quiet|].
    specialize (Q Hs). rewrite Z.ltb_antisym in Q. by destruct (msg_value m <=? _). }
  destruct (msg_kind m); try exact Hcall; (rewrite bool_decide_true by auto); cbn [andb];
    (destruct (create exec m e) as [[r0 e0]|[]|]; cbn [result_bind]; [|done..]);
    case_decide; intros [= <- <-]; eauto.
Qed.

(** ** Storage refunds *)

(** What one write of a word adds to the refund, as a function of the word's value at the beginning of the
    transaction, before the write and after it: clearing is refunded, un-clearing takes the refund back, and
    restoring the original value refunds what the first change cost. *)
Definition cleared (orig v : bytes) : Z := Z.b2z (negb (is_zero orig) && is_zero v).
Definition restored (orig cur v : bytes) : Z :=
  Z.b2z (negb (bytes_eqb cur v) && negb (bytes_eqb orig cur) && bytes_eqb orig v).
Definition restore_refund (rev : Z) (orig : bytes) : Z :=
  (if is_zero orig then kGSSet else sstore_reset_gas_of rev) - sload_cost_of rev.

Definition net_refund (rev : Z) (orig cur v : bytes) : Z :=
  sstore_clears_refund_of rev * (cleared orig v - cleared orig cur)
  + restore_refund rev orig * restored orig cur v.

Definition eip1283 (rev : Z) : bool := (EVMC_ISTANBUL <=? rev) || (rev =? EVMC_CONSTANTINOPLE).

(** Writes of one word, one after the other. *)
Definition write_word a k (e : EVM) v : EVM := snd (host_set_storage a k v e).

(** How often a write brings the original value back. *)
Fixpoint restorations (orig cur : bytes) (vs : list bytes) : Z :=
  match vs with [] => 0 | v :: vs => restored orig cur v + restorations orig v vs end.

Lemma bytes_eqb_refl a : bytes_eqb a a = true.
Proof. by apply bytes_eqb_eq. Qed.

Lemma refund_constants rev :
  eip1283 rev = true ->
  4800 <= sstore_clears_refund_of rev <= 15000 /\ 2800 <= restore_refund rev [] <= 19900
  /\ (forall orig, 0 <= restore_refund rev orig <= 19900)
  /\ (forall orig, u64 ((if is_zero orig then kGSSet else sstore_reset_gas_of rev) - sload_cost_of rev) = restore_refund rev orig).
Proof.
  intros _. unfold restore_refund, sstore_clears_refund_of, sstore_reset_gas_of, sload_cost_of.
  destruct (EVMC_LONDON <=? rev), (EVMC_BERLIN <=? rev), (EVMC_ISTANBUL <=? rev); cbn; split_and!; try lia; try done;
    intros orig; destruct (is_zero orig); try lia; by vm_compute.
Qed.

Lemma get_storage_refund a k original s : refund (snd (get_storage a k original s)) = refund s.
Proof. unfold get_storage. rewrite get_object_eq. repeat case_match; done. Qed.

Lemma set_storage_refund a k v s : refund (IntraBlockState.set_storage a k v s) = refund s.
Proof.
  rewrite set_storage_eq. cbv zeta. pose proof (get_storage_refund a k false s). by case_match.
Qed.

Lemma on_state_eq {A} (f : IBS -> A * IBS) e : on_state f e = (fst (f (state e)), with_state (snd (f (state e))) e).
Proof. unfold on_state. by destruct (f (state e)). Qed.

Ltac eqb_cases :=
  repeat match goal with
  | |- context [bytes_eqb ?x ?y] =>
      let E := fresh "E" in destruct (bytes_eqb x y) eqn:E; [apply bytes_eqb_eq in E|]
  end.

Lemma refund_added n e : refund (state (update_state (add_refund n) e)) = u64 (refund (state e) + n).
Proof. done. Qed.
Lemma refund_subtracted n e : refund (state (update_state (subtract_refund n) e)) = u64 (refund (state e) - n).
Proof. done. Qed.

Lemma host_set_storage_refund a k v e :
  eip1283 (evm_revision e) = true -> view_account a (state e) <> None ->
  let rev := evm_revision e in
  let cur := view_value a k false (state e) in
  let orig := view_value a k true (state e) in
  let r := refund (state e) in
  0 <= r -> sstore_clears_refund_of rev * cleared orig cur <= r -> r + 40000 < 2 ^ 64 ->
  let e' := write_word a k e v in
  refund (state e') = r + net_refund rev orig cur v
  /\ view_value a k false (state e') = v /\ view_value a k true (state e') = orig
  /\ view_account a (state e') <> None.
Proof.
  intros Heip Hx rev cur orig r Hr0 Hr Hmax. cbv zeta. unfold write_word.
  destruct (host_set_storage a k v e) as [st e'] eqn:E. cbn [snd]. revert E. unfold host_set_storage. rewrite on_state_eq.
  destruct (get_storage_spec a k false (state e)) as (Ev & R1 & _). pose proof (get_storage_refund a k false (state e)) as F1.
  change (get_current_storage a k) with (get_storage a k false). rewrite Ev. fold cur.
  set (s1 := snd (get_storage a k false (state e))) in *.
  set (e1 := with_state s1 e). change (evm_revision e1) with rev.
  assert (view_value a k false s1 = cur /\ view_value a k true s1 = orig /\ view_account a s1 <> None) as (Vc & Vo & Vx).
  { rewrite !(restores_value s1 (state e)), (restores_account s1 (state e)) by done. done. }
  destruct (bytes_eqb cur v) eqn:Ecv.
  { intros [= <- <-]. apply bytes_eqb_eq in Ecv. cbn [state with_state]. unfold net_refund, restored.
    rewrite <- Ecv, bytes_eqb_refl. cbn [negb andb Z.b2z].
    split_and!; [cbn; rewrite F1; fold r; clear; lia|exact Vc|exact Vo|exact Vx]. }
  destruct (set_storage_views a k v s1) as [Wo Wv]. specialize (Wv Vx).
  pose proof (set_storage_refund a k v s1) as F2. set (s2 := IntraBlockState.set_storage a k v s1) in *.
  change (evm_revision (update_state (IntraBlockState.set_storage a k v) e1)) with rev.
  change ((EVMC_ISTANBUL <=? rev) || (rev =? EVMC_CONSTANTINOPLE)) with (eip1283 rev).
  rewrite (Heip : eip1283 rev = true). cbn [negb]. rewrite on_state_eq.
  change (state (update_state (IntraBlockState.set_storage a k v) e1)) with s2.
  destruct (get_storage_spec a k true s2) as (Ev2 & R2 & _). pose proof (get_storage_refund a k true s2) as F3.
  change (get_original_storage a k) with (get_storage a k true). rewrite Ev2.
  set (s3 := snd (get_storage a k true s2)) in *.
  assert (view_value a k true s2 = orig) as Eo by (by rewrite Wv, decide_False by naive_solver).
  rewrite Eo.
  set (e3 := with_state s3 _).
  assert (refund (state e3) = r) as F by (cbn; rewrite F3, F2, F1; reflexivity).
  assert (forall e', (forall a', view_object a' (state e') = view_object a' s3) ->
            (forall a' k', view_storage a' k' (state e') = view_storage a' k' s3) ->
            view_value a k false (state e') = v /\ view_value a k true (state e') = orig /\ view_account a (state e') <> None) as Hviews.
  { intros e4 Ho Hs.
    assert (forall o, view_value a k o (state e4) = view_value a k o s2) as Hv
      by (intros o; rewrite (view_value_same s3) by done; by apply restores_value).
    rewrite !Hv.
    unfold view_account. rewrite Ho. fold (view_account a s3). rewrite (restores_account s3 s2) by done.
    split_and!; [by rewrite Wv, decide_True|done|]. unfold view_account. by rewrite Wo. }
  pose proof (refund_constants rev Heip) as (Hc1 & _ & Hc2 & Hc3).
  specialize (Hc2 orig). specialize (Hc3 orig). unfold net_refund, cleared, restored in *. rewrite Ecv.
  intros E. apply (f_equal snd) in E. cbn [snd] in E.
  assert (refund (state e') = r + (sstore_clears_refund_of rev *
      (Z.b2z (negb (is_zero orig) && is_zero v) - Z.b2z (negb (is_zero orig) && is_zero cur))
      + restore_refund rev orig * Z.b2z (negb false && negb (bytes_eqb orig cur) && bytes_eqb orig v))) as Hrefund.
  { rewrite <- E. clear E Hviews Wv Wo. cbn [negb andb].
    destruct (bytes_eqb orig cur) eqn:Eoc; [apply bytes_eqb_eq in Eoc; rewrite <- Eoc in *|]; cbn [negb andb].
    all: destruct (bytes_eqb orig v) eqn:Eov; [apply bytes_eqb_eq in Eov; rewrite <- Eov in *|].
    all: destruct (is_zero orig) eqn:Zo; try destruct (is_zero cur) eqn:Zc; try destruct (is_zero v) eqn:Zv.
    all: cbn [negb andb Z.b2z snd] in *; rewrite ?refund_added, ?refund_subtracted, ?Hc3, F.
    all: clear - Hr Hmax Hc1 Hc2 Hr0; unwrap; lia. }
  { split; [exact Hrefund|]. apply Hviews; intros a'; [|intros k']; rewrite <- E; by repeat case_match. }
Qed.

Lemma evolves_revision e e' : evolves e e' -> evm_revision e' = evm_revision e.
Proof. intros []. unfold evm_revision. congruence. Qed.

Lemma cleared_range orig v : 0 <= cleared orig v <= 1.
Proof. unfold cleared. by destruct (negb _ && _). Qed.

Lemma restored_range orig cur v : 0 <= restored orig cur v <= 1.
Proof. unfold restored. by destruct (_ && _). Qed.

Lemma last_cons {A} (v : A) vs d : List.last (v :: vs) d = List.last vs v.
Proof. revert v d. induction vs as [|w vs IH]; intros v d; [done|]. change (List.last (w :: vs) d = List.last (w :: vs) v). by rewrite !IH. Qed.

Lemma write_words_refund a k vs : forall e,
  eip1283 (evm_revision e) = true -> view_account a (state e) <> None ->
  let rev := evm_revision e in
  let cur := view_value a k false (state e) in
  let orig := view_value a k true (state e) in
  let r := refund (state e) in
  0 <= r -> sstore_clears_refund_of rev * cleared orig cur <= r -> r + 40000 * (zlen vs + 1) < 2 ^ 64 ->
  let e' := foldl (write_word a k) e vs in
  refund (state e')
  = r + sstore_clears_refund_of rev * (cleared orig (List.last vs cur) - cleared orig cur)
    + restore_refund rev orig * restorations orig cur vs
  /\ view_value a k false (state e') = List.last vs cur.
Proof.
  induction vs as [|v vs IH]; intros e Heip Hx rev cur orig r H0r Hr Hmax.
  { cbn [foldl List.last restorations]. split; [fold r; clear; lia|done]. }
  cbn [foldl restorations]. cbn [length] in Hmax. rewrite Nat2Z.inj_succ in Hmax.
  assert (List.last (v :: vs) cur = List.last vs v) as -> by apply last_cons.
  destruct (host_set_storage_refund a k v e) as (Er & Ec & Eo & Hx'); [done|done|exact H0r|exact Hr|lia|].
  fold rev cur orig r in Er, Eo. set (e1 := write_word a k e v) in *.
  assert (evm_revision e1 = rev) as Erev by (apply evolves_revision, host_set_storage_evolves).
  pose proof (refund_constants rev Heip) as (Hc1 & _ & Hc2 & _). specialize (Hc2 orig).
  pose proof (cleared_range orig v). pose proof (cleared_range orig cur). pose proof (restored_range orig cur v).
  unfold net_refund in Er.
  destruct (IH e1) as [IHr IHv]; rewrite ?Erev, ?Ec, ?Eo, ?Er; [exact Heip|exact Hx'|nia|nia|nia|].
  rewrite Erev, Ec, Eo, Er in IHr. rewrite Ec in IHv. split; [rewrite IHr; clear; ring|exact IHv].
Qed.

(** ** Block hashes *)

(** The hash of the block [i] generations above the one with number [number] and hash [hash]. *)
Fixpoint ancestor_hash (d : B) (number : Z) (hash : bytes) (i : nat) : option bytes :=
  match i with
  | O => Some hash
  | S i => h ← read_header d number hash; ancestor_hash d (number - 1) (parent_hash h) i
  end.

(** The ancestor of the block under execution, [i] generations above its parent. *)
Definition ancestor (e : EVM) (i : nat) : option bytes :=
  let h := header (evm_block e) in ancestor_hash (db (state e)) (number h - 1) (parent_hash h) i.

(** What is kept of the ancestors' hashes is right. *)
Definition hashes_ok (e : EVM) : Prop :=
  forall i x, block_hashes e !! i = Some x -> ancestor e i = Some x.

Lemma ancestor_hash_snoc d n h i :
  ancestor_hash d n h (S i)
  = (x ← ancestor_hash d n h i; hd ← read_header d (n - Z.of_nat i) x; Some (parent_hash hd)).
Proof.
  revert n h. induction i as [|i IH]; intros n h.
  - cbn. rewrite Z.sub_0_r. by destruct (read_header d n h).
  - change (ancestor_hash d n h (S (S i)))
      with (hd ← read_header d n h; ancestor_hash d (n - 1) (parent_hash hd) (S i)).
    change (ancestor_hash d n h (S i)) with (hd ← read_header d n h; ancestor_hash d (n - 1) (parent_hash hd) i).
    destruct (read_header d n h) as [hd|]; cbn [mbind option_bind]; [|done].
    rewrite IH. by replace (n - Z.of_nat (S i)) with (n - 1 - Z.of_nat i) by lia.
Qed.

Lemma fill_hashes_ok d n h count : forall i l,
  0 <= n < 2 ^ 64 -> (0 < i)%nat -> length l = (i + count)%nat -> Z.of_nat (i + count) <= n ->
  (forall j, (j < i)%nat -> l !! j = ancestor_hash d (n - 1) h j) ->
  (forall j, (j < i + count)%nat -> ancestor_hash d (n - 1) h j <> None) ->
  let l' := fill_hashes d n count i l in
  length l' = (i + count)%nat /\ forall j, (j < i + count)%nat -> l' !! j = ancestor_hash d (n - 1) h j.
Proof.
  induction count as [|count IH]; intros i l Hn Hi Hl Hbound Hok Hex.
  { cbn [fill_hashes]. split; [done|]. intros j Hj. apply Hok. lia. }
  cbn [fill_hashes].
  destruct (ancestor_hash d (n - 1) h (i - 1)) as [x|] eqn:Ex; [|by exfalso; eapply (Hex (i - 1)%nat); [lia|]].
  assert (nth (i - 1) l zero_bytes32 = x) as Enth.
  { apply nth_lookup_Some. rewrite Hok by lia. exact Ex. }
  pose proof (ancestor_hash_snoc d (n - 1) h (i - 1)) as Es. replace (S (i - 1)) with i in Es by lia.
  rewrite Ex in Es. cbn [mbind option_bind] in Es.
  replace (n - 1 - Z.of_nat (i - 1)) with (n - Z.of_nat i) in Es by lia.
  rewrite Enth, u64_small by lia.
  destruct (read_header d (n - Z.of_nat i) x) as [hd|]; [|by exfalso; apply (Hex i); [lia|rewrite Es]].
  cbn [mbind option_bind] in Es.
  replace (i + S count)%nat with (S i + count)%nat by lia. apply IH.
  - done.
  - lia.
  - rewrite length_insert. lia.
  - lia.
  - intros j Hj. destruct (decide (j = i)) as [->|Hne].
    + rewrite list_lookup_insert_eq by lia. by rewrite Es.
    + rewrite list_lookup_insert_ne by done. apply Hok. lia.
  - intros j Hj. apply Hex. lia.
Qed.

Lemma get_block_hash_spec n e :
  hashes_ok e ->
  let base := number (header (evm_block e)) in
  0 <= base < 2 ^ 64 -> 0 <= n -> base - 256 <= n < base ->
  (length (block_hashes e) <= Z.to_nat base)%nat ->
  (forall i, (i < Z.to_nat (base - n))%nat -> ancestor e i <> None) ->
  exists x e', get_block_hash n e = Ok (x, e') /\ ancestor e (Z.to_nat (base - n) - 1) = Some x
    /\ hashes_ok e' /\ state e' = state e /\ evm_block e' = evm_block e
    /\ (length (block_hashes e') <= Z.to_nat base)%nat.
Proof.
  intros Hok base Hb Hn Hrange Hlen Hex. unfold get_block_hash. fold base. rewrite u64_small by lia.
  rewrite (proj2 (Z.leb_le (base - n) 256)) by lia. cbn [negb].
  set (size := Z.to_nat (base - n)) in *. assert (0 < size)%nat as Hsize by lia.
  rewrite (proj2 (Nat.eqb_neq size 0)) by lia.
  set (h := parent_hash (header (evm_block e))).
  set (l := match block_hashes e with [] => [h] | l => l end).
  assert (forall i x, l !! i = Some x -> ancestor e i = Some x) as Hl.
  { subst l. intros i x. destruct (block_hashes e) eqn:El; [|rewrite <- El; apply Hok].
    destruct i; [|done]. cbn. by intros [= <-]. }
  assert (0 < length l <= Z.to_nat base)%nat as Hl0 by (subst l; destruct (block_hashes e); cbn [length] in *; lia).
  assert (forall j, (j < size)%nat -> exists x, ancestor e j = Some x) as Hanc.
  { intros j Hj. destruct (ancestor e j) as [x|] eqn:Ej; [by exists x|by exfalso; apply (Hex j)]. }
  destruct (Hanc (size - 1)%nat ltac:(lia)) as [x Ex].
  destruct (Nat.ltb_spec (length l) size) as [Hlt|Hge].
  - destruct (fill_hashes_ok (db (state e)) base h (size - length l) (length l)
                (l ++ replicate (size - length l) zero_bytes32)) as [Hlen' Hval]; try lia.
    + by rewrite length_app, length_replicate.
    + intros j Hj. rewrite lookup_app_l by done. destruct (lookup_lt_is_Some_2 l j Hj) as [y Ey].
      rewrite Ey. symmetry. by apply Hl.
    + intros j Hj. apply Hex. lia.
    + set (l' := fill_hashes _ _ _ _ _) in *. replace (length l + (size - length l))%nat with size in * by lia.
      assert (forall j, (j < size)%nat -> l' !! j = ancestor e j) as Hval' by (intros j Hj; by apply Hval).
      exists x, (with_block_hashes l' e). split_and!; [|done| |done|done|cbn; rewrite Hlen'; lia].
      * f_equal. f_equal. apply nth_lookup_Some. rewrite Hval' by lia. exact Ex.
      * intros i y Hy. change (ancestor e i = Some y). rewrite <- Hval'; [exact Hy|]. rewrite <- Hlen'. by apply lookup_lt_Some in Hy.
  - replace (size - length l)%nat with 0%nat by lia. cbn [fill_hashes].
    exists x, (with_block_hashes l e). split_and!; [|done|done|done|done|cbn; lia].
    f_equal. f_equal. destruct (lookup_lt_is_Some_2 l (size - 1) ltac:(lia)) as [y Ey].
    rewrite (nth_lookup_Some _ _ _ _ Ey). apply Hl in Ey. congruence.
Qed.

(** ** Calls end, within their gas

    The rules of EVMC an interpreter keeps: it returns no more gas than it was given, given that its calls do;
    it does not call from depth 1024, and calls at the next depth, with an amount of gas that fits; it asks
    only for the hashes of the last 256 blocks. [base] is the number of the block. *)

Definition frame_ok m : Prop := 0 <= msg_depth m <= 1024 /\ 0 <= msg_gas m < 2 ^ 61 /\ bytes_ok (msg_input m).
Definition message_ok m : Prop :=
  frame_ok m /\ bytes_ok (msg_destination m) /\ length (msg_destination m) = 20%nat.

Definition call_ok (base depth : Z) {A} (c : HostCall A) : Prop :=
  match c with
  | HCall m => msg_depth m = depth + 1 /\ message_ok m
  | HGetBlockHash n => base - 256 <= n < base
  | _ => True
  end.

Definition gas_kept (given : Z) (r : EvmResult) : Prop := 0 <= res_gas_left r <= given.

Definition answer_ok {A} (c : HostCall A) : A -> Prop :=
  match c in HostCall A return A -> Prop with
  | HCall m => gas_kept (msg_gas m)
  | _ => fun _ => True
  end.

Inductive well_behaved (base depth gas : Z) : Interp -> Prop :=
| wb_return r : gas_kept gas r -> well_behaved base depth gas (IReturn r)
| wb_call A (c : HostCall A) (continue : A -> Interp) :
    call_ok base depth c -> (forall x, answer_ok c x -> well_behaved base depth gas (continue x)) ->
    well_behaved base depth gas (ICall c continue).

Definition base_number (e : EVM) : Z := number (header (evm_block e)).

(** The interpreter in use keeps the rules, on every message and code. *)
Definition interpreter_ok (e : EVM) : Prop :=
  match exo_evm e with
  | Some vm => forall rev m code, frame_ok m -> well_behaved (base_number e) (msg_depth m) (msg_gas m) (vm rev m code)
  | None =>
      analysis_cache e = None
      /\ forall rev m code st, frame_ok m ->
           well_behaved (base_number e) (msg_depth m) (msg_gas m)
             (baseline_execute (reset_state m rev code st) (baseline_analyze code))
  end.

Definition machine_ok (e : EVM) : Prop :=
  interpreter_ok e /\ 0 <= base_number e < 2 ^ 64 /\ txn_from (evm_txn e) <> None.

Lemma evolves_machine_ok e e' : evolves e e' -> machine_ok e -> machine_ok e'.
Proof.
  intros [] (Hi & Hb & Ht). unfold machine_ok, interpreter_ok, base_number in *. rewrite ev_vm0, ev_block0, ev_txn0.
  split; [|by split]. destruct (exo_evm e); [done|]. destruct Hi as [Hc Hi]. split; [by apply ev_cache0|done].
Qed.

(** An [execute] that serves messages from [depth] on. *)
Definition serves (exec : Execute) (depth : Z) : Prop :=
  forall m code h e, machine_ok e -> frame_ok m -> depth <= msg_depth m ->
    exists r e', exec m code h e = Ok (r, e') /\ gas_kept (msg_gas m) r.

Lemma failed_result_gas gas r : 0 <= gas -> gas_kept gas r -> gas_kept gas (failed_result r).
Proof. unfold failed_result, gas_kept. intros Hg Hr. case_decide; cbn; lia. Qed.

Lemma i64_small x : 0 <= x < 2 ^ 63 -> i64 x = x.
Proof. intros Hx. unfold i64. rewrite u64_small by lia. by destruct (Z.ltb_spec x (2 ^ 63)); [|lia]. Qed.

Lemma deploy_code_gas gas rev a r s : gas < 2 ^ 61 -> gas_kept gas r -> gas_kept gas (fst (deploy_code rev a r s)).
Proof.
  unfold gas_kept, deploy_code. intros Hg Hr. case_decide; [|done].
  destruct (_ && (kMaxCodeSize <? _)); [done|]. pose proof (u64_range (zlen (res_output r) * kGCodeDeposit)).
  set (d := u64 (zlen (res_output r) * kGCodeDeposit)) in *.
  destruct ((0 <=? res_gas_left r) && _) eqn:E; [|by case_match].
  b2p. rewrite (u64_small (res_gas_left r)) in * by lia. cbn [fst res_gas_left]. rewrite i64_small by lia. lia.
Qed.

Lemma create_serves exec depth m e :
  serves exec depth -> machine_ok e -> frame_ok m -> depth <= msg_depth m ->
  exists r e', create exec m e = Ok (r, e') /\ gas_kept (msg_gas m) r.
Proof.
  intros Hexec He Hm Hd. pose proof Hm as (Hmd & Hg & Hin). unfold create.
  destruct (get_balance _ _) as [b s0]. destruct (b <? msg_value m).
  { eexists _, _. split; [done|]. unfold gas_kept. cbn. lia. }
  destruct (get_nonce _ _) as [n s1]. destruct (access_account _ _) as [status s3].
  destruct (address_taken _ s3) as [[] s4].
  { eexists _, _. split; [done|]. unfold gas_kept. cbn. lia. }
  set (a := new_contract_address m n). set (s6 := add_to_balance a _ _).
  set (dm := mkMessage _ _ _ _ _ _ _ _ _).
  assert (frame_ok dm) as Hdm by (split; [exact Hmd|split; [exact Hg|constructor]]).
  destruct (Hexec dm (msg_input m) None (with_state s6 e)) as (r0 & e0 & Ex & Hr0).
  { exact He. }
  { exact Hdm. }
  { exact Hd. }
  rewrite Ex. cbn [result_bind].
  pose proof (deploy_code_gas (msg_gas m) (evm_revision e) a r0 (state e0) ltac:(lia) Hr0) as Hr1.
  destruct (deploy_code _ _ _ _) as [r1 s7]. cbn [fst] in Hr1.
  case_decide; eexists _, _; (split; [done|]); [exact Hr1|]. apply failed_result_gas; [lia|done].
Qed.

Context `{!GmpLaws} `{!Secp256k1Laws}.

(** An address that compares as a precompiled contract is the number of one. *)
Lemma ltb_zeros n l x : bytes_ok l -> length l = S n -> bytes_ltb (zero_bytes n ++ [x]) l = false ->
  exists y, l = zero_bytes n ++ [y] /\ 0 <= y <= x.
Proof.
  revert l. induction n as [|n IH]; intros l Hok Hl.
  - destruct l as [|y [|]]; try done. inversion_clear Hok as [|? ? Hy _]. unfold byte_ok in Hy. cbn.
    destruct (Z.ltb_spec x y); [done|]. intros _. exists y. split; [done|lia].
  - destruct l as [|y l]; [done|]. inversion_clear Hok as [|? ? Hy Hok']. unfold byte_ok in Hy. cbn [zero_bytes replicate app bytes_ltb].
    destruct (Z.ltb_spec 0 y); [done|]. destruct (Z.ltb_spec y 0); [lia|]. intros Hlt.
    destruct (IH l Hok' ltac:(cbn in Hl; lia) Hlt) as (z & -> & Hz). exists z. split; [|done].
    by replace y with 0 by lia.
Qed.

Lemma precompiled_number dst e :
  bytes_ok dst -> length dst = 20%nat -> is_precompiled dst e = true ->
  exists c, kContracts !! Z.to_nat (nth (kAddressLength - 1) dst 0 - 1) = Some c /\ c ∈ kContracts.
Proof.
  intros Hok Hl. unfold is_precompiled. destruct (is_zero dst) eqn:Ez; [done|]. intros Hc. apply negb_true_iff in Hc.
  apply ltb_zeros in Hc as (y & -> & Hy); [|done..].
  assert (y <> 0) as Hy0.
  { intros ->. by vm_compute in Ez. }
  change (nth (kAddressLength - 1) (zero_bytes 19 ++ [y]) 0) with y.
  assert (y <= 9) as Hy9.
  { unfold number_of_precompiles, kNumOfIstanbulContracts, kNumOfByzantiumContracts, kNumOfFrontierContracts in Hy.
    repeat case_match; lia. }
  destruct (kContracts !! Z.to_nat (y - 1)) as [c|] eqn:Ec.
  - exists c. split; [done|]. by eapply list_elem_of_lookup_2.
  - apply lookup_ge_None in Ec. cbn in Ec. lia.
Qed.

Lemma run_precompiled_defined m e :
  message_ok m -> is_precompiled (msg_destination m) e = true ->
  exists r, run_precompiled (nth (kAddressLength - 1) (msg_destination m) 0) m (evm_revision e) = Ok r
    /\ gas_kept (msg_gas m) r.
Proof.
  intros ((_ & Hg & Hin) & Hok & Hl) Hp. unfold run_precompiled.
  destruct (precompiled_number _ _ Hok Hl Hp) as (c & -> & Hc).
  destruct (contracts_defined c (msg_input m) (evm_revision e) Hc Hin) as (g & -> & Hrun).
  destruct (Z.ltb_spec (i64 g) 0); cbn [orb].
  { eexists. split; [done|]. unfold gas_kept. cbn. lia. }
  destruct (Z.ltb_spec (msg_gas m) (i64 g)).
  { eexists. split; [done|]. unfold gas_kept. cbn. lia. }
  destruct Hrun as [[out|] ->]; [lia| |]; eexists; (split; [done|]); unfold gas_kept; cbn; [|lia].
  rewrite i64_small by lia. lia.
Qed.

Lemma finish_call_gas gas snapshot r e : 0 <= gas -> gas_kept gas r -> gas_kept gas (fst (finish_call snapshot r e)).
Proof. intros Hg Hr. unfold finish_call. case_decide; [done|]. by apply failed_result_gas. Qed.

Lemma call_serves exec depth m e :
  serves exec depth -> machine_ok e -> message_ok m -> depth <= msg_depth m -> address_stack e <> [] \/ msg_kind m = EVMC_CALL ->
  exists r e', call exec m e = Ok (r, e') /\ gas_kept (msg_gas m) r.
Proof.
  intros Hexec He Hm Hd Hstack. pose proof Hm as ((Hmd & Hg & Hin) & _). unfold call.
  assert (forall s, exists r e', Ok (E := Halt) (mkEvmResult EVMC_SUCCESS (msg_gas m) [] zero_address, with_state s e)
            = Ok (r, e') /\ gas_kept (msg_gas m) r) as Hdone.
  { intros s. eexists _, _. split; [done|]. unfold gas_kept. cbn. lia. }
  destruct (if decide (msg_kind m = EVMC_DELEGATECALL) then _ else _) as [[] s1].
  { eexists _, _. split; [done|]. unfold gas_kept. cbn. lia. }
  destruct (if (msg_value m =? 0) && _ then _ else _) as [[] s2]; [apply Hdone|].
  destruct (is_precompiled _ _) eqn:Ep.
  - destruct (run_precompiled_defined m e Hm Ep) as (r & -> & Hr). cbn [result_bind].
    pose proof (finish_call_gas (msg_gas m) (take_snapshot s2) r (with_state (transfer_value m s2) e) ltac:(lia) Hr).
    destruct (finish_call _ _ _) as [r' e']. by exists r', e'.
  - destruct (get_code _ _) as [[|x code] s4]; [apply Hdone|]. destruct (get_code_hash _ _) as [h s5].
    assert (exists msg, with_storage_address m e = Ok msg /\ frame_ok msg /\ msg_gas msg = msg_gas m
              /\ msg_depth msg = msg_depth m) as (msg & -> & Hmsg & Eg & Ed).
    { unfold with_storage_address. destruct (msg_kind m); try (eexists; split; [done|]; by split_and!).
      destruct (address_stack e) as [|top l]; [by destruct Hstack|]. eexists. split; [done|]. by split_and!. }
    cbn [result_bind].
    destruct (Hexec msg (x :: code) (Some h) (with_state s5 e) He Hmsg ltac:(lia)) as (r & e1 & -> & Hr).
    cbn [result_bind]. rewrite Eg in Hr.
    pose proof (finish_call_gas (msg_gas m) (take_snapshot s2) r e1 ltac:(lia) Hr).
    destruct (finish_call _ _ _) as [r' e']. by exists r', e'.
Qed.

Lemma host_call_serves exec depth m e :
  serves exec depth -> machine_ok e -> message_ok m -> depth <= msg_depth m -> address_stack e <> [] ->
  exists r e', host_call exec m e = Ok (r, e') /\ gas_kept (msg_gas m) r.
Proof.
  intros Hexec He Hm Hd Hstack. unfold host_call. pose proof Hm as [Hf _].
  assert (exists r e', create exec m e = Ok (r, e') /\ gas_kept (msg_gas m) r) as (r & e' & Ec & Hr)
    by (by eapply create_serves).
  pose proof (call_serves exec depth m e Hexec He Hm Hd (or_introl Hstack)) as Hcall.
  destruct (msg_kind m); try exact Hcall; rewrite Ec; cbn [result_bind]; case_decide; eexists _, _; split; done.
Qed.

Lemma get_block_hash_defined n e :
  base_number e - 256 <= n < base_number e -> exists x e', get_block_hash n e = Ok (x, e').
Proof.
  unfold base_number. intros Hn. unfold get_block_hash. cbv zeta. rewrite u64_small by lia.
  rewrite (proj2 (Z.leb_le _ 256)) by lia. cbn [negb].
  rewrite (proj2 (Nat.eqb_neq _ 0)) by lia. by eexists _, _.
Qed.

Lemma interpret_serves exec base depth gas t e :
  serves exec (depth + 1) -> evolving exec -> well_behaved base depth gas t -> machine_ok e -> base = base_number e ->
  address_stack e <> [] -> exists r e', interpret exec t e = Ok (r, e') /\ gas_kept gas r.
Proof.
  intros Hexec Hev Ht. revert e. induction Ht as [r Hr|A c continue Hc Hk IH]; intros e He Hb Hs; cbn [interpret].
  { by exists r, e. }
  assert (exists x e1, answer exec c e = Ok (x, e1) /\ answer_ok c x) as (x & e1 & Ea & Hx).
  { destruct c; cbn [answer answer_ok]; try (by eexists _, _).
    - destruct (account_exists address e) as [x e1]. by exists x, e1.
    - destruct (host_access_account address e) as [x e1]. by exists x, e1.
    - destruct (host_access_storage address key e) as [x e1]. by exists x, e1.
    - destruct (host_get_storage address key e) as [x e1]. by exists x, e1.
    - destruct (host_set_storage address key value e) as [x e1]. by exists x, e1.
    - destruct (host_get_balance address e) as [x e1]. by exists x, e1.
    - destruct (get_code_size address e) as [x e1]. by exists x, e1.
    - destruct (host_get_code_hash address e) as [x e1]. by exists x, e1.
    - destruct (copy_code address code_offset buffer_size e) as [x e1]. by exists x, e1.
    - destruct Hc as [Hd Hm]. eapply host_call_serves; [exact Hexec|exact He|exact Hm|lia|exact Hs].
    - destruct He as (_ & _ & Ht). unfold get_tx_context. destruct (txn_from (evm_txn e)); [|done]. by eexists _, _.
    - destruct (get_block_hash_defined n e) as (x & e1 & E); [by rewrite <- Hb|]. by exists x, e1. }
  rewrite Ea. cbn [result_bind]. apply answer_evolving in Ea; [|done]. apply (IH x Hx).
  - by eapply evolves_machine_ok.
  - rewrite Hb. unfold base_number. by rewrite (ev_block _ _ Ea).
  - by rewrite (ev_stack _ _ Ea).
Qed.

Lemma execute_serves fuel depth : 1025 - depth <= Z.of_nat fuel -> serves (execute fuel) depth.
Proof.
  revert depth. induction fuel as [|fuel IH]; intros depth Hf m code h e He Hm Hd.
  { destruct Hm as [Hm _]. lia. }
  cbn [execute]. set (e0 := with_address_stack _ e).
  assert (machine_ok e0) as He0 by exact He. assert (address_stack e0 <> []) as Hs0 by done.
  assert (serves (execute fuel) (msg_depth m + 1)) as Hserve by (apply IH; lia).
  pose proof (execute_evolving fuel) as Hev.
  pose proof He0 as (Hint & _). unfold interpreter_ok in Hint.
  destruct (exo_evm e0) as [vm|].
  - destruct (interpret_serves _ _ _ _ _ e0 Hserve Hev (Hint (evm_revision e0) m code Hm) He0 eq_refl Hs0) as (r & e1 & -> & Hr).
    cbn [result_bind]. by eexists _, _.
  - destruct Hint as [-> Hint]. unfold execute_with_baseline_interpreter.
    pose proof (acquire_state_evolves e0) as V. destruct (acquire_state e0) as [st e1]. cbn [snd] in V.
    destruct (interpret_serves (execute fuel) (base_number e0) (msg_depth m) (msg_gas m)
                (baseline_execute (reset_state m (evm_revision e0) code st) (baseline_analyze code)) e1)
      as (r & e2 & -> & Hr); [exact Hserve|exact Hev|by apply Hint|by eapply evolves_machine_ok| | |].
    + unfold base_number. by rewrite (ev_block _ _ V).
    + by rewrite (ev_stack _ _ V).
    + cbn [result_bind]. by eexists _, _.
Qed.

End Evm.
