(* ===== verification/EvmTheorems.v ===== *)
(** * EvmTheorems: the properties of message calls, with a machine that shows their hypotheses can hold *)

From S2P Require Import Prelude Util Keccak Rlp Account Transaction Block Chain MemoryBuffer IntraBlockState.
From S2P Require Import StateCorrect Cache Precompiled Evm EvmCorrect.
Local Open Scope Z_scope.
Local Open Scope silk_scope.

(** ** A small interpreter

    The first byte of the code is the program: return at once; write word 1 of the own storage and revert;
    call the own address at the next depth, with all gas but one unit, and return what is left. *)

Definition ok_result (gas : Z) : EvmResult := mkEvmResult EVMC_SUCCESS gas [] zero_address.

Definition demo_run (m : Message) (code : bytes) : Interp :=
  match code with
  | 1 :: _ =>
      ICall (HSetStorage (msg_destination m) (to_be 32 1) (to_be 32 7))
        (fun _ => IReturn (mkEvmResult EVMC_REVERT (msg_gas m) [] zero_address))
  | 2 :: _ =>
      if (msg_depth m <? 1024) && (0 <? msg_gas m) then
        ICall (HCall (mkMessage EVMC_CALL false (msg_depth m + 1) (msg_gas m - 1) (to_be 20 0xcc) (to_be 20 0xcc) [] 0
                        zero_bytes32))
          (fun r => IReturn (ok_result (res_gas_left r)))
      else IReturn (ok_result (msg_gas m))
  | _ => IReturn (ok_result (msg_gas m))
  end.

#[export] Instance demo : Evmone := {|
  CodeAnalysis := unit;
  BaselineAnalysis := bytes;
  ExecutionState := option Message;
  new_execution_state := None;
  reset_state := fun m _ _ _ => Some m;
  analyze := fun _ _ => tt;
  advanced_execute := fun _ _ => IReturn (ok_result 0);
  baseline_analyze := fun code => code;
  baseline_execute := fun st code => match st with Some m => demo_run m code | None => IReturn (ok_result 0) end
|}.

Definition no_key : Secp256k1 := fun _ _ _ => None.
#[local] Existing Instances no_key reference_gmp plane.

(** A buffer with a rich account [0xaa] and a contract [0xcc] with one byte of code and one word of storage. *)
Definition demo_sender : Account := mkAccount 5 (10 ^ 18) kEmptyHash 0.
Definition demo_contract : Account := mkAccount 1 0 (to_be 32 0xc0de) 1.

Definition demo_buffer (code : bytes) : MemoryBuffer :=
  let b := mb_begin_block 1 empty_buffer in
  let b := mb_update_account (to_be 20 0xaa) None (Some demo_sender) b in
  let b := mb_update_account (to_be 20 0xcc) None (Some demo_contract) b in
  let b := mb_update_account_code (to_be 20 0xcc) 1 (code_hash demo_contract) code b in
  mb_update_storage (to_be 20 0xcc) 1 (to_be 32 1) zero_bytes32 (to_be 32 9) b.

Definition demo_block (n : Z) : Block :=
  mkBlock (mkBlockBody [] [])
    (mkBlockHeader (to_be 32 n) zero_bytes32 zero_address zero_bytes32 zero_bytes32 zero_bytes32 empty_bloom 0 n
       (10 ^ 7) 0 0 [] zero_bytes32 (zero_bytes 8)).

Definition demo_evm (code : bytes) : EVM (B := MemoryBuffer) :=
  new_evm (demo_block 13000000) (new_state (demo_buffer code)) kMainnetConfig.

Definition demo_message (gas : Z) : Message :=
  mkMessage EVMC_CALL false 0 gas (to_be 20 0xcc) (to_be 20 0xaa) [] 17 zero_bytes32.

Lemma demo_run_ok base m code : frame_ok m -> well_behaved base (msg_depth m) (msg_gas m) (demo_run m code).
Proof.
  intros ((Hd & Hd') & Hg & _).
  assert (forall g, 0 <= g <= msg_gas m -> well_behaved base (msg_depth m) (msg_gas m) (IReturn (ok_result g))) as Hret
    by (intros g Hgm; by apply wb_return).
  unfold demo_run. destruct code as [|[|[p|p|]|p] code]; try (apply Hret; lia).
  - destruct p; try (apply Hret; lia). destruct (Z.ltb_spec (msg_depth m) 1024); [|apply Hret; lia].
    destruct (Z.ltb_spec 0 (msg_gas m)); [|apply Hret; lia].
    apply wb_call.
    + split; [done|]. split; [|by split; [apply bytes_okb_ok|]]. repeat split; cbn; try lia. constructor.
    + cbn. intros r Hr. apply wb_return. unfold gas_kept in *. cbn in *. lia.
  - apply wb_call; [done|]. intros _ _. apply wb_return. unfold gas_kept. cbn. lia.
Qed.

(** ** Addresses of created contracts *)

(** What the Yellow Paper and EIP-1014 hash. *)
Definition create_preimage (caller : bytes) (nonce : Z) : bytes := encode_list (encode_bytes caller ++ encode_u64 nonce).
Definition create2_preimage (caller salt code_hash : bytes) : bytes := 0xff :: caller ++ salt ++ code_hash.

Lemma create_preimage_eq caller nonce :
  length caller = 20%nat -> wf_u64 nonce ->
  create_preimage caller nonce = (0xc0 + (21 + length_u64 nonce)) :: 0x94 :: caller ++ encode_u64 nonce.
Proof.
  intros Hc Hn. unfold create_preimage, encode_list. destruct (length_encode_u64 nonce Hn) as [El Hl].
  assert (encode_bytes caller = 0x94 :: caller) as ->.
  { destruct caller as [|x [|y l]]; [done..|]. unfold encode_bytes.
    change (needs_header (x :: y :: l)) with true. cbv iota. by rewrite Hc. }
  assert (zlen ((0x94 :: caller) ++ encode_u64 nonce) = 21 + length_u64 nonce) as ->
    by (rewrite zlen_app; cbn [length]; rewrite Hc; lia).
  unfold encode_header. cbn [h_payload_length h_list]. rewrite (proj2 (Z.ltb_lt _ 56)) by lia.
  unfold kEmptyListCode. rewrite u8_small by lia. reflexivity.
Qed.

Lemma create_address_eq caller nonce :
  length caller = 20%nat -> wf_u64 nonce ->
  create_address caller nonce = take 20 (drop 12 (keccak256 (create_preimage caller nonce))).
Proof.
  intros Hc Hn. rewrite create_preimage_eq by done. destruct (length_encode_u64 nonce Hn) as [_ Hl].
  unfold create_address, encode_fixed, encode_header, kEmptyListCode, kEmptyStringCode. cbn [h_payload_length h_list].
  change (1 + Z.of_nat kAddressLength) with 21. rewrite (proj2 (Z.ltb_lt _ 56)) by lia. rewrite u8_small by lia. reflexivity.
Qed.

(** ** Theorems *)

(** The address of a created contract is the end of a Keccak hash of the creation's inputs, in the encodings
    of the Yellow Paper and of EIP-1014, and these encodings never coincide: not for two creations with
    different sender or nonce, not for two salted creations that differ anywhere, and not for a creation of
    one kind and one of the other. So equal addresses mean a collision of the (shortened) hash. *)
Theorem created_addresses (caller caller' : bytes) (nonce nonce' : Z) (salt salt' code_hash code_hash' : bytes) :
  length caller = 20%nat -> length caller' = 20%nat -> wf_u64 nonce -> wf_u64 nonce' ->
  length salt = 32%nat -> length salt' = 32%nat -> length code_hash = 32%nat -> length code_hash' = 32%nat ->
  create_address caller nonce = take 20 (drop 12 (keccak256 (create_preimage caller nonce)))
  /\ create2_address caller salt code_hash = take 20 (drop 12 (keccak256 (create2_preimage caller salt code_hash)))
  /\ (create_preimage caller nonce = create_preimage caller' nonce' -> caller = caller' /\ nonce = nonce')
  /\ (create2_preimage caller salt code_hash = create2_preimage caller' salt' code_hash' ->
      caller = caller' /\ salt = salt' /\ code_hash = code_hash')
  /\ create_preimage caller nonce <> create2_preimage caller' salt' code_hash'.
Proof.
  intros Hc Hc' Hn Hn' Hs Hs' Hh Hh'. split_and!.
  - by apply create_address_eq.
  - reflexivity.
  - rewrite !create_preimage_eq by done. intros [= _ E]. apply app_inj_1 in E as [<- E]; [|congruence].
    split; [done|]. pose proof (decode_encode_u64 nonce [] Hn) as D. rewrite E, decode_encode_u64 in D by done. congruence.
  - unfold create2_preimage. intros [= E]. apply app_inj_1 in E as [<- E]; [|congruence].
    by apply app_inj_1 in E as [<- <-]; [|congruence].
  - rewrite create_preimage_eq by done. destruct (length_encode_u64 nonce Hn) as [_ Hl].
    unfold create2_preimage. intros [= E _]. lia.
Qed.

Lemma created_addresses_witness :
  create_preimage (to_be 20 0xaa) 0 <> create_preimage (to_be 20 0xaa) 1.
Proof.
  intros E.
  destruct (created_addresses (to_be 20 0xaa) (to_be 20 0xaa) 0 1 zero_bytes32 zero_bytes32 kEmptyHash kEmptyHash)
    as (_ & _ & Hinj & _); try reflexivity; try (unfold wf_u64; lia).
  destruct (Hinj E) as [_ Hn]. discriminate Hn.
Defined.

Section Theorems.
Context {B : Type} `{StateBuffer B} `{Evmone} `{Secp256k1} `{Gmp} `{Libff}.
Notation EVM := (EVM (B := B)).

Lemma failed_result_gas_kept r :
  res_status r = EVMC_REVERT \/ res_gas_left (failed_result r) = 0.
Proof. unfold failed_result. case_decide; [by left|by right]. Qed.

(** What a failure leaves of the gas. *)
Definition failed_gas (gas : Z) (r : EvmResult) : Prop :=
  res_status r = EVMC_REVERT \/ res_gas_left r = 0
  \/ (res_status r = EVMC_INSUFFICIENT_BALANCE /\ res_gas_left r = gas).

Lemma finish_call_failed_gas gas snapshot r (e : EVM) :
  let r' := fst (finish_call snapshot r e) in res_status r' <> EVMC_SUCCESS -> failed_gas gas r'.
Proof.
  unfold finish_call. case_decide as Hs; [done|]. cbn. intros _. unfold failed_gas. rewrite failed_result_status.
  destruct (failed_result_gas_kept r); auto.
Qed.

Lemma call_failed_gas exec m (e : EVM) r e' :
  call exec m e = Ok (r, e') -> res_status r <> EVMC_SUCCESS -> failed_gas (msg_gas m) r.
Proof.
  unfold call. destruct (if decide (msg_kind m = EVMC_DELEGATECALL) then _ else _) as [[] s1].
  { intros [= <- _] _. right. by right. }
  destruct (if (msg_value m =? 0) && _ then _ else _) as [[] s2]; [by intros [= <- _]|].
  destruct (is_precompiled _ _).
  - destruct (run_precompiled _ _ _) as [r0|[]|]; cbn [result_bind]; [|done..]. intros [= E].
    pose proof (finish_call_failed_gas (msg_gas m) (take_snapshot s2) r0 (with_state (transfer_value m s2) e)) as Hf.
    by rewrite E in Hf.
  - destruct (get_code _ _) as [[|x code] s4]; [by intros [= <- _]|]. destruct (get_code_hash _ _) as [h s5].
    destruct (with_storage_address m e) as [msg|[]|]; cbn [result_bind]; [|done..].
    destruct (exec _ _ _ _) as [[r0 e0]|[]|]; cbn [result_bind]; [|done..]. intros [= E].
    pose proof (finish_call_failed_gas (msg_gas m) (take_snapshot s2) r0 e0) as Hf. by rewrite E in Hf.
Qed.

Lemma create_failed_gas exec m (e : EVM) r e' :
  create exec m e = Ok (r, e') -> res_status r <> EVMC_SUCCESS -> failed_gas (msg_gas m) r.
Proof.
  unfold create. destruct (get_balance _ _) as [b s0]. destruct (b <? msg_value m).
  { intros [= <- _] _. right. by right. }
  destruct (get_nonce _ _) as [n s1]. destruct (access_account _ _) as [status s3].
  destruct (address_taken _ s3) as [[] s4]; [intros [= <- _] _; right; by left|].
  destruct (exec _ _ _ _) as [[r0 e0]|[]|]; cbn [result_bind]; [|done..].
  destruct (deploy_code _ _ _ _) as [r1 s7]. case_decide as Hs; [by intros [= <- _]|].
  intros [= <- _] _. unfold failed_gas. rewrite failed_result_status. destruct (failed_result_gas_kept r1); auto.
Qed.

Lemma host_call_failed_gas exec m (e : EVM) r e' :
  host_call exec m e = Ok (r, e') -> res_status r <> EVMC_SUCCESS -> failed_gas (msg_gas m) r.
Proof.
  unfold host_call. pose proof (call_failed_gas exec m e r e').
  assert (forall r0 e0, create exec m e = Ok (r0, e0) -> res_status r0 <> EVMC_SUCCESS -> failed_gas (msg_gas m) r0) as Hc
    by (intros; by eapply create_failed_gas).
  destruct (msg_kind m); try done; (destruct (create exec m e) as [[r0 e0]|[]|]; cbn [result_bind]; [|done..]);
    case_decide; intros [= <- <-]; try apply (Hc r0 e0 eq_refl); done.
Qed.

(** C7: A failed call or creation, at any depth and whatever the interpreter did in between, leaves every account,
    every storage word, the self-destructs, the logs, the refund and the stack of addresses as they were,
    but for one thing: a creation by a sender who could pay has used up a nonce of the sender. The gas that
    is left is none, unless code reverted or nothing was tried because the balance was too low. *)
Theorem failed_call_restores fuel m (e e' : EVM) r :
  host_call (execute fuel) m e = Ok (r, e') -> res_status r <> EVMC_SUCCESS ->
  let s := state e in
  let s' := state e' in
  let sender := default empty_account (view_account (msg_sender m) s) in
  (forall a, view_account a s'
     = if decide (counted m s = true /\ msg_sender m = a) then Some (with_nonce sender (u64 (nonce sender + 1)))
       else view_account a s)
  /\ (counted m s = false \/ view_account (msg_sender m) s <> None ->
      forall a k original, view_value a k original s' = view_value a k original s)
  /\ self_destructs s' = self_destructs s /\ state_logs s' = state_logs s /\ refund s' = refund s
  /\ address_stack e' = address_stack e
  /\ failed_gas (msg_gas m) r.
Proof.
  intros Hc Hs s s' sender. pose proof (host_call_failed_gas _ _ _ _ _ Hc Hs) as Hgas.
  pose proof (host_call_evolving _ _ _ _ _ (execute_evolving fuel) Hc) as [_ Hstack _ _ _ _ _].
  destruct (host_call_failed _ _ _ _ _ (execute_evolving fuel) Hc Hs) as (s0 & [Q0 L0 F0] & [Q L F]). fold s in Q0, L0, F0, Q, L, F. fold s' in Q, L, F.
  destruct (counted m s).
  - destruct (creation_start_views m s0) as (Cv & Cs & Cd & Cl & Cf).
    rewrite (restores_account s0 s) in Cv, Cs by done. split_and!; [..|done|done].
    + intros a. rewrite (restores_account s' (creation_start m s0)), Cv, (restores_account s0 s) by done.
      destruct (decide (msg_sender m = a)); [by rewrite decide_True|]. by rewrite decide_False by (by intros [_ ?]).
    + intros [Hx|Hx] a k original; [done|].
      rewrite (restores_value s' (creation_start m s0)), Cs by done. by apply restores_value.
    + rewrite (rs_self_destructs _ _ Q), Cd. apply Q0.
    + by rewrite L, Cl.
    + by rewrite F, Cf.
  - split_and!; [..|done|done].
    + intros a. rewrite (restores_account s' s0), (restores_account s0 s) by done. by case_decide; [naive_solver|].
    + intros _ a k original. rewrite (restores_value s' s0) by done. by apply restores_value.
    + rewrite (rs_self_destructs _ _ Q). apply Q0.
    + by rewrite L.
    + by rewrite F.
Qed.

(** *** More fuel does not change what a run answers *)

Definition extends (exec exec' : Execute (B := B)) : Prop :=
  forall m code h e x, exec m code h e = Ok x -> exec' m code h e = Ok x.

Lemma bind_extends {A C} (x y : result Halt A) (f g : A -> result Halt C) z :
  (forall a, x = Ok a -> y = Ok a) -> (forall a w, f a = Ok w -> g a = Ok w) ->
  (result_bind x f) = Ok z -> (result_bind y g) = Ok z.
Proof. intros Hx Hf. destruct x as [a|[]|]; cbn [result_bind]; [|done..]. rewrite (Hx a eq_refl). apply Hf. Qed.

Lemma call_extends exec exec' m (e : EVM) x : extends exec exec' -> call exec m e = Ok x -> call exec' m e = Ok x.
Proof.
  intros He. unfold call. destruct (if decide (msg_kind m = EVMC_DELEGATECALL) then _ else _) as [[] s1]; [done|].
  destruct (if (msg_value m =? 0) && _ then _ else _) as [[] s2]; [done|]. destruct (is_precompiled _ _); [done|].
  destruct (get_code _ _) as [[|c code] s4]; [done|]. destruct (get_code_hash _ _) as [h s5].
  apply bind_extends; [done|]. intros msg w. apply bind_extends; [|by intros []]. intros y. apply He.
Qed.

Lemma create_extends exec exec' m (e : EVM) x :
  extends exec exec' -> create exec m e = Ok x -> create exec' m e = Ok x.
Proof.
  intros He. unfold create. destruct (get_balance _ _) as [b s0]. destruct (b <? msg_value m); [done|].
  destruct (get_nonce _ _) as [n s1]. destruct (access_account _ _) as [status s3].
  destruct (address_taken _ s3) as [[] s4]; [done|]. apply bind_extends; [intros y; apply He|by intros []].
Qed.

Lemma answer_extends exec exec' {A} (c : HostCall A) (e : EVM) x :
  extends exec exec' -> answer exec c e = Ok x -> answer exec' c e = Ok x.
Proof.
  intros He. destruct c; try done. cbn [answer]. unfold host_call.
  pose proof (fun y => call_extends exec exec' message e y He). pose proof (fun y => create_extends exec exec' message e y He).
  destruct (msg_kind message); auto; (apply bind_extends; [auto|by intros []]).
Qed.

Lemma interpret_extends exec exec' t (e : EVM) x :
  extends exec exec' -> interpret exec t e = Ok x -> interpret exec' t e = Ok x.
Proof.
  intros He. revert e x. induction t as [r|A c k IH]; intros e x; cbn [interpret]; [done|].
  apply bind_extends; [|by intros [a e1] w; apply IH]. intros a. by apply answer_extends.
Qed.

Lemma execute_extends fuel : extends (execute fuel) (execute (S fuel)).
Proof.
  induction fuel as [|fuel IH]; intros m code h e x; [done|].
  cbn [execute]. apply bind_extends; [|by intros []]. intros y.
  destruct (exo_evm _); [by apply interpret_extends|].
  destruct (analysis_cache _); unfold execute_with_default_interpreter, execute_with_baseline_interpreter.
  - destruct (find_analysis _ _ _ _) as [an e1]. destruct (acquire_state e1) as [st e2].
    apply bind_extends; [|by intros []]. intros z. by apply interpret_extends.
  - destruct (acquire_state _) as [st e2]. apply bind_extends; [|by intros []]. intros z. by apply interpret_extends.
Qed.

Lemma execute_extends_le fuel fuel' : (fuel <= fuel')%nat -> extends (execute fuel) (execute fuel').
Proof.
  induction 1 as [|fuel' _ IH]; intros m code h e x Hx; [exact Hx|]. by apply execute_extends, IH.
Qed.

(** *** Refunds and block hashes *)

(** C26: Net gas metering. However often a transaction writes a word of storage, from EIP-1283 on the refund ends up
    at what it was, plus one clearing refund if the word was set at the beginning and is zero at the end,
    plus, for every time a write brings the original value back, what the first change paid too much. So the
    refund depends on nothing else that was written in between, never falls below what it was and so the
    unsigned counter never wraps; and the last value written is what the word holds. *)
Theorem refund_of_writes (a k : bytes) (vs : list bytes) (e : EVM) :
  eip1283 (evm_revision e) = true -> view_account a (state e) <> None ->
  view_value a k false (state e) = view_value a k true (state e) ->
  0 <= refund (state e) -> refund (state e) + 40000 * (zlen vs + 1) < 2 ^ 64 ->
  let orig := view_value a k true (state e) in
  let e' := foldl (write_word a k) e vs in
  refund (state e')
  = refund (state e) + sstore_clears_refund_of (evm_revision e) * cleared orig (List.last vs orig)
    + restore_refund (evm_revision e) orig * restorations orig orig vs
  /\ refund (state e) <= refund (state e')
  /\ fst (host_get_storage a k e') = List.last vs orig.
Proof.
  intros Heip Hx Hc Hr Hmax orig e'.
  assert (cleared orig orig = 0) as Hoo by (unfold cleared; by destruct (is_zero orig)).
  destruct (write_words_refund a k vs e Heip Hx Hr) as [Er Ev]; [rewrite Hc; fold orig; lia|done|].
  rewrite Hc in Er, Ev. fold orig e' in Er, Ev. rewrite Hoo in Er.
  pose proof (refund_constants _ Heip) as (Hcl & _ & Hre & _). specialize (Hre orig).
  pose proof (cleared_range orig (List.last vs orig)).
  assert (0 <= restorations orig orig vs) as Hn.
  { clear. generalize orig at 2. induction vs as [|v vs IH]; intros c; cbn [restorations]; [done|].
    pose proof (restored_range orig c v). specialize (IH v). lia. }
  split_and!; [rewrite Er; ring|rewrite Er; nia|].
  unfold host_get_storage. rewrite on_state_eq. cbn [fst]. rewrite <- Ev. apply (proj1 (get_storage_spec a k false _)).
Qed.

(** BLOCKHASH, once for every number of a list. *)
Fixpoint get_block_hashes (ns : list Z) (e : EVM) : result Halt (list bytes * EVM) :=
  match ns with
  | [] => Ok ([], e)
  | n :: ns =>
      try (x, e) := get_block_hash n e in
      try (xs, e) := get_block_hashes ns e in
      Ok (x :: xs, e)
  end.

(** C27: BLOCKHASH answers every question about the last 256 blocks, in whatever order they are asked, with the
    hash of that ancestor: the one found by following parents through the stored headers from the block under
    execution. The hashes kept from earlier questions do not change the answers, and the state is only read. *)
Theorem get_block_hash_correct (ns : list Z) (e : EVM) :
  block_hashes e = [] ->
  let base := number (header (evm_block e)) in
  0 <= base < 2 ^ 64 ->
  Forall (fun n => 0 <= n /\ base - 256 <= n < base) ns ->
  (forall i, (i < Z.to_nat base)%nat -> (i < 256)%nat -> ancestor e i <> None) ->
  exists xs e', get_block_hashes ns e = Ok (xs, e') /\ state e' = state e
    /\ map Some xs = map (fun n => ancestor e (Z.to_nat (base - n) - 1)) ns.
Proof.
  intros Hnil base Hb Hns Hanc.
  assert (hashes_ok e) as Hok by (intros i x; by rewrite Hnil).
  assert (length (block_hashes e) <= Z.to_nat base)%nat as Hlen by (rewrite Hnil; cbn; lia).
  clear Hnil. revert e base Hb Hns Hanc Hok Hlen. induction ns as [|n ns IH]; intros e base Hb Hns Hanc Hok Hlen.
  { by exists [], e. }
  apply Forall_cons in Hns as [(Hn & Hr) Hns].
  destruct (get_block_hash_spec n e Hok Hb Hn Hr Hlen) as (x & e1 & E & Ex & Hok1 & Es & Eb & Hlen1).
  { intros i Hi. unfold base in *. apply Hanc; lia. }
  assert (forall i, ancestor e1 i = ancestor e i) as Ea by (intros i; unfold ancestor; by rewrite Es, Eb).
  assert (number (header (evm_block e1)) = base) as Ebase by (by rewrite Eb).
  destruct (IH e1) as (xs & e' & E' & Es' & Exs); rewrite ?Ebase; try done.
  { intros i Hi Hi'. rewrite Ea. by apply Hanc. }
  exists (x :: xs), e'. cbn [get_block_hashes]. rewrite E. cbn [result_bind]. rewrite E'. cbn [result_bind].
  split_and!; [done|by rewrite Es'|]. cbn [map]. rewrite Exs, Ebase. f_equal; [exact (eq_sym Ex)|].
  apply map_ext. intros n0. apply Ea.
Qed.

Context `{!GmpLaws} `{!Secp256k1Laws}.

(** The execution of a transaction over a machine that keeps the rules. *)
Lemma evm_execute_defined (txn : Transaction) (gas : Z) (e : EVM) :
  machine_ok (with_txn txn e) -> 0 <= gas < 2 ^ 61 -> bytes_ok (data txn) ->
  (forall dst, txn_to txn = Some dst -> bytes_ok dst /\ length dst = 20%nat) ->
  exists r e', evm_execute txn gas e = Ok (r, e') /\ 0 <= call_gas_left r <= gas.
Proof.
  intros He Hg Hd Hto. unfold evm_execute, evm_execute_with.
  pose proof He as (_ & _ & Hf). cbn in Hf. destruct (txn_from txn) as [from|]; [|done].
  rewrite i64_small by lia.
  set (m := mkMessage _ _ _ _ _ _ _ _ _).
  assert (frame_ok m) as Hm by (repeat split; cbn; (lia || done)).
  assert (exists r e', (if txn_to txn then call else create) (execute kCallFuel) m (with_txn txn e) = Ok (r, e')
            /\ gas_kept (msg_gas m) r) as (r & e' & E & Hr).
  { pose proof (execute_serves kCallFuel 0 ltac:(done)) as Hexec. destruct (txn_to txn) as [dst|] eqn:Et.
    - apply (call_serves _ 0); [done|done| |done|by right]. split; [done|]. by apply (Hto dst).
    - by apply (create_serves _ 0). }
  unfold gas_kept in Hr. cbn in Hr. rewrite E. eexists _, e'. split; [done|].
  cbn. rewrite u64_small by lia. lia.
Qed.

Lemma evm_execute_extends fuel txn gas (e : EVM) x :
  (kCallFuel <= fuel)%nat -> evm_execute txn gas e = Ok x -> evm_execute_with fuel txn gas e = Ok x.
Proof.
  intros Hle. apply execute_extends_le in Hle. unfold evm_execute, evm_execute_with. destruct (txn_from txn); [|done].
  apply bind_extends; [|by intros []]. intros a.
  destruct (txn_to txn); [by apply call_extends|by apply create_extends].
Qed.

(** C25: Executing a transaction ends: with an interpreter that keeps the rules of EVMC, whatever the code does, there
    is a result and it has no more gas left than was given. Calls nest at most 1024 deep, so the 1025 frames
    of fuel are enough, and more fuel gives the same result; nothing on the way is undefined. *)
Theorem evm_execute_total (txn : Transaction) (gas : Z) (e : EVM) :
  machine_ok (with_txn txn e) -> 0 <= gas < 2 ^ 61 -> bytes_ok (data txn) ->
  (forall dst, txn_to txn = Some dst -> bytes_ok dst /\ length dst = 20%nat) ->
  exists r e', (forall fuel, (kCallFuel <= fuel)%nat -> evm_execute_with fuel txn gas e = Ok (r, e'))
    /\ evm_execute txn gas e = Ok (r, e') /\ 0 <= call_gas_left r <= gas.
Proof.
  intros He Hg Hd Hto. destruct (evm_execute_defined txn gas e He Hg Hd Hto) as (r & e' & E & Hr).
  exists r, e'. split; [|by split]. intros fuel Hle. by apply evm_execute_extends.
Qed.

End Theorems.

(** The contract writes its word and reverts: the word and the balance of the sender are as before. *)
Lemma failed_call_restores_witness :
  match host_call (execute 1) (demo_message 1000) (demo_evm [1]) with
  | Ok (r, e') => res_status r = EVMC_REVERT
                  /\ view_value (to_be 20 0xcc) (to_be 32 1) false (state e') = to_be 32 9
                  /\ view_account (to_be 20 0xaa) (state e') = Some demo_sender
  | _ => False
  end.
Proof.
  assert (match host_call (execute 1) (demo_message 1000) (demo_evm [1]) with
          | Ok (r, _) => bool_decide (res_status r = EVMC_REVERT) | _ => false end = true) as Hr by (vm_compute; reflexivity).
  destruct (host_call (execute 1) (demo_message 1000) (demo_evm [1])) as [[r e']|[]|] eqn:E; [|done..].
  apply bool_decide_eq_true in Hr.
  destruct (failed_call_restores 1 (demo_message 1000) (demo_evm [1]) e' r E) as (Ha & Hv & _); [by rewrite Hr|].
  split; [exact Hr|]. split.
  - rewrite Hv by (left; vm_compute; reflexivity). vm_compute. reflexivity.
  - rewrite Ha. vm_compute. reflexivity.
Defined.

Lemma no_key_laws : @Secp256k1Laws no_key.
Proof. done. Qed.

Definition demo_transaction : Transaction :=
  mkTransaction None 0 1 21000 (Some (to_be 20 0xcc)) 17 [] false None 1 1 [] (Some (to_be 20 0xaa)).

(** A contract that calls itself until the depth is exhausted. *)
Lemma evm_execute_total_witness :
  exists r e', evm_execute demo_transaction 5000 (demo_evm [2]) = Ok (r, e') /\ 0 <= call_gas_left r <= 5000.
Proof.
  destruct (@evm_execute_total _ _ demo no_key reference_gmp plane reference_gmp_laws no_key_laws
              demo_transaction 5000 (demo_evm [2])) as (r & e' & _ & E & Hr).
  - split; [|split; [vm_compute; split; congruence|done]]. split; [done|]. intros rev m code st Hm. by apply demo_run_ok.
  - lia.
  - constructor.
  - intros dst [= <-]. split; [by apply bytes_okb_ok|done].
  - exists r, e'. split; [exact E|exact Hr].
Defined.

(** A word that holds 9 is cleared, set to 7, cleared, and given its value back. *)
Lemma refund_of_writes_witness :
  refund (state (foldl (write_word (to_be 20 0xcc) (to_be 32 1)) (demo_evm [1])
                   [zero_bytes32; to_be 32 7; zero_bytes32; to_be 32 9])) = 2800.
Proof.
  rewrite (proj1 (refund_of_writes (to_be 20 0xcc) (to_be 32 1) [zero_bytes32; to_be 32 7; zero_bytes32; to_be 32 9]
                    (demo_evm [1]) ltac:(vm_compute; reflexivity) ltac:(vm_compute; discriminate)
                    ltac:(vm_compute; reflexivity) ltac:(vm_compute; discriminate) ltac:(vm_compute; reflexivity))).
  vm_compute. reflexivity.
Defined.

(** Block 2 over the stored headers of blocks 1 and 0. *)
Definition demo_chain : EVM (B := MemoryBuffer) :=
  let parent n := header (demo_block n) in
  let b := mb_insert_block (mkBlock (mkBlockBody [] []) (parent 1)) (to_be 32 2) empty_buffer in
  new_evm (demo_block 2) (new_state b) kMainnetConfig.

Lemma get_block_hash_correct_witness :
  exists e', get_block_hashes [0; 1; 0] demo_chain = Ok ([to_be 32 1; to_be 32 2; to_be 32 1], e').
Proof.
  destruct (get_block_hash_correct [0; 1; 0] demo_chain) as (xs & e' & E & _ & Exs).
  - done.
  - vm_compute. split; congruence.
  - repeat constructor; cbn; lia.
  - intros i Hi _. change (i < 2)%nat in Hi. destruct i as [|[|i]]; [vm_compute; discriminate..|lia].
  - exists e'. rewrite E. destruct xs as [|x1 [|x2 [|x3 [|x4 xs]]]]; try discriminate Exs.
    vm_compute in Exs. injection Exs as -> -> ->. vm_compute. reflexivity.
Defined.
