(* ===== verification/Supply.v ===== *)
(** * Supply: message calls do not create ether

    For any interpreter of bytecode, the sum of all balances does not grow in a message call or a creation:
    what is credited was debited before, and a failed frame gives back the balances it found. The sum is over
    any finite set of accounts that is large enough. *)

From S2P Require Import Prelude Util Keccak Rlp Account Transaction Block Chain MemoryBuffer IntraBlockState.
From S2P Require Import StateCorrect BlockState Cache Precompiled Evm EvmCorrect.
Local Open Scope Z_scope.
Local Open Scope silk_scope.

(** ** Sums over finite sets *)

Definition sum_list (l : list Z) : Z := foldr Z.add 0 l.
Definition total (D : gset bytes) (f : bytes -> Z) : Z := sum_list (map f (elements D)).

Lemma sum_list_perm l l' : l ≡ₚ l' -> sum_list l = sum_list l'.
Proof. induction 1; cbn [sum_list foldr] in *; unfold sum_list in *; cbn; lia. Qed.

Lemma total_ext D f g : (forall a, f a = g a) -> total D f = total D g.
Proof. intros E. unfold total. f_equal. by apply map_ext. Qed.

Lemma total_insert a D f : a ∉ D -> total ({[a]} ∪ D) f = f a + total D f.
Proof.
  intros Ha. unfold total. rewrite (sum_list_perm _ (map f (a :: elements D))); [done|].
  apply Permutation_map, elements_union_singleton. exact Ha.
Qed.

Lemma total_change D f g a : a ∈ D -> (forall b, b <> a -> g b = f b) -> total D g = total D f - f a + g a.
Proof.
  intros Ha Hne. assert (D = {[a]} ∪ D ∖ {[a]}) as -> by (apply union_difference_singleton_L; exact Ha).
  rewrite !total_insert by set_solver. enough (total (D ∖ {[a]}) g = total (D ∖ {[a]}) f) by lia.
  unfold total. f_equal. apply map_ext_in. intros b Hb. apply Hne. intros ->.
  apply list_elem_of_In, elem_of_elements in Hb. set_solver.
Qed.

Section Supply.
Context {B : Type} `{StateBuffer B}.
Notation IBS := (IntraBlockState B).
Implicit Types (s : IBS) (a k v : bytes).

Definition bal s a : Z := from_option balance 0 (view_account a s).

Definition balances_ok s : Prop := forall a, 0 <= bal s a < 2 ^ 256.

(** At most [n] is created on the way from [s] to [s']. *)
Definition mints (n : Z) s s' : Prop :=
  balances_ok s -> balances_ok s' /\ exists D0, forall D, D0 ⊆ D -> total D (bal s') <= total D (bal s) + n.

(** The same accounts. *)
Definition keeps s s' : Prop := forall a, view_account a s' = view_account a s.

Lemma keeps_refl s : keeps s s.
Proof. done. Qed.

Lemma keeps_trans s s1 s2 : keeps s s1 -> keeps s1 s2 -> keeps s s2.
Proof. intros K1 K2 a. by rewrite K2, K1. Qed.

Lemma keeps_objects s s' : (forall a, view_object a s' = view_object a s) -> keeps s s'.
Proof. intros E a. unfold view_account. by rewrite E. Qed.

Lemma quiet_keeps s s' : quiet s s' -> keeps s s'.
Proof. intros [R _ _] a. by apply restores_account. Qed.

Lemma mints_trans n m s s1 s2 : mints n s s1 -> mints m s1 s2 -> mints (n + m) s s2.
Proof.
  intros H1 H2 Hok. destruct (H1 Hok) as (Hok1 & D1 & HD1). destruct (H2 Hok1) as (Hok2 & D2 & HD2). split; [done|].
  exists (D1 ∪ D2). intros D HD. specialize (HD1 D ltac:(set_solver)). specialize (HD2 D ltac:(set_solver)). lia.
Qed.

Lemma mints_weaken n m s s' : n <= m -> mints n s s' -> mints m s s'.
Proof. intros Hle Hm Hok. destruct (Hm Hok) as (Hok' & D0 & HD). split; [done|]. exists D0. intros D Hs. specialize (HD D Hs). lia. Qed.

Lemma keeps_mints s s' : keeps s s' -> mints 0 s s'.
Proof.
  intros K Hok. assert (forall a, bal s' a = bal s a) as E by (intros a; unfold bal; by rewrite K).
  split; [intros a; by rewrite E|]. exists ∅. intros D _. rewrite (total_ext D _ _ E). lia.
Qed.

(** After nothing but accounts kept. *)
Lemma mints_keeps n s s1 s2 : mints n s s1 -> keeps s1 s2 -> mints n s s2.
Proof. intros Hm K. replace n with (n + 0) by lia. eapply mints_trans; [exact Hm|by apply keeps_mints]. Qed.

Lemma keeps_then n s s1 s2 : keeps s s1 -> mints n s1 s2 -> mints n s s2.
Proof. intros K Hm. replace n with (0 + n) by lia. eapply mints_trans; [by apply keeps_mints|exact Hm]. Qed.

(** One balance changes. *)
Lemma mints_update n s s' a x :
  (forall a', bal s' a' = if decide (a = a') then x else bal s a') ->
  (balances_ok s -> 0 <= x < 2 ^ 256 /\ x <= bal s a + n) -> mints n s s'.
Proof.
  intros E Hx Hok. destruct (Hx Hok) as [Hr Hle]. split; [intros a'; rewrite E; by case_decide|].
  exists {[a]}. intros D HD. rewrite (total_change D (bal s) (bal s') a).
  - rewrite E, decide_True by done. lia.
  - set_solver.
  - intros b Hb. by rewrite E, decide_False.
Qed.

Lemma get_balance_bal a s : fst (get_balance a s) = bal s a.
Proof. apply get_account_field_eq. Qed.

(** ** Operations *)

Lemma update_current_bal f a s a' :
  (forall acc, incarnation (f acc) = incarnation acc) ->
  bal (update_current f a s) a'
  = if decide (a = a') then balance (f (default empty_account (view_account a s))) else bal s a'.
Proof.
  intros Hf. destruct (update_current_spec f a s Hf) as [Hc _]. unfold bal.
  rewrite (view_account_changed _ _ _ _ _ a' Hc). by case_decide.
Qed.

Lemma bal_default a s : balance (default empty_account (view_account a s)) = bal s a.
Proof. unfold bal. by destruct (view_account a s). Qed.

Lemma touch_bal a s a' : bal (touch a s) a' = bal s a'.
Proof. unfold bal, view_account. by rewrite (proj1 (touch_views a s)). Qed.

Lemma set_balance_bal a n s a' : bal (set_balance a n s) a' = if decide (a = a') then n else bal s a'.
Proof. unfold set_balance. by rewrite touch_bal, update_current_bal. Qed.

Lemma add_to_balance_bal a n s a' :
  bal (add_to_balance a n s) a' = if decide (a = a') then u256 (bal s a + n) else bal s a'.
Proof. unfold add_to_balance. rewrite touch_bal, update_current_bal by done. cbn. by rewrite bal_default. Qed.

Lemma subtract_from_balance_bal a n s a' :
  bal (subtract_from_balance a n s) a' = if decide (a = a') then u256 (bal s a - n) else bal s a'.
Proof. unfold subtract_from_balance. rewrite touch_bal, update_current_bal by done. cbn. by rewrite bal_default. Qed.

Lemma u256_le x : 0 <= x -> 0 <= u256 x <= x.
Proof. intros Hx. unfold u256, wrap. split; [apply Z.mod_pos_bound; lia|apply Z.mod_le; lia]. Qed.

Lemma add_to_balance_mints a n s : 0 <= n -> mints n s (add_to_balance a n s).
Proof.
  intros Hn. apply (mints_update n _ _ a (u256 (bal s a + n))); [apply add_to_balance_bal|]. intros Hok.
  specialize (Hok a). pose proof (u256_le (bal s a + n) ltac:(lia)). pose proof (u256_range (bal s a + n)). lia.
Qed.

Lemma subtract_from_balance_mints a n s : 0 <= n <= bal s a -> mints (- n) s (subtract_from_balance a n s).
Proof.
  intros Hn. apply (mints_update (- n) _ _ a (u256 (bal s a - n))); [apply subtract_from_balance_bal|]. intros Hok.
  specialize (Hok a). rewrite u256_small by lia. lia.
Qed.

(** [update_current] on a field that is not the balance. *)
Lemma update_current_mints f a s :
  (forall acc, incarnation (f acc) = incarnation acc) -> (forall acc, balance (f acc) = balance acc) ->
  (forall a', bal (update_current f a s) a' = bal s a') /\ mints 0 s (update_current f a s).
Proof.
  intros Hi Hb. assert (forall a', bal (update_current f a s) a' = bal s a') as E.
  { intros a'. rewrite update_current_bal by done. case_decide; [subst|done]. by rewrite Hb, bal_default. }
  split; [done|]. apply (mints_update 0 _ _ a (bal s a)); [|intros Hok; specialize (Hok a); lia].
  intros a'. rewrite E. case_decide; by subst.
Qed.

Lemma set_nonce_bal a n s a' : bal (set_nonce a n s) a' = bal s a'.
Proof. by apply (update_current_mints (fun acc => with_nonce acc n)). Qed.

Lemma set_nonce_mints a n s : mints 0 s (set_nonce a n s).
Proof. by apply (update_current_mints (fun acc => with_nonce acc n)). Qed.

Lemma set_code_mints a c s : mints 0 s (set_code a c s).
Proof.
  unfold set_code. set (s1 := update_current _ a s).
  assert (mints 0 s s1) as Hm by (by apply (update_current_mints (fun acc => with_code_hash acc (to_bytes32 (keccak256 c))))).
  case_match; [done|]. eapply mints_keeps; [exact Hm|]. by apply keeps_objects.
Qed.

Lemma create_contract_bal a s a' : bal (create_contract a s) a' = bal s a'.
Proof.
  unfold bal, view_account. rewrite create_contract_view. case_decide; [subst|done]. cbn. unfold view_account.
  by destruct (view_object a' s ≫= current).
Qed.

Lemma same_bal_mints s s' : (forall a, bal s' a = bal s a) -> mints 0 s s'.
Proof.
  intros E Hok. split; [intros a; by rewrite E|]. exists ∅. intros D _. rewrite (total_ext D _ _ E). lia.
Qed.

(** A balance moved to another account, or lost when it is the same. *)
Lemma move_balance_mints a b s : mints 0 s (set_balance a 0 (add_to_balance b (bal s a) s)).
Proof.
  destruct (decide (b = a)) as [->|Hne].
  - apply (mints_update 0 _ _ a 0); [|intros Hok; specialize (Hok a); lia].
    intros a'. rewrite set_balance_bal, add_to_balance_bal. by case_decide.
  - intros Hok. pose proof (Hok a) as Ha.
    assert (mints (bal s a + - bal s a) s (set_balance a 0 (add_to_balance b (bal s a) s))) as M.
    { eapply mints_trans; [apply add_to_balance_mints; lia|].
      apply (mints_update _ _ _ a 0); [intros a'; by rewrite set_balance_bal|].
      intros _. rewrite add_to_balance_bal, decide_False by done. lia. }
    rewrite Z.add_opp_diag_r in M. exact (M Hok).
Qed.

Lemma get_code_keeps a s : keeps s (snd (get_code a s)).
Proof.
  pose proof (get_object_quiet a s) as Q. unfold get_code. destruct (get_object a s) as [[[i [acc|]]|] s1]; cbn [current];
    try (by intros b; apply restores_account).
  case_match; [by intros b; apply restores_account|].
  intros b. rewrite <- (restores_account s1 s b Q). unfold find_code. by case_match.
Qed.

Lemma access_account_keeps a s : keeps s (snd (access_account a s)).
Proof. apply keeps_objects, access_account_views. Qed.

Lemma access_storage_keeps a k s : keeps s (snd (access_storage a k s)).
Proof. apply keeps_objects. intros b. unfold access_storage. by case_bool_decide. Qed.

Lemma get_storage_keeps a k o s : keeps s (snd (get_storage a k o s)).
Proof. intros b. apply restores_account. apply (get_storage_spec a k o s). Qed.

Lemma set_storage_keeps a k v s : keeps s (IntraBlockState.set_storage a k v s).
Proof. apply keeps_objects, set_storage_views. Qed.

Lemma touch_keeps a s : keeps s (touch a s).
Proof. apply keeps_objects, touch_views. Qed.

Lemma get_account_field_keeps {A} (f : Account -> A) d a s : keeps s (snd (get_account_field f d a s)).
Proof. apply quiet_keeps, get_account_field_is_quiet. Qed.

Lemma get_balance_keeps a s : keeps s (snd (get_balance a s)).
Proof. apply get_account_field_keeps. Qed.
Lemma get_nonce_keeps a s : keeps s (snd (get_nonce a s)).
Proof. apply get_account_field_keeps. Qed.
Lemma get_code_hash_keeps a s : keeps s (snd (get_code_hash a s)).
Proof. apply get_account_field_keeps. Qed.

Lemma record_suicide_keeps a s : keeps s (record_suicide a s).
Proof. apply keeps_objects. intros b. unfold record_suicide. by case_bool_decide. Qed.

End Supply.

(** ** Calls and creations *)

(** Every message carries a 256-bit unsigned value; this is what [evmc_uint256be] holds. *)
Inductive unsigned : Interp -> Prop :=
| un_return r : unsigned (IReturn r)
| un_call A (c : HostCall A) (continue : A -> Interp) :
    match c with HCall m => 0 <= msg_value m | _ => True end -> (forall x, unsigned (continue x)) ->
    unsigned (ICall c continue).

Section Machine.
Context {B : Type} `{StateBuffer B} `{Evmone} `{Secp256k1} `{Gmp} `{Libff}.
Notation IBS := (IntraBlockState B).
Notation EVM := (EVM (B := B)).
Implicit Types (e : EVM) (s : IBS) (m : Message) (a k v : bytes).

Definition unsigned_machine (e : EVM) : Prop :=
  match exo_evm e with
  | Some vm => forall rev m code, unsigned (vm rev m code)
  | None => (forall st an, unsigned (advanced_execute st an)) /\ (forall st an, unsigned (baseline_execute st an))
  end.

Lemma evolves_unsigned e e' : evolves e e' -> unsigned_machine e -> unsigned_machine e'.
Proof. intros V. unfold unsigned_machine. rewrite (ev_vm _ _ V). exact id. Qed.

Lemma state_with_state s e : state (with_state s e) = s.
Proof. reflexivity. Qed.

Lemma unsigned_with_state s e : unsigned_machine e -> unsigned_machine (with_state s e).
Proof. exact id. Qed.

Definition conserving (exec : Execute) : Prop :=
  forall m code h e r e', unsigned_machine e -> exec m code h e = Ok (r, e') -> mints 0 (state e) (state e').

Lemma transfer_value_mints m s : 0 <= msg_value m <= bal s (msg_sender m) -> mints 0 s (transfer_value m s).
Proof.
  intros Hv. unfold transfer_value. destruct (msg_kind m); try by apply keeps_mints.
  destruct (msg_static m); [apply keeps_mints, touch_keeps|].
  replace 0 with (- msg_value m + msg_value m) by lia.
  eapply mints_trans; [by apply subtract_from_balance_mints|apply add_to_balance_mints; lia].
Qed.

Lemma transfer_other m s : msg_kind m <> EVMC_CALL -> transfer_value m s = s.
Proof. unfold transfer_value. by destruct (msg_kind m). Qed.

Lemma finish_call_success snapshot r e r' e' :
  finish_call snapshot r e = (r', e') -> res_status r' = EVMC_SUCCESS -> e' = e.
Proof.
  unfold finish_call. case_decide; [by intros [= _ <-]|]. intros [= <- _]. by rewrite failed_result_status.
Qed.

Lemma call_mints exec m e r e' :
  evolving exec -> conserving exec -> unsigned_machine e -> 0 <= msg_value m ->
  call exec m e = Ok (r, e') -> mints 0 (state e) (state e').
Proof.
  intros Hev Hexec Hu Hv Hc. destruct (decide (res_status r = EVMC_SUCCESS)) as [Hs|Hs].
  2: { apply keeps_mints, quiet_keeps. by apply (call_spec exec m e r e'). }
  revert Hc. unfold call.
  destruct (if decide (msg_kind m = EVMC_DELEGATECALL) then _ else _) as [insufficient s1] eqn:E1.
  assert (keeps (state e) s1 /\ (insufficient = false -> msg_kind m = EVMC_CALL -> msg_value m <= bal (state e) (msg_sender m)))
    as [K1 Hb].
  { case_decide as Hk; [injection E1 as _ <-; split; [done|congruence]|].
    pose proof (get_balance_keeps (msg_sender m) (state e)) as K.
    pose proof (get_balance_bal (msg_sender m) (state e)) as Eb. destruct (get_balance _ _) as [b s0]. injection E1 as <- <-. split; [done|].
    cbn in Eb. subst b. intros Hlt _. apply Z.ltb_ge in Hlt. exact Hlt. }
  destruct insufficient; [by intros [= <- <-]|].
  destruct (if (msg_value m =? 0) && _ then _ else _) as [nothing s2] eqn:E2.
  assert (keeps (state e) s2) as K2.
  { case_match; [|by injection E2 as _ <-]. pose proof (quiet_keeps _ _ (exists_is_quiet (msg_destination m) s1)) as K.
    destruct (exists_ _ s1). injection E2 as _ <-. by eapply keeps_trans. }
  destruct nothing; [intros [= <- <-]; by apply keeps_mints|].
  assert (mints 0 (state e) (transfer_value m s2)) as M3.
  { eapply keeps_then; [exact K2|]. destruct (decide (msg_kind m = EVMC_CALL)) as [Hk|Hk].
    - apply transfer_value_mints. split; [done|]. unfold bal. rewrite K2. by apply Hb.
    - rewrite transfer_other by done. by apply keeps_mints. }
  destruct (is_precompiled _ _).
  - destruct (run_precompiled _ _ _) as [r0|[]|]; cbn [result_bind]; [|done..]. intros [= E].
    apply finish_call_success in E as ->; [|done]. exact M3.
  - pose proof (get_code_keeps (msg_destination m) (transfer_value m s2)) as K4.
    destruct (get_code (msg_destination m) (transfer_value m s2)) as [code s4]. cbn [snd] in K4.
    assert (mints 0 (state e) s4) as M4 by (by eapply mints_keeps).
    destruct code as [|c0 code]; [by intros [= <- <-]|].
    pose proof (get_code_hash_keeps (msg_destination m) s4) as K5.
    destruct (get_code_hash (msg_destination m) s4) as [h s5]. cbn [snd] in K5.
    destruct (with_storage_address m e) as [msg|[]|]; cbn [result_bind]; [|done..].
    destruct (exec msg (c0 :: code) (Some h) (with_state s5 e)) as [[r0 e0]|[]|] eqn:Ex; cbn [result_bind]; [|done..].
    intros [= E]. apply finish_call_success in E as ->; [|done].
    apply Hexec in Ex; [|done]. cbn in Ex. replace 0 with (0 + 0) by lia.
    eapply mints_trans; [by eapply mints_keeps|exact Ex].
Qed.

Lemma deploy_code_mints rev a r s : mints 0 s (snd (deploy_code rev a r s)).
Proof.
  unfold deploy_code. repeat case_match; cbn [snd]; try by apply keeps_mints. apply set_code_mints.
Qed.

Lemma address_taken_keeps a s : keeps s (snd (address_taken a s)).
Proof. apply quiet_keeps, address_taken_is_quiet. Qed.

(** Debits and credits up to the run of the creation's code. *)
Lemma creation_transfer_mints rev m a s :
  0 <= msg_value m <= bal s (msg_sender m) ->
  let s1 := create_contract a s in
  let s2 := if EVMC_SPURIOUS_DRAGON <=? rev then set_nonce a 1 s1 else s1 in
  mints 0 s (add_to_balance a (msg_value m) (subtract_from_balance (msg_sender m) (msg_value m) s2)).
Proof.
  intros Hv s1 s2.
  assert ((forall a', bal s2 a' = bal s a') /\ mints 0 s s2) as [Eb M2].
  { assert (forall a', bal s1 a' = bal s a') as E1 by apply create_contract_bal. pose proof (same_bal_mints _ _ E1) as M1.
    unfold s2. case_match; [|done].
    split; [intros a'; by rewrite set_nonce_bal, E1|]. replace 0 with (0 + 0) by lia.
    eapply mints_trans; [exact M1|apply set_nonce_mints]. }
  replace 0 with (0 + (- msg_value m + msg_value m)) by lia. eapply mints_trans; [exact M2|].
  eapply mints_trans; [apply subtract_from_balance_mints; by rewrite Eb|apply add_to_balance_mints; lia].
Qed.

Lemma create_mints exec m e r e' :
  evolving exec -> conserving exec -> unsigned_machine e -> 0 <= msg_value m ->
  create exec m e = Ok (r, e') -> mints 0 (state e) (state e').
Proof.
  intros Hev Hexec Hu Hv. unfold create.
  pose proof (get_balance_keeps (msg_sender m) (state e)) as K0.
  pose proof (get_balance_bal (msg_sender m) (state e)) as Eb. destruct (get_balance _ _) as [b s0]. cbn [fst snd] in *.
  destruct (Z.ltb_spec b (msg_value m)) as [|Hb]; [intros [= <- <-]; by apply keeps_mints|].
  pose proof (get_nonce_keeps (msg_sender m) s0) as K1. destruct (get_nonce (msg_sender m) s0) as [n s1]. cbn [snd] in K1.
  set (a := new_contract_address m n). set (s2 := set_nonce (msg_sender m) (u64 (n + 1)) s1).
  pose proof (set_nonce_bal (msg_sender m) (u64 (n + 1)) s1) as E2. fold s2 in E2.
  pose proof (set_nonce_mints (msg_sender m) (u64 (n + 1)) s1) as M2. fold s2 in M2.
  pose proof (access_account_keeps a s2) as K3. destruct (access_account a s2) as [status s3]. cbn [snd] in K3.
  pose proof (address_taken_keeps a s3) as K4. destruct (address_taken a s3) as [taken s4]. cbn [snd] in K4.
  assert (mints 0 (state e) s4) as M4.
  { eapply mints_keeps; [|exact K4]. eapply mints_keeps; [|exact K3].
    eapply keeps_then; [|exact M2]. by eapply keeps_trans. }
  destruct taken; [by intros [= <- <-]|].
  assert (bal s4 (msg_sender m) = b) as Eb4.
  { subst b. unfold bal at 1. rewrite K4, K3. change (bal s2 (msg_sender m) = bal (state e) (msg_sender m)).
    rewrite E2. unfold bal. by rewrite K1, K0. }
  pose proof (creation_transfer_mints (evm_revision e) m a s4 ltac:(rewrite Eb4; done)) as M6.
  set (s6 := add_to_balance a (msg_value m) _) in *.
  destruct (exec _ (msg_input m) None (with_state s6 e)) as [[r0 e0]|[]|] eqn:Ex; cbn [result_bind]; [|done..].
  pose proof (Hev _ _ _ _ _ _ Ex) as V. apply Hexec in Ex; [|by apply unsigned_with_state]. rewrite state_with_state in Ex.
  pose proof (deploy_code_mints (evm_revision e) a r0 (state e0)) as M7.
  pose proof (deploy_code_runs (evm_revision e) a r0 (state e0)) as R7.
  destruct (deploy_code (evm_revision e) a r0 (state e0)) as [r1 s7]. cbn [snd] in *.
  case_decide; intros [= <- <-].
  - rewrite state_with_state. replace 0 with (0 + (0 + (0 + 0))) by lia. eapply mints_trans; [exact M4|].
    eapply mints_trans; [exact M6|]. by eapply mints_trans.
  - rewrite state_with_state. eapply mints_keeps; [exact M4|]. apply quiet_keeps, reverted_is_quiet; [apply quiet_refl|].
    eapply runs_trans; [|exact R7]. eapply runs_trans; [|apply (ev_runs _ _ V)]. rewrite state_with_state. unfold s6.
    eapply runs_trans; [|apply add_to_balance_runs]. eapply runs_trans; [|apply subtract_from_balance_runs].
    eapply runs_trans; [apply create_contract_runs|]. case_match; [apply set_nonce_runs|apply runs_refl].
Qed.

(** ** The host's answers and runs of code *)

Lemma on_state_state {A} (f : IBS -> A * IBS) e : state (snd (on_state f e)) = snd (f (state e)).
Proof. unfold on_state. by destruct (f (state e)). Qed.

Lemma on_state_keeps {A} (f : IBS -> A * IBS) e :
  (forall s, keeps s (snd (f s))) -> keeps (state e) (state (snd (on_state f e))).
Proof. intros Hf. rewrite on_state_state. apply Hf. Qed.

Lemma is_dead_keeps a s : keeps s (snd (is_dead a s)).
Proof.
  pose proof (quiet_keeps _ _ (get_object_is_quiet a s)) as K. unfold is_dead. by destruct (get_object a s).
Qed.

Lemma refunds_keep e e' :
  objects (state e') = objects (state e) -> db (state e') = db (state e) -> keeps (state e) (state e').
Proof. intros Eo Ed. apply keeps_objects. intros a. unfold view_object. by rewrite Eo, Ed. Qed.

Lemma host_set_storage_keeps a k v e : keeps (state e) (state (snd (host_set_storage a k v e))).
Proof.
  unfold host_set_storage. rewrite on_state_eq. unfold get_current_storage, get_original_storage.
  pose proof (get_storage_keeps a k false (state e)) as K1. destruct (get_storage a k false (state e)) as [cur s1].
  cbn [fst snd] in *. destruct (bytes_eqb cur v); [exact K1|].
  assert (keeps (state e) (IntraBlockState.set_storage a k v s1)) as K2 by (eapply keeps_trans; [exact K1|apply set_storage_keeps]).
  set (e2 := update_state _ _). assert (keeps (state e) (state e2)) as K2' by exact K2. clearbody e2.
  destruct (negb _); [repeat case_match; cbn [snd]; try exact K2'; (eapply keeps_trans; [exact K2'|by apply refunds_keep])|].
  rewrite on_state_eq. pose proof (get_storage_keeps a k true (state e2)) as K3.
  destruct (get_storage a k true (state e2)) as [orig s3]. cbn [fst snd] in *.
  assert (keeps (state e) (state (with_state s3 e2))) as K3' by (by eapply keeps_trans).
  set (e3 := with_state s3 e2) in *. clearbody e3.
  repeat case_match; cbn [snd]; try exact K3'; (eapply keeps_trans; [exact K3'|by apply refunds_keep]).
Qed.

(** What an account destroys itself with is moved, or gone when it is its own beneficiary. *)
Lemma selfdestruct_mints a b e : mints 0 (state e) (state (selfdestruct a b e)).
Proof.
  unfold selfdestruct. set (e1 := update_state (record_suicide a) e). rewrite on_state_eq, get_balance_bal.
  pose proof (get_balance_keeps a (state e1)) as K2. set (s2 := snd (get_balance a (state e1))) in *.
  assert (keeps (state e) s2) as K by (eapply keeps_trans; [apply record_suicide_keeps|exact K2]).
  assert (bal (state e1) a = bal s2 a) as -> by (unfold bal; by rewrite K2).
  eapply keeps_then; [exact K|].
  change (mints 0 s2 (set_balance a 0 (add_to_balance b (bal s2 a) s2))). apply move_balance_mints.
Qed.

Lemma answer_mints exec {A} (c : HostCall A) e x e' :
  evolving exec -> conserving exec -> unsigned_machine e ->
  match c with HCall m => 0 <= msg_value m | _ => True end ->
  answer exec c e = Ok (x, e') -> mints 0 (state e) (state e').
Proof.
  intros Hev Hexec Hu Hc.
  assert (forall (f : EVM -> A * EVM), (forall e, keeps (state e) (state (snd (f e)))) ->
            Ok (E := Halt) (f e) = Ok (x, e') -> mints 0 (state e) (state e')) as Hkeep.
  { intros f Hf [= E]. apply keeps_mints. specialize (Hf e). by rewrite E in Hf. }
  destruct c; cbn [answer].
  - apply Hkeep. clear. intros e. unfold account_exists. case_match.
    + pose proof (on_state_keeps (is_dead address) e (is_dead_keeps address)) as K. by destruct (on_state _ _).
    + apply on_state_keeps. intros s. apply quiet_keeps, exists_is_quiet.
  - apply Hkeep. clear. intros e. unfold host_access_account. case_match; [done|].
    apply on_state_keeps. intros s. apply access_account_keeps.
  - apply Hkeep. intros e0. apply on_state_keeps. intros s. apply access_storage_keeps.
  - apply Hkeep. intros e0. apply on_state_keeps. intros s. apply get_storage_keeps.
  - apply Hkeep. intros e0. apply host_set_storage_keeps.
  - apply Hkeep. intros e0. apply on_state_keeps. intros s. apply get_balance_keeps.
  - apply Hkeep. clear. intros e. unfold get_code_size.
    pose proof (on_state_keeps (get_code address) e (get_code_keeps address)) as K. by destruct (on_state _ _).
  - apply Hkeep. clear. intros e. unfold host_get_code_hash.
    pose proof (on_state_keeps (is_dead address) e (is_dead_keeps address)) as K.
    destruct (on_state _ _) as [dead e1]. destruct dead; [exact K|]. eapply keeps_trans; [exact K|].
    apply on_state_keeps. intros s. apply get_code_hash_keeps.
  - apply Hkeep. clear. intros e. unfold copy_code.
    pose proof (on_state_keeps (get_code address) e (get_code_keeps address)) as K. destruct (on_state _ _) as [code e1].
    by case_match.
  - intros [= _ <-]. apply selfdestruct_mints.
  - unfold host_call. pose proof (fun r e1 => call_mints exec message e r e1 Hev Hexec Hu Hc) as Hcall.
    pose proof (fun r e1 => create_mints exec message e r e1 Hev Hexec Hu Hc) as Hcreate.
    destruct (msg_kind message); eauto; (destruct (create exec message e) as [[r0 e0]|[]|]; cbn [result_bind]; [|done..]);
      case_decide; intros [= _ <-]; eauto.
  - destruct (get_tx_context e); cbn [result_bind]; [|done..]. intros [= _ <-]. by apply keeps_mints.
  - intros E. apply keeps_mints. unfold get_block_hash in E. repeat (case_in E; try done); by injection E as _ <-.
  - intros [= _ <-]. apply keeps_mints. by apply refunds_keep.
Qed.

Lemma interpret_mints exec t e r e' :
  evolving exec -> conserving exec -> unsigned_machine e -> unsigned t ->
  interpret exec t e = Ok (r, e') -> mints 0 (state e) (state e').
Proof.
  intros Hev Hexec Hu Ht. revert e Hu. induction Ht as [r0|A c k Hc Hk IH]; intros e Hu; cbn [interpret].
  - intros [= _ <-]. by apply keeps_mints.
  - destruct (answer exec c e) as [[x e1]|[]|] eqn:E; cbn [result_bind]; [|done..]. intros Hi.
    pose proof (answer_evolving exec c e x e1 Hev E) as V. apply answer_mints in E; [|done..].
    apply IH in Hi; [|by eapply evolves_unsigned]. replace 0 with (0 + 0) by lia. by eapply mints_trans.
Qed.

Lemma acquire_state_state e : state (snd (acquire_state e)) = state e /\ exo_evm (snd (acquire_state e)) = exo_evm e.
Proof. unfold acquire_state. case_match; [|done]. by destruct (pool_acquire _ _). Qed.

Lemma release_state_state st e : state (release_state st e) = state e.
Proof. unfold release_state. by case_match. Qed.

Lemma find_analysis_state rev code h e :
  state (snd (find_analysis rev code h e)) = state e /\ exo_evm (snd (find_analysis rev code h e)) = exo_evm e.
Proof. unfold find_analysis. repeat case_match; done. Qed.

Lemma execute_conserving fuel : conserving (execute fuel).
Proof.
  induction fuel as [|fuel IH]; intros m code h e r e' Hu; cbn [execute]; [done|].
  set (e0 := with_address_stack _ e). pose proof (execute_evolving fuel) as Hev.
  assert (unsigned_machine e0) as Hu0 by exact Hu.
  assert (forall t st e1 r1 e2, unsigned_machine e1 -> state e1 = state e -> unsigned t ->
            (try (res, e2) := interpret (execute fuel) t e1 in Ok (E := Halt) (res, release_state st e2)) = Ok (r1, e2) ->
            mints 0 (state e) (state e2)) as Hrun.
  { intros t st e1 r1 e2 Hu1 Es Ht. destruct (interpret _ t e1) as [[r2 e3]|[]|] eqn:Ei; cbn [result_bind]; [|done..].
    intros [= _ <-]. rewrite release_state_state, <- Es. by eapply interpret_mints. }
  match goal with |- (try _ := ?t in _) = _ -> _ =>
    assert (forall r1 e1, t = Ok (r1, e1) -> mints 0 (state e) (state e1)) as Ht end.
  { intros r1 e1. pose proof Hu0 as Hu1. unfold unsigned_machine in Hu1.
    destruct (exo_evm e0) as [vm|] eqn:Ev; [intros Ei; eapply (interpret_mints _ _ e0); [done|done|exact Hu0|apply Hu1|exact Ei]|].
    assert (forall e2, exo_evm e2 = exo_evm e0 -> unsigned_machine e2) as Hu2
      by (intros e2 E2; unfold unsigned_machine; rewrite E2, Ev; exact Hu1).
    destruct (analysis_cache e0).
    - unfold execute_with_default_interpreter.
      destruct (find_analysis_state (evm_revision e0) code h e0) as [Es1 Ex1]. destruct (find_analysis _ _ _ _) as [an e2].
      destruct (acquire_state_state e2) as [Es2 Ex2]. destruct (acquire_state e2) as [st e3]. cbn [snd] in *.
      apply Hrun; [apply Hu2; congruence|by rewrite Es2, Es1|apply Hu1].
    - unfold execute_with_baseline_interpreter.
      destruct (acquire_state_state e0) as [Es2 Ex2]. destruct (acquire_state e0) as [st e3]. cbn [snd] in *.
      apply Hrun; [by apply Hu2|by rewrite Es2|apply Hu1]. }
  destruct (match exo_evm e0 with Some vm => _ | None => _ end) as [[r1 e1]|[]|]; cbn [result_bind]; [|done..].
  intros [= _ <-]. exact (Ht r1 e1 eq_refl).
Qed.

End Machine.
