(* ===== verification/ProcessorCorrect.v ===== *)
(** * ProcessorCorrect: what the execution of transactions and blocks promises

    Execution ends with a result; the gas of a block is accounted for within its limit; and ether is only
    created by the rewards: gas is paid from the sender's balance, refunded to it and paid to the miner,
    without a wei more. *)

From S2P Require Import Prelude Util Keccak Ecdsa Ethash Rlp Account Transaction Block HashBuilder Chain MemoryBuffer.
From S2P Require Import Validity IntraBlockState StateCorrect BlockState Cache Precompiled Evm EvmCorrect EvmTheorems Supply.
From S2P Require Import Processor.
Local Open Scope Z_scope.
Local Open Scope silk_scope.

(** What a step keeps, a loop keeps. *)
Lemma foldl_keeps {A X C} (P : A -> C) (f : A -> X -> A) (l : list X) (s : A) :
  (forall s x, P (f s x) = P s) -> P (foldl f s l) = P s.
Proof. intros Hf. revert s. induction l as [|x l IH]; intros s; [done|]. cbn [foldl]. by rewrite IH, Hf. Qed.

Section Balances.
Context {B : Type} `{StateBuffer B}.
Notation IBS := (IntraBlockState B).
Implicit Types (s : IBS) (a : bytes).

Lemma total_mono D f g : (forall a, f a <= g a) -> total D f <= total D g.
Proof.
  intros Hle. unfold total. induction (elements D) as [|a l IH]; cbn; [done|]. specialize (Hle a).
  unfold sum_list in *. lia.
Qed.

Lemma shrinking_mints s s' : (forall a, bal s' a = bal s a \/ bal s' a = 0) -> mints 0 s s'.
Proof.
  intros Hs Hok. assert (forall a, 0 <= bal s' a <= bal s a) as Hle by (intros a; specialize (Hok a); destruct (Hs a); lia).
  split; [intros a; specialize (Hok a); specialize (Hle a); lia|]. exists ∅. intros D _.
  pose proof (total_mono D (bal s') (bal s) (fun a => proj2 (Hle a))). lia.
Qed.

Lemma destruct_suicides_mints s : mints 0 s (destruct_suicides s).
Proof.
  destruct (destructs_foldl (elements (self_destructs s)) s) as (Hgone & Hkeep & _). apply shrinking_mints. intros a. unfold destruct_suicides.
  destruct (decide (a ∈ elements (self_destructs s))) as [Ha|Ha].
  - right. unfold bal. by rewrite (Hgone a Ha).
  - left. unfold bal, view_account. by rewrite (proj1 (Hkeep a Ha)).
Qed.

Lemma destruct_touched_dead_mints s : mints 0 s (destruct_touched_dead s).
Proof.
  destruct (destruct_touched_dead_foldl (elements (touched s)) s (NoDup_elements _)) as (Hv & _).
  apply shrinking_mints. intros a. unfold bal. unfold destruct_touched_dead. rewrite Hv. case_decide; [by right|by left].
Qed.

Lemma transfer_balances_mints s : mints 0 s (transfer_balances s).
Proof.
  unfold transfer_balances. generalize kChildren. intros l. revert s.
  induction l as [|a l IH]; intros s; [by apply keeps_mints|]. cbn [foldl].
  pose proof (get_balance_keeps a s) as K. pose proof (get_balance_bal a s) as Eb.
  destruct (get_balance a s) as [b s1]. cbn [fst snd] in *.
  replace 0 with (0 + 0) by lia. eapply mints_trans; [|apply IH]. eapply keeps_then; [exact K|].
  subst b. assert (bal s a = bal s1 a) as -> by (unfold bal; by rewrite K). apply move_balance_mints.
Qed.

(** ** Rewards *)

(** What a block may create: the reward, the share for each ommer included, and the ommers' own. *)
Definition rewards (rev : Z) (block : Block) : Z :=
  let r := block_reward_of rev in
  r + zlen (ommers (body block)) * (r / 32)
  + sum_list (map (fun o => (8 - (number (header block) - number o)) * r / 8) (ommers (body block))).

Lemma block_reward_range rev : 0 <= block_reward_of rev < 2 ^ 63.
Proof. unfold block_reward_of. repeat case_match; vm_compute; split; congruence. Qed.

Lemma reward_ommers_mints n r os : forall s m,
  0 <= r < 2 ^ 63 -> 0 <= m -> Forall (fun o => 1 <= n - number o <= 7) os ->
  let '(s', m') := foldl (reward_ommer n r) (s, m) os in
  mints (sum_list (map (fun o => (8 - (n - number o)) * r / 8) os)) s s' /\ 0 <= m' <= m + zlen os * (r / 32).
Proof.
  induction os as [|o os IH]; intros s m Hr Hm Hos; [split; [by apply keeps_mints|cbn; lia]|].
  apply Forall_cons in Hos as [Ho Hos]. cbn [foldl reward_ommer map sum_list foldr].
  pose proof (Z.div_pos r 32 ltac:(lia) ltac:(lia)) as Hq.
  rewrite u64_small by lia. replace (8 + number o - n) with (8 - (n - number o)) by lia.
  rewrite u256_small by nia. rewrite Z.shiftr_div_pow2 by lia. change (2 ^ 3) with 8.
  set (x := (8 - (n - number o)) * r / 8). assert (0 <= x) as Hx by (apply Z.div_pos; nia).
  pose proof (u256_le (m + r / 32) ltac:(lia)) as Hu.
  specialize (IH (add_to_balance (beneficiary o) x s) (u256 (m + r / 32)) Hr ltac:(lia) Hos).
  destruct (foldl _ _ os) as [s' m']. destruct IH as [IH Hm']. split; [|cbn [length]; lia].
  eapply mints_trans; [by apply add_to_balance_mints|exact IH].
Qed.

End Balances.

Section Machine.
Context {B : Type} `{StateBuffer B} `{Evmone} `{Secp256k1} `{Gmp} `{Libff}.
Notation IBS := (IntraBlockState B).
Notation EVM := (EVM (B := B)).
Notation ExecutionProcessor := (ExecutionProcessor (B := B)).
Implicit Types (e : EVM) (s : IBS) (p : ExecutionProcessor) (a : bytes).

(** ** The refund counter *)

Lemma get_or_create_refund a s : let '(_, _, s') := get_or_create_object a s in refund s' = refund s.
Proof. unfold get_or_create_object. rewrite get_object_eq. repeat case_match; simplify_eq; done. Qed.

Lemma update_current_refund f a s : refund (update_current f a s) = refund s.
Proof.
  unfold update_current. pose proof (get_or_create_refund a s) as Hr. destruct (get_or_create_object a s) as [[o acc] s1].
  exact Hr.
Qed.

Lemma touch_refund a s : refund (touch a s) = refund s.
Proof. unfold touch. by case_match. Qed.

Lemma run_operation_refund o s : 0 <= refund s < 2 ^ 64 -> 0 <= refund (run_operation o s) < 2 ^ 64.
Proof.
  intros Hr. destruct o; cbn [run_operation];
    try (unfold set_balance, add_to_balance, subtract_from_balance; by rewrite touch_refund, update_current_refund);
    try (unfold set_nonce; by rewrite update_current_refund).
  - by rewrite get_object_eq.
  - rewrite create_contract_eq. unfold drop_storage, created_state. rewrite get_object_eq. cbn. by case_match.
  - unfold record_suicide. by case_match.
  - by rewrite touch_refund.
  - unfold get_code. rewrite get_object_eq. unfold find_code. repeat case_match; done.
  - unfold set_code. case_match; cbn; by rewrite update_current_refund.
  - unfold access_account. by case_match.
  - unfold access_storage. by case_match.
  - by rewrite get_storage_refund.
  - by rewrite set_storage_refund.
  - done.
  - apply u64_range.
  - apply u64_range.
Qed.

Lemma runs_refund s s' : runs s s' -> 0 <= refund s < 2 ^ 64 -> 0 <= refund s' < 2 ^ 64.
Proof.
  induction 1 as [s|s s1 o _ IH|s s1 s2 _ IH1 R12 IH2]; intros Hr; [done| |].
  - by apply run_operation_refund, IH.
  - destruct (revert_to_snapshot_spec s1 s2 (runs_undoable _ _ R12)) as (_ & _ & _ & ->). by apply IH1.
Qed.

(** ** The buffer behind the state *)

Lemma update_current_db f a s : db (update_current f a s) = db s.
Proof.
  unfold update_current, get_or_create_object. rewrite get_object_eq. repeat case_match; simplify_eq; done.
Qed.

Lemma touch_db a s : db (touch a s) = db s.
Proof. unfold touch. by case_match. Qed.

Lemma run_operation_db o s : db (run_operation o s) = db s.
Proof.
  destruct o; cbn [run_operation];
    try (unfold set_balance, add_to_balance, subtract_from_balance; by rewrite touch_db, update_current_db);
    try (unfold set_nonce; by rewrite update_current_db); try done.
  - by rewrite get_object_eq.
  - rewrite create_contract_eq. unfold drop_storage, created_state. rewrite get_object_eq. cbn. by case_match.
  - unfold record_suicide. by case_match.
  - by rewrite touch_db.
  - unfold get_code. rewrite get_object_eq. unfold find_code. repeat case_match; done.
  - unfold set_code. case_match; cbn; by rewrite update_current_db.
  - unfold access_account. by case_match.
  - unfold access_storage. by case_match.
  - apply (rs_db _ _ (proj1 (proj2 (get_storage_spec a k original s)))).
  - rewrite set_storage_eq. cbv zeta. pose proof (rs_db _ _ (proj1 (proj2 (get_storage_spec a k false s)))). by case_match.
Qed.

Lemma runs_db s s' : runs s s' -> db s' = db s.
Proof.
  induction 1 as [s|s s1 o _ IH|s s1 s2 _ IH1 R12 IH2]; [done| |].
  - by rewrite run_operation_db.
  - destruct (revert_to_snapshot_spec s1 s2 (runs_undoable _ _ R12)) as (R & _). by rewrite (rs_db _ _ R).
Qed.

(** ** The context of a block, which no transaction changes *)

Record context (e e' : EVM) : Prop := {
  cx_block : evm_block e' = evm_block e;
  cx_config : config e' = config e;
  cx_vm : exo_evm e' = exo_evm e;
  cx_cache : analysis_cache e = None -> analysis_cache e' = None
}.

Lemma context_refl e : context e e.
Proof. by split. Qed.

Lemma context_trans e e1 e2 : context e e1 -> context e1 e2 -> context e e2.
Proof. intros [] []. split; [congruence..|eauto]. Qed.

Lemma evolves_context e e' : evolves e e' -> context e e'.
Proof. by intros []. Qed.

Lemma update_context f e : context e (update_state f e).
Proof. by split. Qed.

Lemma context_revision e e' : context e e' -> evm_revision e' = evm_revision e.
Proof. intros []. unfold evm_revision. congruence. Qed.

(** The interpreter keeps the rules of EVMC, and its messages carry unsigned values. *)
Definition evm_ok (e : EVM) : Prop := interpreter_ok e /\ unsigned_machine e /\ 0 <= base_number e < 2 ^ 64.

Lemma context_ok e e' : context e e' -> evm_ok e -> evm_ok e'.
Proof.
  intros [] (Hi & Hu & Hb). unfold evm_ok, interpreter_ok, unsigned_machine, base_number in *.
  rewrite cx_block0, cx_vm0. split; [|by split]. destruct (exo_evm e); [exact Hi|].
  destruct Hi as [Hc Hi]. split; [by apply cx_cache0|exact Hi].
Qed.

(** ** Transactions *)

(** The fields of a transaction fit, the sender is recovered, and the checks before execution hold. *)
Record txn_ok (rev : Z) (txn : Transaction) : Prop := {
  to_price : 0 <= gas_price txn < 2 ^ 256;
  to_value : 0 <= value txn < 2 ^ 256;
  to_data : bytes_ok (data txn);
  to_recipient : forall dst, txn_to txn = Some dst -> bytes_ok dst /\ length dst = 20%nat;
  to_sender : txn_from txn <> None;
  to_limit : gas_limit txn < 2 ^ 64;
  to_gas : 21000 <= intrinsic_gas txn (EVMC_HOMESTEAD <=? rev) (EVMC_ISTANBUL <=? rev) <= gas_limit txn
}.

Lemma evm_execute_evolves txn gas e r e' : evm_execute txn gas e = Ok (r, e') -> evolves (with_txn txn e) e'.
Proof.
  unfold evm_execute, evm_execute_with. destruct (txn_from txn) as [from|]; [|done].
  destruct ((if txn_to txn then call else create) _ _ _) as [[r0 e0]|[]|] eqn:E; cbn [result_bind]; [|done..].
  intros [= _ <-]. pose proof (execute_evolving kCallFuel) as Hev.
  destruct (txn_to txn); [by eapply call_spec|by eapply create_spec].
Qed.

Lemma evm_execute_mints txn gas e r e' :
  unsigned_machine e -> 0 <= value txn -> evm_execute txn gas e = Ok (r, e') -> mints 0 (state e) (state e').
Proof.
  intros Hu Hv. unfold evm_execute, evm_execute_with. destruct (txn_from txn) as [from|]; [|done].
  destruct ((if txn_to txn then call else create) _ _ _) as [[r0 e0]|[]|] eqn:E; cbn [result_bind]; [|done..].
  intros [= _ <-]. pose proof (execute_evolving kCallFuel) as Hev. pose proof (execute_conserving kCallFuel) as Hc.
  assert (unsigned_machine (with_txn txn e)) as Hu' by exact Hu.
  destruct (txn_to txn).
  - refine (call_mints _ _ _ _ _ Hev Hc Hu' _ E). exact Hv.
  - refine (create_mints _ _ _ _ _ Hev Hc Hu' _ E). exact Hv.
Qed.

Lemma validate_transaction_spec txn p r p' from :
  txn_from txn = Some from -> validate_transaction txn p = (r, p') ->
  keeps (state (evm_ p)) (state (evm_ p')) /\ context (evm_ p) (evm_ p') /\ cumulative_gas_used_ p' = cumulative_gas_used_ p
  /\ (r = kOk ->
      wrap 512 (gas_limit txn * gas_price txn + value txn) <= bal (state (evm_ p)) from
      /\ gas_limit txn <= available_gas p).
Proof.
  intros Hf. unfold validate_transaction. rewrite Hf.
  pose proof (get_nonce_keeps from (state (evm_ p))) as K1. destruct (get_nonce from (state (evm_ p))) as [n s1].
  cbn [snd] in K1. destruct (negb _); [intros [= <- <-]; by split_and!|].
  pose proof (get_balance_keeps from s1) as K2. pose proof (get_balance_bal from s1) as Eb.
  destruct (get_balance from s1) as [b s2]. cbn [fst snd] in *.
  assert (b = bal (state (evm_ p)) from) as -> by (rewrite Eb; unfold bal; by rewrite K1).
  assert (keeps (state (evm_ p)) s2) as K by (by eapply keeps_trans).
  destruct (Z.ltb_spec (bal (state (evm_ p)) from) (wrap 512 (gas_limit txn * gas_price txn + value txn)));
    [intros [= <- <-]; by split_and!|].
  set (p1 := with_evm _ p). assert (available_gas p1 = available_gas p) as Ea by done. rewrite Ea.
  destruct (Z.ltb_spec (available_gas p) (gas_limit txn)); intros [= <- <-]; by split_and!.
Qed.

(** Warming the access list keeps what every access keeps. *)
Lemma warm_access_list_keep {C} (P : IBS -> C) txn s :
  (forall a s, P (snd (access_account a s)) = P s) -> (forall a k s, P (snd (access_storage a k s)) = P s) ->
  P (warm_access_list txn s) = P s.
Proof.
  intros Ha Hk. unfold warm_access_list. apply (foldl_keeps P). intros s0 ae.
  rewrite (foldl_keeps P); [apply Ha|]. intros s1 k. apply Hk.
Qed.

Lemma warm_access_list_keeps txn s : keeps s (warm_access_list txn s).
Proof.
  intros a. apply (warm_access_list_keep (view_account a)).
  - intros a' s'. apply access_account_keeps.
  - intros a' k s'. apply access_storage_keeps.
Qed.

Lemma buy_gas_mints txn from s :
  0 <= gas_limit txn * gas_price txn <= bal s from -> bal s from < 2 ^ 256 ->
  mints (- (gas_limit txn * gas_price txn)) s (buy_gas txn from s).
Proof.
  intros Hc Hb. unfold buy_gas. eapply mints_keeps; [|apply warm_access_list_keeps].
  set (s1 := snd (access_account from (clear_journal_and_substate s))).
  assert (keeps s s1) as K1 by (intros a; unfold s1; by rewrite access_account_keeps).
  rewrite u256_small by lia. set (s2 := subtract_from_balance from _ s1).
  assert (mints (- (gas_limit txn * gas_price txn)) s s2) as M2.
  { eapply keeps_then; [exact K1|]. apply subtract_from_balance_mints. unfold bal at 1. rewrite K1. exact Hc. }
  destruct (txn_to txn) as [to|]; [|exact M2].
  rewrite <- (Z.add_0_r (- _)). eapply mints_trans; [|apply set_nonce_mints].
  eapply mints_keeps; [exact M2|apply access_account_keeps].
Qed.

(** The refund: at most half of what was used. *)
Lemma refund_gas_spec txn from left e g e' :
  0 <= left <= gas_limit txn -> gas_limit txn < 2 ^ 63 -> 0 <= refund (state e) < 2 ^ 64 -> 0 <= gas_price txn ->
  refund_gas txn from left e = (g, e') ->
  left <= g <= left + (gas_limit txn - left) / 2
  /\ mints (g * gas_price txn) (state e) (state e') /\ context e e'.
Proof.
  intros Hl Hlim Hr Hp. unfold refund_gas. intros [= Eg Ee].
  set (r := if evm_revision e <? EVMC_LONDON then _ else _) in *. set (q := if EVMC_LONDON <=? evm_revision e then _ else _) in *.
  assert (0 <= r) as Hr0 by (unfold r; case_match; [apply u64_range|lia]).
  assert (2 <= q) as Hq by (unfold q; case_match; by vm_compute).
  rewrite (u64_small (gas_limit txn - left)) in Eg, Ee by lia.
  assert (0 <= (gas_limit txn - left) / q <= (gas_limit txn - left) / 2) as Hm.
  { split; [apply Z.div_pos; lia|]. apply Z.div_le_compat_l; lia. }
  assert ((gas_limit txn - left) / 2 <= gas_limit txn - left) as Hm2 by (apply Z.div_le_upper_bound; lia).
  rewrite u64_small in Eg, Ee by lia. rewrite Eg in Ee.
  split; [lia|]. rewrite <- Ee. split; [|apply update_context].
  pose proof (u256_le (g * gas_price txn) ltac:(nia)) as Hu.
  eapply (mints_weaken (u256 (g * gas_price txn))); [lia|]. apply add_to_balance_mints. lia.
Qed.

Lemma access_account_refund a s : refund (snd (access_account a s)) = refund s.
Proof. unfold access_account. by case_match. Qed.
Lemma access_storage_refund a k s : refund (snd (access_storage a k s)) = refund s.
Proof. unfold access_storage. by case_match. Qed.
Lemma clear_refund txn from s : refund (buy_gas txn from s) = 0.
Proof.
  unfold buy_gas. rewrite (warm_access_list_keep refund) by (apply access_account_refund || apply access_storage_refund).
  assert (forall s, refund (subtract_from_balance from (u256 (gas_limit txn * gas_price txn)) s) = refund s) as Hs
    by (intros s0; unfold subtract_from_balance; by rewrite touch_refund, update_current_refund).
  destruct (txn_to txn); [unfold set_nonce; rewrite update_current_refund, access_account_refund|];
    by rewrite Hs, access_account_refund.
Qed.

(** ** Execution goes through the states of a block, and does not write the buffer *)

Definition block_steps (s s' : IBS) : Prop := forall d, block_reaches d s -> block_reaches d s'.

#[local] Instance block_steps_preorder : PreOrder block_steps.
Proof. split; [by intros s d|]. intros s1 s2 s3 H12 H23 d Hd. by apply H23, H12. Qed.

Lemma runs_steps s s' : runs s s' -> block_steps s s'.
Proof.
  intros R d Hd. induction R as [s|s s1 o _ IH|s s1 s2 _ IH1 R12 _]; [done| |].
  - apply reach_operation. by apply IH.
  - apply reach_reverted; [by apply IH1|done].
Qed.

Lemma foldl_steps {X} (f : IBS -> X -> IBS) l : (forall s x, block_steps s (f s x)) -> forall s, block_steps s (foldl f s l).
Proof. intros Hf. induction l as [|x l IH]; intros s; [done|]. cbn [foldl]. etransitivity; [apply Hf|apply IH]. Qed.

Lemma reaches_db d s : block_reaches d s -> db s = d.
Proof.
  induction 1 as [|s o _ IH|s s' _ IH R|s _ IH|s _ IH|s _ IH|s _ IH]; [done|..].
  - by rewrite run_operation_db.
  - destruct (revert_to_snapshot_spec s s' (runs_undoable _ _ R)) as (Rs & _). by rewrite (rs_db _ _ Rs).
  - rewrite <- IH. apply (destructs_foldl (elements (self_destructs s)) s).
  - rewrite <- IH. apply (destruct_touched_dead_foldl (elements (touched s)) s (NoDup_elements _)).
  - done.
  - done.
Qed.

#[local] Hint Resolve add_to_balance_runs subtract_from_balance_runs set_balance_runs set_nonce_runs access_account_runs
  access_storage_runs get_nonce_runs get_balance_runs runs_steps : steps.

Lemma buy_gas_steps txn from s : block_steps s (buy_gas txn from s).
Proof.
  unfold buy_gas. set (s1 := subtract_from_balance _ _ _).
  assert (block_steps s s1) as S1.
  { intros d Hd. eapply runs_steps; [apply subtract_from_balance_runs|].
    eapply runs_steps; [apply access_account_runs|]. by apply reach_clear. }
  transitivity (match txn_to txn with
                | Some to => set_nonce from (u64 (txn_nonce txn + 1)) (snd (access_account to s1)) | None => s1 end).
  - destruct (txn_to txn) as [to|]; [|done]. transitivity s1; [done|].
    transitivity (snd (access_account to s1)); auto with steps.
  - unfold warm_access_list. apply foldl_steps. intros s2 ae.
    transitivity (snd (access_account (Transaction.account ae) s2)); [auto with steps|].
    apply foldl_steps. intros s3 k. auto with steps.
Qed.

Lemma execute_transaction_steps txn p r p' :
  execute_transaction txn p = Ok (r, p') -> block_steps (state (evm_ p)) (state (evm_ p')).
Proof.
  unfold execute_transaction. destruct (txn_from txn) as [from|]; [|done]. set (e0 := update_state _ (evm_ p)).
  destruct (evm_execute txn _ e0) as [[r0 e1]|[]|] eqn:E; cbn [result_bind]; [|done..].
  apply evm_execute_evolves in E as V.
  destruct (refund_gas txn from (call_gas_left r0) e1) as [g e2] eqn:Eg.
  assert (block_steps (state (evm_ p)) (state e2)) as S2.
  { transitivity (state e0); [apply buy_gas_steps|]. transitivity (state e1); [apply runs_steps, V|].
    unfold refund_gas in Eg. injection Eg as _ <-. cbn [state update_state with_state]. auto with steps. }
  intros [= _ <-]. cbn [evm_]. intros d Hd%S2.
  case_match; cbn [state update_state with_state]; apply reach_finalize; [apply reach_destruct_touched_dead|];
    apply reach_destruct_suicides; by eapply runs_steps; [apply add_to_balance_runs|].
Qed.

Lemma validate_transaction_steps txn p : block_steps (state (evm_ p)) (state (evm_ (snd (validate_transaction txn p)))).
Proof.
  unfold validate_transaction. destruct (txn_from txn) as [from|]; [|done].
  pose proof (get_nonce_runs from (state (evm_ p))) as R1. destruct (get_nonce _ _) as [n s1].
  destruct (negb _); [by apply runs_steps|]. pose proof (get_balance_runs from s1) as R2.
  destruct (get_balance from s1) as [b s2]. cbn [snd] in *.
  repeat case_match; cbn; (transitivity s1; by apply runs_steps).
Qed.

Lemma execute_transactions_steps txns : forall p rs err p',
  execute_transactions txns p = Ok (rs, err, p') -> block_steps (state (evm_ p)) (state (evm_ p')).
Proof.
  induction txns as [|txn txns IH]; intros p rs err p'; cbn [execute_transactions]; [by intros [= _ _ <-]|].
  pose proof (validate_transaction_steps txn p) as D1. destruct (validate_transaction txn p) as [err1 p1]. cbn [snd] in D1.
  case_bool_decide; cbn [negb]; [|by intros [= _ _ <-]].
  destruct (execute_transaction txn p1) as [[r p2]|[]|] eqn:E; cbn [result_bind]; [|done..].
  apply execute_transaction_steps in E.
  destruct (execute_transactions txns p2) as [[[rs2 err2] p3]|[]|] eqn:E2; cbn [result_bind]; [|done..].
  apply IH in E2. intros [= _ _ <-]. etransitivity; [exact D1|]. by etransitivity.
Qed.

Lemma transfer_balances_steps s : block_steps s (transfer_balances s).
Proof.
  unfold transfer_balances. apply foldl_steps. intros s0 a.
  pose proof (get_balance_runs a s0) as R. destruct (get_balance a s0) as [b s1]. cbn [snd] in R.
  transitivity s1; [by apply runs_steps|]. transitivity (add_to_balance kWithdraw b s1); auto with steps.
Qed.

Lemma apply_rewards_steps e : block_steps (state e) (state (apply_rewards e)).
Proof.
  unfold apply_rewards. destruct (foldl _ _ _) as [s m] eqn:E. cbn [state with_state].
  transitivity s; [|auto with steps]. change s with (fst (s, m)). rewrite <- E.
  generalize (ommers (body (evm_block e))), (block_reward_of (evm_revision e)) at 2. intros os m0. clear E s m.
  generalize (state e). revert m0. induction os as [|o os IH]; intros m0 s; [done|]. cbn [foldl].
  etransitivity; [|apply IH]. auto with steps.
Qed.

Lemma processor_execute_block_steps p rs err p' :
  processor_execute_block p = Ok (rs, err, p') -> block_steps (state (evm_ p)) (state (evm_ p')).
Proof.
  unfold processor_execute_block. set (e := if bool_decide _ then update_state transfer_balances (evm_ p) else evm_ p).
  assert (block_steps (state (evm_ p)) (state e)) as D0 by (unfold e; case_match; [apply transfer_balances_steps|done]).
  destruct (execute_transactions _ _) as [[[rs1 err1] p1]|[]|] eqn:E; cbn [result_bind]; [|done..].
  apply execute_transactions_steps in E. cbn [evm_] in E.
  case_bool_decide; cbn [negb]; intros [= _ _ <-]; [|by etransitivity].
  etransitivity; [exact D0|]. etransitivity; [exact E|]. apply apply_rewards_steps.
Qed.

Context `{!GmpLaws} `{!Secp256k1Laws}.

(** The message of a transaction, from the purchase of its gas to the refund. *)
Lemma execute_message_spec txn from e :
  evm_ok e -> txn_ok (evm_revision e) txn -> txn_from txn = Some from -> gas_limit txn < 2 ^ 61 ->
  balances_ok (state e) -> gas_limit txn * gas_price txn <= bal (state e) from ->
  let e0 := update_state (buy_gas txn from) e in
  let rev := evm_revision e in
  let g0 := intrinsic_gas txn (EVMC_HOMESTEAD <=? rev) (EVMC_ISTANBUL <=? rev) in
  exists r e1 g e2, evm_execute txn (u64 (gas_limit txn - u64 g0)) e0 = Ok (r, e1)
    /\ refund_gas txn from (call_gas_left r) e1 = (g, e2)
    /\ 0 <= g <= gas_limit txn - (g0 + 1) / 2
    /\ mints (- (gas_limit txn - g) * gas_price txn) (state e) (state e2) /\ context e e2.
Proof.
  intros Hok [Hp Hv Hd Hto Hf _ Hg0] Hfrom Hlim Hbal Hcost e0 rev g0. fold rev g0 in Hg0.
  pose proof Hok as (Hint & Huns & Hbase).
  rewrite !(u64_small g0), !(u64_small (gas_limit txn - g0)) by lia.
  assert (mints (- (gas_limit txn * gas_price txn)) (state e) (state e0)) as M0
    by (apply buy_gas_mints; [nia|apply Hbal]).
  assert (context e e0) as C0 by apply update_context.
  assert (machine_ok (with_txn txn e0)) as Hm by (split; [exact Hint|split; [exact Hbase|exact Hf]]).
  destruct (evm_execute_defined txn (gas_limit txn - g0) e0 Hm ltac:(lia) Hd Hto) as (r & e1 & E & Hl).
  pose proof (evm_execute_evolves _ _ _ _ _ E) as V. assert (unsigned_machine e0) as Hu0 by exact Huns.
  pose proof (evm_execute_mints _ _ _ _ _ Hu0 (proj1 Hv) E) as M1.
  assert (0 <= refund (state e1) < 2 ^ 64) as Hr.
  { eapply runs_refund; [apply (ev_runs _ _ V)|]. change (0 <= refund (buy_gas txn from (state e)) < 2 ^ 64).
    rewrite clear_refund. lia. }
  destruct (refund_gas txn from (call_gas_left r) e1) as [g e2] eqn:Eg.
  pose proof Eg as Eg'. apply refund_gas_spec in Eg' as (Hg & M2 & C2); [|lia|lia|done|lia].
  exists r, e1, g, e2. split; [done|]. split; [done|].
  assert (0 <= g <= gas_limit txn - (g0 + 1) / 2) as Hgr by (clear - Hg Hl Hg0; Z.to_euclidean_division_equations; lia).
  split; [done|]. split.
  - apply (mints_weaken (- (gas_limit txn * gas_price txn) + (0 + g * gas_price txn))); [nia|].
    eapply mints_trans; [exact M0|]. eapply mints_trans; [exact M1|exact M2].
  - eapply context_trans; [exact C0|]. eapply context_trans; [|exact C2].
    apply evolves_context in V. destruct V. by split.
Qed.

Lemma execute_transaction_spec txn p from :
  evm_ok (evm_ p) -> txn_ok (evm_revision (evm_ p)) txn -> txn_from txn = Some from -> gas_limit txn < 2 ^ 61 ->
  balances_ok (state (evm_ p)) -> gas_limit txn * gas_price txn <= bal (state (evm_ p)) from ->
  0 <= cumulative_gas_used_ p -> cumulative_gas_used_ p + gas_limit txn < 2 ^ 64 ->
  exists receipt p', execute_transaction txn p = Ok (receipt, p')
    /\ mints 0 (state (evm_ p)) (state (evm_ p')) /\ context (evm_ p) (evm_ p')
    /\ 10500 <= cumulative_gas_used_ p' - cumulative_gas_used_ p <= gas_limit txn
    /\ Block.cumulative_gas_used receipt = cumulative_gas_used_ p'.
Proof.
  intros Hok Htxn Hfrom Hlim Hbal Hcost Hc Hc'. pose proof (to_gas _ _ Htxn) as Hg0. pose proof (to_price _ _ Htxn) as Hp.
  destruct (execute_message_spec txn from (evm_ p) Hok Htxn Hfrom Hlim Hbal Hcost) as (r & e1 & g & e2 & E & Eg & Hg & M & C).
  unfold execute_transaction. rewrite Hfrom.
  set (e0 := update_state (buy_gas txn from) (evm_ p)) in *.
  assert (evm_revision e0 = evm_revision (evm_ p)) as -> by done.
  rewrite E. cbn [result_bind]. rewrite Eg.
  set (rev := evm_revision (evm_ p)) in *. set (g0 := intrinsic_gas txn _ _) in *.
  assert (10500 <= (g0 + 1) / 2) as Hhalf by (apply Z.div_le_lower_bound; lia).
  rewrite (u64_small (gas_limit txn - g)), (u64_small (cumulative_gas_used_ p + _)) by lia.
  set (e3 := update_state (add_to_balance _ _) e2).
  assert (mints 0 (state (evm_ p)) (state e3)) as M3.
  { apply (mints_weaken (- (gas_limit txn - g) * gas_price txn + u256 ((gas_limit txn - g) * gas_price txn))).
    - pose proof (u256_le ((gas_limit txn - g) * gas_price txn) ltac:(nia)). lia.
    - eapply mints_trans; [exact M|]. apply add_to_balance_mints. apply u256_le. nia. }
  set (e4 := update_state destruct_suicides e3).
  assert (mints 0 (state (evm_ p)) (state e4)) as M4
    by (replace 0 with (0 + 0) by lia; eapply mints_trans; [exact M3|apply destruct_suicides_mints]).
  set (e5 := if EVMC_SPURIOUS_DRAGON <=? rev then update_state destruct_touched_dead e4 else e4).
  assert (mints 0 (state (evm_ p)) (state e5) /\ context e2 e5) as [M5 C5].
  { unfold e5. case_match; (split; [|by split]); [|exact M4].
    replace 0 with (0 + 0) by lia. eapply mints_trans; [exact M4|apply destruct_touched_dead_mints]. }
  eexists _, _. split; [reflexivity|]. cbn [evm_ cumulative_gas_used_ Block.cumulative_gas_used]. split_and!; [| |lia|lia|done].
  - eapply mints_keeps; [exact M5|]. by apply keeps_objects.
  - eapply context_trans; [exact C|]. eapply context_trans; [exact C5|apply update_context].
Qed.

(** ** Blocks *)

(** The cumulative gas of receipts grows, by half of the least intrinsic gas at least, from [c] to [c']. *)
Fixpoint gas_steps (c : Z) (rs : list Receipt) (c' : Z) : Prop :=
  match rs with
  | [] => c' = c
  | r :: rs => c + 10500 <= Block.cumulative_gas_used r /\ gas_steps (Block.cumulative_gas_used r) rs c'
  end.

Definition block_gas_limit (e : EVM) : Z := header_gas_limit (header (evm_block e)).

Lemma context_gas_limit e e' : context e e' -> block_gas_limit e' = block_gas_limit e.
Proof. intros []. unfold block_gas_limit. congruence. Qed.

Lemma mints_ok n s s' : mints n s s' -> balances_ok s -> balances_ok s'.
Proof. intros Hm Hok. apply (Hm Hok). Qed.

Lemma execute_transactions_spec txns : forall p,
  evm_ok (evm_ p) -> Forall (txn_ok (evm_revision (evm_ p))) txns -> balances_ok (state (evm_ p)) ->
  block_gas_limit (evm_ p) < 2 ^ 61 -> 0 <= cumulative_gas_used_ p <= block_gas_limit (evm_ p) ->
  exists receipts err p', execute_transactions txns p = Ok (receipts, err, p')
    /\ mints 0 (state (evm_ p)) (state (evm_ p')) /\ context (evm_ p) (evm_ p')
    /\ cumulative_gas_used_ p <= cumulative_gas_used_ p' <= block_gas_limit (evm_ p)
    /\ gas_steps (cumulative_gas_used_ p) receipts (cumulative_gas_used_ p')
    /\ (err = kOk -> length receipts = length txns).
Proof.
  induction txns as [|txn txns IH]; intros p Hok Htxns Hbal Hlim Hc; cbn [execute_transactions].
  { exists [], kOk, p. split_and!; try done; [by apply keeps_mints|lia]. }
  apply Forall_cons in Htxns as [Htxn Htxns].
  pose proof Htxn as [Hp Hv _ _ Hf Hl Hg0]. destruct (txn_from txn) as [from|] eqn:Hfrom; [|done].
  destruct (validate_transaction txn p) as [err p1] eqn:Ev.
  apply (validate_transaction_spec _ _ _ _ from Hfrom) in Ev as (K1 & C1 & Ec1 & Hvalid).
  case_bool_decide as He; cbn [negb].
  2: { exists [], err, p1. split_and!; try done; [by apply keeps_mints|lia|lia]. }
  destruct (Hvalid He) as [Hcost Havail].
  unfold wrap in Hcost. rewrite Z.mod_small in Hcost by nia.
  unfold available_gas in Havail. fold (block_gas_limit (evm_ p)) in Havail. rewrite u64_small in Havail by lia.
  assert (balances_ok (state (evm_ p1))) as Hbal1 by (by eapply mints_ok; [apply keeps_mints|]).
  assert (bal (state (evm_ p1)) from = bal (state (evm_ p)) from) as Eb by (unfold bal; by rewrite K1).
  destruct (execute_transaction_spec txn p1 from) as (r & p2 & E & M2 & C2 & Hused & Er); try done.
  - by eapply context_ok.
  - by rewrite (context_revision _ _ C1).
  - lia.
  - rewrite Eb. lia.
  - lia.
  - lia.
  - rewrite E. cbn [result_bind].
    assert (context (evm_ p) (evm_ p2)) as C by (by eapply context_trans).
    destruct (IH p2) as (rs & err2 & p3 & E3 & M3 & C3 & Hc3 & Hg3 & Hn3).
    + by eapply context_ok.
    + by rewrite (context_revision _ _ C).
    + by eapply mints_ok.
    + by rewrite (context_gas_limit _ _ C).
    + rewrite (context_gas_limit _ _ C). lia.
    + rewrite (context_gas_limit _ _ C) in Hc3. rewrite E3. cbn [result_bind]. exists (r :: rs), err2, p3. split_and!; try done.
      * replace 0 with (0 + 0) by lia. eapply mints_trans; [|exact M3]. by eapply keeps_then.
      * by eapply context_trans.
      * lia.
      * lia.
      * cbn [gas_steps]. rewrite Er. split; [lia|exact Hg3].
      * intros Hk. cbn. by rewrite (Hn3 Hk).
Qed.

Lemma apply_rewards_mints e :
  Forall (fun o => 1 <= number (header (evm_block e)) - number o <= 7) (ommers (body (evm_block e))) ->
  mints (rewards (evm_revision e) (evm_block e)) (state e) (state (apply_rewards e)).
Proof.
  intros Hos. unfold apply_rewards, rewards. pose proof (block_reward_range (evm_revision e)) as Hr.
  set (r := block_reward_of (evm_revision e)) in *.
  pose proof (reward_ommers_mints (number (header (evm_block e))) r (ommers (body (evm_block e))) (state e) r Hr (proj1 Hr) Hos) as Ho.
  destruct (foldl _ _ _) as [s' m']. destruct Ho as [M Hm].
  eapply mints_weaken; [|eapply mints_trans; [exact M|apply add_to_balance_mints]]; lia.
Qed.

(** The hypotheses on a block about to be executed. *)
Record block_ok (e : EVM) : Prop := {
  bk_evm : evm_ok e;
  bk_balances : balances_ok (state e);
  bk_limit : 0 <= block_gas_limit e < 2 ^ 61;
  bk_txns : Forall (txn_ok (evm_revision e)) (transactions (body (evm_block e)));
  bk_ommers : Forall (fun o => 1 <= number (header (evm_block e)) - number o <= 7) (ommers (body (evm_block e)))
}.

Lemma processor_execute_block_spec p :
  block_ok (evm_ p) ->
  exists receipts err p', processor_execute_block p = Ok (receipts, err, p')
    /\ mints (if decide (err = kOk) then rewards (evm_revision (evm_ p)) (evm_block (evm_ p)) else 0)
         (state (evm_ p)) (state (evm_ p'))
    /\ cumulative_gas_used_ p' <= block_gas_limit (evm_ p) /\ gas_steps 0 receipts (cumulative_gas_used_ p')
    /\ (err = kOk -> length receipts = length (transactions (body (evm_block (evm_ p))))).
Proof.
  intros [Hok Hbal Hlim Htxns Hos]. unfold processor_execute_block.
  set (e := if bool_decide _ then update_state transfer_balances (evm_ p) else evm_ p).
  assert (mints 0 (state (evm_ p)) (state e) /\ context (evm_ p) e) as [M0 C0].
  { unfold e. case_bool_decide; [|split; [by apply keeps_mints|apply context_refl]].
    split; [apply transfer_balances_mints|apply update_context]. }
  destruct (execute_transactions_spec (transactions (body (evm_block (evm_ p)))) (mkProcessor 0 e))
    as (rs & err & p1 & E & M & C & Hc & Hg & Hn); cbn [evm_ cumulative_gas_used_] in *.
  - by eapply context_ok.
  - by rewrite (context_revision _ _ C0).
  - by eapply mints_ok.
  - rewrite (context_gas_limit _ _ C0). lia.
  - rewrite (context_gas_limit _ _ C0). lia.
  - rewrite (context_gas_limit _ _ C0) in Hc.
    assert (mints 0 (state (evm_ p)) (state (evm_ p1))) as M1
      by (replace 0 with (0 + 0) by lia; eapply mints_trans; [exact M0|exact M]).
    assert (context (evm_ p) (evm_ p1)) as C1 by (by eapply context_trans).
    assert (evm_block e = evm_block (evm_ p)) as Eb by apply C0.
    rewrite E. cbn [result_bind]. case_bool_decide as He; cbn [negb].
    + exists rs, kOk, (with_evm (apply_rewards (evm_ p1)) p1). rewrite decide_True by done.
      split_and!; [done| |cbn; lia|exact Hg|by intros _; apply Hn].
      rewrite <- (Z.add_0_l (rewards _ _)). eapply mints_trans; [exact M1|].
      rewrite <- (context_revision _ _ C1), <- (cx_block _ _ C1). apply apply_rewards_mints.
      rewrite (cx_block _ _ C1). exact Hos.
    + exists rs, err, p1. rewrite decide_False by done. split_and!; try done; lia.
Qed.

(** ** Lemmas: the end of a block *)

(** The processor that [execute_block] starts from. *)
Definition block_processor (block : Block) (buffer : B) (config : ChainConfig)
    (cache : option (AnalysisCache CodeAnalysis)) (pool : option (list ExecutionState)) (vm : option Vm) : ExecutionProcessor :=
  mkProcessor 0 (mkEVM block (new_state buffer) config empty_transaction [] [] cache pool vm).

(** The block is rejected by the processor or by the checks, the buffer untouched, or it is written. *)
Lemma execute_block_cases block buffer config cache pool vm rs err e' :
  execute_block block buffer config cache pool vm = Ok (rs, err, e') ->
  exists err1 p, processor_execute_block (block_processor block buffer config cache pool vm) = Ok (rs, err1, p)
    /\ block_reaches buffer (state (evm_ p))
    /\ (err1 = kOk -> check_receipts block config rs = Ok err) /\ (err = kOk -> err1 = kOk)
    /\ (err <> kOk -> e' = evm_ p)
    /\ (err = kOk -> e' = update_state (write_to_db (number (header block))) (evm_ p)).
Proof.
  unfold execute_block. change (mkProcessor 0 _) with (block_processor block buffer config cache pool vm).
  destruct (processor_execute_block _) as [[[rs1 err1] p]|[]|] eqn:E; cbn [result_bind]; [|done..].
  pose proof (processor_execute_block_steps _ _ _ _ E buffer (reach_new buffer)) as Hdb.
  case_bool_decide as He1; cbn [negb].
  - destruct (check_receipts block config rs1) as [err2|[]|] eqn:Ec; cbn [result_bind]; [|done..].
    case_bool_decide as He2; cbn [negb]; intros [= <- <- <-]; exists err1, p; by subst.
  - intros [= <- <- <-]. by exists err1, p.
Qed.

(** * Properties *)

(** C2: Ether is only created by rewards. Whatever the code of the contracts does, the sum of all balances after a
    block, over any set of accounts that is large enough, is at most the sum before it, plus the reward of the
    block with the shares for its ommers if it is executed to the end. Transfers of value, creations, refunds of
    gas, fees, self-destructs and the DAO's irregular change create nothing. Every
    balance stays a 256-bit number; an addition that passes 2^256 wraps, as in the code, which only takes ether away. *)
Theorem block_creates_no_ether p :
  block_ok (evm_ p) ->
  exists receipts err p' D0, processor_execute_block p = Ok (receipts, err, p')
    /\ (forall a, 0 <= fst (get_balance a (state (evm_ p'))) < 2 ^ 256)
    /\ forall D, D0 ⊆ D ->
         total D (fun a => fst (get_balance a (state (evm_ p'))))
         <= total D (fun a => fst (get_balance a (state (evm_ p))))
            + (if decide (err = kOk) then rewards (evm_revision (evm_ p)) (evm_block (evm_ p)) else 0).
Proof.
  intros Hok. destruct (processor_execute_block_spec p Hok) as (rs & err & p' & E & M & _).
  destruct (M (bk_balances _ Hok)) as (Hbal & D0 & HD). exists rs, err, p', D0. split; [exact E|]. split.
  - intros a. rewrite get_balance_bal. apply Hbal.
  - intros D Hs. rewrite !(total_ext D _ _ (fun a => get_balance_bal a _)). apply (HD D Hs).
Qed.

(** C8: The gas of a block is accounted for: execution ends with a result, every receipt's cumulative gas is more than
    the one before it, by half of the intrinsic gas at least (a refund returns half of the gas used at most), the
    last one is the processor's and none exceeds the block's gas limit; without an error there is a receipt for
    every transaction. *)
Theorem block_gas_accounted p :
  block_ok (evm_ p) ->
  exists receipts err p', processor_execute_block p = Ok (receipts, err, p')
    /\ gas_steps 0 receipts (cumulative_gas_used_ p')
    /\ cumulative_gas_used_ p' <= header_gas_limit (header (evm_block (evm_ p)))
    /\ (err = kOk -> length receipts = length (transactions (body (evm_block (evm_ p))))).
Proof.
  intros Hok. destruct (processor_execute_block_spec p Hok) as (rs & err & p' & E & _ & Hc & Hg & Hn).
  by exists rs, err, p'.
Qed.

(** C9: A block is written only when its results are those of its header: without an error, the gas used, the
    receipts' root from Byzantium on and the bloom filter are the header's, and the buffer is what [write_to_db]
    makes of the buffer given and the final state; with an error the buffer is untouched. *)
Theorem execute_block_writes (block : Block) (buffer : B) (config : ChainConfig)
    (cache : option (AnalysisCache CodeAnalysis)) (pool : option (list ExecutionState)) (vm : option Vm)
    (receipts : list Receipt) (err : ValidationResult) (e' : EVM) :
  execute_block block buffer config cache pool vm = Ok (receipts, err, e') ->
  (err <> kOk -> db (state e') = buffer)
  /\ (err = kOk ->
      List.last (map Block.cumulative_gas_used receipts) 0 = Block.gas_used (header block)
      /\ (EVMC_BYZANTIUM <= revision config (number (header block)) ->
          vector_root_hash receipts encode_receipt = Ok (receipts_root (header block)))
      /\ foldl (fun b r => join b (bloom r)) empty_bloom receipts = header_bloom (header block)
      /\ exists s, db s = buffer /\ state e' = write_to_db (number (header block)) s).
Proof.
  intros (err1 & p & _ & Hdb%reaches_db & Hcheck & Hok & Herr & Hwrite)%execute_block_cases.
  split; [intros He; by rewrite Herr|]. intros ->. specialize (Hcheck (Hok eq_refl)). unfold check_receipts in Hcheck.
  assert (match List.last (map Some receipts) None with Some r => Block.cumulative_gas_used r | None => 0 end
          = List.last (map Block.cumulative_gas_used receipts) 0) as Elast
    by (clear; induction receipts as [|r [|r' rs] IH]; [done..|exact IH]).
  rewrite Elast in Hcheck.
  destruct (Z.eqb_spec (List.last (map Block.cumulative_gas_used receipts) 0) (Block.gas_used (header block))) as [Eg|];
    cbn [negb] in Hcheck; [|done].
  match type of Hcheck with context [if EVMC_BYZANTIUM <=? ?r then ?x else Ok true] =>
    set (root_ok := if EVMC_BYZANTIUM <=? r then x else Ok true) in Hcheck end.
  assert (forall b, root_ok = Ok b -> b = true -> EVMC_BYZANTIUM <= revision config (number (header block)) ->
            vector_root_hash receipts encode_receipt = Ok (receipts_root (header block))) as Hroot.
  { unfold root_ok. intros b Hb -> Hrev. rewrite (proj2 (Z.leb_le _ _) Hrev) in Hb.
    destruct (vector_root_hash receipts encode_receipt) as [root|[]|]; [|done..]. injection Hb as Hb. by apply bytes_eqb_eq in Hb as ->. }
  destruct root_ok as [[]|[]|]; cbn [negb result_bind] in Hcheck; [|done..]. specialize (Hroot true eq_refl eq_refl).
  destruct (bytes_eqb (foldl _ empty_bloom receipts) _) eqn:Eb; cbn [negb] in Hcheck; [|done].
  apply bytes_eqb_eq in Eb. split_and!; [exact Eg|exact Hroot|exact Eb|].
  exists (state (evm_ p)). by rewrite Hwrite.
Qed.

End Machine.

(** ** An example: a block with one transaction, over the small interpreter of EvmTheorems *)

Lemma new_state_balances (b : MemoryBuffer) :
  map_Forall (fun _ acc => 0 <= balance acc < 2 ^ 256) (accounts b) -> balances_ok (new_state b).
Proof.
  intros Hall a. unfold bal, view_account, view_object. cbn. unfold mb_read_account.
  destruct (accounts b !! a) as [acc|] eqn:E; cbn; [by apply (Hall a acc)|].
  split; [done|reflexivity].
Qed.

Definition paying_transaction : Transaction :=
  mkTransaction None 5 2 50000 (Some (to_be 20 0xcc)) 17 [] false None 1 1 [] (Some (to_be 20 0xaa)).

Definition paying_block : Block :=
  mkBlock (mkBlockBody [paying_transaction] []) (header (demo_block 13000000)).

#[local] Existing Instances no_key reference_gmp plane.

Definition paying_processor : ExecutionProcessor (B := MemoryBuffer) :=
  new_processor paying_block (new_state (demo_buffer [2])) kMainnetConfig.

Lemma paying_block_ok : block_ok (evm_ paying_processor).
Proof.
  split.
  - split; [|split].
    + split; [done|]. intros rev m code st Hm. by apply demo_run_ok.
    + split; [intros st an; constructor|]. intros [m|] code; [|constructor]. cbn [baseline_execute demo].
      unfold demo_run. repeat case_match; constructor; try done; intros ?; constructor.
    + vm_compute. split; congruence.
  - apply new_state_balances. apply (bool_decide_unpack _). vm_compute. exact I.
  - vm_compute. split; congruence.
  - constructor; [|constructor]. split; try (vm_compute; split; congruence); try done.
    intros dst [= <-]. split; [by apply bytes_okb_ok|done].
  - constructor.
Qed.

Lemma block_creates_no_ether_witness :
  exists receipts err p', processor_execute_block paying_processor = Ok (receipts, err, p')
    /\ forall a, 0 <= fst (get_balance a (state (evm_ p'))) < 2 ^ 256.
Proof.
  destruct (@block_creates_no_ether _ _ demo no_key reference_gmp plane reference_gmp_laws no_key_laws
              paying_processor paying_block_ok) as (rs & err & p' & D0 & E & Hb & _).
  exists rs, err, p'. split; [exact E|exact Hb].
Defined.

Lemma block_gas_accounted_witness :
  exists receipts err p', processor_execute_block paying_processor = Ok (receipts, err, p')
    /\ gas_steps 0 receipts (cumulative_gas_used_ p').
Proof.
  destruct (@block_gas_accounted _ _ demo no_key reference_gmp plane reference_gmp_laws no_key_laws
              paying_processor paying_block_ok) as (rs & err & p' & E & Hg & _).
  exists rs, err, p'. split; [exact E|exact Hg].
Defined.

(** The same block with the results of its execution in its header. *)
Definition written_block : Block :=
  let h := header paying_block in
  let receipts := match processor_execute_block paying_processor with Ok (rs, _, _) => rs | _ => [] end in
  let root := match vector_root_hash receipts encode_receipt with Ok r => r | _ => zero_bytes32 end in
  mkBlock (body paying_block)
    (mkBlockHeader (parent_hash h) (ommers_hash h) (beneficiary h) (state_root h) (transactions_root h) root
       (foldl (fun b r => join b (bloom r)) empty_bloom receipts) (difficulty h) (number h) (header_gas_limit h)
       (List.last (map Block.cumulative_gas_used receipts) 0) (timestamp h) (extra_data h) (mix_hash h) (header_nonce h)).

Lemma execute_block_writes_witness :
  exists receipts e', execute_block written_block (demo_buffer [2]) kMainnetConfig None None None = Ok (receipts, kOk, e')
    /\ List.last (map Block.cumulative_gas_used receipts) 0 = Block.gas_used (header written_block)
    /\ exists s, db s = demo_buffer [2] /\ state e' = write_to_db (number (header written_block)) s.
Proof.
  assert (match execute_block written_block (demo_buffer [2]) kMainnetConfig None None None with
          | Ok (rs, err, _) => bool_decide (err = kOk) && bool_decide (length rs = 1%nat) | _ => false end = true) as Hrun
    by (vm_compute; reflexivity).
  destruct (execute_block _ _ _ _ _ _) as [[[rs err] e']|[]|] eqn:E; [|discriminate Hrun..].
  apply andb_true_iff in Hrun as [Herr _]. apply bool_decide_eq_true in Herr. subst err.
  destruct (execute_block_writes _ _ _ _ _ _ _ _ _ E) as [_ Hok]. destruct (Hok eq_refl) as (Hg & _ & _ & Hs).
  exists rs, e'. split; [reflexivity|]. split; [exact Hg|exact Hs].
Defined.
