(* ===== verification/Blockchain.v ===== *)
(** * Blockchain: core/silkworm/chain/blockchain.hpp, blockchain.cpp

    The choice between forks: a block is validated, the canonical chain is unwound to the common ancestor, the
    branch of the block is executed, and either becomes the canonical chain or is unwound again. *)

From S2P Require Import Prelude Util Keccak Ecdsa Ethash Rlp Account Transaction Block HashBuilder Chain MemoryBuffer.
From S2P Require Import Validity IntraBlockState StateCorrect Cache Precompiled Evm Processor.
Local Open Scope Z_scope.
Local Open Scope silk_scope.

Section Blockchain.
Context {B : Type} `{StateBuffer B} `{Evmone} `{Sig : Secp256k1} `{Gmp} `{Libff}.

(** [class Blockchain]; the buffer it refers to and the kept context of the seal verification come with it. *)
Record Blockchain : Type := mkBlockchain {
  state_ : B;
  config_ : ChainConfig;
  bad_blocks_ : gmap bytes ValidationResult;
  pool_ : option (list ExecutionState);
  exo_evm_ : option Vm;
  kept_ : Kept
}.

Definition with_buffer (b : B) (bc : Blockchain) : Blockchain :=
  mkBlockchain b (config_ bc) (bad_blocks_ bc) (pool_ bc) (exo_evm_ bc) (kept_ bc).
Definition with_pool (p : option (list ExecutionState)) (bc : Blockchain) : Blockchain :=
  mkBlockchain (state_ bc) (config_ bc) (bad_blocks_ bc) p (exo_evm_ bc) (kept_ bc).
Definition with_bad_block (hash : bytes) (err : ValidationResult) (bc : Blockchain) : Blockchain :=
  mkBlockchain (state_ bc) (config_ bc) (<[hash := err]> (bad_blocks_ bc)) (pool_ bc) (exo_evm_ bc) (kept_ bc).
Definition with_kept (k : Kept) (bc : Blockchain) : Blockchain :=
  mkBlockchain (state_ bc) (config_ bc) (bad_blocks_ bc) (pool_ bc) (exo_evm_ bc) k.
Definition update_buffer (f : B -> B) (bc : Blockchain) : Blockchain := with_buffer (f (state_ bc)) bc.

(** The constructor. *)
Definition new_blockchain (state : B) (config : ChainConfig) (genesis_block : Block) : Blockchain :=
  let hash := block_header_hash (header genesis_block) false in
  mkBlockchain (canonize_block (number (header genesis_block)) hash (insert_block genesis_block hash state))
    config ∅ None None None.

(** [Blockchain::execute_block] *)
Definition chain_execute_block (block : Block) (check_state_root : bool) (bc : Blockchain)
  : result Halt (ValidationResult * Blockchain) :=
  try (_, err, e) := execute_block block (state_ bc) (config_ bc) None (pool_ bc) (exo_evm_ bc) in
  let bc := with_pool (state_pool e) (with_buffer (db (state e)) bc) in
  if negb (bool_decide (err = kOk)) then Ok (err, bc)
  else if check_state_root then
    match state_root_hash (state_ bc) with
    | Ok root =>
        if negb (bytes_eqb root (state_root (header block))) then
          Ok (kWrongStateRoot, update_buffer (unwind_state_changes (number (header block))) bc)
        else Ok (kOk, bc)
    | _ => Undef
    end
  else Ok (kOk, bc).

(** The block that is stored as canonical under a number: the three optionals are dereferenced. *)
Definition canonical_block (block_number : Z) (state : B) : option Block :=
  hash ← canonical_hash state block_number;
  b ← read_body state block_number hash;
  h ← read_header state block_number hash;
  Some (mkBlock b h).

(** The loop of [re_execute_canonical_chain], [n] blocks from [block_number] on. An error is a failed assertion. *)
Fixpoint re_execute_loop (n : nat) (block_number : Z) (bc : Blockchain) : result Halt Blockchain :=
  match n with
  | O => Ok bc
  | S n =>
      match canonical_block block_number (state_ bc) with
      | None => Undef
      | Some block =>
          try (err, bc) := chain_execute_block block false bc in
          if bool_decide (err = kOk) then re_execute_loop n (block_number + 1) bc else Undef
      end
  end.

Definition re_execute_canonical_chain (ancestor tip : Z) (bc : Blockchain) : result Halt Blockchain :=
  if negb (ancestor <=? tip) then Undef
  else re_execute_loop (Z.to_nat (tip - ancestor)) (ancestor + 1) bc.

(** The loop of [unwind_last_changes], from [ancestor + n] down. *)
Fixpoint unwind_loop (n : nat) (ancestor : Z) (state : B) : B :=
  match n with
  | O => state
  | S n' => unwind_loop n' ancestor (unwind_state_changes (ancestor + Z.of_nat n) state)
  end.

Definition unwind_last_changes (ancestor tip : Z) (bc : Blockchain) : result Halt Blockchain :=
  if negb (ancestor <=? tip) then Undef
  else Ok (update_buffer (unwind_loop (Z.to_nat (tip - ancestor)) ancestor) bc).

(** The loop of [intermediate_chain]: the [n] blocks that end with the one under [block_number] and [hash]. *)
Fixpoint intermediate_loop (n : nat) (block_number : Z) (hash : bytes) (state : B) (chain : list BlockWithHash)
  : option (list BlockWithHash) :=
  match n with
  | O => Some chain
  | S n =>
      b ← read_body state block_number hash;
      h ← read_header state block_number hash;
      intermediate_loop n (block_number - 1) (parent_hash h) state (mkBlockWithHash (mkBlock b h) hash :: chain)
  end.

(** A vector of [block_number - canonical_ancestor] blocks: a difference below zero wraps to a size that
    [std::vector] refuses with an exception that nothing catches. *)
Definition intermediate_chain (block_number : Z) (hash : bytes) (canonical_ancestor : Z) (state : B)
  : result Halt (list BlockWithHash) :=
  if block_number <? canonical_ancestor then Undef
  else match intermediate_loop (Z.to_nat (block_number - canonical_ancestor)) block_number hash state [] with
       | Some chain => Ok chain
       | None => Undef
       end.

(** The recursion of [canonical_ancestor]; the parent of an unknown block is dereferenced. *)
Fixpoint canonical_ancestor_loop (fuel : nat) (h : BlockHeader) (hash : bytes) (state : B) : option Z :=
  if bool_decide (canonical_hash state (number h) = Some hash) then Some (number h)
  else
    match fuel with
    | O => None
    | S fuel =>
        parent ← read_header state (u64 (number h - 1)) (parent_hash h);
        canonical_ancestor_loop fuel parent (parent_hash h) state
    end.

Definition canonical_ancestor (h : BlockHeader) (hash : bytes) (state : B) : result Halt Z :=
  match canonical_ancestor_loop (Z.to_nat (number h)) h hash state with
  | Some n => Ok n
  | None => Undef
  end.

(** The execution of a branch: how many blocks were executed, and the first error. *)
Fixpoint execute_chain (chain : list BlockWithHash) (check_state_root : bool) (bc : Blockchain)
  : result Halt (Z * ValidationResult * Blockchain) :=
  match chain with
  | [] => Ok (0, kOk, bc)
  | x :: chain =>
      try (err, bc) := chain_execute_block (block x) check_state_root bc in
      if negb (bool_decide (err = kOk)) then Ok (0, err, bc)
      else
        try (n, err, bc) := execute_chain chain check_state_root bc in
        Ok (n + 1, err, bc)
  end.

(** [for (i = tip; i > ancestor; --i) decanonize_block(i)] and the canonization of the branch. *)
Fixpoint decanonize_loop (n : nat) (ancestor : Z) (state : B) : B :=
  match n with
  | O => state
  | S n' => decanonize_loop n' ancestor (decanonize_block (ancestor + Z.of_nat n) state)
  end.

Definition canonize_chain (ancestor tip : Z) (chain : list BlockWithHash) (state : B) : B :=
  foldl (fun b x => canonize_block (number (header (block x))) (block_hash x) b)
    (decanonize_loop (Z.to_nat (tip - ancestor)) ancestor state) chain.

(** Both ways back to the canonical chain: the executed blocks are unwound, its own are executed again. *)
Definition back_to_canonical (ancestor executed tip : Z) (bc : Blockchain) : result Halt Blockchain :=
  try bc := unwind_last_changes ancestor (ancestor + executed) bc in
  re_execute_canonical_chain ancestor tip bc.

(** The end of [insert_block]: the block is stored, and its branch is canonized if it is heavier. *)
Definition choose_branch (b : Block) (hash : bytes) (chain : list BlockWithHash) (ancestor tip executed : Z)
    (bc : Blockchain) : result Halt Blockchain :=
  let bc := update_buffer (insert_block b hash) bc in
  match (h ← canonical_hash (state_ bc) tip; total_difficulty (state_ bc) tip h) with
  | None => Undef
  | Some current_total_difficulty =>
      if match total_difficulty (state_ bc) (number (header b)) hash with
         | Some td => current_total_difficulty <? td
         | None => false
         end
      then Ok (update_buffer (canonize_chain ancestor tip chain) bc)
      else back_to_canonical ancestor executed tip bc
  end.

(** [Blockchain::insert_block]; the senders of the caller's block are recovered in place. *)
Definition chain_insert_block (b : Block) (check_state_root : bool) (bc : Blockchain)
  : result Halt (ValidationResult * Block * Blockchain) :=
  match pre_validate_block b (state_ bc) (config_ bc) (kept_ bc) with
  | Ok (err, kept) =>
      let bc := with_kept kept bc in
      if negb (bool_decide (err = kOk)) then Ok (err, b, bc)
      else
        let hash := block_header_hash (header b) false in
        match bad_blocks_ bc !! hash with
        | Some err => Ok (err, b, bc)
        | None =>
            let b := recover_senders Sig b in
            try ancestor := canonical_ancestor (header b) hash (state_ bc) in
            let tip := current_canonical_block (state_ bc) in
            try bc := unwind_last_changes ancestor tip bc in
            let block_number := number (header b) in
            try chain := intermediate_chain (u64 (block_number - 1)) (parent_hash (header b)) ancestor (state_ bc) in
            let chain := chain ++ [mkBlockWithHash b hash] in
            try (executed, err, bc) := execute_chain chain check_state_root bc in
            if negb (bool_decide (err = kOk)) then
              try bc := back_to_canonical ancestor executed tip (with_bad_block hash err bc) in
              Ok (err, b, bc)
            else
              try bc := choose_branch b hash chain ancestor tip executed bc in
              Ok (kOk, b, bc)
        end
  | _ => Undef
  end.

End Blockchain.
