(* ===== verification/BlockchainCorrect.v ===== *)
(** * BlockchainCorrect: what the choice between forks promises

    The canonical chain is linked, stored and the heaviest of all inserted branches; a rejected block leaves the
    stored chains, and at the tip the accounts and storage, as they were. *)

From S2P Require Import Prelude Util Keccak Ecdsa Ethash Rlp Account Transaction Block HashBuilder Chain MemoryBuffer.
From S2P Require Import Validity IntraBlockState StateCorrect BlockState Cache Precompiled Evm EvmCorrect EvmTheorems Supply.
From S2P Require Import Processor ProcessorCorrect Blockchain.
Local Open Scope Z_scope.
Local Open Scope silk_scope.

(** ** Specification: the stored chains *)

(** The parts of the buffer that hold blocks. *)
Record same_chain (b b' : MemoryBuffer) : Prop := {
  sc_headers : headers b' = headers b;
  sc_bodies : bodies b' = bodies b;
  sc_difficulties : difficulties b' = difficulties b;
  sc_canonical : canonical_hashes b' = canonical_hashes b
}.

#[export] Instance same_chain_preorder : PreOrder same_chain.
Proof. split; [by split|]. intros b1 b2 b3 [] []. split; congruence. Qed.

(** Every stored header has a body, a total difficulty and a stored parent, down to one genesis; the canonical
    hashes are linked by their headers; no stored block is heavier than the canonical tip. *)
Record chain_ok (b : MemoryBuffer) : Prop := {
  ck_size : zlen (headers b) <= 2 ^ 63 /\ 0 < zlen (canonical_hashes b) <= 2 ^ 63;
  ck_stored : forall n h hd, 0 <= n -> read_header b n h = Some hd ->
    number hd = n /\ is_Some (read_body b n h) /\ is_Some (total_difficulty b n h)
    /\ (0 < n -> is_Some (read_header b (n - 1) (parent_hash hd)));
  ck_genesis : forall h, is_Some (read_header b 0 h) -> canonical_hash b 0 = Some h;
  ck_canonical : forall n h, 0 <= n -> canonical_hash b n = Some h ->
    exists hd, read_header b n h = Some hd /\ (0 < n -> canonical_hash b (n - 1) = Some (parent_hash hd));
  ck_heaviest : forall n h td tip_hash td_tip, 0 <= n -> is_Some (read_header b n h) ->
    total_difficulty b n h = Some td ->
    canonical_hash b (current_canonical_block b) = Some tip_hash ->
    total_difficulty b (current_canonical_block b) tip_hash = Some td_tip -> td <= td_tip
}.

(** The stored blocks from the canonical one under number [a] up to the one under [n] and [h]. *)
Inductive branch (b : MemoryBuffer) (a : Z) : Z -> bytes -> list BlockWithHash -> Prop :=
| branch_root h : canonical_hash b a = Some h -> branch b a a h []
| branch_block n h l hd bd :
    branch b a (n - 1) (parent_hash hd) l -> a < n -> number hd = n ->
    read_header b n h = Some hd -> read_body b n h = Some bd ->
    branch b a n h (l ++ [mkBlockWithHash (mkBlock bd hd) h]).

(** ** Lemmas: what execution leaves alone *)

Lemma same_chain_readers b b' : same_chain b b' ->
  (forall n h, read_header b' n h = read_header b n h) /\ (forall n h, read_body b' n h = read_body b n h)
  /\ (forall n h, total_difficulty b' n h = total_difficulty b n h)
  /\ (forall n, canonical_hash b' n = canonical_hash b n)
  /\ current_canonical_block b' = current_canonical_block b.
Proof.
  intros []. cbn. unfold mb_read_header, mb_read_body, mb_total_difficulty, mb_canonical_hash, mb_current_canonical_block.
  split_and!; intros; by rewrite ?sc_headers0, ?sc_bodies0, ?sc_difficulties0, ?sc_canonical0.
Qed.

Lemma same_chain_ok b b' : same_chain b b' -> chain_ok b -> chain_ok b'.
Proof.
  intros S. destruct (same_chain_readers _ _ S) as (Hh & Hb & Ht & Hc & Hn). destruct S. intros [].
  split; setoid_rewrite Hh || rewrite sc_headers0, sc_canonical0; repeat (setoid_rewrite Hb || setoid_rewrite Ht || setoid_rewrite Hc || rewrite Hn);
    try setoid_rewrite Hh; done.
Qed.

Lemma apply_write_chain (b : MemoryBuffer) w : same_chain b (apply_write b w).
Proof. by destruct w. Qed.

Lemma written_chain (b : MemoryBuffer) (n : Z) s : db s = b -> same_chain b (db (write_to_db n s)).
Proof.
  intros <-. rewrite write_to_db_eq. transitivity (begin_block n (db s)); [done|].
  generalize (begin_block n (db s)). induction (block_writes s) as [|w ws IH]; intros b; [done|].
  cbn [foldl]. by rewrite <- IH, <- apply_write_chain.
Qed.

Lemma unwound_chain n (b : MemoryBuffer) : same_chain b (unwind_state_changes n b).
Proof. done. Qed.

Lemma unwind_loop_chain n a (b : MemoryBuffer) : same_chain b (unwind_loop n a b).
Proof. revert b. induction n as [|n IH]; intros b; [done|]. cbn [unwind_loop]. by rewrite <- IH, <- unwound_chain. Qed.

(** ** Lemmas: the tables of blocks *)

Lemma canonical_lookup (b : MemoryBuffer) n : 0 <= n -> canonical_hash b n = canonical_hashes b !! Z.to_nat n.
Proof.
  intros Hn. cbn. unfold mb_canonical_hash. zif; [|done]. by rewrite lookup_ge_None_2 by lia.
Qed.

Lemma canonical_number (b : MemoryBuffer) n h : 0 <= n -> canonical_hash b n = Some h -> n < zlen (canonical_hashes b).
Proof. intros Hn Hc. rewrite canonical_lookup in Hc by done. apply lookup_lt_Some in Hc. lia. Qed.

Lemma tip_number (b : MemoryBuffer) : chain_ok b -> current_canonical_block b = zlen (canonical_hashes b) - 1.
Proof. intros []. cbn. unfold mb_current_canonical_block, u64, wrap. rewrite Z.mod_small; lia. Qed.

Lemma block_lookup_update {A} (v : list (gmap bytes A)) n h x n' h' :
  0 <= n -> 0 <= n' ->
  block_lookup (alter (<[h := x]>) (Z.to_nat n) (grow ∅ n v)) n' h'
  = if decide (n = n' /\ h = h') then Some x else block_lookup v n' h'.
Proof.
  intros Hn Hn'. rewrite !block_lookup_eq by done. pose proof (grow_length (A := gmap bytes A) ∅ n v Hn) as Hg.
  assert (forall i, (m ← grow ∅ n v !! i; m !! h') = (m ← v !! i; m !! h')) as Hgrow.
  { intros i. destruct (v !! i) as [m|] eqn:E; [by rewrite (grow_lookup _ _ _ _ _ E)|].
    unfold grow, vector_resize. destruct (Z.leb_spec (zlen v) n); [|by rewrite E].
    apply lookup_ge_None in E. destruct ((take (Z.to_nat n + 1) v ++ replicate (Z.to_nat n + 1 - length v) ∅) !! i) as [m|] eqn:Em; [|done].
    rewrite lookup_app_r in Em by (rewrite length_take; lia). apply lookup_replicate in Em as [-> _].
    apply lookup_empty. }
  destruct (decide (n = n')) as [<-|Hne].
  - rewrite list_lookup_alter_eq. specialize (Hgrow (Z.to_nat n)).
    destruct (lookup_lt_is_Some_2 _ _ Hg) as [m Em]. rewrite Em in *. cbn [fmap option_fmap option_map mbind option_bind] in *.
    rewrite <- Hgrow. destruct (decide (h = h')) as [<-|Hh].
    + rewrite decide_True by done. by rewrite lookup_insert_eq.
    + rewrite decide_False by tauto. by rewrite lookup_insert_ne.
  - rewrite decide_False by tauto. rewrite list_lookup_alter_ne by lia. apply Hgrow.
Qed.

Lemma read_header_insert (b : MemoryBuffer) blk hash n h : 0 <= number (header blk) -> 0 <= n ->
  read_header (insert_block blk hash b) n h
  = if decide (number (header blk) = n /\ hash = h) then Some (header blk) else read_header b n h.
Proof. apply block_lookup_update. Qed.

Lemma read_body_insert (b : MemoryBuffer) blk hash n h : 0 <= number (header blk) -> 0 <= n ->
  read_body (insert_block blk hash b) n h
  = if decide (number (header blk) = n /\ hash = h) then Some (body blk) else read_body b n h.
Proof. apply block_lookup_update. Qed.

(** The parent of an inserted block has a total difficulty already: its entry stays. *)
Lemma total_difficulty_insert (b : MemoryBuffer) blk hash td n h :
  let N := number (header blk) in
  0 < N -> 0 <= n -> total_difficulty b (N - 1) (parent_hash (header blk)) = Some td ->
  total_difficulty (insert_block blk hash b) n h
  = if decide (N = n /\ hash = h) then Some (u256 (td + difficulty (header blk))) else total_difficulty b n h.
Proof.
  intros N HN Hn Htd. change (total_difficulty b) with (block_lookup (difficulties b)) in *.
  change (total_difficulty (insert_block blk hash b)) with (block_lookup (difficulties (mb_insert_block blk hash b))).
  unfold mb_insert_block. cbn [difficulties]. fold N. rewrite (proj2 (Z.eqb_neq N 0)) by lia.
  rewrite block_lookup_eq in Htd by lia. replace (Z.to_nat (N - 1)) with (Z.to_nat N - 1)%nat in Htd by lia.
  destruct (difficulties b !! (Z.to_nat N - 1)%nat) as [m|] eqn:Em; [|done]. cbn [mbind option_bind] in Htd.
  rewrite (grow_lookup _ _ _ _ _ Em). cbn [mbind option_bind default]. rewrite Htd. cbn [default from_option id].
  assert (alter (<[parent_hash (header blk) := td]>) (Z.to_nat N - 1)%nat (grow ∅ N (difficulties b))
          = grow ∅ N (difficulties b)) as ->; [|apply block_lookup_update; lia].
  apply list_eq. intros i. destruct (decide (i = (Z.to_nat N - 1)%nat)) as [->|Hi]; [|by rewrite list_lookup_alter_ne].
  rewrite list_lookup_alter_eq, (grow_lookup _ _ _ _ _ Em). cbn. by rewrite insert_id.
Qed.

(** ** Lemmas: the branch of a block *)

Lemma branch_number b a n h l : branch b a n h l -> a <= n.
Proof. induction 1; lia. Qed.

Lemma branch_length b a n h l : branch b a n h l -> n = a + zlen l.
Proof. induction 1 as [|n h l hd bd _ IH]; rewrite ?length_app; cbn [length]; lia. Qed.

Lemma header_step (b : MemoryBuffer) n h hd : chain_ok b -> 0 <= n -> read_header b n h = Some hd ->
  canonical_hash b n <> Some h ->
  0 < n /\ exists p bd, read_header b (u64 (n - 1)) (parent_hash hd) = Some p /\ u64 (n - 1) = n - 1 /\ read_body b n h = Some bd
    /\ number hd = n /\ number p = n - 1.
Proof.
  intros Hok Hn Hh Hc. destruct (ck_stored _ Hok n h hd Hn Hh) as (Hnum & [bd Hbd] & _ & Hp).
  assert (0 < n) as Hpos.
  { destruct (decide (n = 0)) as [->|]; [|lia]. destruct Hc. apply (ck_genesis _ Hok). by rewrite Hh. }
  split; [done|]. destruct (Hp Hpos) as [p Ep].
  assert (n < 2 ^ 63) as Hlt.
  { pose proof (proj1 (ck_size _ Hok)). cbn in Hh. unfold mb_read_header, block_lookup in Hh.
    destruct (Z.leb_spec (zlen (headers b)) n); [done|lia]. }
  assert (u64 (n - 1) = n - 1) as Eu by (unfold u64, wrap; rewrite Z.mod_small; lia).
  exists p, bd. rewrite Eu. split_and!; try done. apply (ck_stored _ Hok (n - 1) (parent_hash hd)); [lia|done].
Qed.

(** The ancestor is found, and the branch above it is stored. *)
Lemma canonical_ancestor_branch (b : MemoryBuffer) fuel : forall n h hd,
  chain_ok b -> 0 <= n -> read_header b n h = Some hd -> (Z.to_nat n <= fuel)%nat ->
  exists a l, canonical_ancestor_loop fuel hd h b = Some a /\ 0 <= a /\ branch b a n h l
    /\ (canonical_hash b n = Some h -> a = n)
    /\ forall rest, intermediate_loop (Z.to_nat (n - a)) n h b rest = Some (l ++ rest).
Proof.
  induction fuel as [|fuel IH]; intros n h hd Hok Hn Hh Hf.
  all: assert (number hd = n) as Hnum by (by apply (ck_stored _ Hok n h)).
  all: cbn [canonical_ancestor_loop]; rewrite Hnum; case_bool_decide as Hc.
  1,3: exists n, []; rewrite Z.sub_diag; split_and!; try done; by constructor.
  - exfalso. destruct (header_step b n h hd Hok Hn Hh Hc) as [? _]. lia.
  - destruct (header_step b n h hd Hok Hn Hh Hc) as (Hpos & p & bd & Ep & Eu & Ebd & _ & Hnp). rewrite Ep. cbn [mbind option_bind].
    rewrite Eu in Ep. destruct (IH (n - 1) (parent_hash hd) p) as (a & l & Ea & Ha & Hb & _ & Hl); [done|lia|done|lia|].
    pose proof (branch_number _ _ _ _ _ Hb).
    exists a, (l ++ [mkBlockWithHash (mkBlock bd hd) h]). split_and!; [done|done| |done|].
    + eapply branch_block; eauto. lia.
    + intros rest. replace (Z.to_nat (n - a)) with (S (Z.to_nat (n - 1 - a))) by lia. cbn [intermediate_loop].
      rewrite Ebd, Hh. cbn [mbind option_bind]. rewrite Hl. by rewrite <- app_assoc.
Qed.

(** ** Lemmas: canonization *)

Lemma decanonize_loop_eq n a (b : MemoryBuffer) :
  0 <= a -> length (canonical_hashes b) = (Z.to_nat a + 1 + n)%nat ->
  decanonize_loop n a b = with_canonical b (take (Z.to_nat a + 1) (canonical_hashes b)).
Proof.
  intros Ha. revert b. induction n as [|n IH]; intros b Hl; cbn [decanonize_loop].
  - rewrite take_ge by lia. by destruct b.
  - assert (mb_decanonize_block (a + Z.of_nat (S n)) b
            = with_canonical b (take (Z.to_nat a + 1 + n) (canonical_hashes b))) as E.
    { unfold mb_decanonize_block, vector_resize. replace (Z.to_nat (a + Z.of_nat (S n))) with (Z.to_nat a + 1 + n)%nat by lia.
      replace (Z.to_nat a + 1 + n - length (canonical_hashes b))%nat with 0%nat by lia. by rewrite app_nil_r. }
    cbn [decanonize_block MemoryBuffer_StateBuffer]. rewrite E, IH; cbn [canonical_hashes with_canonical];
      [|rewrite length_take; lia]. unfold with_canonical. cbn. by rewrite take_take, Nat.min_l by lia.
Qed.

Lemma canonize_next (b : MemoryBuffer) n h : n = zlen (canonical_hashes b) ->
  canonize_block n h b = with_canonical b (canonical_hashes b ++ [h]).
Proof.
  intros ->. cbn. unfold mb_canonize_block, grow, vector_resize. rewrite (proj2 (Z.leb_le (zlen _) _)) by lia.
  rewrite Nat2Z.id, take_ge by lia. replace (_ + 1 - _)%nat with 1%nat by lia. cbn [replicate].
  by rewrite insert_app_r_alt, Nat.sub_diag by lia.
Qed.

(** The canonical chain, replaced above [a] by a branch. *)
Definition rebased (b : MemoryBuffer) (a : Z) (l : list BlockWithHash) : list bytes :=
  take (Z.to_nat a + 1) (canonical_hashes b) ++ map block_hash l.

Lemma canonize_branch (b : MemoryBuffer) a n h l : branch b a n h l ->
  0 <= a -> a < zlen (canonical_hashes b) ->
  canonize_chain a (zlen (canonical_hashes b) - 1) l b = with_canonical b (rebased b a l).
Proof.
  intros Hb Ha Hlt. unfold canonize_chain, rebased. rewrite decanonize_loop_eq by lia.
  induction Hb as [h Hc|n h l hd bd Hb IH Hn Hnum _ _]; [by rewrite app_nil_r|].
  rewrite foldl_app, IH. cbn [foldl block block_hash header]. rewrite Hnum, canonize_next.
  - unfold with_canonical. cbn. by rewrite map_app, app_assoc.
  - apply branch_length in Hb. cbn. rewrite length_app, length_map, length_take. lia.
Qed.

(** The rebased chain is linked. *)
Lemma rebased_ok (b : MemoryBuffer) a n h l : chain_ok b -> branch b a n h l -> 0 <= a ->
  let hs := rebased b a l in
  length hs = (Z.to_nat n + 1)%nat /\ hs !! Z.to_nat n = Some h
  /\ (forall i, 0 <= i <= a -> hs !! Z.to_nat i = canonical_hash b i)
  /\ forall i g, 0 <= i -> hs !! Z.to_nat i = Some g ->
       exists hd, read_header b i g = Some hd /\ (0 < i -> hs !! Z.to_nat (i - 1) = Some (parent_hash hd)).
Proof.
  intros Hok Hb Ha. unfold rebased. induction Hb as [h Hc|n h l hd bd Hb IH Hn Hnum Hh Hbd]; cbv zeta in *.
  - pose proof (canonical_number _ _ _ Ha Hc). rewrite app_nil_r, length_take.
    assert (forall i, 0 <= i <= a -> take (Z.to_nat a + 1) (canonical_hashes b) !! Z.to_nat i = canonical_hash b i) as E
      by (intros i Hi; rewrite canonical_lookup, lookup_take_lt by lia; done).
    split_and!; [lia|rewrite E by lia; done|done|].
    intros i g Hi Hg. pose proof (lookup_lt_Some _ _ _ Hg) as Hl. rewrite length_take in Hl. rewrite E in Hg by lia.
    destruct (ck_canonical _ Hok i g Hi Hg) as (hd & Hh & Hp). exists hd. split; [done|]. intros Hpos. rewrite E by lia. by apply Hp.
  - destruct IH as (Hlen & Hlast & Hlow & Hlink). pose proof (branch_number _ _ _ _ _ Hb).
    rewrite map_app, app_assoc. cbn [map block_hash]. set (hs := take _ _ ++ map block_hash l) in *.
    assert ((hs ++ [h]) !! Z.to_nat n = Some h) as Ehere
      by (rewrite lookup_app_r by lia; replace (Z.to_nat n - length hs)%nat with 0%nat by lia; done).
    split_and!; [rewrite length_app; cbn; lia|done|intros i Hi; rewrite lookup_app_l by lia; by apply Hlow|].
    intros i g Hi Hg. destruct (decide (i = n)) as [->|Hne].
    + rewrite Ehere in Hg. injection Hg as <-. exists hd. split; [done|]. intros _. by rewrite lookup_app_l by lia.
    + pose proof (lookup_lt_Some _ _ _ Hg) as Hl. rewrite length_app in Hl. cbn in Hl.
      rewrite lookup_app_l in Hg by lia. destruct (Hlink i g Hi Hg) as (hd' & Hh' & Hp). exists hd'. split; [done|].
      intros Hpos. rewrite lookup_app_l by lia. by apply Hp.
Qed.

Section Machine.
Context `{Evmone} `{Sig : Secp256k1} `{Gmp} `{Libff}.
Notation Blockchain := (Blockchain (B := MemoryBuffer)).
Implicit Types (bc : Blockchain).

(** ** Lemmas: the steps of an insertion keep the stored blocks *)

Lemma chain_execute_block_chain blk check bc err bc' :
  chain_execute_block blk check bc = Ok (err, bc') ->
  same_chain (state_ bc) (state_ bc') /\ bad_blocks_ bc' = bad_blocks_ bc.
Proof.
  unfold chain_execute_block.
  destruct (execute_block _ _ _ _ _ _) as [[[rs err1] e]|[]|] eqn:E; cbn [result_bind]; [|done..].
  apply execute_block_cases in E as (err2 & p & _ & Hdb%reaches_db & _ & _ & Herr & Hok).
  assert (same_chain (state_ bc) (db (state e))) as S.
  { destruct (decide (err1 = kOk)) as [->|Hne]; [|by rewrite Herr, Hdb].
    rewrite Hok by done. change (state (update_state ?f (evm_ p))) with (f (state (evm_ p))). by apply written_chain. }
  case_bool_decide; cbn [negb]; [|by intros [= <- <-]]. destruct check; [|by intros [= <- <-]].
  destruct (state_root_hash _) as [root|[]|]; [|done..].
  destruct (negb _); intros [= <- <-]; [|done]. split; [|done]. etransitivity; [exact S|]. apply unwound_chain.
Qed.

Lemma execute_chain_chain l check bc n err bc' : execute_chain l check bc = Ok (n, err, bc') ->
  same_chain (state_ bc) (state_ bc') /\ bad_blocks_ bc' = bad_blocks_ bc.
Proof.
  revert bc n err bc'. induction l as [|x l IH]; intros bc n err bc'; cbn [execute_chain]; [by intros [= <- <- <-]|].
  destruct (chain_execute_block _ _ _) as [[err1 bc1]|[]|] eqn:E; cbn [result_bind]; [|done..].
  apply chain_execute_block_chain in E as [S1 E1]. case_bool_decide; cbn [negb]; [|by intros [= <- <- <-]].
  destruct (execute_chain l check bc1) as [[[m err2] bc2]|[]|] eqn:E2; cbn [result_bind]; [|done..].
  intros [= _ _ <-]. apply IH in E2 as [S2 E2]. split; [by etransitivity|congruence].
Qed.

Lemma re_execute_loop_chain n : forall k bc bc', re_execute_loop n k bc = Ok bc' ->
  same_chain (state_ bc) (state_ bc') /\ bad_blocks_ bc' = bad_blocks_ bc.
Proof.
  induction n as [|n IH]; intros k bc bc'; cbn [re_execute_loop]; [by intros [= <-]|].
  destruct (canonical_block k (state_ bc)) as [blk|]; [|done].
  destruct (chain_execute_block _ _ _) as [[err1 bc1]|[]|] eqn:E; cbn [result_bind]; [|done..].
  apply chain_execute_block_chain in E as [S1 E1]. case_bool_decide; [|done]. intros [S2 E2]%IH.
  split; [by etransitivity|congruence].
Qed.

Lemma unwind_last_changes_chain a n bc bc' : unwind_last_changes a n bc = Ok bc' ->
  a <= n /\ same_chain (state_ bc) (state_ bc') /\ bad_blocks_ bc' = bad_blocks_ bc.
Proof.
  unfold unwind_last_changes. destruct (Z.leb_spec a n); cbn [negb]; [|done]. intros [= <-].
  split; [done|]. split; [|done]. apply unwind_loop_chain.
Qed.

Lemma back_to_canonical_chain a executed n bc bc' : back_to_canonical a executed n bc = Ok bc' ->
  same_chain (state_ bc) (state_ bc') /\ bad_blocks_ bc' = bad_blocks_ bc.
Proof.
  unfold back_to_canonical, re_execute_canonical_chain.
  destruct (unwind_last_changes _ _ _) as [bc1|[]|] eqn:E1; cbn [result_bind]; [|done..].
  apply unwind_last_changes_chain in E1 as (_ & S1 & E1). destruct (negb _); [done|]. intros [S2 E2]%re_execute_loop_chain.
  split; [by etransitivity|congruence].
Qed.

(** ** Lemmas: a new block *)

(** An inserted block of a stored parent: all of [chain_ok] but the comparison with the tip. *)
Lemma insert_block_stored (b : MemoryBuffer) blk hash p td :
  let N := number (header blk) in let b' := insert_block blk hash b in
  chain_ok b -> 0 < N < 2 ^ 63 - 1 ->
  read_header b (N - 1) (parent_hash (header blk)) = Some p ->
  total_difficulty b (N - 1) (parent_hash (header blk)) = Some td ->
  canonical_hash b N <> Some hash ->
  zlen (headers b') <= 2 ^ 63
  /\ (forall n h hd, 0 <= n -> read_header b' n h = Some hd ->
        number hd = n /\ is_Some (read_body b' n h) /\ is_Some (total_difficulty b' n h)
        /\ (0 < n -> is_Some (read_header b' (n - 1) (parent_hash hd))))
  /\ (forall h, is_Some (read_header b' 0 h) -> canonical_hash b 0 = Some h)
  /\ forall n h, 0 <= n -> canonical_hash b n = Some h ->
       read_header b' n h = read_header b n h /\ total_difficulty b' n h = total_difficulty b n h.
Proof.
  intros N b' Hok HN Hp Htd Hnew. unfold N, b' in *.
  split; [|split; [|split]].
  - cbn. rewrite length_alter. unfold grow. destruct (Z.leb_spec (zlen (headers b)) (number (header blk))).
    + rewrite length_vector_resize. lia.
    + by apply Hok.
  - intros n h hd Hn. rewrite read_header_insert, read_body_insert by lia.
    rewrite (total_difficulty_insert b blk hash td n h) by (lia || done).
    case_decide as Hd.
    + destruct Hd as [<- <-]. intros [= <-]. split_and!; [done|done|done|]. intros _.
      rewrite read_header_insert, decide_False by lia. by rewrite Hp.
    + intros Hh. destruct (ck_stored _ Hok n h hd Hn Hh) as (? & ? & ? & Hpar). split_and!; [done..|].
      intros Hpos. rewrite read_header_insert by lia. case_decide; [done|]. by apply Hpar.
  - intros h. rewrite read_header_insert, decide_False by lia. apply Hok.
  - intros n h Hn Hc. rewrite read_header_insert by lia.
    rewrite (total_difficulty_insert b blk hash td n h) by (lia || done).
    by destruct (decide (number (header blk) = n /\ hash = h)) as [[<- <-]|].
Qed.

Lemma branch_ancestor b a n h l : branch b a n h l -> is_Some (canonical_hash b a).
Proof. induction 1; [by eexists|done]. Qed.

Lemma branch_insert b a n h l blk hash : branch b a n h l -> 0 <= a -> n < number (header blk) ->
  branch (insert_block blk hash b) a n h l.
Proof.
  intros Hb Ha. induction Hb as [h Hc|n h l hd bd Hb IH Hn Hnum Hh Hbd]; intros HN; [by constructor|].
  constructor; try done; [apply IH; lia| |]; rewrite ?read_header_insert, ?read_body_insert, decide_False by lia; done.
Qed.

Lemma canonical_tip (b : MemoryBuffer) : chain_ok b ->
  exists h td, canonical_hash b (current_canonical_block b) = Some h
    /\ total_difficulty b (current_canonical_block b) h = Some td /\ 0 <= current_canonical_block b.
Proof.
  intros Hok. pose proof (proj2 (ck_size _ Hok)) as Hsz. pose proof (tip_number _ Hok) as Et. rewrite Et.
  destruct (lookup_lt_is_Some_2 (canonical_hashes b) (Z.to_nat (zlen (canonical_hashes b) - 1))) as [h Eh]; [lia|].
  rewrite canonical_lookup by lia. destruct (ck_canonical _ Hok (zlen (canonical_hashes b) - 1) h) as (hd & Hh & _);
    [lia|by rewrite canonical_lookup by lia|].
  assert (0 <= zlen (canonical_hashes b) - 1) as Hpos by lia.
  destruct (ck_stored _ Hok _ h hd Hpos Hh) as (_ & _ & [td Htd] & _). exists h, td. split_and!; [done..|lia].
Qed.

(** What the insertion of a block decides: the stored block, and the canonical chain with the greater difficulty. *)
Record inserted (blk : Block) (hash : bytes) (b b' : MemoryBuffer) : Prop := {
  in_ok : chain_ok b';
  in_header : read_header b' (number (header blk)) hash = Some (header blk);
  in_body : read_body b' (number (header blk)) hash = Some (body blk);
  in_choice : exists td tip_hash td_tip,
    let total := u256 (td + difficulty (header blk)) in
    total_difficulty b (number (header blk) - 1) (parent_hash (header blk)) = Some td
    /\ total_difficulty b' (number (header blk)) hash = Some total
    /\ canonical_hash b (current_canonical_block b) = Some tip_hash
    /\ total_difficulty b (current_canonical_block b) tip_hash = Some td_tip
    /\ if decide (td_tip < total)
       then current_canonical_block b' = number (header blk) /\ canonical_hash b' (number (header blk)) = Some hash
       else canonical_hashes b' = canonical_hashes b
}.

(** A lighter block is stored beside the canonical chain. *)
Lemma insert_lighter (b : MemoryBuffer) blk hash p td tip_hash td_tip :
  let N := number (header blk) in let b' := insert_block blk hash b in
  chain_ok b -> 0 < N < 2 ^ 63 - 1 ->
  read_header b (N - 1) (parent_hash (header blk)) = Some p ->
  total_difficulty b (N - 1) (parent_hash (header blk)) = Some td ->
  canonical_hash b N <> Some hash ->
  canonical_hash b (current_canonical_block b) = Some tip_hash ->
  total_difficulty b (current_canonical_block b) tip_hash = Some td_tip ->
  u256 (td + difficulty (header blk)) <= td_tip -> chain_ok b'.
Proof.
  intros N b' Hok HN Hp Htd Hnew Htip Htt Hle.
  destruct (insert_block_stored b blk hash p td Hok HN Hp Htd Hnew) as (Hsz & Hst & Hgen & Hsame).
  destruct (canonical_tip b Hok) as (? & ? & _ & _ & Htip0).
  change (canonical_hash b) with (canonical_hash b') in Hgen, Htip.
  change (current_canonical_block b) with (current_canonical_block b') in *.
  split; [split; [exact Hsz|apply Hok]|exact Hst|exact Hgen| |].
  - intros n h Hn Hc. fold b' in Hsame. destruct (Hsame n h Hn Hc) as [-> _]. by apply Hok.
  - intros n h tdn th tt Hn [hd Hh] Hx Ht. rewrite Htip in Ht. injection Ht as <-.
    fold b' in Hsame. destruct (Hsame (current_canonical_block b') tip_hash Htip0 Htip) as [_ ->]. rewrite Htt. intros [= <-].
    unfold b' in Hx, Hh. rewrite (total_difficulty_insert b blk hash td n h) in Hx by (lia || done).
    rewrite read_header_insert in Hh by lia. fold N in Hx, Hh. case_decide; [by injection Hx as <-|].
    eapply (ck_heaviest b Hok n h tdn); eauto.
Qed.

(** A heavier block becomes the tip, with its branch below it. *)
Lemma insert_heavier (b : MemoryBuffer) blk hash p td tip_hash td_tip a l :
  let N := number (header blk) in let b' := insert_block blk hash b in
  let chain := l ++ [mkBlockWithHash blk hash] in
  chain_ok b -> 0 < N < 2 ^ 63 - 1 ->
  read_header b (N - 1) (parent_hash (header blk)) = Some p ->
  total_difficulty b (N - 1) (parent_hash (header blk)) = Some td ->
  canonical_hash b N <> Some hash ->
  canonical_hash b (current_canonical_block b) = Some tip_hash ->
  total_difficulty b (current_canonical_block b) tip_hash = Some td_tip ->
  td_tip < u256 (td + difficulty (header blk)) ->
  branch b a (N - 1) (parent_hash (header blk)) l -> 0 <= a ->
  let b2 := canonize_chain a (current_canonical_block b) chain b' in
  chain_ok b2 /\ current_canonical_block b2 = N /\ canonical_hash b2 N = Some hash
  /\ headers b2 = headers b' /\ bodies b2 = bodies b' /\ difficulties b2 = difficulties b'.
Proof.
  intros N b' chain Hok HN Hp Htd Hnew Htip Htt Hlt Hb Ha.
  destruct (insert_block_stored b blk hash p td Hok HN Hp Htd Hnew) as (Hsz & Hst & Hgen & Hsame).
  assert (branch b' a N hash chain) as Hb'.
  { pose proof (branch_number _ _ _ _ _ Hb). unfold chain. destruct blk as [bd hd]. apply branch_block; [|lia|done| |].
    - apply branch_insert; [done..|]. lia.
    - unfold b', N. rewrite read_header_insert, decide_True by (cbn in *; lia || done). done.
    - unfold b', N. rewrite read_body_insert, decide_True by (cbn in *; lia || done). done. }
  destruct (branch_ancestor _ _ _ _ _ Hb) as [ha Hha]. pose proof (canonical_number _ _ _ Ha Hha) as Hlen.
  rewrite (tip_number _ Hok). change (canonical_hashes b) with (canonical_hashes b') in *.
  intros b2. assert (b2 = with_canonical b' (rebased b' a chain)) as Eb2 by (by apply canonize_branch with (n := N) (h := hash)).
  clearbody b2. subst b2.
  assert (rebased b' a chain = rebased b a l ++ [hash]) as Er
    by (unfold rebased, chain; rewrite map_app, app_assoc; done).
  destruct (rebased_ok b a _ _ l Hok Hb Ha) as (Hl & Hlast & Hlow & Hlink). set (hs := rebased b a l) in *.
  pose proof (branch_number _ _ _ _ _ Hb) as HaN.
  assert (forall i, 0 <= i -> i < N -> canonical_hash (with_canonical b' (hs ++ [hash])) i = hs !! Z.to_nat i) as Hcan
    by (intros i Hi HiN; rewrite canonical_lookup by done; cbn; by rewrite lookup_app_l by lia).
  assert (canonical_hash (with_canonical b' (hs ++ [hash])) N = Some hash) as HcanN.
  { rewrite canonical_lookup by lia. cbn. rewrite lookup_app_r by lia.
    by replace (Z.to_nat N - length hs)%nat with 0%nat by lia. }
  assert (current_canonical_block (with_canonical b' (hs ++ [hash])) = N) as Htip2.
  { cbn. unfold mb_current_canonical_block. cbn. rewrite length_app. cbn. unfold u64, wrap. rewrite Z.mod_small; lia. }
  rewrite Er. split; [|done].
  split.
  - split; [exact Hsz|]. cbn. rewrite length_app. cbn. lia.
  - exact Hst.
  - intros h Hh. rewrite Hcan by lia. rewrite Hlow by lia. by apply Hgen.
  - intros n h Hn Hc. destruct (decide (n < N)) as [HnN|HnN].
    + rewrite Hcan in Hc by done. destruct (Hlink n h Hn Hc) as (hd & Hh & Hpar). exists hd. split.
      * change (read_header (with_canonical b' (hs ++ [hash])) n h) with (read_header b' n h). unfold b'.
        rewrite read_header_insert by lia. by rewrite decide_False by (unfold N in *; lia).
      * intros Hpos. rewrite Hcan by lia. by apply Hpar.
    + assert (n = N) as ->.
      { apply canonical_number in Hc; [|done]. cbn in Hc. rewrite length_app in Hc. cbn in Hc. lia. }
      rewrite HcanN in Hc. injection Hc as <-. exists (header blk). split; [|intros _; rewrite Hcan by lia; done].
      change (read_header (with_canonical b' (hs ++ [hash])) N hash) with (read_header b' N hash). unfold b'.
      rewrite read_header_insert by lia. by rewrite decide_True.
  - intros n h x th tt Hn [hd Hh] Hx. rewrite Htip2, HcanN. intros [= <-].
    change (total_difficulty (with_canonical b' (hs ++ [hash]))) with (total_difficulty b') in *.
    change (read_header (with_canonical b' (hs ++ [hash])) n h) with (read_header b' n h) in Hh. unfold b' in *.
    rewrite (total_difficulty_insert b blk hash td) in * by (lia || done). fold N in Hx |- *. rewrite decide_True by done. intros [= <-].
    rewrite read_header_insert in Hh by lia. fold N in Hh. case_decide; [by injection Hx as <-|].
    transitivity td_tip; [|lia]. eapply (ck_heaviest b Hok n h x); eauto.
Qed.

(** ** Lemmas: the whole insertion *)

Lemma canonical_ancestor_same fuel (b b' : MemoryBuffer) : same_chain b b' -> forall h hash,
  canonical_ancestor_loop fuel h hash b' = canonical_ancestor_loop fuel h hash b.
Proof.
  intros S. destruct (same_chain_readers _ _ S) as (Hh & _ & _ & Hc & _).
  induction fuel as [|fuel IH]; intros h hash; cbn [canonical_ancestor_loop]; rewrite Hc; [done|].
  case_bool_decide; [done|]. rewrite Hh. destruct (read_header _ _ _); cbn [mbind option_bind]; [|done]. apply IH.
Qed.

Lemma pre_validated_parent blk (b : MemoryBuffer) config kept kept' :
  pre_validate_block blk b config kept = Ok (kOk, kept') -> is_Some (get_parent b (header blk)).
Proof.
  unfold pre_validate_block, validate_block_header.
  do 4 (match goal with |- context [if ?c then _ else _] => destruct c; [by case_bool_decide|] end).
  destruct (get_parent b (header blk)); [by eexists|]. by case_bool_decide.
Qed.

Lemma parent_number (b : MemoryBuffer) h : zlen (headers b) <= 2 ^ 63 -> 0 <= number h < 2 ^ 64 ->
  is_Some (get_parent b h) -> 0 < number h /\ u64 (number h - 1) = number h - 1.
Proof.
  intros Hsz Hn [p Hp]. unfold get_parent in Hp. cbn in Hp. unfold mb_read_header, block_lookup in Hp.
  destruct (Z.leb_spec (zlen (headers b)) (u64 (number h - 1))) as [|Hlt]; [done|].
  unfold u64, wrap in *. destruct (decide (number h = 0)) as [E|].
  - rewrite E in Hlt. change ((0 - 1) mod 2 ^ 64) with (2 ^ 64 - 1) in Hlt. lia.
  - rewrite Z.mod_small by lia. lia.
Qed.

Lemma same_chain_sym (b b' : MemoryBuffer) : same_chain b b' -> same_chain b' b.
Proof. intros []. by split. Qed.

Lemma intermediate_chain_same (b b' : MemoryBuffer) n h a : same_chain b b' ->
  intermediate_chain n h a b' = intermediate_chain n h a b.
Proof.
  intros S. destruct (same_chain_readers _ _ S) as (Hh & Hb & _). unfold intermediate_chain. destruct (n <? a); [done|].
  assert (forall k n h l, intermediate_loop k n h b' l = intermediate_loop k n h b l) as ->; [|done].
  induction k as [|k IH]; intros n' h' l; cbn [intermediate_loop]; [done|]. rewrite Hb, Hh.
  destruct (read_body b n' h'); cbn [mbind option_bind]; [|done]. destruct (read_header b n' h'); cbn [mbind option_bind]; [|done].
  apply IH.
Qed.

(** The branch below a block whose parent is stored. *)
Lemma new_block_branch (b : MemoryBuffer) blk hash a chain :
  let N := number (header blk) in
  chain_ok b -> 0 < N -> u64 (N - 1) = N - 1 -> is_Some (get_parent b (header blk)) ->
  canonical_ancestor (header blk) hash b = Ok a ->
  intermediate_chain (N - 1) (parent_hash (header blk)) a b = Ok chain ->
  0 <= a /\ canonical_hash b N <> Some hash /\ branch b a (N - 1) (parent_hash (header blk)) chain
  /\ (canonical_hash b (N - 1) = Some (parent_hash (header blk)) -> a = N - 1).
Proof.
  intros N Hok HN Eu [p Hp]. unfold canonical_ancestor, intermediate_chain.
  replace (Z.to_nat (number (header blk))) with (S (Z.to_nat (N - 1))) by (unfold N in *; lia).
  cbn [canonical_ancestor_loop]. fold N. case_bool_decide as Hc.
  { intros [= <-]. by rewrite (proj2 (Z.ltb_lt (N - 1) N)) by lia. }
  unfold get_parent in Hp. fold N in Hp. rewrite Hp. cbn [mbind option_bind]. rewrite Eu in Hp.
  destruct (canonical_ancestor_branch b (Z.to_nat (N - 1)) (N - 1) (parent_hash (header blk)) p)
    as (a' & l & -> & Ha & Hb & Htip & Hl); [done|lia|done|lia|].
  intros [= <-]. destruct (_ <? _); [done|]. rewrite Hl, app_nil_r. by intros [= <-].
Qed.

Lemma choose_branch_spec blk hash chain a executed bc bc' :
  let N := number (header blk) in
  chain_ok (state_ bc) -> 0 < N < 2 ^ 63 - 1 -> u64 (N - 1) = N - 1 -> is_Some (get_parent (state_ bc) (header blk)) ->
  0 <= a -> canonical_hash (state_ bc) N <> Some hash ->
  branch (state_ bc) a (N - 1) (parent_hash (header blk)) chain ->
  choose_branch blk hash (chain ++ [mkBlockWithHash blk hash]) a (current_canonical_block (state_ bc)) executed bc = Ok bc' ->
  inserted blk hash (state_ bc) (state_ bc').
Proof.
  intros N Hok HN Eu [p Hp] Ha Hnew Hb. unfold get_parent in Hp. fold N in Hp. rewrite Eu in Hp.
  destruct (ck_stored _ Hok (N - 1) (parent_hash (header blk)) p) as (_ & _ & [td Htd] & _); [lia|done|].
  destruct (canonical_tip _ Hok) as (tip_hash & td_tip & Htip & Htt & Ht0).
  destruct (insert_block_stored _ blk hash p td Hok HN Hp Htd Hnew) as (_ & _ & _ & Hsame).
  destruct (Hsame _ _ Ht0 Htip) as [_ Htt'].
  unfold choose_branch. cbn [state_ update_buffer with_buffer].
  change (canonical_hash (insert_block blk hash (state_ bc))) with (canonical_hash (state_ bc)).
  rewrite Htip. cbn [mbind option_bind]. rewrite Htt', Htt.
  rewrite (total_difficulty_insert _ blk hash td) by (unfold N in *; lia || done). rewrite decide_True by done.
  assert (read_header (insert_block blk hash (state_ bc)) N hash = Some (header blk)) as Eh
    by (rewrite read_header_insert by (unfold N in *; lia); by rewrite decide_True).
  assert (read_body (insert_block blk hash (state_ bc)) N hash = Some (body blk)) as Ebd
    by (rewrite read_body_insert by (unfold N in *; lia); by rewrite decide_True).
  assert (total_difficulty (insert_block blk hash (state_ bc)) N hash = Some (u256 (td + difficulty (header blk)))) as Etd
    by (rewrite (total_difficulty_insert _ blk hash td) by (unfold N in *; lia || done); by rewrite decide_True).
  fold N. destruct (Z.ltb_spec td_tip (u256 (td + difficulty (header blk)))) as [Hlt|Hle].
  - intros [= <-]. cbn [state_ update_buffer with_buffer].
    destruct (insert_heavier (state_ bc) blk hash p td tip_hash td_tip a chain Hok HN Hp Htd Hnew Htip Htt Hlt Hb Ha)
      as (Hok2 & Hn2 & Hc2 & Eh2 & Eb2 & Ed2).
    set (b2 := canonize_chain _ _ _ _) in *. clearbody b2.
    split; [exact Hok2| | |].
    + cbn. unfold mb_read_header. rewrite Eh2. exact Eh.
    + cbn. unfold mb_read_body. rewrite Eb2. exact Ebd.
    + exists td, tip_hash, td_tip. cbv zeta. rewrite decide_True by done. split_and!; try done.
      cbn. unfold mb_total_difficulty. rewrite Ed2. exact Etd.
  - intros [S _]%back_to_canonical_chain. cbn [state_ update_buffer with_buffer] in S.
    destruct (same_chain_readers _ _ S) as (Sh & Sb & St & _ & _).
    split.
    + eapply same_chain_ok; [exact S|]. eapply insert_lighter; eauto.
    + rewrite Sh. exact Eh.
    + rewrite Sb. exact Ebd.
    + exists td, tip_hash, td_tip. cbv zeta. rewrite decide_False by lia. split_and!; try done; [by rewrite St|].
      by rewrite (sc_canonical _ _ S).
Qed.

Lemma branch_same (b b' : MemoryBuffer) a n h l : same_chain b b' -> branch b a n h l -> branch b' a n h l.
Proof.
  intros S. destruct (same_chain_readers _ _ S) as (Rh & Rb & _ & Rc & _).
  induction 1; [constructor; by rewrite Rc|]. constructor; rewrite ?Rh, ?Rb; done.
Qed.

Lemma inserted_same blk hash (b b1 b' : MemoryBuffer) :
  same_chain b b1 -> inserted blk hash b1 b' -> inserted blk hash b b'.
Proof.
  intros S. destruct (same_chain_readers _ _ S) as (_ & _ & Rt & Rc & Rn). intros [Hok Hh Hb (td & th & tt & Hc)].
  split; [done..|]. exists td, th, tt. cbv zeta in *. by rewrite Rt, Rc, Rn, Rt, (sc_canonical _ _ S) in Hc.
Qed.

Lemma choose_branch_bad blk hash chain a n executed bc bc' :
  choose_branch blk hash chain a n executed bc = Ok bc' -> bad_blocks_ bc' = bad_blocks_ bc.
Proof.
  unfold choose_branch. destruct (mbind _ _) as [td|]; [|done]. destruct (match total_difficulty _ _ _ with Some _ => _ | None => _ end);
    [by intros [= <-]|]. intros [_ E]%back_to_canonical_chain. exact E.
Qed.

(** What an insertion keeps: the chains, and that no block is remembered as bad for no reason. *)
Definition blockchain_ok bc : Prop := chain_ok (state_ bc) /\ forall h, bad_blocks_ bc !! h <> Some kOk.

Lemma insert_block_spec blk check bc err blk' bc' :
  blockchain_ok bc -> 0 <= number (header blk) < 2 ^ 63 - 1 ->
  chain_insert_block blk check bc = Ok (err, blk', bc') ->
  header blk' = header blk /\ blockchain_ok bc'
  /\ (err <> kOk -> same_chain (state_ bc) (state_ bc'))
  /\ (err = kOk -> inserted blk' (block_header_hash (header blk) false) (state_ bc) (state_ bc')).
Proof.
  intros [Hok Hbad] HN. unfold chain_insert_block.
  destruct (pre_validate_block _ _ _ _) as [[err0 kept]|[]|] eqn:E0; [|done..].
  case_bool_decide as He0; cbn [negb]; [subst err0|by intros [= <- <- <-]].
  apply pre_validated_parent in E0 as Hpar. set (hash := block_header_hash (header blk) false).
  change (bad_blocks_ (with_kept kept bc)) with (bad_blocks_ bc). destruct (bad_blocks_ bc !! hash) as [err1|] eqn:Ebad.
  { intros [= <- <- <-]. split_and!; [done|by split|done|]. intros ->. by destruct (Hbad hash). }
  set (b := recover_senders Sig blk). change (header b) with (header blk). change (state_ (with_kept kept bc)) with (state_ bc).
  assert (0 <= number (header blk) < 2 ^ 64) as HN' by lia.
  destruct (parent_number _ _ (proj1 (ck_size _ Hok)) HN' Hpar) as [Hpos Eu]. rewrite Eu.
  destruct (canonical_ancestor (header blk) hash (state_ bc)) as [a|[]|] eqn:Ea; cbn [result_bind]; [|done..].
  destruct (unwind_last_changes _ _ _) as [bc1|[]|] eqn:E1; cbn [result_bind]; [|done..].
  apply unwind_last_changes_chain in E1 as (_ & S1 & B1). change (state_ (with_kept kept bc)) with (state_ bc) in S1.
  destruct (intermediate_chain _ _ _ _) as [chain|[]|] eqn:Ec; cbn [result_bind]; [|done..].
  destruct (execute_chain _ _ _) as [[[executed err2] bc2]|[]|] eqn:E2; cbn [result_bind]; [|done..].
  apply execute_chain_chain in E2 as [S2 B2].
  case_bool_decide as He2; cbn [negb].
  - destruct (choose_branch _ _ _ _ _ _ _) as [bc3|[]|] eqn:E3; cbn [result_bind]; [|done..]. intros [= <- <- <-].
    split; [done|].
    assert (same_chain (state_ bc) (state_ bc2)) as S by (by etransitivity).
    destruct (same_chain_readers _ _ S1) as (R1 & _ & _ & C1 & T1). destruct (same_chain_readers _ _ S) as (R & _ & _ & C & T).
    assert (is_Some (get_parent (state_ bc1) (header blk))) as Hpar1 by (unfold get_parent in *; by rewrite R1).
    assert (canonical_ancestor (header blk) hash (state_ bc1) = Ok a) as Ea1
      by (unfold canonical_ancestor in *; by rewrite (canonical_ancestor_same _ _ _ S1)).
    destruct (new_block_branch (state_ bc1) b hash a chain) as (Ha & Hnew & Hb & _); try done; [by eapply same_chain_ok|].
    assert (inserted b hash (state_ bc2) (state_ bc3)) as Hin.
    { apply (choose_branch_spec b hash chain a executed bc2 bc3); try done.
      - by eapply same_chain_ok.
      - change (header b) with (header blk). lia.
      - unfold get_parent in *. by rewrite (proj1 (same_chain_readers _ _ S2)).
      - destruct (same_chain_readers _ _ S2) as (_ & _ & _ & C2 & _). by rewrite C2.
      - by apply (branch_same _ _ _ _ _ _ S2).
      - rewrite T. exact E3. }
    split; [split; [apply Hin|]|split; [done|intros _; by eapply inserted_same]].
    intros h. rewrite (choose_branch_bad _ _ _ _ _ _ _ _ E3), B2, B1. apply Hbad.
  - destruct (back_to_canonical _ _ _ _) as [bc3|[]|] eqn:E3; cbn [result_bind]; [|done..]. intros [= <- <- <-].
    apply back_to_canonical_chain in E3 as [S3 B3]. cbn [state_ bad_blocks_ with_bad_block] in S3, B3.
    assert (same_chain (state_ bc) (state_ bc3)) as S by (etransitivity; [exact S1|]; by etransitivity).
    split_and!; try done. split; [by eapply same_chain_ok|]. intros h. rewrite B3.
    destruct (decide (hash = h)) as [<-|Hne]; [rewrite lookup_insert_eq; by intros [= ->]|].
    rewrite lookup_insert_ne, B2, B1 by done. apply Hbad.
Qed.

(** ** Lemmas: the accounts and storage of a rejected block *)

Definition same_accounts (b b' : MemoryBuffer) : Prop :=
  (forall a, read_account b' a = read_account b a) /\ forall a i k, read_storage b' a i k = read_storage b a i k.

(** What is asked of the buffer and of the execution of a block for its writes to be undone by unwinding them: no storage
    under incarnation zero, words of 32 bytes, and that contracts which the block creates get incarnations without
    storage. The last fails when a contract is created again in the block that destroyed it
    ([BlockState.recreated_contract_sees_old_storage]). *)
Record unwindable (blk : Block) bc : Prop := {
  uw_zero : zero_incarnation_empty (state_ bc);
  uw_words : words_ok (state_ bc);
  uw_fresh : forall rs p,
    processor_execute_block (block_processor blk (state_ bc) (config_ bc) None (pool_ bc) (exo_evm_ bc)) = Ok (rs, kOk, p) ->
    incarnations_fresh (state_ bc) (state (evm_ p))
}.

Lemma chain_execute_block_restores blk check bc err bc' :
  (check = true -> err = kWrongStateRoot -> unwindable blk bc) ->
  chain_execute_block blk check bc = Ok (err, bc') -> err <> kOk -> same_accounts (state_ bc) (state_ bc').
Proof.
  intros Huw. unfold chain_execute_block.
  destruct (execute_block _ _ _ _ _ _) as [[[rs err1] e]|[]|] eqn:E; cbn [result_bind]; [|done..].
  apply execute_block_cases in E as (err2 & p & Ep & Hr & _ & Hok & Herr & Hwrite).
  case_bool_decide as He; cbn [negb].
  - subst err1. rewrite (Hok eq_refl) in Ep. rewrite (Hwrite eq_refl).
    destruct check; [|by intros [= <- _]]. destruct (state_root_hash _) as [root|[]|]; [|done..].
    destruct (negb _); intros [= <- <-]; [|done]. intros _. destruct (Huw eq_refl eq_refl) as [Hz Hw Hf]. specialize (Hf _ _ Ep).
    change (state_ (update_buffer ?f ?c)) with (f (state_ c)). cbn [state_ with_pool with_buffer].
    change (state (update_state ?f (evm_ p))) with (f (state (evm_ p))).
    rewrite write_to_db_eq, (reaches_db _ _ Hr). apply undoes_unwind; [done|].
    apply writes_undoes; [apply begin_undoes|]. apply block_writes_initial_ok; [|done]. by apply reach_ok.
  - intros [= <- <-] _. cbn [state_ with_pool with_buffer]. by rewrite (Herr He), (reaches_db _ _ Hr).
Qed.

(** Nothing is unwound or executed between a number and itself. *)
Lemma unwind_nothing a bc : unwind_last_changes a a bc = Ok (update_buffer (fun b => b) bc).
Proof. unfold unwind_last_changes. by rewrite Z.leb_refl, Z.sub_diag. Qed.

Lemma back_to_tip a bc : back_to_canonical a 0 a bc = Ok (update_buffer (fun b => b) bc).
Proof.
  unfold back_to_canonical, re_execute_canonical_chain. rewrite Z.add_0_r, unwind_nothing. cbn [result_bind].
  by rewrite Z.leb_refl, Z.sub_diag.
Qed.

(** ** Chains that are built by insertions *)

(** A buffer without blocks, and a genesis block under number 0. *)
Definition fresh_store (b : MemoryBuffer) : Prop :=
  headers b = [] /\ bodies b = [] /\ difficulties b = [] /\ canonical_hashes b = [].

Inductive chain_reaches (bc0 : Blockchain) : Blockchain -> Prop :=
| reach_genesis : chain_reaches bc0 bc0
| reach_insertion bc blk check err blk' bc' :
    chain_reaches bc0 bc -> 0 <= number (header blk) < 2 ^ 63 - 1 ->
    chain_insert_block blk check bc = Ok (err, blk', bc') -> chain_reaches bc0 bc'.

Lemma new_blockchain_ok (s : MemoryBuffer) config genesis :
  fresh_store s -> number (header genesis) = 0 -> blockchain_ok (new_blockchain s config genesis).
Proof.
  intros (Eh & Eb & Ed & Ec) En. split; [|intros h; unfold new_blockchain; cbn; by rewrite lookup_empty].
  unfold new_blockchain. cbn [state_]. set (g := block_header_hash _ _). rewrite En.
  set (b := canonize_block 0 g (insert_block genesis g s)).
  assert (headers b = [{[g := header genesis]}] /\ bodies b = [{[g := body genesis]}]
          /\ difficulties b = [{[g := u256 (0 + difficulty (header genesis))]}] /\ canonical_hashes b = [g]) as (Hh & Hb & Hd & Hc).
  { unfold b. cbn. unfold mb_canonize_block, mb_insert_block, with_canonical. cbn. by rewrite En, Eh, Eb, Ed, Ec. }
  assert (forall {A} (x : A) n h, block_lookup [({[g := x]} : gmap bytes A)] n h = if decide (n <= 0 /\ h = g) then Some x else None) as L.
  { intros A x n h. unfold block_lookup. cbn [length]. change (Z.of_nat 1) with 1. destruct (Z.leb_spec 1 n).
    - by rewrite decide_False by lia.
    - replace (Z.to_nat n) with 0%nat by lia. cbn. destruct (decide (h = g)) as [->|Hne].
      + by rewrite lookup_singleton_eq, decide_True by (split; [lia|done]).
      + rewrite lookup_singleton_ne by done. by rewrite decide_False by tauto. }
  clearbody b.
  assert (forall n h, canonical_hash b n = Some h -> 0 <= n -> n = 0 /\ h = g) as Hcan.
  { intros n h Hn Hn0. rewrite canonical_lookup, Hc in Hn by done. destruct (Z.to_nat n) eqn:E; [|done]. injection Hn as <-.
    split; [lia|done]. }
  assert (canonical_hash b 0 = Some g) as Hc0 by (rewrite canonical_lookup, Hc by lia; done).
  assert (current_canonical_block b = 0) as Ht by (cbn; unfold mb_current_canonical_block; by rewrite Hc).
  split; cbn; unfold mb_read_header, mb_read_body, mb_total_difficulty; rewrite ?Hh, ?Hb, ?Hd, ?Hc; try setoid_rewrite L.
  - cbn. lia.
  - intros n h hd Hn. case_decide as He; [|done]. intros [= <-]. split_and!; [lia|by eexists..|lia].
  - intros h. case_decide as He; [|by intros [? ?]]. destruct He as [_ ->]. intros _. exact Hc0.
  - intros n h Hn Hcn. destruct (Hcan n h Hcn Hn) as [-> ->]. exists (header genesis). by rewrite decide_True.
  - intros n h td th tt Hn _ Htd Hth. change (mb_current_canonical_block b) with (current_canonical_block b) in *.
    rewrite Ht in *. destruct (Hcan 0 th Hth) as [_ ->]; [lia|].
    rewrite (decide_True (P := 0 <= 0 /\ g = g)) by done. intros [= <-]. case_decide; [by injection Htd as <-|done].
Qed.

(** * Properties *)

(** C10: Whatever blocks are inserted after the genesis block, in any order and with any outcome, the stored blocks
    stay linked down to the genesis block, the canonical hashes are those of linked stored headers, and no stored
    block has a greater total difficulty than the canonical tip. *)
Theorem canonical_chain_heaviest (s : MemoryBuffer) (config : ChainConfig) (genesis : Block) (bc : Blockchain) :
  fresh_store s -> number (header genesis) = 0 -> chain_reaches (new_blockchain s config genesis) bc ->
  chain_ok (state_ bc).
Proof.
  intros Hs Hg R. assert (blockchain_ok bc) as [Hok _]; [|exact Hok].
  induction R as [|bc blk check err blk' bc' _ IH Hn E]; [by apply new_blockchain_ok|].
  by apply (insert_block_spec _ _ _ _ _ _ IH Hn) in E as (_ & ? & _).
Qed.

(** C12: An insertion that returns an error changes no stored block and no canonical hash. One that returns kOk has
    stored the block, with the total difficulty of its parent plus its own; if that is more than the tip's the
    block is the new canonical tip, otherwise the canonical chain is as before. *)
Theorem insert_block_decides (blk : Block) (check : bool) (bc : Blockchain) (err : ValidationResult) (blk' : Block)
    (bc' : Blockchain) :
  blockchain_ok bc -> 0 <= number (header blk) < 2 ^ 63 - 1 ->
  chain_insert_block blk check bc = Ok (err, blk', bc') ->
  header blk' = header blk
  /\ (err <> kOk -> same_chain (state_ bc) (state_ bc'))
  /\ (err = kOk -> inserted blk' (block_header_hash (header blk) false) (state_ bc) (state_ bc')).
Proof. intros Hok Hn E. by apply (insert_block_spec _ _ _ _ _ _ Hok Hn) in E as (? & _ & ?). Qed.

(** C36: From every stored block the search for the canonical ancestor ends, with a number that is canonical, and the
    intermediate chain from there up to the block is stored: neither follows a hash to a block that is missing. *)
Theorem canonical_ancestor_found (b : MemoryBuffer) (n : Z) (h : bytes) (hd : BlockHeader) :
  chain_ok b -> 0 <= n -> read_header b n h = Some hd ->
  exists a l, canonical_ancestor hd h b = Ok a /\ 0 <= a <= n /\ is_Some (canonical_hash b a)
    /\ intermediate_chain n h a b = Ok l /\ branch b a n h l.
Proof.
  intros Hok Hn Hh. destruct (ck_stored _ Hok n h hd Hn Hh) as (Hnum & _).
  destruct (canonical_ancestor_branch b (Z.to_nat n) n h hd Hok Hn Hh) as (a & l & Ea & Ha & Hb & _ & Hl); [lia|].
  pose proof (branch_number _ _ _ _ _ Hb) as Hle. exists a, l. unfold canonical_ancestor, intermediate_chain.
  rewrite Hnum, Ea, (proj2 (Z.ltb_ge n a)), Hl, app_nil_r by lia.
  split_and!; try done. by eapply branch_ancestor.
Qed.

(** C11: A block on the canonical tip that is rejected, before, during or after its execution, leaves every account and
    every storage word as they were. This holds without a condition unless it is rejected for its state root, when its
    writes are in the buffer already and are unwound: then it holds if they can be ([unwindable]: storage words have 32
    bytes and none is under incarnation zero, and the contracts that the block created got incarnations without storage,
    which a contract that the same block destroyed and created again need not). *)
Theorem rejected_block_restores (blk : Block) (check : bool) (bc : Blockchain) (err : ValidationResult) (blk' : Block)
    (bc' : Blockchain) :
  blockchain_ok bc -> 0 <= number (header blk) < 2 ^ 63 - 1 ->
  current_canonical_block (state_ bc) = number (header blk) - 1 ->
  canonical_hash (state_ bc) (number (header blk) - 1) = Some (parent_hash (header blk)) ->
  (check = true -> err = kWrongStateRoot -> unwindable (recover_senders Sig blk) bc) ->
  chain_insert_block blk check bc = Ok (err, blk', bc') -> err <> kOk ->
  same_accounts (state_ bc) (state_ bc').
Proof.
  intros [Hok Hbad] HN Htip Hpar Huw E He. unfold chain_insert_block in E.
  destruct (pre_validate_block _ _ _ _) as [[err0 kept]|[]|] eqn:E0; [|done..].
  case_bool_decide as He0; cbn [negb] in E; [subst err0|by injection E as <- _ <-].
  apply pre_validated_parent in E0. set (hash := block_header_hash (header blk) false) in *.
  destruct (bad_blocks_ _ !! hash); [by injection E as <- _ <-|].
  set (b := recover_senders Sig blk) in *. change (header b) with (header blk) in E. cbn [state_ with_kept] in E. rewrite Htip in E.
  assert (0 <= number (header blk) < 2 ^ 64) as HN' by lia.
  destruct (parent_number _ _ (proj1 (ck_size _ Hok)) HN' E0) as [Hpos Eu]. rewrite Eu in E.
  destruct (canonical_ancestor (header blk) hash (state_ bc)) as [a|[]|] eqn:Ea; cbn [result_bind] in E; [|done..].
  destruct (unwind_last_changes _ _ _) as [bc1|[]|] eqn:E1; cbn [result_bind] in E; [|done..].
  destruct (intermediate_chain _ _ _ _) as [chain|[]|] eqn:Ec; cbn [result_bind] in E; [|done..].
  destruct (unwind_last_changes_chain _ _ _ _ E1) as (_ & S1 & _). cbn [state_ with_kept] in S1.
  assert (a = number (header blk) - 1) as ->.
  { destruct (new_block_branch (state_ bc) blk hash a chain) as (_ & _ & _ & Ha); try done; [|by apply Ha].
    rewrite <- Ec. apply intermediate_chain_same. by apply same_chain_sym. }
  rewrite unwind_nothing in E1. injection E1 as <-.
  unfold intermediate_chain in Ec. rewrite Z.ltb_irrefl, Z.sub_diag in Ec. injection Ec as <-. cbn [app execute_chain] in E.
  set (bc1 := update_buffer _ _) in E.
  destruct (chain_execute_block _ _ bc1) as [[err2 bc2]|[]|] eqn:E2; cbn [result_bind] in E; [|done..].
  case_bool_decide as He2; cbn [negb] in E.
  - subst err2. cbn [result_bind negb] in E. rewrite bool_decide_true in E by done. cbn [negb] in E.
    destruct (choose_branch _ _ _ _ _ _ _); cbn [result_bind] in E; [|done..]. by injection E as <- _ _.
  - cbn [result_bind negb] in E. rewrite bool_decide_false in E by done. cbn [negb] in E. rewrite back_to_tip in E.
    injection E as <- _ <-. cbn [state_ update_buffer with_buffer with_bad_block].
    apply (chain_execute_block_restores b check bc1 err2 bc2); [|exact E2|exact He2].
    intros Hc Ew. destruct (Huw Hc Ew). by split.
Qed.

(** A block that is canonical already, and is inserted again, breaks the insertion: the state is unwound, and the
    vector for the intermediate chain has a wrapped size. *)
Theorem canonical_block_again (blk : Block) (check : bool) (bc : Blockchain) (kept : Kept) :
  let hash := block_header_hash (header blk) false in
  pre_validate_block blk (state_ bc) (config_ bc) (kept_ bc) = Ok (kOk, kept) -> bad_blocks_ bc !! hash = None ->
  0 < number (header blk) < 2 ^ 64 -> canonical_hash (state_ bc) (number (header blk)) = Some hash ->
  chain_insert_block blk check bc = Undef.
Proof.
  intros hash Ep Hbad HN Hc. unfold chain_insert_block. rewrite Ep. cbn [negb bad_blocks_ with_kept].
  rewrite bool_decide_true by done. cbn [negb]. fold hash. rewrite Hbad.
  set (b := recover_senders Sig blk). change (header b) with (header blk). cbn [state_ with_kept].
  assert (canonical_ancestor (header blk) hash (state_ bc) = Ok (number (header blk))) as ->.
  { unfold canonical_ancestor. destruct (Z.to_nat (number (header blk))); cbn [canonical_ancestor_loop]; by rewrite bool_decide_true. }
  cbn [result_bind]. destruct (unwind_last_changes _ _ _) as [bc1|[]|] eqn:E; cbn [result_bind]; [|unfold unwind_last_changes in E; by destruct (negb _)|done].
  unfold intermediate_chain, u64, wrap. rewrite Z.mod_small by lia. by rewrite (proj2 (Z.ltb_lt _ _)) by lia.
Qed.

End Machine.

(** ** An example: two branches over an empty genesis, without proof of work *)

#[local] Existing Instances no_key reference_gmp plane.

Definition chain_header (n time parent_difficulty parent_time : Z) (parent : bytes) (root : bytes) : BlockHeader :=
  mkBlockHeader parent kEmptyListHash (to_be 20 0xbb) root kEmptyRoot kEmptyRoot empty_bloom
    (if n =? 0 then 2 ^ 20 else canonical_difficulty n time parent_difficulty parent_time false kRinkebyConfig)
    n (10 ^ 7) 0 time [] zero_bytes32 (zero_bytes 8).

Definition child (time : Z) (parent : BlockHeader) : Block :=
  mkBlock (mkBlockBody [] [])
    (chain_header (number parent + 1) time (difficulty parent) (timestamp parent) (block_header_hash parent false) zero_bytes32).

Definition genesis_block : Block := mkBlock (mkBlockBody [] []) (chain_header 0 0 0 0 zero_bytes32 zero_bytes32).
Definition block_a : Block := child 10 (header genesis_block).
Definition block_b : Block := child 1000 (header genesis_block).       (* slower, so lighter than [block_a] *)
Definition block_c : Block := child 1001 (header block_b).             (* makes the branch of [block_b] heavier *)

Definition demo_insert (bc : result Halt (Blockchain (B := MemoryBuffer))) (blk : Block)
  : result Halt (Blockchain (B := MemoryBuffer)) :=
  try bc := bc in
  try (err, _, bc) := chain_insert_block blk false bc in
  if bool_decide (err = kOk) then Ok bc else Undef.

Definition demo_genesis : Blockchain (B := MemoryBuffer) := new_blockchain empty_buffer kRinkebyConfig genesis_block.

Definition hash_of (b : Block) : bytes := block_header_hash (header b) false.

(** The second block is stored beside the first; the third brings its branch above it. *)
Example reorganization :
  match demo_insert (demo_insert (demo_insert (Ok demo_genesis) block_a) block_b) block_c with
  | Ok bc => canonical_hashes (state_ bc) = [hash_of genesis_block; hash_of block_b; hash_of block_c]
  | _ => False
  end.
Proof. vm_compute. reflexivity. Qed.

Lemma demo_insert_inv bc blk bc' : demo_insert bc blk = Ok bc' ->
  exists bc0 blk', bc = Ok bc0 /\ chain_insert_block blk false bc0 = Ok (kOk, blk', bc').
Proof.
  unfold demo_insert. destruct bc as [bc0|[]|]; cbn [result_bind]; [|done..].
  destruct (chain_insert_block _ _ _) as [[[err blk'] bc1]|[]|] eqn:E; cbn [result_bind]; [|done..].
  case_bool_decide; [|done]. intros [= <-]. subst err. exists bc0, blk'. split; [reflexivity|exact E].
Qed.

Lemma demo_genesis_ok : blockchain_ok demo_genesis.
Proof. apply new_blockchain_ok; [by repeat split|reflexivity]. Qed.

(** The three insertions, one by one. *)
Lemma reorganization_steps : exists bc1 bc2 bc3 a b c,
  chain_insert_block block_a false demo_genesis = Ok (kOk, a, bc1)
  /\ chain_insert_block block_b false bc1 = Ok (kOk, b, bc2)
  /\ chain_insert_block block_c false bc2 = Ok (kOk, c, bc3).
Proof.
  pose proof reorganization as R.
  destruct (demo_insert (demo_insert (demo_insert (Ok demo_genesis) block_a) block_b) block_c) as [bc3|[]|] eqn:E3; [|destruct R..].
  apply demo_insert_inv in E3 as (bc2 & c & E2 & E3). apply demo_insert_inv in E2 as (bc1 & b & E1 & E2).
  apply demo_insert_inv in E1 as (bc0 & a & E0 & E1). injection E0 as <-. exists bc1, bc2, bc3, a, b, c.
  split; [exact E1|]. split; [exact E2|exact E3].
Qed.

Definition in_range (b : Block) : Prop := 0 <= number (header b) < 2 ^ 63 - 1.

Lemma demo_numbers : in_range block_a /\ in_range block_b /\ in_range block_c.
Proof. vm_compute. repeat split; congruence. Qed.

#[local] Opaque keccak256 canonical_difficulty.

Lemma canonical_chain_heaviest_witness :
  exists bc1 bc2 bc3 a b c, chain_insert_block block_a false demo_genesis = Ok (kOk, a, bc1)
    /\ chain_insert_block block_b false bc1 = Ok (kOk, b, bc2)
    /\ chain_insert_block block_c false bc2 = Ok (kOk, c, bc3) /\ chain_ok (state_ bc3).
Proof.
  destruct reorganization_steps as (bc1 & bc2 & bc3 & a & b & c & E1 & E2 & E3). destruct demo_numbers as (N1 & N2 & N3).
  exists bc1, bc2, bc3, a, b, c. split; [exact E1|]. split; [exact E2|]. split; [exact E3|].
  apply (canonical_chain_heaviest empty_buffer kRinkebyConfig genesis_block bc3); [by repeat split|reflexivity|].
  eapply reach_insertion; [|exact N3|exact E3]. eapply reach_insertion; [|exact N2|exact E2].
  eapply reach_insertion; [|exact N1|exact E1]. apply reach_genesis.
Defined.

Lemma insert_block_decides_witness :
  exists bc1 a, chain_insert_block block_a false demo_genesis = Ok (kOk, a, bc1)
    /\ inserted a (block_header_hash (header block_a) false) (state_ demo_genesis) (state_ bc1).
Proof.
  destruct reorganization_steps as (bc1 & _ & _ & a & _ & _ & E1 & _). exists bc1, a. split; [exact E1|].
  exact (proj2 (proj2 (insert_block_decides block_a false demo_genesis kOk a bc1 demo_genesis_ok (proj1 demo_numbers) E1)) eq_refl).
Defined.

(** The branch of the lighter block starts at the genesis block. *)
Lemma canonical_ancestor_found_witness :
  exists b h hd a l, read_header b 1 h = Some hd /\ canonical_ancestor hd h b = Ok a /\ branch b a 1 h l.
Proof.
  destruct reorganization_steps as (bc1 & bc2 & _ & a & b & _ & E1 & E2 & _). destruct demo_numbers as (N1 & N2 & _).
  destruct (insert_block_spec _ _ _ _ _ _ demo_genesis_ok N1 E1) as (_ & Hok1 & _).
  destruct (insert_block_spec _ _ _ _ _ _ Hok1 N2 E2) as (Eh & Hok2 & _ & Hin). specialize (Hin eq_refl).
  pose proof (in_header _ _ _ _ Hin) as Hr. rewrite Eh in Hr.
  assert (number (header block_b) = 1) as En by reflexivity. rewrite En in Hr.
  destruct (canonical_ancestor_found (state_ bc2) 1 (hash_of block_b) (header block_b)) as (x & l & Ea & _ & _ & _ & Hb);
    [apply Hok2|lia|exact Hr|].
  exists (state_ bc2), (hash_of block_b), (header block_b), x, l. split; [exact Hr|]. split; [exact Ea|exact Hb].
Defined.

(** [block_a] has a zero state root, which is wrong: the miner's reward is unwound. *)
Lemma rejected_block_restores_witness :
  exists blk' bc', chain_insert_block block_a true demo_genesis = Ok (kWrongStateRoot, blk', bc')
    /\ same_accounts (state_ demo_genesis) (state_ bc').
Proof.
  assert (match chain_insert_block block_a true demo_genesis with
          | Ok (err, _, _) => bool_decide (err = kWrongStateRoot) | _ => false end = true) as Hr by (vm_compute; reflexivity).
  destruct (chain_insert_block block_a true demo_genesis) as [[[err blk'] bc']|[]|] eqn:E; [|discriminate Hr..].
  apply bool_decide_eq_true in Hr. subst err. exists blk', bc'. split; [reflexivity|].
  assert (forall a i k, read_storage (state_ demo_genesis) a i k = zero_bytes32) as Hz by done.
  apply (rejected_block_restores block_a true demo_genesis kWrongStateRoot blk' bc');
    [exact demo_genesis_ok|exact (proj1 demo_numbers)|vm_compute; reflexivity|vm_compute; reflexivity| |exact E|discriminate].
  intros _ _. split; [intros a k; apply Hz|intros a i l v; by intros [=]|intros rs p _ a acc k _ _; apply Hz].
Defined.

Definition ok_or {E A} (d : A) (r : result E A) : A := match r with Ok x => x | _ => d end.

Definition demo_after_a : Blockchain (B := MemoryBuffer) := ok_or demo_genesis (demo_insert (Ok demo_genesis) block_a).

Lemma canonical_block_again_witness : chain_insert_block block_a false demo_after_a = Undef.
Proof.
  assert (match pre_validate_block block_a (state_ demo_after_a) (config_ demo_after_a) (kept_ demo_after_a) with
          | Ok (err, _) => bool_decide (err = kOk) | _ => false end = true) as Hr by (vm_compute; reflexivity).
  destruct (pre_validate_block block_a (state_ demo_after_a) (config_ demo_after_a) (kept_ demo_after_a)) as [[err kept]|[]|] eqn:E;
    [|discriminate Hr..].
  apply bool_decide_eq_true in Hr. subst err.
  apply (canonical_block_again block_a false demo_after_a kept);
    [exact E|vm_compute; reflexivity|vm_compute; split; congruence|vm_compute; reflexivity].
Defined.
