(* ===== verification/Etl.v ===== *)
(** * Etl: db/silkworm/etl (util.hpp, util.cpp, buffer.hpp, buffer.cpp, file_provider.hpp, file_provider.cpp,
      collector.hpp, collector.cpp)

    The external sort that every table rebuild goes through: entries are gathered in a buffer that is sorted and
    written to a file when it overflows; loading merges the files with a priority queue. A file is its bytes;
    failures of the file system, which throw, are not modelled. *)

From Stdlib Require Import Sorted.
From S2P Require Import Prelude Util.
Local Open Scope Z_scope.
Local Open Scope silk_scope.

(** ** util.hpp *)

Record Entry : Type := mkEntry { entry_key : bytes; entry_value : bytes }.

#[export] Instance Entry_eq_dec : EqDecision Entry.
Proof. solve_decision. Defined.

Definition entry_size (e : Entry) : Z := zlen (entry_key e) + zlen (entry_value e).

(** [operator<]: [diff == 0] where neither key is less. *)
Definition entry_ltb (a b : Entry) : bool :=
  if bytes_ltb (entry_key a) (entry_key b) then true
  else if bytes_ltb (entry_key b) (entry_key a) then false
  else bytes_ltb (entry_value a) (entry_value b).

Definition entry_leb (a b : Entry) : bool := negb (entry_ltb b a).

(** ** buffer.hpp, buffer.cpp *)

Definition kInitialBufferCapacity : nat := 32768.

(** Entries from [length_] on are left over from before [clear]. *)
Record Buffer : Type := mkBuffer { optimal_size_ : Z; size_ : Z; length_ : nat; buffer_ : list Entry }.

Definition new_buffer (optimal_size : Z) : Buffer :=
  mkBuffer optimal_size 0 0 (replicate kInitialBufferCapacity (mkEntry [] [])).

(** The assertion is [length_ <= buffer_.size()]. *)
Definition put (entry : Entry) (b : Buffer) : result unit Buffer :=
  if negb (length_ b <=? length (buffer_ b))%nat then Undef
  else
    let entries := if (length_ b =? length (buffer_ b))%nat then buffer_ b ++ [entry]
                   else <[length_ b := entry]> (buffer_ b) in
    Ok (mkBuffer (optimal_size_ b) (u64 (size_ b + entry_size entry)) (S (length_ b)) entries).

(** [std::sort] by [operator<]: equivalent entries are equal, so the sorted order is one list. *)
Fixpoint insert_entry (e : Entry) (l : list Entry) : list Entry :=
  match l with
  | [] => [e]
  | x :: l' => if entry_leb e x then e :: l else x :: insert_entry e l'
  end.
Definition sort_entries (l : list Entry) : list Entry := foldr insert_entry [] l.

Definition entries (b : Buffer) : list Entry := take (length_ b) (buffer_ b).

Definition sort (b : Buffer) : Buffer :=
  mkBuffer (optimal_size_ b) (size_ b) (length_ b) (sort_entries (entries b) ++ drop (length_ b) (buffer_ b)).

Definition clear (b : Buffer) : Buffer := mkBuffer (optimal_size_ b) 0 0 (buffer_ b).

Definition overflows (b : Buffer) : bool := optimal_size_ b <=? size_ b.

(** ** file_provider.hpp, file_provider.cpp *)

(** [file_]: the bytes still to be read, or none when it is closed. *)
Record FileProvider : Type := mkFileProvider { id_ : nat; file_ : option bytes; file_size_ : Z }.

(** The head of an entry: two 32-bit lengths in the byte order of the machine (little-endian). *)
Definition entry_bytes (e : Entry) : bytes :=
  to_le 4 (u32 (zlen (entry_key e))) ++ to_le 4 (u32 (zlen (entry_value e))) ++ entry_key e ++ entry_value e.

(** [FileProvider::flush], of a new provider: the file is written and opened again from its start. *)
Definition flush (id : nat) (b : Buffer) : FileProvider :=
  mkFileProvider id (Some (concat (map entry_bytes (entries b)))) (u64 (size_ b + zlen (entries b) * 8)).

Definition reset (p : FileProvider) : FileProvider := mkFileProvider (id_ p) None 0.

(** [Err]: an [etl_error] is thrown. *)
Definition read_entry (p : FileProvider) : result unit (option (Entry * nat) * FileProvider) :=
  match file_ p with
  | None => Err tt
  | Some file =>
      if file_size_ p =? 0 then Err tt
      else if (length file <? 8)%nat then Ok (None, reset p)
      else
        let key_len := Z.to_nat (of_le (take 4 file)) in
        let value_len := Z.to_nat (of_le (take 4 (drop 4 file))) in
        let file := drop 8 file in
        if (length file <? key_len + value_len)%nat then Err tt
        else
          let e := mkEntry (take key_len file) (take value_len (drop key_len file)) in
          Ok (Some (e, id_ p), mkFileProvider (id_ p) (Some (drop (key_len + value_len) file)) (file_size_ p))
  end.

(** ** collector.hpp, collector.cpp *)

(** A provider that was reset is a null pointer. *)
Record Collector : Type := mkCollector {
  collector_buffer : Buffer;
  file_providers_ : list (option FileProvider);
  collector_size : Z
}.

Definition kOptimalBufferSize : Z := 256 * 2 ^ 20.

Definition new_collector (optimal_size : Z) : Collector := mkCollector (new_buffer optimal_size) [] 0.

Definition flush_buffer (c : Collector) : Collector :=
  let b := collector_buffer c in
  if size_ b =? 0 then c
  else
    let b := sort b in
    mkCollector (clear b) (file_providers_ c ++ [Some (flush (length (file_providers_ c)) b)]) (collector_size c).

Definition collect (entry : Entry) (c : Collector) : result unit Collector :=
  try b := put entry (collector_buffer c) in
  let c := mkCollector b (file_providers_ c) (u64 (collector_size c + 1)) in
  Ok (if overflows b then flush_buffer c else c).

(** The first entries of all files; a null provider is dereferenced. *)
Fixpoint open_queue (ps : list (option FileProvider)) : result unit (list (Entry * nat) * list (option FileProvider)) :=
  match ps with
  | [] => Ok ([], [])
  | None :: _ => Undef
  | Some p :: ps =>
      try (item, p) := read_entry p in
      try (queue, ps) := open_queue ps in
      Ok (match item with Some x => x :: queue | None => queue end, Some p :: ps)
  end.

(** The top of the priority queue is a least entry; the queue without it. *)
Fixpoint pop_least (x : Entry * nat) (queue : list (Entry * nat)) : (Entry * nat) * list (Entry * nat) :=
  match queue with
  | [] => (x, [])
  | y :: queue =>
      let '(m, rest) := pop_least y queue in
      if entry_ltb (fst m) (fst x) then (m, x :: rest) else (x, m :: rest)
  end.

(** The merge: the entries in the order in which they are passed to the table or to [load_func]. *)
Fixpoint merge_loop (fuel : nat) (queue : list (Entry * nat)) (ps : list (option FileProvider))
  : result unit (list Entry * list (option FileProvider)) :=
  match queue with
  | [] => Ok ([], ps)
  | x :: queue =>
      match fuel with
      | O => Undef
      | S fuel =>
          let '((etl_entry, provider_index), queue) := pop_least x queue in
          match ps !! provider_index with
          | Some (Some p) =>
              try (next, p) := read_entry p in
              try (out, ps) :=
                (match next with
                 | Some y => merge_loop fuel (y :: queue) (<[provider_index := Some p]> ps)
                 | None => merge_loop fuel queue (<[provider_index := None]> ps)
                 end) in
              Ok (etl_entry :: out, ps)
          | _ => Undef
          end
      end
  end.

(** [Collector::load]. The number of items bounds the merge. *)
Definition load (c : Collector) : result unit (list Entry * Collector) :=
  if collector_size c =? 0 then Ok ([], c)
  else if (length (file_providers_ c) =? 0)%nat then
    let b := sort (collector_buffer c) in
    Ok (entries b, mkCollector (clear b) (file_providers_ c) (collector_size c))
  else
    let c := flush_buffer c in
    try (queue, ps) := open_queue (file_providers_ c) in
    try (out, ps) := merge_loop (Z.to_nat (collector_size c)) queue ps in
    Ok (out, mkCollector (collector_buffer c) ps 0).

(** Entries one after the other. *)
Fixpoint collect_all (es : list Entry) (c : Collector) : result unit Collector :=
  match es with
  | [] => Ok c
  | e :: es => try c := collect e c in collect_all es c
  end.

(** * Lemmas: the order of entries *)

Lemma entry_ltb_iff a b : entry_ltb a b = true <->
  bytes_ltb (entry_key a) (entry_key b) = true
  \/ entry_key a = entry_key b /\ bytes_ltb (entry_value a) (entry_value b) = true.
Proof.
  unfold entry_ltb. destruct (bytes_ltb (entry_key a) (entry_key b)) eqn:E1; [by split; [left|]|].
  destruct (bytes_ltb (entry_key b) (entry_key a)) eqn:E2.
  - split; [done|]. intros [?|[E _]]; [done|]. rewrite E, bytes_ltb_irrefl in E2. done.
  - split; [right; split; [by apply bytes_ltb_total|done]|]. by intros [?|[_ ?]].
Qed.

Lemma entry_ltb_trans a b c : entry_ltb a b = true -> entry_ltb b c = true -> entry_ltb a c = true.
Proof.
  rewrite !entry_ltb_iff. intros [H1|[E1 H1]] [H2|[E2 H2]].
  - left. by eapply bytes_ltb_trans.
  - left. by rewrite <- E2.
  - left. by rewrite E1.
  - right. split; [congruence|]. by eapply bytes_ltb_trans.
Qed.

Lemma entry_ltb_irrefl a : entry_ltb a a = false.
Proof. unfold entry_ltb. by rewrite !bytes_ltb_irrefl. Qed.

Lemma entry_ltb_antisym a b : entry_ltb a b = false -> entry_ltb b a = false -> a = b.
Proof.
  unfold entry_ltb. destruct (bytes_ltb (entry_key a) (entry_key b)) eqn:E1; [done|].
  destruct (bytes_ltb (entry_key b) (entry_key a)) eqn:E2; [done|]. intros H1 H2.
  destruct a, b. cbn in *. f_equal; by apply bytes_ltb_total.
Qed.

(** The order that a sorted sequence of entries is in. *)
Definition entry_le (a b : Entry) : Prop := entry_leb a b = true.

Lemma entry_le_iff a b : entry_le a b <-> entry_ltb b a = false.
Proof. unfold entry_le, entry_leb. apply negb_true_iff. Qed.

#[export] Instance entry_le_preorder : PreOrder entry_le.
Proof.
  split; intros a; [apply entry_le_iff, entry_ltb_irrefl|]. intros b c. rewrite !entry_le_iff. intros Hab Hbc.
  destruct (entry_ltb c a) eqn:E; [|done]. destruct (entry_ltb a b) eqn:E2.
  - by rewrite (entry_ltb_trans _ _ _ E E2) in Hbc.
  - rewrite (entry_ltb_antisym a b E2 Hab) in E. by rewrite E in Hbc.
Qed.

Lemma entry_le_total a b : entry_le a b \/ entry_le b a.
Proof.
  rewrite !entry_le_iff. destruct (entry_ltb b a) eqn:E; [|by left]. right.
  destruct (entry_ltb a b) eqn:E2; [|done]. by rewrite <- (entry_ltb_irrefl a), (entry_ltb_trans a b a).
Qed.

Notation sorted := (StronglySorted entry_le).

Lemma insert_entry_perm e l : insert_entry e l ≡ₚ e :: l.
Proof.
  induction l as [|x l IH]; cbn; [done|]. case_match; [done|]. rewrite IH. apply Permutation_swap.
Qed.

Lemma sort_entries_perm l : sort_entries l ≡ₚ l.
Proof. induction l as [|x l IH]; cbn; [done|]. by rewrite insert_entry_perm, IH. Qed.

Lemma insert_entry_sorted e l : sorted l -> sorted (insert_entry e l).
Proof.
  induction 1 as [|x l Hl IH Hx]; cbn; [by repeat constructor|]. destruct (entry_leb e x) eqn:E.
  - constructor; [by constructor|]. constructor; [done|]. eapply Forall_impl; [exact Hx|]. intros y Hy. by transitivity x.
  - constructor; [done|]. rewrite insert_entry_perm. constructor; [|done].
    destruct (entry_le_total e x) as [H|H]; [unfold entry_le in H; congruence|done].
Qed.

Lemma sort_entries_sorted l : sorted (sort_entries l).
Proof. induction l; cbn; [constructor|by apply insert_entry_sorted]. Qed.

(** * Lemmas: files *)

(** The lengths of a key and of a value fit the head, and an entry is not empty. *)
Definition entry_ok (e : Entry) : Prop := 0 < entry_size e /\ zlen (entry_key e) < 2 ^ 32 /\ zlen (entry_value e) < 2 ^ 32.

(** The provider of the entries [l], with [n] as its size. *)
Definition provider (id : nat) (n : Z) (l : list Entry) : FileProvider :=
  mkFileProvider id (Some (concat (map entry_bytes l))) n.

Lemma of_le_to_le n x : 0 <= x < 256 ^ Z.of_nat n -> of_le (to_le n x) = x.
Proof. intros H. unfold of_le, to_le. by rewrite rev_involutive, of_be_to_be_small. Qed.

Lemma length_to_le n x : length (to_le n x) = n.
Proof. unfold to_le. by rewrite length_rev, length_to_be. Qed.

Lemma read_entry_cons id n e l : entry_ok e -> n <> 0 ->
  read_entry (provider id n (e :: l)) = Ok (Some (e, id), provider id n l).
Proof.
  intros (_ & Hk & Hv) Hn. unfold read_entry, provider. cbn [file_ file_size_ id_ map concat].
  rewrite (proj2 (Z.eqb_neq n 0)) by done. set (rest := concat (map entry_bytes l)).
  set (K := to_le 4 (zlen (entry_key e))). set (W := to_le 4 (zlen (entry_value e))).
  assert (entry_bytes e = K ++ W ++ entry_key e ++ entry_value e) as ->
    by (unfold entry_bytes, u32; by rewrite !wrap_small by lia).
  assert (length K = 4%nat) as HK by apply length_to_le. assert (length W = 4%nat) as HW by apply length_to_le.
  rewrite <- !app_assoc.
  rewrite !length_app, HK, HW. destruct (Nat.ltb_spec (4 + (4 + (length (entry_key e) + (length (entry_value e) + length rest)))) 8); [lia|].
  rewrite take_app_length' by done.
  assert (drop 4 (K ++ W ++ entry_key e ++ entry_value e ++ rest) = W ++ entry_key e ++ entry_value e ++ rest) as E4
    by (by rewrite drop_app_length').
  assert (drop 8 (K ++ W ++ entry_key e ++ entry_value e ++ rest) = entry_key e ++ entry_value e ++ rest) as E8
    by (rewrite app_assoc, drop_app_length'; [done|rewrite length_app; lia]).
  rewrite E4, E8, take_app_length' by done. unfold K, W. rewrite !of_le_to_le by (cbn; lia). rewrite !Nat2Z.id.
  rewrite !length_app. destruct (Nat.ltb_spec (length (entry_key e) + (length (entry_value e) + length rest)) (length (entry_key e) + length (entry_value e))); [lia|].
  rewrite take_app_length, drop_app_length, take_app_length.
  rewrite app_assoc, drop_app_length' by (by rewrite length_app). by destruct e.
Qed.

Lemma read_entry_nil id n : n <> 0 -> read_entry (provider id n []) = Ok (None, mkFileProvider id None 0).
Proof. intros Hn. unfold read_entry, provider. cbn. by rewrite (proj2 (Z.eqb_neq n 0)). Qed.

(** * Lemmas: the merge *)

Lemma pop_least_spec q : forall x m rest, pop_least x q = (m, rest) ->
  x :: q ≡ₚ m :: rest /\ Forall (fun y => entry_le (fst m) (fst y)) rest.
Proof.
  induction q as [|y q IH]; intros x m rest; cbn [pop_least]; [by intros [= <- <-]|].
  destruct (pop_least y q) as [m1 rest1] eqn:E. apply IH in E as [P F].
  destruct (entry_ltb (fst m1) (fst x)) eqn:El; intros [= <- <-].
  - split; [rewrite P; apply Permutation_swap|]. constructor; [|done]. apply entry_le_iff.
    destruct (entry_ltb (fst x) (fst m1)) eqn:E2; [|done]. by rewrite <- (entry_ltb_irrefl (fst x)), (entry_ltb_trans _ (fst m1) _).
  - split; [by rewrite P|]. apply entry_le_iff in El. constructor; [done|]. eapply Forall_impl; [exact F|].
    intros z Hz. cbn. by transitivity (fst m1).
Qed.

(** A run: the head that is in the queue, its provider's index and size, and what is left in the file. *)
Notation run := (Entry * nat * Z * list Entry)%type.
Definition run_item (r : run) : Entry * nat := fst (fst r).
Definition run_entries (r : run) : list Entry := fst (run_item r) :: snd r.

Record run_ok (ps : list (option FileProvider)) (r : run) : Prop := {
  ro_provider : ps !! snd (run_item r) = Some (Some (provider (snd (run_item r)) (snd (fst r)) (snd r)));
  ro_size : snd (fst r) <> 0;
  ro_entries : Forall entry_ok (run_entries r);
  ro_sorted : sorted (run_entries r)
}.

Definition total_entries (rs : list run) : list Entry := concat (map run_entries rs).

#[export] Instance total_entries_perm : Proper ((≡ₚ) ==> (≡ₚ)) total_entries.
Proof.
  intros l1 l2 H. unfold total_entries. induction H; cbn [map concat]; [done|by rewrite IHPermutation| |by etransitivity].
  rewrite !app_assoc. by rewrite (Permutation_app_comm (run_entries y)).
Qed.

Lemma run_ok_other ps r i x : run_ok ps r -> i <> snd (run_item r) -> run_ok (<[i := x]> ps) r.
Proof. intros [] Hne. split; [by rewrite list_lookup_insert_ne|done..]. Qed.

Lemma merge_loop_spec fuel : forall rs ps,
  Forall (run_ok ps) rs -> NoDup (map (fun r => snd (run_item r)) rs) -> (length (total_entries rs) <= fuel)%nat ->
  exists out ps', merge_loop fuel (map run_item rs) ps = Ok (out, ps') /\ out ≡ₚ total_entries rs /\ sorted out.
Proof.
  induction fuel as [|fuel IH]; intros rs ps Hok Hnd Hlen.
  { destruct rs as [|r rs]; [exists [], ps; by repeat constructor|]. cbn in Hlen. lia. }
  destruct rs as [|r0 rs0]; [exists [], ps; by repeat constructor|]. cbn [map merge_loop].
  destruct (pop_least (run_item r0) (map run_item rs0)) as [m rest] eqn:E. apply pop_least_spec in E as [P F].
  change (run_item r0 :: map run_item rs0) with (map run_item (r0 :: rs0)) in P.
  symmetry in P. apply Permutation_map_inv in P as (rs & Em & P). destruct rs as [|r rs]; [done|].
  cbn [map] in Em. injection Em as -> ->. 
  assert (total_entries (r0 :: rs0) ≡ₚ total_entries (r :: rs)) as Pt by (by apply total_entries_perm).
  rewrite P in Hok. rewrite Pt in Hlen. apply (Permutation_map (fun r => snd (run_item r))) in P. rewrite P in Hnd.
  setoid_rewrite Pt. clear P Pt r0 rs0.
  inversion Hok as [|? ? Hr Hrs]; subst. cbn [map] in Hnd. apply NoDup_cons in Hnd as [Hni Hnd].
  destruct r as [[[e i] n] l]. cbn [run_item fst snd] in *. destruct Hr as [Hp Hn He Hs]. cbn [run_item run_entries fst snd] in Hp, Hn, He, Hs.
  rewrite Hp. change (total_entries ((e, i, n, l) :: rs)) with (e :: l ++ total_entries rs) in *. cbn [length] in Hlen.
  rewrite length_app in Hlen.
  assert (forall x, Forall (run_ok (<[i := x]> ps)) rs) as Hother.
  { intros x. apply Forall_forall. intros r Hin. rewrite Forall_forall in Hrs. apply run_ok_other; [by apply Hrs|].
    intros ->. apply Hni. by apply (list_elem_of_fmap_2 (fun r => snd (run_item r))). }
  inversion He as [|? ? He1 Hl]; subst. inversion Hs as [|? ? Hsl Hel]; subst.
  assert (Forall (entry_le e) (l ++ total_entries rs)) as Hleast.
  { apply Forall_app. split; [done|]. unfold total_entries. apply Forall_concat, Forall_map, Forall_forall. intros r Hin.
    rewrite Forall_forall in Hrs. destruct (Hrs r Hin) as [_ _ _ Hsr].
    assert (entry_le e (fst (run_item r))) as Hhead.
    { rewrite Forall_forall in F. apply (F (run_item r)). by apply (list_elem_of_fmap_2 run_item). }
    inversion Hsr as [|? ? _ Hall]; subst. constructor; [done|]. eapply Forall_impl; [exact Hall|]. intros y Hy. by transitivity (fst (run_item r)). }
  assert (forall out, out ≡ₚ l ++ total_entries rs -> sorted out -> e :: out ≡ₚ e :: l ++ total_entries rs /\ sorted (e :: out)) as Hcons.
  { intros out Hpm Hso. split; [by rewrite Hpm|]. constructor; [done|]. by rewrite Hpm. }
  destruct l as [|e2 l2].
  - rewrite read_entry_nil by done. cbn [result_bind].
    destruct (IH rs (<[i := None]> ps)) as (out & ps' & -> & Hpm & Hso); [apply Hother|done|cbn [app length] in Hlen; lia|].
    exists (e :: out), ps'. split; [done|]. by apply Hcons.
  - inversion Hl as [|? ? He2 Hl2]; subst. rewrite read_entry_cons by done. cbn [result_bind].
    set (p := Some (provider i n l2)).
    destruct (IH ((e2, i, n, l2) :: rs) (<[i := p]> ps)) as (out & ps' & Eo & Hpm & Hso).
    + constructor; [|apply Hother]. split; try done. cbn. rewrite list_lookup_insert_eq; [done|]. by apply lookup_lt_Some in Hp.
    + cbn [map run_item fst snd]. by constructor.
    + change (total_entries ((e2, i, n, l2) :: rs)) with (e2 :: l2 ++ total_entries rs). cbn [length] in *. rewrite length_app. lia.
    + cbn [map run_item fst] in Eo. rewrite Eo. exists (e :: out), ps'. split; [done|]. by apply Hcons.
Qed.

(** * Lemmas: collecting *)

Definition total_size (es : list Entry) : Z := foldr (fun e n => entry_size e + n) 0 es.

(** The sizes of all entries with their heads. *)
Definition weight (es : list Entry) : Z := total_size es + zlen es * 8.

#[export] Instance total_size_perm : Proper ((≡ₚ) ==> (=)) total_size.
Proof. intros l1 l2 H. unfold total_size. induction H; cbn; lia. Qed.

Lemma total_size_app l1 l2 : total_size (l1 ++ l2) = total_size l1 + total_size l2.
Proof. unfold total_size. induction l1 as [|e l1 IH]; cbn in *; [done|]. rewrite IH. lia. Qed.

Lemma entry_size_nonneg e : 0 <= entry_size e.
Proof. unfold entry_size. lia. Qed.

Lemma total_size_nonneg l : 0 <= total_size l.
Proof. unfold total_size. induction l as [|e l IH]; cbn in *; [done|]. pose proof (entry_size_nonneg e). lia. Qed.

Lemma total_size_pos l : Forall entry_ok l -> l <> [] -> 0 < total_size l.
Proof.
  intros Hl Hne. destruct l as [|e l]; [done|]. inversion Hl as [|? ? (He & _) _]; subst.
  change (total_size (e :: l)) with (entry_size e + total_size l).
  pose proof (total_size_nonneg l). lia.
Qed.

(** Providers with consecutive indices, the first being [k]. *)
Fixpoint providers (k : nat) (ls : list (Z * list Entry)) : list (option FileProvider) :=
  match ls with
  | [] => []
  | nl :: ls => Some (provider k (fst nl) (snd nl)) :: providers (S k) ls
  end.

Lemma length_providers ls : forall k, length (providers k ls) = length ls.
Proof. induction ls as [|nl ls IH]; intros k; cbn; [done|]. by rewrite IH. Qed.

Lemma providers_snoc ls nl : forall k,
  providers k (ls ++ [nl]) = providers k ls ++ [Some (provider (k + length ls) (fst nl) (snd nl))].
Proof.
  induction ls as [|x ls IH]; intros k; cbn; [by rewrite Nat.add_0_r|]. rewrite IH. by rewrite Nat.add_succ_comm.
Qed.

(** What was flushed into a file. *)
Definition file_ok (nl : Z * list Entry) : Prop :=
  fst nl <> 0 /\ snd nl <> [] /\ sorted (snd nl) /\ Forall entry_ok (snd nl).

(** [c] holds the entries [es], in its files and in its buffer. *)
Record collected (c : Collector) (ls : list (Z * list Entry)) (es : list Entry) : Prop := {
  co_files : file_providers_ c = providers 0 ls;
  co_sorted : Forall file_ok ls;
  co_length : (length_ (collector_buffer c) <= length (buffer_ (collector_buffer c)))%nat;
  co_size : size_ (collector_buffer c) = total_size (entries (collector_buffer c));
  co_entries : Forall entry_ok (entries (collector_buffer c));
  co_perm : concat (map snd ls) ++ entries (collector_buffer c) ≡ₚ es;
  co_count : collector_size c = zlen es
}.

Lemma length_entries b : (length_ b <= length (buffer_ b))%nat -> length (entries b) = length_ b.
Proof. intros H. unfold entries. rewrite length_take. lia. Qed.

Lemma entries_sort b : (length_ b <= length (buffer_ b))%nat -> entries (sort b) = sort_entries (entries b).
Proof.
  intros H. unfold entries at 1, sort. cbn [length_ buffer_]. rewrite take_app_length'; [done|].
  by rewrite sort_entries_perm, length_entries.
Qed.

Lemma entries_clear b : entries (clear b) = [].
Proof. done. Qed.

Lemma sort_length b : (length_ b <= length (buffer_ b))%nat -> length (buffer_ (sort b)) = length (buffer_ b).
Proof. intros H. cbn. rewrite length_app, sort_entries_perm, length_drop, length_entries by done. lia. Qed.

Lemma put_spec e b : (length_ b <= length (buffer_ b))%nat ->
  exists b', put e b = Ok b' /\ entries b' = entries b ++ [e] /\ (length_ b' <= length (buffer_ b'))%nat
    /\ size_ b' = u64 (size_ b + entry_size e) /\ optimal_size_ b' = optimal_size_ b.
Proof.
  intros H. unfold put. rewrite (proj2 (Nat.leb_le _ _) H). cbn [negb]. eexists. split; [done|]. unfold entries.
  cbn [length_ buffer_ size_ optimal_size_].
  destruct (Nat.eqb_spec (length_ b) (length (buffer_ b))) as [E|E].
  - rewrite !take_ge by (rewrite ?length_app; cbn; lia). rewrite length_app. cbn. split_and!; try done. lia.
  - rewrite length_insert. split_and!; try done; [|lia].
    rewrite (take_S_r _ _ e) by (apply list_lookup_insert_eq; lia). by rewrite take_insert_ge by lia.
Qed.

Lemma flush_buffer_spec c ls es : collected c ls es -> weight es < 2 ^ 64 ->
  exists ls', collected (flush_buffer c) ls' es /\ entries (collector_buffer (flush_buffer c)) = []
    /\ (ls <> [] -> ls' <> []).
Proof.
  intros [] Hw. unfold flush_buffer. destruct (Z.eqb_spec (size_ (collector_buffer c)) 0) as [E|E].
  - exists ls. split; [by split|]. split; [|done]. destruct (entries (collector_buffer c)) eqn:Ee; [done|].
    rewrite co_size0 in E. pose proof (total_size_pos _ co_entries0 ltac:(done)). lia.
  - set (b := sort (collector_buffer c)). set (l := sort_entries (entries (collector_buffer c))).
    assert (entries b = l) as Eb by (by apply entries_sort).
    assert (l ≡ₚ entries (collector_buffer c)) as Pl by apply sort_entries_perm.
    set (n := u64 (size_ b + zlen (entries b) * 8)). exists (ls ++ [(n, l)]).
    assert (weight l <= weight es) as Hle.
    { unfold weight. rewrite <- co_perm0, Pl, total_size_app, length_app. pose proof (total_size_nonneg (concat (map snd ls))). lia. }
    assert (0 < total_size l) as Hpos.
    { rewrite Pl. apply total_size_pos; [done|]. intros E0. rewrite co_size0, E0 in E. done. }
    assert (n = weight l) as En.
    { unfold n. rewrite Eb. change (size_ b) with (size_ (collector_buffer c)). rewrite co_size0, <- Pl.
      apply u64_small. unfold weight in *. lia. }
    split; [|by split; [|destruct ls]].
    split; cbn [file_providers_ collector_buffer collector_size clear length_ size_]; try done.
    + rewrite co_files0, providers_snoc, length_providers. cbn [fst snd Nat.add]. unfold flush, provider.
      fold n. by rewrite Eb.
    + apply Forall_app. split; [done|]. constructor; [|done]. unfold file_ok. cbn [fst snd]. split_and!.
      * unfold weight in En. lia.
      * intros E0. by rewrite E0 in Hpos.
      * apply sort_entries_sorted.
      * by rewrite Pl.
    + lia.
    + rewrite entries_clear, app_nil_r, map_app, concat_app. cbn [map concat snd]. by rewrite app_nil_r, Pl.
Qed.

Lemma collect_spec e c ls es : collected c ls es -> entry_ok e -> weight (es ++ [e]) < 2 ^ 64 ->
  exists c' ls', collect e c = Ok c' /\ collected c' ls' (es ++ [e]).
Proof.
  intros [] He Hw. unfold collect. destruct (put_spec e (collector_buffer c) co_length0) as (b & -> & Eb & Hl & Hs & Ho).
  cbn [result_bind]. set (c1 := mkCollector b (file_providers_ c) (u64 (collector_size c + 1))).
  unfold weight in Hw. rewrite length_app, total_size_app in Hw. cbn in Hw. pose proof (total_size_nonneg es).
  assert (total_size es = total_size (concat (map snd ls)) + total_size (entries (collector_buffer c))) as Et
    by (rewrite <- co_perm0, total_size_app; done).
  pose proof (total_size_nonneg (concat (map snd ls))). pose proof (total_size_nonneg (entries (collector_buffer c))).
  destruct He as (He1 & He2 & He3).
  assert (collected c1 ls (es ++ [e])) as Hc1.
  { split; cbn [c1 file_providers_ collector_buffer collector_size]; try done.
    - rewrite Hs, Eb, total_size_app, co_size0. cbn. rewrite u64_small by lia. lia.
    - rewrite Eb. apply Forall_app. split; [done|]. by repeat constructor.
    - by rewrite Eb, app_assoc, co_perm0.
    - rewrite co_count0, length_app, u64_small; cbn; lia. }
  destruct (overflows b); [|by exists c1, ls].
  destruct (flush_buffer_spec c1 ls (es ++ [e]) Hc1) as (ls' & Hc2 & _); [|by exists (flush_buffer c1), ls'].
  unfold weight. rewrite length_app, total_size_app. cbn. lia.
Qed.

Lemma collect_all_spec es : forall c ls es0, collected c ls es0 -> Forall entry_ok es -> weight (es0 ++ es) < 2 ^ 64 ->
  exists c' ls', collect_all es c = Ok c' /\ collected c' ls' (es0 ++ es).
Proof.
  induction es as [|e es IH]; intros c ls es0 Hc Hes Hw; cbn [collect_all].
  - exists c, ls. by rewrite app_nil_r.
  - inversion Hes as [|? ? He Hes']; subst. replace (es0 ++ e :: es) with ((es0 ++ [e]) ++ es) in * by (by rewrite <- app_assoc).
    assert (weight (es0 ++ [e]) < 2 ^ 64) as Hw'.
    { unfold weight in *. rewrite !length_app, !total_size_app in *. pose proof (total_size_nonneg es). lia. }
    destruct (collect_spec e c ls es0 Hc He Hw') as (c' & ls' & -> & Hc'). cbn [result_bind]. by apply (IH c' ls').
Qed.

Lemma new_collector_ok n : collected (new_collector n) [] [].
Proof. split; try done. cbn [new_collector collector_buffer new_buffer length_]. lia. Qed.

(** ** Opening the files *)

Fixpoint runs (k : nat) (ls : list (Z * list Entry)) : list run :=
  match ls with
  | [] => []
  | (n, e :: l) :: ls => (e, k, n, l) :: runs (S k) ls
  | (n, []) :: ls => runs (S k) ls
  end.

Definition opened (ls : list (Z * list Entry)) : list (Z * list Entry) := map (fun nl => (fst nl, tl (snd nl))) ls.

Lemma open_queue_spec ls : forall k, Forall file_ok ls ->
  open_queue (providers k ls) = Ok (map run_item (runs k ls), providers k (opened ls)).
Proof.
  induction ls as [|[n l] ls IH]; intros k Hls; [done|]. inversion Hls as [|? ? (Hn & Hne & _ & Hl) Hls']; subst.
  cbn [fst snd] in *. destruct l as [|e l]; [done|]. inversion Hl; subst.
  cbn [providers open_queue fst snd]. rewrite read_entry_cons by done. cbn [result_bind]. by rewrite IH.
Qed.

Lemma runs_ok ls : forall k pre, Forall file_ok ls -> length pre = k ->
  Forall (run_ok (pre ++ providers k (opened ls))) (runs k ls).
Proof.
  induction ls as [|[n l] ls IH]; intros k pre Hls Hk; [constructor|]. inversion Hls as [|? ? (Hn & Hne & Hs & Hl) Hls']; subst.
  cbn [fst snd] in *. destruct l as [|e l]; [done|]. cbn [runs opened map providers fst snd tl]. constructor.
  - split; try done. cbn [run_item fst snd]. by rewrite list_lookup_middle.
  - rewrite cons_middle, app_assoc. apply IH; [done|]. rewrite length_app. cbn. lia.
Qed.

Lemma runs_index ls : forall k i, i ∈ map (fun r => snd (run_item r)) (runs k ls) -> (k <= i)%nat.
Proof.
  induction ls as [|[n [|e l]] ls IH]; intros k i; cbn [runs map]; [by intros ?%elem_of_nil| |].
  - intros Hi%IH. lia.
  - intros [->|Hi%IH]%elem_of_cons; cbn; lia.
Qed.

Lemma runs_nodup ls : forall k, NoDup (map (fun r => snd (run_item r)) (runs k ls)).
Proof.
  induction ls as [|[n [|e l]] ls IH]; intros k; cbn [runs map]; [constructor|apply IH|]. constructor; [|apply IH].
  intros Hi%runs_index. cbn in Hi. lia.
Qed.

Lemma runs_entries ls : forall k, total_entries (runs k ls) = concat (map snd ls).
Proof.
  induction ls as [|[n [|e l]] ls IH]; intros k; cbn [runs map concat snd]; [done|apply IH|].
  unfold total_entries in *. cbn [map concat run_entries run_item fst snd]. by rewrite IH.
Qed.

(** ** Loading *)

Lemma load_spec c ls es : collected c ls es -> weight es < 2 ^ 64 ->
  exists out c', load c = Ok (out, c') /\ out ≡ₚ es /\ sorted out.
Proof.
  intros Hc Hw. unfold load. destruct (Z.eqb_spec (collector_size c) 0) as [E0|E0].
  { exists [], c. split_and!; try done; [|constructor]. rewrite (co_count _ _ _ Hc) in E0. destruct es; [done|cbn in E0; lia]. }
  destruct (Nat.eqb_spec (length (file_providers_ c)) 0) as [El|El].
  - eexists _, _. split; [done|]. destruct Hc. rewrite entries_sort by done.
    rewrite co_files0, length_providers in El. destruct ls; [|done]. cbn in co_perm0.
    split; [by rewrite sort_entries_perm|apply sort_entries_sorted].
  - destruct (flush_buffer_spec c ls es Hc Hw) as (ls' & [] & Ee & _). rewrite co_files0, open_queue_spec by done.
    cbn [result_bind]. rewrite Ee, app_nil_r in co_perm0.
    destruct (merge_loop_spec (Z.to_nat (collector_size (flush_buffer c))) (runs 0 ls') (providers 0 (opened ls')))
      as (out & ps' & Eo & Hp & Hs).
    + by apply (runs_ok ls' 0 []).
    + apply runs_nodup.
    + rewrite runs_entries, co_perm0, co_count0. lia.
    + rewrite Eo. cbn [result_bind]. eexists _, _. split; [done|]. split; [|exact Hs]. by rewrite Hp, runs_entries.
Qed.

(** * Properties *)

(** C29: Loading passes on exactly the collected entries, in the order of their keys and values, whatever the size of the
    buffer and so whatever the division into files; every entry that is read back from a file is one that was
    written, and the merge ends. *)
Theorem load_sorts (optimal_size : Z) (es : list Entry) :
  Forall entry_ok es -> weight es < 2 ^ 64 ->
  exists c out c', collect_all es (new_collector optimal_size) = Ok c /\ load c = Ok (out, c')
    /\ out ≡ₚ es /\ sorted out.
Proof.
  intros Hes Hw. destruct (collect_all_spec es (new_collector optimal_size) [] []) as (c & ls & E & Hc); try done;
    [apply new_collector_ok|]. cbn [app] in Hc. destruct (load_spec c ls es Hc Hw) as (out & c' & El & Hp & Hs).
  exists c, out, c'. by split_and!.
Qed.

Definition etl_example : list Entry :=
  [mkEntry [3] [1]; mkEntry [1] [9]; mkEntry [2] [5]; mkEntry [1] [7]; mkEntry [0] [1; 2]].

(** A buffer of four bytes: two files and a rest. *)
Lemma load_sorts_witness :
  exists c out c', collect_all etl_example (new_collector 4) = Ok c /\ load c = Ok (out, c')
    /\ out ≡ₚ etl_example /\ sorted out.
Proof.
  apply (load_sorts 4 etl_example); [|by vm_compute].
  repeat (apply List.Forall_cons; [repeat split; reflexivity|]). constructor.
Defined.

(** A collector that has loaded from files has null providers: the next load dereferences them. *)
Example second_load_from_files :
  (try c := collect_all etl_example (new_collector 4) in
   try (_, c) := load c in
   try c := collect_all etl_example c in
   load c) = Undef.
Proof. vm_compute. reflexivity. Qed.
