(* ===== verification/Bitmap.v ===== *)
(** * Bitmap: db/silkworm/db/bitmap.hpp, bitmap.cpp

    The bitmaps of block numbers behind the history indices, and the cutting of a chunk off a bitmap. The bitmaps
    are those of CRoaring: a class of the operations used, with the documented meaning as laws over the set of
    values; how many bytes a bitmap takes is left open, but for its being what is written of it. *)

From stdpp Require Import gmap sets.
From S2P Require Import Prelude.
Local Open Scope Z_scope.
Local Open Scope silk_scope.

(** [roaring::Roaring] or [roaring::Roaring64Map]. A range [min, max) without values is a null pointer. *)
Class Roaring (R : Type) : Type := {
  rb_values : R -> gset Z;
  rb_empty : R;
  rb_minimum : R -> Z;
  rb_maximum : R -> Z;
  rb_from_range : Z -> Z -> option R;
  rb_and : R -> R -> R;
  rb_or : R -> R -> R;
  rb_add : Z -> R -> R;
  rb_run_optimize : R -> R;
  rb_remove : Z -> R -> R;
  rb_remove_range_closed : Z -> Z -> R -> R;
  rb_size_in_bytes : R -> Z;
  rb_move : Z -> R -> option Z;
  rb_read_safe : bytes -> option R;
  rb_write : R -> bytes
}.

Class RoaringLaws (R : Type) `{Roaring R} : Prop := {
  rb_empty_values : rb_values (R := R) rb_empty = ∅;
  rb_minimum_values (r : R) : rb_values r <> ∅ ->
    rb_minimum r ∈ rb_values r /\ forall x, x ∈ rb_values r -> rb_minimum r <= x;
  rb_maximum_values (r : R) : rb_values r <> ∅ ->
    rb_maximum r ∈ rb_values r /\ forall x, x ∈ rb_values r -> x <= rb_maximum r;
  rb_from_range_some a b : 0 <= a < b -> b <= 2 ^ 32 ->
    exists r : R, rb_from_range a b = Some r /\ forall x, x ∈ rb_values r <-> a <= x < b;
  rb_from_range_none a b : b <= a -> rb_from_range (R := R) a b = None;
  rb_and_values (r s : R) : rb_values (rb_and r s) = rb_values r ∩ rb_values s;
  rb_or_values (r s : R) : rb_values (rb_or r s) = rb_values r ∪ rb_values s;
  rb_add_values x (r : R) : rb_values (rb_add x r) = {[x]} ∪ rb_values r;
  rb_read_write (r : R) : exists r' : R, rb_read_safe (rb_write r) = Some r' /\ rb_values r' = rb_values r;
  rb_write_length (r : R) : Z.of_nat (length (rb_write r)) = rb_size_in_bytes r;
  rb_run_optimize_values (r : R) : rb_values (rb_run_optimize r) = rb_values r;
  rb_remove_values x (r : R) : rb_values (rb_remove x r) = rb_values r ∖ {[x]};
  rb_remove_range_closed_values a b (r : R) x : 0 <= a -> b < 2 ^ 32 ->
    x ∈ rb_values (rb_remove_range_closed a b r) <-> x ∈ rb_values r /\ ~ (a <= x <= b);
  rb_move_values n (r : R) :
    match rb_move n r with
    | Some x => x ∈ rb_values r /\ n <= x /\ forall y, y ∈ rb_values r -> n <= y -> x <= y
    | None => forall y, y ∈ rb_values r -> y < n
    end
}.

(** How much the serialised form takes: the format has some bytes for each container of 2^16 numbers and at most that
    many for each value in it, and no container takes more than 8 kB. *)
Class RoaringSizes (R : Type) `{Roaring R} : Prop := {
  rb_size_values (r : R) : rb_size_in_bytes r <= 16 * Z.of_nat (size (rb_values r)) + 8;
  rb_size_numbers (r : R) : (forall x, x ∈ rb_values r -> 0 <= x < 2 ^ 32 - 1) -> rb_size_in_bytes r < 2 ^ 32
}.

Section Bitmap.
Context {R : Type} `{Roaring R}.

Definition kBitmapChunkLimit : Z := 1950.

(** [read]: [readSafe] throws on damaged bytes. *)
Definition read (serialized : bytes) : result unit R :=
  match rb_read_safe serialized with Some r => Ok r | None => Err tt end.

(** [seek]: the first value from [n] on. *)
Definition seek (bitmap : R) (n : Z) : option Z := rb_move n bitmap.

(** [res = range; res &= bm; res.runOptimize()] *)
Definition slice (from until : Z) (bm : R) : result unit R :=
  match rb_from_range from until with
  | None => Undef
  | Some range => Ok (rb_run_optimize (rb_and range bm))
  end.

(** The loop for the cutting point; [fuel] bounds its rounds. *)
Fixpoint cutting_point (fuel : nat) (bm : R) (from size_limit i j : Z) : result unit Z :=
  if i <? j then
    match fuel with
    | O => Undef
    | S fuel =>
        let h := Z.shiftr (u64 (i + j)) 1 in
        try current_bitmap := slice from (u64 (from + i + 1)) bm in
        if rb_size_in_bytes current_bitmap <=? size_limit then cutting_point fuel bm from size_limit (u64 (h + 1)) j
        else cutting_point fuel bm from size_limit i h
    end
  else Ok i.

(** [for (k = from; k <= from + i; k++) bm.remove(k)], [n] values from [k] on. *)
Fixpoint remove_loop (n : nat) (k : Z) (bm : R) : R :=
  match n with
  | O => bm
  | S n => remove_loop n (k + 1) (rb_remove k bm)
  end.

Definition rounds : nat := 64.

(** [cut_left] of a 64-bit bitmap: the chunk, and what is left of the bitmap. *)
Definition cut_left_64 (bm : R) (size_limit : Z) : result unit (R * R) :=
  if rb_size_in_bytes bm <=? size_limit then
    try res := slice (rb_minimum bm) (u64 (rb_maximum bm + 1)) bm in Ok (res, rb_empty)
  else
    let from := rb_minimum bm in
    let min_max := u64 (rb_maximum bm - rb_minimum bm) in
    try i := cutting_point rounds bm from size_limit min_max 0 in
    try res := slice from (u64 (from + i)) bm in
    Ok (res, remove_loop (Z.to_nat (i + 1)) from bm).

(** [cut_left] of a 32-bit bitmap: [maximum() + 1] is a 32-bit sum. *)
Definition cut_left_32 (bm : R) (size_limit : Z) : result unit (R * R) :=
  if rb_size_in_bytes bm <=? size_limit then
    try res := slice (rb_minimum bm) (u32 (rb_maximum bm + 1)) bm in Ok (res, rb_empty)
  else
    let from := rb_minimum bm in
    let min_max := u32 (rb_maximum bm - rb_minimum bm) in
    try i := cutting_point rounds bm from size_limit min_max 0 in
    try res := slice from (u64 (from + i)) bm in
    Ok (res, rb_remove_range_closed from (u64 (from + i)) bm).

(** * Lemmas *)

Context `{!RoaringLaws R}.

Lemma slice_values (bm : R) a b : 0 <= a < b -> b <= 2 ^ 32 ->
  exists r, slice a b bm = Ok r /\ forall x, x ∈ rb_values r <-> x ∈ rb_values bm /\ a <= x < b.
Proof.
  intros Ha Hb. unfold slice. destruct (rb_from_range_some (R := R) a b Ha Hb) as (range & -> & Hr).
  eexists. split; [done|]. intros x. rewrite rb_run_optimize_values, rb_and_values, elem_of_intersection, Hr. tauto.
Qed.

Lemma remove_loop_values n : forall k (bm : R) x,
  x ∈ rb_values (remove_loop n k bm) <-> x ∈ rb_values bm /\ ~ (k <= x < k + Z.of_nat n).
Proof.
  induction n as [|n IH]; intros k bm x; cbn [remove_loop]; [split; [intros ?; split; [done|lia]|by intros [? _]]|].
  rewrite IH, rb_remove_values, elem_of_difference, elem_of_singleton. split; intros; split_and!; try tauto; lia.
Qed.

(** The search for a cutting point starts with its bounds crossed: it is over at once. *)
Lemma cutting_point_at_once fuel (bm : R) from limit min_max : 0 <= min_max ->
  cutting_point fuel bm from limit min_max 0 = Ok min_max.
Proof. intros Hm. destruct fuel; cbn [cutting_point]; by rewrite (proj2 (Z.ltb_ge min_max 0)). Qed.

(** The bitmaps of block numbers: not empty, below the last 32-bit number. *)
Definition block_numbers (bm : R) : Prop := rb_values bm <> ∅ /\ forall x, x ∈ rb_values bm -> 0 <= x < 2 ^ 32 - 1.

Lemma block_numbers_bounds bm : block_numbers bm ->
  0 <= rb_minimum bm <= rb_maximum bm /\ rb_maximum bm < 2 ^ 32 - 1
  /\ forall x, x ∈ rb_values bm -> rb_minimum bm <= x <= rb_maximum bm.
Proof.
  intros [Hne Hr]. destruct (rb_minimum_values bm Hne) as [Hm1 Hm2]. destruct (rb_maximum_values bm Hne) as [HM1 HM2].
  pose proof (Hr _ Hm1). pose proof (Hr _ HM1). pose proof (Hm2 _ HM1). split_and!; try lia.
  intros x Hx. split; [by apply Hm2|by apply HM2].
Qed.

(** A bitmap over the limit of a chunk has more than one value. *)
Lemma big_bitmap_spread `{!RoaringSizes R} (bm : R) : block_numbers bm -> kBitmapChunkLimit < rb_size_in_bytes bm ->
  rb_minimum bm < rb_maximum bm.
Proof.
  intros Hbm Hbig. destruct (block_numbers_bounds bm Hbm) as (Hle & _ & Hb). pose proof (rb_size_values bm) as Hs.
  destruct (Z.lt_ge_cases (rb_minimum bm) (rb_maximum bm)) as [|Hge]; [done|].
  assert (rb_values bm ⊆ {[rb_minimum bm]}) as Hsub by (intros x Hx; apply elem_of_singleton; specialize (Hb x Hx); lia).
  apply subseteq_size in Hsub. rewrite size_singleton in Hsub. unfold kBitmapChunkLimit in Hbig. lia.
Qed.

(** What a cut of either width does: nothing is lost if the bitmap fits; otherwise its maximum is. *)
Definition cut_spec (bm : R) (size_limit : Z) (cut : result unit (R * R)) : Prop :=
  exists chunk rest, cut = Ok (chunk, rest) /\ rb_values rest = ∅
    /\ rb_values chunk = if rb_size_in_bytes bm <=? size_limit then rb_values bm else rb_values bm ∖ {[rb_maximum bm]}.

(** The chunk and the rest of a bitmap that is too big. *)
Lemma cut_big (bm chunk rest : R) :
  block_numbers bm ->
  (forall x, x ∈ rb_values chunk <-> x ∈ rb_values bm /\ rb_minimum bm <= x < rb_maximum bm) ->
  (forall x, x ∈ rb_values rest <-> x ∈ rb_values bm /\ ~ (rb_minimum bm <= x <= rb_maximum bm)) ->
  rb_values rest = ∅ /\ rb_values chunk = rb_values bm ∖ {[rb_maximum bm]}.
Proof.
  intros Hbm Hc Hr. destruct (block_numbers_bounds bm Hbm) as (_ & _ & Hb). split; apply set_eq; intros x.
  - rewrite Hr, elem_of_empty. split; [|done]. intros [Hx Hn]. specialize (Hb x Hx). lia.
  - rewrite Hc, elem_of_difference, elem_of_singleton. split.
    + intros [Hx Hl]. split; [done|lia].
    + intros [Hx Hl]. specialize (Hb x Hx). split; [done|lia].
Qed.

(** A bitmap that fits is its own chunk. *)
Lemma cut_small (bm chunk : R) :
  block_numbers bm ->
  (forall x, x ∈ rb_values chunk <-> x ∈ rb_values bm /\ rb_minimum bm <= x < rb_maximum bm + 1) ->
  rb_values chunk = rb_values bm.
Proof.
  intros Hbm Hc. destruct (block_numbers_bounds bm Hbm) as (_ & _ & Hb). apply set_eq. intros x. rewrite Hc.
  split; [by intros [? _]|]. intros Hx. specialize (Hb x Hx). split; [done|lia].
Qed.

(** * Properties *)

(** Cutting a bitmap of block numbers that fits into the limit returns it whole and leaves nothing. Cutting one that
    does not fit never divides it: the bounds of the search are crossed from the start, the chunk is everything
    but the greatest number, and everything is removed from the bitmap, so the greatest number is lost. *)
Theorem cut_left_correct (bm : R) (size_limit : Z) :
  block_numbers bm -> (size_limit < rb_size_in_bytes bm -> rb_minimum bm < rb_maximum bm) ->
  cut_spec bm size_limit (cut_left_64 bm size_limit) /\ cut_spec bm size_limit (cut_left_32 bm size_limit).
Proof.
  intros Hbm Hmulti. destruct (block_numbers_bounds bm Hbm) as ([Hm0 Hm1] & HM & _).
  unfold cut_spec, cut_left_64, cut_left_32. destruct (Z.leb_spec (rb_size_in_bytes bm) size_limit) as [Hsize|Hsize].
  - unfold u64, u32. rewrite !wrap_small by lia.
    destruct (slice_values bm (rb_minimum bm) (rb_maximum bm + 1)) as (chunk & -> & Hc); [lia..|]. cbn [result_bind].
    split; exists chunk, rb_empty; (split; [done|]; split; [apply rb_empty_values|by apply cut_small]).
  - specialize (Hmulti Hsize). unfold u64, u32. rewrite !(wrap_small _ (rb_maximum bm - rb_minimum bm)) by lia.
    rewrite cutting_point_at_once by lia. cbn [result_bind].
    replace (rb_minimum bm + (rb_maximum bm - rb_minimum bm)) with (rb_maximum bm) by lia. rewrite wrap_small by lia.
    destruct (slice_values bm (rb_minimum bm) (rb_maximum bm)) as (chunk & -> & Hc); [lia..|]. cbn [result_bind].
    split; eexists _, _; (split; [done|]; apply cut_big; [done|done|]); intros x.
    + rewrite remove_loop_values. rewrite Z2Nat.id by lia. split; intros [? ?]; (split; [done|lia]).
    + apply rb_remove_range_closed_values; lia.
Qed.

End Bitmap.

(** ** Plain sets as bitmaps; the serialisation is the list of the values *)

Definition set_minimum (s : gset Z) : Z := match elements s with [] => 0 | x :: l => foldr Z.min x l end.
Definition set_maximum (s : gset Z) : Z := match elements s with [] => 0 | x :: l => foldr Z.max x l end.

Definition set_range (a b : Z) : option (gset Z) :=
  if b <=? a then None else Some (list_to_set (map (fun i => a + Z.of_nat i) (seq 0 (Z.to_nat (b - a))))).

#[export] Instance set_roaring : Roaring (gset Z) := {
  rb_values := fun s => s;
  rb_empty := ∅;
  rb_minimum := set_minimum;
  rb_maximum := set_maximum;
  rb_from_range := set_range;
  rb_and := fun r s => r ∩ s;
  rb_or := fun r s => r ∪ s;
  rb_add := fun x s => {[x]} ∪ s;
  rb_run_optimize := fun s => s;
  rb_remove := fun x s => s ∖ {[x]};
  rb_remove_range_closed := fun a b s => filter (fun x => ~ (a <= x <= b)) s;
  rb_size_in_bytes := fun s => Z.of_nat (size s);
  rb_move := fun n s => let t := filter (fun x => n <= x) s in if (size t =? 0)%nat then None else Some (set_minimum t);
  rb_read_safe := fun b => Some (list_to_set b);
  rb_write := fun s => elements s
}.

Lemma foldr_pick (f : Z -> Z -> Z) (le : Z -> Z -> Prop) (Hpick : forall x y, f x y = x \/ f x y = y)
  (Hl : forall x y, le (f x y) x) (Hr : forall x y, le (f x y) y) (Htr : forall x y z, le x y -> le y z -> le x z)
  (Hrefl : forall x, le x x) l x :
  foldr f x l ∈ x :: l /\ forall y, y ∈ x :: l -> le (foldr f x l) y.
Proof.
  induction l as [|z l [IH1 IH2]]; cbn [foldr].
  - split; [by left|]. intros y [->|[]%elem_of_nil]%elem_of_cons. apply Hrefl.
  - split.
    + destruct (Hpick z (foldr f x l)) as [->| ->]; [right; left|]. apply elem_of_cons in IH1 as [->|?]; [by left|by do 2 right].
    + intros y [->|[->|Hy]%elem_of_cons]%elem_of_cons; [|apply Hl|]; (eapply Htr; [apply Hr|]); apply IH2; [by left|by right].
Qed.

Lemma set_minimum_spec (s : gset Z) : s <> ∅ -> set_minimum s ∈ s /\ forall x, x ∈ s -> set_minimum s <= x.
Proof.
  intros Hne. unfold set_minimum. destruct (elements s) as [|a l] eqn:E; [by apply elements_empty_inv, leibniz_equiv in E|].
  destruct (foldr_pick Z.min Z.le ltac:(lia) ltac:(lia) ltac:(lia) ltac:(lia) ltac:(lia) l a) as [H1 H2].
  rewrite <- E in H1, H2. split; [by apply elem_of_elements in H1|]. intros x Hx. apply H2. by apply elem_of_elements.
Qed.

Lemma set_maximum_spec (s : gset Z) : s <> ∅ -> set_maximum s ∈ s /\ forall x, x ∈ s -> x <= set_maximum s.
Proof.
  intros Hne. unfold set_maximum. destruct (elements s) as [|a l] eqn:E; [by apply elements_empty_inv, leibniz_equiv in E|].
  destruct (foldr_pick Z.max Z.ge ltac:(lia) ltac:(lia) ltac:(lia) ltac:(lia) ltac:(lia) l a) as [H1 H2].
  rewrite <- E in H1, H2. split; [by apply elem_of_elements in H1|]. intros x Hx.
  apply Z.ge_le, H2. by apply elem_of_elements.
Qed.

#[export] Instance set_roaring_laws : RoaringLaws (gset Z).
Proof.
  split; cbn; try done.
  - apply set_minimum_spec.
  - apply set_maximum_spec.
  - intros a b Ha _. unfold set_range. rewrite (proj2 (Z.leb_gt _ _)) by lia. eexists. split; [done|]. intros x.
    rewrite elem_of_list_to_set, list_elem_of_fmap. setoid_rewrite elem_of_seq. split.
    + intros (i & -> & Hi). lia.
    + intros Hx. exists (Z.to_nat (x - a)). lia.
  - intros a b Hb. unfold set_range. by rewrite (proj2 (Z.leb_le _ _)).
  - intros r. eexists. split; [done|]. apply list_to_set_elements_L.
  - intros a b r x _ _. rewrite elem_of_filter. tauto.
  - intros n r. set (t := filter _ r). destruct (Nat.eqb_spec (size t) 0) as [E|E].
    + intros y Hy. apply size_empty_inv in E. destruct (Z.lt_ge_cases y n); [done|].
      assert (y ∈ t) as Ht by (by apply elem_of_filter). rewrite E in Ht. by apply elem_of_empty in Ht.
    + destruct (set_minimum_spec t) as [H1 H2]; [intros Et; by rewrite Et, size_empty in E|].
      apply elem_of_filter in H1 as [H1 H3]. split_and!; try done. intros y Hy Hn. apply H2. by apply elem_of_filter.
Qed.

#[export] Instance set_roaring_sizes : RoaringSizes (gset Z).
Proof.
  split; intros r; cbn; [lia|]. intros Hr.
  assert (r ⊆ list_to_set (seqZ 0 (2 ^ 32 - 1))) as Hsub by (intros x Hx; rewrite elem_of_list_to_set, elem_of_seqZ; specialize (Hr x Hx); lia).
  apply subseteq_size in Hsub. rewrite size_list_to_set, length_seqZ in Hsub by apply NoDup_seqZ. lia.
Qed.

(** Three blocks, cut at a size of two: block 9 is neither in the chunk nor left over. *)
Lemma cut_left_correct_witness :
  exists chunk rest, cut_left_64 ({[3; 7; 9]} : gset Z) 2 = Ok (chunk, rest) /\ rest = ∅ /\ chunk = {[3; 7; 9]} ∖ {[9]}.
Proof.
  destruct (cut_left_correct ({[3; 7; 9]} : gset Z) 2) as [(chunk & rest & E & Er & Ec) _].
  - split; [by apply (bool_decide_unpack _)|]. intros x Hx. assert (x = 3 \/ x = 7 \/ x = 9) as H by set_solver. lia.
  - intros _. vm_compute. reflexivity.
  - exists chunk, rest. split; [exact E|]. split; [exact Er|]. exact Ec.
Defined.
