(* ===== verification/Lmdb.v ===== *)
(** * Lmdb: db/silkworm/db (chaindb.hpp, chaindb.cpp, tables.hpp, tables.cpp)

    The tables of the database and the wrappers by which the program reads and writes them. LMDB itself is a
    class of operations on the contents of a table; its documented behaviour, a table being a set of key and data
    pairs in order, is a class of laws. Environments, their sizes and the transactions of other processes are not
    modelled: a transaction sees the tables it started with and its own writes. *)

From Stdlib Require Import Sorted.
From stdpp Require Import gmap sets strings.
From S2P Require Import Prelude Util Rlp.
Local Open Scope Z_scope.
Local Open Scope silk_scope.

(** A pair of key and data. *)
Notation item := (bytes * bytes)%type.

Inductive MdbCode : Type := MDB_NOTFOUND | MDB_KEYEXIST | MDB_BAD_VALSIZE | MDB_BAD_TXN | MDB_OTHER (rc : Z).

(** What the functions of the database throw. *)
Inductive DbError : Type :=
| LmdbException (rc : MdbCode)
| DecodingException (err : DecodingError)       (* rlp::DecodingError, by err_handler *)
| DecodingResultThrown (err : DecodingError)    (* the enumerator itself *)
| MissingSenders
| InvalidArgument
| LengthError
| RuntimeError
| WrongRoot.

#[export] Instance MdbCode_eq_dec : EqDecision MdbCode.
Proof. solve_decision. Defined.

(** ** Tables and their names *)

(** [memcmp] of as many bytes as the first key has; a shorter second key is read past its end. *)
Definition cmp_fixed_len_key (a b : bytes) : result unit Z :=
  if (length b <? length a)%nat then Undef
  else let b := take (length a) b in
       Ok (if bytes_ltb a b then -1 else if bytes_ltb b a then 1 else 0).

(** Of the flags only [MDB_DUPSORT] is used. *)
Record TableConfig : Type := mkTableConfig {
  config_name : option string;
  config_dupsort : bool;
  config_cmp : option (bytes -> bytes -> result unit Z)
}.

Definition kMAIN_DBI : TableConfig := mkTableConfig None false None.
Definition kAccountHistory : TableConfig := mkTableConfig (Some "hAT"%string) false None.
Definition kBlockBodies : TableConfig := mkTableConfig (Some "b"%string) false None.
Definition kCanonicalHashes : TableConfig := mkTableConfig (Some "canonical_headers"%string) false (Some cmp_fixed_len_key).
Definition kHeaders : TableConfig := mkTableConfig (Some "headers"%string) false (Some cmp_fixed_len_key).
Definition kDifficulty : TableConfig := mkTableConfig (Some "header_to_td"%string) false (Some cmp_fixed_len_key).
Definition kBlockReceipts : TableConfig := mkTableConfig (Some "r"%string) false None.
Definition kBloomBitsIndex : TableConfig := mkTableConfig (Some "iB"%string) false None.
Definition kBloomBits : TableConfig := mkTableConfig (Some "B"%string) false None.
Definition kBodiesSnapshotInfo : TableConfig := mkTableConfig (Some "bSNINFO"%string) false None.
Definition kCallFromIndex : TableConfig := mkTableConfig (Some "call_from_index"%string) false None.
Definition kCallToIndex : TableConfig := mkTableConfig (Some "call_to_index"%string) false None.
Definition kClique : TableConfig := mkTableConfig (Some "clique-"%string) false None.
Definition kCode : TableConfig := mkTableConfig (Some "CODE"%string) false None.
Definition kConfig : TableConfig := mkTableConfig (Some "ethereum-config-"%string) false None.
Definition kContractCode : TableConfig := mkTableConfig (Some "contractCode"%string) false None.
Definition kDatabaseInfo : TableConfig := mkTableConfig (Some "DBINFO"%string) false None.
Definition kDatabaseVersion : TableConfig := mkTableConfig (Some "DatabaseVersion"%string) false None.
Definition kEthTx : TableConfig := mkTableConfig (Some "eth_tx"%string) false None.
Definition kFastTrieProgress : TableConfig := mkTableConfig (Some "TrieSync"%string) false None.
Definition kHashedAccounts : TableConfig := mkTableConfig (Some "hashed_accounts"%string) false None.
Definition kHashedStorage : TableConfig := mkTableConfig (Some "hashed_storage"%string) true None.
Definition kHeadBlock : TableConfig := mkTableConfig (Some "LastBlock"%string) false None.
Definition kHeadFastBlock : TableConfig := mkTableConfig (Some "LastFast"%string) false None.
Definition kHeadHeader : TableConfig := mkTableConfig (Some "LastHeader"%string) false None.
Definition kHeaderNumbers : TableConfig := mkTableConfig (Some "H"%string) false None.
Definition kHeadersSnapshotInfo : TableConfig := mkTableConfig (Some "hSNINFO"%string) false None.
Definition kIncarnationMap : TableConfig := mkTableConfig (Some "incarnationMap"%string) false None.
Definition kLogAddressIndex : TableConfig := mkTableConfig (Some "log_address_index"%string) false None.
Definition kLogTopicIndex : TableConfig := mkTableConfig (Some "log_topic_index"%string) false None.
Definition kLogs : TableConfig := mkTableConfig (Some "log"%string) false None.
Definition kMigrations : TableConfig := mkTableConfig (Some "migrations"%string) false None.
Definition kPlainAccountChangeSet : TableConfig := mkTableConfig (Some "PLAIN-ACS"%string) true None.
Definition kPlainContractCode : TableConfig := mkTableConfig (Some "PLAIN-contractCode"%string) false None.
Definition kPlainState : TableConfig := mkTableConfig (Some "PLAIN-CST2"%string) true None.
Definition kPlainStorageChangeSet : TableConfig := mkTableConfig (Some "PLAIN-SCS"%string) true None.
Definition kPreimage : TableConfig := mkTableConfig (Some "secure-key-"%string) false None.
Definition kSenders : TableConfig := mkTableConfig (Some "txSenders"%string) false None.
Definition kSequence : TableConfig := mkTableConfig (Some "sequence"%string) false None.
Definition kSnapshotInfo : TableConfig := mkTableConfig (Some "SNINFO"%string) false None.
Definition kStateSnapshotInfo : TableConfig := mkTableConfig (Some "sSNINFO"%string) false None.
Definition kStorageHistory : TableConfig := mkTableConfig (Some "hST"%string) false None.
Definition kSyncStageProgress : TableConfig := mkTableConfig (Some "SSP2"%string) false None.
Definition kSyncStageUnwind : TableConfig := mkTableConfig (Some "SSU2"%string) false None.
Definition kTrieOfAccounts : TableConfig := mkTableConfig (Some "trie_account"%string) false None.
Definition kTrieOfStorage : TableConfig := mkTableConfig (Some "trie_storage"%string) false None.
Definition kTxLookup : TableConfig := mkTableConfig (Some "l"%string) false None.

Definition kTables : list TableConfig :=
  [kAccountHistory; kBlockBodies; kBlockReceipts; kBloomBits; kBloomBitsIndex; kBodiesSnapshotInfo;
   kCallFromIndex; kCallToIndex; kCanonicalHashes; kHeaders; kDifficulty; kClique; kCode; kConfig;
   kContractCode; kDatabaseInfo; kDatabaseVersion; kEthTx; kFastTrieProgress; kHashedAccounts;
   kHashedStorage; kHeadBlock; kHeadFastBlock; kHeadHeader; kHeaderNumbers; kHeadersSnapshotInfo;
   kIncarnationMap; kLogAddressIndex; kLogTopicIndex; kLogs; kMigrations; kPlainAccountChangeSet;
   kPlainContractCode; kPlainState; kPlainStorageChangeSet; kPreimage; kSenders; kSequence; kSnapshotInfo;
   kStateSnapshotInfo; kStorageHistory; kSyncStageProgress; kSyncStageUnwind; kTrieOfAccounts;
   kTrieOfStorage; kTxLookup].

Fixpoint find_config (name : string) (l : list TableConfig) : option TableConfig :=
  match l with
  | [] => None
  | config :: l => if decide (config_name config = Some name) then Some config else find_config name l
  end.

(** [get_config] *)
Definition get_config (name : string) : option TableConfig := find_config name kTables.

(** ** LMDB *)

Inductive MDB_cursor_op : Type :=
| MDB_FIRST | MDB_FIRST_DUP | MDB_GET_BOTH_RANGE | MDB_GET_CURRENT | MDB_LAST | MDB_NEXT | MDB_NEXT_DUP
| MDB_NEXT_NODUP | MDB_PREV | MDB_PREV_DUP | MDB_SET | MDB_SET_RANGE.

(** The contents [T] of a table. [mdb_cursor_get] takes the pair the cursor is at, if it is at one, the operation,
    and the key and data passed in; the pair it answers is where the cursor is then. *)
Class Lmdb (T : Type) : Type := {
  tb_items : T -> gset item;
  tb_dupsort : T -> bool;
  mdb_dbi_open : bool -> gmap (option string) T -> option string -> bool -> bool ->
    result MdbCode (gmap (option string) T);
  mdb_cursor_get : T -> option item -> MDB_cursor_op -> bytes -> bytes -> result MdbCode item;
  mdb_cursor_put : T -> bytes -> bytes -> result MdbCode T;
  mdb_cursor_append : T -> bytes -> bytes -> result MdbCode T;          (* MDB_APPEND *)
  mdb_cursor_append_dup : T -> bytes -> bytes -> result MdbCode T;      (* MDB_APPENDDUP *)
  mdb_cursor_del : T -> item -> result MdbCode T;
  mdb_drop : T -> result MdbCode T;
  mdb_stat_entries : T -> result MdbCode Z
}.

(** The order of a table: by key, then by data. *)
Definition item_ltb (x y : item) : bool :=
  bytes_ltb (fst x) (fst y) || (bytes_eqb (fst x) (fst y) && bytes_ltb (snd x) (snd y)).

(** [r] is the least item of the table with [P], or reports that there is none. *)
Definition finds_least (s : gset item) (P : item -> Prop) (r : result MdbCode item) : Prop :=
  match r with
  | Ok x => x ∈ s /\ P x /\ forall y, y ∈ s -> P y -> item_ltb y x = false
  | Err MDB_NOTFOUND => forall y, y ∈ s -> ~ P y
  | _ => False
  end.

(** Keys are limited to 511 bytes, and so are the data of a table with duplicates. *)
Definition key_fits (k : bytes) : Prop := (0 < length k <= 511)%nat.

(** What a put leaves in a table. *)
Definition put_items (dupsort : bool) (k d : bytes) (s : gset item) : gset item :=
  {[(k, d)]} ∪ if dupsort then s else filter (fun x => fst x <> k) s.

Class LmdbLaws (T : Type) `{Lmdb T} : Prop := {
  open_existing ro (tbs : gmap (option string) T) name create dup : is_Some (tbs !! name) ->
    mdb_dbi_open ro tbs name create dup = Ok tbs;
  open_missing ro (tbs : gmap (option string) T) name dup : tbs !! name = None ->
    mdb_dbi_open ro tbs name false dup = Err MDB_NOTFOUND;
  open_create (tbs : gmap (option string) T) name dup : tbs !! name = None ->
    exists t, mdb_dbi_open false tbs name true dup = Ok (<[name := t]> tbs) /\ tb_items t = ∅ /\ tb_dupsort t = dup;
  plain_unique (t : T) k d d' : tb_dupsort t = false -> (k, d) ∈ tb_items t -> (k, d') ∈ tb_items t -> d = d';
  get_set (t : T) c k d : k <> [] -> finds_least (tb_items t) (fun x => fst x = k) (mdb_cursor_get t c MDB_SET k d);
  get_set_range (t : T) c k d : k <> [] ->
    finds_least (tb_items t) (fun x => bytes_ltb (fst x) k = false) (mdb_cursor_get t c MDB_SET_RANGE k d);
  get_both_range (t : T) c k d : tb_dupsort t = true -> k <> [] -> d <> [] ->
    finds_least (tb_items t) (fun x => fst x = k /\ bytes_ltb (snd x) d = false)
      (mdb_cursor_get t c MDB_GET_BOTH_RANGE k d);
  get_first (t : T) c k d : finds_least (tb_items t) (fun _ => True) (mdb_cursor_get t c MDB_FIRST k d);
  get_next (t : T) x k d : x ∈ tb_items t ->
    finds_least (tb_items t) (fun y => item_ltb x y = true) (mdb_cursor_get t (Some x) MDB_NEXT k d);
  get_next_dup (t : T) x k d : tb_dupsort t = true -> x ∈ tb_items t ->
    finds_least (tb_items t) (fun y => fst y = fst x /\ item_ltb x y = true)
      (mdb_cursor_get t (Some x) MDB_NEXT_DUP k d);
  get_last (t : T) c k d :
    finds_least (tb_items t) (fun x => forall y, y ∈ tb_items t -> item_ltb x y = false) (mdb_cursor_get t c MDB_LAST k d);
  put_fits (t : T) k d : key_fits k -> (tb_dupsort t = true -> key_fits d) ->
    exists t', mdb_cursor_put t k d = Ok t' /\ tb_dupsort t' = tb_dupsort t
      /\ tb_items t' = put_items (tb_dupsort t) k d (tb_items t);
  append_last (t : T) k d : key_fits k -> (tb_dupsort t = true -> key_fits d) ->
    (forall x, x ∈ tb_items t -> bytes_ltb (fst x) k = true) ->
    exists t', mdb_cursor_append t k d = Ok t' /\ tb_dupsort t' = tb_dupsort t /\ tb_items t' = {[(k, d)]} ∪ tb_items t;
  append_not_last (t : T) k d x : x ∈ tb_items t -> bytes_ltb (fst x) k = false -> mdb_cursor_append t k d = Err MDB_KEYEXIST;
  append_dup_last (t : T) k d : tb_dupsort t = true -> key_fits k -> key_fits d ->
    (forall d', (k, d') ∈ tb_items t -> bytes_ltb d' d = true) ->
    exists t', mdb_cursor_append_dup t k d = Ok t' /\ tb_dupsort t' = true /\ tb_items t' = {[(k, d)]} ∪ tb_items t;
  append_dup_not_last (t : T) k d d' : tb_dupsort t = true -> (k, d') ∈ tb_items t -> bytes_ltb d' d = false ->
    mdb_cursor_append_dup t k d = Err MDB_KEYEXIST;
  del_current (t : T) x : x ∈ tb_items t ->
    exists t', mdb_cursor_del t x = Ok t' /\ tb_dupsort t' = tb_dupsort t /\ tb_items t' = tb_items t ∖ {[x]};
  drop_empties (t : T) : exists t', mdb_drop t = Ok t' /\ tb_dupsort t' = tb_dupsort t /\ tb_items t' = ∅;
  stat_entries (t : T) : mdb_stat_entries t = Ok (Z.of_nat (size (tb_items t)))
}.

(** ** Transactions and tables *)

Section Tables.
Context {T : Type} `{Lmdb T}.

Record Txn : Type := mkTxn { txn_ro : bool; txn_tables : gmap (option string) T }.

(** [err_handler] *)
Definition err_handler {A} (r : result MdbCode A) : result DbError A :=
  match r with Ok a => Ok a | Err rc => Err (LmdbException rc) | Undef => Undef end.

(** [if (rc == MDB_NOTFOUND) return nullopt; err_handler(rc)] *)
Definition not_found {A} (r : result MdbCode A) : result DbError (option A) :=
  match r with Ok a => Ok (Some a) | Err MDB_NOTFOUND => Ok None | Err rc => Err (LmdbException rc) | Undef => Undef end.

(** [Transaction::open]: a comparator that is set orders the keys of its table as the table is ordered
    ([cmp_fixed_len_key_order]). *)
Definition txn_open (config : TableConfig) (create : bool) (txn : Txn) : result DbError (T * Txn) :=
  try tbs := err_handler (mdb_dbi_open (txn_ro txn) (txn_tables txn) (config_name config) create (config_dupsort config)) in
  match tbs !! config_name config with
  | Some t => Ok (t, mkTxn (txn_ro txn) tbs)
  | None => Undef
  end.

(** A handle without [MDB_CREATE]: the transaction is as before. *)
Definition open_table (config : TableConfig) (txn : Txn) : result DbError T :=
  try (t, _) := txn_open config false txn in Ok t.

(** What is written through a handle is in the transaction's table. *)
Definition with_table (config : TableConfig) (t : T) (txn : Txn) : Txn :=
  mkTxn (txn_ro txn) (<[config_name config := t]> (txn_tables txn)).

(** [Table::get] *)
Definition table_get (t : T) (key : bytes) : result DbError (option bytes) :=
  try found := not_found (mdb_cursor_get t None MDB_SET key []) in Ok (snd <$> found).

(** [Table::get] with a key of data; the pair is where the cursor is. *)
Definition table_find_sub (t : T) (key sub_key : bytes) : result DbError (option item) :=
  try found := not_found (mdb_cursor_get t None MDB_GET_BOTH_RANGE key sub_key) in
  Ok (match found with
      | Some (k, x) => if has_prefix x sub_key then Some (k, x) else None
      | None => None
      end).

Definition table_get_sub (t : T) (key sub_key : bytes) : result DbError (option bytes) :=
  try found := table_find_sub t key sub_key in Ok ((fun x => drop (length sub_key) (snd x)) <$> found).

(** [Table::seek_dup] *)
Definition table_seek_dup (t : T) (key lower_bound : bytes) : result DbError (option item) :=
  match lower_bound with
  | [] => Undef
  | _ => not_found (mdb_cursor_get t None MDB_GET_BOTH_RANGE key lower_bound)
  end.

(** [Table::get_next], [Table::get_next_dup] *)
Definition table_get_next (t : T) (c : item) : result DbError (option item) :=
  not_found (mdb_cursor_get t (Some c) MDB_NEXT [] []).

Definition table_get_next_dup (t : T) (c : item) : result DbError (option item) :=
  not_found (mdb_cursor_get t (Some c) MDB_NEXT_DUP [] []).

(** [Table::seek] *)
Definition table_seek (t : T) (lower_bound : bytes) : result DbError (option item) :=
  not_found (mdb_cursor_get t None (match lower_bound with [] => MDB_FIRST | _ => MDB_SET_RANGE end) lower_bound []).

(** [Table::del] *)
Definition table_del (t : T) (key : bytes) : result DbError T :=
  try found := not_found (mdb_cursor_get t None MDB_SET key []) in
  match found with Some c => err_handler (mdb_cursor_del t c) | None => Ok t end.

Definition table_del_sub (t : T) (key sub_key : bytes) : result DbError T :=
  try found := table_find_sub t key sub_key in
  match found with Some c => err_handler (mdb_cursor_del t c) | None => Ok t end.

(** [Table::put] *)
Definition table_put (t : T) (key data : bytes) : result DbError T := err_handler (mdb_cursor_put t key data).

(** [Table::put] with the flags of the library. *)
Inductive PutFlags : Type := NO_FLAGS | MDB_APPEND | MDB_APPENDDUP.

Definition table_put_flags (flags : PutFlags) (t : T) (key data : bytes) : result DbError T :=
  err_handler (match flags with
               | NO_FLAGS => mdb_cursor_put t key data
               | MDB_APPEND => mdb_cursor_append t key data
               | MDB_APPENDDUP => mdb_cursor_append_dup t key data
               end).

(** [Table::clear], whose code the callers ignore, and [Table::get_rcount] *)
Definition table_clear (t : T) : result unit T :=
  match mdb_drop t with Ok t => Ok t | Err _ => Ok t | Undef => Undef end.

Definition table_get_rcount (t : T) : result DbError Z := err_handler (mdb_stat_entries t).

(** [Transaction::get]: any exception of opening counts as absence; a writable transaction creates the table. *)
Definition txn_get (domain : TableConfig) (key : bytes) (txn : Txn) : result DbError (option bytes * Txn) :=
  match txn_open domain (match config_name domain with Some _ => negb (txn_ro txn) | None => false end) txn with
  | Undef => Undef
  | Err _ => Ok (None, txn)
  | Ok (t, txn) => try found := not_found (mdb_cursor_get t None MDB_SET key []) in Ok (snd <$> found, txn)
  end.

(** [Transaction::put]: the code that the library, or the exception of opening, has. *)
Definition txn_put (domain : TableConfig) (key data : bytes) (txn : Txn) : result unit (option MdbCode * Txn) :=
  if txn_ro txn then Ok (Some MDB_BAD_TXN, txn)
  else
    match txn_open domain (match config_name domain with Some _ => true | None => false end) txn with
    | Undef => Undef
    | Err (LmdbException rc) => Ok (Some rc, txn)
    | Err _ => Undef
    | Ok (t, txn) =>
        match mdb_cursor_put t key data with
        | Ok t => Ok (None, with_table domain t txn)
        | Err rc => Ok (Some rc, txn)
        | Undef => Undef
        end
    end.

(** [create_all] *)
Fixpoint create_tables (l : list TableConfig) (txn : Txn) : result DbError Txn :=
  match l with
  | [] => Ok txn
  | config :: l => try (_, txn) := txn_open config true txn in create_tables l txn
  end.

Definition create_all : Txn -> result DbError Txn := create_tables kTables.

End Tables.
Arguments Txn T : clear implicits.

(** [for (const auto& x : l) s = f(x, s)] for a step that may throw. *)
Fixpoint for_each {E A S : Type} (f : A -> S -> result E S) (l : list A) (s : S) : result E S :=
  match l with
  | [] => Ok s
  | x :: l => try s := f x s in for_each f l s
  end.

(** * Lemmas: the order of items *)

Lemma cmp_fixed_len_key_order (a b : bytes) : length a = length b ->
  cmp_fixed_len_key a b = Ok (if bytes_ltb a b then -1 else if bytes_ltb b a then 1 else 0).
Proof.
  intros Hl. unfold cmp_fixed_len_key. rewrite Hl, Nat.ltb_irrefl. by rewrite take_ge by lia.
Qed.

Lemma bytes_ltb_app_same l a b : bytes_ltb (l ++ a) (l ++ b) = bytes_ltb a b.
Proof. induction l as [|x l IH]; cbn; [done|]. by rewrite Z.ltb_irrefl. Qed.

Lemma bytes_ltb_prefix l v : bytes_ltb (l ++ v) l = false.
Proof. induction l as [|x l IH]; cbn; [by destruct v|]. by rewrite Z.ltb_irrefl. Qed.

(** What lies between a string and one that extends it extends it. *)
Lemma bytes_between l v : forall x, bytes_ltb x l = false -> bytes_ltb (l ++ v) x = false -> exists w, x = l ++ w.
Proof.
  induction l as [|y l IH]; intros x H1 H2; [by exists x|].
  destruct x as [|z x]; [done|]. cbn in H1, H2.
  destruct (Z.ltb_spec z y), (Z.ltb_spec y z); try done. assert (z = y) as -> by lia.
  destruct (IH x H1 H2) as [w ->]. by exists w.
Qed.

Lemma has_prefix_app l w : has_prefix (l ++ w) l = true.
Proof. unfold has_prefix. rewrite take_app_length. by apply bytes_eqb_eq. Qed.

Lemma has_prefix_exists x l : has_prefix x l = true -> exists w, x = l ++ w.
Proof.
  unfold has_prefix. intros E. apply bytes_eqb_eq in E. exists (drop (length l) x). rewrite <- E at 1. by rewrite take_drop.
Qed.

Lemma item_ltb_same k d d' : item_ltb (k, d) (k, d') = bytes_ltb d d'.
Proof.
  unfold item_ltb. cbn. rewrite bytes_ltb_irrefl. unfold bytes_eqb. by rewrite bool_decide_eq_true_2.
Qed.

Lemma key_fits_nonempty k : key_fits k -> k <> [].
Proof. unfold key_fits. intros Hk ->. cbn in Hk. lia. Qed.

(** * Lemmas: reading and writing *)

Section TableLemmas.
Context {T : Type} `{LmdbLaws T}.
Implicit Types t : T.

(** At most one item of the table has [P]. *)
Definition at_most_one (P : item -> Prop) t : Prop :=
  forall x y, x ∈ tb_items t -> y ∈ tb_items t -> P x -> P y -> x = y.

Lemma table_find_spec t key : key <> [] ->
  exists o, not_found (mdb_cursor_get t None MDB_SET key []) = Ok o
    /\ match o with Some x => x ∈ tb_items t /\ fst x = key | None => forall d, (key, d) ∉ tb_items t end.
Proof.
  intros Hk. pose proof (get_set t None key [] Hk) as HL. destruct (mdb_cursor_get _ _ _ _ _) as [x|[]|]; cbn in *; try done.
  - exists (Some x). split; [done|]. by destruct HL as (? & ? & _).
  - exists None. split; [done|]. intros d Hd. by apply (HL _ Hd).
Qed.

Lemma table_get_spec t key : key <> [] -> at_most_one (fun x => fst x = key) t ->
  exists o, table_get t key = Ok o /\ forall d, o = Some d <-> (key, d) ∈ tb_items t.
Proof.
  intros Hk Hu. unfold table_get. destruct (table_find_spec t key Hk) as (o & -> & Ho). cbn [result_bind].
  exists (snd <$> o). split; [done|]. intros d. destruct o as [[k d']|]; cbn in *.
  - destruct Ho as [Ho ->]. split; [by intros [= ->]|]. intros Hd. by injection (Hu _ _ Ho Hd eq_refl eq_refl) as ->.
  - split; [done|]. intros Hd. by destruct (Ho d).
Qed.

Lemma plain_at_most_one t key : tb_dupsort t = false -> at_most_one (fun x => fst x = key) t.
Proof. intros Hd [k d] [k' d'] Hx Hy. cbn. intros -> ->. f_equal. by eapply plain_unique. Qed.

Lemma table_find_sub_spec t key sub : tb_dupsort t = true -> key <> [] -> sub <> [] ->
  exists o, table_find_sub t key sub = Ok o
    /\ match o with
       | Some x => x ∈ tb_items t /\ exists v, x = (key, sub ++ v)
       | None => forall v, (key, sub ++ v) ∉ tb_items t
       end.
Proof.
  intros Hdup Hk Hs. unfold table_find_sub. pose proof (get_both_range t None key sub Hdup Hk Hs) as HL.
  destruct (mdb_cursor_get _ _ _ _ _) as [[k x]|[]|]; cbn in *; try done.
  - destruct HL as (Hin & [-> Hge] & Hleast). destruct (has_prefix x sub) eqn:Ep.
    + apply has_prefix_exists in Ep as [w ->]. exists (Some (key, sub ++ w)). split; [done|]. split; [done|by exists w].
    + exists None. split; [done|]. intros v Hv. specialize (Hleast _ Hv). rewrite item_ltb_same in Hleast.
      destruct (bytes_between sub v x Hge) as [w ->]; [|by rewrite has_prefix_app in Ep].
      apply Hleast. split; [done|apply bytes_ltb_prefix].
  - exists None. split; [done|]. intros v Hv. apply (HL _ Hv). split; [done|apply bytes_ltb_prefix].
Qed.

Lemma table_get_sub_spec t key sub : tb_dupsort t = true -> key <> [] -> sub <> [] ->
  at_most_one (fun x => fst x = key /\ has_prefix (snd x) sub = true) t ->
  exists o, table_get_sub t key sub = Ok o /\ forall v, o = Some v <-> (key, sub ++ v) ∈ tb_items t.
Proof.
  intros Hdup Hk Hs Hu. unfold table_get_sub. destruct (table_find_sub_spec t key sub Hdup Hk Hs) as (o & -> & Ho).
  cbn [result_bind]. eexists. split; [done|]. intros v. destruct o as [x|]; cbn.
  - destruct Ho as (Hx & w & ->). cbn [snd]. rewrite drop_app_length. split; [by intros [= ->]|].
    intros Hv. assert ((key, sub ++ w) = (key, sub ++ v)) as [= E].
    { apply Hu; try done; cbn; by rewrite has_prefix_app. }
    apply app_inv_head in E. by subst.
  - split; [done|]. intros Hv. by destruct (Ho v).
Qed.

Lemma table_put_spec t key d : key_fits key -> (tb_dupsort t = true -> key_fits d) ->
  exists t', table_put t key d = Ok t' /\ tb_dupsort t' = tb_dupsort t
    /\ tb_items t' = put_items (tb_dupsort t) key d (tb_items t).
Proof. intros Hk Hd. unfold table_put. destruct (put_fits t key d Hk Hd) as (t' & -> & Hr). by exists t'. Qed.

Lemma table_del_spec t key : key <> [] -> at_most_one (fun x => fst x = key) t ->
  exists t', table_del t key = Ok t' /\ tb_dupsort t' = tb_dupsort t
    /\ forall x, x ∈ tb_items t' <-> x ∈ tb_items t /\ fst x <> key.
Proof.
  intros Hk Hu. unfold table_del. destruct (table_find_spec t key Hk) as (o & -> & Ho). cbn [result_bind].
  destruct o as [y|].
  - destruct Ho as [Hy Ey]. destruct (del_current t y Hy) as (t' & -> & Hd & Hi). exists t'. split; [done|]. split; [done|].
    intros x. rewrite Hi, elem_of_difference, elem_of_singleton. split; intros [Hx Hn]; (split; [done|]).
    + intros E. apply Hn. by apply Hu.
    + by intros ->.
  - exists t. split; [done|]. split; [done|]. intros [k d]. split; [|by intros [? _]]. intros Hx. split; [done|].
    cbn. intros ->. by destruct (Ho d).
Qed.

Lemma table_del_sub_spec t key sub : tb_dupsort t = true -> key <> [] -> sub <> [] ->
  at_most_one (fun x => fst x = key /\ has_prefix (snd x) sub = true) t ->
  exists t', table_del_sub t key sub = Ok t' /\ tb_dupsort t' = tb_dupsort t
    /\ forall x, x ∈ tb_items t' <-> x ∈ tb_items t /\ ~ (fst x = key /\ has_prefix (snd x) sub = true).
Proof.
  intros Hdup Hk Hs Hu. unfold table_del_sub. destruct (table_find_sub_spec t key sub Hdup Hk Hs) as (o & -> & Ho).
  cbn [result_bind]. destruct o as [y|].
  - destruct Ho as (Hy & w & Ey). destruct (del_current t y Hy) as (t' & -> & Hd & Hi). exists t'. split; [done|]. split; [done|].
    intros x. rewrite Hi, elem_of_difference, elem_of_singleton. split; intros [Hx Hn]; (split; [done|]).
    + intros E. apply Hn. apply Hu; try done. subst y. cbn. by rewrite has_prefix_app.
    + intros ->. apply Hn. subst y. cbn. by rewrite has_prefix_app.
  - exists t. split; [done|]. split; [done|]. intros [k d]. split; [|by intros [? _]]. intros Hx. split; [done|].
    cbn. intros [-> Hp]. apply has_prefix_exists in Hp as [v ->]. by destruct (Ho v).
Qed.

Lemma elem_of_put_items dup k d s x :
  x ∈ put_items dup k d s <-> x = (k, d) \/ x ∈ s /\ (dup = false -> fst x <> k).
Proof.
  unfold put_items. rewrite elem_of_union, elem_of_singleton. destruct dup.
  - intuition done.
  - rewrite elem_of_filter. intuition.
Qed.

(** Opening a table that is there. *)
Lemma open_table_spec config (txn : Txn T) t : txn_tables txn !! config_name config = Some t -> open_table config txn = Ok t.
Proof.
  intros Ht. unfold open_table, txn_open. rewrite open_existing by done. cbn. by rewrite Ht.
Qed.

End TableLemmas.

Lemma for_each_app {E A S} (f : A -> S -> result E S) l1 l2 s :
  for_each f (l1 ++ l2) s = result_bind (for_each f l1 s) (for_each f l2).
Proof.
  revert s. induction l1 as [|x l1 IH]; intros s; cbn; [done|]. destruct (f x s) as [s'| |]; cbn; [apply IH|done..].
Qed.

Lemma for_each_concat {E A S} (f : A -> S -> result E S) ls s :
  for_each f (concat ls) s = for_each (for_each f) ls s.
Proof.
  revert s. induction ls as [|l ls IH]; intros s; cbn; [done|]. rewrite for_each_app.
  destruct (for_each f l s) as [s'| |]; cbn; [apply IH|done..].
Qed.

Lemma for_each_map {E A B S} (f : A -> S -> result E S) (g : B -> A) l s :
  for_each f (map g l) s = for_each (fun x => f (g x)) l s.
Proof.
  revert s. induction l as [|x l IH]; intros s; cbn; [done|]. destruct (f (g x) s) as [s'| |]; cbn; [apply IH|done..].
Qed.

Lemma for_each_ext {E A S} (f g : A -> S -> result E S) l s :
  (forall x s, x ∈ l -> f x s = g x s) -> for_each f l s = for_each g l s.
Proof.
  revert s. induction l as [|x l IH]; intros s Hfg; cbn; [done|]. rewrite Hfg by left. 
  destruct (g x s) as [s'| |]; cbn; [|done..]. apply IH. intros y s2 Hy. apply Hfg. by right.
Qed.

Lemma item_ltb_trans x y z : item_ltb x y = true -> item_ltb y z = true -> item_ltb x z = true.
Proof.
  unfold item_ltb. rewrite !orb_true_iff, !andb_true_iff. setoid_rewrite bytes_eqb_eq.
  intros [H1|[E1 H1]] [H2|[E2 H2]].
  - left. by eapply bytes_ltb_trans.
  - left. by rewrite <- E2.
  - left. by rewrite E1.
  - right. split; [congruence|]. by eapply bytes_ltb_trans.
Qed.

Lemma item_ltb_irrefl x : item_ltb x x = false.
Proof. destruct x as [k d]. by rewrite item_ltb_same, bytes_ltb_irrefl. Qed.

Lemma item_ltb_total x y : item_ltb x y = false -> item_ltb y x = false -> x = y.
Proof.
  destruct x as [k d], y as [k' d']. unfold item_ltb. cbn. rewrite !orb_false_iff. intros [H1 H2] [H3 H4].
  pose proof (bytes_ltb_total _ _ H1 H3) as ->. unfold bytes_eqb in *. rewrite bool_decide_eq_true_2 in * by done.
  cbn in *. f_equal. by apply bytes_ltb_total.
Qed.

(** Not above is transitive. *)
Lemma item_le_trans x y z : item_ltb y x = false -> item_ltb z y = false -> item_ltb z x = false.
Proof.
  intros H1 H2. destruct (item_ltb z x) eqn:E; [|done]. destruct (item_ltb y z) eqn:E2.
  - by rewrite (item_ltb_trans y z x) in H1.
  - by rewrite (item_ltb_total y z E2 H2), E in H1.
Qed.

(** * Lemmas: a cursor walks through the items in order *)

(** From the answer [rc] on, the cursor meets the items of [l] and then the end. *)
Fixpoint walks (next : item -> result MdbCode item) (rc : result MdbCode item) (l : list item) : Prop :=
  match l with
  | [] => rc = Err MDB_NOTFOUND
  | x :: l => rc = Ok x /\ walks next (next x) l
  end.

Definition item_lt (x y : item) : Prop := item_ltb x y = true.

Lemma item_lt_nodup l : StronglySorted item_lt l -> NoDup l.
Proof.
  induction 1 as [|x l _ IH Hx]; constructor; [|done]. intros Hin. rewrite Forall_forall in Hx. specialize (Hx x Hin).
  unfold item_lt in Hx. by rewrite item_ltb_irrefl in Hx.
Qed.

Definition after (c : option item) (x : item) : bool := match c with Some y => item_ltb y x | None => true end.

Lemma finds_least_iff s (P Q : item -> Prop) r : (forall x, x ∈ s -> P x <-> Q x) -> finds_least s P r -> finds_least s Q r.
Proof.
  intros HPQ. destruct r as [x|[]|]; cbn; try done.
  - intros (Hx & Px & Hl). split; [done|]. split; [by apply HPQ|]. intros y Hy Qy. apply Hl; [done|]. by apply HPQ.
  - intros Hn y Hy Qy. apply (Hn y Hy). by apply HPQ.
Qed.

Section Walks.
Context (s : gset item) (Q : item -> bool) (next : item -> result MdbCode item).
Hypothesis Hnext : forall x, x ∈ s -> Q x = true -> finds_least s (fun y => Q y = true /\ item_ltb x y = true) (next x).

Definition remaining (c : option item) : gset item := filter (fun x => Q x && after c x = true) s.

Lemma elem_of_remaining c x : x ∈ remaining c <-> x ∈ s /\ Q x = true /\ after c x = true.
Proof. unfold remaining. rewrite elem_of_filter, andb_true_iff. tauto. Qed.

Lemma walk_exists n : forall c rc, (size (remaining c) <= n)%nat ->
  (forall y, c = Some y -> y ∈ s) ->
  finds_least s (fun x => Q x = true /\ after c x = true) rc ->
  exists l, walks next rc l /\ (forall x, x ∈ l <-> x ∈ remaining c) /\ StronglySorted item_lt l /\ (length l <= n)%nat.
Proof.
  induction n as [|n IH]; intros c rc Hn Hc Hrc.
  - assert (remaining c = ∅) as He by (apply leibniz_equiv, size_empty_inv; lia). destruct rc as [x|[]|]; cbn in Hrc; try done.
    + destruct Hrc as (Hx & [Qx Ax] & _). assert (x ∈ remaining c) as Hr by by apply elem_of_remaining. by rewrite He in Hr.
    + exists []. split_and!; [done| |constructor|cbn; lia]. intros x. rewrite He. split; [by intros ?%not_elem_of_nil|done].
  - destruct rc as [x|[]|]; cbn in Hrc; try done.
    + destruct Hrc as (Hx & [Qx Ax] & Hl).
      assert (forall y, y ∈ remaining c <-> y = x \/ y ∈ remaining (Some x)) as Hrem.
      { intros y. rewrite !elem_of_remaining. cbn [after]. split.
        - intros (Hy & Qy & Ay). destruct (item_ltb x y) eqn:E; [right; by split|]. left. symmetry. by apply item_ltb_total; [|apply Hl].
        - intros [->|(Hy & Qy & Ay)]; [done|]. split; [done|]. split; [done|].
          destruct c as [z|]; cbn in *; [|done]. by eapply item_ltb_trans. }
      assert (x ∉ remaining (Some x)) as Hni by (rewrite elem_of_remaining; cbn; rewrite item_ltb_irrefl; by intros (_ & _ & ?)).
      assert (size (remaining c) = S (size (remaining (Some x)))) as Hsz.
      { replace (remaining c) with ({[x]} ∪ remaining (Some x)) by (apply set_eq; intros y; rewrite Hrem, elem_of_union, elem_of_singleton; tauto).
        rewrite size_union by (apply disjoint_singleton_l; done). by rewrite size_singleton. }
      destruct (IH (Some x) (next x)) as (l & Hw & Hin & Hnd & Hlen); [lia|by intros y [= <-]|by apply Hnext|].
      exists (x :: l). split_and!; [done| | |cbn; lia].
      * intros y. rewrite elem_of_cons, Hrem, Hin. tauto.
      * constructor; [done|]. apply Forall_forall. intros y Hy. by apply Hin, elem_of_remaining in Hy as (_ & _ & Hy).
    + exists []. split_and!; [done| |constructor|cbn; lia]. intros x. rewrite elem_of_remaining.
      split; [by intros ?%not_elem_of_nil|]. intros (Hx & Qx & Ax). by destruct (Hrc x Hx).
Qed.

End Walks.

(** Walking through the rows of a key, and through the rows from a key on. *)
Section TableWalks.
Context {T : Type} `{LmdbLaws T}.

Definition next_dup (t : T) (x : item) : result MdbCode item := mdb_cursor_get t (Some x) MDB_NEXT_DUP [] [].
Definition next_row (t : T) (x : item) : result MdbCode item := mdb_cursor_get t (Some x) MDB_NEXT [] [].

Lemma walk_key (t : T) key d : tb_dupsort t = true -> key <> [] ->
  exists l, walks (next_dup t) (mdb_cursor_get t None MDB_SET key d) l
    /\ (forall x, x ∈ l <-> x ∈ tb_items t /\ fst x = key) /\ StronglySorted item_lt l /\ (length l <= size (tb_items t))%nat.
Proof.
  intros Hd Hk. destruct (walk_exists (tb_items t) (fun x => bytes_eqb (fst x) key) (next_dup t)) with
    (n := size (tb_items t)) (c := @None item) (rc := mdb_cursor_get t None MDB_SET key d) as (l & Hw & Hin & Hs & Hl).
  - intros x Hx Qx%bytes_eqb_eq. eapply finds_least_iff; [|refine (get_next_dup t x [] [] Hd Hx)].
    intros y _. cbn. rewrite bytes_eqb_eq, Qx. tauto.
  - apply subseteq_size. intros x Hx. apply elem_of_remaining in Hx. tauto.
  - done.
  - eapply finds_least_iff; [|exact (get_set t None key d Hk)]. intros y _. cbn. rewrite bytes_eqb_eq. tauto.
  - exists l. split; [done|]. split; [|by split]. intros x. rewrite Hin, elem_of_remaining, bytes_eqb_eq. cbn. tauto.
Qed.

Lemma walk_from (t : T) rc (Q : item -> bool) :
  (forall x y, x ∈ tb_items t -> y ∈ tb_items t -> Q x = true -> item_ltb x y = true -> Q y = true) ->
  finds_least (tb_items t) (fun x => Q x = true) rc ->
  exists l, walks (next_row t) rc l
    /\ (forall x, x ∈ l <-> x ∈ tb_items t /\ Q x = true) /\ StronglySorted item_lt l /\ (length l <= size (tb_items t))%nat.
Proof.
  intros Hup Hrc. destruct (walk_exists (tb_items t) Q (next_row t)) with
    (n := size (tb_items t)) (c := @None item) (rc := rc) as (l & Hw & Hin & Hs & Hl).
  - intros x Hx Qx. eapply finds_least_iff; [|exact (get_next t x [] [] Hx)].
    intros y Hy. cbn. split; [|tauto]. intros Hxy. split; [by apply (Hup x)|done].
  - apply subseteq_size. intros x Hx. apply elem_of_remaining in Hx. tauto.
  - done.
  - eapply finds_least_iff; [|exact Hrc]. intros y _. cbn. tauto.
  - exists l. split; [done|]. split; [|by split]. intros x. rewrite Hin, elem_of_remaining. cbn. tauto.
Qed.

End TableWalks.

(** * A table that keeps the laws: a finite map, or a finite set with duplicates *)

Inductive RefTable : Type :=
| RefPlain (m : gmap bytes bytes)
| RefDup (s : gset item).

Definition ref_items (t : RefTable) : gset item :=
  match t with RefPlain m => list_to_set (map_to_list m) | RefDup s => s end.

Definition ref_dupsort (t : RefTable) : bool := match t with RefPlain _ => false | RefDup _ => true end.

Definition ref_open (ro : bool) (tbs : gmap (option string) RefTable) (name : option string) (create dup : bool) :
  result MdbCode (gmap (option string) RefTable) :=
  match tbs !! name with
  | Some _ => Ok tbs
  | None =>
      if negb create then Err MDB_NOTFOUND
      else if ro then Err (MDB_OTHER 13) else Ok (<[name := if dup then RefDup ∅ else RefPlain ∅]> tbs)
  end.

Fixpoint least_item (p : item -> bool) (l : list item) : option item :=
  match l with
  | [] => None
  | x :: l =>
      if p x then match least_item p l with
                  | Some y => if item_ltb y x then Some y else Some x
                  | None => Some x
                  end
      else least_item p l
  end.

Definition ref_wanted (items : list item) (c : option item) (op : MDB_cursor_op) (k d : bytes) (x : item) : bool :=
  match op with
  | MDB_FIRST => true
  | MDB_SET => bytes_eqb (fst x) k
  | MDB_SET_RANGE => negb (bytes_ltb (fst x) k)
  | MDB_GET_BOTH_RANGE => bytes_eqb (fst x) k && negb (bytes_ltb (snd x) d)
  | MDB_LAST => forallb (fun y => negb (item_ltb x y)) items
  | MDB_NEXT => match c with Some y => item_ltb y x | None => true end
  | MDB_NEXT_DUP => match c with Some y => bytes_eqb (fst x) (fst y) && item_ltb y x | None => true end
  | _ => false
  end.

Definition ref_get (t : RefTable) (c : option item) (op : MDB_cursor_op) (k d : bytes) : result MdbCode item :=
  match least_item (ref_wanted (elements (ref_items t)) c op k d) (elements (ref_items t)) with
  | Some x => Ok x
  | None => Err MDB_NOTFOUND
  end.

Definition ref_put (t : RefTable) (k d : bytes) : result MdbCode RefTable :=
  Ok (match t with RefPlain m => RefPlain (<[k := d]> m) | RefDup s => RefDup ({[(k, d)]} ∪ s) end).

Definition ref_append (t : RefTable) (k d : bytes) : result MdbCode RefTable :=
  if bool_decide (set_Forall (fun x => bytes_ltb (fst x) k = true) (ref_items t)) then ref_put t k d else Err MDB_KEYEXIST.

Definition ref_append_dup (t : RefTable) (k d : bytes) : result MdbCode RefTable :=
  if bool_decide (set_Forall (fun x => fst x = k -> bytes_ltb (snd x) d = true) (ref_items t)) then ref_put t k d
  else Err MDB_KEYEXIST.

Definition ref_del (t : RefTable) (x : item) : result MdbCode RefTable :=
  Ok (match t with RefPlain m => RefPlain (delete (fst x) m) | RefDup s => RefDup (s ∖ {[x]}) end).

#[export] Instance RefTable_Lmdb : Lmdb RefTable := {
  tb_items := ref_items;
  tb_dupsort := ref_dupsort;
  mdb_dbi_open := ref_open;
  mdb_cursor_get := ref_get;
  mdb_cursor_put := ref_put;
  mdb_cursor_append := ref_append;
  mdb_cursor_append_dup := ref_append_dup;
  mdb_cursor_del := ref_del;
  mdb_drop := fun t => Ok (match t with RefPlain _ => RefPlain ∅ | RefDup _ => RefDup ∅ end);
  mdb_stat_entries := fun t => Ok (Z.of_nat (size (ref_items t)))
}.

Lemma least_item_spec p l :
  match least_item p l with
  | Some x => x ∈ l /\ p x = true /\ forall y, y ∈ l -> p y = true -> item_ltb y x = false
  | None => forall y, y ∈ l -> p y = false
  end.
Proof.
  induction l as [|x l IH]; cbn [least_item]; [by intros y ?%not_elem_of_nil|].
  destruct (p x) eqn:Ep.
  - destruct (least_item p l) as [y|].
    + destruct IH as (Hy & Py & Hl). destruct (item_ltb y x) eqn:E.
      * split; [by right|]. split; [done|]. intros z [->|Hz]%elem_of_cons Pz; [|by apply Hl].
        destruct (item_ltb x y) eqn:E2; [|done]. by rewrite <- (item_ltb_irrefl x), (item_ltb_trans _ y _).
      * split; [by left|]. split; [done|]. intros z [->|Hz]%elem_of_cons Pz; [apply item_ltb_irrefl|].
        by apply (item_le_trans x y z E), Hl.
    + split; [by left|]. split; [done|]. intros z [->|Hz]%elem_of_cons Pz; [apply item_ltb_irrefl|]. by rewrite IH in Pz.
  - destruct (least_item p l) as [y|].
    + destruct IH as (Hy & Py & Hl). split; [by right|]. split; [done|].
      intros z [->|Hz]%elem_of_cons Pz; [congruence|by apply Hl].
    + intros z [->|Hz]%elem_of_cons; [done|by apply IH].
Qed.

Lemma ref_get_least t c op k d (P : item -> Prop) :
  (forall x, ref_wanted (elements (ref_items t)) c op k d x = true <-> P x) -> finds_least (ref_items t) P (ref_get t c op k d).
Proof.
  intros HP. unfold ref_get. pose proof (least_item_spec (ref_wanted (elements (ref_items t)) c op k d) (elements (ref_items t))) as HL.
  destruct (least_item _ _) as [x|]; cbn.
  - destruct HL as (Hin & Px & Hl). rewrite elem_of_elements in Hin. split; [done|]. split; [by apply HP|].
    intros y Hy Py. apply Hl; [by rewrite elem_of_elements|by apply HP].
  - intros y Hy Py%HP. rewrite HL in Py; [done|by rewrite elem_of_elements].
Qed.

Lemma ref_items_plain m k d : (k, d) ∈ ref_items (RefPlain m) <-> m !! k = Some d.
Proof. cbn. by rewrite elem_of_list_to_set, elem_of_map_to_list. Qed.

Lemma filter_all (P : item -> Prop) `{!forall x, Decision (P x)} (s : gset item) : (forall x, x ∈ s -> P x) -> filter P s = s.
Proof. intros HP. apply set_eq. intros x. rewrite elem_of_filter. split; [by intros [_ ?]|]. intros Hx. split; [by apply HP|done]. Qed.

Lemma ref_put_items t k d : exists t', ref_put t k d = Ok t' /\ ref_dupsort t' = ref_dupsort t
  /\ ref_items t' = put_items (ref_dupsort t) k d (ref_items t).
Proof.
  destruct t as [m|s]; (eexists; split; [done|]; split; [done|]); [|done].
  apply set_eq. intros [k' d']. cbn [ref_dupsort]. rewrite elem_of_put_items, !ref_items_plain.
  destruct (decide (k' = k)) as [->|Hne].
  - rewrite lookup_insert_eq. split; [intros [= ->]; by left|]. intros [[= ->]|[_ Hn]]; [done|]. by destruct Hn.
  - rewrite lookup_insert_ne by done. split; [intros Hx; right; by split|]. intros [[= -> ->]|[Hx _]]; done.
Qed.

#[export] Instance RefTable_LmdbLaws : LmdbLaws RefTable.
Proof.
  split.
  - intros ro tbs name create dup [t Ht]. cbn. unfold ref_open. by rewrite Ht.
  - intros ro tbs name dup Ht. cbn. unfold ref_open. by rewrite Ht.
  - intros tbs name dup Ht. cbn. unfold ref_open. rewrite Ht. eexists. split; [done|]. by destruct dup.
  - intros [m|s] k d d' Hd; [|done]. cbn [tb_items RefTable_Lmdb]. rewrite !ref_items_plain. congruence.
  - intros t c k d Hk. apply ref_get_least. intros x. cbn. apply bytes_eqb_eq.
  - intros t c k d Hk. apply ref_get_least. intros x. cbn. apply negb_true_iff.
  - intros t c k d Hd Hk Hne. apply ref_get_least. intros x. cbn. rewrite andb_true_iff, negb_true_iff.
    by setoid_rewrite bytes_eqb_eq.
  - intros t c k d. by apply ref_get_least.
  - intros t x k d Hx. by apply ref_get_least.
  - intros t x k d Hd Hx. apply ref_get_least. intros y. cbn. rewrite andb_true_iff. by setoid_rewrite bytes_eqb_eq.
  - intros t c k d. apply ref_get_least. intros x. cbn [ref_wanted tb_items RefTable_Lmdb]. rewrite forallb_forall.
    setoid_rewrite negb_true_iff. split; intros Hx y Hy; apply Hx; [by apply list_elem_of_In, elem_of_elements|].
    by apply list_elem_of_In, elem_of_elements in Hy.
  - intros t k d _ _. apply ref_put_items.
  - intros t k d _ _ Hlast. cbn [mdb_cursor_append tb_items tb_dupsort RefTable_Lmdb] in *. unfold ref_append. rewrite bool_decide_eq_true_2 by done.
    destruct (ref_put_items t k d) as (t' & -> & Hd & Hi). exists t'. split; [done|]. split; [done|]. rewrite Hi.
    unfold put_items. destruct (ref_dupsort t); [done|]. f_equal. apply filter_all. intros x Hx E. specialize (Hlast x Hx).
    by rewrite E, bytes_ltb_irrefl in Hlast.
  - intros t k d x Hx Hl. cbn. unfold ref_append. rewrite bool_decide_eq_false_2; [done|]. intros Hall. specialize (Hall x Hx). congruence.
  - intros [m|s] k d Hd _ _ Hlast; [done|]. cbn. unfold ref_append_dup. rewrite bool_decide_eq_true_2; [by eexists|].
    intros [k' d'] Hx Ek. cbn in Ek. subst k'. by apply Hlast.
  - intros t k d d' _ Hx Hl. cbn. unfold ref_append_dup. rewrite bool_decide_eq_false_2; [done|]. intros Hall.
    specialize (Hall _ Hx eq_refl). cbn in Hall. congruence.
  - intros [m|s] [k d] Hx; (eexists; split; [done|]; split; [done|]).
    + apply set_eq. intros [k' d']. cbn [tb_items RefTable_Lmdb]. rewrite elem_of_difference, elem_of_singleton, !ref_items_plain.
      cbn [tb_items RefTable_Lmdb] in Hx. rewrite ref_items_plain in Hx. cbn [fst]. destruct (decide (k' = k)) as [->|Hne].
      * rewrite lookup_delete_eq. split; [done|]. intros [Hy Hn]. by rewrite Hx in Hy; injection Hy as ->.
      * rewrite lookup_delete_ne by done. split; [|by intros [? _]]. intros Hy. split; [done|]. by intros [= -> ->].
    + done.
  - intros [m|s]; eexists; done.
  - done.
Qed.

(** A database with all of its tables, empty. *)
Definition ref_database : Txn RefTable :=
  match create_all (mkTxn false ∅) with Ok txn => txn | _ => mkTxn false ∅ end.
