(* ===== verification/DbUtil.v ===== *)
(** * DbUtil: db/silkworm/db (util.hpp, util.cpp, stages.hpp, stages.cpp)

    The keys of the database, whose byte order is the order in which ranges are read; the stored form of block
    bodies; and the progress of the stages of synchronisation. *)

From stdpp Require Import gmap strings.
From S2P Require Import Prelude Util Rlp Transaction Block Lmdb.
Local Open Scope Z_scope.
Local Open Scope silk_scope.

Definition kIncarnationLength : nat := 8.
Definition kStoragePrefixLength : nat := kAddressLength + kIncarnationLength.

(** ** Keys

    [boost::endian::store_big_u64] and [store_big_u32] at an offset of a string of the right size. *)

Definition storage_prefix (address : bytes) (incarnation : Z) : bytes := address ++ to_be 8 incarnation.

Definition block_key (block_number : Z) : bytes := to_be 8 block_number.

Definition block_key_hash (block_number : Z) (hash : bytes) : bytes := to_be 8 block_number ++ hash.

Definition storage_change_key (block_number : Z) (address : bytes) (incarnation : Z) : bytes :=
  to_be 8 block_number ++ address ++ to_be 8 incarnation.

Definition account_history_key (address : bytes) (block_number : Z) : bytes := address ++ to_be 8 block_number.

Definition storage_history_key (address location : bytes) (block_number : Z) : bytes :=
  address ++ location ++ to_be 8 block_number.

Definition log_key (block_number transaction_id : Z) : bytes := to_be 8 block_number ++ to_be 4 transaction_id.

(** ** Stored block bodies: the transactions are in a table of their own *)

Record BlockBodyForStorage : Type := mkBlockBodyForStorage {
  base_txn_id : Z;
  txn_count : Z;
  stored_ommers : list BlockHeader
}.

(** [BlockBodyForStorage::encode] *)
Definition encode_stored_body (b : BlockBodyForStorage) : bytes :=
  encode_header (mkHeader true (length_u64 (base_txn_id b) + length_u64 (txn_count b) + length_vector (stored_ommers b)))
  ++ encode_u64 (base_txn_id b) ++ encode_u64 (txn_count b) ++ encode_vector (stored_ommers b).

Definition decode_stored_fields (from : bytes) : decoded (BlockBodyForStorage * bytes) :=
  try (id, from) := decode_u64 from in
  try (count, from) := decode_u64 from in
  try (oms, from) := decode_vector from in
  Ok (mkBlockBodyForStorage id count oms, from).

(** [decode_stored_block_body]: an error is thrown. *)
Definition decode_stored_block_body : bytes -> decoded (BlockBodyForStorage * bytes) := decode_list decode_stored_fields.

(** ** The place of the database, from the environment of the process (neither Windows nor macOS) *)

Definition default_path (getenv : string -> option string) : string :=
  match (match getenv "XDG_DATA_HOME"%string with Some env => Some env | None => getenv "HOME"%string end) with
  | None => ""
  | Some base_dir => base_dir ++ "/.local/share/turbogeth" ++ "/tg/chaindata"
  end%string.

(** ** Stages *)

Definition kHeadersKey : string := "Headers".
Definition kBlockHashesKey : string := "BlockHashes".
Definition kBlockBodiesKey : string := "Bodies".
Definition kSendersKey : string := "Senders".
Definition kExecutionKey : string := "Execution".
Definition kIntermediateHashesKey : string := "IntermediateHashes".
Definition kHashStateKey : string := "HashState".
Definition kAccountHistoryKey : string := "AccountHistoryIndex".
Definition kStorageHistoryIndexKey : string := "StorageHistoryIndex".
Definition kLogIndexKey : string := "LogIndex".
Definition kCallTracesKey : string := "CallTraces".
Definition kTxLookupKey : string := "TxLookup".
Definition kTxPoolKey : string := "TxPool".
Definition kFinishKey : string := "Finish".
Definition kMiningCreateBlockKey : string := "MiningCreateBlock".
Definition kMiningExecutionKey : string := "MiningExecution".
Definition kMiningFinishKey : string := "MiningFinish".

Definition kAllStages : list string :=
  [kHeadersKey; kBlockHashesKey; kBlockBodiesKey; kSendersKey; kExecutionKey; kIntermediateHashesKey;
   kHashStateKey; kAccountHistoryKey; kStorageHistoryIndexKey; kLogIndexKey; kCallTracesKey; kTxLookupKey;
   kTxPoolKey; kFinishKey].

Definition is_known_stage (name : string) : bool :=
  if (String.length name =? 0)%nat then false else existsb (fun stage => String.eqb stage name) kAllStages.

Section Stages.
Context {T : Type} `{Lmdb T}.

(** [Transaction::get] may create the table: the transaction is a result too. *)
Definition get_stage_data (txn : Txn T) (stage_name : string) (domain : TableConfig) : result DbError (Z * Txn T) :=
  if negb (is_known_stage stage_name) then Err InvalidArgument
  else
    try (data, txn) := txn_get domain (chars stage_name) txn in
    match data with
    | None => Ok (0, txn)
    | Some data => if negb (length data =? 8)%nat then Err LengthError else Ok (load_big_u64 data, txn)
    end.

Definition set_stage_data (txn : Txn T) (stage_name : string) (block_num : Z) (domain : TableConfig) : result DbError (Txn T) :=
  if negb (is_known_stage stage_name) then Err InvalidArgument
  else
    match txn_put domain (chars stage_name) (to_be 8 block_num) txn with
    | Ok (None, txn) => Ok txn
    | Ok (Some rc, _) => Err (LmdbException rc)
    | _ => Undef
    end.

Definition get_stage_progress (txn : Txn T) (stage_name : string) := get_stage_data txn stage_name kSyncStageProgress.
Definition set_stage_progress (txn : Txn T) (stage_name : string) (block_num : Z) :=
  set_stage_data txn stage_name block_num kSyncStageProgress.
Definition get_stage_unwind (txn : Txn T) (stage_name : string) := get_stage_data txn stage_name kSyncStageUnwind.
Definition set_stage_unwind (txn : Txn T) (stage_name : string) (block_num : Z) :=
  set_stage_data txn stage_name block_num kSyncStageUnwind.
Definition clear_stage_unwind (txn : Txn T) (stage_name : string) := set_stage_data txn stage_name 0 kSyncStageUnwind.

End Stages.

(** * Lemmas: the order of keys *)

Definition bytes_compare (a b : bytes) : comparison :=
  if bytes_ltb a b then Lt else if bytes_ltb b a then Gt else Eq.

(** The first difference of a sequence of comparisons decides. *)
Fixpoint lexicographic (l : list comparison) : comparison :=
  match l with
  | [] => Eq
  | Eq :: l => lexicographic l
  | c :: _ => c
  end.

Lemma bytes_compare_eq a b : bytes_compare a b = Eq <-> a = b.
Proof.
  unfold bytes_compare. split.
  - destruct (bytes_ltb a b) eqn:E1; [done|]. destruct (bytes_ltb b a) eqn:E2; [done|]. intros _. by apply bytes_ltb_total.
  - intros ->. by rewrite bytes_ltb_irrefl.
Qed.

Lemma bytes_compare_nil : bytes_compare [] [] = Eq.
Proof. done. Qed.

Lemma bytes_compare_cons x y a b :
  bytes_compare (x :: a) (y :: b) = match x ?= y with Eq => bytes_compare a b | c => c end.
Proof.
  unfold bytes_compare. cbn. destruct (Z.compare_spec x y); destruct (Z.ltb_spec x y), (Z.ltb_spec y x); try done; lia.
Qed.

(** Concatenations compare by their first parts, if these are of one length. *)
Lemma bytes_compare_app a a' b b' : length a = length a' ->
  bytes_compare (a ++ b) (a' ++ b') = match bytes_compare a a' with Eq => bytes_compare b b' | c => c end.
Proof.
  revert a'. induction a as [|x a IH]; intros [|y a'] Hl; try done. cbn in Hl.
  cbn [app]. rewrite !bytes_compare_cons, IH by lia. by destruct (x ?= y).
Qed.

(** Big-endian numbers of one width compare as numbers. *)
Lemma bytes_compare_to_be n : forall x y, 0 <= x < 256 ^ Z.of_nat n -> 0 <= y < 256 ^ Z.of_nat n ->
  bytes_compare (to_be n x) (to_be n y) = (x ?= y).
Proof.
  induction n as [|n IH]; intros x y Hx Hy; [change (256 ^ Z.of_nat 0) with 1 in *; by replace x with y by lia; rewrite Z.compare_refl|].
  cbn [to_be]. rewrite bytes_compare_app by (by rewrite !length_to_be). 
  rewrite Nat2Z.inj_succ, Z.pow_succ_r in Hx, Hy by lia.
  rewrite IH by (split; [apply Z.div_pos|apply Z.div_lt_upper_bound]; lia).
  rewrite bytes_compare_cons, bytes_compare_nil.
  pose proof (Z.div_mod x 256 ltac:(lia)). pose proof (Z.div_mod y 256 ltac:(lia)).
  pose proof (Z.mod_pos_bound x 256 ltac:(lia)). pose proof (Z.mod_pos_bound y 256 ltac:(lia)).
  destruct (Z.compare_spec (x / 256) (y / 256)), (Z.compare_spec x y), (Z.compare_spec (x mod 256) (y mod 256)); try done; nia.
Qed.

Lemma compare_u64 x y : wf_u64 x -> wf_u64 y -> bytes_compare (to_be 8 x) (to_be 8 y) = (x ?= y).
Proof. intros Hx Hy. by apply bytes_compare_to_be. Qed.

(** * Lemmas: stored bodies *)

Definition stored_payload (b : BlockBodyForStorage) : bytes :=
  encode_u64 (base_txn_id b) ++ encode_u64 (txn_count b) ++ encode_vector (stored_ommers b).

Record wf_stored_fields (b : BlockBodyForStorage) : Prop := {
  ws_base : wf_u64 (base_txn_id b);
  ws_count : wf_u64 (txn_count b);
  ws_ommers : wf_vector wf_block_header (stored_ommers b)
}.

Definition wf_stored_body (b : BlockBodyForStorage) : Prop :=
  wf_stored_fields b /\ zlen (stored_payload b) < 2 ^ 63.

#[export] Instance stored_fields_codec : FieldCodec stored_payload decode_stored_fields wf_stored_fields.
Proof.
  unfold decode_stored_fields, stored_payload. split.
  - intros [id n oms] rest [Hi Hn Ho]. cbn in *. rewrite <- !app_assoc. by field_steps.
  - intros from b rest Hi Hd. inv_bind. injection Hd as <- <-. canon_steps. subst. rewrite <- !app_assoc.
    split; [by split|done].
Qed.

Lemma encode_stored_list b : wf_stored_fields b -> encode_stored_body b = encode_list (stored_payload b).
Proof.
  intros [Hi Hn Ho]. unfold encode_stored_body, encode_list, stored_payload. rewrite !zlen_app.
  rewrite (proj1 (length_encode_u64 _ Hi)), (proj1 (length_encode_u64 _ Hn)), (length_encode_vector _ Ho).
  by rewrite Z.add_assoc.
Qed.

Lemma load_big_u64_to_be n : wf_u64 n -> load_big_u64 (to_be 8 n) = n.
Proof.
  intros Hn. unfold load_big_u64. rewrite take_ge by (by rewrite length_to_be). by apply of_be_to_be_small.
Qed.

(** * Lemmas: stages *)

Section StageLemmas.
Context {T : Type} `{LmdbLaws T}.

Lemma stage_key_fits stage : is_known_stage stage = true -> key_fits (chars stage).
Proof.
  unfold is_known_stage. destruct (Nat.eqb_spec (String.length stage) 0) as [|_]; [done|]. rewrite existsb_exists.
  intros (s & Hin & E%String.eqb_eq). subst s.
  enough (forallb (fun s => (0 <? length (chars s))%nat && (length (chars s) <=? 511)%nat) kAllStages = true) as Hf.
  { rewrite forallb_forall in Hf. specialize (Hf _ Hin). apply andb_true_iff in Hf as [H1 H2].
    apply Nat.ltb_lt in H1. apply Nat.leb_le in H2. by split. }
  vm_compute. reflexivity.
Qed.

Lemma chars_inj s1 s2 : chars s1 = chars s2 -> s1 = s2.
Proof.
  unfold chars. intros E. rewrite <- (String.string_of_list_ascii_of_string s1), <- (String.string_of_list_ascii_of_string s2).
  f_equal. revert E. generalize (String.list_ascii_of_string s1) (String.list_ascii_of_string s2).
  induction l as [|x l IH]; intros [|y l2]; cbn; try done. intros [= E1 E2]. f_equal; [|by apply IH].
  apply Nat2Z.inj in E1. by rewrite <- (Ascii.ascii_nat_embedding x), <- (Ascii.ascii_nat_embedding y), E1.
Qed.

(** A plain table is a map: reading after a put. *)
Lemma get_after_put t k d : tb_dupsort t = false -> key_fits k ->
  exists t', mdb_cursor_put t k d = Ok t' /\ tb_dupsort t' = false
    /\ table_get t' k = Ok (Some d) /\ forall k', k' <> [] -> k' <> k -> table_get t' k' = table_get t k'.
Proof.
  intros Hd Hk. assert (tb_dupsort t = true -> key_fits d) as Hfd by by rewrite Hd.
  destruct (put_fits t k d Hk Hfd) as (t' & E & Hd' & Hi). rewrite Hd in Hd', Hi.
  exists t'. split; [done|]. split; [done|]. split.
  - destruct (table_get_spec t' k) as (o & -> & Ho); [by apply key_fits_nonempty|by apply plain_at_most_one|].
    f_equal. apply Ho. rewrite Hi, elem_of_put_items. by left.
  - intros k' Hne Hn. destruct (table_get_spec t' k') as (o & -> & Ho); [done|by apply plain_at_most_one|].
    destruct (table_get_spec t k') as (o2 & -> & Ho2); [done|by apply plain_at_most_one|]. f_equal.
    apply option_eq. intros v. rewrite Ho, Ho2, Hi, elem_of_put_items. cbn. split; [intros [[=]|[? _]]; done|]. right. by split.
Qed.

(** Reading a stage of a transaction that has the table. *)
Lemma get_stage_eq (txn : Txn T) t stage domain : txn_tables txn !! config_name domain = Some t ->
  is_known_stage stage = true ->
  get_stage_data txn stage domain
  = try data := table_get t (chars stage) in
    match data with
    | None => Ok (0, txn)
    | Some data => if negb (length data =? 8)%nat then Err LengthError else Ok (load_big_u64 data, txn)
    end.
Proof.
  intros Ht Hs. unfold get_stage_data, txn_get, txn_open. rewrite Hs, open_existing by done. cbn. rewrite Ht.
  assert (mkTxn (txn_ro txn) (txn_tables txn) = txn) as -> by by destruct txn.
  unfold table_get. by destruct (not_found _).
Qed.

(** The progress of a stage is written to its table, and read back from it. *)
Lemma stage_written (txn : Txn T) t stage n :
  txn_ro txn = false -> txn_tables txn !! config_name kSyncStageProgress = Some t -> tb_dupsort t = false -> wf_u64 n ->
  is_known_stage stage = true ->
  exists t', let txn' := with_table kSyncStageProgress t' txn in
    set_stage_progress txn stage n = Ok txn' /\ get_stage_progress txn' stage = Ok (n, txn') /\ tb_dupsort t' = false
    /\ forall k, k <> [] -> k <> chars stage -> table_get t' k = table_get t k.
Proof.
  intros Hro Ht Hd Hn Es. destruct (get_after_put t (chars stage) (to_be 8 n) Hd (stage_key_fits _ Es)) as (t' & Ep & Hd' & Hget & Hother).
  exists t'. unfold set_stage_progress, get_stage_progress. split_and!; [| |done|exact Hother].
  - unfold set_stage_data, txn_put, txn_open. rewrite Es, Hro, open_existing by done. cbn [result_bind err_handler negb].
    rewrite Ht. cbn [result_bind]. rewrite Ep. by destruct txn; cbn in *; subst.
  - rewrite (get_stage_eq _ t') by (done || apply lookup_insert_eq). rewrite Hget. cbn [result_bind].
    rewrite length_to_be. cbn [Nat.eqb negb]. by rewrite load_big_u64_to_be.
Qed.

End StageLemmas.

(** * Properties *)

(** The keys of the database are read in the order of what they are made of: the byte order of two keys of a kind is
    the order of their parts, first part first, numbers as numbers. In particular different parts give different
    keys, and the history of an address (and location) is read in the order of the blocks. *)
Theorem keys_in_order (a a' l l' : bytes) (n n' i i' : Z) :
  length a = length a' -> length l = length l' -> wf_u64 n -> wf_u64 n' -> wf_u64 i -> wf_u64 i' ->
  bytes_compare (block_key n) (block_key n') = (n ?= n')
  /\ bytes_compare (block_key_hash n l) (block_key_hash n' l') = lexicographic [n ?= n'; bytes_compare l l']
  /\ bytes_compare (storage_prefix a i) (storage_prefix a' i') = lexicographic [bytes_compare a a'; i ?= i']
  /\ bytes_compare (storage_change_key n a i) (storage_change_key n' a' i')
     = lexicographic [n ?= n'; bytes_compare a a'; i ?= i']
  /\ bytes_compare (account_history_key a n) (account_history_key a' n') = lexicographic [bytes_compare a a'; n ?= n']
  /\ bytes_compare (storage_history_key a l n) (storage_history_key a' l' n')
     = lexicographic [bytes_compare a a'; bytes_compare l l'; n ?= n']
  /\ (i < 2 ^ 32 -> i' < 2 ^ 32 -> bytes_compare (log_key n i) (log_key n' i') = lexicographic [n ?= n'; i ?= i']).
Proof.
  intros Ha Hl Hn Hn' Hi Hi'.
  unfold block_key, block_key_hash, storage_prefix, storage_change_key, account_history_key, storage_history_key, log_key.
  rewrite !bytes_compare_app by (done || by rewrite !length_to_be). rewrite !compare_u64 by done.
  cbn [lexicographic].
  split_and!; try (intros H1 H2; rewrite (bytes_compare_to_be 4) by (unfold wf_u64 in *; cbn; lia));
    repeat match goal with |- context [match ?c with _ => _ end] => destruct c end; done.
Qed.

Lemma keys_in_order_witness :
  bytes_compare (storage_change_key 255 (zero_bytes 20) 2) (storage_change_key 256 (zero_bytes 20) 1) = Lt.
Proof.
  apply (keys_in_order (zero_bytes 20) (zero_bytes 20) [] [] 255 256 2 1); unfold wf_u64; try done; lia.
Defined.

(** A stored body is decoded back, and only the encoding of a body is accepted as one. *)
Theorem stored_body_roundtrip (b : BlockBodyForStorage) (from rest : bytes) :
  (wf_stored_body b -> decode_stored_block_body (encode_stored_body b ++ rest) = Ok (b, rest))
  /\ (input_ok from -> decode_stored_block_body from = Ok (b, rest) -> from = encode_stored_body b ++ rest).
Proof.
  pose proof (list_field _ _ _ stored_fields_codec) as Hc. split.
  - intros Hw. rewrite encode_stored_list by apply Hw. by apply Hc.
  - intros Hi Hd. destruct (field_canonical (FieldCodec := Hc) from b rest Hi Hd) as [[Hw _] ->].
    by rewrite encode_stored_list.
Qed.

Lemma stored_body_roundtrip_witness :
  decode_stored_block_body (encode_stored_body (mkBlockBodyForStorage 1000000 3 []) ++ [7])
  = Ok (mkBlockBodyForStorage 1000000 3 [], [7]).
Proof.
  apply (stored_body_roundtrip (mkBlockBodyForStorage 1000000 3 []) []). split.
  - split; unfold wf_u64; cbn; try lia. split; [constructor|vm_compute; reflexivity].
  - vm_compute. reflexivity.
Defined.

(** The progress of a stage that is set is what is read; the other stages keep theirs; and a name that is not a
    stage's is refused by both. *)
Theorem stage_progress_correct {T : Type} `{LmdbLaws T} (txn : Txn T) (t : T) (stage other : string) (n : Z) :
  txn_ro txn = false -> txn_tables txn !! config_name kSyncStageProgress = Some t -> tb_dupsort t = false -> wf_u64 n ->
  if is_known_stage stage then
    exists txn', set_stage_progress txn stage n = Ok txn' /\ get_stage_progress txn' stage = Ok (n, txn')
      /\ (other <> stage -> is_known_stage other = true ->
          forall m, get_stage_progress txn' other = Ok (m, txn') <-> get_stage_progress txn other = Ok (m, txn))
  else set_stage_progress txn stage n = Err InvalidArgument /\ get_stage_progress txn stage = Err InvalidArgument.
Proof.
  intros Hro Ht Hd Hn. destruct (is_known_stage stage) eqn:Es;
    [|by unfold set_stage_progress, get_stage_progress, set_stage_data, get_stage_data; rewrite Es].
  destruct (stage_written txn t stage n Hro Ht Hd Hn Es) as (t' & E & Eget & _ & Hother). eexists. split; [exact E|].
  split; [exact Eget|]. intros Hne Ho m. unfold get_stage_progress. rewrite (get_stage_eq _ t' _ _) by (done || apply lookup_insert_eq).
  rewrite (get_stage_eq _ _ _ _ Ht Ho), Hother; [|by apply key_fits_nonempty, stage_key_fits|intros Ec; by apply Hne, chars_inj].
  destruct (table_get t (chars other)) as [[v|]| |]; cbn; [|split; intros [= ->]; done|done..].
  destruct (negb _); [done|]. split; intros [= ->]; done.
Qed.

Lemma stage_progress_correct_witness :
  exists txn', set_stage_progress ref_database kExecutionKey 42 = Ok txn'
    /\ get_stage_progress txn' kExecutionKey = Ok (42, txn').
Proof.
  destruct (stage_progress_correct (T := RefTable) ref_database (RefPlain ∅) kExecutionKey kFinishKey 42)
    as (txn' & E1 & E2 & _); [reflexivity|reflexivity|reflexivity|unfold wf_u64; lia|].
  exists txn'. split; [exact E1|exact E2].
Defined.
