(* ===== verification/AccessLayer.v ===== *)
(** * AccessLayer: db/silkworm/db/access_layer.hpp, access_layer.cpp

    What is read from the database: blocks with their transactions and senders, accounts, storage and code, now or
    as they were before a block, and the changes of a block. Exceptions are [Err]; an [assert] that fails is
    [Undef]. *)

From stdpp Require Import gmap sets strings.
From S2P Require Import Prelude Util Rlp Account Transaction Block Chain MemoryBuffer Bitmap Lmdb DbUtil.
Local Open Scope Z_scope.
Local Open Scope silk_scope.

Notation AccountChanges := (gmap bytes bytes).
Notation StorageChanges := storage_map.

(** [rlp::err_handler] *)
Definition rlp_err_handler {A} (r : decoded A) : result DbError A :=
  match r with Ok a => Ok a | Err e => Err (DecodingException e) | Undef => Undef end.

(** [throw err], as the decoding of stored bodies and the loader of the tries have it. *)
Definition throw_err {A} (r : decoded A) : result DbError A :=
  match r with Ok a => Ok a | Err e => Err (DecodingResultThrown e) | Undef => Undef end.

(** The value decoded from the front of a view. *)
Definition decode_value {A} (decode : bytes -> decoded (A * bytes)) (rlp : bytes) : result DbError A :=
  try (x, _) := rlp_err_handler (decode rlp) in Ok x.

Section AccessLayer.
Context {T : Type} `{Lmdb T} {R : Type} `{Roaring R}.

(** ** Blocks *)

Definition read_header (txn : Txn T) (block_number : Z) (hash : bytes) : result DbError (option BlockHeader) :=
  try table := open_table kHeaders txn in
  try rlp := table_get table (block_key_hash block_number hash) in
  match rlp with
  | None => Ok None
  | Some rlp => try header := decode_value decode_block_header rlp in Ok (Some header)
  end.

Definition read_total_difficulty (txn : Txn T) (block_number : Z) (hash : bytes) : result DbError (option Z) :=
  try table := open_table kDifficulty txn in
  try rlp := table_get table (block_key_hash block_number hash) in
  match rlp with
  | None => Ok None
  | Some rlp => try td := decode_value decode_u256 rlp in Ok (Some td)
  end.

(** The loop over the rows of a block's transactions: [rc] is what the cursor answered last. *)
Fixpoint read_transactions_loop (fuel : nat) (t : T) (rc : result MdbCode item) (i count : Z)
  : result DbError (list Transaction) :=
  match rc with
  | Err MDB_NOTFOUND => Ok []
  | _ =>
      if count <=? i then Ok []
      else
        try row := err_handler rc in
        try eth_txn := decode_value (decode_transaction empty_transaction) (snd row) in
        match fuel with
        | O => Undef
        | S fuel =>
            try v := read_transactions_loop fuel t (mdb_cursor_get t (Some row) MDB_NEXT [] []) (u64 (i + 1)) count in
            Ok (eth_txn :: v)
        end
  end.

(** A row is read once: as many rounds as there are rows. *)
Definition rows (t : T) : nat := size (tb_items t).

Definition read_transactions_of (t : T) (base_id count : Z) : result DbError (list Transaction) :=
  if count =? 0 then Ok []
  else read_transactions_loop (rows t) t (mdb_cursor_get t None MDB_SET (to_be 8 base_id) []) 0 count.

Definition read_transactions (txn : Txn T) (base_id count : Z) : result DbError (list Transaction) :=
  if count =? 0 then Ok []
  else try table := open_table kEthTx txn in read_transactions_of table base_id count.

(** [n] addresses, one after the other. *)
Fixpoint split_addresses (n : nat) (data : bytes) : list bytes :=
  match n with O => [] | S n => take kAddressLength data :: split_addresses n (drop kAddressLength data) end.

Definition read_senders (txn : Txn T) (block_number : Z) (hash : bytes) : result DbError (list bytes) :=
  try table := open_table kSenders txn in
  try data := table_get table (block_key_hash block_number hash) in
  match data with
  | None => Ok []
  | Some data =>
      if negb (length data mod kAddressLength =? 0)%nat then Undef
      else Ok (split_addresses (length data / kAddressLength) data)
  end.

Definition read_body (txn : Txn T) (block_number : Z) (hash : bytes) (read_senders_too : bool)
  : result DbError (option BlockBody) :=
  try body_table := open_table kBlockBodies txn in
  try body_rlp := table_get body_table (block_key_hash block_number hash) in
  match body_rlp with
  | None => Ok None
  | Some body_rlp =>
      try (body, _) := throw_err (decode_stored_block_body body_rlp) in
      try transactions := read_transactions txn (base_txn_id body) (txn_count body) in
      if read_senders_too then
        try senders := read_senders txn block_number hash in
        if negb (length senders =? length transactions)%nat then Err MissingSenders
        else Ok (Some (mkBlockBody (zip_with (fun t s => with_from t (Some s)) transactions senders) (stored_ommers body)))
      else Ok (Some (mkBlockBody transactions (stored_ommers body)))
  end.

Definition read_block (txn : Txn T) (block_number : Z) (read_senders_too : bool)
  : result DbError (option BlockWithHash) :=
  try canonical_table := open_table kCanonicalHashes txn in
  try hash := table_get canonical_table (block_key block_number) in
  match hash with
  | None => Ok None
  | Some hash =>
      if negb (length hash =? kHashLength)%nat then Undef
      else
        try header_table := open_table kHeaders txn in
        try header_rlp := table_get header_table (block_key_hash block_number hash) in
        match header_rlp with
        | None => Ok None
        | Some header_rlp =>
            try header := decode_value decode_block_header header_rlp in
            try body := read_body txn block_number hash read_senders_too in
            match body with
            | None => Ok None
            | Some body => Ok (Some (mkBlockWithHash (mkBlock (mkBlockBody (transactions body) (ommers body)) header) hash))
            end
        end
  end.

(** ** The state *)

Definition read_code (txn : Txn T) (code_hash : bytes) : result DbError (option bytes) :=
  try table := open_table kCode txn in table_get table code_hash.

(** [bitmap::read] throws on damaged bytes. *)
Definition read_bitmap (serialized : bytes) : result DbError R :=
  match Bitmap.read serialized with Ok bm => Ok bm | Err _ => Err RuntimeError | Undef => Undef end.

Definition historical_account (txn : Txn T) (address : bytes) (block_number : Z) : result DbError (option bytes) :=
  try history_table := open_table kAccountHistory txn in
  try entry := table_seek history_table (account_history_key address block_number) in
  match entry with
  | None => Ok None
  | Some (key, value) =>
      if negb (has_prefix key address) then Ok None
      else
        try bitmap := read_bitmap value in
        match Bitmap.seek bitmap block_number with
        | None => Ok None
        | Some change_block =>
            try change_table := open_table kPlainAccountChangeSet txn in
            table_get_sub change_table (block_key change_block) address
        end
  end.

Definition historical_storage (txn : Txn T) (address : bytes) (incarnation : Z) (location : bytes) (block_number : Z)
  : result DbError (option bytes) :=
  try history_table := open_table kStorageHistory txn in
  try entry := table_seek history_table (storage_history_key address location block_number) in
  match entry with
  | None => Ok None
  | Some (k, value) =>
      if negb (bytes_eqb (take kAddressLength k) address)
         || negb (bytes_eqb (take kHashLength (drop kAddressLength k)) location) then Ok None
      else
        try bitmap := read_bitmap value in
        match Bitmap.seek bitmap block_number with
        | None => Ok None
        | Some change_block =>
            try change_table := open_table kPlainStorageChangeSet txn in
            table_get_sub change_table (storage_change_key change_block address incarnation) location
        end
  end.

(** The code hash of a contract is stored by address and incarnation when the account leaves it out. *)
Definition restore_code_hash (txn : Txn T) (address : bytes) (acc : Account) : result DbError Account :=
  if (0 <? incarnation acc) && bytes_eqb (code_hash acc) kEmptyHash then
    try code_hash_table := open_table kPlainContractCode txn in
    try hash := table_get code_hash_table (storage_prefix address (incarnation acc)) in
    Ok (match hash with
        | Some hash => if (length hash =? kHashLength)%nat
                       then mkAccount (nonce acc) (balance acc) hash (incarnation acc) else acc
        | None => acc
        end)
  else Ok acc.

(** The account that an encoding read for an address stands for. *)
Definition account_of_encoding (txn : Txn T) (address : bytes) (encoded : option bytes) : result DbError (option Account) :=
  match encoded with
  | None | Some [] => Ok None
  | Some encoded =>
      try acc := rlp_err_handler (decode_account_from_storage encoded) in
      try acc := restore_code_hash txn address acc in Ok (Some acc)
  end.

Definition read_account (txn : Txn T) (address : bytes) (block_num : option Z) : result DbError (option Account) :=
  try encoded := (match block_num with Some n => historical_account txn address n | None => Ok None end) in
  try encoded := (match encoded with
                  | Some _ => Ok encoded
                  | None => try state_table := open_table kPlainState txn in table_get state_table address
                  end) in
  account_of_encoding txn address encoded.

(** A value is copied to the end of 32 zero bytes. *)
Definition storage_word (val : bytes) : result DbError bytes :=
  if (kHashLength <? length val)%nat then Undef else Ok (zero_bytes (kHashLength - length val) ++ val).

Definition read_storage (txn : Txn T) (address : bytes) (incarnation : Z) (location : bytes) (block_num : option Z)
  : result DbError bytes :=
  try val := (match block_num with
              | Some n => historical_storage txn address incarnation location n
              | None => Ok None
              end) in
  try val := (match val with
              | Some _ => Ok val
              | None => try table := open_table kPlainState txn in
                        table_get_sub table (storage_prefix address incarnation) location
              end) in
  match val with None => Ok zero_bytes32 | Some val => storage_word val end.

(** [historical_previous_incarnation] is a stub that knows none. *)
Definition historical_previous_incarnation : option Z := None.

Definition read_previous_incarnation (txn : Txn T) (address : bytes) (block_num : option Z) : result DbError (option Z) :=
  match block_num with
  | Some _ => Ok historical_previous_incarnation
  | None =>
      try incarnation_table := open_table kIncarnationMap txn in
      try val := table_get incarnation_table address in
      match val with
      | None => Ok None
      | Some val => if negb (length val =? 8)%nat then Undef else Ok (Some (load_big_u64 val))
      end
  end.

(** ** Change sets *)

Fixpoint account_changes_loop (fuel : nat) (t : T) (rc : result MdbCode item) (changes : AccountChanges)
  : result DbError AccountChanges :=
  match rc with
  | Err MDB_NOTFOUND => Ok changes
  | _ =>
      try row := err_handler rc in
      if (length (snd row) <? kAddressLength)%nat then Undef
      else
        let changes := <[take kAddressLength (snd row) := drop kAddressLength (snd row)]> changes in
        match fuel with
        | O => Undef
        | S fuel => account_changes_loop fuel t (mdb_cursor_get t (Some row) MDB_NEXT_DUP [] []) changes
        end
  end.

Definition read_account_changes (txn : Txn T) (block_num : Z) : result DbError AccountChanges :=
  try table := open_table kPlainAccountChangeSet txn in
  account_changes_loop (rows table) table (mdb_cursor_get table None MDB_SET (block_key block_num) []) ∅.

Fixpoint storage_changes_loop (fuel : nat) (t : T) (prefix : bytes) (rc : result MdbCode item) (changes : StorageChanges)
  : result DbError StorageChanges :=
  match rc with
  | Err MDB_NOTFOUND => Ok changes
  | _ =>
      try row := err_handler rc in
      let (key, data) := row : item in
      if negb (has_prefix key prefix) then Ok changes
      else
        let key := drop (length prefix) key in
        if negb (length key =? kStoragePrefixLength)%nat || (length data <? kHashLength)%nat then Undef
        else
          let address := take kAddressLength key in
          let incarnation := load_big_u64 (drop kAddressLength key) in
          let changes := storage_alter (insert (take kHashLength data) (drop kHashLength data)) address incarnation changes in
          match fuel with
          | O => Undef
          | S fuel => storage_changes_loop fuel t prefix (mdb_cursor_get t (Some row) MDB_NEXT [] []) changes
          end
  end.

Definition read_storage_changes (txn : Txn T) (block_num : Z) : result DbError StorageChanges :=
  try table := open_table kPlainStorageChangeSet txn in
  let prefix := block_key block_num in
  storage_changes_loop (rows table) table prefix (mdb_cursor_get table None MDB_SET_RANGE prefix []) ∅.

(** ** Settings *)

Definition kStorageModeReceipts : string := "smReceipts".

Definition read_storage_mode_receipts (txn : Txn T) : result DbError bool :=
  try table := open_table kDatabaseInfo txn in
  try val := table_get table (chars kStorageModeReceipts) in
  Ok (match val with Some [b] => b =? 1 | _ => false end).

Definition migration_happened (txn : Txn T) (name : string) : result DbError bool :=
  try tbl := open_table kMigrations txn in
  try val := table_get tbl (chars name) in Ok (match val with Some _ => true | None => false end).

(** [nlohmann::json::parse] without exceptions is a parameter. *)
Definition read_chain_config {J : Type} `{Json J} (parse : bytes -> option J) (txn : Txn T)
  : result DbError (option ChainConfig * Txn T) :=
  try (genesis_hash, txn) := txn_get kCanonicalHashes (block_key 0) txn in
  match genesis_hash with
  | None => Ok (None, txn)
  | Some genesis_hash =>
      try (config_value, txn) := txn_get kConfig genesis_hash txn in
      match config_value with
      | None => Ok (None, txn)
      | Some config_value =>
          match from_json (parse config_value) with
          | Ok config => Ok (config, txn)
          | _ => Undef
          end
      end
  end.

End AccessLayer.
