(* ===== verification/Cbor.v ===== *)
(** * Cbor: db/silkworm/types (log_cbor.cpp, receipt_cbor.cpp)

    The stored forms of logs and receipts. The bytes are written by the encoder of the cborcpp library, called item
    by item: the model gives the sequence of calls, and the library's output is a function of it. *)

From S2P Require Import Prelude Util Rlp Transaction Block.
Local Open Scope Z_scope.
Local Open Scope silk_scope.

(** The calls of [cbor::encoder]. *)
Inductive CborCall : Type :=
| write_array (size : Z)
| write_bytes (data : bytes)
| write_int (value : Z)
| write_null.

(** What the library has in its output after a sequence of calls. *)
Class CborEncoder : Type := { cbor_output : list CborCall -> bytes }.

(** [static_cast<int>] of a 64-bit size. *)
Definition int_of_size (n : Z) : Z := let y := u32 n in if y <? 2 ^ 31 then y else y - 2 ^ 32.

Definition cbor_log (l : Log) : list CborCall :=
  [write_array 3; write_bytes (log_address l); write_array (int_of_size (zlen (log_topics l)))]
  ++ map (fun t => write_bytes (bytes32 t)) (log_topics l) ++ [write_bytes (log_data l)].

Definition cbor_logs (v : list Log) : list CborCall :=
  write_array (int_of_size (zlen v)) :: concat (map cbor_log v).

Definition cbor_receipt (r : Receipt) : list CborCall :=
  [write_array 3; write_null; write_int (if success r then 1 else 0); write_int (cumulative_gas_used r)].

Definition cbor_receipts (v : list Receipt) : list CborCall :=
  match v with [] => write_null | _ => write_array (int_of_size (zlen v)) end :: concat (map cbor_receipt v).

Definition cbor_encode_logs `{CborEncoder} (v : list Log) : bytes := cbor_output (cbor_logs v).
Definition cbor_encode_receipts `{CborEncoder} (v : list Receipt) : bytes := cbor_output (cbor_receipts v).

(** * The data items that sequences of calls describe *)

Inductive Cbor : Type :=
| CArray (items : list Cbor)
| CBytes (data : bytes)
| CInt (value : Z)
| CNull.

(** The calls that write an item: an array is announced with the number of its items. *)
Fixpoint calls (c : Cbor) : list CborCall :=
  match c with
  | CArray items => write_array (zlen items) :: concat (map calls items)
  | CBytes data => [write_bytes data]
  | CInt value => [write_int value]
  | CNull => [write_null]
  end.

Definition log_item (l : Log) : Cbor :=
  CArray [CBytes (log_address l); CArray (map (fun t => CBytes (bytes32 t)) (log_topics l)); CBytes (log_data l)].

Definition receipt_item (r : Receipt) : Cbor :=
  CArray [CNull; CInt (Z.b2z (success r)); CInt (cumulative_gas_used r)].

Lemma int_of_size_small n : 0 <= n < 2 ^ 31 -> int_of_size n = n.
Proof. intros Hn. unfold int_of_size, u32. rewrite wrap_small by lia. by zif. Qed.

Lemma concat_singletons {A B} (f : A -> B) l : concat (map (fun x => [f x]) l) = map f l.
Proof. induction l as [|x l IH]; cbn; [done|]. by rewrite IH. Qed.

Definition fits_int {A} (l : list A) : Prop := zlen l < 2 ^ 31.

Lemma cbor_log_calls l : fits_int (log_topics l) -> cbor_log l = calls (log_item l).
Proof.
  unfold fits_int. intros Hl. unfold cbor_log, log_item. rewrite int_of_size_small by lia. cbn.
  rewrite length_map, map_map. cbn [calls]. by rewrite concat_singletons.
Qed.

(** The calls write one item in full: every announced array is filled, and nothing follows it. *)
Theorem cbor_calls_correct (ls : list Log) (rs : list Receipt) :
  (fits_int ls -> Forall (fun l => fits_int (log_topics l)) ls -> cbor_logs ls = calls (CArray (map log_item ls)))
  /\ (fits_int rs -> cbor_receipts rs = match rs with [] => calls CNull | _ => calls (CArray (map receipt_item rs)) end).
Proof.
  unfold fits_int. split.
  - intros Hl Ht. unfold cbor_logs. rewrite int_of_size_small by lia. cbn. rewrite length_map. f_equal. f_equal.
    rewrite map_map. apply map_ext_Forall. eapply Forall_impl; [exact Ht|]. apply cbor_log_calls.
  - intros Hl. unfold cbor_receipts. destruct rs as [|r rs]; [done|]. rewrite int_of_size_small by lia.
    cbn [calls]. rewrite length_map, map_map. f_equal.
Qed.

Lemma cbor_calls_correct_witness :
  cbor_logs [mkLog (zero_bytes 20) [mkBytes32 (zero_bytes 32)] [1; 2]]
  = calls (CArray (map log_item [mkLog (zero_bytes 20) [mkBytes32 (zero_bytes 32)] [1; 2]])).
Proof.
  apply (cbor_calls_correct [mkLog (zero_bytes 20) [mkBytes32 (zero_bytes 32)] [1; 2]] []); [done|].
  repeat constructor.
Defined.
