(* ===== verification/DbBuffer.v ===== *)
(** * DbBuffer: db/silkworm/db/buffer.hpp, buffer.cpp

    The buffer between the execution of blocks and the database: it gathers the changes of many blocks over a
    transaction, answers reads from what it has and then from the tables, and writes everything in the order of the
    keys. *)

From stdpp Require Import gmap sets.
From S2P Require Import Prelude Util Keccak Rlp Account Transaction Block HashBuilder MemoryBuffer Bitmap Lmdb DbUtil AccessLayer Cbor.
Local Open Scope Z_scope.
Local Open Scope silk_scope.

(** ** Ordered maps and sorting *)

Section Sorting.
Context {A : Type} (ltb : A -> A -> bool).

Fixpoint insert_sorted (x : A) (l : list A) : list A :=
  match l with
  | [] => [x]
  | y :: l => if ltb x y then x :: y :: l else y :: insert_sorted x l
  end.

Definition sorted_list (l : list A) : list A := foldr insert_sorted [] l.

Lemma insert_sorted_perm x l : insert_sorted x l ≡ₚ x :: l.
Proof.
  induction l as [|y l IH]; cbn; [done|]. destruct (ltb x y); [done|]. rewrite IH. apply Permutation_swap.
Qed.

Lemma sorted_list_perm l : sorted_list l ≡ₚ l.
Proof. induction l as [|x l IH]; cbn; [done|]. rewrite insert_sorted_perm. by rewrite IH. Qed.

End Sorting.

(** The entries of an [absl::btree_map] in the order of their keys. *)
Definition btree_bytes {V} (m : gmap bytes V) : list (bytes * V) :=
  sorted_list (fun x y => bytes_ltb (fst x) (fst y)) (map_to_list m).
Definition btree_numbers {V} (m : gmap Z V) : list (Z * V) :=
  sorted_list (fun x y => fst x <? fst y) (map_to_list m).

(** ** The buffer *)

Record DbBuffer : Type := mkDbBuffer {
  headers_ : gmap bytes BlockHeader;
  bodies_ : gmap bytes BlockBody;
  difficulty_ : gmap bytes Z;
  accounts_ : gmap bytes (option Account);
  storage_ : storage_map;
  account_changes_ : gmap Z AccountChanges;
  storage_changes_ : gmap Z StorageChanges;
  incarnations_ : gmap bytes Z;
  hash_to_code_ : gmap bytes bytes;
  storage_prefix_to_code_hash_ : gmap bytes bytes;
  receipts_ : gmap bytes bytes;
  logs_ : gmap bytes bytes;
  batch_size_ : Z;
  block_number_ : Z;
  changed_storage_ : gset bytes
}.

(** [Buffer::Buffer]; the transaction and the historical block are arguments of what reads them. *)
Definition new_db_buffer : DbBuffer := mkDbBuffer ∅ ∅ ∅ ∅ ∅ ∅ ∅ ∅ ∅ ∅ ∅ ∅ 0 0 ∅.

Definition kEntryOverhead : Z := 8.

(** ** Updates of single members *)

Definition set_blocks h b d (x : DbBuffer) : DbBuffer :=
  mkDbBuffer h b d (accounts_ x) (storage_ x) (account_changes_ x) (storage_changes_ x) (incarnations_ x)
    (hash_to_code_ x) (storage_prefix_to_code_hash_ x) (receipts_ x) (logs_ x) (batch_size_ x) (block_number_ x)
    (changed_storage_ x).
Definition set_accounts a i (x : DbBuffer) : DbBuffer :=
  mkDbBuffer (headers_ x) (bodies_ x) (difficulty_ x) a (storage_ x) (account_changes_ x) (storage_changes_ x) i
    (hash_to_code_ x) (storage_prefix_to_code_hash_ x) (receipts_ x) (logs_ x) (batch_size_ x) (block_number_ x)
    (changed_storage_ x).
Definition set_storage s c (x : DbBuffer) : DbBuffer :=
  mkDbBuffer (headers_ x) (bodies_ x) (difficulty_ x) (accounts_ x) s (account_changes_ x) (storage_changes_ x)
    (incarnations_ x) (hash_to_code_ x) (storage_prefix_to_code_hash_ x) (receipts_ x) (logs_ x) (batch_size_ x)
    (block_number_ x) c.
Definition set_changes a s (x : DbBuffer) : DbBuffer :=
  mkDbBuffer (headers_ x) (bodies_ x) (difficulty_ x) (accounts_ x) (storage_ x) a s (incarnations_ x)
    (hash_to_code_ x) (storage_prefix_to_code_hash_ x) (receipts_ x) (logs_ x) (batch_size_ x) (block_number_ x)
    (changed_storage_ x).
Definition set_code h p (x : DbBuffer) : DbBuffer :=
  mkDbBuffer (headers_ x) (bodies_ x) (difficulty_ x) (accounts_ x) (storage_ x) (account_changes_ x)
    (storage_changes_ x) (incarnations_ x) h p (receipts_ x) (logs_ x) (batch_size_ x) (block_number_ x)
    (changed_storage_ x).
Definition set_receipts r l (x : DbBuffer) : DbBuffer :=
  mkDbBuffer (headers_ x) (bodies_ x) (difficulty_ x) (accounts_ x) (storage_ x) (account_changes_ x)
    (storage_changes_ x) (incarnations_ x) (hash_to_code_ x) (storage_prefix_to_code_hash_ x) r l (batch_size_ x)
    (block_number_ x) (changed_storage_ x).
Definition set_batch s (x : DbBuffer) : DbBuffer :=
  mkDbBuffer (headers_ x) (bodies_ x) (difficulty_ x) (accounts_ x) (storage_ x) (account_changes_ x)
    (storage_changes_ x) (incarnations_ x) (hash_to_code_ x) (storage_prefix_to_code_hash_ x) (receipts_ x) (logs_ x)
    s (block_number_ x) (changed_storage_ x).
Definition set_block n c (x : DbBuffer) : DbBuffer :=
  mkDbBuffer (headers_ x) (bodies_ x) (difficulty_ x) (accounts_ x) (storage_ x) (account_changes_ x)
    (storage_changes_ x) (incarnations_ x) (hash_to_code_ x) (storage_prefix_to_code_hash_ x) (receipts_ x) (logs_ x)
    (batch_size_ x) n c.

(** [bump_batch_size] *)
Definition bump_batch_size (key_len value_len : Z) (b : DbBuffer) : DbBuffer :=
  set_batch (u64 (batch_size_ b + u64 (kEntryOverhead + key_len + value_len))) b.

(** [if (m.insert_or_assign(...).second) bump_batch_size(...)]: only a new key counts. *)
Definition bump_new {V} (old : option V) (key_len value_len : Z) (b : DbBuffer) : DbBuffer :=
  match old with None => bump_batch_size key_len value_len b | Some _ => b end.

(** ** Writers *)

Definition db_begin_block (block_number : Z) (b : DbBuffer) : DbBuffer := set_block block_number ∅ b.

Definition db_update_account (address : bytes) (initial current : option Account) (b : DbBuffer) : DbBuffer :=
  let equal := bool_decide (current = initial) in
  let account_deleted := match current with None => true | Some _ => false end in
  if equal && negb account_deleted && negb (bool_decide (address ∈ changed_storage_ b)) then b
  else
    let encoded_initial := match initial with
                           | Some a => encode_for_storage a (negb account_deleted)
                           | None => []
                           end in
    let changes := default ∅ (account_changes_ b !! block_number_ b) in
    let b := bump_new (changes !! address) 8 (Z.of_nat kAddressLength + zlen encoded_initial)
               (set_changes (<[block_number_ b := <[address := encoded_initial]> changes]> (account_changes_ b))
                  (storage_changes_ b) b) in
    if equal then b
    else
      let b := bump_new (accounts_ b !! address) (Z.of_nat kAddressLength)
                 (match current with Some a => encoding_length_for_storage a | None => 0 end)
                 (set_accounts (<[address := current]> (accounts_ b)) (incarnations_ b) b) in
      match initial with
      | Some i =>
          if account_deleted && negb (incarnation i =? 0) then
            bump_new (incarnations_ b !! address) (Z.of_nat kAddressLength) (Z.of_nat kIncarnationLength)
              (set_accounts (accounts_ b) (<[address := incarnation i]> (incarnations_ b)) b)
          else b
      | None => b
      end.

Definition db_update_account_code (address : bytes) (incarnation : Z) (code_hash code : bytes) (b : DbBuffer) : DbBuffer :=
  let b := bump_new (hash_to_code_ b !! code_hash) (Z.of_nat kHashLength) (zlen code)
             (set_code (<[code_hash := code]> (hash_to_code_ b)) (storage_prefix_to_code_hash_ b) b) in
  let prefix := storage_prefix address incarnation in
  bump_new (storage_prefix_to_code_hash_ b !! prefix) (Z.of_nat kStoragePrefixLength) (Z.of_nat kHashLength)
    (set_code (hash_to_code_ b) (<[prefix := code_hash]> (storage_prefix_to_code_hash_ b)) b).

Definition db_update_storage (address : bytes) (incarnation : Z) (location initial current : bytes) (b : DbBuffer) : DbBuffer :=
  if bytes_eqb current initial then b
  else
    let change_val := zeroless_view initial in
    let changes := default ∅ (storage_changes_ b !! block_number_ b) in
    let b := bump_new (storage_lookup changes address incarnation location) (8 + Z.of_nat kStoragePrefixLength)
               (Z.of_nat kHashLength + zlen change_val)
               (set_changes (account_changes_ b)
                  (<[block_number_ b := storage_alter (insert location change_val) address incarnation changes]>
                     (storage_changes_ b))
                  (set_storage (storage_ b) ({[address]} ∪ changed_storage_ b) b)) in
    bump_new (storage_lookup (storage_ b) address incarnation location) (Z.of_nat kStoragePrefixLength)
      (Z.of_nat kHashLength + zlen (zeroless_view current))
      (set_storage (storage_alter (insert location current) address incarnation (storage_ b)) (changed_storage_ b) b).

(** ** Writing to the tables *)

Section Writing.
Context {T : Type} `{Lmdb T} {R : Type} `{Roaring R} `{CborEncoder}.

Definition upsert_storage_value (storage_prefix location value : bytes) (state_table : T) : result DbError T :=
  try state_table := table_del_sub state_table storage_prefix location in
  if is_zero value then Ok state_table
  else table_put state_table storage_prefix (location ++ zeroless_view value).

Definition write_account (b : DbBuffer) (address : bytes) (state_table : T) : result DbError T :=
  match accounts_ b !! address with
  | None => Ok state_table
  | Some account =>
      try state_table := table_del state_table address in
      match account with
      | Some a => table_put state_table address (encode_for_storage a false)
      | None => Ok state_table
      end
  end.

Definition write_contract (address : bytes) (contract : Z * gmap bytes bytes) (state_table : T) : result DbError T :=
  let prefix := storage_prefix address (fst contract) in
  for_each (fun entry => upsert_storage_value prefix (fst entry) (snd entry)) (btree_bytes (snd contract)) state_table.

Definition write_storage (b : DbBuffer) (address : bytes) (state_table : T) : result DbError T :=
  match storage_ b !! address with
  | None => Ok state_table
  | Some contracts => for_each (write_contract address) (btree_numbers contracts) state_table
  end.

Definition write_to_state_table (b : DbBuffer) (txn : Txn T) : result DbError (Txn T) :=
  try state_table := open_table kPlainState txn in
  let addresses := sorted_list bytes_ltb (elements (dom (accounts_ b) ∪ dom (storage_ b))) in
  try state_table := for_each (fun address state_table =>
      try state_table := write_account b address state_table in write_storage b address state_table)
    addresses state_table in
  Ok (with_table kPlainState state_table txn).

(** A loop of puts into one table. *)
Definition put_all (config : TableConfig) (l : list item) (txn : Txn T) : result DbError (Txn T) :=
  try table := open_table config txn in
  try table := for_each (fun entry table => table_put table (fst entry) (snd entry)) l table in
  Ok (with_table config table txn).

(** The rows of the change sets. *)
Definition account_change_rows (b : DbBuffer) : list item :=
  concat (map (fun block_entry => map (fun account_entry =>
      (block_key (fst block_entry), fst account_entry ++ snd account_entry)) (btree_bytes (snd block_entry)))
    (btree_numbers (account_changes_ b))).

Definition storage_change_rows (b : DbBuffer) : list item :=
  concat (map (fun block_entry : Z * StorageChanges =>
    concat (map (fun address_entry : bytes * gmap Z (gmap bytes bytes) =>
      concat (map (fun incarnation_entry : Z * gmap bytes bytes =>
        map (fun storage_entry => (storage_change_key (fst block_entry) (fst address_entry) (fst incarnation_entry),
                                   fst storage_entry ++ snd storage_entry)) (btree_bytes (snd incarnation_entry)))
        (btree_numbers (snd address_entry))))
      (btree_bytes (snd block_entry))))
    (btree_numbers (storage_changes_ b))).

(** [Buffer::write_to_db] *)
Definition write_to_db (b : DbBuffer) (txn : option (Txn T)) : result DbError (option (Txn T)) :=
  match txn with
  | None => Ok None
  | Some txn =>
      try txn := write_to_state_table b txn in
      try txn := put_all kIncarnationMap (map (fun e => (fst e, to_be 8 (snd e))) (btree_bytes (incarnations_ b))) txn in
      try txn := put_all kCode (btree_bytes (hash_to_code_ b)) txn in
      try txn := put_all kPlainContractCode (btree_bytes (storage_prefix_to_code_hash_ b)) txn in
      try txn := put_all kPlainAccountChangeSet (account_change_rows b) txn in
      try txn := put_all kPlainStorageChangeSet (storage_change_rows b) txn in
      try txn := put_all kBlockReceipts (btree_bytes (receipts_ b)) txn in
      try txn := put_all kLogs (btree_bytes (logs_ b)) txn in
      Ok (Some txn)
  end.

(** [insert_receipts]: the logs of each receipt under its index, then the receipts of the block. *)
Fixpoint insert_logs (block_number : Z) (i : Z) (receipts : list Receipt) (b : DbBuffer) : DbBuffer :=
  match receipts with
  | [] => b
  | r :: receipts =>
      let b := match logs r with
               | [] => b
               | _ => let key := log_key block_number i in
                      let value := cbor_encode_logs (logs r) in
                      bump_new (logs_ b !! key) (zlen key) (zlen value)
                        (set_receipts (receipts_ b) (<[key := value]> (logs_ b)) b)
               end in
      insert_logs block_number (u32 (i + 1)) receipts b
  end.

Definition db_insert_receipts (block_number : Z) (receipts : list Receipt) (b : DbBuffer) : DbBuffer :=
  let b := insert_logs block_number 0 receipts b in
  let key := block_key block_number in
  let value := cbor_encode_receipts receipts in
  bump_new (receipts_ b !! key) (zlen key) (zlen value) (set_receipts (<[key := value]> (receipts_ b)) (logs_ b) b).

(** ** Readers

    [txn] is the transaction behind the buffer, if there is one, and [historical_block] the block before which the
    state is read from it. The functions are [noexcept]: an exception ends the program. *)

Definition db_total_difficulty (b : DbBuffer) (txn : option (Txn T)) (block_number : Z) (block_hash : bytes)
  : result DbError (option Z) :=
  match difficulty_ b !! block_key_hash block_number block_hash with
  | Some td => Ok (Some td)
  | None => match txn with Some txn => read_total_difficulty txn block_number block_hash | None => Ok None end
  end.

Definition db_read_header (b : DbBuffer) (txn : option (Txn T)) (block_number : Z) (block_hash : bytes)
  : result DbError (option BlockHeader) :=
  match headers_ b !! block_key_hash block_number block_hash with
  | Some h => Ok (Some h)
  | None => match txn with Some txn => read_header txn block_number block_hash | None => Ok None end
  end.

Definition db_read_body (b : DbBuffer) (txn : option (Txn T)) (block_number : Z) (block_hash : bytes)
  : result DbError (option BlockBody) :=
  match bodies_ b !! block_key_hash block_number block_hash with
  | Some x => Ok (Some x)
  | None => match txn with Some txn => read_body txn block_number block_hash false | None => Ok None end
  end.

Definition db_read_account (b : DbBuffer) (txn : option (Txn T)) (historical_block : option Z) (address : bytes)
  : result DbError (option Account) :=
  match accounts_ b !! address with
  | Some a => Ok a
  | None => match txn with Some txn => read_account txn address historical_block | None => Ok None end
  end.

Definition db_read_code (b : DbBuffer) (txn : option (Txn T)) (code_hash : bytes) : result DbError bytes :=
  match hash_to_code_ b !! code_hash with
  | Some c => Ok c
  | None =>
      match txn with
      | Some txn => try code := read_code txn code_hash in Ok (default [] code)
      | None => Ok []
      end
  end.

Definition db_read_storage (b : DbBuffer) (txn : option (Txn T)) (historical_block : option Z) (address : bytes)
    (incarnation : Z) (location : bytes) : result DbError bytes :=
  match storage_lookup (storage_ b) address incarnation location with
  | Some v => Ok v
  | None =>
      match txn with
      | Some txn => read_storage txn address incarnation location historical_block
      | None => Ok zero_bytes32
      end
  end.

Definition db_previous_incarnation (b : DbBuffer) (txn : option (Txn T)) (historical_block : option Z) (address : bytes)
  : result DbError Z :=
  match incarnations_ b !! address with
  | Some i => Ok i
  | None =>
      match txn with
      | Some txn => try i := read_previous_incarnation txn address historical_block in Ok (default 0 i)
      | None => Ok 0
      end
  end.

(** [insert_block]: a parent without a known difficulty counts as 0. *)
Definition db_insert_block (block : Block) (hash : bytes) (txn : option (Txn T)) (b : DbBuffer) : result DbError DbBuffer :=
  let block_number := number (header block) in
  let key := block_key_hash block_number hash in
  let b := set_blocks (<[key := header block]> (headers_ b)) (<[key := body block]> (bodies_ b)) (difficulty_ b) b in
  try parent_difficulty :=
    if block_number =? 0 then Ok 0
    else try td := db_total_difficulty b txn (u64 (block_number - 1)) (parent_hash (header block)) in Ok (default 0 td) in
  Ok (set_blocks (headers_ b) (bodies_ b) (<[key := u256 (parent_difficulty + difficulty (header block))]> (difficulty_ b)) b).

End Writing.

(** ** The state root of the buffered accounts *)

Definition db_account_storage_root (b : DbBuffer) (address : bytes) (incarnation : Z) : result unit bytes :=
  match (m1 ← storage_ b !! address; m1 !! incarnation) with
  | None => Ok kEmptyRoot
  | Some m =>
      if (size m =? 0)%nat then Ok kEmptyRoot
      else
        let storage_rlp :=
          foldl (fun l p => ordered_insert (to_bytes32 (keccak256 (fst p))) (encode_storage_value (snd p)) l)
            [] (map_to_list m) in
        try hb := add_all (new_hash_builder false) storage_rlp in root_hash hb
  end.

Fixpoint db_account_rlps (b : DbBuffer) (l : list (bytes * option Account)) (out : list (bytes * bytes))
  : result unit (list (bytes * bytes)) :=
  match l with
  | [] => Ok out
  | (address, None) :: l => db_account_rlps b l out
  | (address, Some account) :: l =>
      try storage_root := db_account_storage_root b address (incarnation account) in
      db_account_rlps b l (ordered_insert (to_bytes32 (keccak256 address)) (account_rlp account storage_root) out)
  end.

Definition db_state_root_hash (b : DbBuffer) : result unit bytes :=
  if (size (accounts_ b) =? 0)%nat then Ok kEmptyRoot
  else
    try rlps := db_account_rlps b (map_to_list (accounts_ b)) [] in
    try hb := add_all (new_hash_builder false) rlps in root_hash hb.

(** Not yet implemented: they throw a runtime error. *)
Definition db_current_canonical_block (b : DbBuffer) : result DbError Z := Err RuntimeError.
Definition db_canonical_hash (b : DbBuffer) (block_number : Z) : result DbError (option bytes) := Err RuntimeError.
Definition db_canonize_block (block_number : Z) (block_hash : bytes) (b : DbBuffer) : result DbError DbBuffer := Err RuntimeError.
Definition db_decanonize_block (block_number : Z) (b : DbBuffer) : result DbError DbBuffer := Err RuntimeError.
Definition db_unwind_state_changes (block_number : Z) (b : DbBuffer) : result DbError DbBuffer := Err RuntimeError.

(** A word that is written and cleared again is still in the buffer, and its zero is in the root: the root of an
    account without storage differs from the root of the same account after a word was set and cleared. *)
Example cleared_word_in_root :
  let a := zero_bytes 20 in
  let acc := mkAccount 1 5 kEmptyHash 1 in
  let b := db_update_account a None (Some acc) (db_begin_block 1 new_db_buffer) in
  let one := zero_bytes 31 ++ [1] in
  let cleared := db_update_storage a 1 one one zero_bytes32 (db_update_storage a 1 one zero_bytes32 one b) in
  storage_lookup (storage_ cleared) a 1 one = Some zero_bytes32
  /\ match db_state_root_hash cleared, db_state_root_hash b with
     | Ok r1, Ok r2 => bytes_eqb r1 r2 = false
     | _, _ => False
     end.
Proof. split; vm_compute; reflexivity. Qed.
