(* ===== verification/DbBufferCorrect.v ===== *)
(** * DbBufferCorrect: what is written to the database is what the buffer answered

    The state table holds one value for every account and every word of storage; the loops of the writing set
    exactly those the buffer has; and a new buffer over the written transaction answers as the old one did. *)

From stdpp Require Import gmap sets.
From S2P Require Import Prelude Util Rlp Account Transaction Block MemoryBuffer Bitmap Lmdb DbUtil AccessLayer Cbor DbBuffer.
Local Open Scope Z_scope.
Local Open Scope silk_scope.

(** * Slots of the state table *)

Inductive slot : Type :=
| SAccount (a : bytes)
| SWord (a : bytes) (i : Z) (l : bytes).

#[export] Instance slot_eq_dec : EqDecision slot.
Proof. solve_decision. Defined.

Definition slot_ok (s : slot) : Prop :=
  match s with
  | SAccount a => length a = kAddressLength
  | SWord a i l => length a = kAddressLength /\ wf_u64 i /\ length l = kHashLength
  end.

(** The row that holds a value. *)
Definition slot_item (s : slot) (v : bytes) : item :=
  match s with
  | SAccount a => (a, v)
  | SWord a i l => (storage_prefix a i, l ++ v)
  end.

Lemma to_be_inj8 i j : wf_u64 i -> wf_u64 j -> to_be 8 i = to_be 8 j -> i = j.
Proof. intros Hi Hj E. rewrite <- (of_be_to_be_small 8 i), <- (of_be_to_be_small 8 j) by done. by rewrite E. Qed.

Lemma storage_prefix_inj a i a' i' : length a = length a' -> wf_u64 i -> wf_u64 i' ->
  storage_prefix a i = storage_prefix a' i' -> a = a' /\ i = i'.
Proof.
  unfold storage_prefix. intros Hl Hi Hi' E. apply app_inj_1 in E as [-> E]; [|done]. split; [done|]. by apply to_be_inj8.
Qed.

Lemma length_storage_prefix a i : length a = kAddressLength -> length (storage_prefix a i) = kStoragePrefixLength.
Proof. intros Ha. unfold storage_prefix. by rewrite length_app, length_to_be, Ha. Qed.

Lemma slot_item_inj s s' v v' : slot_ok s -> slot_ok s' -> slot_item s v = slot_item s' v' -> s = s' /\ v = v'.
Proof.
  destruct s as [a|a i l], s' as [a'|a' i' l']; cbn [slot_ok slot_item].
  - by intros _ _ [= -> ->].
  - intros Ha (Ha' & _) [= E _]. apply (f_equal length) in E. by rewrite length_storage_prefix, Ha in E.
  - intros (Ha & _) Ha' [= E _]. apply (f_equal length) in E. by rewrite length_storage_prefix, Ha' in E.
  - intros (Ha & Hi & Hl) (Ha' & Hi' & Hl') [= E1 E2]. apply storage_prefix_inj in E1 as [-> ->]; [|congruence|done..].
    apply app_inj_1 in E2 as [-> ->]; [done|congruence].
Qed.

Section StateTable.
Context {T : Type} `{LmdbLaws T}.
Implicit Types t : T.

Definition holds t (s : slot) (v : bytes) : Prop := slot_item s v ∈ tb_items t.

(** Every row is a slot's, and a slot has one row. *)
Record state_table_ok t : Prop := {
  so_dupsort : tb_dupsort t = true;
  so_rows : forall x, x ∈ tb_items t -> exists s v, slot_ok s /\ x = slot_item s v;
  so_unique : forall s v v', slot_ok s -> holds t s v -> holds t s v' -> v = v'
}.

Lemma account_row_unique t a : state_table_ok t -> length a = kAddressLength ->
  at_most_one (fun x => fst x = a) t.
Proof.
  intros Ht Ha. assert (forall x, x ∈ tb_items t -> fst x = a -> exists v, x = slot_item (SAccount a) v) as Hrow.
  { intros x Hx E. destruct (so_rows t Ht x Hx) as (s & v & Hs & ->). destruct s as [a'|a' i l]; cbn in *; subst; [by exists v|].
    destruct Hs as (Ha' & _). by rewrite length_storage_prefix in Ha. }
  intros x y Hx Hy Ex Ey. destruct (Hrow x Hx Ex) as [v ->], (Hrow y Hy Ey) as [v' ->]. f_equal.
  by apply (so_unique t Ht (SAccount a)).
Qed.

Lemma word_row_unique t a i l : state_table_ok t -> slot_ok (SWord a i l) ->
  at_most_one (fun x => fst x = storage_prefix a i /\ has_prefix (snd x) l = true) t.
Proof.
  intros Ht (Ha & Hi & Hl).
  assert (forall x, x ∈ tb_items t -> fst x = storage_prefix a i -> has_prefix (snd x) l = true ->
            exists v, x = slot_item (SWord a i l) v) as Hrow.
  { intros x Hx E Hp. destruct (so_rows t Ht x Hx) as (s & v & Hs & ->). destruct s as [a'|a' i' l']; cbn in *; subst.
    - by rewrite length_storage_prefix in Hs.
    - destruct Hs as (Ha' & Hi' & Hl'). apply storage_prefix_inj in E as [-> ->]; [|congruence|done..].
      apply has_prefix_exists in Hp as [w Hw]. apply app_inj_1 in Hw as [-> ->]; [|congruence]. by exists w. }
  intros x y Hx Hy [Ex Px] [Ey Py]. destruct (Hrow x Hx Ex Px) as [v ->], (Hrow y Hy Ey Py) as [v' ->]. f_equal.
  by apply (so_unique t Ht (SWord a i l)).
Qed.

Lemma address_nonempty (a : bytes) : length a = kAddressLength -> a <> [].
Proof. by intros Ha ->. Qed.

Lemma location_nonempty (l : bytes) : length l = kHashLength -> l <> [].
Proof. by intros Hl ->. Qed.

Lemma storage_prefix_nonempty a i : length a = kAddressLength -> storage_prefix a i <> [].
Proof. intros Ha E. apply (f_equal length) in E. by rewrite length_storage_prefix in E. Qed.

(** ** Deleting and writing a slot *)

Definition slot_del (s : slot) t : result DbError T :=
  match s with
  | SAccount a => table_del t a
  | SWord a i l => table_del_sub t (storage_prefix a i) l
  end.

Definition slot_update (s : slot) (o : option bytes) t : result DbError T :=
  try t := slot_del s t in
  match o with Some v => table_put t (fst (slot_item s v)) (snd (slot_item s v)) | None => Ok t end.

(** The rows of a slot are those with its key, and its location in front. *)
Definition of_slot (s : slot) (x : item) : Prop :=
  match s with
  | SAccount a => fst x = a
  | SWord a i l => fst x = storage_prefix a i /\ has_prefix (snd x) l = true
  end.

Lemma of_slot_item s s' v : slot_ok s -> slot_ok s' -> of_slot s (slot_item s' v) <-> s' = s.
Proof.
  intros Hs Hs'. split.
  - destruct s as [a|a i l], s' as [a'|a' i' l']; cbn in *.
    + by intros ->.
    + intros E. apply (f_equal length) in E. rewrite length_storage_prefix in E by tauto. by rewrite Hs in E.
    + intros [E _]. apply (f_equal length) in E. rewrite length_storage_prefix in E by tauto. by rewrite Hs' in E.
    + destruct Hs as (Ha & Hi & Hl), Hs' as (Ha' & Hi' & Hl'). intros [E Hp].
      apply storage_prefix_inj in E as [-> ->]; [|congruence|done..].
      apply has_prefix_exists in Hp as [w Hw]. apply app_inj_1 in Hw as [-> _]; [done|congruence].
  - intros ->. destruct s as [a|a i l]; cbn; [done|]. split; [done|apply has_prefix_app].
Qed.

Lemma slot_del_spec s t : state_table_ok t -> slot_ok s ->
  exists t', slot_del s t = Ok t' /\ tb_dupsort t' = true
    /\ forall x, x ∈ tb_items t' <-> x ∈ tb_items t /\ ~ of_slot s x.
Proof.
  intros Ht Hs. pose proof (so_dupsort t Ht) as Hd. destruct s as [a|a i l]; cbn [slot_del of_slot].
  - destruct (table_del_spec t a (address_nonempty a Hs) (account_row_unique t a Ht Hs)) as (t' & E & Hd' & Hi).
    exists t'. split; [done|]. split; [congruence|done].
  - destruct Hs as (Ha & Hi & Hl).
    destruct (table_del_sub_spec t (storage_prefix a i) l Hd (storage_prefix_nonempty a i Ha) (location_nonempty l Hl))
      as (t' & E & Hd' & Hit); [by apply word_row_unique|]. exists t'. split; [done|]. split; [congruence|done].
Qed.

(** The sizes of a slot's row. *)
Definition value_fits (s : slot) (o : option bytes) : Prop :=
  forall v, o = Some v -> (0 < length (snd (slot_item s v)) <= 511)%nat.

Lemma slot_key_fits s v : slot_ok s -> key_fits (fst (slot_item s v)).
Proof.
  unfold key_fits. destruct s as [a|a i l]; cbn [slot_ok slot_item fst]; intros Hs; [rewrite Hs|rewrite length_storage_prefix by tauto];
    unfold kAddressLength, kStoragePrefixLength, kAddressLength, kIncarnationLength; lia.
Qed.

Lemma slot_update_spec s o t : state_table_ok t -> slot_ok s -> value_fits s o ->
  exists t', slot_update s o t = Ok t' /\ state_table_ok t'
    /\ forall s' v, slot_ok s' -> holds t' s' v <-> if decide (s' = s) then o = Some v else holds t s' v.
Proof.
  intros Ht Hs Hf. unfold slot_update. destruct (slot_del_spec s t Ht Hs) as (t1 & -> & Hd1 & Hi1). cbn [result_bind].
  assert (exists t', match o with
                     | Some v => table_put t1 (fst (slot_item s v)) (snd (slot_item s v))
                     | None => Ok t1
                     end = Ok t' /\ tb_dupsort t' = true
            /\ forall x, x ∈ tb_items t' <-> (exists v, o = Some v /\ x = slot_item s v) \/ x ∈ tb_items t1) as (t' & E & Hd' & Hi').
  { destruct o as [v|].
    - destruct (table_put_spec t1 (fst (slot_item s v)) (snd (slot_item s v)) (slot_key_fits s v Hs)) as (t' & E & Hd' & Hi');
        [intros _; by apply Hf|]. rewrite Hd1 in Hd', Hi'. exists t'. split; [done|]. split; [done|]. intros x.
      rewrite Hi', elem_of_put_items. rewrite <- surjective_pairing. split.
      + intros [->|[Hx _]]; [left; by exists v|by right].
      + intros [(v' & [= <-] & ->)|Hx]; [by left|right; by split].
    - exists t1. split; [done|]. split; [done|]. intros x. split; [by right|]. by intros [(v & ? & _)|Hx]. }
  exists t'. split; [done|].
  assert (forall s' v, slot_ok s' -> holds t' s' v <-> if decide (s' = s) then o = Some v else holds t s' v) as Hh.
  { intros s' v Hs'. unfold holds. rewrite Hi', Hi1, (of_slot_item s s' v Hs Hs'). destruct (decide (s' = s)) as [->|Hne].
    - split; [|intros ->; left; by exists v]. intros [(v' & -> & E')|[_ Hn]]; [|done].
      by apply slot_item_inj in E' as [_ ->].
    - split; [|intros Hx; right; by split]. intros [(v' & -> & E')|[Hx _]]; [|done].
      apply slot_item_inj in E' as [-> _]; done. }
  split; [|done]. split; [done| |].
  - intros x Hx. apply Hi' in Hx as [(v & _ & ->)|Hx]; [by exists s, v|]. apply Hi1 in Hx as [Hx _]. by apply Ht.
  - intros s' v v' Hs'. rewrite !Hh by done. case_decide; [congruence|]. by apply Ht.
Qed.

(** ** A sequence of slot updates, one value per slot *)

Lemma slot_updates_spec (l : list (slot * option bytes)) : forall t,
  state_table_ok t -> Forall (fun u => slot_ok (fst u) /\ value_fits (fst u) (snd u)) l ->
  (forall s o o', (s, o) ∈ l -> (s, o') ∈ l -> o = o') ->
  exists t', for_each (fun u => slot_update (fst u) (snd u)) l t = Ok t' /\ state_table_ok t'
    /\ (forall s o v, (s, o) ∈ l -> holds t' s v <-> o = Some v)
    /\ (forall s v, slot_ok s -> (forall o, (s, o) ∉ l) -> holds t' s v <-> holds t s v).
Proof.
  induction l as [|[s o] l IH]; intros t Ht Hl Hfun.
  - exists t. split; [done|]. split; [done|]. split; [by intros s o v ?%not_elem_of_nil|done].
  - inversion Hl as [|? ? [Hs Hv] Hl']; subst. cbn [fst snd] in *. cbn [for_each fst snd].
    destruct (slot_update_spec s o t Ht Hs Hv) as (t1 & -> & Ht1 & H1). cbn [result_bind].
    destruct (IH t1 Ht1 Hl') as (t' & E & Ht' & Hin & Hout).
    { intros s' o1 o2 Ho1 Ho2. apply (Hfun s'); by right. }
    exists t'. split; [done|]. split; [done|].
    assert (forall s', (exists o', (s', o') ∈ l) \/ (forall o', (s', o') ∉ l)) as Hdec.
    { intros s'. destruct (decide (s' ∈ map fst l)) as [Hs'|Hn].
      - left. apply list_elem_of_fmap in Hs' as ([s2 o2] & -> & Hx). by exists o2.
      - right. intros o' Ho'. apply Hn. by apply (list_elem_of_fmap_2 fst) in Ho'. }
    split.
    + intros s' o' v Hx. destruct (Hdec s') as [[o2 Ho2]|Hn].
      * rewrite (Hfun s' o' o2 Hx); [|by right]. by apply Hin.
      * apply elem_of_cons in Hx as [[= -> ->]|Hx]; [|by destruct (Hn o')]. rewrite Hout by done. rewrite H1 by done.
        by rewrite decide_True.
    + intros s' v Hs' Hn. rewrite Hout; [|done|intros o' Ho'; apply (Hn o'); by right]. rewrite H1 by done.
      rewrite decide_False; [done|]. intros ->. apply (Hn o). by left.
Qed.

(** * The loops of the writing are such a sequence *)

Definition stored_account (acc : Account) : bytes := encode_for_storage acc false.
Definition word_value (v : bytes) : option bytes := if is_zero v then None else Some (zeroless_view v).

Definition account_updates (b : DbBuffer) (a : bytes) : list (slot * option bytes) :=
  match accounts_ b !! a with
  | Some o => [(SAccount a, option_map stored_account o)]
  | None => []
  end.

Definition contract_updates (a : bytes) (c : Z * gmap bytes bytes) : list (slot * option bytes) :=
  map (fun e => (SWord a (fst c) (fst e), word_value (snd e))) (btree_bytes (snd c)).

Definition storage_updates (b : DbBuffer) (a : bytes) : list (slot * option bytes) :=
  match storage_ b !! a with
  | Some contracts => concat (map (contract_updates a) (btree_numbers contracts))
  | None => []
  end.

Definition state_updates (b : DbBuffer) : list (slot * option bytes) :=
  concat (map (fun a => account_updates b a ++ storage_updates b a)
    (sorted_list bytes_ltb (elements (dom (accounts_ b) ∪ dom (storage_ b))))).

Definition run_update (u : slot * option bytes) : T -> result DbError T := slot_update (fst u) (snd u).

Lemma bind_ok {E A} (m : result E A) : result_bind m Ok = m.
Proof. by destruct m. Qed.

Lemma write_account_updates b a t : write_account b a t = for_each run_update (account_updates b a) t.
Proof.
  unfold write_account, account_updates. destruct (accounts_ b !! a) as [o|]; [|done].
  cbn [for_each]. rewrite bind_ok. unfold run_update, slot_update. cbn [fst snd slot_del slot_item].
  destruct (table_del t a) as [t1| |]; cbn; [|done..]. by destruct o.
Qed.

Lemma write_contract_updates a c t : write_contract a c t = for_each run_update (contract_updates a c) t.
Proof.
  unfold write_contract, contract_updates. rewrite for_each_map. apply for_each_ext. intros e s _.
  unfold upsert_storage_value, run_update, slot_update, word_value. cbn [fst snd slot_del slot_item].
  destruct (table_del_sub s _ _) as [t1| |]; cbn; [|done..]. by destruct (is_zero (snd e)).
Qed.

Lemma write_storage_updates b a t : write_storage b a t = for_each run_update (storage_updates b a) t.
Proof.
  unfold write_storage, storage_updates. destruct (storage_ b !! a) as [contracts|]; [|done].
  rewrite for_each_concat, for_each_map. apply for_each_ext. intros c s _. apply write_contract_updates.
Qed.

Lemma write_state_updates b (txn : Txn T) t : txn_tables txn !! config_name kPlainState = Some t ->
  write_to_state_table b txn
  = try t := for_each run_update (state_updates b) t in Ok (with_table kPlainState t txn).
Proof.
  intros Ht. unfold write_to_state_table. rewrite (open_table_spec _ _ _ Ht). cbn [result_bind].
  unfold state_updates. rewrite for_each_concat, for_each_map. f_equal. apply for_each_ext. intros a s _.
  rewrite for_each_app, write_account_updates. destruct (for_each _ _ s); cbn; [|done..]. apply write_storage_updates.
Qed.

(** What the buffer has for a slot. *)
Definition update_of (b : DbBuffer) (s : slot) : option (option bytes) :=
  match s with
  | SAccount a => option_map (option_map stored_account) (accounts_ b !! a)
  | SWord a i l => option_map word_value (storage_lookup (storage_ b) a i l)
  end.

Lemma elem_of_btree_bytes {V} (m : gmap bytes V) k v : (k, v) ∈ btree_bytes m <-> m !! k = Some v.
Proof. unfold btree_bytes. by rewrite sorted_list_perm, elem_of_map_to_list. Qed.

Lemma elem_of_btree_numbers {V} (m : gmap Z V) k v : (k, v) ∈ btree_numbers m <-> m !! k = Some v.
Proof. unfold btree_numbers. by rewrite sorted_list_perm, elem_of_map_to_list. Qed.

Lemma elem_of_concat_map {A B} (f : A -> list B) l y : y ∈ concat (map f l) <-> exists x, x ∈ l /\ y ∈ f x.
Proof.
  induction l as [|x l IH]; cbn.
  - split; [by intros ?%not_elem_of_nil|]. by intros (x & ?%not_elem_of_nil & _).
  - rewrite elem_of_app, IH. setoid_rewrite elem_of_cons. split.
    + intros [Hy|(x' & Hx & Hy)]; [exists x; split; [by left|done]|exists x'; split; [by right|done]].
    + intros (x' & [->|Hx] & Hy); [by left|right; by exists x'].
Qed.

Lemma elem_of_map {A B} (f : A -> B) l y : y ∈ map f l <-> exists x, x ∈ l /\ y = f x.
Proof.
  rewrite list_elem_of_fmap. split; intros (x & H1 & H2); by exists x.
Qed.

Lemma elem_of_contract_updates a c s o :
  (s, o) ∈ contract_updates a c <-> exists l v, s = SWord a (fst c) l /\ snd c !! l = Some v /\ o = word_value v.
Proof.
  unfold contract_updates. rewrite elem_of_map. split.
  - intros ([l v] & Hx & [= -> ->]). apply elem_of_btree_bytes in Hx. by exists l, v.
  - intros (l & v & -> & Hv & ->). exists (l, v). split; [by apply elem_of_btree_bytes|done].
Qed.

Lemma elem_of_storage_updates b a s o :
  (s, o) ∈ storage_updates b a
  <-> exists i l v, s = SWord a i l /\ storage_lookup (storage_ b) a i l = Some v /\ o = word_value v.
Proof.
  unfold storage_updates, storage_lookup. destruct (storage_ b !! a) as [contracts|]; cbn.
  - rewrite elem_of_concat_map. split.
    + intros ([i m] & Hc & Hx). apply elem_of_btree_numbers in Hc. apply elem_of_contract_updates in Hx as (l & v & -> & Hv & ->).
      exists i, l, v. split; [done|]. cbn in Hv. by rewrite Hc.
    + intros (i & l & v & -> & Hv & ->). destruct (contracts !! i) as [m|] eqn:Ei; [|done]. exists (i, m).
      split; [by apply elem_of_btree_numbers|]. apply elem_of_contract_updates. by exists l, v.
  - split; [by intros ?%not_elem_of_nil|]. by intros (i & l & v & _ & ? & _).
Qed.

Lemma elem_of_state_updates b s o : (s, o) ∈ state_updates b <-> update_of b s = Some o.
Proof.
  unfold state_updates. rewrite elem_of_concat_map. split.
  - intros (a & _ & Hx). apply elem_of_app in Hx as [Hx|Hx].
    + unfold account_updates in Hx. destruct (accounts_ b !! a) as [o'|] eqn:Ea; [|by apply not_elem_of_nil in Hx].
      apply list_elem_of_singleton in Hx as [= -> ->]. cbn. by rewrite Ea.
    + apply elem_of_storage_updates in Hx as (i & l & v & -> & Hv & ->). cbn. by rewrite Hv.
  - destruct s as [a|a i l]; cbn [update_of]; intros E; exists a; rewrite sorted_list_perm, elem_of_elements, elem_of_union, !elem_of_dom, elem_of_app.
    + destruct (accounts_ b !! a) as [o'|] eqn:Ea; [|done]. cbn in E. injection E as <-. split; [by left|]. left.
      unfold account_updates. rewrite Ea. apply list_elem_of_singleton. done.
    + destruct (storage_lookup (storage_ b) a i l) as [v|] eqn:Ev; [|done]. cbn in E. injection E as <-. split.
      * right. unfold storage_lookup in Ev. by destruct (storage_ b !! a).
      * right. apply elem_of_storage_updates. by exists i, l, v.
Qed.

End StateTable.

(** * Loops of puts *)

Section Puts.
Context {T : Type} `{LmdbLaws T}.
Implicit Types t : T.

Definition table_at (config : TableConfig) (txn : Txn T) t : Prop := txn_tables txn !! config_name config = Some t.

Definition put_row (e : item) : T -> result DbError T := fun t => table_put t (fst e) (snd e).

(** One value per key. *)
Definition functional_rows (l : list item) : Prop := forall k d d', (k, d) ∈ l -> (k, d') ∈ l -> d = d'.

Lemma puts_plain (l : list item) : forall t,
  tb_dupsort t = false -> Forall (fun e => key_fits (fst e)) l -> functional_rows l ->
  exists t', for_each put_row l t = Ok t' /\ tb_dupsort t' = false
    /\ forall k d, (k, d) ∈ tb_items t' <-> (k, d) ∈ l \/ (k, d) ∈ tb_items t /\ forall d', (k, d') ∉ l.
Proof.
  induction l as [|[k0 d0] l IH]; intros t Ht Hl Hfun.
  - exists t. split; [done|]. split; [done|]. intros k d. rewrite elem_of_nil. setoid_rewrite elem_of_nil. tauto.
  - inversion Hl as [|? ? Hk Hl']; subst. cbn [fst] in Hk. cbn [for_each].
    assert (tb_dupsort t = true -> key_fits d0) as Hd by by rewrite Ht.
    destruct (table_put_spec t k0 d0 Hk Hd) as (t1 & E1 & Hd1 & Hi1). rewrite Ht in Hd1, Hi1.
    unfold put_row at 1. cbn [fst snd]. rewrite E1. cbn [result_bind].
    destruct (IH t1 Hd1 Hl') as (t' & E & Hd' & Hi'); [intros k d d' Hx Hy; apply (Hfun k); by right|].
    exists t'. split; [done|]. split; [done|]. intros k d. rewrite Hi', Hi1, elem_of_put_items.
    setoid_rewrite elem_of_cons. cbn [fst]. split.
    + intros [Hx|[[[= -> ->]|[Hx Hn]] Hno]]; [by left; right|by left; left|right; split; [done|]].
      intros d' [[= -> _]|Hd2]; [by apply Hn|by apply (Hno d')].
    + intros [[[= -> ->]|Hx]|[Hx Hn]]; [|by left|].
      * destruct (decide (k0 ∈ map fst l)) as [Hin|Hnin].
        -- left. apply list_elem_of_fmap in Hin as ([k1 d1] & -> & Hx). cbn in *.
           by rewrite (Hfun k1 d0 d1) by (by left || by right).
        -- right. split; [by left|]. intros d' Hx. apply Hnin. by apply (list_elem_of_fmap_2 fst) in Hx.
      * right. split; [right; split; [done|]|].
        -- intros _ E'. apply (Hn d0). left. by f_equal.
        -- intros d' Hd2. apply (Hn d'). by right.
Qed.

Lemma puts_dup (l : list item) : forall t,
  tb_dupsort t = true -> Forall (fun e => key_fits (fst e) /\ key_fits (snd e)) l ->
  exists t', for_each put_row l t = Ok t' /\ tb_dupsort t' = true
    /\ forall x, x ∈ tb_items t' <-> x ∈ l \/ x ∈ tb_items t.
Proof.
  induction l as [|[k0 d0] l IH]; intros t Ht Hl.
  - exists t. split; [done|]. split; [done|]. intros x. rewrite elem_of_nil. tauto.
  - inversion Hl as [|? ? [Hk Hd] Hl']; subst. cbn [fst snd] in *. cbn [for_each].
    destruct (table_put_spec t k0 d0 Hk (fun _ => Hd)) as (t1 & E1 & Hd1 & Hi1). rewrite Ht in Hd1, Hi1.
    unfold put_row at 1. cbn [fst snd]. rewrite E1. cbn [result_bind].
    destruct (IH t1 Hd1 Hl') as (t' & E & Hd' & Hi'). exists t'. split; [done|]. split; [done|].
    intros x. rewrite Hi', Hi1, elem_of_put_items, elem_of_cons.
    split; [intros [?|[?|[? _]]]; tauto|]. intros [[?|?]|?]; [tauto..|]. right. right. by split.
Qed.

(** What became of one table. *)
Definition plain_written (config : TableConfig) (l : list item) (txn txn' : Txn T) : Prop :=
  exists t t', table_at config txn t /\ tb_dupsort t = false /\ table_at config txn' t' /\ tb_dupsort t' = false
    /\ forall k d, (k, d) ∈ tb_items t' <-> (k, d) ∈ l \/ (k, d) ∈ tb_items t /\ forall d', (k, d') ∉ l.

Definition dup_written (config : TableConfig) (l : list item) (txn txn' : Txn T) : Prop :=
  exists t t', table_at config txn t /\ tb_dupsort t = true /\ table_at config txn' t' /\ tb_dupsort t' = true
    /\ forall x, x ∈ tb_items t' <-> x ∈ l \/ x ∈ tb_items t.

Definition other_tables (config : TableConfig) (txn txn' : Txn T) : Prop :=
  forall name, name <> config_name config -> txn_tables txn' !! name = txn_tables txn !! name.

Lemma other_tables_with config t (txn : Txn T) : other_tables config txn (with_table config t txn).
Proof. intros name Hn. by apply lookup_insert_ne. Qed.

Lemma table_at_with config t (txn : Txn T) : table_at config (with_table config t txn) t.
Proof. apply lookup_insert_eq. Qed.

Lemma put_all_plain config l (txn : Txn T) t :
  table_at config txn t -> tb_dupsort t = false -> Forall (fun e => key_fits (fst e)) l -> functional_rows l ->
  exists txn', put_all config l txn = Ok txn' /\ plain_written config l txn txn' /\ other_tables config txn txn'.
Proof.
  intros Ht Hd Hl Hf. destruct (puts_plain l t Hd Hl Hf) as (t' & E & Hd' & Hi').
  exists (with_table config t' txn). split; [|split; [|apply other_tables_with]].
  - unfold put_all. rewrite (open_table_spec _ _ _ Ht). cbn [result_bind]. change (fun entry table => _) with put_row.
    by rewrite E.
  - exists t, t'. split_and!; try done. apply table_at_with.
Qed.

Lemma put_all_dup config l (txn : Txn T) t :
  table_at config txn t -> tb_dupsort t = true -> Forall (fun e => key_fits (fst e) /\ key_fits (snd e)) l ->
  exists txn', put_all config l txn = Ok txn' /\ dup_written config l txn txn' /\ other_tables config txn txn'.
Proof.
  intros Ht Hd Hl. destruct (puts_dup l t Hd Hl) as (t' & E & Hd' & Hi').
  exists (with_table config t' txn). split; [|split; [|apply other_tables_with]].
  - unfold put_all. rewrite (open_table_spec _ _ _ Ht). cbn [result_bind]. change (fun entry table => _) with put_row.
    by rewrite E.
  - exists t, t'. split_and!; try done. apply table_at_with.
Qed.

(** The table was as it is before, and is as it was written. *)
Lemma plain_written_frame config l (txn0 txn txn' txn1 : Txn T) : plain_written config l txn txn' ->
  txn_tables txn !! config_name config = txn_tables txn0 !! config_name config ->
  txn_tables txn1 !! config_name config = txn_tables txn' !! config_name config -> plain_written config l txn0 txn1.
Proof.
  intros (t & t' & H1 & H2 & H3 & H4 & H5) E1 E2. exists t, t'. unfold table_at in *. rewrite <- E1, E2. by split_and!.
Qed.

Lemma dup_written_frame config l (txn0 txn txn' txn1 : Txn T) : dup_written config l txn txn' ->
  txn_tables txn !! config_name config = txn_tables txn0 !! config_name config ->
  txn_tables txn1 !! config_name config = txn_tables txn' !! config_name config -> dup_written config l txn0 txn1.
Proof.
  intros (t & t' & H1 & H2 & H3 & H4 & H5) E1 E2. exists t, t'. unfold table_at in *. rewrite <- E1, E2. by split_and!.
Qed.

(** Reading a key of a written table. *)
Definition get_of (config : TableConfig) (txn : Txn T) (k : bytes) : result DbError (option bytes) :=
  try t := open_table config txn in table_get t k.

Lemma plain_written_get config l (txn txn' : Txn T) k : plain_written config l txn txn' -> k <> [] ->
  (forall d, (k, d) ∈ l -> get_of config txn' k = Ok (Some d))
  /\ ((forall d, (k, d) ∉ l) -> get_of config txn' k = get_of config txn k).
Proof.
  intros (t & t' & Ht & Hd & Ht' & Hd' & Hi) Hk. unfold get_of.
  rewrite (open_table_spec _ _ _ Ht), (open_table_spec _ _ _ Ht'). cbn [result_bind].
  destruct (table_get_spec t' k Hk (plain_at_most_one t' k Hd')) as (o' & -> & Ho').
  destruct (table_get_spec t k Hk (plain_at_most_one t k Hd)) as (o & -> & Ho). split.
  - intros d Hx. f_equal. apply Ho', Hi. by left.
  - intros Hn. f_equal. apply option_eq. intros d. rewrite Ho', Ho, Hi. split; [intros [Hx|[Hx _]]; [by destruct (Hn d)|done]|].
    intros Hx. right. by split.
Qed.

End Puts.

(** * The operations of the buffer keep its maps well-formed *)

Inductive db_op : Type :=
| OpBegin (block_number : Z)
| OpAccount (address : bytes) (initial current : option Account)
| OpCode (address : bytes) (incarnation : Z) (code_hash code : bytes)
| OpStorage (address : bytes) (incarnation : Z) (location initial current : bytes)
| OpReceipts (block_number : Z) (receipts : list Receipt).

Definition apply_op `{CborEncoder} (b : DbBuffer) (op : db_op) : DbBuffer :=
  match op with
  | OpBegin n => db_begin_block n b
  | OpAccount a i c => db_update_account a i c b
  | OpCode a i h c => db_update_account_code a i h c b
  | OpStorage a i l v0 v => db_update_storage a i l v0 v b
  | OpReceipts n rs => db_insert_receipts n rs b
  end.

Definition is_address (a : bytes) : Prop := length a = kAddressLength.
Definition is_hash (h : bytes) : Prop := length h = kHashLength.

Definition wf_op (op : db_op) : Prop :=
  match op with
  | OpBegin n => wf_u64 n
  | OpAccount a i c => is_address a /\ (forall x, i = Some x -> wf_account x) /\ (forall x, c = Some x -> wf_account x)
  | OpCode a i h _ => is_address a /\ wf_u64 i /\ is_hash h
  | OpStorage a i l v0 v => is_address a /\ wf_u64 i /\ is_hash l /\ is_hash v0 /\ is_hash v
  | OpReceipts _ _ => True
  end.

Definition word_place (a : bytes) (i : Z) (l : bytes) : Prop := is_address a /\ wf_u64 i /\ is_hash l.

Record buffer_ok (b : DbBuffer) : Prop := {
  bo_block : wf_u64 (block_number_ b);
  bo_accounts a o : accounts_ b !! a = Some o -> is_address a /\ forall acc, o = Some acc -> wf_account acc;
  bo_storage a i l v : storage_lookup (storage_ b) a i l = Some v -> word_place a i l /\ is_hash v;
  bo_incarnations a i : incarnations_ b !! a = Some i -> is_address a /\ wf_u64 i;
  bo_code h c : hash_to_code_ b !! h = Some c -> is_hash h;
  bo_code_hash p h : storage_prefix_to_code_hash_ b !! p = Some h ->
    exists a i, p = storage_prefix a i /\ is_address a /\ wf_u64 i;
  bo_account_changes n m a v : account_changes_ b !! n = Some m -> m !! a = Some v ->
    wf_u64 n /\ is_address a /\ (length v <= 100)%nat;
  bo_storage_changes n m a i l v : storage_changes_ b !! n = Some m -> storage_lookup m a i l = Some v ->
    wf_u64 n /\ word_place a i l /\ (length v <= 32)%nat;
  bo_receipts k v : receipts_ b !! k = Some v -> key_fits k;
  bo_logs k v : logs_ b !! k = Some v -> key_fits k
}.

Lemma new_db_buffer_ok : buffer_ok new_db_buffer.
Proof.
  split; cbn; try (unfold wf_u64; lia); intros *; by rewrite ?lookup_empty.
Qed.

Lemma buffer_ok_bump {V} (o : option V) k v b : buffer_ok b -> buffer_ok (bump_new o k v b).
Proof. intros Hb. destruct o; [done|]. by destruct Hb. Qed.

Lemma length_encode_for_storage a omit : wf_account a -> (0 < length (encode_for_storage a omit) <= 100)%nat.
Proof.
  intros [Hn Hb [_ Hh] Hi]. rewrite encode_for_storage_eq. cbn [length]. rewrite !length_app.
  assert (forall p n, wf_u64 n -> (length (field p (big_endian_u64 n)) <= 9)%nat) as H64.
  { intros p n Hw. destruct p; cbn; [|lia]. rewrite big_endian_u64_eq, length_to_be by done. pose proof (be_len_u64 n Hw). lia. }
  assert (forall p n, wf_u256 n -> (length (field p (big_endian_u256 n)) <= 33)%nat) as H256.
  { intros p n Hw. destruct p; cbn; [|lia]. rewrite big_endian_u256_eq, length_to_be by done. pose proof (be_len_u256 n Hw). lia. }
  assert (forall p, (length (field p (code_hash a)) <= 33)%nat) as Hf by (intros p; destruct p; cbn; lia).
  pose proof (H64 (negb (nonce a =? 0)) _ Hn). pose proof (H256 (negb (balance a =? 0)) _ Hb).
  pose proof (H64 (negb (incarnation a =? 0)) _ Hi). pose proof (Hf (negb (bytes_eqb (code_hash a) kEmptyHash) && negb omit)). lia.
Qed.

(** A map with one entry more. *)
Lemma insert_cases {K V} `{Countable K} (m : gmap K V) k v k' v' : <[k := v]> m !! k' = Some v' ->
  k' = k /\ v' = v \/ m !! k' = Some v'.
Proof.
  destruct (decide (k = k')) as [->|Hne]; [rewrite lookup_insert_eq; intros [= ->]; by left|].
  rewrite lookup_insert_ne by done. by right.
Qed.

Lemma storage_insert_cases (m : storage_map) a i l v a' i' l' v' :
  storage_lookup (storage_alter (insert l v) a i m) a' i' l' = Some v' ->
  (a' = a /\ i' = i /\ l' = l /\ v' = v) \/ storage_lookup m a' i' l' = Some v'.
Proof.
  rewrite storage_lookup_insert. case_decide as E; [|by right]. destruct E as (-> & -> & ->). intros [= ->]. by left.
Qed.

(** The entry of a block that may be missing. *)
Lemma default_entry {V} (m : gmap Z (gmap bytes V)) n k v : default ∅ (m !! n) !! k = Some v ->
  exists x, m !! n = Some x /\ x !! k = Some v.
Proof. destruct (m !! n) as [x|]; cbn; [by exists x|by rewrite lookup_empty]. Qed.

Lemma buffer_ok_change b a v : buffer_ok b -> is_address a -> (length v <= 100)%nat ->
  buffer_ok (set_changes (<[block_number_ b := <[a := v]> (default ∅ (account_changes_ b !! block_number_ b))]> (account_changes_ b))
               (storage_changes_ b) b).
Proof.
  intros Hb Ha Hv. destruct Hb. split; cbn; try done.
  intros n m a' v' [[-> ->]|Hm]%insert_cases Hx; [|by eauto].
  apply insert_cases in Hx as [[-> ->]|Hx]; [done|]. apply default_entry in Hx as (x & Hx & Hx'). by eauto.
Qed.

Lemma buffer_ok_accounts b a o : buffer_ok b -> is_address a -> (forall acc, o = Some acc -> wf_account acc) ->
  buffer_ok (set_accounts (<[a := o]> (accounts_ b)) (incarnations_ b) b).
Proof. intros Hb Ha Ho. destruct Hb. split; cbn; try done. by intros a' o' [[-> ->]|Hx]%insert_cases; eauto. Qed.

Lemma buffer_ok_incarnations b a i : buffer_ok b -> is_address a -> wf_u64 i ->
  buffer_ok (set_accounts (accounts_ b) (<[a := i]> (incarnations_ b)) b).
Proof. intros Hb Ha Hi. destruct Hb. split; cbn; try done. by intros a' i' [[-> ->]|Hx]%insert_cases; eauto. Qed.

Lemma update_account_ok a i c b : buffer_ok b -> wf_op (OpAccount a i c) -> buffer_ok (db_update_account a i c b).
Proof.
  intros Hb (Ha & Hi & Hc). unfold db_update_account. destruct (_ && _ && _); [done|].
  set (encoded := match i with Some x => _ | None => [] end).
  assert (length encoded <= 100)%nat as He.
  { subst encoded. destruct i as [x|]; cbn; [|lia]. by apply length_encode_for_storage, Hi. }
  pose proof (buffer_ok_bump (default ∅ (account_changes_ b !! block_number_ b) !! a) 8 (Z.of_nat kAddressLength + zlen encoded) _
    (buffer_ok_change b a encoded Hb Ha He)) as H1.
  cbv zeta. set (b1 := bump_new _ _ _ _) in *. destruct (bool_decide (c = i)); [done|].
  pose proof (buffer_ok_bump (accounts_ b1 !! a) (Z.of_nat kAddressLength)
    (match c with Some x => encoding_length_for_storage x | None => 0 end) _ (buffer_ok_accounts b1 a c H1 Ha Hc)) as H2.
  set (b2 := bump_new (accounts_ b1 !! a) _ _ _) in *. destruct i as [x|]; [|done]. destruct (_ && _); [|done].
  apply buffer_ok_bump, buffer_ok_incarnations; [done|done|]. by apply (Hi x).
Qed.

Lemma update_code_ok a i h c b : buffer_ok b -> wf_op (OpCode a i h c) -> buffer_ok (db_update_account_code a i h c b).
Proof.
  intros Hb (Ha & Hi & Hh). unfold db_update_account_code.
  assert (buffer_ok (set_code (<[h := c]> (hash_to_code_ b)) (storage_prefix_to_code_hash_ b) b)) as H1.
  { destruct Hb. split; cbn; try done. by intros h' c' [[-> ->]|Hx]%insert_cases; eauto. }
  apply (buffer_ok_bump (hash_to_code_ b !! h) (Z.of_nat kHashLength) (zlen c)) in H1.
  cbv zeta. set (b1 := bump_new _ _ _ _) in *. apply buffer_ok_bump. destruct H1. split; cbn; try done.
  intros p h' [[-> ->]|Hx]%insert_cases; [|by eauto]. by exists a, i.
Qed.

Lemma update_storage_ok a i l v0 v b : buffer_ok b -> wf_op (OpStorage a i l v0 v) -> buffer_ok (db_update_storage a i l v0 v b).
Proof.
  intros Hb (Ha & Hi & Hl & Hv0 & Hv). unfold db_update_storage. destruct (bytes_eqb v v0); [done|]. cbv zeta.
  set (b0 := set_changes _ _ _). assert (buffer_ok b0) as H0.
  { subst b0. destruct Hb. split; cbn; try done.
    intros n m a' i' l' v' [[-> ->]|Hm]%insert_cases Hx; [|by eauto].
    apply storage_insert_cases in Hx as [(-> & -> & -> & ->)|Hx].
    - split; [done|]. split; [done|]. pose proof (zeroless_view_length v0). unfold is_hash, kHashLength in Hv0. lia.
    - destruct (storage_changes_ b !! block_number_ b) as [m|] eqn:Em; cbn in Hx; [by eauto|].
      unfold storage_lookup in Hx. by rewrite lookup_empty in Hx. }
  apply (buffer_ok_bump (storage_lookup (default ∅ (storage_changes_ b !! block_number_ b)) a i l) (8 + Z.of_nat kStoragePrefixLength)
    (Z.of_nat kHashLength + zlen (zeroless_view v0))) in H0.
  set (b1 := bump_new _ _ _ b0) in *. apply buffer_ok_bump. destruct H0. split; cbn; try done.
  intros a' i' l' v' [(-> & -> & -> & ->)|Hx]%storage_insert_cases; [done|by eauto].
Qed.

Lemma log_key_fits n i : key_fits (log_key n i).
Proof. unfold key_fits, log_key. rewrite length_app, !length_to_be. lia. Qed.

Lemma block_key_fits n : key_fits (block_key n).
Proof. unfold key_fits, block_key. rewrite length_to_be. lia. Qed.

Lemma insert_logs_ok `{CborEncoder} n rs : forall i b, buffer_ok b -> buffer_ok (insert_logs n i rs b).
Proof.
  induction rs as [|r rs IH]; intros i b Hb; cbn [insert_logs]; [done|]. apply IH. destruct (logs r); [done|].
  apply buffer_ok_bump. pose proof (log_key_fits n i) as Hk. destruct Hb. split; cbn -[log_key]; try done.
  by intros k v [[-> ->]|Hx]%insert_cases; eauto.
Qed.

Lemma apply_op_ok `{CborEncoder} op b : buffer_ok b -> wf_op op -> buffer_ok (apply_op b op).
Proof.
  intros Hb Hop. destruct op; cbn [apply_op].
  - cbn in Hop. destruct Hb. by split.
  - by apply update_account_ok.
  - by apply update_code_ok.
  - by apply update_storage_ok.
  - unfold db_insert_receipts. apply buffer_ok_bump. apply (insert_logs_ok block_number receipts 0) in Hb.
    set (b1 := insert_logs _ _ _ _) in *. clearbody b1. pose proof (block_key_fits block_number) as Hk.
    destruct Hb. split; cbn -[block_key]; try done. by intros k v [[-> ->]|Hx]%insert_cases; eauto.
Qed.

Lemma apply_ops_ok `{CborEncoder} ops : forall b, buffer_ok b -> Forall wf_op ops -> buffer_ok (foldl apply_op b ops).
Proof.
  induction ops as [|op ops IH]; intros b Hb Hops; [done|]. inversion Hops; subst. cbn. apply IH; [|done]. by apply apply_op_ok.
Qed.

(** * The rows that are written *)

Definition incarnation_rows (b : DbBuffer) : list item := map (fun e => (fst e, to_be 8 (snd e))) (btree_bytes (incarnations_ b)).

Lemma btree_functional (m : gmap bytes bytes) : functional_rows (btree_bytes m).
Proof. intros k d d' Hd%elem_of_btree_bytes Hd'%elem_of_btree_bytes. congruence. Qed.

Lemma btree_keys {V} (m : gmap bytes V) (P : bytes -> Prop) : (forall k v, m !! k = Some v -> P k) ->
  Forall (fun e => P (fst e)) (btree_bytes m).
Proof. intros Hm. apply Forall_forall. intros [k v] Hx%elem_of_btree_bytes. by apply (Hm k v). Qed.

Lemma elem_of_incarnation_rows b k d : (k, d) ∈ incarnation_rows b <-> exists i, incarnations_ b !! k = Some i /\ d = to_be 8 i.
Proof.
  unfold incarnation_rows. rewrite elem_of_map. split.
  - intros ([k' i] & Hx%elem_of_btree_bytes & [= -> ->]). by exists i.
  - intros (i & Hi & ->). exists (k, i). by rewrite elem_of_btree_bytes.
Qed.

Lemma address_fits a : is_address a -> key_fits a.
Proof. unfold is_address, key_fits, kAddressLength. lia. Qed.

Lemma hash_fits h : is_hash h -> key_fits h.
Proof. unfold is_hash, key_fits, kHashLength. lia. Qed.

Lemma elem_of_account_change_rows b x :
  x ∈ account_change_rows b
  <-> exists n m a v, account_changes_ b !! n = Some m /\ m !! a = Some v /\ x = (block_key n, a ++ v).
Proof.
  unfold account_change_rows. rewrite elem_of_concat_map. split.
  - intros ([n m] & Hm%elem_of_btree_numbers & Hx). apply elem_of_map in Hx as ([a v] & Hv%elem_of_btree_bytes & ->).
    by exists n, m, a, v.
  - intros (n & m & a & v & Hm & Hv & ->). exists (n, m). split; [by apply elem_of_btree_numbers|].
    apply elem_of_map. exists (a, v). split; [by apply elem_of_btree_bytes|done].
Qed.

Lemma elem_of_storage_change_rows b x :
  x ∈ storage_change_rows b
  <-> exists n m a i l v, storage_changes_ b !! n = Some m /\ storage_lookup m a i l = Some v
        /\ x = (storage_change_key n a i, l ++ v).
Proof.
  unfold storage_change_rows. rewrite elem_of_concat_map. split.
  - intros ([n m] & Hm%elem_of_btree_numbers & Hx). apply elem_of_concat_map in Hx as ([a m1] & Ha%elem_of_btree_bytes & Hx).
    apply elem_of_concat_map in Hx as ([i m2] & Hi%elem_of_btree_numbers & Hx).
    apply elem_of_map in Hx as ([l v] & Hv%elem_of_btree_bytes & ->). exists n, m, a, i, l, v. split; [done|]. split; [|done].
    cbn in *. unfold storage_lookup. rewrite Ha. cbn. by rewrite Hi.
  - intros (n & m & a & i & l & v & Hm & Hv & ->). exists (n, m). split; [by apply elem_of_btree_numbers|]. cbn.
    unfold storage_lookup in Hv. destruct (m !! a) as [m1|] eqn:Ea; [|done]. cbn in Hv. destruct (m1 !! i) as [m2|] eqn:Ei; [|done].
    apply elem_of_concat_map. exists (a, m1). split; [by apply elem_of_btree_bytes|].
    apply elem_of_concat_map. exists (i, m2). split; [by apply elem_of_btree_numbers|].
    apply elem_of_map. exists (l, v). split; [by apply elem_of_btree_bytes|done].
Qed.

Lemma account_change_rows_fit b : buffer_ok b -> Forall (fun e => key_fits (fst e) /\ key_fits (snd e)) (account_change_rows b).
Proof.
  intros Hb. apply Forall_forall. intros x (n & m & a & v & Hm & Hv & ->)%elem_of_account_change_rows. cbn [fst snd].
  destruct (bo_account_changes b Hb n m a v Hm Hv) as (_ & Ha & Hl). split; [apply block_key_fits|].
  unfold key_fits, is_address, kAddressLength in *. rewrite length_app. lia.
Qed.

Lemma storage_change_rows_fit b : buffer_ok b -> Forall (fun e => key_fits (fst e) /\ key_fits (snd e)) (storage_change_rows b).
Proof.
  intros Hb. apply Forall_forall. intros x (n & m & a & i & l & v & Hm & Hv & ->)%elem_of_storage_change_rows. cbn [fst snd].
  destruct (bo_storage_changes b Hb n m a i l v Hm Hv) as (_ & (Ha & _ & Hl) & Hlv).
  unfold key_fits, storage_change_key, is_address, is_hash, kAddressLength, kHashLength in *.
  rewrite !length_app, !length_to_be. lia.
Qed.

Lemma state_updates_fit b : buffer_ok b -> Forall (fun u => slot_ok (fst u) /\ value_fits (fst u) (snd u)) (state_updates b).
Proof.
  intros Hb. apply Forall_forall. intros [s o] Hx%elem_of_state_updates. cbn [fst snd]. destruct s as [a|a i l]; cbn [update_of] in Hx.
  - destruct (accounts_ b !! a) as [o'|] eqn:Ea; [|done]. cbn in Hx. injection Hx as <-.
    destruct (bo_accounts b Hb a o' Ea) as [Ha Hacc]. split; [done|]. intros v Hv. destruct o' as [acc|]; [|done].
    injection Hv as <-. cbn [slot_item snd]. pose proof (length_encode_for_storage acc false (Hacc acc eq_refl)) as Hlen.
    unfold stored_account. lia.
  - destruct (storage_lookup (storage_ b) a i l) as [w|] eqn:Ew; [|done]. cbn in Hx. injection Hx as <-.
    destruct (bo_storage b Hb a i l w Ew) as [Hp Hw]. split; [done|]. intros v Hv. cbn. rewrite length_app.
    unfold word_value in Hv. destruct (is_zero w); [done|]. injection Hv as <-. pose proof (zeroless_view_length w).
    destruct Hp as (_ & _ & Hl). unfold is_hash, kHashLength in *. lia.
Qed.

Lemma state_updates_functional b s o o' : (s, o) ∈ state_updates b -> (s, o') ∈ state_updates b -> o = o'.
Proof. rewrite !elem_of_state_updates. congruence. Qed.

Lemma zeroless_padded w : zero_bytes (length w - length (zeroless_view w)) ++ zeroless_view w = w.
Proof.
  induction w as [|x w IH]; [done|]. pose proof (zeroless_view_length w) as Hl. cbn [zeroless_view].
  destruct (Z.eqb_spec x 0) as [->|_]; [|by rewrite Nat.sub_diag]. cbn [length].
  rewrite Nat.sub_succ_l by done. change (0 :: (zero_bytes (length w - length (zeroless_view w)) ++ zeroless_view w) = 0 :: w).
  by rewrite IH.
Qed.

Section Database.
Context {T : Type} `{LmdbLaws T} `{CborEncoder}.

(** The tables of the buffer are there, and the state table has one row for every slot. *)
Record database_ok (txn : Txn T) : Prop := {
  dk_state : exists t, table_at kPlainState txn t /\ state_table_ok t;
  dk_incarnations : exists t, table_at kIncarnationMap txn t /\ tb_dupsort t = false;
  dk_code : exists t, table_at kCode txn t /\ tb_dupsort t = false;
  dk_code_hash : exists t, table_at kPlainContractCode txn t /\ tb_dupsort t = false;
  dk_account_changes : exists t, table_at kPlainAccountChangeSet txn t /\ tb_dupsort t = true;
  dk_storage_changes : exists t, table_at kPlainStorageChangeSet txn t /\ tb_dupsort t = true;
  dk_receipts : exists t, table_at kBlockReceipts txn t /\ tb_dupsort t = false;
  dk_logs : exists t, table_at kLogs txn t /\ tb_dupsort t = false
}.

Definition state_written (b : DbBuffer) (txn txn' : Txn T) : Prop :=
  exists t t', table_at kPlainState txn t /\ state_table_ok t /\ table_at kPlainState txn' t' /\ state_table_ok t'
    /\ forall s v, slot_ok s -> holds t' s v <-> match update_of b s with Some o => o = Some v | None => holds t s v end.

(** What [write_to_db] makes of the tables. *)
Record written (b : DbBuffer) (txn txn' : Txn T) : Prop := {
  wr_state : state_written b txn txn';
  wr_incarnations : plain_written kIncarnationMap (incarnation_rows b) txn txn';
  wr_code : plain_written kCode (btree_bytes (hash_to_code_ b)) txn txn';
  wr_code_hash : plain_written kPlainContractCode (btree_bytes (storage_prefix_to_code_hash_ b)) txn txn';
  wr_account_changes : dup_written kPlainAccountChangeSet (account_change_rows b) txn txn';
  wr_storage_changes : dup_written kPlainStorageChangeSet (storage_change_rows b) txn txn';
  wr_receipts : plain_written kBlockReceipts (btree_bytes (receipts_ b)) txn txn';
  wr_logs : plain_written kLogs (btree_bytes (logs_ b)) txn txn'
}.

Lemma write_state_spec b (txn : Txn T) : buffer_ok b -> database_ok txn ->
  exists txn', write_to_state_table b txn = Ok txn' /\ state_written b txn txn' /\ other_tables kPlainState txn txn'.
Proof.
  intros Hb Hdb. destruct (dk_state txn Hdb) as (t & Ht & Hok).
  destruct (slot_updates_spec (state_updates b) t Hok (state_updates_fit b Hb) (state_updates_functional b))
    as (t' & E & Hok' & Hin & Hout).
  exists (with_table kPlainState t' txn). split; [|split; [|apply other_tables_with]].
  - rewrite (write_state_updates b txn t Ht). change run_update with (fun u : slot * option bytes => slot_update (T := T) (fst u) (snd u)).
    by rewrite E.
  - exists t, t'. split_and!; try done; [apply table_at_with|]. intros s v Hs. destruct (update_of b s) as [o|] eqn:Eu.
    + apply Hin. by apply elem_of_state_updates.
    + apply Hout; [done|]. intros o Ho%elem_of_state_updates. congruence.
Qed.

(** A table that an operation on another one does not touch. *)
Lemma other_table_at config config' (txn txn' : Txn T) t : other_tables config txn txn' ->
  config_name config' <> config_name config -> table_at config' txn t -> table_at config' txn' t.
Proof. intros Ho Hn Ht. unfold table_at. by rewrite Ho. Qed.

(** Follow a table through the puts into the others. *)
Ltac through_others := repeat match goal with
  | Ho : other_tables _ ?t1 ?t2 |- context [txn_tables ?t2 !! _] => rewrite Ho by discriminate; clear Ho
  end; reflexivity.

Lemma put_step_plain config l (txn0 txn : Txn T) t :
  table_at config txn0 t -> txn_tables txn !! config_name config = txn_tables txn0 !! config_name config ->
  tb_dupsort t = false -> Forall (fun e => key_fits (fst e)) l -> functional_rows l ->
  exists txn', put_all config l txn = Ok txn' /\ plain_written config l txn txn' /\ other_tables config txn txn'.
Proof. intros Ht E. apply put_all_plain. unfold table_at. by rewrite E. Qed.

Lemma put_step_dup config l (txn0 txn : Txn T) t :
  table_at config txn0 t -> txn_tables txn !! config_name config = txn_tables txn0 !! config_name config ->
  tb_dupsort t = true -> Forall (fun e => key_fits (fst e) /\ key_fits (snd e)) l ->
  exists txn', put_all config l txn = Ok txn' /\ dup_written config l txn txn' /\ other_tables config txn txn'.
Proof. intros Ht E. apply put_all_dup. unfold table_at. by rewrite E. Qed.

Lemma incarnation_rows_ok b : buffer_ok b ->
  Forall (fun e => key_fits (fst e)) (incarnation_rows b) /\ functional_rows (incarnation_rows b).
Proof.
  intros Hb. split.
  - apply Forall_forall. intros [k d] (i & Hi & ->)%elem_of_incarnation_rows. by apply address_fits, (bo_incarnations b Hb k i).
  - intros k d d' (i & Hi & ->)%elem_of_incarnation_rows (i' & Hi' & ->)%elem_of_incarnation_rows. congruence.
Qed.

Lemma code_hash_rows_fit b : buffer_ok b -> Forall (fun e => key_fits (fst e)) (btree_bytes (storage_prefix_to_code_hash_ b)).
Proof.
  intros Hb. apply btree_keys. intros k v Hv. destruct (bo_code_hash b Hb k v Hv) as (a & i & -> & Ha & _).
  unfold key_fits. rewrite length_storage_prefix by done. unfold kStoragePrefixLength, kAddressLength, kIncarnationLength. lia.
Qed.

Lemma write_to_db_spec b (txn : Txn T) : buffer_ok b -> database_ok txn ->
  exists txn', write_to_db b (Some txn) = Ok (Some txn') /\ written b txn txn'.
Proof.
  intros Hb Hdb. destruct (write_state_spec b txn Hb Hdb) as (x1 & E1 & W1 & O1).
  destruct (dk_incarnations txn Hdb) as (t2 & T2 & D2), (dk_code txn Hdb) as (t3 & T3 & D3),
    (dk_code_hash txn Hdb) as (t4 & T4 & D4), (dk_account_changes txn Hdb) as (t5 & T5 & D5),
    (dk_storage_changes txn Hdb) as (t6 & T6 & D6), (dk_receipts txn Hdb) as (t7 & T7 & D7), (dk_logs txn Hdb) as (t8 & T8 & D8).
  destruct (incarnation_rows_ok b Hb) as [F2 G2].
  destruct (put_step_plain kIncarnationMap (incarnation_rows b) txn x1 t2 T2 ltac:(through_others) D2 F2 G2) as (x2 & E2 & W2 & O2).
  destruct (put_step_plain kCode (btree_bytes (hash_to_code_ b)) txn x2 t3 T3 ltac:(through_others) D3) as (x3 & E3 & W3 & O3);
    [apply btree_keys; intros k v Hv; by apply hash_fits, (bo_code b Hb k v)|apply btree_functional|].
  destruct (put_step_plain kPlainContractCode (btree_bytes (storage_prefix_to_code_hash_ b)) txn x3 t4 T4 ltac:(through_others) D4)
    as (x4 & E4 & W4 & O4); [by apply code_hash_rows_fit|apply btree_functional|].
  destruct (put_step_dup kPlainAccountChangeSet (account_change_rows b) txn x4 t5 T5 ltac:(through_others) D5 (account_change_rows_fit b Hb))
    as (x5 & E5 & W5 & O5).
  destruct (put_step_dup kPlainStorageChangeSet (storage_change_rows b) txn x5 t6 T6 ltac:(through_others) D6 (storage_change_rows_fit b Hb))
    as (x6 & E6 & W6 & O6).
  destruct (put_step_plain kBlockReceipts (btree_bytes (receipts_ b)) txn x6 t7 T7 ltac:(through_others) D7) as (x7 & E7 & W7 & O7);
    [apply btree_keys; by apply Hb|apply btree_functional|].
  destruct (put_step_plain kLogs (btree_bytes (logs_ b)) txn x7 t8 T8 ltac:(through_others) D8) as (x8 & E8 & W8 & O8);
    [apply btree_keys; by apply Hb|apply btree_functional|].
  exists x8. split.
  - unfold write_to_db. rewrite E1. cbn [result_bind]. change (map _ (btree_bytes (incarnations_ b))) with (incarnation_rows b).
    rewrite E2. cbn [result_bind]. rewrite E3. cbn [result_bind]. rewrite E4. cbn [result_bind]. rewrite E5. cbn [result_bind].
    rewrite E6. cbn [result_bind]. rewrite E7. cbn [result_bind]. by rewrite E8.
  - split.
    + destruct W1 as (t & t' & K1 & K2 & K3 & K4 & K5). exists t, t'. split_and!; try done.
      unfold table_at in *. rewrite <- K3. through_others.
    + eapply plain_written_frame; [exact W2|through_others|through_others].
    + eapply plain_written_frame; [exact W3|through_others|through_others].
    + eapply plain_written_frame; [exact W4|through_others|through_others].
    + eapply dup_written_frame; [exact W5|through_others|through_others].
    + eapply dup_written_frame; [exact W6|through_others|through_others].
    + eapply plain_written_frame; [exact W7|through_others|through_others].
    + eapply plain_written_frame; [exact W8|through_others|through_others].
Qed.

(** * Reading what was written *)

Lemma written_database_ok b (txn txn' : Txn T) : written b txn txn' -> database_ok txn'.
Proof.
  intros [(t1 & t1' & _ & _ & A1 & B1 & _) (t2 & t2' & _ & _ & A2 & B2 & _) (t3 & t3' & _ & _ & A3 & B3 & _)
    (t4 & t4' & _ & _ & A4 & B4 & _) (t5 & t5' & _ & _ & A5 & B5 & _) (t6 & t6' & _ & _ & A6 & B6 & _)
    (t7 & t7' & _ & _ & A7 & B7 & _) (t8 & t8' & _ & _ & A8 & B8 & _)].
  split; eauto.
Qed.

Definition get_sub_of (config : TableConfig) (txn : Txn T) (k sub : bytes) : result DbError (option bytes) :=
  try t := open_table config txn in table_get_sub t k sub.

Lemma state_account (txn : Txn T) t a : table_at kPlainState txn t -> state_table_ok t -> is_address a ->
  exists o, get_of kPlainState txn a = Ok o /\ forall v, o = Some v <-> holds t (SAccount a) v.
Proof.
  intros Ht Hok Ha. unfold get_of. rewrite (open_table_spec _ _ _ Ht). cbn [result_bind].
  apply table_get_spec; [by apply address_nonempty|by apply account_row_unique].
Qed.

Lemma state_word (txn : Txn T) t a i l : table_at kPlainState txn t -> state_table_ok t -> word_place a i l ->
  exists o, get_sub_of kPlainState txn (storage_prefix a i) l = Ok o /\ forall v, o = Some v <-> holds t (SWord a i l) v.
Proof.
  intros Ht Hok Hp. pose proof Hp as (Ha & Hi & Hl). unfold get_sub_of. rewrite (open_table_spec _ _ _ Ht). cbn [result_bind].
  apply table_get_sub_spec; [by apply Hok|by apply storage_prefix_nonempty|by apply location_nonempty|by apply word_row_unique].
Qed.

Lemma option_by_values {A} (o : option A) (o' : option A) : (forall v, o = Some v <-> o' = Some v) -> o = o'.
Proof. intros Ho. apply option_eq. exact Ho. Qed.

(** The value of a slot after the writing. *)
Lemma written_account b (txn txn' : Txn T) a : state_written b txn txn' -> is_address a ->
  get_of kPlainState txn' a
  = match accounts_ b !! a with Some o => Ok (option_map stored_account o) | None => get_of kPlainState txn a end.
Proof.
  intros (t & t' & Ht & Hok & Ht' & Hok' & Hh) Ha.
  destruct (state_account txn' t' a Ht' Hok' Ha) as (o' & -> & Ho'). destruct (state_account txn t a Ht Hok Ha) as (o & -> & Ho).
  destruct (accounts_ b !! a) as [x|] eqn:Ea; f_equal; apply option_by_values; intros v; rewrite Ho', (Hh (SAccount a) v Ha);
    cbn [update_of]; rewrite Ea; cbn; [done|by rewrite Ho].
Qed.

Lemma written_word b (txn txn' : Txn T) a i l : state_written b txn txn' -> word_place a i l ->
  get_sub_of kPlainState txn' (storage_prefix a i) l
  = match storage_lookup (storage_ b) a i l with
    | Some w => Ok (word_value w)
    | None => get_sub_of kPlainState txn (storage_prefix a i) l
    end.
Proof.
  intros (t & t' & Ht & Hok & Ht' & Hok' & Hh) Hp.
  destruct (state_word txn' t' a i l Ht' Hok' Hp) as (o' & -> & Ho'). destruct (state_word txn t a i l Ht Hok Hp) as (o & -> & Ho).
  destruct (storage_lookup (storage_ b) a i l) as [x|] eqn:Ea; f_equal; apply option_by_values; intros v;
    rewrite Ho', (Hh (SWord a i l) v Hp); cbn [update_of]; rewrite Ea; cbn; [done|by rewrite Ho].
Qed.

(** The code hashes on record for an account agree with it: the buffer records some only if it writes the account too,
    and for an account that it writes with an incarnation but without code there is none, neither in the buffer nor in
    the tables. *)
Record code_settled (b : DbBuffer) (txn : Txn T) (a : bytes) : Prop := {
  cs_account i h : storage_prefix_to_code_hash_ b !! storage_prefix a i = Some h -> is_Some (accounts_ b !! a);
  cs_no_code acc : accounts_ b !! a = Some (Some acc) -> 0 < incarnation acc -> code_hash acc = kEmptyHash ->
    storage_prefix_to_code_hash_ b !! storage_prefix a (incarnation acc) = None
    /\ get_of kPlainContractCode txn (storage_prefix a (incarnation acc)) = Ok None
}.

Lemma restore_code_hash_eq (txn : Txn T) a acc :
  restore_code_hash txn a acc
  = if (0 <? incarnation acc) && bytes_eqb (code_hash acc) kEmptyHash then
      try hash := get_of kPlainContractCode txn (storage_prefix a (incarnation acc)) in
      Ok (match hash with
          | Some hash => if (length hash =? kHashLength)%nat
                         then mkAccount (nonce acc) (balance acc) hash (incarnation acc) else acc
          | None => acc
          end)
    else Ok acc.
Proof. unfold restore_code_hash, get_of. case_match; [|done]. by destruct (open_table _ _). Qed.

Lemma code_hash_row_missing b (txn txn' : Txn T) p : written b txn txn' -> p <> [] ->
  storage_prefix_to_code_hash_ b !! p = None -> get_of kPlainContractCode txn' p = get_of kPlainContractCode txn p.
Proof.
  intros Hw Hp Hn. apply (plain_written_get _ _ _ _ p (wr_code_hash b txn txn' Hw) Hp). intros d Hd%elem_of_btree_bytes. congruence.
Qed.

Lemma account_of_stored (txn : Txn T) a acc : wf_account acc ->
  (0 < incarnation acc -> code_hash acc = kEmptyHash ->
     get_of kPlainContractCode txn (storage_prefix a (incarnation acc)) = Ok None) ->
  account_of_encoding txn a (Some (stored_account acc)) = Ok (Some acc).
Proof.
  intros Hw Hn. unfold account_of_encoding. pose proof (length_encode_for_storage acc false Hw) as Hlen.
  pose proof (decode_encode_for_storage acc false Hw) as Hdec. unfold stored_account.
  destruct (encode_for_storage acc false) as [|x l]; [cbn in Hlen; lia|]. rewrite Hdec. cbn [rlp_err_handler result_bind].
  rewrite restore_code_hash_eq. destruct (Z.ltb_spec 0 (incarnation acc)) as [Hi|]; [|done]. cbn [andb].
  destruct (bytes_eqb (code_hash acc) kEmptyHash) eqn:E; [|done]. apply bytes_eqb_eq in E. by rewrite Hn.
Qed.

Lemma account_of_encoding_same b (txn txn' : Txn T) a encoded : written b txn txn' -> is_address a ->
  (forall i, storage_prefix_to_code_hash_ b !! storage_prefix a i = None) ->
  account_of_encoding txn' a encoded = account_of_encoding txn a encoded.
Proof.
  intros Hw Ha Hn. unfold account_of_encoding. destruct encoded as [[|x l]|]; [done| |done].
  destruct (rlp_err_handler _) as [acc| |]; [|done..]. cbn [result_bind]. rewrite !restore_code_hash_eq.
  case_match; [|done]. by rewrite (code_hash_row_missing b txn txn' _ Hw (storage_prefix_nonempty _ _ Ha)).
Qed.

(** An account but for its code hash. *)
Definition besides_code (acc : Account) : Z * Z * Z := (nonce acc, balance acc, incarnation acc).
Definition read_besides_code (answer : result DbError (option Account)) : result DbError (option (Z * Z * Z)) :=
  try o := answer in Ok (option_map besides_code o).

Lemma account_of_besides_code (txn : Txn T) a encoded : database_ok txn -> is_address a ->
  read_besides_code (account_of_encoding txn a encoded)
  = match encoded with
    | None | Some [] => Ok None
    | Some encoded => try acc := rlp_err_handler (decode_account_from_storage encoded) in Ok (Some (besides_code acc))
    end.
Proof.
  intros Hdb Ha. unfold account_of_encoding, read_besides_code. destruct encoded as [[|x l]|]; [done| |done].
  destruct (rlp_err_handler _) as [acc| |]; [|done..]. cbn [result_bind]. rewrite restore_code_hash_eq. case_match; [|done].
  destruct (dk_code_hash txn Hdb) as (t & Ht & Hd). unfold get_of. rewrite (open_table_spec _ _ _ Ht). cbn [result_bind].
  destruct (table_get_spec t _ (storage_prefix_nonempty a (incarnation acc) Ha) (plain_at_most_one t _ Hd)) as (o & -> & _).
  cbn [result_bind option_map]. destruct o as [h|]; [|done]. by case_match.
Qed.

Lemma storage_word_zeroless w : is_hash w ->
  match word_value w with None => Ok zero_bytes32 | Some v => storage_word v end = Ok w.
Proof.
  intros Hw. unfold word_value. destruct (is_zero w) eqn:Ez.
  - apply is_zero_spec in Ez. rewrite Hw in Ez. by rewrite Ez.
  - unfold storage_word. pose proof (zeroless_view_length w) as Hl. rewrite Hw in Hl.
    destruct (Nat.ltb_spec kHashLength (length (zeroless_view w))); [lia|]. f_equal. rewrite <- Hw. apply zeroless_padded.
Qed.

End Database.

(** * Properties *)

Section Theorems.
Context {T : Type} `{LmdbLaws T} {R : Type} `{Roaring R} `{CborEncoder}.

Lemma read_account_now (txn : Txn T) a :
  AccessLayer.read_account txn a None = try o := get_of kPlainState txn a in account_of_encoding txn a o.
Proof. unfold AccessLayer.read_account, get_of. cbn [result_bind]. by destruct (open_table _ _). Qed.

Lemma read_storage_now (txn : Txn T) a i l :
  AccessLayer.read_storage txn a i l None
  = try v := get_sub_of kPlainState txn (storage_prefix a i) l in
    match v with None => Ok zero_bytes32 | Some v => storage_word v end.
Proof. unfold AccessLayer.read_storage, get_sub_of. cbn [result_bind]. by destruct (open_table _ _). Qed.

Lemma written_read_account b (txn txn' : Txn T) a : buffer_ok b -> written b txn txn' -> code_settled b txn a -> is_address a ->
  AccessLayer.read_account txn' a None = db_read_account b (Some txn) None a.
Proof.
  intros Hb Hw Hcs Ha. unfold db_read_account. rewrite !read_account_now, (written_account b txn txn' a (wr_state _ _ _ Hw) Ha).
  destruct (accounts_ b !! a) as [o|] eqn:Ea.
  - cbn [result_bind]. destruct o as [acc|]; [|done]. cbn [option_map]. apply account_of_stored.
    + by apply (bo_accounts b Hb a _ Ea).
    + intros Hi Hc. destruct (cs_no_code b txn a Hcs acc Ea Hi Hc) as [Hn Hg].
      by rewrite (code_hash_row_missing b txn txn' _ Hw (storage_prefix_nonempty _ _ Ha) Hn).
  - destruct (get_of kPlainState txn a) as [o| |]; cbn [result_bind]; [|done..].
    apply (account_of_encoding_same b txn txn' a o Hw Ha). intros i.
    destruct (storage_prefix_to_code_hash_ b !! storage_prefix a i) as [h|] eqn:Ep; [|done].
    apply (cs_account b txn a Hcs) in Ep as [o' Ho']. congruence.
Qed.

Lemma written_read_besides_code b (txn txn' : Txn T) a : buffer_ok b -> written b txn txn' -> database_ok txn -> is_address a ->
  read_besides_code (AccessLayer.read_account txn' a None) = read_besides_code (db_read_account b (Some txn) None a).
Proof.
  intros Hb Hw Hdb Ha. unfold db_read_account. pose proof (written_database_ok b txn txn' Hw) as Hdb'.
  rewrite !read_account_now, (written_account b txn txn' a (wr_state _ _ _ Hw) Ha). destruct (accounts_ b !! a) as [o|] eqn:Ea.
  - cbn [result_bind]. rewrite account_of_besides_code by done. destruct o as [acc|]; [|done]. cbn [option_map]. unfold stored_account.
    assert (wf_account acc) as Hwf by by apply (bo_accounts b Hb a _ Ea).
    pose proof (length_encode_for_storage acc false Hwf) as Hlen. pose proof (decode_encode_for_storage acc false Hwf) as Hdec.
    destruct (encode_for_storage acc false) as [|x l]; [cbn in Hlen; lia|]. by rewrite Hdec.
  - destruct (get_of kPlainState txn a) as [o| |]; [|done..]. cbn [result_bind]. by rewrite !account_of_besides_code.
Qed.

Lemma written_read_storage b (txn txn' : Txn T) a i l : buffer_ok b -> written b txn txn' -> word_place a i l ->
  AccessLayer.read_storage txn' a i l None = db_read_storage b (Some txn) None a i l.
Proof.
  intros Hb Hw Hp. unfold db_read_storage. rewrite !read_storage_now, (written_word b txn txn' a i l (wr_state _ _ _ Hw) Hp).
  destruct (storage_lookup (storage_ b) a i l) as [w|] eqn:Ew; [|done]. cbn [result_bind].
  by apply storage_word_zeroless, (bo_storage b Hb a i l).
Qed.

Lemma written_read_code b (txn txn' : Txn T) h : written b txn txn' -> is_hash h ->
  db_read_code new_db_buffer (Some txn') h = db_read_code b (Some txn) h.
Proof.
  intros Hw Hh. unfold db_read_code. cbn [hash_to_code_ new_db_buffer]. rewrite lookup_empty.
  destruct (plain_written_get _ _ _ _ h (wr_code b txn txn' Hw) (location_nonempty h Hh)) as [Hin Hout].
  change (AccessLayer.read_code txn' h) with (get_of kCode txn' h). change (AccessLayer.read_code txn h) with (get_of kCode txn h).
  destruct (hash_to_code_ b !! h) as [c|] eqn:Ec.
  - by rewrite (Hin c) by by apply elem_of_btree_bytes.
  - rewrite Hout; [done|]. intros d Hd%elem_of_btree_bytes. congruence.
Qed.

Lemma written_previous_incarnation b (txn txn' : Txn T) a : buffer_ok b -> written b txn txn' -> is_address a ->
  db_previous_incarnation new_db_buffer (Some txn') None a = db_previous_incarnation b (Some txn) None a.
Proof.
  intros Hb Hw Ha. unfold db_previous_incarnation. cbn [incarnations_ new_db_buffer]. rewrite lookup_empty.
  destruct (plain_written_get _ _ _ _ a (wr_incarnations b txn txn' Hw) (address_nonempty a Ha)) as [Hin Hout].
  assert (forall x : Txn T, read_previous_incarnation x a None
    = try val := get_of kIncarnationMap x a in
      match val with None => Ok None | Some val => if negb (length val =? 8)%nat then Undef else Ok (Some (load_big_u64 val)) end) as Er.
  { intros x. unfold read_previous_incarnation, get_of. by destruct (open_table _ _). }
  rewrite !Er. destruct (incarnations_ b !! a) as [i|] eqn:Ei.
  - rewrite (Hin (to_be 8 i)) by (apply elem_of_incarnation_rows; by exists i). cbn [result_bind]. rewrite length_to_be.
    cbn [Nat.eqb negb result_bind default]. rewrite load_big_u64_to_be; [done|]. by apply (bo_incarnations b Hb a).
  - rewrite Hout; [done|]. intros d (i & Hi & _)%elem_of_incarnation_rows. congruence.
Qed.

(** C13: Whatever blocks a buffer has gathered, writing it to the database succeeds, and a new buffer over the
    transaction answers every question about the state as the old one did: words of storage, code, previous incarnations,
    and accounts (their absence too) with nonce, balance and incarnation. It answers the code hash of an account too if
    those on record agree with the account ([code_settled]): the table of code hashes is only ever added to, so an
    account that is written without code in an incarnation that had code is read with its old code hash
    ([old_code_hash_read]). The tables keep one row per account and word. *)
Theorem write_to_db_reads (ops : list db_op) (txn : Txn T) :
  Forall wf_op ops -> database_ok txn ->
  let b := foldl apply_op new_db_buffer ops in
  exists txn', write_to_db b (Some txn) = Ok (Some txn') /\ database_ok txn'
    /\ forall a i l h, word_place a i l -> is_hash h ->
         (code_settled b txn a -> db_read_account new_db_buffer (Some txn') None a = db_read_account b (Some txn) None a)
         /\ read_besides_code (db_read_account new_db_buffer (Some txn') None a) = read_besides_code (db_read_account b (Some txn) None a)
         /\ db_read_storage new_db_buffer (Some txn') None a i l = db_read_storage b (Some txn) None a i l
         /\ db_read_code new_db_buffer (Some txn') h = db_read_code b (Some txn) h
         /\ db_previous_incarnation new_db_buffer (Some txn') None a = db_previous_incarnation b (Some txn) None a.
Proof.
  intros Hops Hdb b. assert (buffer_ok b) as Hb by (apply apply_ops_ok; [apply new_db_buffer_ok|done]).
  destruct (write_to_db_spec b txn Hb Hdb) as (txn' & E & Hw). exists txn'. split; [done|].
  split; [by apply (written_database_ok b txn)|]. intros a i l h (Ha & Hi & Hl) Hh.
  assert (db_read_account new_db_buffer (Some txn') None a = AccessLayer.read_account txn' a None) as ->
    by (unfold db_read_account; cbn [accounts_ new_db_buffer]; by rewrite lookup_empty).
  split_and!.
  - intros Hcs. by apply written_read_account.
  - by apply written_read_besides_code.
  - unfold db_read_storage at 1. cbn [storage_ new_db_buffer]. unfold storage_lookup at 1. rewrite lookup_empty. by apply written_read_storage.
  - by apply written_read_code.
  - by apply written_previous_incarnation.
Qed.

End Theorems.

(** * A database and a few blocks *)

#[local] Instance demo_cbor : CborEncoder := {| cbor_output := fun calls => [zlen calls mod 256] |}.

Definition demo_address : bytes := zero_bytes 19 ++ [0xaa].
Definition demo_code_hash : bytes := replicate 32 7.
Definition demo_contract : Account := mkAccount 1 500 demo_code_hash 1.

(** A contract is created with a word of storage, and another account is deleted. *)
Definition demo_ops : list db_op :=
  [OpBegin 1;
   OpAccount demo_address None (Some demo_contract);
   OpCode demo_address 1 demo_code_hash [0x60; 0x00];
   OpStorage demo_address 1 (zero_bytes 32) zero_bytes32 (zero_bytes 31 ++ [9]);
   OpReceipts 1 [];
   OpBegin 2;
   OpAccount (zero_bytes 20) (Some (mkAccount 3 4 kEmptyHash 2)) None].

#[local] Notation demo_buffer := (foldl apply_op new_db_buffer demo_ops).

Lemma demo_accounts : accounts_ demo_buffer = <[zero_bytes 20 := None]> (<[demo_address := Some demo_contract]> ∅).
Proof. reflexivity. Qed.

Lemma demo_code_hashes : storage_prefix_to_code_hash_ demo_buffer = <[storage_prefix demo_address 1 := demo_code_hash]> ∅.
Proof. reflexivity. Qed.

Lemma demo_ops_wf : Forall wf_op demo_ops.
Proof.
  repeat apply Forall_cons_2; try apply Forall_nil_2; cbn [wf_op]; try split_and!; try done; try (unfold wf_u64; lia);
    try reflexivity; intros x [= <-]; split; cbn; try (unfold wf_u64, wf_u256; lia); split; (bytes_dec || reflexivity).
Qed.

Lemma ref_database_ok : database_ok ref_database.
Proof.
  split; try (eexists (RefPlain ∅); split; reflexivity); try (eexists (RefDup ∅); split; reflexivity).
  exists (RefDup ∅). split; [reflexivity|]. split; [done| |]; by intros *.
Qed.

Lemma demo_codes_settled : code_settled demo_buffer ref_database demo_address.
Proof.
  split.
  - intros i h _. rewrite demo_accounts. exists (Some demo_contract). vm_compute. reflexivity.
  - rewrite demo_accounts. intros acc [[E _]|[[_ E]|Hx]%insert_cases]%insert_cases; [discriminate E| |by rewrite lookup_empty in Hx].
    injection E as ->. intros _ E. vm_compute in E. discriminate.
Qed.

(** A contract is created, and in the next block the account is there without code, in the same incarnation: the buffer
    answers the empty code hash, and behind its writing the old one is read. *)
Definition code_dropped_ops : list db_op :=
  [OpBegin 1; OpAccount demo_address None (Some demo_contract); OpCode demo_address 1 demo_code_hash [0x60; 0x00];
   OpBegin 2; OpAccount demo_address (Some demo_contract) (Some (mkAccount 0 500 kEmptyHash 1))].

Example old_code_hash_read :
  let b := foldl apply_op new_db_buffer code_dropped_ops in
  Forall wf_op code_dropped_ops
  /\ db_read_account (T := RefTable) (R := gset Z) b (Some ref_database) None demo_address = Ok (Some (mkAccount 0 500 kEmptyHash 1))
  /\ exists txn', write_to_db b (Some ref_database) = Ok (Some txn')
     /\ db_read_account (R := gset Z) new_db_buffer (Some txn') None demo_address = Ok (Some (mkAccount 0 500 demo_code_hash 1)).
Proof.
  split; [|split; [vm_compute; reflexivity|]].
  - repeat apply Forall_cons_2; try apply Forall_nil_2; cbn [wf_op]; try split_and!; try done; try (unfold wf_u64; lia);
      try reflexivity; intros x [= <-]; split; cbn; try (unfold wf_u64, wf_u256; lia); split; (bytes_dec || reflexivity).
  - eexists. split; vm_compute; reflexivity.
Qed.

Lemma write_to_db_reads_witness :
  exists txn', write_to_db (T := RefTable) demo_buffer (Some ref_database) = Ok (Some txn')
    /\ db_read_account (R := gset Z) new_db_buffer (Some txn') None demo_address = Ok (Some demo_contract)
    /\ read_besides_code (db_read_account (R := gset Z) new_db_buffer (Some txn') None (zero_bytes 20)) = Ok None
    /\ db_read_storage (R := gset Z) new_db_buffer (Some txn') None demo_address 1 (zero_bytes 32) = Ok (zero_bytes 31 ++ [9])
    /\ db_previous_incarnation new_db_buffer (Some txn') None (zero_bytes 20) = Ok 2.
Proof.
  destruct (write_to_db_reads (T := RefTable) (R := gset Z) demo_ops ref_database demo_ops_wf ref_database_ok)
    as (txn' & E & _ & Hr). exists txn'. split; [exact E|].
  assert (word_place demo_address 1 (zero_bytes 32)) as Hp by (split; [reflexivity|split; [unfold wf_u64; lia|reflexivity]]).
  assert (word_place (zero_bytes 20) 1 (zero_bytes 32)) as Hp0 by (split; [reflexivity|split; [unfold wf_u64; lia|reflexivity]]).
  destruct (Hr _ _ _ (zero_bytes 32) Hp eq_refl) as (R1 & _ & R2 & _). destruct (Hr _ _ _ (zero_bytes 32) Hp0 eq_refl) as (_ & R3 & _ & _ & R4).
  split; [etransitivity; [exact (R1 demo_codes_settled)|vm_compute; reflexivity]|].
  split; [etransitivity; [exact R3|vm_compute; reflexivity]|].
  split; [etransitivity; [exact R2|vm_compute; reflexivity]|].
  etransitivity; [exact R4|vm_compute; reflexivity].
Defined.
