(* ===== verification/History.v ===== *)
(** * History: the change sets of the database and the state before a block

    A change set holds, for each account and word that a block changed, the value before the block; an index of
    bitmaps tells which blocks changed it. What was written is read back, and the state before any block is found
    from the first change at or after it. *)

From Stdlib Require Import Sorted.
From stdpp Require Import gmap sets.
From S2P Require Import Prelude Util Rlp Account Transaction Block MemoryBuffer Bitmap Lmdb DbUtil AccessLayer Cbor DbBuffer DbBufferCorrect.
Local Open Scope Z_scope.
Local Open Scope silk_scope.
#[local] Arguments to_be : simpl never.

(** * Reading the change sets *)

Section ChangeSets.
Context {T : Type} `{LmdbLaws T}.
Implicit Types t : T.

Definition account_change_step (changes : AccountChanges) (row : item) : AccountChanges :=
  <[take kAddressLength (snd row) := drop kAddressLength (snd row)]> changes.

Lemma account_changes_loop_walk t (l : list item) : forall fuel rc changes,
  walks (next_dup t) rc l -> (length l <= fuel)%nat -> Forall (fun x => (kAddressLength <= length (snd x))%nat) l ->
  account_changes_loop fuel t rc changes = Ok (foldl account_change_step changes l).
Proof.
  induction l as [|x l IH]; intros fuel rc changes Hw Hf Hl.
  - cbn in Hw. subst rc. by destruct fuel.
  - cbn in Hw. destruct Hw as [-> Hw]. inversion Hl as [|? ? Hx Hl']; subst. cbn [length] in Hf.
    destruct fuel as [|fuel]; [lia|]. cbn [account_changes_loop err_handler result_bind].
    destruct (Nat.ltb_spec (length (snd x)) kAddressLength); [lia|]. apply IH; [done|lia|done].
Qed.

(** What a fold of insertions has: the value of the row with the key, if keys are of one row each. *)
Lemma fold_account_changes (l : list item) : forall m a v,
  (forall x y, x ∈ l -> y ∈ l -> take kAddressLength (snd x) = take kAddressLength (snd y) -> snd x = snd y) ->
  foldl account_change_step m l !! a = Some v
  <-> (exists x, x ∈ l /\ take kAddressLength (snd x) = a /\ drop kAddressLength (snd x) = v)
      \/ m !! a = Some v /\ forall x, x ∈ l -> take kAddressLength (snd x) <> a.
Proof.
  induction l as [|y l IH]; intros m a v Hu; cbn [foldl].
  - split; [intros Hm; right; split; [done|]; by intros x ?%not_elem_of_nil|]. by intros [(x & ?%not_elem_of_nil & _)|[Hm _]].
  - rewrite IH by (intros x z Hx Hz; apply Hu; by right). unfold account_change_step. setoid_rewrite elem_of_cons. split.
    + intros [(x & Hx & Hxa & Hxv)|[Hm Hn]]; [left; exists x; split; [by right|done]|].
      apply insert_cases in Hm as Hc. destruct Hc as [[-> ->]|Hm'].
      * left. exists y. split; [by left|done].
      * destruct (decide (take kAddressLength (snd y) = a)) as [Ea|Ha].
        -- left. exists y. split; [by left|]. split; [done|]. subst a. rewrite lookup_insert_eq in Hm. congruence.
        -- right. split; [done|]. intros x [->|Hx]; [done|by apply Hn].
    + intros [(x & [->|Hx] & Hxa & Hxv)|[Hm Hn]].
      * destruct (decide (a ∈ map (fun x => take kAddressLength (snd x)) l)) as [Hin|Hnin].
        -- left. apply list_elem_of_fmap in Hin as (z & Ez & Hz). exists z. split; [done|]. split; [done|].
           rewrite (Hu z y); [done|by right|by left|congruence].
        -- right. subst a v. rewrite lookup_insert_eq. split; [done|]. intros z Hz E. apply Hnin. rewrite <- E.
           by apply (list_elem_of_fmap_2 (fun x : item => take kAddressLength (snd x))).
      * left. by exists x.
      * right. rewrite lookup_insert_ne by (apply Hn; by left). split; [done|]. intros x Hx. apply Hn. by right.
Qed.

(** The rows of a block in the account change sets: an address and a value, one row per address. *)
Record account_rows_ok t (n : Z) : Prop := {
  ar_shape x : x ∈ tb_items t -> fst x = block_key n -> (kAddressLength <= length (snd x))%nat;
  ar_unique a v v' : is_address a -> (block_key n, a ++ v) ∈ tb_items t -> (block_key n, a ++ v') ∈ tb_items t -> v = v'
}.

Lemma block_key_nonempty n : block_key n <> [].
Proof. apply key_fits_nonempty, block_key_fits. Qed.

Lemma read_account_changes_spec (txn : Txn T) t n :
  table_at kPlainAccountChangeSet txn t -> tb_dupsort t = true -> account_rows_ok t n ->
  exists m, read_account_changes txn n = Ok m
    /\ forall a v, m !! a = Some v <-> is_address a /\ (block_key n, a ++ v) ∈ tb_items t.
Proof.
  intros Ht Hd Hok. destruct (walk_key t (block_key n) [] Hd (block_key_nonempty n)) as (l & Hw & Hin & _ & Hlen).
  assert (forall x, x ∈ l -> (kAddressLength <= length (snd x))%nat) as Hshape by (intros x [Hx Ex]%Hin; by apply (ar_shape t n Hok)).
  exists (foldl account_change_step ∅ l). split.
  - unfold read_account_changes. rewrite (open_table_spec _ _ _ Ht). cbn [result_bind].
    apply account_changes_loop_walk; [done|done|]. by apply Forall_forall.
  - assert (forall x, x ∈ l -> x = (block_key n, take kAddressLength (snd x) ++ drop kAddressLength (snd x)) /\ x ∈ tb_items t
              /\ is_address (take kAddressLength (snd x))) as Hrow.
    { intros [k d] Hx. specialize (Hshape _ Hx). apply Hin in Hx as [Hx Ex]. cbn in *. subst k. rewrite take_drop.
      split; [done|]. split; [done|]. unfold is_address, kAddressLength in *. rewrite length_take. cbn in Hshape. lia. }
    intros a v. rewrite fold_account_changes.
    + rewrite lookup_empty. split.
      * intros [(x & Hx & <- & <-)|[? _]]; [|done]. destruct (Hrow x Hx) as (Ex & Hi & Ha). split; [done|]. by rewrite <- Ex.
      * intros [Ha Hx]. left. exists (block_key n, a ++ v). split; [by apply Hin|]. cbn.
        split; [by apply take_app_length'|by apply drop_app_length'].
    + intros x y Hx Hy E. destruct (Hrow x Hx) as (Ex & Hix & Ha), (Hrow y Hy) as (Ey & Hiy & _).
      rewrite Ex, Ey. cbn [snd]. rewrite E. f_equal. rewrite Ex in Hix. rewrite Ey, <- E in Hiy. by apply (ar_unique t n Hok _ _ _ Ha).
Qed.

(** ** Storage *)

Definition row_address (x : item) : bytes := take kAddressLength (drop 8 (fst x)).
Definition row_incarnation (x : item) : Z := load_big_u64 (drop kAddressLength (drop 8 (fst x))).

Definition storage_change_step (changes : StorageChanges) (row : item) : StorageChanges :=
  storage_alter (insert (take kHashLength (snd row)) (drop kHashLength (snd row))) (row_address row) (row_incarnation row) changes.

(** The rows before the first one with another block. *)
Fixpoint take_rows (prefix : bytes) (l : list item) : list item :=
  match l with
  | [] => []
  | x :: l => if has_prefix (fst x) prefix then x :: take_rows prefix l else []
  end.

Definition storage_row_shape (n : Z) (x : item) : Prop :=
  length (drop 8 (fst x)) = kStoragePrefixLength /\ (kHashLength <= length (snd x))%nat.

Lemma storage_changes_loop_walk t n (l : list item) : forall fuel rc changes,
  walks (next_row t) rc l -> (length l <= fuel)%nat ->
  Forall (fun x => has_prefix (fst x) (block_key n) = true -> storage_row_shape n x) l ->
  storage_changes_loop fuel t (block_key n) rc changes = Ok (foldl storage_change_step changes (take_rows (block_key n) l)).
Proof.
  assert (length (block_key n) = 8%nat) as H8 by apply length_to_be.
  induction l as [|[k d] l IH]; intros fuel rc changes Hw Hf Hl.
  - cbn in Hw. subst rc. by destruct fuel.
  - cbn in Hw. destruct Hw as [-> Hw]. inversion Hl as [|? ? Hx Hl']; subst. cbn [length] in Hf.
    destruct fuel as [|fuel]; [lia|]. cbn [storage_changes_loop err_handler result_bind take_rows fst snd] in *.
    destruct (has_prefix k (block_key n)) eqn:Ep; cbn [negb]; [|done]. destruct (Hx eq_refl) as [Hk Hd]. cbn [fst snd] in *.
    rewrite H8, Hk, Nat.eqb_refl. cbn [negb orb]. destruct (Nat.ltb_spec (length d) kHashLength); [lia|].
    assert (length l <= fuel)%nat as Hf' by lia. exact (IH fuel _ (storage_change_step changes (k, d)) Hw Hf' Hl').
Qed.

(** The rows of a block come first among those from its key on. *)
Lemma elem_of_take_rows prefix (l : list item) x :
  StronglySorted item_lt l -> (forall y, y ∈ l -> bytes_ltb (fst y) prefix = false) ->
  x ∈ take_rows prefix l <-> x ∈ l /\ has_prefix (fst x) prefix = true.
Proof.
  induction l as [|y l IH]; intros Hs Hge; cbn [take_rows].
  - split; [by intros ?%not_elem_of_nil|]. by intros [?%not_elem_of_nil _].
  - inversion Hs as [|? ? Hs' Hy]; subst. destruct (has_prefix (fst y) prefix) eqn:Ep.
    + rewrite !elem_of_cons, IH; [|done|intros z Hz; apply Hge; by right]. split; [|tauto].
      intros [->|[? ?]]; [by split; [left|]|split; [by right|done]].
    + split; [by intros ?%not_elem_of_nil|]. intros [[->|Hx]%elem_of_cons Hp]; [congruence|]. exfalso.
      rewrite Forall_forall in Hy. specialize (Hy x Hx). apply has_prefix_exists in Hp as [w Hw].
      destruct (bytes_between prefix w (fst y)) as [w' Hw']; [apply Hge; by left| |by rewrite Hw', has_prefix_app in Ep].
      rewrite <- Hw. unfold item_lt, item_ltb in Hy. destruct (bytes_ltb (fst x) (fst y)) eqn:E; [|done].
      apply orb_true_iff in Hy as [Hy|Hy].
      * by rewrite <- (bytes_ltb_irrefl (fst x)), (bytes_ltb_trans _ (fst y) _).
      * apply andb_true_iff in Hy as [Ey _]. apply bytes_eqb_eq in Ey. by rewrite Ey, bytes_ltb_irrefl in E.
Qed.

Definition row_location (x : item) : bytes := take kHashLength (snd x).
Definition row_place (x : item) : bytes * Z * bytes := (row_address x, row_incarnation x, row_location x).

Lemma fold_storage_changes (l : list item) : forall m a i w v,
  (forall x y, x ∈ l -> y ∈ l -> row_place x = row_place y -> snd x = snd y) ->
  storage_lookup (foldl storage_change_step m l) a i w = Some v
  <-> (exists x, x ∈ l /\ row_place x = (a, i, w) /\ drop kHashLength (snd x) = v)
      \/ storage_lookup m a i w = Some v /\ forall x, x ∈ l -> row_place x <> (a, i, w).
Proof.
  induction l as [|y l IH]; intros m a i w v Hu; cbn [foldl].
  - split; [intros Hm; right; split; [done|]; by intros x ?%not_elem_of_nil|]. by intros [(x & ?%not_elem_of_nil & _)|[Hm _]].
  - rewrite IH by (intros x z Hx Hz; apply Hu; by right). unfold storage_change_step. rewrite storage_lookup_insert.
    setoid_rewrite elem_of_cons.
    assert (row_address y = a /\ row_incarnation y = i /\ take kHashLength (snd y) = w <-> row_place y = (a, i, w)) as Epl.
    { unfold row_place, row_location. split; [by intros (-> & -> & ->)|by intros [= -> -> ->]]. }
    case_decide as Ey; rewrite Epl in Ey.
    + split.
      * intros [(x & Hx & Hxp & Hxv)|[[= <-] Hn]]; left; [exists x; split; [by right|done]|exists y; split; [by left|done]].
      * intros [(x & [->|Hx] & Hxp & Hxv)|[_ Hn]]; [|left; by exists x|by destruct (Hn y); [left|]].
        destruct (decide ((a, i, w) ∈ map row_place l)) as [Hin|Hnin].
        -- left. apply list_elem_of_fmap in Hin as (z & Ez & Hz). exists z. split; [done|]. split; [done|].
           rewrite (Hu z y); [done|by right|by left|congruence].
        -- right. subst v. split; [done|]. intros z Hz E. apply Hnin. rewrite <- E. by apply (list_elem_of_fmap_2 row_place).
    + split.
      * intros [(x & Hx & Hxp & Hxv)|[Hm Hn]]; [left; exists x; split; [by right|done]|right].
        split; [done|]. intros x [->|Hx]; [done|by apply Hn].
      * intros [(x & [->|Hx] & Hxp & Hxv)|[Hm Hn]]; [done|left; by exists x|right]. split; [done|]. intros x Hx. apply Hn. by right.
Qed.

(** The rows of a block in the storage change sets. *)
Record storage_rows_ok t (n : Z) : Prop := {
  sr_shape x : x ∈ tb_items t -> has_prefix (fst x) (block_key n) = true ->
    exists a i l v, word_place a i l /\ x = (storage_change_key n a i, l ++ v);
  sr_unique a i l v v' : word_place a i l -> (storage_change_key n a i, l ++ v) ∈ tb_items t ->
    (storage_change_key n a i, l ++ v') ∈ tb_items t -> v = v'
}.

Lemma row_parts n a i l v : word_place a i l ->
  let x := (storage_change_key n a i, l ++ v) in
  row_place x = (a, i, l) /\ drop kHashLength (snd x) = v /\ storage_row_shape n x.
Proof.
  intros (Ha & Hi & Hl) x.
  assert (drop 8 (fst x) = storage_prefix a i) as Ek by (apply drop_app_length'; by rewrite length_to_be).
  unfold row_place, row_address, row_incarnation, row_location, storage_row_shape. rewrite Ek. cbn [snd x].
  rewrite take_app_length', drop_app_length' by done. split_and!.
  - unfold storage_prefix. rewrite take_app_length', drop_app_length' by done. by rewrite load_big_u64_to_be.
  - done.
  - by apply length_storage_prefix.
  - unfold is_hash in Hl. rewrite length_app. lia.
Qed.

Lemma storage_change_key_prefix n a i : has_prefix (storage_change_key n a i) (block_key n) = true.
Proof. apply has_prefix_app. Qed.

Lemma prefix_not_below k p : has_prefix k p = true -> bytes_ltb k p = false.
Proof. intros [w ->]%has_prefix_exists. apply bytes_ltb_prefix. Qed.

Lemma not_below_up p (x y : item) : bytes_ltb (fst x) p = false -> item_ltb x y = true -> bytes_ltb (fst y) p = false.
Proof.
  intros Hx Hxy. destruct (bytes_ltb (fst y) p) eqn:E; [|done]. unfold item_ltb in Hxy. apply orb_true_iff in Hxy as [Hk|Hk].
  - by rewrite (bytes_ltb_trans _ _ _ Hk E) in Hx.
  - apply andb_true_iff in Hk as [Ek%bytes_eqb_eq _]. congruence.
Qed.

Lemma read_storage_changes_spec (txn : Txn T) t n :
  table_at kPlainStorageChangeSet txn t -> tb_dupsort t = true -> storage_rows_ok t n ->
  exists m, read_storage_changes txn n = Ok m
    /\ forall a i l v, storage_lookup m a i l = Some v
         <-> word_place a i l /\ (storage_change_key n a i, l ++ v) ∈ tb_items t.
Proof.
  intros Ht Hd Hok. set (p := block_key n).
  destruct (walk_from t (mdb_cursor_get t None MDB_SET_RANGE p []) (fun x => negb (bytes_ltb (fst x) p))) as (l & Hw & Hin & Hs & Hlen).
  { intros x y _ _ Hx Hxy. apply negb_true_iff in Hx. apply negb_true_iff. by apply (not_below_up p x). }
  { eapply finds_least_iff; [|exact (get_set_range t None p [] (block_key_nonempty n))]. intros x _. cbn. by rewrite negb_true_iff. }
  assert (forall x, x ∈ take_rows p l <-> x ∈ tb_items t /\ has_prefix (fst x) p = true) as Hrows.
  { intros x. rewrite elem_of_take_rows; [|done|intros y Hy; apply Hin in Hy as [_ Hy]; by apply negb_true_iff].
    rewrite Hin, negb_true_iff. split; [tauto|]. intros [Hx Hp]. split; [split; [done|]|done]. by apply prefix_not_below. }
  exists (foldl storage_change_step ∅ (take_rows p l)). split.
  - unfold read_storage_changes. rewrite (open_table_spec _ _ _ Ht). cbn [result_bind].
    apply (storage_changes_loop_walk t n); [done|done|]. apply Forall_forall. intros x Hx Hp. apply Hin in Hx as [Hx _].
    destruct (sr_shape t n Hok x Hx Hp) as (a & i & w & v & Hpl & ->). by apply row_parts.
  - intros a i w v. rewrite fold_storage_changes.
    + assert (storage_lookup ∅ a i w = None) as -> by (unfold storage_lookup; by rewrite lookup_empty). split.
      * intros [(x & Hx & Hpl & Hv)|[? _]]; [|done]. apply Hrows in Hx as [Hx Hp].
        destruct (sr_shape t n Hok x Hx Hp) as (a' & i' & w' & v' & Hpl' & ->).
        destruct (row_parts n a' i' w' v' Hpl') as (E & Ev & _). rewrite E in Hpl. injection Hpl as -> -> ->.
        split; [done|]. by rewrite <- Hv, Ev.
      * intros [Hpl Hx]. left. exists (storage_change_key n a i, w ++ v). destruct (row_parts n a i w v Hpl) as (E & Ev & _).
        split; [|done]. apply Hrows. split; [done|apply storage_change_key_prefix].
    + intros x y Hx Hy E. apply Hrows in Hx as [Hx Hp], Hy as [Hy Hp'].
      destruct (sr_shape t n Hok x Hx Hp) as (a1 & i1 & w1 & v1 & Hpl1 & ->).
      destruct (sr_shape t n Hok y Hy Hp') as (a2 & i2 & w2 & v2 & Hpl2 & ->).
      destruct (row_parts n a1 i1 w1 v1 Hpl1) as (E1 & _ & _), (row_parts n a2 i2 w2 v2 Hpl2) as (E2 & _ & _).
      rewrite E1, E2 in E. injection E as <- <- <-. cbn [snd]. f_equal. by apply (sr_unique t n Hok a1 i1 w1).
Qed.

End ChangeSets.

(** * The change sets of a block that was written *)

Section Written.
Context {T : Type} `{LmdbLaws T} `{CborEncoder}.

(** No row of the block is in the change sets yet. *)
Definition block_unwritten (txn : Txn T) (n : Z) : Prop :=
  (forall t x, table_at kPlainAccountChangeSet txn t -> x ∈ tb_items t -> fst x <> block_key n)
  /\ (forall t x, table_at kPlainStorageChangeSet txn t -> x ∈ tb_items t -> has_prefix (fst x) (block_key n) = false).

Lemma storage_change_key_block n m a i : wf_u64 n -> wf_u64 m -> has_prefix (storage_change_key m a i) (block_key n) = true -> m = n.
Proof.
  intros Hn Hm [w Hw]%has_prefix_exists. unfold storage_change_key, block_key in Hw.
  apply app_inj_1 in Hw as [E _]; [|by rewrite !length_to_be]. by apply to_be_inj8.
Qed.

Lemma storage_change_key_inj n a i a' i' : is_address a -> is_address a' -> wf_u64 i -> wf_u64 i' ->
  storage_change_key n a i = storage_change_key n a' i' -> a = a' /\ i = i'.
Proof.
  intros Ha Ha' Hi Hi' E. unfold storage_change_key in E. apply app_inv_head in E. apply storage_prefix_inj; [|done..].
  unfold is_address in *. congruence.
Qed.

Lemma written_account_rows b (txn txn' : Txn T) n t' : buffer_ok b -> wf_u64 n -> block_unwritten txn n -> written b txn txn' ->
  table_at kPlainAccountChangeSet txn' t' ->
  forall x, x ∈ tb_items t' /\ fst x = block_key n
    <-> exists a v, default ∅ (account_changes_ b !! n) !! a = Some v /\ x = (block_key n, a ++ v).
Proof.
  intros Hb Hn [Hun _] Hw Ht'. destruct (wr_account_changes b txn txn' Hw) as (t & t2 & Ht & _ & Ht2 & _ & Hi).
  unfold table_at in Ht', Ht2. rewrite Ht' in Ht2. injection Ht2 as <-. intros x. rewrite Hi, elem_of_account_change_rows. split.
  - intros [[(m & mp & a & v & Hm & Hv & ->)|Hx] Ek]; [|by destruct (Hun t x Ht Hx)]. cbn in Ek.
    destruct (bo_account_changes b Hb m mp a v Hm Hv) as (Hwm & _). apply to_be_inj8 in Ek as ->; [|done..].
    exists a, v. by rewrite Hm.
  - intros (a & v & Hv & ->). apply default_entry in Hv as (mp & Hm & Hv). split; [|done]. left. by exists n, mp, a, v.
Qed.

Lemma written_storage_rows b (txn txn' : Txn T) n t' : buffer_ok b -> wf_u64 n -> block_unwritten txn n -> written b txn txn' ->
  table_at kPlainStorageChangeSet txn' t' ->
  forall x, x ∈ tb_items t' /\ has_prefix (fst x) (block_key n) = true
    <-> exists a i l v, storage_lookup (default ∅ (storage_changes_ b !! n)) a i l = Some v
          /\ x = (storage_change_key n a i, l ++ v).
Proof.
  intros Hb Hn [_ Hun] Hw Ht'. destruct (wr_storage_changes b txn txn' Hw) as (t & t2 & Ht & _ & Ht2 & _ & Hi).
  unfold table_at in Ht', Ht2. rewrite Ht' in Ht2. injection Ht2 as <-. intros x. rewrite Hi, elem_of_storage_change_rows. split.
  - intros [[(m & mp & a & i & l & v & Hm & Hv & ->)|Hx] Ek]; [|by rewrite (Hun t x Ht Hx) in Ek]. cbn [fst] in Ek.
    destruct (bo_storage_changes b Hb m mp a i l v Hm Hv) as (Hwm & _). apply storage_change_key_block in Ek as ->; [|done..].
    exists a, i, l, v. by rewrite Hm.
  - intros (a & i & l & v & Hv & ->). split; [|apply storage_change_key_prefix]. left.
    destruct (storage_changes_ b !! n) as [mp|] eqn:Em; cbn in Hv; [by exists n, mp, a, i, l, v|].
    unfold storage_lookup in Hv. by rewrite lookup_empty in Hv.
Qed.

Lemma changes_of_block_wf b n : buffer_ok b ->
  (forall a v, default ∅ (account_changes_ b !! n) !! a = Some v -> is_address a)
  /\ (forall a i l v, storage_lookup (default ∅ (storage_changes_ b !! n)) a i l = Some v -> word_place a i l).
Proof.
  intros Hb. split.
  - intros a v (mp & Hm & Hv)%default_entry. by apply (bo_account_changes b Hb n mp a v).
  - intros a i l v Hv. destruct (storage_changes_ b !! n) as [mp|] eqn:Em; cbn in Hv; [by apply (bo_storage_changes b Hb n mp a i l v)|].
    unfold storage_lookup in Hv. by rewrite lookup_empty in Hv.
Qed.

(** C15: The changes of a block that a buffer has gathered are in the database after the writing: reading its change sets
    gives for every account and word the value that was recorded, and no other entry. *)
Theorem change_sets_written (ops : list db_op) (txn : Txn T) (n : Z) :
  Forall wf_op ops -> database_ok txn -> wf_u64 n -> block_unwritten txn n ->
  let b := foldl apply_op new_db_buffer ops in
  exists txn', write_to_db b (Some txn) = Ok (Some txn')
    /\ read_account_changes txn' n = Ok (default ∅ (account_changes_ b !! n))
    /\ exists m, read_storage_changes txn' n = Ok m
         /\ forall a i l, storage_lookup m a i l = storage_lookup (default ∅ (storage_changes_ b !! n)) a i l.
Proof.
  intros Hops Hdb Hn Hun b. assert (buffer_ok b) as Hb by (apply apply_ops_ok; [apply new_db_buffer_ok|done]).
  destruct (write_to_db_spec b txn Hb Hdb) as (txn' & E & Hw). exists txn'. split; [done|].
  destruct (changes_of_block_wf b n Hb) as [Hwa Hws]. split.
  - destruct (dk_account_changes txn' (written_database_ok b txn txn' Hw)) as (t' & Ht' & Hd').
    pose proof (written_account_rows b txn txn' n t' Hb Hn Hun Hw Ht') as Hrows.
    destruct (read_account_changes_spec txn' t' n Ht' Hd') as (m & -> & Hm).
    { split.
      - intros x Hx Ek. destruct (proj1 (Hrows x)) as (a & v & Hv & ->); [done|]. cbn. rewrite length_app. rewrite (Hwa a v Hv). lia.
      - intros a v v' Ha Hv Hv'. destruct (proj1 (Hrows _) (conj Hv eq_refl)) as (a1 & v1 & K1 & E1), (proj1 (Hrows _) (conj Hv' eq_refl)) as (a2 & v2 & K2 & E2).
        injection E1 as E1. injection E2 as E2. apply app_inj_1 in E1 as [<- <-]; [|by rewrite (Hwa _ _ K1)].
        apply app_inj_1 in E2 as [<- <-]; [|by rewrite (Hwa _ _ K2)]. congruence. }
    f_equal. apply map_eq. intros a. apply option_eq. intros v. rewrite Hm. split.
    + intros [Ha Hx]. destruct (proj1 (Hrows _) (conj Hx eq_refl)) as (a1 & v1 & K1 & E1). injection E1 as E1.
      apply app_inj_1 in E1 as [<- <-]; [done|by rewrite (Hwa _ _ K1)].
    + intros Hv. split; [by apply (Hwa a v)|]. apply Hrows. by exists a, v.
  - destruct (dk_storage_changes txn' (written_database_ok b txn txn' Hw)) as (t' & Ht' & Hd').
    pose proof (written_storage_rows b txn txn' n t' Hb Hn Hun Hw Ht') as Hrows.
    assert (forall a i l v, word_place a i l -> (storage_change_key n a i, l ++ v) ∈ tb_items t' ->
              storage_lookup (default ∅ (storage_changes_ b !! n)) a i l = Some v) as Hin.
    { intros a i l v (Ha & Hi & Hl) Hx. destruct (proj1 (Hrows _) (conj Hx (storage_change_key_prefix n a i))) as (a1 & i1 & l1 & v1 & K1 & E1).
      destruct (Hws a1 i1 l1 v1 K1) as (Ha1 & Hi1 & Hl1). apply pair_equal_spec in E1 as [Ek Ed]. apply storage_change_key_inj in Ek as [<- <-]; [|done..].
      apply app_inj_1 in Ed as [<- <-]; [done|]. unfold is_hash in *. congruence. }
    destruct (read_storage_changes_spec txn' t' n Ht' Hd') as (m & -> & Hm).
    { split.
      - intros x Hx Hp. destruct (proj1 (Hrows x)) as (a & i & l & v & Hv & ->); [done|]. exists a, i, l, v. split; [by apply (Hws a i l v)|done].
      - intros a i l v v' Hpl Hv%Hin Hv'%Hin; [congruence|done..]. }
    exists m. split; [done|]. intros a i l. apply option_eq. intros v. rewrite Hm. split.
    + intros [Hpl Hx]. by apply Hin.
    + intros Hv. split; [by apply (Hws a i l v)|]. apply Hrows. by exists a, i, l, v.
Qed.

End Written.

(** * Reading the state before a block *)

Section TimeTravel.
Context {T : Type} `{LmdbLaws T} {R : Type} `{RoaringLaws R}.
Implicit Types t : T.

(** The blocks [changes] in which something changed, cut into chunks: the rows with a prefix, each with the greatest
    of its numbers behind the prefix, or the greatest of all in the last one. *)
Record index_ok t (prefix : bytes) (changes : Z -> Prop) : Prop := {
  ix_shape x : x ∈ tb_items t -> has_prefix (fst x) prefix = true -> exists k, fst x = prefix ++ to_be 8 k /\ wf_u64 k;
  ix_values k d : wf_u64 k -> (prefix ++ to_be 8 k, d) ∈ tb_items t ->
    exists r : R, Bitmap.read d = Ok r /\ (forall c, c ∈ rb_values r -> changes c) /\ (k ∈ rb_values r \/ k = 2 ^ 64 - 1);
  ix_covers c : changes c -> 0 <= c < 2 ^ 64 - 1 /\ exists k d (r : R), wf_u64 k /\ c <= k
    /\ (prefix ++ to_be 8 k, d) ∈ tb_items t /\ Bitmap.read d = Ok r /\ c ∈ rb_values r
    /\ forall k' d', wf_u64 k' -> (prefix ++ to_be 8 k', d') ∈ tb_items t -> c <= k' -> k <= k'
}.

(** [o] is the first change from [n] on. *)
Definition first_change (changes : Z -> Prop) (n : Z) (o : option Z) : Prop :=
  match o with
  | Some c => changes c /\ n <= c /\ forall c', changes c' -> n <= c' -> c <= c'
  | None => forall c', changes c' -> c' < n
  end.

(** What both historical readers do with the index. *)
Definition find_change (t : T) (prefix : bytes) (n : Z) : result DbError (option Z) :=
  try entry := table_seek t (prefix ++ to_be 8 n) in
  match entry with
  | None => Ok None
  | Some (key, value) =>
      if negb (has_prefix key prefix) then Ok None
      else try bitmap := read_bitmap (R := R) value in Ok (Bitmap.seek bitmap n)
  end.

Lemma table_seek_spec t k : k <> [] ->
  exists o, table_seek t k = Ok o
    /\ match o with
       | Some x => x ∈ tb_items t /\ bytes_ltb (fst x) k = false
                   /\ forall y, y ∈ tb_items t -> bytes_ltb (fst y) k = false -> item_ltb y x = false
       | None => forall y, y ∈ tb_items t -> bytes_ltb (fst y) k = true
       end.
Proof.
  intros Hk. unfold table_seek. destruct k as [|b k]; [done|]. pose proof (get_set_range t None (b :: k) [] Hk) as HL.
  destruct (mdb_cursor_get _ _ _ _ _) as [x|[]|]; cbn in HL |- *; try done.
  - by exists (Some x).
  - exists None. split; [done|]. intros y Hy. destruct (bytes_ltb (fst y) (b :: k)) eqn:E; [done|]. by destruct (HL y Hy).
Qed.

(** The order of the rows of one prefix is the order of their numbers. *)
Lemma index_key_order prefix k k' : wf_u64 k -> wf_u64 k' ->
  bytes_ltb (prefix ++ to_be 8 k) (prefix ++ to_be 8 k') = (k <? k').
Proof.
  intros Hk Hk'. rewrite bytes_ltb_app_same. pose proof (compare_u64 k k' Hk Hk') as E. unfold bytes_compare in E.
  destruct (bytes_ltb (to_be 8 k) (to_be 8 k')) eqn:E1.
  - symmetry in E. apply Z.compare_lt_iff in E. symmetry. by apply Z.ltb_lt.
  - symmetry. apply Z.ltb_ge. destruct (bytes_ltb (to_be 8 k') (to_be 8 k)); symmetry in E.
    + apply Z.compare_gt_iff in E. lia.
    + apply Z.compare_eq_iff in E. lia.
Qed.

Lemma item_ltb_keys (k d k' d' : bytes) : item_ltb (k, d) (k', d') = false -> bytes_ltb k k' = false.
Proof. unfold item_ltb. cbn. by intros [? _]%orb_false_iff. Qed.

(** A change from [n] on has its row at or behind [n]. *)
Lemma change_row t prefix changes n c : index_ok t prefix changes -> wf_u64 n -> changes c -> n <= c ->
  exists k d (r : R), wf_u64 k /\ c <= k /\ (prefix ++ to_be 8 k, d) ∈ tb_items t /\ Bitmap.read d = Ok r /\ c ∈ rb_values r
    /\ (forall k' d', wf_u64 k' -> (prefix ++ to_be 8 k', d') ∈ tb_items t -> c <= k' -> k <= k')
    /\ bytes_ltb (prefix ++ to_be 8 k) (prefix ++ to_be 8 n) = false.
Proof.
  intros Hix Hn Hc Hle. destruct (ix_covers t prefix changes Hix c Hc) as (_ & k & d & r & Hk & Hck & Hx & Hr & Hcr & Hmin).
  exists k, d, r. split_and!; try done. rewrite index_key_order by done. apply Z.ltb_ge. lia.
Qed.

(** The chunk that the index is read at has the first change. *)
Lemma chunk_first_change t prefix changes n k1 d1 (r1 : R) :
  tb_dupsort t = false -> index_ok t prefix changes -> wf_u64 n -> wf_u64 k1 -> n <= k1 ->
  (prefix ++ to_be 8 k1, d1) ∈ tb_items t -> Bitmap.read d1 = Ok r1 ->
  (forall k d, wf_u64 k -> (prefix ++ to_be 8 k, d) ∈ tb_items t -> n <= k -> k1 <= k) ->
  first_change changes n (Bitmap.seek r1 n).
Proof.
  intros Hd Hix Hn Hk1 Hge Hx1 Hr1 Hleast.
  destruct (ix_values t prefix changes Hix k1 d1 Hk1 Hx1) as (r & Hr & Hsub & Hbound). rewrite Hr1 in Hr. injection Hr as <-.
  assert (forall c, changes c -> n <= c -> c ∈ rb_values r1 \/ k1 ∈ rb_values r1 /\ k1 < c) as Hin.
  { intros c Hc Hle. destruct (change_row t prefix changes n c Hix Hn Hc Hle) as (k & d & r & Hk & Hck & Hxk & Hr & Hcr & Hmin & _).
    assert (k1 <= k) as Hkk by (apply (Hleast k d); [done|done|lia]). destruct (Z.le_gt_cases c k1) as [Hle1|Hgt].
    - left. assert (k = k1) as -> by (specialize (Hmin k1 d1 Hk1 Hx1 Hle1); lia).
      rewrite (plain_unique t _ _ _ Hd Hx1 Hxk), Hr in Hr1. by injection Hr1 as <-.
    - destruct Hbound as [Hb| ->]; [by right; split; [|lia]|]. unfold wf_u64 in Hk. lia. }
  unfold Bitmap.seek. pose proof (rb_move_values n r1) as Hm. destruct (rb_move n r1) as [c1|]; cbn.
  - destruct Hm as (Hc1 & Hn1 & Hl1). split; [by apply Hsub|]. split; [done|]. intros c Hc Hle.
    destruct (Hin c Hc Hle) as [Hcr|[Hkr Hlt]]; [by apply Hl1|]. specialize (Hl1 k1 Hkr Hge). lia.
  - intros c Hc. destruct (Z.lt_ge_cases c n) as [|Hle]; [done|]. destruct (Hin c Hc Hle) as [Hcr|[Hkr _]]; [by apply Hm|].
    specialize (Hm k1 Hkr). lia.
Qed.

Lemma find_change_spec t prefix changes n : tb_dupsort t = false -> index_ok t prefix changes -> wf_u64 n ->
  exists o, find_change t prefix n = Ok o /\ first_change changes n o.
Proof.
  intros Hd Hix Hn. unfold find_change.
  assert (prefix ++ to_be 8 n <> []) as Hne by (intros E; apply (f_equal length) in E; rewrite length_app, length_to_be in E; cbn in E; lia).
  destruct (table_seek_spec t _ Hne) as (o & -> & Ho). cbn [result_bind].
  assert (forall c, ~ (changes c /\ n <= c) -> changes c -> c < n) as Hnone.
  { intros c Hno Hc. destruct (Z.lt_ge_cases c n); [done|]. by destruct Hno. }
  destruct o as [[key value]|].
  - destruct Ho as (Hx & Hge & Hleast). destruct (has_prefix key prefix) eqn:Ep; cbn [negb].
    + destruct (ix_shape t prefix changes Hix _ Hx Ep) as (k1 & Ek & Hk1). cbn in Ek. subst key. cbn [fst] in Hge.
      rewrite index_key_order in Hge by done. apply Z.ltb_ge in Hge.
      destruct (ix_values t prefix changes Hix k1 value Hk1 Hx) as (r1 & Hr1 & _).
      unfold read_bitmap. rewrite Hr1. cbn [result_bind]. exists (Bitmap.seek r1 n). split; [done|].
      apply (chunk_first_change t prefix changes n k1 value r1); try done. intros k d Hk Hxk Hnk.
      assert (bytes_ltb (prefix ++ to_be 8 k) (prefix ++ to_be 8 n) = false) as Hgk by (rewrite index_key_order by done; by apply Z.ltb_ge).
      apply (Hleast _ Hxk), item_ltb_keys in Hgk. rewrite index_key_order in Hgk by done. by apply Z.ltb_ge in Hgk.
    + exists None. split; [done|]. intros c. apply Hnone. intros [Hc Hle].
      destruct (change_row t prefix changes n c Hix Hn Hc Hle) as (k & d & r & Hk & _ & Hxk & _ & _ & _ & Hgk).
      apply (Hleast _ Hxk), item_ltb_keys in Hgk. cbn [fst] in Hge.
      destruct (bytes_between prefix (to_be 8 k) key) as [w ->]; [|done|by rewrite has_prefix_app in Ep].
      destruct (bytes_ltb key prefix) eqn:E; [|done].
      destruct (bytes_ltb key (prefix ++ to_be 8 n)) eqn:E2; [done|].
      destruct (bytes_ltb prefix (prefix ++ to_be 8 n)) eqn:E3; [by rewrite (bytes_ltb_trans _ _ _ E E3) in E2|].
      by rewrite (bytes_ltb_total _ _ E3 (bytes_ltb_prefix _ _)), E2 in E.
  - exists None. split; [done|]. intros c. apply Hnone. intros [Hc Hle].
    destruct (change_row t prefix changes n c Hix Hn Hc Hle) as (k & d & r & Hk & _ & Hxk & _ & _ & _ & Hgk).
    specialize (Ho _ Hxk). cbn [fst] in Ho. congruence.
Qed.

(** ** The two historical readers *)

Lemma historical_account_eq (txn : Txn T) t a n : table_at kAccountHistory txn t ->
  historical_account (R := R) txn a n
  = try c := find_change t a n in
    match c with None => Ok None | Some c => get_sub_of kPlainAccountChangeSet txn (block_key c) a end.
Proof.
  intros Ht. unfold historical_account, find_change. rewrite (open_table_spec _ _ _ Ht). cbn [result_bind].
  change (account_history_key a n) with (a ++ to_be 8 n).
  destruct (table_seek t _) as [[[key value]|]| |]; cbn [result_bind]; [|done..].
  destruct (has_prefix key a); cbn [negb]; [|done]. by destruct (read_bitmap value).
Qed.

Lemma has_prefix_pair k a l : is_address a -> is_hash l ->
  negb (bytes_eqb (take kAddressLength k) a) || negb (bytes_eqb (take kHashLength (drop kAddressLength k)) l)
  = negb (has_prefix k (a ++ l)).
Proof.
  intros Ha Hl. unfold has_prefix. rewrite <- negb_andb. f_equal. apply eq_bool_prop_intro.
  rewrite !Is_true_true, andb_true_iff, !bytes_eqb_eq, length_app, Ha, Hl. rewrite <- (take_take_drop k kAddressLength kHashLength).
  split; [by intros [-> ->]|]. intros E. 
  assert (kAddressLength <= length k)%nat as Hk.
  { apply (f_equal length) in E. rewrite !length_app, !length_take, length_drop, Ha, Hl in E. lia. }
  apply app_inj_1 in E; [done|]. rewrite length_take, Ha. lia.
Qed.

Lemma historical_storage_eq (txn : Txn T) t a i l n : table_at kStorageHistory txn t -> is_address a -> is_hash l ->
  historical_storage (R := R) txn a i l n
  = try c := find_change t (a ++ l) n in
    match c with None => Ok None | Some c => get_sub_of kPlainStorageChangeSet txn (storage_change_key c a i) l end.
Proof.
  intros Ht Ha Hl. unfold historical_storage, find_change. rewrite (open_table_spec _ _ _ Ht). cbn [result_bind].
  replace (storage_history_key a l n) with ((a ++ l) ++ to_be 8 n) by (unfold storage_history_key; by rewrite app_assoc).
  destruct (table_seek t _) as [[[key value]|]| |]; cbn [result_bind]; [|done..].
  rewrite (has_prefix_pair key a l Ha Hl). destruct (has_prefix key (a ++ l)); cbn [negb]; [|done]. by destruct (read_bitmap value).
Qed.

(** A row of a change set, alone with its key and prefix. *)
Definition only_row t (key prefix v : bytes) : Prop :=
  (key, prefix ++ v) ∈ tb_items t /\ forall v', (key, prefix ++ v') ∈ tb_items t -> v' = v.

Lemma get_sub_row config (txn : Txn T) t key prefix v : table_at config txn t -> tb_dupsort t = true -> key <> [] -> prefix <> [] ->
  only_row t key prefix v -> get_sub_of config txn key prefix = Ok (Some v).
Proof.
  intros Ht Hd Hk Hp [Hv Hu]. unfold get_sub_of. rewrite (open_table_spec _ _ _ Ht). cbn [result_bind].
  destruct (table_get_sub_spec t key prefix Hd Hk Hp) as (o & -> & Ho); [|f_equal; by apply Ho].
  intros [k1 d1] [k2 d2] H1' H2'. cbn. intros [-> [w1 ->]%has_prefix_exists] [-> [w2 ->]%has_prefix_exists].
  by rewrite (Hu w1 H1'), (Hu w2 H2').
Qed.

Lemma get_sub_no_row config (txn : Txn T) t key prefix : table_at config txn t -> tb_dupsort t = true -> key <> [] -> prefix <> [] ->
  (forall v, (key, prefix ++ v) ∉ tb_items t) -> get_sub_of config txn key prefix = Ok None.
Proof.
  intros Ht Hd Hk Hp Hn. unfold get_sub_of. rewrite (open_table_spec _ _ _ Ht). cbn [result_bind].
  destruct (table_get_sub_spec t key prefix Hd Hk Hp) as (o & -> & Ho).
  - intros [k1 d1] [k2 d2] H1' H2'. cbn. intros [-> [w1 ->]%has_prefix_exists]. by destruct (Hn w1).
  - destruct o as [v|]; [|done]. by destruct (Hn v); apply Ho.
Qed.

(** A value that only changes in the blocks of [changes] is the same up to the first of them. *)
Lemma constant_until {A} (past : Z -> A) (changes : gset Z) n c :
  (forall m, m ∉ changes -> past (m + 1) = past m) -> n <= c -> (forall m, n <= m < c -> m ∉ changes) -> past n = past c.
Proof.
  intros Hconst Hle Hno. replace c with (n + Z.of_nat (Z.to_nat (c - n))) by lia.
  assert (forall k, (k <= Z.to_nat (c - n))%nat -> past n = past (n + Z.of_nat k)) as Hk; [|by apply Hk].
  induction k as [|k IH]; intros Hk; [by rewrite Z.add_0_r|]. rewrite IH by lia.
  replace (n + Z.of_nat (S k)) with (n + Z.of_nat k + 1) by lia. symmetry. apply Hconst, Hno. lia.
Qed.

(** The database holds the history of an account: [past n] is the account before block [n], [changes] are the blocks
    that changed it. *)
Record account_history (txn : Txn T) (a : bytes) (past : Z -> option Account) (changes : gset Z) : Prop := {
  ah_index : exists t, table_at kAccountHistory txn t /\ tb_dupsort t = false /\ index_ok t a (fun c => c ∈ changes);
  ah_changes : exists t, table_at kPlainAccountChangeSet txn t /\ tb_dupsort t = true
    /\ forall c, c ∈ changes -> exists v, only_row t (block_key c) a v /\ account_of_encoding txn a (Some v) = Ok (past c);
  ah_now n : (forall c, c ∈ changes -> c < n) -> AccessLayer.read_account (R := R) txn a None = Ok (past n);
  ah_constant n : n ∉ changes -> past (n + 1) = past n
}.

(** The same for a word: [changes] are the blocks in which the location changed under any incarnation, as the index
    has them, and [own] those under this one. *)
Record storage_history (txn : Txn T) (a : bytes) (i : Z) (l : bytes) (past : Z -> bytes) (changes own : gset Z) : Prop := {
  sh_index : exists t, table_at kStorageHistory txn t /\ tb_dupsort t = false /\ index_ok t (a ++ l) (fun c => c ∈ changes);
  sh_own : own ⊆ changes;
  sh_changes : exists t, table_at kPlainStorageChangeSet txn t /\ tb_dupsort t = true
    /\ (forall c, c ∈ own -> exists v, only_row t (storage_change_key c a i) l v /\ storage_word v = Ok (past c))
    /\ (forall c, c ∈ changes -> c ∉ own -> forall v, (storage_change_key c a i, l ++ v) ∉ tb_items t);
  sh_now n : (forall c, c ∈ own -> c < n) -> AccessLayer.read_storage (R := R) txn a i l None = Ok (past n);
  sh_constant n : n ∉ own -> past (n + 1) = past n
}.

Lemma account_read_at (txn : Txn T) a past changes n : account_history txn a past changes -> is_address a -> wf_u64 n ->
  AccessLayer.read_account (R := R) txn a (Some n) = Ok (past n).
Proof.
  intros Hh Ha Hn. destruct (ah_index _ _ _ _ Hh) as (t & Ht & Hd & Hix). unfold AccessLayer.read_account.
  rewrite (historical_account_eq txn t a n Ht). destruct (find_change_spec t a _ n Hd Hix Hn) as (o & -> & Ho). cbn [result_bind].
  destruct o as [c|]; cbn in Ho.
  - destruct Ho as (Hc & Hnc & Hmin). destruct (ah_changes _ _ _ _ Hh) as (t2 & Ht2 & Hd2 & Hv). destruct (Hv c Hc) as (v & Hrow & Eacc).
    rewrite (get_sub_row _ txn t2 _ _ v Ht2 Hd2 (block_key_nonempty c) (address_nonempty a Ha) Hrow). cbn [result_bind]. rewrite Eacc. f_equal.
    symmetry. apply (constant_until past changes); [apply Hh|done|]. intros m Hm Hin. specialize (Hmin m Hin). lia.
  - rewrite <- (ah_now _ _ _ _ Hh n Ho). unfold AccessLayer.read_account. reflexivity.
Qed.

Lemma storage_read_at (txn : Txn T) a i l past changes own n : storage_history txn a i l past changes own ->
  word_place a i l -> wf_u64 n ->
  (forall c c', c ∈ changes -> n <= c -> c ∉ own -> c' ∈ own -> n <= c' -> c' < c) ->
  AccessLayer.read_storage (R := R) txn a i l (Some n) = Ok (past n).
Proof.
  intros Hh (Ha & Hi & Hl) Hn Hlive. destruct (sh_index _ _ _ _ _ _ _ Hh) as (t & Ht & Hd & Hix). unfold AccessLayer.read_storage.
  rewrite (historical_storage_eq txn t a i l n Ht Ha Hl). destruct (find_change_spec t (a ++ l) _ n Hd Hix Hn) as (o & -> & Ho). cbn [result_bind].
  destruct (sh_changes _ _ _ _ _ _ _ Hh) as (t2 & Ht2 & Hd2 & Hown & Hother).
  assert (forall c, storage_change_key c a i <> []) as Hne by (intros c E; apply (f_equal length) in E; unfold storage_change_key in E; by rewrite length_app, length_to_be in E).
  pose proof (sh_own _ _ _ _ _ _ _ Hh) as Hsub.
  destruct o as [c|]; cbn in Ho; [destruct Ho as (Hc & Hnc & Hmin); destruct (decide (c ∈ own)) as [Hco|Hco]|].
  - destruct (Hown c Hco) as (v & Hrow & Ew). rewrite (get_sub_row _ txn t2 _ _ v Ht2 Hd2 (Hne c) (location_nonempty l Hl) Hrow). cbn [result_bind].
    rewrite Ew. f_equal. symmetry. apply (constant_until past own); [apply Hh|done|]. intros m Hm Hin. specialize (Hmin m (Hsub m Hin)). lia.
  - rewrite (get_sub_no_row _ txn t2 _ _ Ht2 Hd2 (Hne c) (location_nonempty l Hl) (Hother c Hc Hco)). cbn [result_bind].
    rewrite <- (sh_now _ _ _ _ _ _ _ Hh n); [reflexivity|]. intros c' Hc'. destruct (Z.lt_ge_cases c' n) as [|Hge]; [done|].
    specialize (Hlive c c' Hc Hnc Hco Hc' Hge). specialize (Hmin c' (Hsub c' Hc') Hge). lia.
  - rewrite <- (sh_now _ _ _ _ _ _ _ Hh n); [reflexivity|]. intros c' Hc'. by apply Ho, Hsub.
Qed.

End TimeTravel.

(** * Properties *)

(** C14: The state before any block is read back from the current one. For a database that holds the history of an account
    and of a word of storage (the value before each block that changed it in the change sets, and the numbers of
    those blocks in an index cut into chunks), a historical read before block [n] answers what was there before
    block [n], whether the first change from [n] on is in the chunk found, the account did not exist then, or
    nothing has changed since. The index of a location does not tell incarnations apart: the read is right while no
    change of another incarnation lies between [n] and one of its own. *)
Theorem historical_reads {T R : Type} `{LmdbLaws T} `{RoaringLaws R} (txn : Txn T) (a : bytes) (i : Z) (l : bytes)
    (past_account : Z -> option Account) (past_word : Z -> bytes) (account_blocks location_blocks own_blocks : gset Z) (n : Z) :
  account_history (R := R) txn a past_account account_blocks ->
  storage_history (R := R) txn a i l past_word location_blocks own_blocks ->
  word_place a i l -> wf_u64 n ->
  (forall c c', c ∈ location_blocks -> n <= c -> c ∉ own_blocks -> c' ∈ own_blocks -> n <= c' -> c' < c) ->
  db_read_account (R := R) new_db_buffer (Some txn) (Some n) a = Ok (past_account n)
  /\ db_read_storage (R := R) new_db_buffer (Some txn) (Some n) a i l = Ok (past_word n).
Proof.
  intros Hacc Hsto Hp Hn Hlive. split.
  - unfold db_read_account. cbn [accounts_ new_db_buffer]. rewrite lookup_empty. by apply (account_read_at txn a _ account_blocks); [|apply Hp|].
  - unfold db_read_storage. cbn [storage_ new_db_buffer]. unfold storage_lookup at 1. rewrite lookup_empty.
    by apply (storage_read_at txn a i l _ location_blocks own_blocks).
Qed.

(** An account that was created in block 3 and paid in block 7, with a word that block 7 set. *)
Definition old_address : bytes := zero_bytes 19 ++ [5].
Definition old_account : Account := mkAccount 0 10 kEmptyHash 0.
Definition new_account : Account := mkAccount 0 25 kEmptyHash 0.
Definition word_location : bytes := zero_bytes 31 ++ [1].
Definition last_chunk : bytes := to_be 8 (2 ^ 64 - 1).

Definition history_rows : list (TableConfig * RefTable) :=
  [(kAccountHistory, RefPlain {[old_address ++ last_chunk := [3; 7]]});
   (kStorageHistory, RefPlain {[old_address ++ word_location ++ last_chunk := [7]]});
   (kPlainAccountChangeSet, RefDup {[(block_key 3, old_address); (block_key 7, old_address ++ encode_for_storage old_account true)]});
   (kPlainStorageChangeSet, RefDup {[(storage_change_key 7 old_address 1, word_location)]});
   (kPlainState, RefDup {[(old_address, encode_for_storage new_account false);
                          (storage_prefix old_address 1, word_location ++ [9])]});
   (kPlainContractCode, RefPlain ∅)].

Definition history_database : Txn RefTable :=
  mkTxn false (list_to_map (map (fun e => (config_name (fst e), snd e)) history_rows)).

Definition past_account (n : Z) : option Account := if n <=? 3 then None else if n <=? 7 then Some old_account else Some new_account.
Definition past_word (n : Z) : bytes := if n <=? 7 then zero_bytes32 else zero_bytes 31 ++ [9].

Lemma one_chunk_index (prefix d : bytes) (s : gset Z) :
  list_to_set d = s -> (forall c, c ∈ s -> 0 <= c < 2 ^ 64 - 1) ->
  index_ok (R := gset Z) (RefPlain {[prefix ++ last_chunk := d]}) prefix (fun c => c ∈ s).
Proof.
  intros Hs Hr. assert (wf_u64 (2 ^ 64 - 1)) as Hmax by (unfold wf_u64; lia).
  assert (forall k d', (k, d') ∈ ref_items (RefPlain {[prefix ++ last_chunk := d]}) <-> k = prefix ++ last_chunk /\ d' = d) as Hi.
  { intros k d'. rewrite ref_items_plain, lookup_singleton_Some. split; intros [-> ->]; done. }
  assert (forall k, wf_u64 k -> prefix ++ to_be 8 k = prefix ++ last_chunk -> k = 2 ^ 64 - 1) as Hk.
  { intros k Hk E. apply app_inv_head in E. by apply to_be_inj8. }
  split.
  - intros [k d'] [-> ->]%Hi _. by exists (2 ^ 64 - 1).
  - intros k d' Hwk [E ->]%Hi. exists s. split; [unfold Bitmap.read; cbn; by rewrite Hs|]. split; [done|]. right. by apply Hk.
  - intros c Hc. split; [by apply Hr|]. exists (2 ^ 64 - 1), d, s. specialize (Hr c Hc). split_and!; try done; [lia|by apply Hi|by unfold Bitmap.read; cbn; rewrite Hs|].
    intros k' d' Hk' [E _]%Hi _. rewrite (Hk k' Hk' E). lia.
Qed.

(** The only row of a key in a table with duplicates. *)
Lemma only_row_of (rows : gset item) (key prefix v : bytes) : (key, prefix ++ v) ∈ rows ->
  (forall d, (key, d) ∈ rows -> d = prefix ++ v) -> only_row (RefDup rows) key prefix v.
Proof. intros Hv Hu. split; [done|]. intros v' Hv'. by apply Hu, app_inv_head in Hv'. Qed.

Ltac row_cases H := rewrite ?elem_of_union, ?elem_of_singleton in H; repeat destruct H as [H|H];
  apply pair_equal_spec in H as [?K H]; try discriminate.

Lemma elem_of_blocks37 c : c ∈ ({[3; 7]} : gset Z) -> c = 3 \/ c = 7.
Proof. set_solver. Qed.

Lemma historical_account_demo : account_history (R := gset Z) history_database old_address past_account {[3; 7]}.
Proof.
  split.
  - exists (RefPlain {[old_address ++ last_chunk := [3; 7]]}). split; [reflexivity|]. split; [done|].
    apply one_chunk_index; [by apply (bool_decide_unpack _)|]. intros c [->| ->]%elem_of_blocks37; lia.
  - exists (RefDup {[(block_key 3, old_address); (block_key 7, old_address ++ encode_for_storage old_account true)]}).
    split; [reflexivity|]. split; [done|]. intros c [->| ->]%elem_of_blocks37.
    + exists []. split; [|reflexivity]. apply only_row_of; [rewrite app_nil_r; set_solver|].
      intros d Hd. row_cases Hd. by rewrite Hd, app_nil_r.
    + exists (encode_for_storage old_account true). split; [|vm_compute; reflexivity]. apply only_row_of; [set_solver|].
      intros d Hd. row_cases Hd. done.
  - intros n Hn. assert (7 < n) as H7 by (apply Hn; set_solver). unfold past_account.
    rewrite (proj2 (Z.leb_gt n 3)), (proj2 (Z.leb_gt n 7)) by lia. vm_compute. reflexivity.
  - intros n Hn. assert (n <> 3 /\ n <> 7) as [H3 H7] by set_solver. unfold past_account. zif; reflexivity || lia.
Qed.

Lemma historical_storage_demo : storage_history (R := gset Z) history_database old_address 1 word_location past_word {[7]} {[7]}.
Proof.
  split.
  - exists (RefPlain {[old_address ++ word_location ++ last_chunk := [7]]}). split; [reflexivity|]. split; [done|].
    rewrite app_assoc. apply one_chunk_index; [by apply (bool_decide_unpack _)|]. intros c ->%elem_of_singleton. lia.
  - done.
  - exists (RefDup {[(storage_change_key 7 old_address 1, word_location)]}). split; [reflexivity|]. split; [done|]. split; [|done].
    intros c ->%elem_of_singleton. exists []. split; [|reflexivity]. apply only_row_of; [rewrite app_nil_r; set_solver|].
    intros d Hd. row_cases Hd. by rewrite Hd, app_nil_r.
  - intros n Hn. assert (7 < n) as H7 by (apply Hn; set_solver). unfold past_word.
    rewrite (proj2 (Z.leb_gt n 7)) by lia. vm_compute. reflexivity.
  - intros n Hn. assert (n <> 7) as H7 by set_solver. unfold past_word. zif; reflexivity || lia.
Qed.

Lemma historical_reads_witness :
  db_read_account (R := gset Z) new_db_buffer (Some history_database) (Some 5) old_address = Ok (Some old_account)
  /\ db_read_storage (R := gset Z) new_db_buffer (Some history_database) (Some 5) old_address 1 word_location = Ok zero_bytes32.
Proof.
  apply (historical_reads history_database old_address 1 word_location past_account past_word {[3; 7]} {[7]} {[7]} 5
           historical_account_demo historical_storage_demo).
  - split; [reflexivity|]. split; [unfold wf_u64; lia|reflexivity].
  - unfold wf_u64. lia.
  - intros c c' Hc _ Hn. done.
Defined.

#[local] Existing Instance demo_cbor.

Lemma change_sets_written_witness :
  exists txn', write_to_db (T := RefTable) (foldl apply_op new_db_buffer demo_ops) (Some ref_database) = Ok (Some txn')
    /\ read_account_changes txn' 1 = Ok (default ∅ (account_changes_ (foldl apply_op new_db_buffer demo_ops) !! 1)).
Proof.
  destruct (change_sets_written (T := RefTable) demo_ops ref_database 1 demo_ops_wf ref_database_ok) as (txn' & E & Er & _).
  - unfold wf_u64. lia.
  - split; intros t x Ht Hx; unfold table_at in Ht; vm_compute in Ht; injection Ht as <-; by apply elem_of_empty in Hx.
  - exists txn'. split; [exact E|exact Er].
Defined.
