(* ===== verification/DbTrie.v ===== *)
(** * DbTrie: db/silkworm/trie/db_trie.hpp, db_trie.cpp

    The nodes of the database trie in their stored form, and the loader that computes the root of the hashed state
    while it collects the nodes. The cursors over the stored trie are stubs in the source: they cover nothing, so the
    loader goes through the whole state in one round. *)

From stdpp Require Import gmap sets.
From S2P Require Import Prelude Util Rlp Account HashBuilder Lmdb DbUtil AccessLayer Etl.
Local Open Scope Z_scope.
Local Open Scope silk_scope.

(** ** Stored nodes *)

(** [marshal_node] *)
Definition marshal_node (n : Node) : bytes :=
  to_be 2 (state_mask n) ++ to_be 2 (tree_mask n) ++ to_be 2 (hash_mask n)
  ++ match root_hash_ n with Some h => h | None => [] end ++ concat (hashes n).

(** [n] hashes, one after the other. *)
Fixpoint split_hashes (n : nat) (v : bytes) : list bytes :=
  match n with O => [] | S n => take kHashLength v :: split_hashes n (drop kHashLength v) end.

(** [load_big_u16] and [remove_prefix(2)]; a shorter view is read past its end. *)
Definition take_mask (v : bytes) : result unit (Z * bytes) :=
  if (length v <? 2)%nat then Undef else Ok (of_be (take 2 v), drop 2 v).

Definition unmarshal_node (v : bytes) : result unit Node :=
  try (state_mask, v) := take_mask v in
  try (tree_mask, v) := take_mask v in
  try (hash_mask, v) := take_mask v in
  let '(root_hash, v) :=
    if (popcount hash_mask + 1 =? length v / kHashLength)%nat then (Some (take kHashLength v), drop kHashLength v)
    else (None, v) in
  make_node (mkNode state_mask tree_mask hash_mask (split_hashes (length v / kHashLength) v) root_hash).

(** ** The loader *)

(** The stubs of [AccountTrieCursor] and [StorageTrieCursor]. *)
Definition account_trie_first_uncovered_prefix : bytes := [].
Definition account_trie_key : option bytes := None.
Definition account_trie_can_skip_state : bool := false.
Definition storage_trie_first_uncovered_prefix : bytes := [0].
Definition storage_trie_key : option bytes := None.
Definition storage_trie_can_skip_state : bool := false.

(** A failed assertion of the builder or the collector. *)
Definition asserted {A} (r : result unit A) : result DbError A :=
  match r with Ok a => Ok a | _ => Undef end.

(** [trie.key() && trie.key() < unpacked]: what the stored trie covers is not read. *)
Definition covered (key : option bytes) (unpacked : bytes) : bool :=
  match key with Some k => bytes_ltb k unpacked | None => false end.

(** The entry of a node in a collector. *)
Definition node_entry (prefix : bytes) (n : bytes * Node) : Entry := mkEntry (prefix ++ fst n) (marshal_node (snd n)).

Section Loader.
Context {T : Type} `{Lmdb T}.

(** The loop over the storage of one contract. *)
Fixpoint storage_loop (fuel : nat) (t : T) (s : option item) (hb : HashBuilder) : result DbError HashBuilder :=
  match s with
  | None => Ok hb
  | Some (k, d) =>
      if (length d <? kHashLength)%nat then Err RuntimeError
      else
        let packed_loc := take kHashLength d in
        if covered storage_trie_key (unpack_nibbles packed_loc) then Ok hb
        else
          try hb := asserted (add hb packed_loc (encode_bytes (drop kHashLength d))) in
          match fuel with
          | O => Undef
          | S fuel => try s := table_get_next_dup t (k, d) in storage_loop fuel t s hb
          end
  end.

(** The storage root of an account with an incarnation; the nodes go into the collector. *)
Definition storage_root (t : T) (acc_with_inc : bytes) (storage_collector : Collector) : result DbError (bytes * Collector) :=
  try hb :=
    (if storage_trie_can_skip_state then Ok (new_hash_builder true)
     else
       try s := table_seek_dup t acc_with_inc storage_trie_first_uncovered_prefix in
       storage_loop (rows t) t s (new_hash_builder true)) in
  try hb := asserted (finalize hb) in
  try c := asserted (collect_all (map (node_entry acc_with_inc) (HashBuilder.collected hb)) storage_collector) in
  Ok (stack_root_hash (stack hb), c).

(** The loop over the accounts. *)
Fixpoint account_loop (fuel : nat) (acc_state storage_state : T) (a : option item) (hb : HashBuilder) (storage_collector : Collector)
  : result DbError (HashBuilder * Collector) :=
  match a with
  | None => Ok (hb, storage_collector)
  | Some (key, value) =>
      if covered account_trie_key (unpack_nibbles key) then Ok (hb, storage_collector)
      else
        try account := throw_err (decode_account_from_storage value) in
        try (root, storage_collector) :=
          (if incarnation account =? 0 then Ok (kEmptyRoot, storage_collector)
           else storage_root storage_state (storage_prefix key (incarnation account)) storage_collector) in
        try hb := asserted (add hb key (account_rlp account root)) in
        match fuel with
        | O => Undef
        | S fuel =>
            try a := table_get_next acc_state (key, value) in
            account_loop fuel acc_state storage_state a hb storage_collector
        end
  end.

(** [DbTrieLoader::calculate_root], with the collectors of its constructor: the root of a node without a key is not
    collected. *)
Definition calculate_root (txn : Txn T) (account_collector storage_collector : Collector)
  : result DbError (bytes * Collector * Collector) :=
  try acc_state := open_table kHashedAccounts txn in
  try storage_state := open_table kHashedStorage txn in
  try (hb, storage_collector) :=
    (if account_trie_can_skip_state then Ok (new_hash_builder true, storage_collector)
     else
       try a := table_seek acc_state account_trie_first_uncovered_prefix in
       account_loop (rows acc_state) acc_state storage_state a (new_hash_builder true) storage_collector) in
  try hb := asserted (finalize hb) in
  try account_collector :=
    asserted (collect_all (map (node_entry []) (List.filter (fun n => negb (length (fst n) =? 0)%nat) (HashBuilder.collected hb))) account_collector) in
  Ok (stack_root_hash (stack hb), account_collector, storage_collector).

(** What [Collector::load] puts into a table. *)
Definition load_into (config : TableConfig) (c : Collector) (txn : Txn T) : result DbError (Txn T) :=
  try t := open_table config txn in
  try (entries, _) := asserted (load c) in
  try t := for_each (fun e t => table_put t (entry_key e) (entry_value e)) entries t in
  Ok (with_table config t txn).

(** [regenerate_db_tries] *)
Definition regenerate_db_tries (txn : Txn T) (expected_root : option bytes) : result DbError (Txn T) :=
  let account_collector := new_collector kOptimalBufferSize in
  let storage_collector := new_collector kOptimalBufferSize in
  try (root, account_collector, storage_collector) := calculate_root txn account_collector storage_collector in
  match expected_root with
  | Some expected => if negb (bytes_eqb root expected) then Err WrongRoot
                     else try txn := load_into kTrieOfAccounts account_collector txn in
                          load_into kTrieOfStorage storage_collector txn
  | None => try txn := load_into kTrieOfAccounts account_collector txn in
            load_into kTrieOfStorage storage_collector txn
  end.

End Loader.

(** * Lemmas *)

Definition mask_ok (m : Z) : Prop := 0 <= m < 2 ^ 16.

(** What the constructor of [Node] asserts, with masks of 16 bits and hashes of 32 bytes. *)
Record node_ok (n : Node) : Prop := {
  no_state : mask_ok (state_mask n);
  no_tree : mask_ok (tree_mask n);
  no_hash : mask_ok (hash_mask n);
  no_made : make_node n = Ok n;
  no_hashes : Forall (fun h => length h = kHashLength) (hashes n);
  no_root h : root_hash_ n = Some h -> length h = kHashLength
}.

Lemma make_node_count n : make_node n = Ok n -> popcount (hash_mask n) = length (hashes n).
Proof.
  unfold make_node. destruct (_ && _ && _) eqn:E; [|done]. intros _. apply andb_true_iff in E as [_ E]. by apply Nat.eqb_eq.
Qed.

Lemma make_node_inv n m : make_node n = Ok m -> m = n /\ make_node n = Ok n.
Proof. unfold make_node. destruct (_ && _ && _); [|done]. by intros [= <-]. Qed.

Lemma take_mask_app m v : mask_ok m -> take_mask (to_be 2 m ++ v) = Ok (m, v).
Proof.
  intros Hm. unfold take_mask. rewrite length_app, length_to_be. destruct (Nat.ltb_spec (2 + length v) 2); [lia|].
  rewrite take_app_length', drop_app_length' by (by rewrite length_to_be). by rewrite of_be_to_be_small.
Qed.

Lemma take_mask_inv v m rest : bytes_ok v -> take_mask v = Ok (m, rest) -> mask_ok m /\ v = to_be 2 m ++ rest /\ bytes_ok rest.
Proof.
  intros Hv. unfold take_mask. destruct (Nat.ltb_spec (length v) 2) as [|Hl]; [done|]. intros [= <- <-].
  assert (length (take 2 v) = 2%nat) as Ht by (rewrite length_take; lia).
  assert (bytes_ok (take 2 v)) as Hb by by apply Forall_take. pose proof (of_be_bound _ Hb) as Hr. rewrite Ht in Hr.
  split; [done|]. split; [|by apply Forall_drop]. pose proof (to_be_of_be _ Hb) as E. rewrite Ht in E. by rewrite E, take_drop.
Qed.

Lemma split_hashes_concat (hs : list bytes) : Forall (fun h => length h = kHashLength) hs -> split_hashes (length hs) (concat hs) = hs.
Proof.
  induction 1 as [|h hs Hh _ IH]; [done|]. cbn [length split_hashes concat]. by rewrite take_app_length', drop_app_length', IH.
Qed.

Lemma length_concat_hashes (hs : list bytes) : Forall (fun h => length h = kHashLength) hs ->
  length (concat hs) = (length hs * kHashLength)%nat.
Proof. induction 1 as [|h hs Hh _ IH]; [done|]. cbn [concat length]. rewrite length_app, IH, Hh. lia. Qed.

Lemma concat_split_hashes n : forall v, length v = (n * kHashLength)%nat ->
  concat (split_hashes n v) = v /\ Forall (fun h => length h = kHashLength) (split_hashes n v) /\ length (split_hashes n v) = n.
Proof.
  induction n as [|n IH]; intros v Hv; cbn [split_hashes concat].
  - destruct v; [|done]. by repeat constructor.
  - destruct (IH (drop kHashLength v)) as (E & F & L); [rewrite length_drop; lia|]. rewrite E, take_drop. split; [done|].
    split; [|cbn [length]; by rewrite L]. constructor; [rewrite length_take; lia|done].
Qed.

Lemma div_hashes n : (n * kHashLength / kHashLength)%nat = n.
Proof. by apply Nat.div_mul. Qed.

(** * Properties *)

(** C30: A node of the trie is read back from its stored form, whether or not it has a root hash (the number of hashes tells);
    and a stored form of whole hashes that is read as a node is the form of that node. A view that ends within the
    masks is read past its end. *)
Theorem node_roundtrip (n m : Node) (v : bytes) :
  (node_ok n -> unmarshal_node (marshal_node n) = Ok n)
  /\ (bytes_ok v -> (exists k, length v = (6 + k * kHashLength)%nat) -> unmarshal_node v = Ok m -> node_ok m /\ marshal_node m = v)
  /\ ((length v < 6)%nat -> unmarshal_node v = Undef).
Proof.
  split; [|split].
  - intros [Hs Ht Hh Hm Hhs Hr]. pose proof (make_node_count n Hm) as Hc. unfold unmarshal_node, marshal_node.
    rewrite take_mask_app by done. cbn [result_bind]. rewrite take_mask_app by done. cbn [result_bind].
    rewrite take_mask_app by done. cbn [result_bind]. rewrite Hc.
    destruct n as [s t h hs [r|]]; cbn [state_mask tree_mask hash_mask hashes root_hash_] in *.
    + specialize (Hr r eq_refl). rewrite length_app, Hr, length_concat_hashes by done.
      replace (kHashLength + length hs * kHashLength)%nat with ((length hs + 1) * kHashLength)%nat by lia. rewrite div_hashes, Nat.eqb_refl.
      rewrite take_app_length', drop_app_length' by done. rewrite length_concat_hashes, div_hashes, split_hashes_concat by done. done.
    + cbn [app]. rewrite length_concat_hashes, div_hashes by done. destruct (Nat.eqb_spec (length hs + 1) (length hs)); [lia|].
      rewrite length_concat_hashes, div_hashes, split_hashes_concat by done. done.
  - intros Hv [k Hk] Hu. unfold unmarshal_node in Hu.
    destruct (take_mask v) as [[s v1]| |] eqn:E1; [|done..]. cbn [result_bind] in Hu. apply take_mask_inv in E1 as (Hs & -> & Hv1); [|done].
    destruct (take_mask v1) as [[t v2]| |] eqn:E2; [|done..]. cbn [result_bind] in Hu. apply take_mask_inv in E2 as (Ht & -> & Hv2); [|done].
    destruct (take_mask v2) as [[h v3]| |] eqn:E3; [|done..]. cbn [result_bind] in Hu. apply take_mask_inv in E3 as (Hh & -> & Hv3); [|done].
    assert (length v3 = (k * kHashLength)%nat) as Hk3 by (rewrite !length_app, !length_to_be in Hk; lia).
    rewrite Hk3, div_hashes in Hu. destruct (Nat.eqb_spec (popcount h + 1) k) as [Ek|Ek].
    + rewrite length_drop, Hk3 in Hu. replace (k * kHashLength - kHashLength)%nat with ((k - 1) * kHashLength)%nat in Hu by (rewrite Nat.mul_sub_distr_r, Nat.mul_1_l; done).
      rewrite div_hashes in Hu. apply make_node_inv in Hu as [-> Hm].
      destruct (concat_split_hashes (k - 1) (drop kHashLength v3)) as (Ec & Fc & Lc); [rewrite length_drop, Nat.mul_sub_distr_r, Nat.mul_1_l; lia|].
      split; [split; try done; cbn; intros r [= <-]; rewrite length_take, Hk3; apply Nat.min_l; rewrite <- Ek, Nat.mul_add_distr_r; lia|].
      unfold marshal_node. cbn [state_mask tree_mask hash_mask hashes root_hash_]. by rewrite Ec, take_drop.
    + rewrite Hk3, div_hashes in Hu. apply make_node_inv in Hu as [-> Hm].
      destruct (concat_split_hashes k v3 Hk3) as (Ec & Fc & Lc). split; [by split|].
      unfold marshal_node. cbn [state_mask tree_mask hash_mask hashes root_hash_]. by rewrite Ec.
  - intros Hl. unfold unmarshal_node, take_mask. destruct (Nat.ltb_spec (length v) 2); [done|]. cbn [result_bind].
    rewrite length_drop. destruct (Nat.ltb_spec (length v - 2) 2); [done|]. cbn [result_bind]. rewrite !length_drop.
    destruct (Nat.ltb_spec (length v - 2 - 2) 2); [done|lia].
Qed.

Lemma node_roundtrip_witness :
  let n := mkNode 0xf607 0x0005 0x4004 [replicate 32 1; replicate 32 2] (Some (replicate 32 3)) in
  unmarshal_node (marshal_node n) = Ok n.
Proof.
  intros n. apply (proj1 (node_roundtrip n n [])). split; try (unfold mask_ok; cbn; lia); try reflexivity.
  - repeat constructor.
  - by intros h [= <-].
Defined.
