(* ===== verification/Stages.v ===== *)
(** * Stages: cmd/blockhashes.cpp, tx_lookup.cpp, history_index.cpp, log_index.cpp, hashstate.cpp

    The stages that derive one table from others: each scans a table from where it stopped, collects entries in an
    external sort, loads them into its target and records its progress. Their arguments, the path of the database
    and the log lines are left out. *)

From Stdlib Require Import Sorted.
From stdpp Require Import gmap sets strings.
From S2P Require Import Prelude Util Keccak Rlp Account Transaction Block Etl Bitmap Lmdb DbUtil AccessLayer.
Local Open Scope Z_scope.
Local Open Scope silk_scope.

(** An [etl_error], and an error of the library of bitmaps, is a runtime error. *)
Definition thrown {A} (r : result unit A) : result DbError A :=
  match r with Ok a => Ok a | Err _ => Err RuntimeError | Undef => Undef end.

(** The bytes [from .. from + n) of a buffer, which are read whether or not they are there. *)
Definition bytes_at (from n : nat) (b : bytes) : result DbError bytes :=
  if (length b <? from + n)%nat then Undef else Ok (take n (drop from b)).

Definition number_at_front (b : bytes) : result DbError Z := try x := bytes_at 0 8 b in Ok (of_be x).

Section Scan.
Context {T : Type} `{Lmdb T}.

(** [while (!rc) { step; rc = table->get_next(&key, &data); } if (rc && rc != MDB_NOTFOUND) err_handler(rc);] *)
Fixpoint scan {S : Type} (fuel : nat) (t : T) (step : item -> S -> result DbError S) (rc : result MdbCode item) (s : S)
  : result DbError S :=
  match rc with
  | Err MDB_NOTFOUND => Ok s
  | Err rc => Err (LmdbException rc)
  | Undef => Undef
  | Ok x =>
      try s := step x s in
      match fuel with
      | O => Undef
      | S fuel => scan fuel t step (mdb_cursor_get t (Some x) MDB_NEXT [] []) s
      end
  end.

(** The same loop where no error is looked at behind it. *)
Fixpoint scan_quietly {S : Type} (fuel : nat) (t : T) (step : item -> S -> result DbError S) (rc : result MdbCode item) (s : S)
  : result DbError S :=
  match rc with
  | Err _ => Ok s
  | Undef => Undef
  | Ok x =>
      try s := step x s in
      match fuel with
      | O => Undef
      | S fuel => scan_quietly fuel t step (mdb_cursor_get t (Some x) MDB_NEXT [] []) s
      end
  end.

(** [Table::seek] with a key that is not empty, [Table::seek_exact] *)
Definition seek_from (t : T) (key : bytes) : result MdbCode item := mdb_cursor_get t None MDB_SET_RANGE key [].
Definition seek_exact (t : T) (key : bytes) : result MdbCode item := mdb_cursor_get t None MDB_SET key [].

(** [Collector::load] into a table, by a function or by plain puts. *)
Definition load_with (load_func : PutFlags -> Entry -> T -> result DbError T) (flags : PutFlags) (c : Collector) (t : T)
  : result DbError T :=
  try (out, _) := thrown (load c) in for_each (load_func flags) out t.

Definition put_entry (flags : PutFlags) (e : Entry) (t : T) : result DbError T :=
  table_put_flags flags t (entry_key e) (entry_value e).

(** [txn->open(config, MDB_CREATE)] *)
Definition open_created (config : TableConfig) (txn : Txn T) : result DbError (T * Txn T) := txn_open config true txn.

(** How a program ends: its exit code and the tables that are committed. *)
Record StageEnd : Type := mkStageEnd { exit_code : Z; committed : Txn T }.

(** [try { ...; commit } catch (const std::exception&) { return -5; }]: the body answers the tables to be committed,
    if it commits. What is not an exception object ends the program: the result is [Err]. *)
Definition run_stage (txn : Txn T) (body : result DbError (option (Txn T))) : result unit StageEnd :=
  match body with
  | Ok (Some txn') => Ok (mkStageEnd 0 txn')
  | Ok None => Ok (mkStageEnd 0 txn)
  | Err (DecodingResultThrown _) => Err tt
  | Err _ => Ok (mkStageEnd (-5) txn)
  | Undef => Undef
  end.

(** A table that is opened before the [try]: an exception ends the program. *)
Definition open_first (config : TableConfig) (txn : Txn T) : result unit T :=
  match open_table config txn with Ok t => Ok t | Err _ => Err tt | Undef => Undef end.

(** ** cmd/blockhashes.cpp: canonical hash -> number *)

Record BlockHashes : Type := mkBlockHashes {
  hashes_collector : Collector;
  expected_block_number : Z;
  hashes_block_number : Z;
  blocks_processed_count : Z
}.

Definition stage_buffer_size : Z := 512 * 2 ^ 20.

Definition blockhashes_step (x : item) (s : BlockHashes) : result DbError BlockHashes :=
  let '(key, data) := x in
  if negb (length data =? kHashLength)%nat then Err RuntimeError
  else
    try reached := number_at_front key in
    if negb (reached =? expected_block_number s) then Err RuntimeError
    else
      try c := thrown (collect (mkEntry data key) (hashes_collector s)) in
      Ok (mkBlockHashes c (u64 (expected_block_number s + 1)) (u32 (expected_block_number s)) (u32 (blocks_processed_count s + 1))).

(** The load into a target that is appended to if it is empty. *)
Definition load_upsert (config : TableConfig) (c : Collector) (txn : Txn T) : result DbError (Txn T) :=
  try (target_table, txn) := open_created config txn in
  try target_table_rcount := table_get_rcount target_table in
  try target_table := load_with put_entry (if target_table_rcount =? 0 then MDB_APPEND else NO_FLAGS) c target_table in
  Ok (with_table config target_table txn).

Definition blockhashes_body (canonical_hashes_table : T) (txn : Txn T) : result DbError (option (Txn T)) :=
  try (last_processed_block_number, txn) := get_stage_progress txn kBlockHashesKey in
  let expected := u64 (last_processed_block_number + 1) in
  try s := scan (rows canonical_hashes_table) canonical_hashes_table blockhashes_step
             (seek_exact canonical_hashes_table (block_key expected))
             (mkBlockHashes (new_collector stage_buffer_size) expected 0 0) in
  if blocks_processed_count s =? 0 then Ok None
  else
    try txn := load_upsert kHeaderNumbers (hashes_collector s) txn in
    try txn := set_stage_progress txn kBlockHashesKey (hashes_block_number s) in
    Ok (Some txn).

Definition blockhashes (txn : Txn T) : result unit StageEnd :=
  try canonical_hashes_table := open_first kCanonicalHashes txn in
  try _ := open_first kHeaderNumbers txn in
  run_stage txn (blockhashes_body canonical_hashes_table txn).

(** ** cmd/tx_lookup.cpp: hash of a transaction -> number of its block *)

(** Without leading zeros, unless there is nothing else. *)
Definition compact (b : bytes) : bytes := match zeroless_view b with [] => b | b' => b' end.

(** The loop over the transactions of a block: [rc] is what the cursor answered last. *)
Fixpoint lookup_loop (fuel : nat) (transactions_table : T) (rc : result MdbCode item) (i txn_count : Z) (value : bytes)
    (c : Collector) : result DbError Collector :=
  match rc with
  | Err MDB_NOTFOUND => Ok c
  | _ =>
      if txn_count <=? i then Ok c
      else
        try row := err_handler rc in
        try c := thrown (collect (mkEntry (keccak256 (snd row)) value) c) in
        match fuel with
        | O => Undef
        | S fuel =>
            lookup_loop fuel transactions_table (mdb_cursor_get transactions_table (Some row) MDB_NEXT [] []) (u64 (i + 1))
              txn_count value c
        end
  end.

Definition tx_lookup_step (transactions_table : T) (x : item) (s : Collector * Z) : result DbError (Collector * Z) :=
  let '(key, data) := x in
  let '(c, _) := s in
  try (body, _) := throw_err (decode_stored_block_body data) in
  try block_number_as_bytes := bytes_at 0 8 key in
  let lookup_block_data := compact block_number_as_bytes in
  let block_number := of_be block_number_as_bytes in
  try c :=
    (if 0 <? txn_count body then
       lookup_loop (rows transactions_table) transactions_table (seek_exact transactions_table (to_be 8 (base_txn_id body))) 0
         (txn_count body) lookup_block_data c
     else Ok c) in
  Ok (c, block_number).

Definition tx_lookup_body (full : bool) (bodies_table transactions_table : T) (txn : Txn T) : result DbError (option (Txn T)) :=
  try (last_processed_block_number, txn) := get_stage_progress txn kTxLookupKey in
  let last_processed_block_number := if full then 0 else last_processed_block_number in
  try (c, block_number) :=
    scan (rows bodies_table) bodies_table (tx_lookup_step transactions_table)
      (seek_from bodies_table (to_be 8 (u64 (last_processed_block_number + 1)))) (new_collector stage_buffer_size, 0) in
  if collector_size c =? 0 then Ok None
  else
    try txn := load_upsert kTxLookup c txn in
    try txn := set_stage_progress txn kTxLookupKey block_number in
    Ok (Some txn).

Definition tx_lookup (full : bool) (txn : Txn T) : result unit StageEnd :=
  try bodies_table := open_first kBlockBodies txn in
  try transactions_table := open_first kEthTx txn in
  run_stage txn (tx_lookup_body full bodies_table transactions_table txn).

End Scan.
Arguments StageEnd T : clear implicits.

(** * Lemmas: scanning *)

Section ScanLemmas.
Context {T : Type} `{LmdbLaws T}.
Implicit Types t : T.

(** A scan is a loop over the items that the cursor meets. *)
Lemma scan_walk {S} t (step : item -> S -> result DbError S) l : forall fuel rc s,
  walks (next_row t) rc l -> (length l <= fuel)%nat -> scan fuel t step rc s = for_each step l s.
Proof.
  induction l as [|x l IH]; intros fuel rc s Hw Hl; cbn [walks] in Hw.
  - subst rc. by destruct fuel.
  - destruct Hw as [-> Hw]. cbn [length] in Hl. destruct fuel as [|fuel]; [lia|]. cbn [scan for_each].
    destruct (step x s) as [s'| |]; cbn [result_bind]; [|done..]. apply IH; [done|lia].
Qed.

(** The items from a key on, in order. *)
Lemma seek_from_walk t key : key <> [] ->
  exists l, walks (next_row t) (seek_from t key) l
    /\ (forall x, x ∈ l <-> x ∈ tb_items t /\ bytes_ltb (fst x) key = false)
    /\ StronglySorted item_lt l /\ (length l <= rows t)%nat.
Proof.
  intros Hk. destruct (walk_from t (seek_from t key) (fun x => negb (bytes_ltb (fst x) key))) as (l & Hw & Hin & Hs & Hl).
  - intros x y _ _ Qx Hxy. apply negb_true_iff in Qx. apply negb_true_iff. apply orb_true_iff in Hxy as [Hlt|[E _]%andb_true_iff].
    + destruct (bytes_ltb (fst y) key) eqn:E; [|done]. by rewrite (bytes_ltb_trans _ _ _ Hlt E) in Qx.
    + apply bytes_eqb_eq in E. by rewrite <- E.
  - eapply finds_least_iff; [|exact (get_set_range t None key [] Hk)]. intros x _. cbn. by rewrite negb_true_iff.
  - exists l. split; [done|]. split; [|by split]. intros x. rewrite Hin. by rewrite negb_true_iff.
Qed.

Lemma scan_from {S} t key (step : item -> S -> result DbError S) s : key <> [] ->
  exists l, scan (rows t) t step (seek_from t key) s = for_each step l s
    /\ (forall x, x ∈ l <-> x ∈ tb_items t /\ bytes_ltb (fst x) key = false)
    /\ StronglySorted item_lt l /\ (length l <= rows t)%nat.
Proof.
  intros Hk. destruct (seek_from_walk t key Hk) as (l & Hw & Hin & Hs & Hl). exists l.
  split; [by apply scan_walk|]. by split_and!.
Qed.

(** A table that is there is opened as it is. *)
Lemma open_created_existing config (txn : Txn T) t : txn_tables txn !! config_name config = Some t -> open_created config txn = Ok (t, txn).
Proof.
  intros Ht. unfold open_created, txn_open. rewrite open_existing by done. cbn [err_handler result_bind]. rewrite Ht.
  by destruct txn.
Qed.

End ScanLemmas.

(** What is read from the front of a buffer. *)
Lemma bytes_at_front n (a v : bytes) : length a = n -> bytes_at 0 n (a ++ v) = Ok a.
Proof.
  intros Ha. unfold bytes_at. rewrite length_app, drop_0. destruct (Nat.ltb_spec (length a + length v) (0 + n)); [lia|].
  by rewrite take_app_length'.
Qed.

Lemma number_at_front_key n : wf_u64 n -> number_at_front (block_key n) = Ok n.
Proof.
  intros Hn. unfold number_at_front, block_key. rewrite <- (app_nil_r (to_be 8 n)), bytes_at_front by apply length_to_be.
  cbn [result_bind]. f_equal. by apply of_be_to_be_small.
Qed.
