(* ===== verification/StagesCorrect.v ===== *)
(** * StagesCorrect: the table of block numbers by hash that cmd/blockhashes.cpp builds

    The load of sorted entries into a table, and with it the stage that turns the canonical hashes around: after it
    every canonical hash has its number, unless the numbers have a gap, which ends the run without a change. *)

From Stdlib Require Import Sorted.
From stdpp Require Import gmap sets strings sorting.
From S2P Require Import Prelude Util Rlp Etl Bitmap Lmdb DbUtil AccessLayer DbBufferCorrect History Stages.
Local Open Scope Z_scope.
Local Open Scope silk_scope.

(** The weight of entries that are small. *)
Lemma weight_bound (B : Z) es : Forall (fun e => entry_size e <= B) es -> weight es <= (B + 8) * zlen es.
Proof. unfold weight, total_size. induction 1 as [|e es He _ IH]; cbn [foldr length]; lia. Qed.

Section Load.
Context {T : Type} `{LmdbLaws T}.
Implicit Types t : T.

(** What is put is behind everything in the table if it is appended. *)
Definition may_put flags t (k : bytes) : Prop :=
  flags = NO_FLAGS \/ flags = MDB_APPEND /\ forall x, x ∈ tb_items t -> bytes_ltb (fst x) k = true.

Lemma put_flags_plain flags t k d : tb_dupsort t = false -> key_fits k -> may_put flags t k ->
  exists t', table_put_flags flags t k d = Ok t' /\ tb_dupsort t' = false
    /\ forall x, x ∈ tb_items t' <-> x = (k, d) \/ x ∈ tb_items t /\ fst x <> k.
Proof.
  intros Hd Hk Hmay. assert (tb_dupsort t = true -> key_fits d) as Hfd by by rewrite Hd.
  unfold table_put_flags. destruct Hmay as [->|[-> Hlast]].
  - destruct (put_fits t k d Hk Hfd) as (t' & -> & Hd' & Hi). exists t'. split; [done|]. split; [congruence|].
    intros x. rewrite Hi, elem_of_put_items, Hd. split; intros [?|[? Hn]]; [by left|right; split; [done|by apply Hn]|by left|by right].
  - destruct (append_last t k d Hk Hfd Hlast) as (t' & -> & Hd' & Hi).
    exists t'. split; [done|]. split; [congruence|]. intros x. rewrite Hi, elem_of_union, elem_of_singleton.
    split; [|tauto]. intros [?|Hx]; [by left|]. right. split; [done|]. intros E. specialize (Hlast x Hx).
    by rewrite E, bytes_ltb_irrefl in Hlast.
Qed.

(** Entries in the order of their keys. *)
Definition key_lt (e e' : Entry) : Prop := bytes_ltb (entry_key e) (entry_key e') = true.

Lemma sorted_keys_lt out : sorted out -> NoDup (map entry_key out) -> StronglySorted key_lt out.
Proof.
  induction 1 as [|e out Hs IH Hle]; intros Hn; [constructor|]. inversion Hn as [|? ? Hnin Hn']; subst.
  constructor; [by apply IH|]. rewrite Forall_forall in Hle. apply Forall_forall. intros e' He'.
  specialize (Hle e' He'). apply entry_le_iff in Hle. unfold entry_ltb, key_lt in *.
  destruct (bytes_ltb (entry_key e) (entry_key e')) eqn:E; [done|]. exfalso. apply Hnin.
  destruct (bytes_ltb (entry_key e') (entry_key e)) eqn:E2; [done|].
  rewrite (bytes_ltb_total _ _ E E2). by apply list_elem_of_fmap_2.
Qed.

Lemma put_entries flags out : StronglySorted key_lt out -> Forall (fun e => key_fits (entry_key e)) out -> forall t,
  tb_dupsort t = false -> (forall e, e ∈ out -> may_put flags t (entry_key e)) ->
  exists t', for_each (put_entry flags) out t = Ok t' /\ tb_dupsort t' = false
    /\ forall x, x ∈ tb_items t' <-> (exists e, e ∈ out /\ x = (entry_key e, entry_value e))
         \/ x ∈ tb_items t /\ forall e, e ∈ out -> fst x <> entry_key e.
Proof.
  induction 1 as [|e out Hs IH Hlt]; intros Hfit t Hd Hmay.
  - exists t. split; [done|]. split; [done|]. intros x. split; [intros Hx; right; split; [done|]; by intros e ?%elem_of_nil|].
    intros [(e & ?%elem_of_nil & _)|[? _]]; done.
  - inversion Hfit as [|? ? Hk Hfit']; subst. rewrite Forall_forall in Hlt.
    destruct (put_flags_plain flags t (entry_key e) (entry_value e) Hd Hk) as (t1 & E1 & Hd1 & Hi1); [apply Hmay; by left|].
    cbn [for_each]. unfold put_entry at 1. rewrite E1. cbn [result_bind].
    destruct (IH Hfit' t1 Hd1) as (t' & E' & Hd' & Hi').
    { intros e' He'. destruct (Hmay e') as [->|[-> Hlast]]; [by right|by left|]. right. split; [done|].
      intros x [->|[Hx _]]%Hi1; [by apply Hlt|by apply Hlast]. }
    exists t'. split; [done|]. split; [done|]. intros x. rewrite Hi', Hi1. setoid_rewrite elem_of_cons. split.
    + intros [(e' & He' & ->)|[[->|[Hx Hn]] Hout]].
      * left. exists e'. by split; [right|].
      * left. exists e. by split; [left|].
      * right. split; [done|]. intros e' [->|He']; [done|by apply Hout].
    + intros [(e' & [->|He'] & ->)|[Hx Hn]].
      * right. split; [by left|]. intros e' He' E. cbn in E. specialize (Hlt e' He'). unfold key_lt in Hlt.
        by rewrite E, bytes_ltb_irrefl in Hlt.
      * left. by exists e'.
      * right. split; [right; split; [done|apply Hn; by left]|]. intros e' He'. apply Hn. by right.
Qed.

(** The load into a table of entries that have one key each. *)
Lemma load_upsert_spec config (txn : Txn T) t c ls es :
  table_at config txn t -> tb_dupsort t = false -> collected c ls es -> weight es < 2 ^ 64 ->
  NoDup (map entry_key es) -> Forall (fun e => key_fits (entry_key e)) es ->
  exists t', load_upsert config c txn = Ok (with_table config t' txn) /\ tb_dupsort t' = false
    /\ forall x, x ∈ tb_items t' <-> (exists e, e ∈ es /\ x = (entry_key e, entry_value e))
         \/ x ∈ tb_items t /\ forall e, e ∈ es -> fst x <> entry_key e.
Proof.
  intros Ht Hd Hc Hw Hn Hfit. unfold load_upsert. rewrite (open_created_existing config txn t Ht). cbn [result_bind].
  unfold table_get_rcount. rewrite stat_entries. cbn [err_handler result_bind]. unfold load_with.
  destruct (load_spec c ls es Hc Hw) as (out & c' & -> & Hp & Hs). cbn [thrown result_bind].
  destruct (put_entries (if Z.of_nat (size (tb_items t)) =? 0 then MDB_APPEND else NO_FLAGS) out) with (t := t)
    as (t' & -> & Hd' & Hi).
  - apply sorted_keys_lt; [done|]. by rewrite Hp.
  - by rewrite Hp.
  - done.
  - intros e _. destruct (Z.eqb_spec (Z.of_nat (size (tb_items t))) 0) as [E|_]; [right|by left]. split; [done|].
    intros x Hx. assert (tb_items t = ∅) as Et by (apply size_empty_inv in E || (apply leibniz_equiv, size_empty_inv; lia); done).
    rewrite Et in Hx. by apply elem_of_empty in Hx.
  - exists t'. split; [done|]. split; [done|]. intros x. rewrite Hi. by setoid_rewrite Hp.
Qed.

End Load.

Lemma block_key_order n m : wf_u64 n -> wf_u64 m -> bytes_ltb (block_key n) (block_key m) = (n <? m).
Proof. exact (index_key_order [] n m). Qed.

(** ** cmd/blockhashes.cpp *)

Section BlockHashes.
Context {T : Type} `{LmdbLaws T}.
Implicit Types t : T.

(** Numbers that follow each other from [n] on. *)
Fixpoint consecutive (n : Z) (l : list (Z * bytes)) : bool :=
  match l with
  | [] => true
  | x :: l => (fst x =? n) && consecutive (n + 1) l
  end.

Definition number_lt (x y : Z * bytes) : Prop := fst x < fst y.

Lemma consecutive_spec l : forall n, StronglySorted number_lt l -> (forall x, x ∈ l -> n <= fst x) ->
  consecutive n l = true <-> forall m, n <= m -> (exists x, x ∈ l /\ m <= fst x) -> exists h, (m, h) ∈ l.
Proof.
  induction l as [|[k h] l IH]; intros n Hs Hge.
  { split; [|done]. intros _ m _ (x & ?%elem_of_nil & _). done. }
  inversion Hs as [|? ? Hs' Hlt]; subst. rewrite Forall_forall in Hlt. unfold number_lt in Hlt. cbn [consecutive fst] in *.
  assert (n <= k) as Hnk by (apply (Hge (k, h)); by left). rewrite andb_true_iff, Z.eqb_eq. split.
  - intros [-> Hc] m Hm (x & Hx & Hmx). destruct (Z.eq_dec m n) as [->|Hne]; [exists h; by left|].
    destruct (proj1 (IH (n + 1) Hs' ltac:(intros y Hy; specialize (Hlt y Hy); lia)) Hc m) as [h' Hh']; [lia| |exists h'; by right].
    apply elem_of_cons in Hx as [->|Hx]; [cbn in Hmx; lia|by exists x].
  - intros Hall. assert (k = n) as ->.
    { destruct (Hall n) as [h' Hh']; [lia|exists (k, h); by split; [left|]|].
      apply elem_of_cons in Hh' as [E|Hh']; [by injection E|]. specialize (Hlt _ Hh'). cbn in Hlt. lia. }
    split; [done|]. apply IH; [done|intros y Hy; specialize (Hlt y Hy); lia|]. intros m Hm (x & Hx & Hmx).
    destruct (Hall m) as [h' Hh']; [lia|exists x; by split; [right|]|]. exists h'.
    apply elem_of_cons in Hh' as [E|Hh']; [injection E; lia|done].
Qed.

Definition hash_row (x : Z * bytes) : item := (block_key (fst x), snd x).
Definition hash_entry (x : Z * bytes) : Entry := mkEntry (snd x) (block_key (fst x)).
Definition hash_row_ok (x : Z * bytes) : Prop := 0 <= fst x < 2 ^ 32 /\ length (snd x) = kHashLength.

Lemma hash_weight l : Forall hash_row_ok l -> weight (map hash_entry l) <= 48 * zlen l.
Proof.
  intros Hl. rewrite <- (length_map hash_entry l). apply (weight_bound 40), Forall_map. eapply Forall_impl; [exact Hl|].
  intros x [_ Hx]. unfold entry_size, hash_entry, block_key. cbn [entry_key entry_value]. by rewrite Hx, length_to_be.
Qed.

(** The rows are collected while their numbers follow each other. *)
Lemma blockhashes_loop first l : 1 <= first -> forall s ls es,
  collected (hashes_collector s) ls (map hash_entry es) -> Forall hash_row_ok es -> Forall hash_row_ok l ->
  zlen es + zlen l < 2 ^ 50 -> first <= expected_block_number s ->
  blocks_processed_count s = expected_block_number s - first ->
  match for_each blockhashes_step (map hash_row l) s with
  | Ok s' => consecutive (expected_block_number s) l = true
      /\ (exists ls', collected (hashes_collector s') ls' (map hash_entry (es ++ l)))
      /\ blocks_processed_count s' = expected_block_number s + zlen l - first
      /\ hashes_block_number s' = (match l with [] => hashes_block_number s | _ => expected_block_number s + zlen l - 1 end)
  | Err e => e = RuntimeError /\ consecutive (expected_block_number s) l = false
  | Undef => False
  end.
Proof.
  intros Hfirst. induction l as [|x l IH]; intros s ls es Hc Hes Hl Hlen Hexp Hcount; cbn [map for_each consecutive].
  - rewrite app_nil_r. split; [done|]. split; [by exists ls|]. split; [cbn; lia|done].
  - inversion Hl as [|? ? [Hn Hh] Hl']; subst. unfold blockhashes_step at 1. cbn [hash_row].
    rewrite Hh. cbn [Nat.eqb kHashLength negb]. rewrite number_at_front_key by (unfold wf_u64; lia). cbn [result_bind].
    destruct (Z.eqb_spec (fst x) (expected_block_number s)) as [E|E]; cbn [negb andb]; [|by split].
    assert (Forall hash_row_ok (es ++ [x])) as Hes' by (apply Forall_app; split; [done|]; constructor; [by split|constructor]).
    assert (map hash_entry (es ++ [x]) = map hash_entry es ++ [hash_entry x]) as Em by apply map_app.
    destruct (collect_spec (hash_entry x) (hashes_collector s) ls (map hash_entry es) Hc) as (c' & ls' & Ec & Hc').
    + unfold entry_ok, entry_size, hash_entry, block_key. cbn [entry_key entry_value]. by rewrite Hh, length_to_be.
    + rewrite <- Em. pose proof (hash_weight _ Hes'). rewrite length_app in *. cbn in *. lia.
    + unfold hash_entry at 1 in Ec. rewrite Ec. cbn [thrown result_bind].
      rewrite u64_small, !(wrap_small 32) by lia. rewrite <- Em in Hc'.
      specialize (IH (mkBlockHashes c' (expected_block_number s + 1) (expected_block_number s) (blocks_processed_count s + 1)) ls' (es ++ [x])).
      cbn [hashes_collector expected_block_number blocks_processed_count hashes_block_number] in IH.
      rewrite <- app_assoc in IH. cbn [app] in IH.
      specialize (IH Hc' Hes' Hl' ltac:(rewrite length_app; cbn in *; lia) ltac:(lia) ltac:(lia)).
      destruct (for_each _ _ _) as [s'| |]; [|done..]. destruct IH as (Hcons & Hcol & Hcnt & Hnum).
      split; [done|]. split; [done|]. cbn [length]. split; [lia|]. rewrite Hnum. destruct l; cbn [length]; lia.
Qed.

(** A scan from a key that is there, or nothing. *)
Lemma scan_exact {S} t key (step : item -> S -> result DbError S) s : key <> [] ->
  scan (rows t) t step (seek_exact t key) s = Ok s /\ (forall x, x ∈ tb_items t -> fst x <> key)
  \/ (exists x, x ∈ tb_items t /\ fst x = key)
    /\ exists l, scan (rows t) t step (seek_exact t key) s = for_each step l s
    /\ (forall x, x ∈ l <-> x ∈ tb_items t /\ bytes_ltb (fst x) key = false)
    /\ StronglySorted item_lt l /\ (length l <= rows t)%nat.
Proof.
  intros Hk. pose proof (get_set t None key [] Hk) as Hf. unfold seek_exact.
  destruct (mdb_cursor_get t None MDB_SET key []) as [x|[]|] eqn:E; try done; [right|left].
  - destruct Hf as (Hx & Ex & Hleast). split; [by exists x|].
    destruct (walk_from t (Ok x) (fun x => negb (bytes_ltb (fst x) key))) as (l & Hw & Hin & Hs & Hl).
    + intros y z _ _ Hy Hyz. apply negb_true_iff in Hy. apply negb_true_iff. by apply (not_below_up key y).
    + split; [done|]. split; [by rewrite Ex, bytes_ltb_irrefl|]. intros y Hy Hge%negb_true_iff.
      destruct (decide (fst y = key)) as [Ey|Ey]; [by apply Hleast|]. unfold item_ltb.
      rewrite Ex, Hge. cbn [orb]. destruct (bytes_eqb (fst y) key) eqn:Eb; [by apply bytes_eqb_eq in Eb|done].
    + exists l. split; [by apply scan_walk|]. split; [|by split]. intros y. by rewrite Hin, negb_true_iff.
  - split; [by destruct (rows t)|]. intros y Hy Ey. by apply (Hf y).
Qed.

Lemma rows_as_hashes l : Forall (fun x => exists y, hash_row_ok y /\ x = hash_row y) l ->
  exists L, l = map hash_row L /\ Forall hash_row_ok L.
Proof.
  induction 1 as [|x l (y & Hy & ->) _ (L & -> & HL)]; [by exists []|]. exists (y :: L). by split; [|constructor].
Qed.

Lemma hash_row_order x y : hash_row_ok x -> hash_row_ok y ->
  bytes_ltb (fst (hash_row x)) (fst (hash_row y)) = (fst x <? fst y).
Proof. intros [Hx _] [Hy _]. apply block_key_order; unfold wf_u64; lia. Qed.

Lemma rows_numbers_lt t L : tb_dupsort t = false -> (forall x, x ∈ L -> hash_row x ∈ tb_items t) -> Forall hash_row_ok L ->
  StronglySorted item_lt (map hash_row L) -> StronglySorted number_lt L.
Proof.
  intros Hd. induction L as [|x L IH]; intros Hin Hok Hs; [constructor|]. cbn [map] in Hs.
  inversion Hs as [|? ? Hs' Hlt]; subst. inversion Hok as [|? ? Hx Hok']; subst.
  constructor; [apply IH; [intros y Hy; apply Hin; by right|done|done]|]. rewrite Forall_forall in Hlt. rewrite Forall_forall in Hok'.
  apply Forall_forall. intros y Hy. specialize (Hlt (hash_row y) (list_elem_of_fmap_2 hash_row L y Hy)).
  unfold item_lt, item_ltb in Hlt. rewrite hash_row_order in Hlt by (done || by apply Hok').
  apply orb_true_iff in Hlt as [Hlt|[Hk Hv]%andb_true_iff]; [by apply Z.ltb_lt|]. apply bytes_eqb_eq in Hk. exfalso.
  destruct x as [n h], y as [m h']. unfold hash_row in *. cbn [fst snd] in *.
  assert (h = h') as <-; [|by rewrite bytes_ltb_irrefl in Hv]. apply (plain_unique t (block_key n)); [done|apply (Hin (n, h)); by left|].
  rewrite Hk. apply (Hin (m, h')). by right.
Qed.

(** The canonical hashes of a table. *)
Definition canonical t (n : Z) (h : bytes) : Prop := hash_row_ok (n, h) /\ hash_row (n, h) ∈ tb_items t.

Definition no_gap t (p : Z) : Prop := forall n m h, canonical t n h -> p < m <= n -> exists h', canonical t m h'.

Lemma hash_row_inj x y : hash_row_ok x -> hash_row_ok y -> hash_row x = hash_row y -> x = y.
Proof.
  destruct x as [n h], y as [m h']. intros [Hn _] [Hm _] E. cbn in Hn, Hm. apply pair_equal_spec in E as [Ek Ev]. cbn in Ek, Ev.
  apply to_be_inj8 in Ek as ->; [by subst|unfold wf_u64; lia..].
Qed.

(** The rows from a block on are the canonical hashes of the blocks behind. *)
Lemma hashes_from t p L : 0 <= p < 2 ^ 32 -> Forall hash_row_ok L ->
  (forall x, x ∈ map hash_row L <-> x ∈ tb_items t /\ bytes_ltb (fst x) (block_key (p + 1)) = false) ->
  forall n h, (n, h) ∈ L <-> canonical t n h /\ p < n.
Proof.
  intros Hp HL Hin n h.
  assert (hash_row_ok (n, h) -> (bytes_ltb (fst (hash_row (n, h))) (block_key (p + 1)) = false <-> p < n)) as Hord.
  { intros [Hn _]. cbn [fst hash_row] in *. rewrite block_key_order by (unfold wf_u64; lia). rewrite Z.ltb_ge. lia. }
  rewrite Forall_forall in HL. split.
  - intros Hnh. assert (hash_row_ok (n, h)) as Hok by by apply HL.
    destruct (proj1 (Hin (hash_row (n, h))) (list_elem_of_fmap_2 hash_row L _ Hnh)) as [Hi Hge]. split; [by split|by apply Hord].
  - intros [[Hok Hi] Hpn]. assert (hash_row (n, h) ∈ map hash_row L) as Hm by (apply Hin; split; [done|by apply Hord]).
    apply list_elem_of_fmap in Hm as (y & E & Hy). apply hash_row_inj in E as ->; [done|done|by apply HL].
Qed.

(** What the stage finds: its progress [p], the canonical hashes and the numbers. *)
Record blockhashes_ready (txn : Txn T) t_canonical t_numbers t_progress (p : Z) : Prop := {
  bh_writable : txn_ro txn = false;
  bh_canonical : table_at kCanonicalHashes txn t_canonical;
  bh_canonical_plain : tb_dupsort t_canonical = false;
  bh_rows x : x ∈ tb_items t_canonical -> exists y, hash_row_ok y /\ x = hash_row y;
  bh_count : Z.of_nat (rows t_canonical) < 2 ^ 40;
  bh_one_number n m h : canonical t_canonical n h -> canonical t_canonical m h -> n = m;
  bh_numbers : table_at kHeaderNumbers txn t_numbers;
  bh_numbers_plain : tb_dupsort t_numbers = false;
  bh_stage : table_at kSyncStageProgress txn t_progress;
  bh_stage_plain : tb_dupsort t_progress = false;
  bh_progress : get_stage_progress txn kBlockHashesKey = Ok (p, txn);
  bh_number : 0 <= p < 2 ^ 32
}.

(** The rows from a block on, and what the stage collects of them. *)
Lemma collect_hashes (txn : Txn T) t_canonical t_numbers t_progress p : blockhashes_ready txn t_canonical t_numbers t_progress p ->
  let start := mkBlockHashes (new_collector stage_buffer_size) (p + 1) 0 0 in
  scan (rows t_canonical) t_canonical blockhashes_step (seek_exact t_canonical (block_key (p + 1))) start = Ok start
    /\ (forall h, ~ canonical t_canonical (p + 1) h)
  \/ (exists h, canonical t_canonical (p + 1) h) /\ exists L, L <> [] /\ Forall hash_row_ok L /\ StronglySorted number_lt L
    /\ zlen L < 2 ^ 40 /\ (forall n h, (n, h) ∈ L <-> canonical t_canonical n h /\ p < n)
    /\ (consecutive (p + 1) L = true <-> no_gap t_canonical p)
    /\ scan (rows t_canonical) t_canonical blockhashes_step (seek_exact t_canonical (block_key (p + 1))) start
       = for_each blockhashes_step (map hash_row L) start.
Proof.
  intros Hr start. pose proof (bh_number _ _ _ _ _ Hr) as Hp.
  destruct (scan_exact t_canonical (block_key (p + 1)) blockhashes_step start (block_key_nonempty _))
    as [[E Hnone]|((x & Hx & Ex) & l & E & Hin & Hs & Hl)]; [left|right].
  - split; [done|]. intros h [_ Hh]. by apply (Hnone _ Hh).
  - assert (exists h, canonical t_canonical (p + 1) h) as Hfirst.
    { destruct (bh_rows _ _ _ _ _ Hr x Hx) as ([n h] & Hok & ->). exists h. unfold hash_row in Ex. cbn in Ex.
      destruct Hok as [Hn Hh]. cbn in Hn. apply to_be_inj8 in Ex as <-; [by split|unfold wf_u64; lia..]. }
    split; [done|]. destruct (rows_as_hashes l) as (L & -> & HL);
      [apply Forall_forall; intros y [Hy _]%Hin; by apply (bh_rows _ _ _ _ _ Hr)|].
    assert (forall n h, (n, h) ∈ L <-> canonical t_canonical n h /\ p < n) as HinL by (by apply hashes_from).
    assert (StronglySorted number_lt L) as HsL.
    { apply (rows_numbers_lt t_canonical); [apply Hr| |done|done]. intros [n h] Hnh. by apply HinL. }
    destruct Hfirst as [h0 Hh0]. assert ((p + 1, h0) ∈ L) as Hin0 by (apply HinL; split; [done|lia]).
    exists L. rewrite length_map in Hl. pose proof (bh_count _ _ _ _ _ Hr). split_and!; try done; [by intros ->; apply elem_of_nil in Hin0|lia|].
    rewrite consecutive_spec; [|done|intros [n h] Hn; apply HinL in Hn as [_ Hn]; cbn; lia]. split.
    + intros Hc n m h Hn Hm. destruct (Hc m) as [h' Hh']; [lia|exists (n, h); split; [apply HinL; split; [done|lia]|cbn; lia]|].
      exists h'. by apply HinL.
    + intros Hg m Hm ([n h] & Hn & Hmn). apply HinL in Hn as [Hn _]. destruct (Hg n m h Hn) as [h' Hh']; [cbn in Hmn; lia|].
      exists h'. apply HinL. split; [done|lia].
Qed.

(** The numbers after a run: each canonical hash behind the progress has its number, all others are as before. *)
Definition hashes_turned t_canonical t_numbers (p : Z) (txn' : Txn T) : Prop :=
  exists t' last, table_at kHeaderNumbers txn' t' /\ tb_dupsort t' = false
    /\ get_stage_progress txn' kBlockHashesKey = Ok (last, txn')
    /\ p < last /\ (exists h, canonical t_canonical last h) /\ (forall n h, canonical t_canonical n h -> n <= last)
    /\ forall h d, (h, d) ∈ tb_items t' <-> (exists n, canonical t_canonical n h /\ p < n /\ d = block_key n)
         \/ (h, d) ∈ tb_items t_numbers /\ forall n, p < n -> ~ canonical t_canonical n h.

Lemma hashes_one_key t p L : (forall n m h, canonical t n h -> canonical t m h -> n = m) -> StronglySorted number_lt L ->
  (forall n h, (n, h) ∈ L <-> canonical t n h /\ p < n) -> NoDup (map entry_key (map hash_entry L)).
Proof.
  intros Hone Hs Hin. rewrite map_map. cbn [hash_entry entry_key].
  assert (forall n h, (n, h) ∈ L -> canonical t n h) as Hc by (intros n h Hn; by apply Hin). clear Hin.
  induction Hs as [|[n h] L Hs IH Hlt]; [constructor|]. cbn [map]. constructor.
  - intros ([m h'] & E & Hm)%list_elem_of_fmap. cbn in E. subst h'. rewrite Forall_forall in Hlt. specialize (Hlt _ Hm).
    unfold number_lt in Hlt. cbn in Hlt. assert (n = m); [|lia]. apply (Hone n m h); apply Hc; [by left|by right].
  - apply IH. intros m h' Hm. apply Hc. by right.
Qed.

Lemma consecutive_last L : forall n x, consecutive n (x :: L) = true ->
  (exists h, (n + zlen (x :: L) - 1, h) ∈ x :: L) /\ forall m h, (m, h) ∈ x :: L -> m <= n + zlen (x :: L) - 1.
Proof.
  induction L as [|y L IH]; intros n [k h] Hc; cbn [consecutive fst] in Hc; apply andb_true_iff in Hc as [->%Z.eqb_eq Hc].
  - cbn. split; [exists h; rewrite Z.add_simpl_r; by left|]. intros m h' Hm%list_elem_of_singleton. injection Hm. lia.
  - destruct (IH (n + 1) y Hc) as [[h' Hh'] Hle]. cbn [length] in *.
    replace (n + 1 + Z.of_nat (S (length L)) - 1) with (n + Z.of_nat (S (S (length L))) - 1) in * by lia.
    split; [exists h'; by right|]. intros m h2 [E|Hm]%elem_of_cons; [injection E; lia|by apply (Hle m h2)].
Qed.

(** The load of what was collected and the record of the progress. *)
Lemma turn_hashes (txn : Txn T) t_canonical t_numbers t_progress p L c ls :
  blockhashes_ready txn t_canonical t_numbers t_progress p ->
  L <> [] -> Forall hash_row_ok L -> StronglySorted number_lt L -> zlen L < 2 ^ 40 ->
  (forall n h, (n, h) ∈ L <-> canonical t_canonical n h /\ p < n) -> consecutive (p + 1) L = true ->
  collected c ls (map hash_entry L) ->
  exists txn1 txn', load_upsert kHeaderNumbers c txn = Ok txn1
    /\ set_stage_progress txn1 kBlockHashesKey (p + zlen L) = Ok txn' /\ hashes_turned t_canonical t_numbers p txn'.
Proof.
  intros Hr Hne HL Hs Hlen Hin Hcons Hc. destruct Hr as [Hro Hcan Hcanp Hrows Hcount Hone Hnum Hnump Hst Hstp Hget Hp].
  destruct (load_upsert_spec kHeaderNumbers txn t_numbers c ls (map hash_entry L) Hnum Hnump Hc) as (t' & E1 & Hd' & Hi').
  { pose proof (hash_weight L HL). lia. }
  { by apply (hashes_one_key t_canonical p). }
  { apply Forall_map. eapply Forall_impl; [exact HL|]. intros [n h] [_ Hh]. unfold key_fits. cbn in *. rewrite Hh. unfold kHashLength. lia. }
  assert (exists x L', L = x :: L') as (x & L' & EL) by (destruct L as [|x L']; [done|by exists x, L']).
  assert ((exists h, (p + 1 + zlen L - 1, h) ∈ L) /\ forall m h, (m, h) ∈ L -> m <= p + 1 + zlen L - 1) as [[h Hh] Hle]
    by (subst L; by apply consecutive_last).
  replace (p + 1 + zlen L - 1) with (p + zlen L) in * by lia.
  set (txn1 := with_table kHeaderNumbers t' txn).
  assert (table_at kSyncStageProgress txn1 t_progress) as Hst1 by (unfold table_at; cbn; rewrite lookup_insert_ne; done).
  assert (canonical t_canonical (p + zlen L) h) as Hlast by by apply Hin.
  destruct (stage_written txn1 t_progress kBlockHashesKey (p + zlen L)) as (t2 & E2 & Eget & _ & _); try done.
  { destruct Hlast as [[Hn _] _]. cbn in Hn. unfold wf_u64. lia. }
  exists txn1, (with_table kSyncStageProgress t2 txn1). split; [done|]. split; [done|].
  exists t', (p + zlen L). split_and!; try done.
  - unfold table_at. cbn. rewrite lookup_insert_ne by done. apply lookup_insert_eq.
  - subst L. cbn [length]. lia.
  - by exists h.
  - intros n h' Hn. destruct (Z.le_gt_cases n p); [lia|]. apply (Hle n h'), Hin. split; [done|lia].
  - intros k d. rewrite Hi'. split.
    + intros [(e & ([n h'] & -> & Hn)%list_elem_of_fmap & [= -> ->])|[Hx Hno]].
      * left. apply Hin in Hn as [Hn Hpn]. by exists n.
      * right. split; [done|]. intros n Hpn Hn. apply (Hno (hash_entry (n, k))); [|done]. apply list_elem_of_fmap_2, Hin. by split.
    + intros [(n & Hn & Hpn & ->)|[Hx Hno]].
      * left. exists (hash_entry (n, k)). split; [|done]. apply list_elem_of_fmap_2, Hin. by split.
      * right. split; [done|]. intros e ([n h'] & -> & Hn)%list_elem_of_fmap E. cbn in E. subst h'.
        apply Hin in Hn as [Hn Hpn]. by apply (Hno n).
Qed.

End BlockHashes.

(** * Properties *)

(** C20: The stage of the block hashes turns the canonical hashes around. From the progress [p] it has nothing to do when block
    [p + 1] has no canonical hash. Otherwise, when the numbers of the canonical blocks have no gap behind [p], it ends
    with the exit code 0: every canonical hash behind [p] then has its number, all other hashes keep what they had,
    and the progress is the last canonical block. With a gap it ends with the exit code -5 and commits nothing. *)
Theorem blockhashes_correct {T : Type} `{LmdbLaws T} (txn : Txn T) (t_canonical t_numbers t_progress : T) (p : Z) :
  blockhashes_ready txn t_canonical t_numbers t_progress p ->
  exists e, blockhashes txn = Ok e
    /\ ((forall h, ~ canonical t_canonical (p + 1) h) -> exit_code e = 0 /\ committed e = txn)
    /\ (forall h, canonical t_canonical (p + 1) h ->
         (no_gap t_canonical p -> exit_code e = 0 /\ hashes_turned t_canonical t_numbers p (committed e))
         /\ (~ no_gap t_canonical p -> exit_code e = -5 /\ committed e = txn)).
Proof.
  intros Hr. pose proof (bh_number _ _ _ _ _ Hr) as Hp. unfold blockhashes, open_first.
  rewrite (open_table_spec _ _ _ (bh_canonical _ _ _ _ _ Hr)), (open_table_spec _ _ _ (bh_numbers _ _ _ _ _ Hr)). cbn [result_bind].
  unfold blockhashes_body. rewrite (bh_progress _ _ _ _ _ Hr). cbn [result_bind]. rewrite u64_small by lia.
  destruct (collect_hashes txn _ _ _ p Hr) as [[-> Hnone]|([h0 Hh0] & L & Hne & HL & Hs & Hlen & Hin & Hcons & ->)].
  - cbn [result_bind blocks_processed_count Z.eqb]. eexists. split; [done|]. split; [done|]. intros h Hh. by destruct (Hnone h).
  - pose proof (blockhashes_loop (p + 1) L ltac:(lia) (mkBlockHashes (new_collector stage_buffer_size) (p + 1) 0 0) [] []
        (new_collector_ok _) ltac:(constructor) HL ltac:(cbn; lia) ltac:(cbn; lia) ltac:(cbn; lia)) as Hloop.
    cbn [expected_block_number hashes_block_number] in Hloop.
    destruct (for_each blockhashes_step (map hash_row L) _) as [s| |]; [|destruct Hloop as [-> Hc]|done]; cbn [result_bind].
    + destruct Hloop as (Hc & (ls & Hcol) & Hcount & Hlast). rewrite Hcount, Hlast. cbn [app] in Hcol.
      assert (0 < zlen L) by (destruct L; [done|cbn; lia]).
      destruct (Z.eqb_spec (p + 1 + zlen L - (p + 1)) 0); [lia|].
      destruct (turn_hashes txn _ _ _ p L _ ls Hr Hne HL Hs Hlen Hin Hc Hcol) as (txn1 & txn' & -> & E2 & Hturned).
      cbn [result_bind]. destruct L as [|x L]; [done|].
      replace (p + 1 + zlen (x :: L) - 1) with (p + zlen (x :: L)) by lia. rewrite E2. cbn [result_bind].
      eexists. split; [done|]. split; [intros Hno; by destruct (Hno h0)|]. intros h _. split; [done|].
      intros Hg. by destruct Hg; apply Hcons.
    + eexists. split; [done|]. split; [intros Hno; by destruct (Hno h0)|]. intros h _. split; [|done].
      intros Hg%Hcons. congruence.
Qed.


(** The hashes of the blocks 0 to 2; the genesis block has its number already. *)
Definition demo_hash (n : Z) : bytes := zero_bytes 31 ++ [9 - n].

Definition demo_canonical : RefTable :=
  RefPlain {[block_key 0 := demo_hash 0; block_key 1 := demo_hash 1; block_key 2 := demo_hash 2]}.
Definition demo_numbers : RefTable := RefPlain {[demo_hash 0 := block_key 0]}.

Definition demo_chain : Txn RefTable :=
  mkTxn false (list_to_map [(config_name kCanonicalHashes, demo_canonical); (config_name kHeaderNumbers, demo_numbers);
                            (config_name kSyncStageProgress, RefPlain ∅)]).

Lemma demo_canonical_rows x : x ∈ tb_items demo_canonical -> exists n, 0 <= n <= 2 /\ x = hash_row (n, demo_hash n).
Proof.
  destruct x as [k d]. change (tb_items demo_canonical) with (ref_items demo_canonical). unfold demo_canonical.
  rewrite ref_items_plain, !lookup_insert_Some, lookup_singleton_Some.
  intros [[<- <-]|[_ [[<- <-]|[_ [<- <-]]]]]; [exists 0|exists 1|exists 2]; (split; [lia|done]).
Qed.

Lemma demo_canonical_hash n h : canonical demo_canonical n h -> 0 <= n <= 2 /\ h = demo_hash n.
Proof.
  intros [Hok Hi]. destruct (demo_canonical_rows _ Hi) as (m & Hm & E).
  assert (hash_row_ok (m, demo_hash m)) as Hok' by (split; [cbn; lia|done]).
  apply hash_row_inj in E; [|done..]. apply pair_equal_spec in E as [-> ->]. split; [exact Hm|reflexivity].
Qed.

Lemma demo_chain_ready : blockhashes_ready demo_chain demo_canonical demo_numbers (RefPlain ∅) 0.
Proof.
  split; try reflexivity.
  - intros x (n & Hn & ->)%demo_canonical_rows. exists (n, demo_hash n). split; [|done]. split; [cbn; lia|done].
  - intros n m h [_ ->]%demo_canonical_hash [_ E]%demo_canonical_hash. unfold demo_hash in E.
    apply app_inj_tail in E as [_ E]. lia.
  - lia.
Qed.

Lemma demo_no_gap : no_gap demo_canonical 0.
Proof.
  intros n m h [Hn _]%demo_canonical_hash Hm. exists (demo_hash m). split; [split; [cbn; lia|done]|].
  assert (m = 1 \/ m = 2) as [->| ->] by lia; apply ref_items_plain; vm_compute; reflexivity.
Qed.

Lemma blockhashes_correct_witness :
  exists e, blockhashes demo_chain = Ok e /\ exit_code e = 0 /\ hashes_turned demo_canonical demo_numbers 0 (committed e).
Proof.
  destruct (blockhashes_correct demo_chain demo_canonical demo_numbers (RefPlain ∅) 0 demo_chain_ready) as (e & E & _ & Hrun).
  exists e. split; [exact E|]. destruct (Hrun (demo_hash 1)) as [Hgood _]; [|exact (Hgood demo_no_gap)].
  split; [split; [cbn; lia|done]|]. apply ref_items_plain. vm_compute. reflexivity.
Defined.
