(* ===== verification/HistoryIndex.v ===== *)
(** * HistoryIndex: cmd/history_index.cpp, cmd/log_index.cpp

    The indices of the blocks in which an account, a word of storage, an address of a log or a topic occurs: bitmaps
    gathered by key, spilled to the external sort when they take too much space, merged with what the index has,
    and cut into chunks. *)

From stdpp Require Import gmap sets strings.
From S2P Require Import Prelude Util Etl Bitmap Lmdb DbUtil AccessLayer Stages.
Local Open Scope Z_scope.
Local Open Scope silk_scope.

Section Index.
Context {T : Type} `{Lmdb T} {R : Type} `{Roaring R}.

(** ** What both programs do with bitmaps *)

(** An unordered map: in which order its entries are collected is not observed, as they are sorted. *)
Definition flush_bitmaps (collector : Collector) (map : gmap bytes R) : result DbError Collector :=
  thrown (collect_all (List.map (fun e => mkEntry (fst e) (rb_write (snd e))) (map_to_list map)) collector).

(** [map.at(key).add(block_number)], after an empty bitmap is put where there is none. *)
Definition add_block (key : bytes) (block_number : Z) (map : gmap bytes R) : gmap bytes R :=
  <[key := rb_add block_number (default rb_empty (map !! key))]> map.

(** The chunks of a bitmap, each under the key and its greatest number, the last one under the greatest of all
    numbers. A cut takes at least one value away. *)
Fixpoint chunk_loop (fuel : nat) (cut_left : R -> Z -> result unit (R * R)) (width : nat) (flags : PutFlags)
    (key : bytes) (bm : R) (t : T) : result DbError T :=
  if (size (rb_values bm) =? 0)%nat then Ok t
  else
    match fuel with
    | O => Undef
    | S fuel =>
        try (current_chunk, bm) := thrown (cut_left bm kBitmapChunkLimit) in
        let suffix := if (size (rb_values bm) =? 0)%nat then 256 ^ Z.of_nat width - 1 else rb_maximum current_chunk in
        try t := table_put_flags flags t (key ++ to_be width suffix) (rb_write current_chunk) in
        chunk_loop fuel cut_left width flags key bm t
    end.

(** The transform of the load. *)
Definition index_loader (cut_left : R -> Z -> result unit (R * R)) (width : nat) (flags : PutFlags) (entry : Entry) (t : T)
  : result DbError T :=
  try bm := thrown (Bitmap.read (entry_value entry)) in
  let last_chunk_index := entry_key entry ++ to_be width (256 ^ Z.of_nat width - 1) in
  try previous_bitmap_bytes := table_get t last_chunk_index in
  try (bm, flags) :=
    (match previous_bitmap_bytes with
     | None => Ok (bm, flags)
     | Some previous => try bm2 := thrown (Bitmap.read previous) in Ok (rb_or bm bm2, NO_FLAGS)
     end) in
  chunk_loop (size (rb_values bm)) cut_left width flags (entry_key entry) bm t.

(** A table that is rebuilt is emptied first. *)
Definition open_cleared (full : bool) (config : TableConfig) (txn : Txn T) : result DbError (Txn T) :=
  if full then
    try (t, txn) := open_created config txn in
    match table_clear t with Ok t => Ok (with_table config t txn) | _ => Undef end
  else Ok txn.

(** ** cmd/history_index.cpp *)

Definition history_buffer_limit : Z := 256 * 2 ^ 20.

Record HistoryIndex : Type := mkHistoryIndex {
  bitmaps : gmap bytes R;
  allocated_space : Z;
  history_block_number : Z;
  history_collector : Collector
}.

(** A string made from a pointer to characters ends before the first zero; without one it is read past the array. *)
Fixpoint c_string (l : bytes) : result DbError bytes :=
  match l with
  | [] => Undef
  | b :: l => if b =? 0 then Ok [] else try s := c_string l in Ok (b :: s)
  end.

Definition composite_key (storage : bool) (key data : bytes) : result DbError bytes :=
  if storage then
    try address := bytes_at 8 kAddressLength key in
    try location := bytes_at 0 kHashLength data in
    c_string (address ++ location)
  else bytes_at 0 kAddressLength data.

Definition history_step (storage : bool) (x : item) (s : HistoryIndex) : result DbError HistoryIndex :=
  let '(key, data) := x in
  try composite := composite_key storage key data in
  try block_number := number_at_front key in
  let maps := add_block composite block_number (bitmaps s) in
  let allocated := u64 (allocated_space s + 8) in
  if history_buffer_limit <? u64 (64 * Z.of_nat (size maps) + allocated) then
    try c := flush_bitmaps (history_collector s) maps in Ok (mkHistoryIndex ∅ 0 block_number c)
  else Ok (mkHistoryIndex maps allocated block_number (history_collector s)).

Definition history_index_body (full storage : bool) (changeset_table : T) (txn : Txn T) : result DbError (option (Txn T)) :=
  let index_config := if storage then kStorageHistory else kAccountHistory in
  let stage_key := if storage then kStorageHistoryIndexKey else kAccountHistoryKey in
  try (last_processed_block_number, txn) := get_stage_progress txn stage_key in
  let last_processed_block_number := if full then 0 else last_processed_block_number in
  try txn := open_cleared full index_config txn in
  try s := scan (rows changeset_table) changeset_table (history_step storage)
             (seek_from changeset_table (to_be 8 last_processed_block_number)) (mkHistoryIndex ∅ 0 0 (new_collector stage_buffer_size)) in
  try c := flush_bitmaps (history_collector s) (bitmaps s) in
  if collector_size c =? 0 then Ok None
  else
    let db_flags := if last_processed_block_number =? 0 then MDB_APPEND else NO_FLAGS in
    try (index_table, txn) := open_created index_config txn in
    try index_table := load_with (index_loader cut_left_64 8) db_flags c index_table in
    try txn := set_stage_progress (with_table index_config index_table txn) stage_key (history_block_number s) in
    Ok (Some txn).

Definition history_index (full storage : bool) (txn : Txn T) : result unit (StageEnd T) :=
  try changeset_table := open_first (if storage then kPlainStorageChangeSet else kPlainAccountChangeSet) txn in
  run_stage txn (history_index_body full storage changeset_table txn).

(** ** cmd/log_index.cpp *)

Definition log_buffer_limit : Z := 512 * 2 ^ 20.
Definition log_collector_size : Z := 256 * 2 ^ 20.

(** The byte strings that the decoder of cborcpp finds in an input, in order: it calls [on_bytes] with each. *)
Class CborDecoder : Type := { cbor_byte_strings : bytes -> list bytes }.

Record LogIndex : Type := mkLogIndex {
  topic_bitmaps : gmap bytes R;
  addresses_bitmaps : gmap bytes R;
  topics_allocated_space : Z;
  addrs_allocated_space : Z;
  log_block_number : Z;
  topic_collector : Collector;
  addresses_collector : Collector
}.

(** [listener_log_index::on_bytes]: the bitmaps hold 32-bit numbers. *)
Definition on_bytes (s : LogIndex) (data : bytes) : LogIndex :=
  let n := u32 (log_block_number s) in
  if (length data =? kHashLength)%nat then
    mkLogIndex (add_block data n (topic_bitmaps s)) (addresses_bitmaps s) (u64 (topics_allocated_space s + Z.of_nat kHashLength))
      (addrs_allocated_space s) (log_block_number s) (topic_collector s) (addresses_collector s)
  else if (length data =? kAddressLength)%nat then
    mkLogIndex (topic_bitmaps s) (add_block data n (addresses_bitmaps s)) (topics_allocated_space s)
      (u64 (addrs_allocated_space s + Z.of_nat kAddressLength)) (log_block_number s) (topic_collector s) (addresses_collector s)
  else s.

Definition log_step `{CborDecoder} (x : item) (s : LogIndex) : result DbError LogIndex :=
  let '(key, data) := x in
  try block_number := number_at_front key in
  let s := mkLogIndex (topic_bitmaps s) (addresses_bitmaps s) (topics_allocated_space s) (addrs_allocated_space s)
             block_number (topic_collector s) (addresses_collector s) in
  let s := foldl on_bytes s (cbor_byte_strings data) in
  try s := (if log_buffer_limit <? topics_allocated_space s then
              try c := flush_bitmaps (topic_collector s) (topic_bitmaps s) in
              Ok (mkLogIndex ∅ (addresses_bitmaps s) 0 (addrs_allocated_space s) (log_block_number s) c (addresses_collector s))
            else Ok s) in
  if log_buffer_limit <? addrs_allocated_space s then
    try c := flush_bitmaps (addresses_collector s) (addresses_bitmaps s) in
    Ok (mkLogIndex (topic_bitmaps s) ∅ (topics_allocated_space s) 0 (log_block_number s) (topic_collector s) c)
  else Ok s.

Definition log_index_body `{CborDecoder} (full : bool) (log_table : T) (txn : Txn T) : result DbError (option (Txn T)) :=
  try (last_processed_block_number, txn) := get_stage_progress txn kLogIndexKey in
  let last_processed_block_number := if full then 0 else last_processed_block_number in
  try txn := open_cleared full kLogTopicIndex txn in
  try txn := open_cleared full kLogAddressIndex txn in
  try s := scan (rows log_table) log_table log_step (seek_from log_table (to_be 8 last_processed_block_number))
             (mkLogIndex ∅ ∅ 0 0 0 (new_collector log_collector_size) (new_collector log_collector_size)) in
  try topics := flush_bitmaps (topic_collector s) (topic_bitmaps s) in
  try addresses := flush_bitmaps (addresses_collector s) (addresses_bitmaps s) in
  let db_flags := if last_processed_block_number =? 0 then MDB_APPEND else NO_FLAGS in
  try (t, txn) := open_created kLogTopicIndex txn in
  try t := load_with (index_loader cut_left_32 4) db_flags topics t in
  let txn := with_table kLogTopicIndex t txn in
  try (t, txn) := open_created kLogAddressIndex txn in
  try t := load_with (index_loader cut_left_32 4) db_flags addresses t in
  try txn := set_stage_progress (with_table kLogAddressIndex t txn) kLogIndexKey (log_block_number s) in
  Ok (Some txn).

Definition log_index `{CborDecoder} (full : bool) (txn : Txn T) : result unit (StageEnd T) :=
  try log_table := open_first kLogs txn in
  run_stage txn (log_index_body full log_table txn).

End Index.
Arguments HistoryIndex R : clear implicits.
Arguments LogIndex R : clear implicits.
