(* ===== verification/HistoryIndexCorrect.v ===== *)
(** * HistoryIndexCorrect: the index of account changes that cmd/history_index.cpp builds

    From the change sets of the blocks to the index by which the past is read: after the stage the index has the blocks
    of an account, which is what the historical readers need ([History.index_ok]), as long as they fit into one chunk.
    The blocks that do not are cut at their greatest number, which is lost ([index_loader_exact]). *)

From Stdlib Require Import Sorted.
From stdpp Require Import gmap sets strings sorting.
From S2P Require Import Prelude Util Rlp Etl Bitmap Lmdb DbUtil AccessLayer DbBufferCorrect History Stages StagesCorrect HistoryIndex.
Local Open Scope Z_scope.
Local Open Scope silk_scope.

Section Correct.
Context {T : Type} `{LmdbLaws T} {R : Type} `{RoaringLaws R} `{!RoaringSizes R}.
Implicit Types (t : T) (f g : bytes -> Z -> Prop).

Definition last_suffix : bytes := to_be 8 (2 ^ 64 - 1).

(** The serialised form of a bitmap that is not empty, with these values. *)
Definition holds_values (d : bytes) (P : Z -> Prop) : Prop :=
  exists r : R, Bitmap.read d = Ok r /\ rb_values r <> ∅ /\ forall n, n ∈ rb_values r <-> P n.

(** The index has the blocks [f] of each account, in one chunk each. *)
Record index_holds t f : Prop := {
  ih_dup : tb_dupsort t = false;
  ih_rows x : x ∈ tb_items t -> exists a, is_address a /\ fst x = a ++ last_suffix /\ holds_values (snd x) (f a);
  ih_all a n : f a n -> is_address a /\ exists d, (a ++ last_suffix, d) ∈ tb_items t
}.

Lemma index_holds_ext t f g : (forall a n, f a n <-> g a n) -> index_holds t f -> index_holds t g.
Proof.
  intros E [Hd Hr Ha]. split; [done| |].
  - intros x Hx. destruct (Hr x Hx) as (a & Hlen & Ek & r & Er & Hne & Hv). exists a. split; [done|]. split; [done|].
    exists r. split; [done|]. split; [done|]. intros n. by rewrite Hv, E.
  - intros a n Hg. apply (Ha a n). by apply E.
Qed.

(** What has to be true of the blocks that are put into the index. *)
Definition in_range f : Prop := forall a n, f a n -> 0 <= n < 2 ^ 32 - 1.

(** The blocks of the account are few enough for one chunk. *)
Definition account_fits f (a : bytes) : Prop :=
  forall r : R, (forall n, n ∈ rb_values r -> f a n) -> rb_size_in_bytes r <= kBitmapChunkLimit.

Lemma account_fits_sub f g a : (forall n, f a n -> g a n) -> account_fits g a -> account_fits f a.
Proof. intros Hs Hf r Hv. apply Hf. intros n Hn. by apply Hs, Hv. Qed.

(** What the index keeps of all the blocks: nothing else, everything of an account that fits, and of any other account
    a block that is no later than any. *)
Record kept_of (kept all : bytes -> Z -> Prop) : Prop := {
  ko_sound a n : kept a n -> all a n;
  ko_fits a n : account_fits all a -> all a n -> kept a n;
  ko_first a n : all a n -> exists m, m <= n /\ kept a m
}.

Lemma kept_all f : kept_of f f.
Proof. split; [done|done|]. intros a n Hf. exists n. split; [lia|done]. Qed.

Lemma kept_ext kept f g : (forall a n, f a n <-> g a n) -> kept_of kept f -> kept_of kept g.
Proof.
  intros E [Hs Hf Hm]. split.
  - intros a n Hk. by apply E, Hs.
  - intros a n Hfit Hg. apply Hf; [|by apply E]. eapply account_fits_sub; [|exact Hfit]. intros m. apply E.
  - intros a n Hg. by apply Hm, E.
Qed.

(** Two loads, one after the other. *)
Lemma kept_twice k1 k2 f g : kept_of k1 f -> kept_of k2 (fun a n => k1 a n \/ g a n) -> kept_of k2 (fun a n => f a n \/ g a n).
Proof.
  intros Hk1 Hk2. split.
  - intros a n [Hk|Hg]%(ko_sound _ _ Hk2); [left; by apply (ko_sound _ _ Hk1)|by right].
  - intros a n Hfit Ha. apply (ko_fits _ _ Hk2).
    + eapply account_fits_sub; [|exact Hfit]. intros m [Hk|Hg]; [left; by apply (ko_sound _ _ Hk1)|by right].
    + destruct Ha as [Hf|Hg]; [left|by right]. apply (ko_fits _ _ Hk1); [|done].
      eapply account_fits_sub; [|exact Hfit]. intros m Hm. by left.
  - intros a n [Hf|Hg].
    + destruct (ko_first _ _ Hk1 a n Hf) as (m & Hm & Hk). destruct (ko_first _ _ Hk2 a m) as (m2 & Hm2 & Hin2); [by left|].
      exists m2. split; [lia|done].
    + apply (ko_first _ _ Hk2). by right.
Qed.

(** ** One entry *)

Lemma size_values_zero (r : R) : (size (rb_values r) =? 0)%nat = true <-> rb_values r = ∅.
Proof. rewrite Nat.eqb_eq, size_empty_iff. split; [apply leibniz_equiv|by intros ->]. Qed.

(** What is left of a bitmap in the one chunk that is made of it. *)
Definition chunk_values (bm : R) : gset Z :=
  if rb_size_in_bytes bm <=? kBitmapChunkLimit then rb_values bm else rb_values bm ∖ {[rb_maximum bm]}.

(** The chunk loop writes one chunk: the bitmap, or everything but its greatest number when it is over the limit. *)
Lemma chunk_loop_one flags key (bm : R) t : block_numbers bm ->
  exists chunk : R, rb_values chunk = chunk_values bm
    /\ chunk_loop (size (rb_values bm)) cut_left_64 8 flags key bm t
       = table_put_flags flags t (key ++ last_suffix) (rb_write chunk).
Proof.
  intros Hbm. destruct (cut_left_correct bm kBitmapChunkLimit Hbm (big_bitmap_spread bm Hbm)) as [(chunk & rest & Ec & Er & Ev) _].
  exists chunk. split; [done|]. destruct Hbm as [Hne _].
  destruct (size (rb_values bm)) as [|k] eqn:Es; [by apply size_empty_inv, leibniz_equiv in Es|].
  cbn [chunk_loop]. rewrite Es. cbn [Nat.eqb]. rewrite Ec. cbn [thrown result_bind].
  rewrite (proj2 (size_values_zero rest) Er). change (256 ^ Z.of_nat 8 - 1) with (2 ^ 64 - 1). fold last_suffix.
  destruct (table_put_flags _ _ _ _) as [t'| |]; cbn [result_bind]; [|done..].
  destruct k; cbn [chunk_loop]; by rewrite (proj2 (size_values_zero rest) Er).
Qed.

(** The chunk has the first block, and all of those that fit. *)
Lemma chunk_values_kept (bm : R) : block_numbers bm ->
  chunk_values bm <> ∅ /\ (forall n, n ∈ chunk_values bm -> n ∈ rb_values bm)
  /\ (forall n, n ∈ rb_values bm -> exists m, m <= n /\ m ∈ chunk_values bm)
  /\ (rb_size_in_bytes bm <= kBitmapChunkLimit -> chunk_values bm = rb_values bm).
Proof.
  intros Hbm. pose proof (proj1 Hbm) as Hne. unfold chunk_values. destruct (Z.leb_spec (rb_size_in_bytes bm) kBitmapChunkLimit) as [Hle|Hbig].
  - split_and!; try done. intros n Hn. exists n. split; [lia|done].
  - pose proof (big_bitmap_spread bm Hbm Hbig) as Hlt. destruct (rb_minimum_values bm Hne) as [Hin Hmin].
    assert (rb_minimum bm ∈ rb_values bm ∖ {[rb_maximum bm]}) as Hfirst
      by (apply elem_of_difference; split; [done|]; rewrite elem_of_singleton; lia).
    split; [set_solver|]. split; [set_solver|]. split; [|lia]. intros n Hn. exists (rb_minimum bm). split; [by apply Hmin|done].
Qed.

(** What a row of the loader finds in the table: nothing, or what it puts comes behind everything. *)
Definition may_append flags t (a : bytes) : Prop :=
  flags = NO_FLAGS
  \/ flags = MDB_APPEND /\ forall x, x ∈ tb_items t -> fst x <> a ++ last_suffix -> bytes_ltb (fst x) (a ++ last_suffix) = true.

Lemma index_key_fits a : is_address a -> key_fits (a ++ last_suffix).
Proof. intros Ha. unfold key_fits, last_suffix. rewrite length_app, length_to_be, Ha. unfold kAddressLength. lia. Qed.

Lemma index_key_inj a b : is_address a -> is_address b -> a ++ last_suffix = b ++ last_suffix -> a = b.
Proof. intros Ha Hb E. apply app_inj_1 in E as [-> _]; [done|]. unfold is_address in *. congruence. Qed.

Lemma put_chunk flags t a d : tb_dupsort t = false -> is_address a ->
  may_append flags t a -> (flags = MDB_APPEND -> forall d, (a ++ last_suffix, d) ∉ tb_items t) ->
  exists t', table_put_flags flags t (a ++ last_suffix) d = Ok t' /\ tb_dupsort t' = false
    /\ forall x, x ∈ tb_items t' <-> x = (a ++ last_suffix, d) \/ x ∈ tb_items t /\ fst x <> a ++ last_suffix.
Proof.
  intros Hd Ha Hmay Hfresh. apply put_flags_plain; [done|by apply index_key_fits|]. destruct Hmay as [->|[-> Hlast]]; [by left|].
  right. split; [done|]. intros [k d'] Hx. apply Hlast; [done|]. intros E. cbn in E. subst k. by apply (Hfresh eq_refl d').
Qed.

(** The bitmap that an entry makes with what the index has of its account. *)
Lemma index_loader_bitmap flags t f a d (r : R) (P : Z -> Prop) : index_holds t f -> is_address a ->
  Bitmap.read d = Ok r -> rb_values r <> ∅ -> (forall n, n ∈ rb_values r <-> P n) -> may_append flags t a ->
  exists (bm : R) flags', index_loader (R := R) cut_left_64 8 flags (mkEntry a d) t
      = chunk_loop (size (rb_values bm)) cut_left_64 8 flags' a bm t
    /\ rb_values bm <> ∅ /\ (forall n, n ∈ rb_values bm <-> f a n \/ P n)
    /\ may_append flags' t a /\ (flags' = MDB_APPEND -> forall d', (a ++ last_suffix, d') ∉ tb_items t).
Proof.
  intros Hih Ha Er Hne Hv Hmay. unfold index_loader. cbn [entry_key entry_value]. rewrite Er. cbn [thrown result_bind].
  change (256 ^ Z.of_nat 8 - 1) with (2 ^ 64 - 1). fold last_suffix.
  destruct (table_get_spec t (a ++ last_suffix)) as (o & -> & Ho);
    [by apply key_fits_nonempty, index_key_fits|by apply plain_at_most_one, (ih_dup t f Hih)|]. cbn [result_bind].
  destruct o as [previous|].
  - destruct (ih_rows t f Hih _ (proj1 (Ho previous) eq_refl)) as (b & Hb & Eb & r2 & Er2 & _ & Hv2). cbn in Eb, Er2.
    apply index_key_inj in Eb as <-; [|done..]. rewrite Er2. cbn [thrown result_bind]. exists (rb_or r r2), NO_FLAGS. split; [done|].
    rewrite rb_or_values. split; [set_solver|]. split; [intros n; rewrite elem_of_union, Hv, Hv2; tauto|]. split; [by left|done].
  - exists r, flags. split; [done|]. split; [done|].
    assert (forall d', (a ++ last_suffix, d') ∉ tb_items t) as Hno by (intros d' Hx; by apply Ho in Hx).
    split; [|by split]. intros n. rewrite Hv. split; [by right|]. intros [Hf|]; [|done].
    destruct (ih_all t f Hih a n Hf) as (_ & d' & Hx). by destruct (Hno d').
Qed.

(** The index after a chunk is put for one account. *)
Lemma index_holds_put t t' f a (chunk : R) : index_holds t f -> is_address a -> rb_values chunk <> ∅ -> tb_dupsort t' = false ->
  (forall x, x ∈ tb_items t' <-> x = (a ++ last_suffix, rb_write chunk) \/ x ∈ tb_items t /\ fst x <> a ++ last_suffix) ->
  index_holds t' (fun b n => b = a /\ n ∈ rb_values chunk \/ b <> a /\ f b n).
Proof.
  intros Hih Ha Hne Hd' Hi. split; [done| |].
  - intros x [->|[Hx Hn]]%Hi.
    + exists a. split; [done|]. split; [done|]. destruct (rb_read_write chunk) as (r' & Er' & Ev').
      exists r'. cbn [snd]. unfold Bitmap.read. rewrite Er'. split; [done|]. rewrite Ev'. split; [done|]. intros n. tauto.
    + destruct (ih_rows t f Hih x Hx) as (b & Hb & Eb & r2 & Er2 & Hne2 & Hv2). exists b. split; [done|]. split; [done|].
      exists r2. split; [done|]. split; [done|]. intros n. rewrite Hv2.
      assert (b <> a) by congruence. tauto.
  - intros b n [[-> _]|[Hba Hf]]; [split; [done|]; eexists; apply Hi; by left|].
    destruct (ih_all t f Hih b n Hf) as (Hb & d' & Hx). split; [done|].
    exists d'. apply Hi. right. split; [done|]. cbn. intros E. by apply Hba, index_key_inj.
Qed.

(** What an entry does to the index: the blocks of its account become those of the one chunk that is made of the old
    and the new ones, and nothing else changes. A bitmap over the limit loses its greatest number here. *)
Lemma index_loader_exact flags t f a d (P : Z -> Prop) :
  index_holds t f -> is_address a -> holds_values d P -> may_append flags t a ->
  in_range (fun a' n => f a' n \/ a' = a /\ P n) ->
  exists t' (bm : R), index_loader (R := R) cut_left_64 8 flags (mkEntry a d) t = Ok t'
    /\ block_numbers bm /\ (forall n, n ∈ rb_values bm <-> f a n \/ P n)
    /\ index_holds t' (fun b n => b = a /\ n ∈ chunk_values bm \/ b <> a /\ f b n)
    /\ forall x, x ∈ tb_items t' -> fst x = a ++ last_suffix \/ x ∈ tb_items t.
Proof.
  intros Hih Ha (r & Er & Hne & Hv) Hmay Hrange.
  destruct (index_loader_bitmap flags t f a d r P Hih Ha Er Hne Hv Hmay) as (bm & flags' & -> & Hbne & Hbv & Hmay' & Hfresh).
  assert (block_numbers bm) as Hbm by (split; [done|]; intros n Hn; apply (Hrange a); apply Hbv in Hn; tauto).
  destruct (chunk_loop_one flags' a bm t Hbm) as (chunk & Ec & ->).
  destruct (put_chunk flags' t a (rb_write chunk) (ih_dup t f Hih) Ha Hmay' Hfresh) as (t' & -> & Hd' & Hi).
  exists t', bm. split_and!; try done; [|intros x [->|[Hx _]]%Hi; [by left|by right]]. rewrite <- Ec.
  apply (index_holds_put t); try done. rewrite Ec. by apply chunk_values_kept.
Qed.

(** An entry adds its blocks to those of its account, as far as they fit. *)
Lemma index_loader_spec flags t f a d (P : Z -> Prop) :
  index_holds t f -> is_address a -> holds_values d P -> may_append flags t a ->
  in_range (fun a' n => f a' n \/ a' = a /\ P n) ->
  exists t' kept, index_loader (R := R) cut_left_64 8 flags (mkEntry a d) t = Ok t'
    /\ index_holds t' kept /\ kept_of kept (fun a' n => f a' n \/ a' = a /\ P n)
    /\ forall x, x ∈ tb_items t' -> fst x = a ++ last_suffix \/ x ∈ tb_items t.
Proof.
  intros Hih Ha Hd Hmay Hrange.
  destruct (index_loader_exact flags t f a d P Hih Ha Hd Hmay Hrange) as (t' & bm & -> & Hbm & Hbv & Hih' & Hx).
  destruct (chunk_values_kept bm Hbm) as (_ & Hsound & Hfirst & Hwhole).
  exists t', (fun b n => b = a /\ n ∈ chunk_values bm \/ b <> a /\ f b n). split_and!; try done. split.
  - intros b n [[-> Hn]|[_ Hf]]; [|by left]. apply Hsound, Hbv in Hn. tauto.
  - intros b n Hfit Hall. destruct (decide (b = a)) as [->|Hba]; [left|right; tauto]. split; [done|].
    rewrite Hwhole; [apply Hbv; tauto|]. apply Hfit. intros m Hm. apply Hbv in Hm. tauto.
  - intros b n Hall. destruct (decide (b = a)) as [->|Hba]; [|exists n; split; [lia|tauto]].
    destruct (Hfirst n) as (m & Hm & Hk); [apply Hbv; tauto|]. exists m. tauto.
Qed.

(** ** The load *)

Definition in_entries (out : list Entry) : bytes -> Z -> Prop :=
  fun a n => exists e (r : R), e ∈ out /\ entry_key e = a /\ Bitmap.read (entry_value e) = Ok r /\ n ∈ rb_values r.

Definition entry_good (e : Entry) : Prop :=
  is_address (entry_key e) /\ exists r : R, Bitmap.read (entry_value e) = Ok r /\ rb_values r <> ∅.

Lemma in_entries_cons e out (r : R) a n : Bitmap.read (entry_value e) = Ok r ->
  in_entries (e :: out) a n <-> a = entry_key e /\ n ∈ rb_values r \/ in_entries out a n.
Proof.
  intros Er. split.
  - intros (e' & r' & [->|He]%elem_of_cons & <- & Er' & Hn); [left; split; [done|]; congruence|right; by exists e', r'].
  - intros [[-> Hn]|(e' & r' & He & <- & Er' & Hn)]; [exists e, r|exists e', r']; (split; [by (left || right)|done]).
Qed.

Lemma in_entries_nil a n : ~ in_entries [] a n.
Proof. intros (e & r & He & _). by apply elem_of_nil in He. Qed.

Lemma bytes_ltb_app_suffix s a b : length a = length b -> bytes_ltb (a ++ s) (b ++ s) = bytes_ltb a b.
Proof.
  revert b. induction a as [|x a IH]; intros [|y b]; try done; intros Hl; cbn [app]; [apply bytes_ltb_irrefl|].
  cbn [bytes_ltb]. rewrite IH by (cbn in Hl; lia). done.
Qed.

(** Nothing in the table is behind what is still to be loaded. *)
Definition in_front t (out : list Entry) : Prop :=
  forall e x, e ∈ out -> x ∈ tb_items t -> bytes_ltb (entry_key e ++ last_suffix) (fst x) = false.

Definition flags_fit flags t (out : list Entry) : Prop := flags = NO_FLAGS \/ flags = MDB_APPEND /\ in_front t out.

Lemma flags_fit_append flags t e out : flags_fit flags t (e :: out) -> may_append flags t (entry_key e).
Proof.
  intros [->|[-> Hf]]; [by left|]. right. split; [done|]. intros x Hx Hne.
  destruct (bytes_ltb (fst x) (entry_key e ++ last_suffix)) eqn:E; [done|].
  by destruct Hne; apply bytes_ltb_total; [|apply Hf; [by left|]].
Qed.

Lemma load_entries flags out : forall t f,
  index_holds t f -> Forall entry_good out -> StronglySorted entry_le out -> flags_fit flags t out ->
  in_range (fun a n => f a n \/ in_entries out a n) ->
  exists t' kept, for_each (index_loader (R := R) cut_left_64 8 flags) out t = Ok t'
    /\ index_holds t' kept /\ kept_of kept (fun a n => f a n \/ in_entries out a n).
Proof.
  induction out as [|e out IH]; intros t f Hih Hgood Hs Hff Hrange.
  - exists t, f. split; [done|]. split; [done|]. apply (kept_ext f f); [|apply kept_all]. intros a n. split; [by left|].
    intros [?|Hn]; [done|by apply in_entries_nil in Hn].
  - inversion Hgood as [|? ? [Ha (r & Er & Hne)] Hgood']; subst. inversion Hs as [|? ? Hs' Hle]; subst.
    assert (forall a n, (f a n \/ a = entry_key e /\ n ∈ rb_values r) \/ in_entries out a n <-> f a n \/ in_entries (e :: out) a n) as Eall
      by (intros a n; rewrite (in_entries_cons e out r a n Er); tauto).
    destruct (index_loader_spec flags t f (entry_key e) (entry_value e) (fun n => n ∈ rb_values r) Hih Ha)
      as (t1 & kept1 & E1 & Hih1 & Hk1 & Hrows).
    + exists r. split; [done|]. by split.
    + by apply (flags_fit_append flags t e out).
    + intros a n Hn. apply (Hrange a), Eall. by left.
    + destruct e as [k d]. cbn [entry_key entry_value] in *. cbn [for_each]. rewrite E1. cbn [result_bind].
      destruct (IH t1 kept1 Hih1 Hgood' Hs') as (t' & kept & E' & Hih' & Hk').
      * destruct Hff as [->|[-> Hf]]; [by left|]. right. split; [done|]. intros e' x He' Hx.
        destruct (Hrows x Hx) as [->|Hx0]; [|apply Hf; [by right|done]]. rewrite Forall_forall in Hle. specialize (Hle e' He').
        rewrite Forall_forall in Hgood'. destruct (Hgood' e' He') as [Ha' _].
        rewrite bytes_ltb_app_suffix by (unfold is_address in *; congruence).
        apply entry_le_iff in Hle. unfold entry_ltb in Hle. cbn [entry_key] in Hle.
        by destruct (bytes_ltb (entry_key e') k).
      * intros a n [Hn|Hn]; apply (Hrange a), Eall; [left; by apply (ko_sound _ _ Hk1)|by right].
      * exists t', kept. split; [done|]. split; [done|]. apply (kept_ext _ _ _ Eall). by apply (kept_twice kept1).
Qed.

(** ** The extraction *)

(** The rows of the change sets: a block number, an address and a value. *)
Definition changed_row (x : item) : Prop := exists n a v, wf_u64 n /\ is_address a /\ x = (block_key n, a ++ v).

Definition seen (l : list item) : bytes -> Z -> Prop :=
  fun a n => is_address a /\ wf_u64 n /\ exists v, (block_key n, a ++ v) ∈ l.

Lemma seen_snoc l n0 a0 v0 : wf_u64 n0 -> is_address a0 -> forall a n,
  seen (l ++ [(block_key n0, a0 ++ v0)]) a n <-> a = a0 /\ n = n0 \/ seen l a n.
Proof.
  intros Hn0 Ha0 a n. unfold seen. setoid_rewrite elem_of_app. setoid_rewrite list_elem_of_singleton. split.
  - intros (Ha & Hn & v & [Hv|E]); [right; split_and!; try done; by exists v|left].
    apply pair_equal_spec in E as [Ek Ed]. apply to_be_inj8 in Ek as ->; [|done..].
    by apply app_inj_1 in Ed as [-> _]; [|unfold is_address in *; congruence].
  - intros [[-> ->]|(Ha & Hn & v & Hv)]; (split; [done|]; split; [done|]); [exists v0; by right|exists v; by left].
Qed.

Definition in_map (m : gmap bytes R) : bytes -> Z -> Prop := fun a n => exists r, m !! a = Some r /\ n ∈ rb_values r.

Definition entries_of (m : gmap bytes R) : list Entry :=
  List.map (fun e => mkEntry (fst e) (rb_write (snd e))) (map_to_list m).

(** The entries of a map with block numbers. *)
Definition map_good (m : gmap bytes R) : Prop := forall a r, m !! a = Some r -> is_address a /\ block_numbers r.

Lemma elem_of_entries m e : e ∈ entries_of m <-> exists a r, m !! a = Some r /\ e = mkEntry a (rb_write r).
Proof.
  unfold entries_of. rewrite list_elem_of_fmap. split.
  - intros ([a r] & -> & He%elem_of_map_to_list). by exists a, r.
  - intros (a & r & Hm & ->). exists (a, r). split; [done|]. by apply elem_of_map_to_list.
Qed.

Lemma entries_of_good m : map_good m -> Forall entry_good (entries_of m) /\ Forall entry_ok (entries_of m).
Proof.
  intros Hm. split; apply Forall_forall; intros e (a & r & Er & ->)%elem_of_entries; destruct (Hm a r Er) as [Ha [Hne Hr]].
  - split; [done|]. destruct (rb_read_write r) as (r' & Er' & Ev). exists r'. cbn. unfold Bitmap.read. by rewrite Er', Ev.
  - pose proof (rb_size_numbers r Hr). pose proof (rb_write_length r).
    unfold entry_ok, entry_size, is_address, kAddressLength in *. cbn [entry_key entry_value]. lia.
Qed.

Lemma in_entries_app l1 l2 a n : in_entries (l1 ++ l2) a n <-> in_entries l1 a n \/ in_entries l2 a n.
Proof.
  split.
  - intros (e & r & [He|He]%elem_of_app & Hr); [left|right]; by exists e, r.
  - intros [(e & r & He & Hr)|(e & r & He & Hr)]; exists e, r; (split; [|done]); apply elem_of_app; [by left|by right].
Qed.

Lemma in_entries_of m a n : in_entries (entries_of m) a n <-> in_map m a n.
Proof.
  split.
  - intros (e & r' & (a' & r & Er & ->)%elem_of_entries & <- & Er' & Hn). cbn in *. exists r. split; [done|].
    destruct (rb_read_write r) as (r2 & Er2 & Ev). unfold Bitmap.read in Er'. rewrite Er2 in Er'. injection Er' as <-. by rewrite <- Ev.
  - intros (r & Er & Hn). destruct (rb_read_write r) as (r2 & Er2 & Ev). exists (mkEntry a (rb_write r)), r2.
    split; [apply elem_of_entries; by exists a, r|]. split; [done|]. unfold Bitmap.read. cbn. rewrite Er2. split; [done|]. by rewrite Ev.
Qed.

(** ** How much the bitmaps of a map can take *)

Definition bitmap_mass (r : R) : Z := 16 * Z.of_nat (size (rb_values r)) + 36.
Definition sum_mass (l : list (bytes * R)) : Z := foldr (fun x n => bitmap_mass (snd x) + n) 0 l.
Definition mass (m : gmap bytes R) : Z := sum_mass (map_to_list m).

Lemma sum_mass_perm l1 l2 : l1 ≡ₚ l2 -> sum_mass l1 = sum_mass l2.
Proof. unfold sum_mass. induction 1; cbn; lia. Qed.

Lemma mass_insert m a r : mass (<[a := r]> m) = bitmap_mass r + mass (delete a m).
Proof.
  unfold mass. rewrite <- insert_delete_eq. rewrite (sum_mass_perm _ _ (map_to_list_insert _ _ _ (lookup_delete_eq m a))). done.
Qed.

Lemma mass_delete m a : mass m = match m !! a with Some r => bitmap_mass r | None => 0 end + mass (delete a m).
Proof.
  destruct (m !! a) as [r|] eqn:E; [|by rewrite delete_id]. rewrite <- (insert_id m a r E) at 1. apply mass_insert.
Qed.

Lemma weight_app es1 es2 : weight (es1 ++ es2) = weight es1 + weight es2.
Proof. unfold weight. rewrite total_size_app, length_app. lia. Qed.

Lemma weight_entries m : map_good m -> weight (entries_of m) <= mass m.
Proof.
  intros Hm. unfold entries_of, mass.
  assert (forall a r, (a, r) ∈ map_to_list m -> zlen a = 20) as Hl.
  { intros a r Hx%elem_of_map_to_list. destruct (Hm a r Hx) as [Ha _]. unfold is_address, kAddressLength in Ha. lia. }
  induction (map_to_list m) as [|[a r] l IH]; cbn [List.map]; [done|].
  rewrite <- (app_nil_l (List.map _ _)), app_comm_cons, weight_app. unfold sum_mass in *. cbn [foldr].
  assert (zlen a = 20) as Ha by (apply (Hl a r); by left). pose proof (rb_size_values r).
  assert (weight (List.map (fun e => mkEntry e.1 (rb_write e.2)) l) <= foldr (fun x n => bitmap_mass x.2 + n) 0 l) as IH'
    by (apply IH; intros b k Hb; apply (Hl b k); by right).
  unfold weight at 1, total_size, entry_size, bitmap_mass at 1. cbn. rewrite rb_write_length. lia.
Qed.

Lemma flush_bitmaps_spec c ls es m :
  collected c ls es -> Forall entry_good es -> map_good m -> weight es + mass m < 2 ^ 64 ->
  exists c' ls', flush_bitmaps c m = Ok c' /\ collected c' ls' (es ++ entries_of m)
    /\ Forall entry_good (es ++ entries_of m) /\ weight (es ++ entries_of m) <= weight es + mass m
    /\ length (es ++ entries_of m) = (length es + size m)%nat
    /\ forall a n, in_entries (es ++ entries_of m) a n <-> in_entries es a n \/ in_map m a n.
Proof.
  intros Hc Hes Hm Hw. destruct (entries_of_good m Hm) as [Hg Hok]. pose proof (weight_entries m Hm).
  destruct (collect_all_spec (entries_of m) c ls es Hc Hok) as (c' & ls' & E & Hc'); [rewrite weight_app; lia|].
  exists c', ls'. unfold flush_bitmaps. fold (entries_of m). rewrite E. split; [done|]. split; [done|].
  split; [apply Forall_app; by split|]. split; [rewrite weight_app; lia|].
  split; [rewrite length_app; unfold entries_of; by rewrite length_map, length_map_to_list|].
  intros a n. by rewrite in_entries_app, in_entries_of.
Qed.

(** ** What is gathered from the rows that were met *)

Definition last_block (l : list item) : Z := match last l with Some x => of_be (fst x) | None => 0 end.

Record gathered (l : list item) (s : HistoryIndex R) : Prop := {
  ga_entries : exists ls es, collected (history_collector s) ls es /\ Forall entry_good es
    /\ weight es + mass (bitmaps s) <= 52 * zlen l /\ (length es + size (bitmaps s) <= length l)%nat
    /\ forall a n, in_entries es a n \/ in_map (bitmaps s) a n <-> seen l a n;
  ga_map : map_good (bitmaps s);
  ga_block : history_block_number s = last_block l
}.

Lemma gathered_new : gathered [] (mkHistoryIndex ∅ 0 0 (new_collector stage_buffer_size)).
Proof.
  split; [|by intros a r ?|done]. exists [], []. split; [apply new_collector_ok|]. split; [constructor|]. split; [done|]. split; [done|].
  intros a n. split; [intros [?%in_entries_nil|(r & ? & _)]|intros (_ & _ & v & ?%not_elem_of_nil)]; done.
Qed.

Lemma in_map_add (key : bytes) (n : Z) (m : gmap bytes R) (a : bytes) (k : Z) :
  in_map (add_block key n m) a k <-> a = key /\ k = n \/ in_map m a k.
Proof.
  unfold in_map, add_block. destruct (decide (a = key)) as [->|Hne].
  - split.
    + intros (r & Er & Hk). rewrite lookup_insert_eq in Er. injection Er as <-. rewrite rb_add_values in Hk.
      apply elem_of_union in Hk as [->%elem_of_singleton|Hk]; [by left|right].
      destruct (m !! key) as [r|]; [by exists r|]. cbn in Hk. rewrite rb_empty_values in Hk. by apply elem_of_empty in Hk.
    + intros Hk. rewrite lookup_insert_eq. eexists. split; [done|]. rewrite rb_add_values. apply elem_of_union.
      destruct Hk as [[_ ->]|(r & -> & Hk)]; [left; by apply elem_of_singleton|by right].
  - rewrite lookup_insert_ne by congruence. split; [by right|]. by intros [[? _]|?].
Qed.

Lemma map_good_of (F : bytes -> Z -> Prop) (m : gmap bytes R) : in_range F ->
  (forall a n, in_map m a n -> is_address a /\ F a n) -> (forall a r, m !! a = Some r -> rb_values r <> ∅) -> map_good m.
Proof.
  intros HF Hin Hne a r Er. specialize (Hne a r Er). assert (forall n, n ∈ rb_values r -> is_address a /\ F a n) as Hr.
  { intros n Hn. apply Hin. by exists r. }
  split; [|split; [done|intros n Hn; by apply (HF a), Hr]]. destruct (set_choose_L _ Hne) as [n Hn]. by apply (Hr n).
Qed.

Lemma mass_add_block (key : bytes) (n : Z) (m : gmap bytes R) : mass (add_block key n m) <= mass m + 52.
Proof.
  unfold add_block. rewrite mass_insert, (mass_delete m key). unfold bitmap_mass. rewrite rb_add_values, size_union_alt, size_singleton.
  destruct (m !! key) as [r|]; cbn.
  - assert (rb_values r ∖ {[n]} ⊆ rb_values r) as Hs%subseteq_size by set_solver. lia.
  - rewrite rb_empty_values. assert ((∅ : gset Z) ∖ {[n]} = ∅) as -> by set_solver. rewrite size_empty. lia.
Qed.

Lemma length_add_block (key : bytes) (n : Z) (m : gmap bytes R) : (size (add_block key n m) <= S (size m))%nat.
Proof. unfold add_block. rewrite map_size_insert. destruct (m !! key); cbn; lia. Qed.

Lemma history_step_row n a v s : wf_u64 n -> is_address a ->
  let maps := add_block a n (bitmaps s) in
  history_step false (block_key n, a ++ v) s
  = if history_buffer_limit <? u64 (64 * Z.of_nat (size maps) + u64 (allocated_space s + 8)) then
      try c := flush_bitmaps (history_collector s) maps in Ok (mkHistoryIndex ∅ 0 n c)
    else Ok (mkHistoryIndex maps (u64 (allocated_space s + 8)) n (history_collector s)).
Proof.
  intros Hn Ha maps. unfold history_step, composite_key. rewrite bytes_at_front by done. cbn [result_bind].
  by rewrite number_at_front_key.
Qed.

Lemma last_block_snoc l n d : wf_u64 n -> last_block (l ++ [(block_key n, d)]) = n.
Proof. intros Hn. unfold last_block. rewrite last_snoc. cbn [fst]. unfold block_key. by apply of_be_to_be_small. Qed.

Lemma history_step_gathered (F : bytes -> Z -> Prop) l x s : in_range F -> (forall a n, seen (l ++ [x]) a n -> F a n) ->
  changed_row x -> Z.of_nat (S (length l)) < 2 ^ 40 -> gathered l s ->
  exists s', history_step false x s = Ok s' /\ gathered (l ++ [x]) s'.
Proof.
  intros Hrange HF (n & a & v & Hn & Ha & ->) Hlen [(ls & es & Hc & Hes & Hw & Hcount & Hseen) Hm Hb].
  rewrite history_step_row by done. set (maps := add_block a n (bitmaps s)).
  assert (forall b k, in_entries es b k \/ in_map maps b k <-> seen (l ++ [(block_key n, a ++ v)]) b k) as Hseen'.
  { intros b k. rewrite seen_snoc, <- Hseen by done. unfold maps. rewrite in_map_add. tauto. }
  pose proof (length_add_block a n (bitmaps s)) as Hsize. pose proof (mass_add_block a n (bitmaps s)) as Hmass. fold maps in Hsize, Hmass.
  assert (map_good maps) as Hm'.
  { apply (map_good_of F); [done| |].
    - intros b k Hk. assert (seen (l ++ [(block_key n, a ++ v)]) b k) as Hs by (apply Hseen'; by right).
      split; [apply Hs|by apply HF].
    - intros b r Er. unfold maps, add_block in Er. apply lookup_insert_Some in Er as [[_ <-]|[_ Er]]; [|by apply (Hm b)].
      rewrite rb_add_values. set_solver. }
  destruct (_ <? _).
  - destruct (flush_bitmaps_spec (history_collector s) ls es maps Hc Hes Hm') as (c' & ls' & -> & Hc' & Hes' & Hw' & El & Hin); [lia|].
    cbn [result_bind]. eexists. split; [done|]. split; [|by intros b r ?|symmetry; by apply last_block_snoc].
    exists ls', (es ++ entries_of maps). cbn [history_collector bitmaps]. split; [done|]. split; [done|]. split_and!.
    + change (mass ∅) with 0. rewrite length_app. cbn. lia.
    + rewrite El, map_size_empty, length_app. cbn. lia.
    + intros b k. rewrite <- Hseen', Hin. split; [intros [?|(r & ? & _)]; done|by left].
  - eexists. split; [done|]. split; [|done|symmetry; by apply last_block_snoc].
    exists ls, es. cbn [history_collector bitmaps]. split_and!; try done; rewrite length_app; cbn; lia.
Qed.

(** ** The rows that are met *)

Lemma last_block_greatest (l : list item) x : StronglySorted item_lt l -> Forall changed_row l -> last l = Some x ->
  forall a n, seen l a n -> n <= last_block l.
Proof.
  intros Hs Hrows Hl a n (Ha & Hn & v & Hv). apply last_Some in Hl as [l' ->].
  apply Forall_app in Hrows as [_ Hx]. inversion Hx as [|? ? (m & b & w & Hm & _ & ->) _]; subst.
  rewrite last_block_snoc by done. apply elem_of_app in Hv as [Hv|Hv%list_elem_of_singleton].
  - apply StronglySorted_app_1_elem_of with (x1 := (block_key n, a ++ v)) (x2 := (block_key m, b ++ w)) in Hs; [|done|by left].
    unfold item_lt, item_ltb in Hs. cbn [fst snd] in Hs. apply orb_true_iff in Hs as [Hk|[Hk _]%andb_true_iff].
    + rewrite block_key_order in Hk by done. apply Z.ltb_lt in Hk. lia.
    + apply bytes_eqb_eq, to_be_inj8 in Hk as ->; done.
  - apply pair_equal_spec in Hv as [Hk%to_be_inj8 _]; [by subst|done..].
Qed.

(** The changes of a table from block [p] on. *)
Definition changed_from t (p : Z) : bytes -> Z -> Prop :=
  fun a n => is_address a /\ wf_u64 n /\ p <= n /\ exists v, (block_key n, a ++ v) ∈ tb_items t.

Lemma seen_from t p l : wf_u64 p -> (forall x, x ∈ l <-> x ∈ tb_items t /\ bytes_ltb (fst x) (block_key p) = false) ->
  forall a n, seen l a n <-> changed_from t p a n.
Proof.
  intros Hp Hl a n. unfold seen, changed_from. setoid_rewrite Hl. cbn [fst].
  assert (wf_u64 n -> (bytes_ltb (block_key n) (block_key p) = false <-> p <= n)) as Hord.
  { intros Hn. rewrite block_key_order by done. apply Z.ltb_ge. }
  split.
  - intros (Ha & Hn & v & Hv & Hk). split_and!; try done; [by apply Hord|by exists v].
  - intros (Ha & Hn & Hpn & v & Hv). split_and!; try done. exists v. split; [done|by apply Hord].
Qed.

(** The index that holds these blocks is one that the past can be read by. *)
Lemma index_holds_ok t f a : index_holds t f -> in_range f -> is_address a -> index_ok (R := R) t a (f a).
Proof.
  intros Hih Hrange Ha. assert (wf_u64 (2 ^ 64 - 1)) as Hmax by (unfold wf_u64; lia).
  assert (forall b s, is_address b -> b ++ last_suffix = a ++ s -> b = a /\ s = last_suffix) as Hinj.
  { intros b s Hb E. apply app_inj_1 in E as [-> ->]; [done|]. unfold is_address in *. congruence. }
  split.
  - intros x Hx [s Es]%has_prefix_exists. destruct (ih_rows t f Hih x Hx) as (b & Hb & Eb & _).
    rewrite Eb in Es. apply Hinj in Es as [-> ->]; [|done]. by exists (2 ^ 64 - 1).
  - intros k d Hk Hx. destruct (ih_rows t f Hih _ Hx) as (b & Hb & Eb & r & Er & _ & Hv). cbn [fst snd] in *.
    symmetry in Eb. apply Hinj in Eb as [-> E]; [|done]. exists r. split; [done|]. split; [intros c; by apply Hv|].
    right. by apply to_be_inj8.
  - intros c Hc. destruct (Hrange a c Hc) as [H0c Hc32]. split; [lia|]. destruct (ih_all t f Hih a c Hc) as (_ & d & Hx).
    destruct (ih_rows t f Hih _ Hx) as (b & Hb & Eb & r & Er & _ & Hv). cbn [fst snd] in *.
    symmetry in Eb. apply Hinj in Eb as [-> _]; [|done]. exists (2 ^ 64 - 1), d, r. split_and!; try done; [lia|by apply Hv|].
    intros k d' Hk Hx' _. destruct (ih_rows t f Hih _ Hx') as (b & Hb' & Eb & _). cbn [fst] in Eb.
    symmetry in Eb. apply Hinj in Eb as [_ E]; [|done]. apply to_be_inj8 in E; [lia|done..].
Qed.

(** ** The whole stage *)

Lemma in_entries_perm l1 l2 a n : l1 ≡ₚ l2 -> in_entries l1 a n <-> in_entries l2 a n.
Proof. intros Hp. unfold in_entries. by setoid_rewrite Hp. Qed.

Lemma gather_loop (F : bytes -> Z -> Prop) l : in_range F -> forall met s,
  (forall a n, seen (met ++ l) a n -> F a n) -> Forall changed_row l -> zlen (met ++ l) < 2 ^ 40 -> gathered met s ->
  exists s', for_each (history_step false) l s = Ok s' /\ gathered (met ++ l) s'.
Proof.
  intros Hfit. induction l as [|x l IH]; intros met s HF Hrows Hlen Hg.
  - exists s. by rewrite app_nil_r.
  - replace (met ++ x :: l) with ((met ++ [x]) ++ l) in * by (by rewrite <- app_assoc).
    inversion Hrows as [|? ? Hx Hrows']; subst.
    destruct (history_step_gathered F met x s Hfit) as (s1 & E1 & Hg1); [|done| |done|].
    + intros a n (Ha & Hn & v & Hv). apply HF. split; [done|]. split; [done|]. exists v. apply elem_of_app. by left.
    + rewrite !length_app in Hlen. cbn in Hlen. lia.
    + cbn [for_each]. rewrite E1. by apply IH.
Qed.

Lemma gather_rows t p (F : bytes -> Z -> Prop) : wf_u64 p -> (forall x, x ∈ tb_items t -> changed_row x) ->
  in_range F -> (forall a n, changed_from t p a n -> F a n) -> Z.of_nat (rows t) < 2 ^ 40 ->
  exists l s, scan (rows t) t (history_step false) (seek_from t (to_be 8 p)) (mkHistoryIndex ∅ 0 0 (new_collector stage_buffer_size)) = Ok s
    /\ gathered l s /\ Forall changed_row l /\ StronglySorted item_lt l /\ (length l <= rows t)%nat
    /\ forall a n, seen l a n <-> changed_from t p a n.
Proof.
  intros Hp Hrows Hfit HF Hlen.
  destruct (scan_from t (block_key p) (history_step false) (mkHistoryIndex ∅ 0 0 (new_collector stage_buffer_size)) (block_key_nonempty p))
    as (l & E & Hin & Hs & Hl).
  pose proof (seen_from t p l Hp Hin) as Hseen.
  assert (Forall changed_row l) as Hall by (apply Forall_forall; intros x [Hx _]%Hin; by apply Hrows).
  destruct (gather_loop F l Hfit [] (mkHistoryIndex ∅ 0 0 (new_collector stage_buffer_size))) as (s & Es & Hg).
  - intros a n Hsn. by apply HF, Hseen.
  - exact Hall.
  - cbn [app]. lia.
  - apply gathered_new.
  - exists l, s. unfold block_key in E. by rewrite E.
Qed.

Lemma load_gathered t f flags c ls es (F : bytes -> Z -> Prop) : collected c ls es ->
  Forall entry_good es -> weight es < 2 ^ 64 ->
  index_holds t f -> in_range F -> (forall a n, f a n \/ in_entries es a n <-> F a n) ->
  (flags = NO_FLAGS \/ flags = MDB_APPEND /\ tb_items t = ∅) ->
  exists t' kept, load_with (index_loader (R := R) cut_left_64 8) flags c t = Ok t' /\ index_holds t' kept /\ kept_of kept F.
Proof.
  intros Hc Hes Hw Hih Hrange HF Hflags.
  destruct (load_spec c ls es Hc Hw) as (out & c' & El & Hp & Hs). unfold load_with. rewrite El. cbn [thrown result_bind].
  assert (forall a n, f a n \/ in_entries out a n <-> F a n) as HF' by (intros a n; by rewrite (in_entries_perm out es a n Hp)).
  destruct (load_entries flags out t f Hih) as (t' & kept & E & Hih' & Hk).
  - by rewrite Hp.
  - exact Hs.
  - destruct Hflags as [->|[-> Hempty]]; [by left|]. right. split; [done|]. intros e x _ Hx. rewrite Hempty in Hx.
    by apply elem_of_empty in Hx.
  - intros a n Hn. by apply (Hrange a), HF'.
  - exists t', kept. split; [exact E|]. split; [done|]. exact (kept_ext kept _ F HF' Hk).
Qed.

Lemma index_empty t f : index_holds t f -> (forall a n, ~ f a n) -> tb_items t = ∅.
Proof.
  intros Hih Hf. apply elem_of_equiv_empty_L. intros x Hx. destruct (ih_rows t f Hih x Hx) as (a & _ & _ & r & _ & Hne & Hv).
  destruct (set_choose_L _ Hne) as [n Hn]. by apply (Hf a n), Hv.
Qed.

(** What the stage finds: its progress [p], the change sets and the index, which has the blocks [old]. *)
Record stage_ready (txn : Txn T) t_changes t_index t_progress (p : Z) (old : bytes -> Z -> Prop) : Prop := {
  sr_writable : txn_ro txn = false;
  sr_changes : table_at kPlainAccountChangeSet txn t_changes;
  sr_rows x : x ∈ tb_items t_changes -> changed_row x;
  sr_count : Z.of_nat (rows t_changes) < 2 ^ 40;
  sr_index : table_at kAccountHistory txn t_index;
  sr_holds : index_holds t_index old;
  sr_stage : table_at kSyncStageProgress txn t_progress;
  sr_stage_plain : tb_dupsort t_progress = false;
  sr_progress : get_stage_progress txn kAccountHistoryKey = Ok (p, txn);
  sr_number : wf_u64 p;
  sr_fresh a n : p = 0 -> ~ old a n;
  sr_range : in_range (fun a n => old a n \/ changed_from t_changes p a n)
}.

Lemma gathered_done l s : gathered l s -> zlen l < 2 ^ 40 ->
  exists c ls es, flush_bitmaps (history_collector s) (bitmaps s) = Ok c /\ collected c ls es
    /\ Forall entry_good es /\ weight es < 2 ^ 64 /\ (length es <= length l)%nat
    /\ forall a n, in_entries es a n <-> seen l a n.
Proof.
  intros [(ls & es & Hc & Hes & Hw & Hcount & Hseen) Hm _] Hlen.
  destruct (flush_bitmaps_spec _ ls es (bitmaps s) Hc Hes Hm) as (c & ls' & E & Hc' & Hes' & Hw' & El & Hin); [lia|].
  exists c, ls', (es ++ entries_of (bitmaps s)). split_and!; try done; [lia|lia|]. intros a n. by rewrite Hin.
Qed.

Lemma changed_some l : Forall changed_row l -> l <> [] -> exists x a, last l = Some x /\ wf_u64 (last_block l) /\ seen l a (last_block l).
Proof.
  intros Hrows Hl. destruct (last l) as [x|] eqn:E; [|by apply last_None in E]. apply last_Some in E as E'. destruct E' as [l' ->].
  apply Forall_app in Hrows as [_ Hx]. inversion Hx as [|? ? (n & a & v & Hn & Ha & ->) _]; subst.
  rewrite last_block_snoc by done. eexists _, a. split; [done|]. split; [done|]. split; [done|]. split; [done|].
  exists v. apply elem_of_app. right. by left.
Qed.

(** What the index keeps of the blocks of an account: [all] of them if they fit into a chunk, and in any case none but
    these and one that is no later than any. *)
Definition index_keeps t (a : bytes) (all : Z -> Prop) (fits : Prop) : Prop :=
  exists kept, index_ok (R := R) t a kept /\ (forall n, kept n -> all n)
    /\ (fits -> forall n, all n -> kept n) /\ (forall n, all n -> exists m, m <= n /\ kept m).

(** The end of the stage: which tables it commits, and what they hold. *)
Definition index_extended (txn : Txn T) (p : Z) (old changed : bytes -> Z -> Prop) (txn' : Txn T) : Prop :=
  (exists t', table_at kAccountHistory txn' t' /\ tb_dupsort t' = false
     /\ forall a, is_address a ->
        index_keeps t' a (fun n => old a n \/ changed a n) (account_fits (fun a n => old a n \/ changed a n) a))
  /\ exists last, get_stage_progress txn' kAccountHistoryKey = Ok (last, txn') /\ (forall a n, changed a n -> n <= last)
     /\ (last = p /\ txn' = txn \/ exists a, changed a last).

Lemma index_extended_by (txn txn' : Txn T) t' kept last p old changed :
  table_at kAccountHistory txn' t' -> index_holds t' kept -> kept_of kept (fun a n => old a n \/ changed a n) ->
  in_range (fun a n => old a n \/ changed a n) ->
  get_stage_progress txn' kAccountHistoryKey = Ok (last, txn') -> (forall a n, changed a n -> n <= last) ->
  (last = p /\ txn' = txn \/ exists a, changed a last) -> index_extended txn p old changed txn'.
Proof.
  intros Ht Hih Hk Hrange Hget Hle Hlast. split; [|by exists last]. exists t'. split; [done|]. split; [by apply (ih_dup t' _ Hih)|].
  intros a Ha. exists (kept a). split; [|split_and!].
  - apply index_holds_ok; [done| |done]. intros b n Hn. by apply (Hrange b), (ko_sound _ _ Hk).
  - apply (ko_sound _ _ Hk).
  - intros Hfit n. by apply (ko_fits _ _ Hk).
  - apply (ko_first _ _ Hk).
Qed.

(** The load and the record of the progress. *)
Lemma load_and_record (txn : Txn T) t_index t_progress flags c ls es old changed last :
  txn_ro txn = false -> table_at kAccountHistory txn t_index -> table_at kSyncStageProgress txn t_progress ->
  tb_dupsort t_progress = false -> collected c ls es -> Forall entry_good es -> weight es < 2 ^ 64 ->
  index_holds t_index old -> in_range (fun a n => old a n \/ changed a n) -> (forall a n, in_entries es a n <-> changed a n) ->
  (flags = NO_FLAGS \/ flags = MDB_APPEND /\ tb_items t_index = ∅) -> wf_u64 last ->
  exists t' kept txn', load_with (index_loader (R := R) cut_left_64 8) flags c t_index = Ok t'
    /\ set_stage_progress (with_table kAccountHistory t' txn) kAccountHistoryKey last = Ok txn'
    /\ table_at kAccountHistory txn' t' /\ index_holds t' kept /\ kept_of kept (fun a n => old a n \/ changed a n)
    /\ get_stage_progress txn' kAccountHistoryKey = Ok (last, txn').
Proof.
  intros Hro Hix Hst Hstd Hc Hes Hw Hih Hrange Hin Hflags Hlast.
  destruct (load_gathered t_index old flags c ls es (fun a n => old a n \/ changed a n) Hc Hes Hw Hih Hrange) as (t' & kept & E & Hih' & Hk);
    [intros a n; by rewrite Hin|done|].
  set (txn1 := with_table kAccountHistory t' txn).
  assert (table_at kSyncStageProgress txn1 t_progress) as Hst1 by (unfold table_at; cbn; rewrite lookup_insert_ne; done).
  destruct (stage_written txn1 t_progress kAccountHistoryKey last) as (t2 & E2 & Eget & _ & _); try done.
  exists t', kept, (with_table kSyncStageProgress t2 txn1). split_and!; try done.
  unfold table_at. cbn. rewrite lookup_insert_ne by done. apply lookup_insert_eq.
Qed.

End Correct.

(** * Properties *)


(** An index that has block 3 of one account; block 3 again, block 5 of another account and block 7 are put into it. *)
Definition other_address : bytes := zero_bytes 19 ++ [6].

Definition demo_changes : RefTable :=
  RefDup {[(block_key 3, old_address); (block_key 5, other_address); (block_key 7, old_address ++ [1])]}.
Definition demo_index : RefTable := RefPlain {[old_address ++ last_suffix := [3]]}.
Definition demo_progress : RefTable := RefPlain {[chars kAccountHistoryKey := block_key 3]}.

Definition demo_stages : Txn RefTable :=
  mkTxn false (list_to_map [(config_name kPlainAccountChangeSet, demo_changes); (config_name kAccountHistory, demo_index);
                            (config_name kSyncStageProgress, demo_progress)]).

Definition demo_old (a : bytes) (n : Z) : Prop := a = old_address /\ n = 3.

Lemma demo_changes_rows x : x ∈ tb_items demo_changes -> changed_row x
  /\ exists n, fst x = block_key n /\ wf_u64 n /\ n ∈ ({[3; 5; 7]} : gset Z).
Proof.
  change (tb_items demo_changes) with ({[(block_key 3, old_address); (block_key 5, other_address); (block_key 7, old_address ++ [1])]} : gset item).
  rewrite !elem_of_union, !elem_of_singleton. intros [[->| ->]| ->].
  - split; [exists 3, old_address, []; repeat split; unfold wf_u64; lia|]. exists 3. split; [done|]. split; [unfold wf_u64; lia|set_solver].
  - split; [exists 5, other_address, []; repeat split; unfold wf_u64; lia|]. exists 5. split; [done|]. split; [unfold wf_u64; lia|set_solver].
  - split; [exists 7, old_address, [1]; repeat split; unfold wf_u64; lia|]. exists 7. split; [done|]. split; [unfold wf_u64; lia|set_solver].
Qed.

Lemma demo_blocks a n : demo_old a n \/ changed_from demo_changes 3 a n -> n ∈ ({[3; 5; 7]} : gset Z).
Proof.
  intros [[_ ->]|(_ & Hn & _ & v & Hv)]; [set_solver|]. destruct (demo_changes_rows _ Hv) as (_ & m & E & Hm & Hin).
  cbn in E. by apply to_be_inj8 in E as ->.
Qed.

Lemma demo_index_holds : index_holds (R := gset Z) demo_index demo_old.
Proof.
  assert (forall k d, (k, d) ∈ tb_items demo_index <-> k = old_address ++ last_suffix /\ d = [3]) as Hi.
  { intros k d. change (tb_items demo_index) with (ref_items demo_index). unfold demo_index.
    rewrite ref_items_plain, lookup_singleton_Some. split; intros [-> ->]; done. }
  split; [done| |].
  - intros [k d] [-> ->]%Hi. exists old_address. split; [done|]. split; [done|]. exists ({[3]} : gset Z).
    split; [by vm_compute|]. split; [done|]. intros n. unfold demo_old. cbn. rewrite elem_of_singleton. by split; [|intros [_ ?]].
  - intros a n [-> ->]. split; [done|]. exists [3]. by apply Hi.
Qed.

Lemma demo_stage_ready : stage_ready (R := gset Z) demo_stages demo_changes demo_index demo_progress 3 demo_old.
Proof.
  split; try (reflexivity || apply demo_index_holds).
  - intros x Hx. by apply demo_changes_rows.
  - unfold wf_u64. lia.
  - lia.
  - intros a n Hn%demo_blocks. rewrite !elem_of_union, !elem_of_singleton in Hn. lia.
Qed.

Lemma demo_fits a : account_fits (R := gset Z) (fun a n => demo_old a n \/ changed_from demo_changes 3 a n) a.
Proof.
  intros r Hr. assert (r ⊆ {[3; 5; 7]}) as Hsub by (intros n Hn; by apply (demo_blocks a), Hr).
  apply subseteq_size in Hsub. change (size ({[3; 5; 7]} : gset Z)) with 3%nat in Hsub.
  cbn. unfold kBitmapChunkLimit. lia.
Qed.


Example history_index_demo :
  (try e := history_index (T := RefTable) (R := gset Z) false false demo_stages in
   Ok (match txn_tables (committed e) !! config_name kAccountHistory with
       | Some t => (bool_decide ((old_address ++ last_suffix, elements ({[3; 7]} : gset Z)) ∈ tb_items t), bool_decide ((other_address ++ last_suffix, [5]) ∈ tb_items t))
       | None => (false, false)
       end)) = Ok (true, true).
Proof. vm_compute. reflexivity. Qed.

(** A run of log_index that finds no log from its progress on sets the progress back to zero. *)
Definition no_new_logs : Txn RefTable :=
  mkTxn false (list_to_map [(config_name kLogs, RefPlain ∅);
                            (config_name kSyncStageProgress, RefPlain {[chars kLogIndexKey := block_key 5]})]).

Example log_index_forgets_progress :
  (try e := log_index (T := RefTable) (R := gset Z) (H1 := Build_CborDecoder (fun _ => [])) false no_new_logs in
   try (p, _) := match get_stage_progress (committed e) kLogIndexKey with Ok r => Ok r | _ => Undef end in
   Ok (exit_code e, p)) = Ok (0, 0).
Proof. vm_compute. reflexivity. Qed.
