(* ===== verification/HashState.v ===== *)
(** * HashState: cmd/hashstate.cpp

    The stage that puts the state under hashed keys, which the loader of the tries reads: at once from the plain state,
    or block by block from the change sets. *)

From stdpp Require Import gmap sets strings.
From S2P Require Import Prelude Util Keccak Rlp Account Etl Lmdb DbUtil AccessLayer Stages.
Local Open Scope Z_scope.
Local Open Scope silk_scope.

Section HashState.
Context {T : Type} `{Lmdb T}.

Inductive Operation : Type := HashAccount | HashStorage | Code.

(** [substr(n)] throws if it starts past the end. *)
Definition substr_from (n : nat) (b : bytes) : result DbError bytes :=
  if (length b <? n)%nat then Err RuntimeError else Ok (drop n b).

Definition convert_to_db_format (key value : bytes) : result DbError bytes :=
  if (length key =? 8)%nat then Ok (take kAddressLength value)
  else
    try prefix := bytes_at 8 (kAddressLength + kIncarnationLength) key in
    try location := bytes_at 0 kHashLength value in
    Ok (prefix ++ location).

Definition get_tables_for_promote (operation : Operation) : TableConfig * TableConfig :=
  match operation with
  | HashAccount => (kPlainAccountChangeSet, kHashedAccounts)
  | HashStorage => (kPlainStorageChangeSet, kHashedStorage)
  | Code => (kPlainAccountChangeSet, kContractCode)
  end.

(** ** The clean promotion *)

(** The key of a word: the address, the incarnation, and what follows them in the plain key. *)
Definition hashed_storage_key (key : bytes) : result DbError bytes :=
  try incarnation := bytes_at kAddressLength kIncarnationLength key in
  try location := substr_from (kAddressLength + kIncarnationLength) key in
  Ok (keccak256 (take kAddressLength key) ++ incarnation ++ keccak256 location).

Definition clean_state_step (x : item) (s : Collector * Collector) : result DbError (Collector * Collector) :=
  let '(key, value) := x in
  let '(accounts, storage) := s in
  match key with
  | [] => Err RuntimeError
  | _ =>
      if (length key =? kAddressLength)%nat then
        try accounts := thrown (collect (mkEntry (keccak256 key) value) accounts) in Ok (accounts, storage)
      else
        try new_key := hashed_storage_key key in
        try storage := thrown (collect (mkEntry new_key value) storage) in Ok (accounts, storage)
  end.

(** The view that the first seek takes as its key is of a temporary string that is gone by then; it had eight zero
    bytes, which are the key here. *)
Definition first_key : bytes := zero_bytes 8.

Definition promote_clean_state (txn : Txn T) : result DbError (Txn T) :=
  try source_table := open_table kPlainState txn in
  try (collector_account, collector_storage) :=
    scan (rows source_table) source_table clean_state_step (seek_from source_table first_key)
      (new_collector stage_buffer_size, new_collector stage_buffer_size) in
  try (t, txn) := open_created kHashedAccounts txn in
  try t := load_with put_entry MDB_APPEND collector_account t in
  let txn := with_table kHashedAccounts t txn in
  try (t, txn) := open_created kHashedStorage txn in
  try t := load_with put_entry MDB_APPENDDUP collector_storage t in
  Ok (with_table kHashedStorage t txn).

Definition hashed_code_key (key : bytes) : result DbError bytes :=
  try incarnation := bytes_at kAddressLength kIncarnationLength key in
  Ok (keccak256 (take kAddressLength key) ++ incarnation).

Definition clean_code_step (x : item) (c : Collector) : result DbError Collector :=
  try new_key := hashed_code_key (fst x) in thrown (collect (mkEntry new_key (snd x)) c).

Definition promote_clean_code (txn : Txn T) : result DbError (Txn T) :=
  try source_table := open_table kPlainContractCode txn in
  try c := scan (rows source_table) source_table clean_code_step (seek_from source_table first_key)
             (new_collector stage_buffer_size) in
  try (t, txn) := open_created kContractCode txn in
  try t := load_with put_entry MDB_APPEND c t in
  Ok (with_table kContractCode t txn).

(** ** The promotion by change sets *)

(** [pos += encoded[pos++]]: the length byte and as many bytes. *)
Definition skip_field (present : bool) (encoded : bytes) (pos : nat) : result DbError nat :=
  if present then try len := bytes_at pos 1 encoded in Ok (pos + 1 + Z.to_nat (of_be len))%nat else Ok pos.

Definition extract_incarnation (encoded : bytes) : result DbError Z :=
  try field_set := bytes_at 0 1 encoded in
  let field_set := of_be field_set in
  try pos := skip_field (Z.testbit field_set 0) encoded 1 in
  try pos := skip_field (Z.testbit field_set 1) encoded pos in
  if Z.testbit field_set 2 then
    try len := bytes_at pos 1 encoded in
    try rest := substr_from (pos + 1) encoded in
    rlp_err_handler (read_uint64 (take (Z.to_nat (of_be len)) rest))
  else Ok 0.

(** The row that a change adds to the target, if the current state has a value for it. *)
Definition promoted_row (operation : Operation) (plainstate_table codehash_table : T) (x : item) : result DbError (option item) :=
  try db_key := convert_to_db_format (fst x) (snd x) in
  try value := table_get plainstate_table db_key in
  match value with
  | None => Ok None
  | Some value =>
      match operation with
      | HashAccount => Ok (Some (keccak256 db_key, value))
      | HashStorage => try key := hashed_storage_key db_key in Ok (Some (key, value))
      | Code =>
          try incarnation := extract_incarnation value in
          if incarnation =? 0 then Ok None
          else
            try address := bytes_at 0 kAddressLength db_key in
            let plain_key := address ++ to_be 8 incarnation in
            try code_hash := table_get codehash_table plain_key in
            match code_hash with
            | None => Ok None
            | Some code_hash => try key := hashed_code_key plain_key in Ok (Some (key, code_hash))
            end
      end
  end.

Definition promote_step (operation : Operation) (plainstate_table codehash_table : T) (x : item) (target_table : T)
  : result DbError T :=
  try row := promoted_row operation plainstate_table codehash_table x in
  match row with Some (key, value) => table_put target_table key value | None => Ok target_table end.

Definition promote (operation : Operation) (txn : Txn T) : result DbError (Txn T) :=
  let '(changeset_config, target_config) := get_tables_for_promote operation in
  try changeset_table := open_table changeset_config txn in
  try plainstate_table := open_table kPlainState txn in
  try codehash_table := open_table kPlainContractCode txn in
  try target_table := open_table target_config txn in
  try (progress, txn) := get_stage_progress txn kHashStateKey in
  let start_block_number := u64 (progress + 1) in
  try target_table := scan_quietly (rows changeset_table) changeset_table
                        (promote_step operation plainstate_table codehash_table)
                        (seek_from changeset_table (to_be 8 start_block_number)) target_table in
  Ok (with_table target_config target_table txn).

(** ** The program *)

Definition clear_table (config : TableConfig) (txn : Txn T) : result DbError (Txn T) :=
  try t := open_table config txn in
  match table_clear t with Ok t => Ok (with_table config t txn) | _ => Undef end.

Definition hashstate_body (full incrementally reset : bool) (txn : Txn T) : result DbError (option (Txn T)) :=
  try txn :=
    (if full || reset then
       try txn := clear_table kHashedAccounts txn in
       try txn := clear_table kHashedStorage txn in
       try txn := clear_table kContractCode txn in
       set_stage_progress txn kHashStateKey 0
     else Ok txn) in
  if reset then Ok (Some txn)
  else
    try (last_processed_block_number, txn) := get_stage_progress txn kHashStateKey in
    try txn :=
      (if negb (last_processed_block_number =? 0) || incrementally then
         try txn := promote HashAccount txn in
         try txn := promote HashStorage txn in
         promote Code txn
       else try txn := promote_clean_state txn in promote_clean_code txn) in
    try (execution, txn) := get_stage_progress txn kExecutionKey in
    try txn := set_stage_progress txn kHashStateKey execution in
    Ok (Some txn).

Definition hashstate (full incrementally reset : bool) (txn : Txn T) : result unit (StageEnd T) :=
  run_stage txn (hashstate_body full incrementally reset txn).

End HashState.
