(* ===== verification/HashStateCorrect.v ===== *)
(** * HashStateCorrect: the hashed state that cmd/hashstate.cpp makes from the plain one

    What the clean promotion writes, row by row, and what the loader of the tries finds of it. *)

From Stdlib Require Import Sorted.
From stdpp Require Import gmap sets strings sorting.
From S2P Require Import Prelude Util Keccak Rlp Account Block HashBuilder DbTrie Etl Lmdb DbUtil AccessLayer DbBufferCorrect Stages StagesCorrect HashState.
Local Open Scope Z_scope.
Local Open Scope silk_scope.

Section Promotion.
Context {T : Type} `{LmdbLaws T}.
Implicit Types t : T.

(** ** Loading into a table with duplicates *)

Definition entry_item (e : Entry) : item := (entry_key e, entry_value e).

Lemma entry_item_lt e e' : entry_ltb e e' = item_ltb (entry_item e) (entry_item e').
Proof.
  apply eq_true_iff_eq. rewrite entry_ltb_iff. unfold item_ltb, entry_item. cbn [fst snd].
  rewrite orb_true_iff, andb_true_iff, bytes_eqb_eq. tauto.
Qed.

Definition entry_lt (e e' : Entry) : Prop := item_lt (entry_item e) (entry_item e').

Lemma sorted_entries_lt out : sorted out -> NoDup out -> StronglySorted entry_lt out.
Proof.
  induction 1 as [|e out Hs IH Hle]; intros Hn; [constructor|]. inversion Hn as [|? ? Hnin Hn']; subst.
  constructor; [by apply IH|]. rewrite Forall_forall in Hle. apply Forall_forall. intros e' He'. specialize (Hle e' He').
  apply entry_le_iff in Hle. unfold entry_lt, item_lt. rewrite <- entry_item_lt.
  destruct (entry_ltb e e') eqn:E; [done|]. by rewrite (entry_ltb_antisym e e' E Hle) in Hnin.
Qed.

Lemma append_dup_entries out : StronglySorted entry_lt out ->
  Forall (fun e => key_fits (entry_key e) /\ key_fits (entry_value e)) out -> forall t, tb_dupsort t = true ->
  (forall e x, e ∈ out -> x ∈ tb_items t -> item_lt x (entry_item e)) ->
  exists t', for_each (put_entry MDB_APPENDDUP) out t = Ok t' /\ tb_dupsort t' = true
    /\ forall x, x ∈ tb_items t' <-> x ∈ map entry_item out \/ x ∈ tb_items t.
Proof.
  induction 1 as [|e out Hs IH Hlt]; intros Hfit t Hd Hfront.
  - exists t. split; [done|]. split; [done|]. intros x. split; [by right|]. intros [?%elem_of_nil|?]; done.
  - inversion Hfit as [|? ? [Hk Hv] Hfit']; subst. rewrite Forall_forall in Hlt.
    destruct (append_dup_last t (entry_key e) (entry_value e) Hd Hk Hv) as (t1 & E1 & Hd1 & Hi1).
    { intros d' Hx. specialize (Hfront e _ ltac:(by left) Hx). unfold item_lt, entry_item in Hfront. by rewrite item_ltb_same in Hfront. }
    cbn [for_each]. unfold put_entry at 1, table_put_flags. rewrite E1. cbn [err_handler result_bind].
    destruct (IH Hfit' t1 Hd1) as (t' & E' & Hd' & Hi').
    { intros e' x He'. rewrite Hi1, elem_of_union, elem_of_singleton. intros [->|Hx]; [by apply Hlt|].
      apply Hfront; [by right|done]. }
    exists t'. split; [done|]. split; [done|]. intros x. rewrite Hi', Hi1. cbn [map].
    rewrite elem_of_cons, elem_of_union, elem_of_singleton. unfold entry_item. tauto.
Qed.

(** ** The rows of the plain state *)

Definition account_row (x : item) : Prop := is_address (fst x).
Definition storage_row (x : item) : Prop :=
  exists a i, is_address a /\ wf_u64 i /\ fst x = storage_prefix a i /\ key_fits (snd x).

Definition state_row (x : item) : Prop := (account_row x \/ storage_row x) /\ zlen (snd x) < 2 ^ 20 /\ bytes_ok (fst x).

Definition is_account (x : item) : bool := (length (fst x) =? kAddressLength)%nat.

(** The entry of a row: the hash of the address, or of the address and, behind the incarnation, that of nothing. *)
Definition account_entry (x : item) : Entry := mkEntry (keccak256 (fst x)) (snd x).
Definition storage_entry (x : item) : Entry :=
  mkEntry (keccak256 (take kAddressLength (fst x)) ++ drop kAddressLength (fst x) ++ keccak256 []) (snd x).

Definition account_entries (l : list item) : list Entry := map account_entry (List.filter is_account l).
Definition storage_entries (l : list item) : list Entry := map storage_entry (List.filter (fun x => negb (is_account x)) l).

Definition promoted_small (e : Entry) : Prop := 0 < entry_size e <= 2 ^ 20 + 72 /\ zlen (entry_key e) <= 72.

Lemma storage_row_parts x : storage_row x -> exists a i, is_address a /\ wf_u64 i /\ key_fits (snd x)
  /\ x = (storage_prefix a i, snd x) /\ is_account x = false
  /\ storage_entry x = mkEntry (keccak256 a ++ to_be 8 i ++ keccak256 []) (snd x).
Proof.
  intros (a & i & Ha & Hi & E & Hv). exists a, i. destruct x as [k d]. cbn [fst snd] in *. subst k. split_and!; try done.
  - unfold is_account. cbn [fst]. by rewrite length_storage_prefix.
  - unfold storage_entry, storage_prefix. cbn [fst snd]. by rewrite take_app_length', drop_app_length'.
Qed.

Lemma account_row_is x : account_row x -> is_account x = true.
Proof. unfold account_row, is_account, is_address. intros ->. by rewrite Nat.eqb_refl. Qed.

Lemma account_entry_small x : state_row x -> account_row x -> promoted_small (account_entry x).
Proof.
  intros (_ & Hd & _) _. unfold promoted_small, entry_size, account_entry. cbn [entry_key entry_value]. rewrite length_keccak256. lia.
Qed.

Lemma storage_entry_small x : state_row x -> storage_row x -> promoted_small (storage_entry x).
Proof.
  intros (_ & Hd & _) (a & i & _ & _ & _ & _ & _ & ->)%storage_row_parts. unfold promoted_small, entry_size. cbn [entry_key entry_value].
  rewrite !length_app, !length_keccak256, length_to_be. lia.
Qed.

Lemma collect_small e c ls es : collected c ls es -> Forall promoted_small es -> promoted_small e -> zlen es < 2 ^ 40 ->
  exists c' ls', collect e c = Ok c' /\ collected c' ls' (es ++ [e]) /\ Forall promoted_small (es ++ [e]).
Proof.
  intros Hc Hes [Hs Hk] Hlen. assert (Forall promoted_small (es ++ [e])) as Hall by (apply Forall_app; split; [done|]; by constructor).
  destruct (collect_spec e c ls es Hc) as (c' & ls' & E & Hc'); [| |by exists c', ls'].
  - unfold entry_ok, entry_size in *. lia.
  - assert (weight (es ++ [e]) <= (2 ^ 20 + 72 + 8) * zlen (es ++ [e])) as Hw
      by (apply weight_bound; eapply Forall_impl; [exact Hall|]; by intros e' [[_ ?] _]).
    rewrite length_app in Hw. cbn in Hw. lia.
Qed.

Lemma clean_account_step x c1 c2 : account_row x ->
  clean_state_step x (c1, c2) = try c := thrown (collect (account_entry x) c1) in Ok (c, c2).
Proof.
  intros Hx%account_row_is. destruct x as [k d]. unfold is_account in Hx. cbn [fst] in Hx. unfold clean_state_step.
  destruct k as [|b k]; [done|]. by rewrite Hx.
Qed.

Lemma clean_storage_step x c1 c2 : storage_row x ->
  clean_state_step x (c1, c2) = try c := thrown (collect (storage_entry x) c2) in Ok (c1, c).
Proof.
  intros (a & i & Ha & Hi & _ & E & Hacc & ->)%storage_row_parts. rewrite E. unfold clean_state_step.
  pose proof (length_storage_prefix a i Ha) as Hl. rewrite E in Hacc. unfold is_account in Hacc. cbn [fst] in Hacc.
  destruct (storage_prefix a i) as [|b k] eqn:Ek; [done|]. rewrite Hacc, <- Ek in *.
  assert (hashed_storage_key (storage_prefix a i) = Ok (keccak256 a ++ to_be 8 i ++ keccak256 [])) as ->; [|done].
  unfold hashed_storage_key, bytes_at, substr_from. rewrite Hl. cbn [Nat.ltb Nat.leb Nat.add kStoragePrefixLength kAddressLength kIncarnationLength result_bind].
  unfold storage_prefix. rewrite (drop_app_length' a), (take_app_length' a), (take_ge (to_be 8 i)) by (done || by rewrite length_to_be).
  rewrite drop_ge; [done|]. by rewrite length_app, length_to_be, Ha.
Qed.

(** The rows are divided between the two collectors. *)
Lemma clean_state_loop l : forall c1 c2 ls1 ls2 es1 es2, Forall state_row l ->
  collected c1 ls1 es1 -> collected c2 ls2 es2 -> Forall promoted_small es1 -> Forall promoted_small es2 ->
  zlen es1 + zlen l < 2 ^ 40 -> zlen es2 + zlen l < 2 ^ 40 ->
  exists c1' c2' ls1' ls2', for_each clean_state_step l (c1, c2) = Ok (c1', c2')
    /\ collected c1' ls1' (es1 ++ account_entries l) /\ collected c2' ls2' (es2 ++ storage_entries l)
    /\ Forall promoted_small (es1 ++ account_entries l) /\ Forall promoted_small (es2 ++ storage_entries l).
Proof.
  induction l as [|x l IH]; intros c1 c2 ls1 ls2 es1 es2 Hl Hc1 Hc2 Hes1 Hes2 Hlen1 Hlen2.
  - exists c1, c2, ls1, ls2. cbn. by rewrite !app_nil_r.
  - inversion Hl as [|? ? Hx Hl']; subst. destruct (proj1 Hx) as [Ha|Hs]; cbn [for_each length] in *.
    + pose proof (account_row_is x Ha) as Hacc. rewrite clean_account_step by done.
      destruct (collect_small (account_entry x) c1 ls1 es1 Hc1 Hes1) as (c & ls & -> & Hc & Hes); [by apply account_entry_small|lia|].
      cbn [thrown result_bind]. destruct (IH c c2 ls ls2 (es1 ++ [account_entry x]) es2) as (c1' & c2' & ls1' & ls2' & E & H1 & H2 & H3 & H4); try done;
        [rewrite length_app; cbn; lia|lia|].
      exists c1', c2', ls1', ls2'. unfold account_entries, storage_entries in *. cbn [List.filter]. rewrite Hacc. cbn [negb map].
      rewrite <- app_assoc in H1, H3. by split_and!.
    + destruct (storage_row_parts x Hs) as (a & i & _ & _ & _ & _ & Hacc & _). rewrite clean_storage_step by done.
      destruct (collect_small (storage_entry x) c2 ls2 es2 Hc2 Hes2) as (c & ls & -> & Hc & Hes); [by apply storage_entry_small|lia|].
      cbn [thrown result_bind]. destruct (IH c1 c ls1 ls es1 (es2 ++ [storage_entry x])) as (c1' & c2' & ls1' & ls2' & E & H1 & H2 & H3 & H4); try done;
        [lia|rewrite length_app; cbn; lia|].
      exists c1', c2', ls1', ls2'. unfold account_entries, storage_entries in *. cbn [List.filter]. rewrite Hacc. cbn [negb map].
      rewrite <- app_assoc in H2, H4. by split_and!.
Qed.

(** ** The tables behind the promotion *)

Lemma above_zeros n : forall k, bytes_ok k -> (n <= length k)%nat -> bytes_ltb k (zero_bytes n) = false.
Proof.
  induction n as [|n IH]; intros k Hk Hn; [by destruct k|]. destruct k as [|b k]; [cbn in Hn; lia|].
  inversion Hk as [|? ? Hb Hk']; subst. change (zero_bytes (S n)) with (0 :: zero_bytes n). cbn [bytes_ltb].
  unfold byte_ok in Hb. destruct (Z.ltb_spec b 0); [lia|]. destruct (0 <? b); [done|]. apply IH; [done|]. cbn in Hn. lia.
Qed.

(** A plain state that can be promoted: one row per account, no two addresses with one hash, empty targets. *)
Record state_ready (txn : Txn T) t t_accounts t_storage : Prop := {
  sd_state : table_at kPlainState txn t;
  sd_rows x : x ∈ tb_items t -> state_row x;
  sd_count : Z.of_nat (rows t) < 2 ^ 40;
  sd_one_row a v v' : is_address a -> (a, v) ∈ tb_items t -> (a, v') ∈ tb_items t -> v = v';
  sd_hashes x y : x ∈ tb_items t -> y ∈ tb_items t ->
    keccak256 (take kAddressLength (fst x)) = keccak256 (take kAddressLength (fst y)) -> take kAddressLength (fst x) = take kAddressLength (fst y);
  sd_accounts : table_at kHashedAccounts txn t_accounts;
  sd_accounts_empty : tb_dupsort t_accounts = false /\ tb_items t_accounts = ∅;
  sd_storage : table_at kHashedStorage txn t_storage;
  sd_storage_empty : tb_dupsort t_storage = true /\ tb_items t_storage = ∅
}.

Lemma state_row_long x : state_row x -> (8 <= length (fst x))%nat.
Proof.
  intros [[Ha|(a & i & Ha & _ & -> & _)] _]; [unfold account_row, is_address, kAddressLength in Ha; lia|].
  rewrite length_storage_prefix by done. unfold kStoragePrefixLength, kAddressLength, kIncarnationLength. lia.
Qed.

Lemma account_of_filter l x : Forall state_row l -> x ∈ List.filter is_account l <-> x ∈ l /\ account_row x.
Proof.
  intros Hl. rewrite !list_elem_of_In, filter_In. split; intros [Hx Ha]; (split; [done|]); [|by apply account_row_is].
  by apply Nat.eqb_eq in Ha.
Qed.

Lemma storage_of_filter l x : Forall state_row l ->
  x ∈ List.filter (fun x => negb (is_account x)) l <-> x ∈ l /\ storage_row x.
Proof.
  intros Hl. rewrite !list_elem_of_In, filter_In. split; intros [Hx Hs]; (split; [done|]).
  - rewrite Forall_forall in Hl. destruct (Hl x) as [[Ha%account_row_is|?] _]; [by apply list_elem_of_In|by rewrite Ha in Hs|done].
  - by destruct (storage_row_parts x Hs) as (a & i & _ & _ & _ & _ & -> & _).
Qed.

Lemma account_keys_nodup (txn : Txn T) t ta ts l : state_ready txn t ta ts -> (forall x, x ∈ l -> x ∈ tb_items t) -> NoDup l ->
  NoDup (map entry_key (account_entries l)).
Proof.
  intros Hr Hl Hn. assert (Forall state_row l) as Hall by (apply Forall_forall; intros x Hx; by apply (sd_rows _ _ _ _ Hr), Hl).
  unfold account_entries. rewrite map_map. apply NoDup_fmap_2_strong; [|apply NoDup_ListNoDup, List.NoDup_filter; by apply NoDup_ListNoDup].
  intros x y [Hx Ha]%account_of_filter [Hy Hb]%account_of_filter E; try done. unfold account_entry in E. cbn [entry_key] in E.
  assert (forall z, account_row z -> take kAddressLength (fst z) = fst z) as Ht by (intros z Hz; apply take_ge; by rewrite Hz).
  pose proof (sd_hashes _ _ _ _ Hr x y (Hl x Hx) (Hl y Hy)) as Hinj. rewrite !Ht in Hinj by done. specialize (Hinj E).
  destruct x as [a v], y as [b w]. cbn [fst] in Hinj. subst b. f_equal. apply (sd_one_row _ _ _ _ Hr a); [done|by apply Hl..].
Qed.

Lemma storage_entries_nodup (txn : Txn T) t ta ts l : state_ready txn t ta ts -> (forall x, x ∈ l -> x ∈ tb_items t) -> NoDup l ->
  NoDup (storage_entries l).
Proof.
  intros Hr Hl Hn. assert (Forall state_row l) as Hall by (apply Forall_forall; intros x Hx; by apply (sd_rows _ _ _ _ Hr), Hl).
  apply NoDup_fmap_2_strong; [|apply NoDup_ListNoDup, List.NoDup_filter; by apply NoDup_ListNoDup].
  intros x y [Hx Ha]%storage_of_filter [Hy Hb]%storage_of_filter E; try done. pose proof (sd_hashes _ _ _ _ Hr x y (Hl x Hx) (Hl y Hy)) as Hinj.
  destruct (storage_row_parts x Ha) as (a & i & Hla & Hi & _ & Ex & _ & Eex), (storage_row_parts y Hb) as (b & j & Hlb & Hj & _ & Ey & _ & Eey).
  rewrite Eex, Eey in E. pose proof (f_equal entry_key E) as Ek. apply (f_equal entry_value) in E as Ed. cbn [entry_key entry_value] in Ek, Ed. apply app_inj_1 in Ek as [Eh Ek]; [|by rewrite !length_keccak256].
  apply app_inj_1 in Ek as [Ei _]; [|by rewrite !length_to_be]. apply to_be_inj8 in Ei as ->; [|done..].
  rewrite Ex, Ey in *. cbn [fst snd] in *. unfold storage_prefix in Hinj. rewrite !take_app_length' in Hinj by done.
  rewrite Hinj, Ed by done. reflexivity.
Qed.

Lemma promoted_weight es : Forall promoted_small es -> zlen es < 2 ^ 40 -> weight es < 2 ^ 64.
Proof.
  intros Hes Hlen. assert (weight es <= (2 ^ 20 + 72 + 8) * zlen es); [|lia].
  apply weight_bound. eapply Forall_impl; [exact Hes|]. by intros e [[_ ?] _].
Qed.

Lemma empty_rows t (P : item -> Prop) : tb_items t = ∅ -> forall x, x ∈ tb_items t -> P x.
Proof. intros E x Hx. rewrite E in Hx. by apply elem_of_empty in Hx. Qed.

Lemma key_fits_short k : (0 < length k)%nat -> zlen k <= 72 -> key_fits k.
Proof. unfold key_fits. lia. Qed.

(** The two loads. *)
Lemma load_accounts t c ls es : tb_dupsort t = false -> tb_items t = ∅ -> collected c ls es -> Forall promoted_small es ->
  Forall (fun e => (0 < length (entry_key e))%nat) es -> zlen es < 2 ^ 40 -> NoDup (map entry_key es) ->
  exists t', load_with put_entry MDB_APPEND c t = Ok t' /\ forall x, x ∈ tb_items t' <-> x ∈ map entry_item es.
Proof.
  intros Hd He Hc Hes Hpos Hlen Hn. destruct (load_spec c ls es Hc (promoted_weight es Hes Hlen)) as (out & c' & El & Hp & Hs).
  unfold load_with. rewrite El. cbn [thrown result_bind].
  destruct (put_entries MDB_APPEND out) with (t := t) as (t' & E & _ & Hi).
  - apply sorted_keys_lt; [exact Hs|by rewrite Hp].
  - rewrite Hp. apply Forall_forall. intros e Hin. rewrite Forall_forall in Hes, Hpos. apply key_fits_short; [by apply Hpos|by apply Hes].
  - exact Hd.
  - intros e _. right. split; [done|]. by apply empty_rows.
  - exists t'. split; [exact E|]. intros x. rewrite Hi, list_elem_of_fmap. setoid_rewrite Hp. split.
    + intros [(e & Hin & ->)|[Hx _]]; [by exists e|by apply (empty_rows t (fun _ => False) He) in Hx].
    + intros (e & -> & Hin). left. by exists e.
Qed.

Lemma load_storage t c ls es : tb_dupsort t = true -> tb_items t = ∅ -> collected c ls es -> Forall promoted_small es ->
  Forall (fun e => (0 < length (entry_key e))%nat /\ key_fits (entry_value e)) es -> zlen es < 2 ^ 40 -> NoDup es ->
  exists t', load_with put_entry MDB_APPENDDUP c t = Ok t' /\ tb_dupsort t' = true
    /\ forall x, x ∈ tb_items t' <-> x ∈ map entry_item es.
Proof.
  intros Hd He Hc Hes Hpos Hlen Hn. destruct (load_spec c ls es Hc (promoted_weight es Hes Hlen)) as (out & c' & El & Hp & Hs).
  unfold load_with. rewrite El. cbn [thrown result_bind].
  destruct (append_dup_entries out) with (t := t) as (t' & E & Hd' & Hi).
  - apply sorted_entries_lt; [exact Hs|by rewrite Hp].
  - rewrite Hp. apply Forall_forall. intros e Hin. rewrite Forall_forall in Hes, Hpos. destruct (Hpos e Hin) as [Hl Hv].
    split; [|done]. apply key_fits_short; [done|by apply Hes].
  - exact Hd.
  - intros e x _ Hx. by apply (empty_rows t (fun _ => False) He) in Hx.
  - exists t'. split; [exact E|]. split; [done|]. intros x. rewrite Hi, Hp. split; [|by left].
    intros [?|Hx]; [done|by apply (empty_rows t (fun _ => False) He) in Hx].
Qed.

Lemma account_entries_spec l : Forall state_row l ->
  (length (account_entries l) <= length l)%nat /\ Forall (fun e => (0 < length (entry_key e))%nat) (account_entries l)
  /\ forall k v, (k, v) ∈ map entry_item (account_entries l) <-> exists a, is_address a /\ (a, v) ∈ l /\ k = keccak256 a.
Proof.
  intros Hl. unfold account_entries. split_and!.
  - rewrite length_map. apply filter_length_le.
  - apply Forall_map, Forall_forall. intros x _. cbn [account_entry entry_key]. rewrite length_keccak256. lia.
  - intros k v. rewrite map_map, list_elem_of_fmap. split.
    + intros ([a v'] & E & [Hx Ha]%account_of_filter); [|done]. cbn in E. apply pair_equal_spec in E as [-> ->]. by exists a.
    + intros (a & Ha & Hx & ->). exists (a, v). split; [done|]. by apply account_of_filter.
Qed.

Lemma storage_entries_spec l : Forall state_row l ->
  (length (storage_entries l) <= length l)%nat
  /\ Forall (fun e => (0 < length (entry_key e))%nat /\ key_fits (entry_value e)) (storage_entries l)
  /\ forall k d, (k, d) ∈ map entry_item (storage_entries l) <-> exists a i, is_address a /\ wf_u64 i /\ key_fits d
       /\ (storage_prefix a i, d) ∈ l /\ k = keccak256 a ++ to_be 8 i ++ keccak256 [].
Proof.
  intros Hl. unfold storage_entries. split_and!.
  - rewrite length_map. apply filter_length_le.
  - apply Forall_map, Forall_forall. intros x [_ Hs]%storage_of_filter; [|done].
    destruct (storage_row_parts x Hs) as (a & i & _ & _ & Hv & _ & _ & ->). cbn [entry_key entry_value]. split; [|done].
    rewrite !length_app, length_keccak256. lia.
  - intros k d. rewrite map_map, list_elem_of_fmap. split.
    + intros (x & E & [Hx Hs]%storage_of_filter); [|done].
      destruct (storage_row_parts x Hs) as (a & i & Ha & Hi & Hv & Ex & _ & Ee). rewrite Ee in E. unfold entry_item in E.
      cbn [entry_key entry_value] in E. apply pair_equal_spec in E as [-> ->]. exists a, i. by rewrite Ex in Hx.
    + intros (a & i & Ha & Hi & Hd & Hx & ->). assert (storage_row (storage_prefix a i, d)) as Hs by by exists a, i.
      exists (storage_prefix a i, d). split; [|by apply storage_of_filter].
      unfold storage_entry, storage_prefix, entry_item. cbn [fst snd entry_key entry_value].
      by rewrite take_app_length', drop_app_length'.
Qed.

(** A contract none of whose keys is in the table has the empty root. *)
Lemma no_storage_root t key c : tb_dupsort t = true -> key <> [] -> (forall x, x ∈ tb_items t -> fst x <> key) ->
  storage_root t key c = Ok (kEmptyRoot, c).
Proof.
  intros Hd Hk Hno. unfold storage_root, table_seek_dup, storage_trie_can_skip_state, storage_trie_first_uncovered_prefix.
  pose proof (get_both_range t None key [0] Hd Hk ltac:(done)) as Hf.
  destruct (mdb_cursor_get t None MDB_GET_BOTH_RANGE key [0]) as [x|[]|]; try done.
  - destruct Hf as (Hx & [Ex _] & _). by destruct (Hno x Hx).
  - cbn [not_found result_bind]. by destruct (rows t).
Qed.

End Promotion.

(** * Properties *)

(** C22: The clean promotion of the plain state. Every account is found under the hash of its address, and nothing else is in
    the hashed accounts. Every word is in the hashed storage under the hash of the address, the incarnation, and the
    hash of an empty string, since the location of a word is in the data of a plain row and not in its key; so the
    loader of the tries, which looks for the hash of the address and the incarnation alone, finds no word of any
    contract and gives all of them the empty root. *)
Theorem promote_clean_state_correct {T : Type} `{LmdbLaws T} (txn : Txn T) (t t_accounts t_storage : T) :
  state_ready txn t t_accounts t_storage ->
  exists txn' ta ts, promote_clean_state txn = Ok txn'
    /\ table_at kHashedAccounts txn' ta /\ table_at kHashedStorage txn' ts
    /\ (forall k v, (k, v) ∈ tb_items ta <-> exists a, is_address a /\ (a, v) ∈ tb_items t /\ k = keccak256 a)
    /\ (forall k d, (k, d) ∈ tb_items ts <-> exists a i, is_address a /\ wf_u64 i /\ key_fits d
         /\ (storage_prefix a i, d) ∈ tb_items t /\ k = keccak256 a ++ to_be 8 i ++ keccak256 [])
    /\ forall a i c, storage_root ts (storage_prefix (keccak256 a) i) c = Ok (kEmptyRoot, c).
Proof.
  intros Hr. unfold promote_clean_state. rewrite (open_table_spec _ _ _ (sd_state _ _ _ _ Hr)). cbn [result_bind].
  destruct (scan_from t first_key clean_state_step (new_collector stage_buffer_size, new_collector stage_buffer_size) ltac:(done))
    as (l & -> & Hin & Hsorted & Hlen).
  assert (forall x, x ∈ l <-> x ∈ tb_items t) as Hinl.
  { intros x. rewrite Hin. split; [tauto|]. intros Hx. split; [done|]. pose proof (sd_rows _ _ _ _ Hr x Hx) as Hrow.
    apply above_zeros; [by apply Hrow|by apply state_row_long]. }
  assert (Forall state_row l) as Hl by (apply Forall_forall; intros x Hx; by apply (sd_rows _ _ _ _ Hr), Hinl).
  pose proof (sd_count _ _ _ _ Hr) as Hcount. pose proof (item_lt_nodup l Hsorted) as Hnd.
  destruct (clean_state_loop l (new_collector stage_buffer_size) (new_collector stage_buffer_size) [] [] [] [] Hl)
    as (c1 & c2 & ls1 & ls2 & -> & Hc1 & Hc2 & Hs1 & Hs2); try apply new_collector_ok; try constructor; try (cbn; lia).
  cbn [app result_bind] in *.
  destruct (account_entries_spec l Hl) as (Hle1 & Hpos1 & Hitems1), (storage_entries_spec l Hl) as (Hle2 & Hpos2 & Hitems2).
  rewrite (open_created_existing kHashedAccounts txn t_accounts (sd_accounts _ _ _ _ Hr)). cbn [result_bind].
  destruct (sd_accounts_empty _ _ _ _ Hr) as [Hda Hea], (sd_storage_empty _ _ _ _ Hr) as [Hds Hes].
  destruct (load_accounts t_accounts c1 ls1 _ Hda Hea Hc1 Hs1 Hpos1) as (ta & -> & Hta); [lia| |].
  { apply (account_keys_nodup txn t t_accounts t_storage l Hr); [|done]. intros x. by apply Hinl. }
  cbn [result_bind]. set (txn1 := with_table kHashedAccounts ta txn).
  rewrite (open_created_existing kHashedStorage txn1 t_storage)
    by (unfold txn1; cbn; rewrite lookup_insert_ne by done; apply (sd_storage _ _ _ _ Hr)).
  cbn [result_bind]. destruct (load_storage t_storage c2 ls2 _ Hds Hes Hc2 Hs2 Hpos2) as (ts & -> & Hdts & Hts); [lia| |].
  { apply (storage_entries_nodup txn t t_accounts t_storage l Hr); [|done]. intros x. by apply Hinl. }
  cbn [result_bind]. exists (with_table kHashedStorage ts txn1), ta, ts. split; [done|]. split_and!.
  - unfold table_at. cbn. rewrite lookup_insert_ne by done. apply lookup_insert_eq.
  - apply lookup_insert_eq.
  - intros k v. rewrite Hta, Hitems1. by setoid_rewrite Hinl.
  - intros k d. rewrite Hts, Hitems2. by setoid_rewrite Hinl.
  - intros a i c. apply no_storage_root; [done| |].
    + unfold storage_prefix. intros E. apply (f_equal length) in E. by rewrite length_app, length_keccak256 in E.
    + intros [k d] Hx E. apply Hts, Hitems2 in Hx as (b & j & _ & _ & _ & _ & ->). cbn [fst] in E.
      apply (f_equal length) in E. unfold storage_prefix in E. by rewrite !length_app, !length_keccak256, !length_to_be in E.
Qed.

(** Two accounts, one of them with a word. *)
Definition first_address : bytes := zero_bytes 19 ++ [5].
Definition second_address : bytes := zero_bytes 19 ++ [6].
Definition word_data : bytes := zero_bytes 31 ++ [1; 9].

Definition demo_state : RefTable :=
  RefDup {[(first_address, [1]); (second_address, [2]); (storage_prefix first_address 1, word_data)]}.

Definition demo_plain : Txn RefTable :=
  mkTxn false (list_to_map [(config_name kPlainState, demo_state); (config_name kHashedAccounts, RefPlain ∅);
                            (config_name kHashedStorage, RefDup ∅)]).

Lemma demo_state_rows x : x ∈ tb_items demo_state ->
  x = (first_address, [1]) \/ x = (second_address, [2]) \/ x = (storage_prefix first_address 1, word_data).
Proof.
  change (tb_items demo_state) with ({[(first_address, [1]); (second_address, [2]); (storage_prefix first_address 1, word_data)]} : gset item).
  rewrite !elem_of_union, !elem_of_singleton. tauto.
Qed.

Lemma hashes_differ : bytes_eqb (keccak256 first_address) (keccak256 second_address) = false.
Proof. vm_compute. reflexivity. Qed.

Lemma demo_plain_ready : state_ready demo_plain demo_state (RefPlain ∅) (RefDup ∅).
Proof.
  split; try reflexivity.
  - intros x Hx. apply demo_state_rows in Hx as [->|[->| ->]].
    + split; [by left|]. split; [done|]. by apply (bool_decide_unpack _); vm_compute.
    + split; [by left|]. split; [done|]. by apply (bool_decide_unpack _); vm_compute.
    + split; [right; exists first_address, 1; repeat split; (unfold wf_u64, key_fits; cbn; lia)|].
      split; [done|]. by apply (bool_decide_unpack _); vm_compute.
  - intros a v v' Ha Hx Hy. apply demo_state_rows in Hx, Hy.
    destruct Hx as [Hx|[Hx|Hx]], Hy as [Hy|[Hy|Hy]]; apply pair_equal_spec in Hx as [-> ->]; apply pair_equal_spec in Hy as [Hy ->]; done.
  - assert (forall x, x ∈ tb_items demo_state -> take kAddressLength (fst x) = first_address \/ take kAddressLength (fst x) = second_address) as Hin.
    { intros x Hx. apply demo_state_rows in Hx as [->|[->| ->]]; [by left|by right|by left]. }
    intros x y Hx Hy E. pose proof hashes_differ as Hd.
    destruct (Hin x Hx) as [Ex|Ex], (Hin y Hy) as [Ey|Ey]; rewrite Ex, Ey in *; try reflexivity; exfalso.
    + apply bytes_eqb_eq in E. congruence.
    + symmetry in E. apply bytes_eqb_eq in E. congruence.
  - by split.
  - by split.
Qed.

Lemma promote_clean_state_correct_witness :
  exists txn' ts, promote_clean_state demo_plain = Ok txn' /\ table_at kHashedStorage txn' ts
    /\ (keccak256 first_address ++ to_be 8 1 ++ keccak256 [], word_data) ∈ tb_items ts.
Proof.
  destruct (promote_clean_state_correct demo_plain demo_state (RefPlain ∅) (RefDup ∅) demo_plain_ready)
    as (txn' & ta & ts & E & _ & Hts & _ & Hi & _).
  exists txn', ts. split; [exact E|]. split; [exact Hts|]. apply Hi. exists first_address, 1.
  split; [reflexivity|]. split; [unfold wf_u64; lia|]. split; [unfold key_fits; cbn; lia|]. split; [|reflexivity].
  change (tb_items demo_state) with ({[(first_address, [1]); (second_address, [2]); (storage_prefix first_address 1, word_data)]} : gset item).
  rewrite !elem_of_union, !elem_of_singleton. by right.
Defined.
