(* ===== verification/TgApi.v ===== *)
(** * TgApi: tg_api/silkworm_tg_api (h, cpp) and the loop of cmd/execute.cpp

    The execution of a range of blocks of the database: each block is read with its senders, executed over a
    database buffer, and the buffer is written when the batch is full or the range ends. The stage of execution
    calls it until it has reached a given block or the end of the chain, and records its progress. *)

From stdpp Require Import gmap sets strings.
From S2P Require Import Prelude Util Rlp Account Transaction Block Chain MemoryBuffer Validity IntraBlockState Cache.
From S2P Require Import Precompiled Evm EvmTheorems Processor ProcessorCorrect Bitmap Lmdb DbUtil AccessLayer Cbor DbBuffer.
From S2P Require Import DbBufferCorrect.
Local Open Scope Z_scope.
Local Open Scope silk_scope.

(** ** db::Buffer as the [StateBuffer] of an execution

    A reader of [db::Buffer] is [noexcept]: if the database throws under it, the process ends. The instance answers
    as for something absent then, so its statements are about databases under which no reader throws; the members
    that are not implemented yet, and that no execution calls, answer a default. *)

Record DbState (T : Type) : Type := mkDbState { ds_txn : Txn T; ds_buffer : DbBuffer }.
Arguments mkDbState {T} _ _.
Arguments ds_txn {T} _.
Arguments ds_buffer {T} _.

Definition answer {A} (absent : A) (r : result DbError A) : A := match r with Ok a => a | _ => absent end.

Section State.
Context {T : Type} `{Lmdb T} {R : Type} `{Roaring R} `{CborEncoder}.

Definition on_buffer (f : DbBuffer -> DbBuffer) (s : DbState T) : DbState T := mkDbState (ds_txn s) (f (ds_buffer s)).

#[export] Instance DbState_StateBuffer : StateBuffer (DbState T) := {
  MemoryBuffer.read_account s a := answer None (db_read_account (R := R) (ds_buffer s) (Some (ds_txn s)) None a);
  MemoryBuffer.read_code s h := answer [] (db_read_code (ds_buffer s) (Some (ds_txn s)) h);
  MemoryBuffer.read_storage s a i l := answer zero_bytes32 (db_read_storage (R := R) (ds_buffer s) (Some (ds_txn s)) None a i l);
  MemoryBuffer.previous_incarnation s a := answer 0 (db_previous_incarnation (ds_buffer s) (Some (ds_txn s)) None a);
  MemoryBuffer.read_header s n h := answer None (db_read_header (ds_buffer s) (Some (ds_txn s)) n h);
  MemoryBuffer.read_body s n h := answer None (db_read_body (ds_buffer s) (Some (ds_txn s)) n h);
  MemoryBuffer.total_difficulty s n h := answer None (db_total_difficulty (ds_buffer s) (Some (ds_txn s)) n h);
  MemoryBuffer.state_root_hash s := db_state_root_hash (ds_buffer s);
  MemoryBuffer.current_canonical_block s := answer 0 (db_current_canonical_block (ds_buffer s));
  MemoryBuffer.canonical_hash s n := answer None (db_canonical_hash (ds_buffer s) n);
  MemoryBuffer.insert_block block hash s :=
    on_buffer (fun b => answer b (db_insert_block block hash (Some (ds_txn s)) b)) s;
  MemoryBuffer.canonize_block n h := on_buffer (fun b => answer b (db_canonize_block n h b));
  MemoryBuffer.decanonize_block n := on_buffer (fun b => answer b (db_decanonize_block n b));
  MemoryBuffer.insert_receipts n receipts := on_buffer (db_insert_receipts n receipts);
  MemoryBuffer.begin_block n := on_buffer (db_begin_block n);
  MemoryBuffer.update_account a initial current := on_buffer (db_update_account a initial current);
  MemoryBuffer.update_account_code a i h c := on_buffer (db_update_account_code a i h c);
  MemoryBuffer.update_storage a i l initial current := on_buffer (db_update_storage a i l initial current);
  MemoryBuffer.unwind_state_changes n := on_buffer (fun b => answer b (db_unwind_state_changes n b))
}.

End State.

(** ** silkworm_tg_api.h *)

Inductive SilkwormStatusCode : Type :=
| kSilkwormSuccess
| kSilkwormBlockNotFound
| kSilkwormUnknownChainId
| kSilkwormLmdbError
| kSilkwormMissingSenders
| kSilkwormInvalidBlock
| kSilkwormDecodingError
| kSilkwormIncompatibleDbFormat
| kSilkwormUnknownError.

#[export] Instance SilkwormStatusCode_eq_dec : EqDecision SilkwormStatusCode.
Proof. solve_decision. Defined.

Definition status_value (s : SilkwormStatusCode) : Z :=
  match s with
  | kSilkwormSuccess => 0
  | kSilkwormBlockNotFound => 1
  | kSilkwormUnknownChainId => 2
  | kSilkwormLmdbError => 3
  | kSilkwormMissingSenders => 4
  | kSilkwormInvalidBlock => 5
  | kSilkwormDecodingError => 6
  | kSilkwormIncompatibleDbFormat => 7
  | kSilkwormUnknownError => -1
  end.

(** ** silkworm_tg_api.cpp *)

(** The [catch] clauses, and the code written to [lmdb_error_code]. *)
Definition caught (e : DbError) : SilkwormStatusCode * option MdbCode :=
  match e with
  | LmdbException rc => (kSilkwormLmdbError, Some rc)
  | MissingSenders => (kSilkwormMissingSenders, None)
  | DecodingException _ => (kSilkwormDecodingError, None)
  | _ => (kSilkwormUnknownError, None)
  end.

Section Execution.
Context {T : Type} `{Lmdb T} {R : Type} `{Roaring R} `{CborEncoder}.
Context `{Evmone} `{Secp256k1} `{Gmp} `{Libff}.

(** The objects that live through the loop: the buffer, the cache of analyses, the pool of execution states. *)
Record Machine : Type := mkMachine {
  m_buffer : DbBuffer;
  m_cache : option (AnalysisCache CodeAnalysis);
  m_pool : option (list ExecutionState)
}.

Definition new_machine : Machine :=
  mkMachine new_db_buffer (Some (new_analysis_cache kDefaultMaxSize (Z.of_nat EVMC_MAX_REVISION))) (Some []).

(** How the loop over the blocks ends: with a status, with an exception, or with a buffer to be written. *)
Inductive LoopEnd : Type :=
| LoopStatus (status : SilkwormStatusCode)
| LoopThrow (e : DbError)
| LoopWrite (buffer : DbBuffer).

(** What is in [*last_executed_block], if it was written, comes with it. *)
Fixpoint blocks_loop (fuel : nat) (txn : Txn T) (config : ChainConfig) (max_block batch_size : Z) (write_receipts : bool)
    (block_num : Z) (m : Machine) (last : option Z) : result Halt (LoopEnd * option Z) :=
  if max_block <? block_num then Ok (LoopWrite (m_buffer m), last)
  else
    match fuel with
    | O => Undef
    | S fuel =>
        match AccessLayer.read_block txn block_num true with
        | Undef => Undef
        | Err e => Ok (LoopThrow e, last)
        | Ok None => Ok (LoopStatus kSilkwormBlockNotFound, last)
        | Ok (Some bh) =>
            try (receipts, err, e) :=
              execute_block (block bh) (mkDbState txn (m_buffer m)) config (m_cache m) (m_pool m) None in
            if negb (bool_decide (err = kOk)) then Ok (LoopStatus kSilkwormInvalidBlock, last)
            else
              let buffer := ds_buffer (db (state e)) in
              let buffer := if write_receipts then db_insert_receipts block_num receipts buffer else buffer in
              if batch_size <=? batch_size_ buffer then Ok (LoopWrite buffer, Some block_num)
              else blocks_loop fuel txn config max_block batch_size write_receipts (u64 (block_num + 1))
                     (mkMachine buffer (analysis_cache e) (state_pool e)) (Some block_num)
        end
    end.

(** [a && b] of conditions that may throw. *)
Definition and_also (a b : result DbError bool) : result DbError bool := try x := a in if x then b else Ok false.

(** The migrations that must have happened. *)
Definition format_supported (txn : Txn T) (write_receipts : bool) : result DbError bool :=
  and_also
    (if write_receipts
     then and_also (migration_happened txn "receipts_cbor_encode") (migration_happened txn "receipts_store_logs_separately")
     else Ok true)
    (and_also
       (and_also (migration_happened txn "acc_change_set_dup_sort_18") (migration_happened txn "storage_change_set_dup_sort_22"))
       (migration_happened txn "tx_table_4")).

(** What the caller sees: the status, the tables (unless writing them failed half-way), and what was written to the
    two output parameters. *)
Record Outcome : Type := mkOutcome {
  status : SilkwormStatusCode;
  tables_after : option (Txn T);
  last_executed_block : option Z;
  lmdb_error_code : option MdbCode
}.

Definition failed_with (e : DbError) (tables : option (Txn T)) (last : option Z) : Outcome :=
  mkOutcome (fst (caught e)) tables last (snd (caught e)).

(** Every round finds another row of the canonical hashes. *)
Definition canonical_rows (txn : Txn T) : nat :=
  match open_table kCanonicalHashes txn with Ok t => rows t | _ => 0 end.

Definition silkworm_execute_blocks (txn : Txn T) (chain_id start_block max_block batch_size : Z) (write_receipts : bool)
  : result Halt Outcome :=
  match lookup_chain_config chain_id with
  | None => Ok (mkOutcome kSilkwormUnknownChainId (Some txn) None None)
  | Some config =>
      match format_supported txn write_receipts with
      | Undef => Undef
      | Err e => Ok (failed_with e (Some txn) None)
      | Ok false => Ok (mkOutcome kSilkwormIncompatibleDbFormat (Some txn) None None)
      | Ok true =>
          try (ending, last) :=
            blocks_loop (S (canonical_rows txn)) txn config max_block batch_size write_receipts start_block new_machine None in
          match ending with
          | LoopStatus s => Ok (mkOutcome s (Some txn) last None)
          | LoopThrow e => Ok (failed_with e (Some txn) last)
          | LoopWrite buffer =>
              match write_to_db buffer (Some txn) with
              | Undef => Undef
              | Err e => Ok (failed_with e None last)
              | Ok txn' => Ok (mkOutcome kSilkwormSuccess txn' last None)
              end
          end
      end
  end.

(** ** cmd/execute.cpp, after its arguments are parsed *)

Record StageEnd : Type := mkStageEnd { exit_code : Z; committed : Txn T }.

(** The transaction in progress is lost where the program returns without a commit. *)
Fixpoint stage_loop (fuel : nat) (chain_id to_block batch_size : Z) (write_receipts : bool)
    (block_number current_progress : Z) (saved txn : Txn T) : result Halt StageEnd :=
  if to_block <? block_number then Ok (mkStageEnd 0 saved)
  else
    match fuel with
    | O => Undef
    | S fuel =>
        try o := silkworm_execute_blocks txn chain_id block_number to_block batch_size write_receipts in
        if negb (bool_decide (status o = kSilkwormSuccess)) && negb (bool_decide (status o = kSilkwormBlockNotFound))
        then Ok (mkStageEnd (status_value (status o)) saved)
        else
          let current_progress := default current_progress (last_executed_block o) in
          match tables_after o with
          | None => Undef
          | Some txn =>
              match set_stage_progress txn kExecutionKey current_progress with
              | Undef => Undef
              | Err _ => Ok (mkStageEnd (-5) saved)
              | Ok txn =>
                  if bool_decide (status o = kSilkwormBlockNotFound) then Ok (mkStageEnd 0 txn)
                  else stage_loop fuel chain_id to_block batch_size write_receipts (u64 (current_progress + 1))
                         current_progress txn txn
              end
          end
    end.

(** [main]: an exception ends it with -5. *)
Definition execute_stage {J : Type} `{Json J} (parse : bytes -> option J) (txn : Txn T) (to_block batch_size : Z)
  : result Halt StageEnd :=
  match
    try write_receipts := read_storage_mode_receipts txn in
    try (chain_config, txn1) := read_chain_config parse txn in
    match chain_config with
    | None => Err RuntimeError
    | Some chain_config =>
        try (previous_progress, txn1) := get_stage_progress txn1 kExecutionKey in
        Ok (write_receipts, config_chain_id chain_config, previous_progress, txn1)
    end
  with
  | Undef => Undef
  | Err _ => Ok (mkStageEnd (-5) txn)
  | Ok (write_receipts, chain_id, previous_progress, txn1) =>
      stage_loop (S (canonical_rows txn1)) chain_id to_block batch_size write_receipts (u64 (previous_progress + 1))
        previous_progress txn txn1
  end.

End Execution.

(** * Lemmas: the loop over the blocks *)

Section Loop.
Context {T : Type} `{Lmdb T} {R : Type} `{Roaring R} `{CborEncoder}.
Context `{Evmone} `{Secp256k1} `{Gmp} `{Libff}.
Context (txn : Txn T) (config : ChainConfig) (start max_block batch_size : Z) (write_receipts : bool).

(** The block of a number is there and is executed without an error; [m'] is what the next one is executed over. *)
Definition block_step (n : Z) (m m' : Machine) : Prop :=
  exists bh receipts e, AccessLayer.read_block txn n true = Ok (Some bh)
    /\ execute_block (block bh) (mkDbState txn (m_buffer m)) config (m_cache m) (m_pool m) None = Ok (receipts, kOk, e)
    /\ let b := ds_buffer (db (state e)) in
       m' = mkMachine (if write_receipts then db_insert_receipts n receipts b else b) (analysis_cache e) (state_pool e).

Definition batch_full (m : Machine) : Prop := batch_size <= batch_size_ (m_buffer m).

(** [k] blocks from the first on were executed, one after the other over one buffer, none beyond the last block and
    none after the batch was full. *)
Inductive executed : nat -> Machine -> Prop :=
| executed_none : executed 0 new_machine
| executed_block k m m' :
    executed k m -> (k <> 0%nat -> ~ batch_full m) -> u64 (start + Z.of_nat k) <= max_block ->
    block_step (u64 (start + Z.of_nat k)) m m' -> executed (S k) m'.

(** The number of the last of [k] blocks. *)
Definition last_of (k : nat) : option Z :=
  match k with O => None | S k => Some (u64 (start + Z.of_nat k)) end.

(** How the loop can end after [k] blocks. *)
Inductive ended (k : nat) (m : Machine) : LoopEnd -> Prop :=
| ended_full : k <> 0%nat -> batch_full m -> ended k m (LoopWrite (m_buffer m))
| ended_range : max_block < u64 (start + Z.of_nat k) -> ended k m (LoopWrite (m_buffer m))
| ended_missing : u64 (start + Z.of_nat k) <= max_block ->
    AccessLayer.read_block txn (u64 (start + Z.of_nat k)) true = Ok None -> ended k m (LoopStatus kSilkwormBlockNotFound)
| ended_throw e : u64 (start + Z.of_nat k) <= max_block ->
    AccessLayer.read_block txn (u64 (start + Z.of_nat k)) true = Err e -> ended k m (LoopThrow e)
| ended_invalid bh receipts err e : u64 (start + Z.of_nat k) <= max_block ->
    AccessLayer.read_block txn (u64 (start + Z.of_nat k)) true = Ok (Some bh) ->
    execute_block (block bh) (mkDbState txn (m_buffer m)) config (m_cache m) (m_pool m) None = Ok (receipts, err, e) ->
    err <> kOk -> ended k m (LoopStatus kSilkwormInvalidBlock).

Lemma u64_next k : u64 (u64 (start + Z.of_nat k) + 1) = u64 (start + Z.of_nat (S k)).
Proof. unfold u64, wrap. rewrite Zplus_mod_idemp_l. f_equal. lia. Qed.

Lemma blocks_loop_ended fuel : forall k m ending last,
  executed k m -> (k <> 0%nat -> ~ batch_full m) ->
  blocks_loop fuel txn config max_block batch_size write_receipts (u64 (start + Z.of_nat k)) m (last_of k) = Ok (ending, last) ->
  exists k' m', executed k' m' /\ ended k' m' ending /\ last = last_of k'.
Proof.
  induction fuel as [|fuel IH]; intros k m ending last Hex Hopen; cbn [blocks_loop];
    destruct (Z.ltb_spec max_block (u64 (start + Z.of_nat k))) as [Hgt|Hle].
  1, 3: intros [= <- <-]; exists k, m; split; [done|]; split; [by apply ended_range|done].
  - done.
  - destruct (AccessLayer.read_block txn _ true) as [[bh|]|e|] eqn:Er.
    + destruct (execute_block _ _ _ _ _ _) as [[[receipts err] e]|[]|] eqn:Ex; cbn [result_bind]; [|done..].
      case_bool_decide as He; cbn [negb].
      * subst err. set (b := if write_receipts then _ else _).
        assert (executed (S k) (mkMachine b (analysis_cache e) (state_pool e))) as HS
          by (apply (executed_block k m); [done|done|done|by exists bh, receipts, e]).
        destruct (Z.leb_spec batch_size (batch_size_ b)) as [Hf|Hf].
        -- intros [= <- <-]. exists (S k), (mkMachine b (analysis_cache e) (state_pool e)).
           split; [done|]. split; [by apply (ended_full (S k) (mkMachine b _ _))|done].
        -- rewrite u64_next. apply (IH (S k)); [done|]. intros _. unfold batch_full. cbn [m_buffer]. lia.
      * intros [= <- <-]. exists k, m. split; [done|]. split; [by eapply ended_invalid|done].
    + intros [= <- <-]. exists k, m. split; [done|]. split; [by apply ended_missing|done].
    + intros [= <- <-]. exists k, m. split; [done|]. split; [by apply ended_throw|done].
    + done.
Qed.

(** The blocks that are executed are found under different keys of the canonical hashes. *)
Lemma read_block_row `{!LmdbLaws T} t n bh : wf_u64 n ->
  open_table kCanonicalHashes txn = Ok t ->
  AccessLayer.read_block txn n true = Ok (Some bh) -> exists h, (block_key n, h) ∈ tb_items t.
Proof.
  intros Hn Ht. unfold AccessLayer.read_block. rewrite Ht. cbn [result_bind]. unfold table_get.
  destruct (table_find_spec t (block_key n)) as (o & -> & Ho).
  { intros E. apply (f_equal length) in E. unfold block_key in E. by rewrite length_to_be in E. }
  cbn [result_bind]. destruct o as [[k h]|]; [|done]. intros _. cbn in Ho. destruct Ho as [Hin ->]. by exists h.
Qed.

(** Whatever is executed next is read without undefined behaviour, and its execution ends. *)
Definition steps_end : Prop :=
  forall k m, executed k m -> u64 (start + Z.of_nat k) <= max_block ->
    match AccessLayer.read_block txn (u64 (start + Z.of_nat k)) true with
    | Undef => False
    | Ok (Some bh) => exists r, execute_block (block bh) (mkDbState txn (m_buffer m)) config (m_cache m) (m_pool m) None = Ok r
    | _ => True
    end.

Context `{!LmdbLaws T} (t : T) (Ht : open_table kCanonicalHashes txn = Ok t) (Hrows : Z.of_nat (rows t) < 2 ^ 64).

Lemma executed_rows k m : executed k m ->
  forall i, (i < k)%nat -> exists h, (block_key (u64 (start + Z.of_nat i)), h) ∈ tb_items t.
Proof.
  induction 1 as [|k m m' _ IH _ _ (bh & rs & e & Er & _)]; [lia|]. intros i Hi.
  destruct (decide (i = k)) as [->|]; [|apply IH; lia]. apply (read_block_row t _ bh); [apply u64_range|done|done].
Qed.

Lemma executed_few k m : executed k m -> (k <= rows t)%nat.
Proof.
  intros Hex. destruct (Nat.le_gt_cases k (rows t)) as [|Hgt]; [done|exfalso].
  pose proof (executed_rows k m Hex) as Hin.
  set (keys := map (fun i => block_key (u64 (start + Z.of_nat i))) (seq 0 (S (rows t)))).
  assert (NoDup keys) as Hnd.
  { apply NoDup_fmap_2_strong; [|apply NoDup_seq]. intros i j Hi Hj E. apply elem_of_seq in Hi, Hj.
    unfold block_key in E. apply to_be_inj8 in E; [|apply u64_range..]. unfold u64, wrap in E. change (2 ^ 64) with 18446744073709551616 in *.
    Z.div_mod_to_equations. lia. }
  assert (keys ⊆+ map fst (elements (tb_items t))) as Hsub.
  { apply NoDup_submseteq; [done|]. intros x (i & -> & Hi%elem_of_seq)%list_elem_of_fmap.
    destruct (Hin i) as [h Hh]; [lia|]. apply list_elem_of_fmap. eexists (_, h). split; [done|]. by apply elem_of_elements. }
  apply submseteq_length in Hsub. unfold keys in Hsub. rewrite !length_map, length_seq in Hsub.
  unfold rows, size, set_size in *. cbn in Hsub. lia.
Qed.

Lemma blocks_loop_total fuel : forall k m, steps_end ->
  executed k m -> (k <> 0%nat -> ~ batch_full m) -> (rows t < fuel + k)%nat ->
  exists r, blocks_loop fuel txn config max_block batch_size write_receipts (u64 (start + Z.of_nat k)) m (last_of k) = Ok r.
Proof.
  induction fuel as [|fuel IH]; intros k m Hend Hex Hopen Hf.
  { pose proof (executed_few k m Hex). lia. }
  cbn [blocks_loop]. destruct (Z.ltb_spec max_block (u64 (start + Z.of_nat k))) as [Hgt|Hle]; [by eexists|].
  specialize (Hend k m Hex Hle) as He. destruct (AccessLayer.read_block txn _ true) as [[bh|]|e|] eqn:Er; [|by eexists..|done].
  destruct He as [[[receipts err] e] Ex]. rewrite Ex. cbn [result_bind].
  case_bool_decide as Hk; cbn [negb]; [|by eexists]. subst err. set (b := if write_receipts then _ else _).
  destruct (Z.leb_spec batch_size (batch_size_ b)) as [Hfull|Hfull]; [by eexists|].
  rewrite u64_next. apply (IH (S k)); [done| |unfold batch_full; cbn; lia|lia].
  apply (executed_block k m); [done|done|done|by exists bh, receipts, e].
Qed.

End Loop.

(** * Properties *)

Section Properties.
Context {T : Type} `{LmdbLaws T} {R : Type} `{Roaring R} `{CborEncoder}.
Context `{Evmone} `{Secp256k1} `{Gmp} `{Libff}.
Implicit Types txn : Txn T.

(** What a range ends with, in terms of how its loop ends. *)
Lemma execute_blocks_end txn chain_id start max_block batch_size write_receipts config (o : Outcome) :
  lookup_chain_config chain_id = Some config -> wf_u64 start ->
  silkworm_execute_blocks txn chain_id start max_block batch_size write_receipts = Ok o ->
  (tables_after o = Some txn /\ status o <> kSilkwormSuccess /\ status o <> kSilkwormBlockNotFound)
  \/ exists k m ending, executed txn config start max_block batch_size write_receipts k m
       /\ ended txn config start max_block batch_size k m ending /\ last_executed_block o = last_of start k
       /\ match ending with
          | LoopStatus s => status o = s /\ tables_after o = Some txn
          | LoopThrow e => status o = fst (caught e) /\ tables_after o = Some txn
          | LoopWrite b =>
              match write_to_db b (Some txn) with
              | Ok txn' => status o = kSilkwormSuccess /\ tables_after o = txn'
              | Err e => status o = fst (caught e) /\ tables_after o = None
              | Undef => False
              end
          end.
Proof.
  intros Hc Hs. unfold silkworm_execute_blocks. rewrite Hc.
  destruct (format_supported txn write_receipts) as [[|]|e|]; [|intros [= <-]; by left|intros [= <-]; destruct e; by left|done].
  destruct (blocks_loop _ _ _ _ _ _ _ _ _) as [[ending last]|[]|] eqn:E; cbn [result_bind]; [|done..].
  replace start with (u64 (start + Z.of_nat 0)) in E by (rewrite Z.add_0_r; by apply u64_small).
  destruct (blocks_loop_ended _ _ _ _ _ _ _ 0 new_machine ending last (executed_none _ _ _ _ _ _) ltac:(done) E)
    as (k & m & Hex & Hend & ->). intros Ho. right. exists k, m, ending. split; [done|]. split; [done|].
  destruct ending as [s|e|b]; [by injection Ho as <-..|].
  destruct (write_to_db b (Some txn)) as [txn'|e|]; [by injection Ho as <-..|done].
Qed.

Lemma caught_error e : fst (caught e) <> kSilkwormSuccess /\ fst (caught e) <> kSilkwormBlockNotFound.
Proof. by destruct e. Qed.

(** C16: The tables are written if and only if the answer is success; what is written is then the buffer over which
    blocks from the first on were executed one after the other, up to the last block of the range or the one that
    filled the batch, which is the block reported. If a block is not found, the blocks before it were executed and
    the last of them is reported, but the tables are as before. In every other case nothing was written, unless the
    writing itself failed. *)
Theorem execute_blocks_writes txn (chain_id start max_block batch_size : Z) (write_receipts : bool)
    (config : ChainConfig) (o : Outcome) :
  lookup_chain_config chain_id = Some config -> wf_u64 start -> start <= max_block ->
  silkworm_execute_blocks txn chain_id start max_block batch_size write_receipts = Ok o ->
  let executed := executed txn config start max_block batch_size write_receipts in
  match status o with
  | kSilkwormSuccess =>
      exists k m, executed (S k) m /\ (batch_full batch_size m \/ max_block < u64 (start + Z.of_nat (S k)))
        /\ write_to_db (m_buffer m) (Some txn) = Ok (tables_after o) /\ last_executed_block o = Some (u64 (start + Z.of_nat k))
  | kSilkwormBlockNotFound =>
      exists k m, executed k m /\ AccessLayer.read_block txn (u64 (start + Z.of_nat k)) true = Ok None
        /\ tables_after o = Some txn /\ last_executed_block o = last_of start k
  | _ =>
      tables_after o = Some txn
      \/ tables_after o = None /\ exists k m e, executed k m /\ write_to_db (m_buffer m) (Some txn) = Err e
  end.
Proof.
  intros Hc Hs Hle Ho. cbv zeta.
  destruct (execute_blocks_end txn chain_id start max_block batch_size write_receipts config o Hc Hs Ho)
    as [(Ht & Hne & Hnf)|(k & m & ending & Hex & Hend & Hlast & Hm)]; [destruct (status o); by (left || congruence)|].
  destruct Hend as [Hk Hf|Hgt|Hin Er|e Hin Er|bh rs err e Hin Er Ex He].
  1, 2: destruct (write_to_db (m_buffer m) (Some txn)) as [txn'|e|] eqn:Ew; [|pose proof (caught_error e) as [Hne Hnf]|done];
    destruct Hm as [-> <-]; [|destruct (fst (caught e)); try done; right; (split; [done|]); eauto].
  - destruct k as [|k]; [done|]. exists k, m. split; [done|]. split; [by left|]. done.
  - destruct k as [|k]; [rewrite Z.add_0_r, u64_small in Hgt by done; lia|].
    exists k, m. split; [done|]. split; [by right|]. done.
  - destruct Hm as [-> Ht]. by exists k, m.
  - destruct Hm as [-> Ht]. pose proof (caught_error e) as [Hne Hnf]. destruct (fst (caught e)); by left || done.
  - destruct Hm as [-> Ht]. by left.
Qed.

(** The loop over the blocks ends, whatever the range: the blocks that are found are different rows of the canonical
    hashes, so it has ended after one more round than there are rows, provided that each block it reaches is read
    without a failed assertion and its execution ends. *)
Theorem blocks_loop_ends txn (config : ChainConfig) (start max_block batch_size : Z) (write_receipts : bool) (t : T) :
  wf_u64 start -> open_table kCanonicalHashes txn = Ok t -> Z.of_nat (rows t) < 2 ^ 64 ->
  steps_end txn config start max_block batch_size write_receipts ->
  exists r, blocks_loop (S (canonical_rows txn)) txn config max_block batch_size write_receipts start new_machine None = Ok r.
Proof.
  intros Hs Ht Hr Hend. unfold canonical_rows. rewrite Ht.
  destruct (blocks_loop_total txn config start max_block batch_size write_receipts t Ht Hr (S (rows t)) 0 new_machine Hend) as [r E];
    [constructor|done|lia|]. rewrite Z.add_0_r, u64_small in E by done. by exists r.
Qed.

(** A block that is not found leaves the tables as they are, and the number of the last block fits. *)
Lemma blocks_not_found_keeps txn chain_id start max_block batch_size write_receipts (o : Outcome) :
  wf_u64 start -> silkworm_execute_blocks txn chain_id start max_block batch_size write_receipts = Ok o ->
  status o = kSilkwormBlockNotFound -> tables_after o = Some txn /\ forall n, last_executed_block o = Some n -> wf_u64 n.
Proof.
  intros Hs Ho Hst. destruct (lookup_chain_config chain_id) as [config|] eqn:Hc.
  - destruct (execute_blocks_end txn chain_id start max_block batch_size write_receipts config o Hc Hs Ho)
      as [(Ht & Hne & Hnf)|(k & m & ending & _ & _ & -> & Hm)]; [done|]. split.
    + destruct ending as [s|e|b]; [by destruct Hm..|].
      destruct (write_to_db b (Some txn)) as [txn'|e|]; [by destruct Hm; congruence| |done].
      pose proof (caught_error e) as [_ Hnf]. destruct Hm. congruence.
    + intros n. destruct k; [done|]. intros [= <-]. apply u64_range.
  - unfold silkworm_execute_blocks in Ho. rewrite Hc in Ho. injection Ho as <-. done.
Qed.

(** C23: When the chain ends within a batch, the stage of execution ends well and records the last block it executed as
    its progress, but it has written nothing else: every other table is as before, so the state of the blocks of
    that batch is lost, and the next run starts after them. *)
Theorem last_batch_lost txn (fuel : nat) (t : T) (chain_id to_block batch_size block_number progress last : Z)
    (write_receipts : bool) (saved : Txn T) (o : Outcome) :
  txn_ro txn = false -> txn_tables txn !! config_name kSyncStageProgress = Some t -> tb_dupsort t = false ->
  wf_u64 block_number -> block_number <= to_block ->
  silkworm_execute_blocks txn chain_id block_number to_block batch_size write_receipts = Ok o ->
  status o = kSilkwormBlockNotFound -> last_executed_block o = Some last ->
  exists txn',
    stage_loop (S fuel) chain_id to_block batch_size write_receipts block_number progress saved txn = Ok (mkStageEnd 0 txn')
    /\ get_stage_progress txn' kExecutionKey = Ok (last, txn')
    /\ forall name, name <> config_name kSyncStageProgress -> txn_tables txn' !! name = txn_tables txn !! name.
Proof.
  intros Hro Ht Hd Hwf Hle Eo Hst Hlast. destruct (blocks_not_found_keeps _ _ _ _ _ _ _ Hwf Eo Hst) as [Htx Hl]. specialize (Hl _ Hlast).
  cbn [stage_loop]. rewrite (proj2 (Z.ltb_ge _ _)) by done.
  rewrite Eo. cbn [result_bind]. rewrite Hst.
  rewrite (bool_decide_eq_false_2 (kSilkwormBlockNotFound = kSilkwormSuccess)), bool_decide_eq_true_2 by done.
  cbn [negb andb]. rewrite Hlast, Htx. cbn [default id].
  destruct (stage_written txn t kExecutionKey last Hro Ht Hd Hl ltac:(vm_compute; reflexivity)) as (t' & E & Eget & _).
  eexists. unfold id. rewrite E. split; [reflexivity|]. split; [exact Eget|]. intros name Hn. by apply lookup_insert_ne.
Qed.

End Properties.

(** ** An example: a chain of one block without transactions *)

#[local] Existing Instances demo no_key reference_gmp plane demo_cbor.

#[local] Notation one_hash := (to_be 32 77).

#[local] Notation one_block_rows :=
  [(kCanonicalHashes, RefPlain {[block_key 1 := one_hash]});
   (kHeaders, RefPlain {[block_key_hash 1 one_hash := encode_block_header (header (demo_block 1))]});
   (kBlockBodies, RefPlain {[block_key_hash 1 one_hash := encode_stored_body (mkBlockBodyForStorage 0 0 [])]});
   (kMigrations, RefPlain (list_to_map [(chars "acc_change_set_dup_sort_18", [1]);
                                        (chars "storage_change_set_dup_sort_22", [1]); (chars "tx_table_4", [1])]))].

Definition one_block_database : Txn RefTable :=
  Eval vm_compute in
    mkTxn false (list_to_map (map (fun e => (config_name (fst e), snd e)) one_block_rows) ∪ txn_tables ref_database).

#[local] Notation run_range max_block :=
  (silkworm_execute_blocks (R := gset Z) one_block_database 1 1 max_block (10 ^ 6) false).

(** The outcome of a range, if it ends with a status after a block. *)
Definition ends_after (r : result Halt (Outcome (T := RefTable))) (s : SilkwormStatusCode) (last : Z) : bool :=
  match r with Ok o => bool_decide (status o = s) && bool_decide (last_executed_block o = Some last) | _ => false end.

Lemma execute_blocks_writes_witness :
  exists o m, run_range 1 = Ok o /\ status o = kSilkwormSuccess
    /\ write_to_db (m_buffer m) (Some one_block_database) = Ok (tables_after o).
Proof.
  assert (ends_after (run_range 1) kSilkwormSuccess 1 = true) as Hrun by (vm_compute; reflexivity).
  destruct (run_range 1) as [o| |] eqn:E; [|discriminate Hrun..].
  apply andb_true_iff in Hrun as [Hs _]. apply bool_decide_eq_true in Hs.
  pose proof (execute_blocks_writes one_block_database 1 1 1 (10 ^ 6) false kMainnetConfig o eq_refl
                ltac:(unfold wf_u64; lia) ltac:(lia) E) as Hw.
  rewrite Hs in Hw. destruct Hw as (k & m & _ & _ & Hw & _). exists o, m. split; [reflexivity|]. split; [exact Hs|exact Hw].
Defined.

Lemma one_block_canonical : open_table kCanonicalHashes one_block_database = Ok (RefPlain {[block_key 1 := one_hash]}).
Proof. vm_compute. reflexivity. Qed.

Lemma one_block_steps : steps_end (R := gset Z) one_block_database kMainnetConfig 1 1 (10 ^ 6) false.
Proof.
  intros k m Hex Hle.
  pose proof (executed_few one_block_database kMainnetConfig 1 1 (10 ^ 6) false _ one_block_canonical ltac:(vm_compute; reflexivity) k m Hex) as Hk.
  assert (k = 0 \/ k = 1)%nat as [->| ->] by (vm_compute in Hk; lia); [|vm_compute in Hle; by destruct Hle].
  inversion Hex; subst.
  assert (match AccessLayer.read_block one_block_database 1 true with
          | Ok (Some bh) =>
              match execute_block (block bh) (mkDbState one_block_database (m_buffer new_machine)) kMainnetConfig
                      (m_cache new_machine) (m_pool new_machine) None with Ok _ => true | _ => false end
          | _ => false end = true) as Hrun by (vm_compute; reflexivity).
  change (u64 (1 + Z.of_nat 0)) with 1. destruct (AccessLayer.read_block _ 1 true) as [[bh|]| |]; [|done..].
  destruct (execute_block _ _ _ _ _ _) as [r| |]; [by exists r|done..].
Qed.

Lemma blocks_loop_ends_witness :
  exists r, blocks_loop (R := gset Z) (S (canonical_rows one_block_database)) one_block_database kMainnetConfig 1 (10 ^ 6) false 1
              new_machine None = Ok r.
Proof.
  apply (blocks_loop_ends one_block_database kMainnetConfig 1 1 (10 ^ 6) false _ ltac:(unfold wf_u64; lia) one_block_canonical
           ltac:(vm_compute; reflexivity) one_block_steps).
Defined.

Lemma last_batch_lost_witness :
  exists txn', stage_loop (R := gset Z) 2 1 (2 ^ 64 - 1) (10 ^ 6) false 1 0 one_block_database one_block_database = Ok (mkStageEnd 0 txn')
    /\ get_stage_progress txn' kExecutionKey = Ok (1, txn')
    /\ txn_tables txn' !! config_name kPlainState = txn_tables one_block_database !! config_name kPlainState.
Proof.
  assert (ends_after (run_range (2 ^ 64 - 1)) kSilkwormBlockNotFound 1 = true) as Hrun by (vm_compute; reflexivity).
  destruct (run_range (2 ^ 64 - 1)) as [o| |] eqn:E; [|discriminate Hrun..].
  apply andb_true_iff in Hrun as [Hs Hl]. apply bool_decide_eq_true in Hs, Hl.
  destruct (last_batch_lost one_block_database 1 (RefPlain ∅) 1 (2 ^ 64 - 1) (10 ^ 6) 1 0 1 false one_block_database o
              eq_refl ltac:(vm_compute; reflexivity) ltac:(reflexivity) ltac:(unfold wf_u64; lia) ltac:(lia) E Hs Hl) as (txn' & E1 & E2 & E3).
  exists txn'. split; [exact E1|]. split; [exact E2|]. by apply E3.
Defined.
