(* ===== verification/Worker.v ===== *)
(** * Worker: common/worker.hpp, common/worker.cpp

    A thread that waits for kicks and works when it is kicked: its life, from start to stop, as steps of the thread
    and calls of its owner that are interleaved in any order. An atomic access is one step, but for the two of [stop]; so is the body of the
    work between two waits, whose effects are those of the derived class. *)

From stdpp Require Import base relations.
From S2P Require Import Prelude.
Local Open Scope Z_scope.

Inductive WorkerState : Type := kStopped | kStarting | kStarted | kStopping.

#[export] Instance WorkerState_eq_dec : EqDecision WorkerState.
Proof. solve_decision. Defined.

(** Where the thread is: before the exchange that starts it, before it takes back the kick, in the loop of
    [wait_for_kick], behind that loop, in the body of [work], before the last store, and over. *)
Inductive ThreadPoint : Type :=
| NoThread
| Launched
| Reset
| Waiting
| Woken
| Working
| Leaving
| Over.

#[export] Instance ThreadPoint_eq_dec : EqDecision ThreadPoint.
Proof. solve_decision. Defined.

(** The members that the threads share, the point of the thread, and whether it was joined. *)
Record Worker : Type := mkWorker {
  state_ : WorkerState;
  kicked_ : bool;
  point : ThreadPoint;
  joined : bool
}.

Definition new_worker : Worker := mkWorker kStopped false NoThread false.

(** [should_stop] *)
Definition should_stop (w : Worker) : bool := bool_decide (state_ w = kStopping).

(** ** The thread

    The derived class works in a loop: [while (wait_for_kick()) body]. *)

Inductive thread_step : Worker -> Worker -> Prop :=
| ThreadStarts k j : thread_step (mkWorker kStarting k Launched j) (mkWorker kStarted k Reset j)
| ThreadTooLate s k j : s <> kStarting -> thread_step (mkWorker s k Launched j) (mkWorker s k Leaving j)
| ThreadTakesKickBack s k j : thread_step (mkWorker s k Reset j) (mkWorker s false Waiting j)
| ThreadWaits s j : thread_step (mkWorker s false Waiting j) (mkWorker s false Waiting j)
| ThreadWakes s j : thread_step (mkWorker s true Waiting j) (mkWorker s false Woken j)
| ThreadGoesOn s k j : s <> kStopping -> thread_step (mkWorker s k Woken j) (mkWorker s k Working j)
| ThreadIsStopped k j : thread_step (mkWorker kStopping k Woken j) (mkWorker kStopping k Leaving j)
| ThreadBodyEnds s k j : thread_step (mkWorker s k Working j) (mkWorker s k Waiting j)
| ThreadBodyThrows s k j : thread_step (mkWorker s k Working j) (mkWorker s k Leaving j)
| ThreadLeaves s k j : thread_step (mkWorker s k Leaving j) (mkWorker kStopped k Over j).

(** ** The calls of the owner *)

(** [start], up to its wait: a thread object that can still be joined must not be replaced. *)
Definition start (w : Worker) : result unit Worker :=
  if decide (state_ w = kStopped) then
    match point w with
    | NoThread => Ok (mkWorker kStarting (kicked_ w) Launched false)
    | _ => if joined w then Ok (mkWorker kStarting (kicked_ w) Launched false) else Undef
    end
  else Ok w.

(** [start(wait)] goes on when it sees this. *)
Definition has_started (w : Worker) : bool := bool_decide (state_ w = kStarted).

Definition kick (w : Worker) : Worker := mkWorker (state_ w) true (point w) (joined w).

(** [stop], up to the join. The exchange of the state and the kick are two accesses in the code and one step here: a
    thread that moves in between finds the state stopping all the same, and is only not woken by this kick. *)
Definition stop (w : Worker) : Worker :=
  if decide (state_ w = kStarted) then kick (mkWorker kStopping (kicked_ w) (point w) (joined w)) else w.

(** [thread_->join()]: it answers [None] as long as it waits. There must be a thread that was not joined. *)
Definition join (w : Worker) : result unit (option Worker) :=
  match point w with
  | NoThread => Undef
  | Over => if joined w then Undef else Ok (Some (mkWorker (state_ w) (kicked_ w) Over true))
  | _ => Ok None
  end.

(** The destructor, up to its join. *)
Definition destroy (w : Worker) : Worker :=
  if decide (state_ w = kStopped) then w else mkWorker kStopping (kicked_ w) (point w) (joined w).

(** A call of the owner, or a step of the thread. *)
Inductive step : Worker -> Worker -> Prop :=
| StepThread w w' : thread_step w w' -> step w w'
| StepStart w w' : start w = Ok w' -> step w w'
| StepKick w : step w (kick w)
| StepStop w : step w (stop w)
| StepJoin w w' : join w = Ok (Some w') -> step w w'
| StepDestroy w : step w (destroy w).

Definition reachable (w : Worker) : Prop := rtc step new_worker w.

(** * Lemmas *)

(** What holds of every worker: the state tells in which part of its life the thread is. *)
Definition worker_ok (w : Worker) : Prop :=
  match point w with
  | NoThread => state_ w = kStopped /\ joined w = false
  | Launched => (state_ w = kStarting \/ state_ w = kStopping) /\ joined w = false
  | Over => state_ w = kStopped
  | _ => (state_ w = kStarted \/ state_ w = kStopping) /\ joined w = false
  end.

Lemma thread_step_ok w w' : thread_step w w' -> worker_ok w -> worker_ok w'.
Proof.
  destruct 1; unfold worker_ok; cbn; naive_solver.
Qed.

Lemma step_ok w w' : step w w' -> worker_ok w -> worker_ok w'.
Proof.
  destruct 1 as [w w' Ht|w w' E|w|w|w w' E|w]; destruct w as [s k p j]; unfold worker_ok; cbn [state_ kicked_ point joined].
  - intros Hok. by apply (thread_step_ok (mkWorker s k p j) w').
  - unfold start in E. cbn in E. case_decide as Es; [|by injection E as <-]. subst s.
    destruct p, j; try done; injection E as <-; cbn; naive_solver.
  - by destruct p.
  - unfold stop. cbn. case_decide as Es; [subst s|done]. destruct p; cbn; naive_solver.
  - unfold join in E. cbn in E. destruct p, j; try done. injection E as <-. done.
  - unfold destroy. cbn. case_decide as Es; [done|]. destruct p; cbn; naive_solver.
Qed.

Lemma reachable_ok w : reachable w -> worker_ok w.
Proof.
  unfold reachable. intros Hr. apply (rtc_ind_r worker_ok new_worker) in Hr; [done|by split|]. intros w1 w2 _ Hs. by apply step_ok.
Qed.

(** Where a thread that was asked to stop and kicked is on its way out. *)
Definition rank (w : Worker) : nat :=
  match point w with
  | Working => 4
  | Waiting => 3
  | Woken => 2
  | Leaving => 1
  | _ => 0
  end.

Definition stopping (w : Worker) : Prop :=
  match point w with
  | Working | Waiting => state_ w = kStopping /\ kicked_ w = true
  | Woken => state_ w = kStopping
  | Leaving | Over => True
  | _ => False
  end.

Lemma stopping_step w w' : thread_step w w' -> stopping w -> stopping w' /\ (rank w' < rank w)%nat.
Proof. destruct 1; unfold stopping, rank; cbn; naive_solver lia. Qed.

Lemma stopping_moves w : stopping w -> point w <> Over -> exists w', thread_step w w'.
Proof.
  destruct w as [s k p j]. unfold stopping. cbn. intros Hs Hp. destruct p; try done.
  - destruct Hs as [-> ->]. eexists. apply ThreadWakes.
  - subst s. eexists. apply ThreadIsStopped.
  - eexists. apply ThreadBodyEnds.
  - eexists. apply ThreadLeaves.
Qed.

Lemma stopping_steps n w w' : nsteps thread_step n w w' -> stopping w -> stopping w' /\ (n + rank w' <= rank w)%nat.
Proof.
  induction 1 as [w|n w w1 w' Hs _ IH]; intros Hw; [split; [done|lia]|].
  destruct (stopping_step w w1 Hs Hw) as [Hw1 Hr]. destruct (IH Hw1) as [Hw' Hr']. split; [done|lia].
Qed.

Lemma nsteps_joined n w w' : nsteps thread_step n w w' -> joined w = false -> joined w' = false.
Proof. induction 1 as [|n w w1 w' Hs _ IH]; [done|]. intros Hj. apply IH. by destruct Hs. Qed.

(** A thread that waits without a kick stays there. *)
Lemma waits_on w w' : rtc thread_step w w' -> point w = Waiting -> kicked_ w = false -> w' = w.
Proof. induction 1 as [|w w1 w' Hs _ IH]; [done|]. intros Hp Hk. destruct Hs; cbn in *; try done. by apply IH. Qed.

(** * Properties *)

(** In every state that calls of the owner and steps of the thread lead to, in any interleaving, the state tells where the
    thread is: it is stopped exactly when there is no thread or the thread has made its last store, it is starting or
    stopping until the thread has begun, and started or stopping while it works; only a thread that is over was
    joined. *)
Theorem worker_states (w : Worker) : reachable w ->
  worker_ok w /\ (state_ w = kStopped <-> point w = NoThread \/ point w = Over).
Proof.
  intros Hok%reachable_ok. split; [done|]. destruct w as [s k p j]. unfold worker_ok in Hok. cbn in *. destruct p; naive_solver.
Qed.

(** A worker that was started and waits. *)
Definition idle_worker : Worker := mkWorker kStarted false Waiting false.

Lemma idle_reachable : reachable idle_worker.
Proof.
  unfold reachable. eapply rtc_l; [apply StepStart; reflexivity|]. eapply rtc_l; [apply StepThread, ThreadStarts|].
  eapply rtc_l; [apply StepThread, ThreadTakesKickBack|]. constructor.
Qed.

Lemma worker_states_witness : worker_ok idle_worker /\ state_ idle_worker = kStarted.
Proof. split; [apply (worker_states idle_worker idle_reachable)|reflexivity]. Defined.

(** C24: A stop ends the thread if the thread is past its start, and the owner need not do anything more: the thread takes
    at most four steps then, it can take one until it is over, and then it is stopped and can be joined. *)
Theorem stop_ends (w : Worker) : reachable w -> state_ w = kStarted -> point w <> Reset ->
  (forall n w', nsteps thread_step n (stop w) w' -> (n <= 4)%nat)
  /\ forall w', rtc thread_step (stop w) w' ->
       (exists w'', thread_step w' w'') \/ state_ w' = kStopped /\ exists w'', join w' = Ok (Some w'').
Proof.
  intros Hr Es Hp. assert (stopping (stop w) /\ joined w = false) as [Hs Hj].
  { pose proof (reachable_ok w Hr) as Hok. destruct w as [s k p j]. cbn in *. subst s. unfold stop, stopping, worker_ok in *. cbn in *.
    destruct p; naive_solver. }
  split.
  - intros n w' Hn. destruct (stopping_steps n _ _ Hn Hs) as [_ Hle]. unfold rank in Hle. destruct (point (stop w)); lia.
  - intros w' [n Hn]%rtc_nsteps_1. destruct (stopping_steps n _ _ Hn Hs) as [Hs' _].
    assert (reachable w') as Hr'.
    { unfold reachable in *. etrans; [exact Hr|]. eapply rtc_l; [apply StepStop|].
      apply (rtc_subrel thread_step); [|by eapply rtc_nsteps_2]. intros ???. by constructor. }
    destruct (decide (point w' = Over)) as [Ep|Hp']; [right|left; by apply stopping_moves].
    pose proof (reachable_ok w' Hr') as Hok. unfold worker_ok in Hok. rewrite Ep in Hok. split; [done|].
    assert (joined w' = false) as Ej.
    { apply (nsteps_joined n (stop w)); [done|]. unfold stop. by destruct (decide _). }
    unfold join. rewrite Ep, Ej. by eexists.
Qed.

Lemma stop_ends_witness : exists w, thread_step (stop idle_worker) w.
Proof.
  destruct (stop_ends idle_worker idle_reachable) as [_ Hend]; [reflexivity|discriminate|].
  destruct (Hend (stop idle_worker) (rtc_refl _ _)) as [H|[H _]]; [exact H|discriminate H].
Defined.

(** A kick can be lost. There is a worker that has started in the eyes of its owner, so that [start] has returned, whose
    thread takes back, with its own store, the kick that a stop or a piece of work comes with: it then waits for
    ever, and the owner that joins it does too. *)
Theorem kick_lost : exists w w', reachable w /\ has_started w = true /\ rtc thread_step (stop w) w'
  /\ forall w'', rtc thread_step w' w'' -> join w'' = Ok None.
Proof.
  exists (mkWorker kStarted false Reset false), (mkWorker kStopping false Waiting false). split_and!.
  - unfold reachable. eapply rtc_l; [apply StepStart; reflexivity|]. eapply rtc_l; [apply StepThread, ThreadStarts|]. constructor.
  - reflexivity.
  - apply rtc_once. apply (ThreadTakesKickBack kStopping true false).
  - intros w'' Hw%waits_on; [|done..]. by subst w''.
Qed.

(** The destructor of a worker that waits never ends: it asks the thread to stop without a kick, and the thread looks
    for that only when it was kicked. *)
Theorem destructor_hangs (w w' : Worker) : state_ w = kStarted -> point w = Waiting -> kicked_ w = false ->
  rtc thread_step (destroy w) w' -> state_ w' = kStopping /\ join w' = Ok None.
Proof.
  intros Es Ep Ek Hw. assert (destroy w = mkWorker kStopping false Waiting (joined w)) as E
    by (unfold destroy; rewrite Es, Ep, Ek; by case_decide).
  rewrite E in Hw. apply waits_on in Hw as ->; done.
Qed.

Lemma destructor_hangs_witness : join (destroy idle_worker) = Ok None.
Proof.
  apply (destructor_hangs idle_worker (destroy idle_worker)); [reflexivity..|]. apply rtc_refl.
Defined.
