(* ===== verification/Env.v ===== *)
(** * Env: db/silkworm/db/chaindb.cpp (DatabaseConfig, Environment, the life of a Transaction, get_env)

    Environments of the database and the transactions that threads begin and end in them: the size that a data file
    is mapped with, the counts of pending transactions per thread, the catalogue of environments by path. What a
    transaction does with tables is in Lmdb. What LMDB answers to a call is an argument of the operation. *)

From stdpp Require Import gmap strings.
From S2P Require Import Prelude Lmdb.
Local Open Scope Z_scope.
Local Open Scope silk_scope.

(** ** Flags and codes of LMDB *)

Definition MDB_NOSUBDIR : Z := 0x4000.
Definition MDB_RDONLY : Z := 0x20000.
Definition MDB_NOTLS : Z := 0x200000.
Definition MDB_NORDAHEAD : Z := 0x800000.

Definition MDB_MAP_RESIZED : MdbCode := MDB_OTHER (-30785).
Definition MDB_INCOMPATIBLE : MdbCode := MDB_OTHER (-30784).

(** [(flags & flag) == flag] *)
Definition has_flag (flags flag : Z) : bool := Z.land flags flag =? flag.
Definition set_flag (flags flag : Z) : Z := Z.lor flags flag.
Definition clear_flag (flags flag : Z) : Z := Z.ldiff flags flag.

Definition kDefaultMapSize : Z := 2 * 2 ^ 40.

Record DatabaseConfig : Type := mkDatabaseConfig {
  db_path : string;
  db_map_size : Z;
  db_flags : Z
}.

Definition default_config (path : string) : DatabaseConfig :=
  mkDatabaseConfig path kDefaultMapSize (set_flag (set_flag MDB_NOTLS MDB_NORDAHEAD) MDB_RDONLY).

Definition with_flags (flags : Z) (config : DatabaseConfig) : DatabaseConfig :=
  mkDatabaseConfig (db_path config) (db_map_size config) flags.

Definition set_readonly (value : bool) (config : DatabaseConfig) : DatabaseConfig :=
  with_flags (if value then set_flag (db_flags config) MDB_RDONLY else clear_flag (db_flags config) MDB_RDONLY) config.

(** ** Environments *)

(** The counts are maps from threads, which a lookup extends by zero. *)
Record Environment : Type := mkEnvironment {
  env_flags : Z;
  env_mapsize : Z;
  is_opened : bool;
  ro_txns : gmap Z Z;
  rw_txns : gmap Z Z
}.

(** What is at the path of the data file: nothing, a file of some size, or something else. *)
Inductive DataFile : Type := NoFile | RegularFile (size : Z) | OtherFile.

Section Sizes.
Variable host_page_size : Z.

Definition round_to_pages (size : Z) : Z := u64 (u64 (u64 (size + host_page_size) - 1) / host_page_size * host_page_size).

(** The size that the constructor asks for. *)
Definition data_map_size (file : DataFile) (config : DatabaseConfig) : result DbError Z :=
  try data_file_size :=
    match file with NoFile => Ok 0 | RegularFile size => Ok size | OtherFile => Err RuntimeError end in
  let size := Z.max data_file_size (db_map_size config) in
  Ok (if size =? 0 then 0 else round_to_pages size).

(** The constructor: [set] is what [mdb_env_set_mapsize] answers, an error or the size of the map that it takes, and
    [opened] what [mdb_env_open] answers. *)
Definition new_environment (file : DataFile) (config : DatabaseConfig) (set : Z -> result MdbCode Z) (opened : result MdbCode unit)
  : result DbError Environment :=
  match db_path config with
  | EmptyString => Err InvalidArgument
  | _ =>
      try size := data_map_size file config in
      try mapped := err_handler (set size) in
      try _ := err_handler opened in
      Ok (mkEnvironment (db_flags config) mapped true ∅ ∅)
  end.

Definition is_ro (env : Environment) : bool := has_flag (env_flags env) MDB_RDONLY.

Definition close (env : Environment) : Environment :=
  mkEnvironment (env_flags env) (env_mapsize env) false (ro_txns env) (rw_txns env).

Definition with_mapsize (size : Z) (env : Environment) : Environment :=
  mkEnvironment (env_flags env) size (is_opened env) (ro_txns env) (rw_txns env).

(** [set_mapsize]; the code that it returns is one that [err_handler] throws. *)
Definition set_mapsize (size : Z) (set : Z -> result MdbCode Z) (env : Environment) : result DbError Environment :=
  if size =? 0 then try mapped := err_handler (set 0) in Ok (with_mapsize mapped env)
  else if size <? env_mapsize env then Err RuntimeError
  else try mapped := err_handler (set (round_to_pages size)) in Ok (with_mapsize mapped env).

End Sizes.

Definition count_of (counts : gmap Z Z) (thread : Z) : Z := default 0 (counts !! thread).
Definition get_ro_txns (thread : Z) (env : Environment) : Z := count_of (ro_txns env) thread.
Definition get_rw_txns (thread : Z) (env : Environment) : Z := count_of (rw_txns env) thread.

Definition touch (counts : gmap Z Z) (thread count : Z) : gmap Z Z := <[thread := count_of counts thread + count]> counts.
Definition touch_ro_txns (thread count : Z) (env : Environment) : Environment :=
  mkEnvironment (env_flags env) (env_mapsize env) (is_opened env) (touch (ro_txns env) thread count) (rw_txns env).
Definition touch_rw_txns (thread count : Z) (env : Environment) : Environment :=
  mkEnvironment (env_flags env) (env_mapsize env) (is_opened env) (ro_txns env) (touch (rw_txns env) thread count).

(** ** Transactions *)

Record Transaction : Type := mkTransaction { txn_handle : bool; txn_flags : Z }.

Definition txn_is_ro (txn : Transaction) : bool := has_flag (txn_flags txn) MDB_RDONLY.

(** The three attempts; [answers] is what [mdb_txn_begin] answers to each, [None] being success. *)
Fixpoint begin_loop (maxtries : nat) (thread : Z) (txn_ro : bool) (answers : list (option MdbCode)) (set : Z -> result MdbCode Z) (env : Environment)
  {struct answers} : result DbError Environment :=
  match answers with
  | [] => Undef
  | None :: _ => Ok (if txn_ro then touch_ro_txns thread 1 env else touch_rw_txns thread 1 env)
  | Some rc :: answers =>
      try env := (if decide (rc = MDB_MAP_RESIZED) then set_mapsize 0 0 set env else Ok env) in
      match maxtries with
      | O | S O => Err (LmdbException rc)
      | S maxtries => begin_loop maxtries thread txn_ro answers set env
      end
  end.

Definition open_transaction (thread flags : Z) (answers : list (option MdbCode)) (set : Z -> result MdbCode Z) (env : Environment)
  : result DbError Environment :=
  if negb (get_rw_txns thread env =? 0) then Err RuntimeError
  else
    let env_ro := is_ro env in
    let txn_ro := has_flag flags MDB_RDONLY in
    if env_ro && negb txn_ro then Err RuntimeError
    else
      let env_notls := has_flag (env_flags env) MDB_NOTLS in
      if txn_ro && negb env_notls && negb (get_ro_txns thread env =? 0) then Err RuntimeError
      else begin_loop 3 thread txn_ro answers set env.

Definition begin_transaction (thread flags : Z) (answers : list (option MdbCode)) (set : Z -> result MdbCode Z) (env : Environment)
  : result DbError (Transaction * Environment) :=
  let flags := if is_ro env then set_flag flags MDB_RDONLY else flags in
  try env := open_transaction thread flags answers set env in
  Ok (mkTransaction true flags, env).

Definition begin_ro_transaction (thread flags : Z) := begin_transaction thread (set_flag flags MDB_RDONLY).
Definition begin_rw_transaction (thread flags : Z) := begin_transaction thread (clear_flag flags MDB_RDONLY).

Definition untouch (thread : Z) (txn : Transaction) (env : Environment) : Environment :=
  if txn_is_ro txn then touch_ro_txns thread (-1) env else touch_rw_txns thread (-1) env.

(** [abort], and the destructor. *)
Definition abort (thread : Z) (txn : Transaction) (env : Environment) : Transaction * Environment :=
  if txn_handle txn then (mkTransaction false (txn_flags txn), untouch thread txn env) else (txn, env).

(** [commit]: [answer] is what [mdb_txn_commit] answers. *)
Definition commit (thread : Z) (answer : result MdbCode unit) (txn : Transaction) (env : Environment)
  : result MdbCode unit * Transaction * Environment :=
  if txn_handle txn then (answer, mkTransaction false (txn_flags txn), untouch thread txn env)
  else (Err MDB_BAD_TXN, txn, env).

(** ** The catalogue *)

(** An environment that is shared; [None] is one whose last owner is gone. *)
Record Value : Type := mkValue { wp : nat; value_flags : Z }.

Record Catalogue : Type := mkCatalogue {
  s_envs : gmap Z Value;
  all_envs : list (option Environment)
}.

Definition lower_ascii (a : Ascii.ascii) : Ascii.ascii :=
  let n := Ascii.nat_of_ascii a in if (65 <=? n)%nat && (n <=? 90)%nat then Ascii.ascii_of_nat (n + 32) else a.

Fixpoint to_lower_copy (s : string) : string :=
  match s with EmptyString => EmptyString | String a s => String (lower_ascii a) (to_lower_copy s) end.

Section Catalogue.
Variables (host_page_size : Z) (pathhash : string -> Z).

(** [get_env]: the index of the environment among all that there were. The flags of the copy of the configuration lose
    [MDB_RDONLY] where they are compared. *)
Definition get_env (file : DataFile) (set : Z -> result MdbCode Z) (opened : result MdbCode unit) (config : DatabaseConfig) (s : Catalogue)
  : result DbError (nat * Catalogue) :=
  let config := if db_flags config =? 0 then config else with_flags (clear_flag (db_flags config) MDB_RDONLY) config in
  let compare_flags := db_flags config in
  let envkey := pathhash (to_lower_copy (db_path config)) in
  let create envs :=
    try newitem := new_environment host_page_size file config set opened in
    let i := length (all_envs s) in
    Ok (i, mkCatalogue (<[envkey := mkValue i compare_flags]> envs) (all_envs s ++ [Some newitem])) in
  match s_envs s !! envkey with
  | None => create (s_envs s)
  | Some v =>
      if negb (value_flags v =? compare_flags) then Err (LmdbException MDB_INCOMPATIBLE)
      else
        match mjoin (all_envs s !! wp v) with
        | Some item => if is_opened item then Ok (wp v, s) else create (delete envkey (s_envs s))
        | None => create (delete envkey (s_envs s))
        end
  end.

End Catalogue.

(** * Lemmas *)

(** The cases of a decision in the goal, the outermost first. *)
Ltac dec := match goal with |- context [decide ?P] => destruct (decide P) end.

Lemma has_cleared flags flag : flag <> 0 -> has_flag (clear_flag flags flag) flag = false.
Proof.
  intros Hf. unfold has_flag, clear_flag. apply Z.eqb_neq. replace (Z.land (Z.ldiff flags flag) flag) with 0; [lia|].
  symmetry. apply Z.bits_inj'. intros n Hn. rewrite Z.bits_0, Z.land_spec, Z.ldiff_spec. by destruct (Z.testbit flags n), (Z.testbit flag n).
Qed.

Lemma has_set flags flag : has_flag (set_flag flags flag) flag = true.
Proof.
  unfold has_flag, set_flag. apply Z.eqb_eq. apply Z.bits_inj'. intros n Hn. rewrite Z.land_spec, Z.lor_spec.
  by destruct (Z.testbit flags n), (Z.testbit flag n).
Qed.

Lemma has_zero flag : flag <> 0 -> has_flag 0 flag = false.
Proof. intros Hf. unfold has_flag. apply Z.eqb_neq. rewrite Z.land_0_l. lia. Qed.

Lemma clear_clear flags flag : clear_flag (clear_flag flags flag) flag = clear_flag flags flag.
Proof.
  unfold clear_flag. apply Z.bits_inj'. intros n Hn. rewrite !Z.ldiff_spec. by destruct (Z.testbit flags n), (Z.testbit flag n).
Qed.

Lemma count_touch counts thread thread' n :
  count_of (touch counts thread n) thread' = count_of counts thread' + if decide (thread' = thread) then n else 0.
Proof.
  unfold count_of, touch. case_decide as E; [subst; by rewrite lookup_insert_eq|]. rewrite lookup_insert_ne by congruence. cbn. lia.
Qed.

(** The size of a map is rounded up to pages, by less than one. *)
Lemma round_to_pages_spec page size : 0 < page -> 0 <= size -> size + page < 2 ^ 64 ->
  (page | round_to_pages page size) /\ size <= round_to_pages page size < size + page.
Proof.
  intros Hp Hs Hb. unfold round_to_pages. rewrite (u64_small (size + page)), (u64_small (_ - 1)) by lia.
  pose proof (Z.div_mod (size + page - 1) page ltac:(lia)) as Hd. pose proof (Z.mod_pos_bound (size + page - 1) page Hp) as Hm.
  set (q := (size + page - 1) / page) in *. rewrite u64_small by nia. split; [by exists q|]. nia.
Qed.

(** The map that the constructor asks for holds the data file that is there, which a smaller one would cut. *)
Lemma data_map_holds_file page file config size : 0 < page -> 0 <= db_map_size config ->
  Z.max (match file with RegularFile n => n | _ => 0 end) (db_map_size config) + page < 2 ^ 64 ->
  data_map_size page file config = Ok size ->
  (page | size) /\ db_map_size config <= size /\ (forall n, file = RegularFile n -> n <= size).
Proof.
  intros Hp Hs Hb. unfold data_map_size. set (want := Z.max _ (db_map_size config)) in Hb.
  assert (0 <= want) as H0 by lia. destruct file as [|n|]; cbn [result_bind]; [| |done]; fold want; intros [= <-].
  all: destruct (Z.eqb_spec want 0) as [E|E]; [|destruct (round_to_pages_spec page want Hp H0 Hb) as [Hd Hr]].
  all: split; [done || apply Z.divide_0_r|]; split; [lia|]; intros ? [= <-]; lia.
Qed.

(** ** Transactions of threads *)

(** The environment, and the pending transactions with the threads that began them. *)
Notation pending := (list (Z * Transaction)).

(** A transaction is begun, or ended by its thread. *)
Inductive step : Environment * pending -> Environment * pending -> Prop :=
| TxnBegins env env' l thread flags answers set txn :
    begin_transaction thread flags answers set env = Ok (txn, env') -> step (env, l) (env', (thread, txn) :: l)
| TxnAborts env l1 l2 thread txn : step (env, l1 ++ (thread, txn) :: l2) (snd (abort thread txn env), l1 ++ l2)
| TxnCommits env l1 l2 thread txn answer : step (env, l1 ++ (thread, txn) :: l2) (snd (commit thread answer txn env), l1 ++ l2).

(** How many of the transactions are the thread's, and for reading ([ro]) or for writing. *)
Definition begun (ro : bool) (thread : Z) (l : pending) : Z :=
  zlen (filter (fun x => fst x = thread /\ txn_is_ro (snd x) = ro) l).

Record env_ok (env : Environment) (l : pending) : Prop := {
  eo_ro : forall thread, get_ro_txns thread env = begun true thread l;
  eo_rw : forall thread, get_rw_txns thread env = begun false thread l;
  eo_handles : Forall (fun x => txn_handle (snd x) = true) l;
  eo_one : forall thread, begun false thread l <= 1;
  eo_one_reader : has_flag (env_flags env) MDB_NOTLS = false -> forall thread, begun true thread l <= 1;
  eo_readers : is_ro env = true -> forall thread, begun false thread l = 0
}.

Lemma begun_cons ro thread x l :
  begun ro thread (x :: l) = (if decide (fst x = thread /\ txn_is_ro (snd x) = ro) then 1 else 0) + begun ro thread l.
Proof. unfold begun. rewrite filter_cons. case_decide; cbn [length]; lia. Qed.

Lemma begun_middle ro thread l1 x l2 : begun ro thread (l1 ++ x :: l2) = begun ro thread (x :: l1 ++ l2).
Proof. unfold begun. by rewrite <- Permutation_middle. Qed.

Lemma begin_loop_ok thread txn_ro answers set : forall n env env', begin_loop n thread txn_ro answers set env = Ok env' ->
  env_flags env' = env_flags env
  /\ (forall t, get_ro_txns t env' = get_ro_txns t env + if decide (t = thread /\ txn_ro = true) then 1 else 0)
  /\ (forall t, get_rw_txns t env' = get_rw_txns t env + if decide (t = thread /\ txn_ro = false) then 1 else 0).
Proof.
  induction answers as [|[rc|] answers IH]; intros n env env'; cbn [begin_loop]; [done| |].
  - destruct (if decide (rc = MDB_MAP_RESIZED) then _ else _) as [env1|e|] eqn:Em; [|done|done]. cbn [result_bind].
    assert (env_flags env1 = env_flags env /\ ro_txns env1 = ro_txns env /\ rw_txns env1 = rw_txns env) as (Ef & Ero & Erw).
    { case_decide; [|by injection Em as <-]. unfold set_mapsize in Em. cbn in Em. destruct (set 0); [|done..]. by injection Em as <-. }
    destruct n as [|[|n]]; [done|done|]. intros (E1 & E2 & E3)%IH. unfold get_ro_txns, get_rw_txns in *.
    rewrite Ef, Ero, Erw in *. done.
  - intros [= <-]. unfold get_ro_txns, get_rw_txns.
    destruct txn_ro; cbn [touch_ro_txns touch_rw_txns env_flags ro_txns rw_txns]; split_and!; try done; intros t;
      rewrite ?count_touch; repeat dec; naive_solver lia.
Qed.

Lemma untouch_counts thread txn env t :
  get_ro_txns t (untouch thread txn env) = get_ro_txns t env - (if decide (thread = t /\ txn_is_ro txn = true) then 1 else 0)
  /\ get_rw_txns t (untouch thread txn env) = get_rw_txns t env - (if decide (thread = t /\ txn_is_ro txn = false) then 1 else 0)
  /\ env_flags (untouch thread txn env) = env_flags env.
Proof.
  unfold untouch, get_ro_txns, get_rw_txns. destruct (txn_is_ro txn); cbn [touch_ro_txns touch_rw_txns ro_txns rw_txns env_flags];
    rewrite ?count_touch; repeat dec; naive_solver lia.
Qed.

(** A pending transaction ends. *)
Lemma end_ok env l1 thread txn l2 : env_ok env (l1 ++ (thread, txn) :: l2) -> env_ok (untouch thread txn env) (l1 ++ l2).
Proof.
  intros []. pose proof (untouch_counts thread txn env) as Hu.
  assert (forall ro t, begun ro t (l1 ++ l2) = begun ro t (l1 ++ (thread, txn) :: l2)
    - if decide (thread = t /\ txn_is_ro txn = ro) then 1 else 0) as Eb.
  { intros ro t. rewrite begun_middle, begun_cons. cbn [fst snd]. lia. }
  split.
  - intros t. rewrite (proj1 (Hu t)), Eb, eo_ro0. done.
  - intros t. rewrite (proj1 (proj2 (Hu t))), Eb, eo_rw0. done.
  - apply Forall_app in eo_handles0 as [H1 H2]. apply Forall_app. split; [done|]. by inversion H2.
  - intros t. rewrite Eb. specialize (eo_one0 t). dec; lia.
  - rewrite (proj2 (proj2 (Hu thread))). intros Hf t. rewrite Eb. specialize (eo_one_reader0 Hf t). dec; lia.
  - unfold is_ro. rewrite (proj2 (proj2 (Hu thread))). intros Hf t. specialize (eo_readers0 Hf t).
    assert (0 <= begun false t (l1 ++ l2)) by (unfold begun; lia). rewrite Eb in *. revert H. dec; lia.
Qed.

Lemma begin_ok env env' l thread flags answers set txn : env_ok env l ->
  begin_transaction thread flags answers set env = Ok (txn, env') -> env_ok env' ((thread, txn) :: l).
Proof.
  intros Hok. pose proof Hok as []. unfold begin_transaction. set (fl := if is_ro env then set_flag flags MDB_RDONLY else flags).
  destruct (open_transaction thread fl answers set env) as [env1| |] eqn:Eo; [|done..]. cbn [result_bind]. intros [= <- <-].
  unfold open_transaction in Eo. destruct (Z.eqb_spec (get_rw_txns thread env) 0) as [Erw|]; [|done]. cbn [negb] in Eo.
  destruct (is_ro env && negb (has_flag fl MDB_RDONLY)) eqn:Ero; [done|].
  destruct (has_flag fl MDB_RDONLY && negb (has_flag (env_flags env) MDB_NOTLS) && negb (get_ro_txns thread env =? 0)) eqn:Etls; [done|].
  apply begin_loop_ok in Eo as (Ef & E1 & E2). rewrite eo_rw0 in Erw.
  assert (forall ro t, begun ro t ((thread, mkTransaction true fl) :: l) =
    begun ro t l + if decide (t = thread /\ has_flag fl MDB_RDONLY = ro) then 1 else 0) as Eb.
  { intros ro t. rewrite begun_cons. unfold txn_is_ro. cbn [fst snd txn_flags]. repeat dec; naive_solver lia. }
  split.
  - intros t. by rewrite Eb, E1, eo_ro0.
  - intros t. by rewrite Eb, E2, eo_rw0.
  - by constructor.
  - intros t. rewrite Eb. specialize (eo_one0 t). destruct (decide _) as [[-> _]|]; lia.
  - rewrite Ef. intros Hf t. rewrite Eb. specialize (eo_one_reader0 Hf t). destruct (decide _) as [[-> Ed]|]; [|lia].
    rewrite Ed, Hf in Etls. cbn in Etls. rewrite <- eo_ro0. apply negb_false_iff, Z.eqb_eq in Etls. lia.
  - unfold is_ro. rewrite Ef. intros Hf t. rewrite Eb, (eo_readers0 Hf t). destruct (decide _) as [[_ Ed]|]; [|done].
    unfold is_ro in Ero. by rewrite Hf, Ed in Ero.
Qed.

Lemma txn_step_ok env l env' l' : step (env, l) (env', l') -> env_ok env l -> env_ok env' l'.
Proof.
  intros Hs Hok. inversion Hs as [? ? ? ? ? ? ? ? Hb|? l1 l2 ? txn|? l1 l2 ? txn answer]; subst.
  - by eapply begin_ok.
  - pose proof (eo_handles _ _ Hok) as [_ Hh]%Forall_app. inversion Hh as [|? ? Hx _]; subst. cbn [snd] in Hx.
    unfold abort. rewrite Hx. by apply end_ok.
  - pose proof (eo_handles _ _ Hok) as [_ Hh]%Forall_app. inversion Hh as [|? ? Hx _]; subst. cbn [snd] in Hx.
    unfold commit. rewrite Hx. by apply end_ok.
Qed.

(** ** The catalogue *)

(** Environments of the catalogue are ones there were, and none is read-only. *)
Record catalogue_ok (s : Catalogue) : Prop := {
  co_known : forall k v, s_envs s !! k = Some v -> (wp v < length (all_envs s))%nat;
  co_writable : forall i env, all_envs s !! i = Some (Some env) -> is_ro env = false
}.

(** The flags that are compared: those of the configuration but for [MDB_RDONLY]. *)
Definition compared (config : DatabaseConfig) : Z :=
  if db_flags config =? 0 then 0 else clear_flag (db_flags config) MDB_RDONLY.

Lemma compared_writable config : has_flag (compared config) MDB_RDONLY = false.
Proof. unfold compared. destruct (_ =? 0); [by apply has_zero|by apply has_cleared]. Qed.

Lemma new_environment_flags page file config set opened env :
  new_environment page file config set opened = Ok env -> env_flags env = db_flags config /\ is_opened env = true
  /\ ro_txns env = ∅ /\ rw_txns env = ∅.
Proof.
  unfold new_environment. destruct (db_path config); [done|]. destruct (data_map_size _ _ _); [|done..]. cbn [result_bind].
  destruct (err_handler (set _)); [|done..]. cbn [result_bind]. destruct (err_handler opened); [|done..]. cbn [result_bind]. by intros [= <-].
Qed.

Lemma compared_config config : let cfg := if db_flags config =? 0 then config else with_flags (clear_flag (db_flags config) MDB_RDONLY) config in
  db_flags cfg = compared config /\ db_path cfg = db_path config.
Proof. cbv zeta. unfold compared. destruct (Z.eqb_spec (db_flags config) 0) as [E|E]; [by rewrite E|done]. Qed.

(** The next request for an environment that is there. *)
Lemma get_env_again page pathhash key flags env i s file set opened config :
  s_envs s !! key = Some (mkValue i flags) -> all_envs s !! i = Some (Some env) -> is_opened env = true ->
  pathhash (to_lower_copy (db_path config)) = key ->
  get_env page pathhash file set opened config s = if compared config =? flags then Ok (i, s) else Err (LmdbException MDB_INCOMPATIBLE).
Proof.
  intros Hv Hi Ho Ek. unfold get_env. destruct (compared_config config) as [Ef Ep]. rewrite Ef, Ep, Ek, Hv. cbn [value_flags wp].
  rewrite (Z.eqb_sym flags). destruct (compared config =? flags); cbn [negb]; [|done]. rewrite Hi. cbn. by rewrite Ho.
Qed.

(** A new environment of the catalogue. *)
Lemma create_ok page file cfg flags set opened key s envs i s' : catalogue_ok s -> db_flags cfg = flags -> has_flag flags MDB_RDONLY = false ->
  (forall k, k <> key -> envs !! k = s_envs s !! k) ->
  result_bind (new_environment page file cfg set opened) (fun newitem =>
    Ok (length (all_envs s), mkCatalogue (<[key := mkValue (length (all_envs s)) flags]> envs) (all_envs s ++ [Some newitem]))) = Ok (i, s') ->
  catalogue_ok s' /\ (exists env, all_envs s' !! i = Some (Some env) /\ is_opened env = true /\ is_ro env = false)
  /\ (forall k, k <> key -> s_envs s' !! k = s_envs s !! k) /\ s_envs s' !! key = Some (mkValue i flags).
Proof.
  intros Hok Ef Hfl Henvs. destruct (new_environment _ _ _ _ _) as [env| |] eqn:En; [|done..]. cbn [result_bind]. intros [= <- <-].
  apply new_environment_flags in En as (Efl & Hop & _). rewrite Ef in Efl.
  assert (is_ro env = false) as Hro by (unfold is_ro; by rewrite Efl).
  cbn [s_envs all_envs]. split_and!.
  - split; cbn [s_envs all_envs].
    + intros k v. rewrite length_app. destruct (decide (k = key)) as [->|Hne].
      * rewrite lookup_insert_eq. intros [= <-]. cbn. lia.
      * rewrite lookup_insert_ne by done. rewrite Henvs by done. intros Hv%(co_known s Hok). cbn. lia.
    + intros j env'. rewrite lookup_app. destruct (all_envs s !! j) as [x|] eqn:Ej.
      * intros [= ->]. by apply (co_writable s Hok j).
      * intros Hj%list_elem_of_lookup_2%list_elem_of_singleton. congruence.
  - exists env. rewrite lookup_app_r, Nat.sub_diag by lia. done.
  - intros k Hne. rewrite lookup_insert_ne by done. by apply Henvs.
  - apply lookup_insert_eq.
Qed.

(** * Properties *)

(** C19: However threads begin and end transactions, each its own, the counts of an environment are exact: for every thread,
    how many transactions for reading and for writing it has pending. It never has two for writing, never two for
    reading unless MDB_NOTLS allows it, and none for writing in an environment for reading. *)
Theorem transactions_counted page file config set opened env0 env l :
  new_environment page file config set opened = Ok env0 -> rtc step (env0, []) (env, l) ->
  forall thread,
    get_ro_txns thread env = begun true thread l /\ get_rw_txns thread env = begun false thread l
    /\ begun false thread l <= 1
    /\ (has_flag (env_flags env) MDB_NOTLS = false -> begun true thread l <= 1)
    /\ (is_ro env = true -> begun false thread l = 0).
Proof.
  intros (_ & _ & Ero & Erw)%new_environment_flags Hr.
  assert (env_ok env0 []) as H0.
  { split; [intros thread; unfold get_ro_txns, count_of; by rewrite Ero, lookup_empty
           |intros thread; unfold get_rw_txns, count_of; by rewrite Erw, lookup_empty|by apply Forall_nil|intros thread; unfold begun; cbn; lia|intros _ thread; unfold begun; cbn; lia|by intros _ thread]. }
  assert (env_ok env l) as Hok.
  { apply (rtc_ind_r (fun x => env_ok (fst x) (snd x)) (env0, [])) in Hr; [done|done|].
    intros [env1 l1] [env2 l2] _ Hs. by apply txn_step_ok. }
  intros thread. destruct Hok. split_and!; auto.
Qed.

Definition demo_env : result DbError Environment :=
  new_environment 4096 NoFile (set_readonly false (default_config "/db")) Ok (Ok tt).

Lemma transactions_counted_witness : exists env0 env l, demo_env = Ok env0 /\ rtc step (env0, []) (env, l) /\ length l = 2%nat
  /\ get_rw_txns 7 env = begun false 7 l.
Proof.
  eexists. eexists. eexists. split; [reflexivity|].
  assert (rtc step (mkEnvironment (clear_flag (db_flags (default_config "/db")) MDB_RDONLY) kDefaultMapSize true ∅ ∅, [])
    (mkEnvironment (clear_flag (db_flags (default_config "/db")) MDB_RDONLY) kDefaultMapSize true {[8 := 1]} {[7 := 1]},
     [(7, mkTransaction true 0); (8, mkTransaction true MDB_RDONLY)])) as Hr.
  { eapply rtc_l; [eapply (TxnBegins _ _ [] 8 MDB_RDONLY [None] Ok); vm_compute; reflexivity|].
    eapply rtc_l; [eapply (TxnBegins _ _ _ 7 0 [None] Ok); vm_compute; reflexivity|]. apply rtc_refl. }
  split; [exact Hr|]. split; [reflexivity|].
  apply (transactions_counted 4096 NoFile (set_readonly false (default_config "/db")) Ok (Ok tt) _ _ _ eq_refl Hr 7).
Defined.

(** [get_env] answers an opened environment, the same for the same path as long as it is opened, whoever asks with the
    same flags, and an error if the flags differ in more than [MDB_RDONLY]; other paths keep theirs. The environment
    is never one for reading only, whatever the configuration says. *)
Theorem get_env_shares page pathhash file set opened config s i s' :
  catalogue_ok s ->
  get_env page pathhash file set opened config s = Ok (i, s') ->
  catalogue_ok s'
  /\ (exists env, all_envs s' !! i = Some (Some env) /\ is_opened env = true /\ is_ro env = false)
  /\ (forall k, k <> pathhash (to_lower_copy (db_path config)) -> s_envs s' !! k = s_envs s !! k)
  /\ forall file' set' opened' config',
       pathhash (to_lower_copy (db_path config')) = pathhash (to_lower_copy (db_path config)) ->
       get_env page pathhash file' set' opened' config' s'
       = if compared config' =? compared config then Ok (i, s') else Err (LmdbException MDB_INCOMPATIBLE).
Proof.
  intros Hok. unfold get_env. destruct (compared_config config) as [Ef Ep]. rewrite Ef, Ep. cbv zeta.
  set (key := pathhash (to_lower_copy (db_path config))). set (cfg := if db_flags config =? 0 then config else _) in *.
  assert (forall envs, (forall k, k <> key -> envs !! k = s_envs s !! k) -> _) as Hcreate
    by exact (fun envs => create_ok page file cfg (compared config) set opened key s envs i s' Hok Ef (compared_writable config)).
  destruct (s_envs s !! key) as [v|] eqn:Ev; [destruct (Z.eqb_spec (value_flags v) (compared config)) as [Evf|]; cbn [negb]; [|done]|].
  - destruct (mjoin (all_envs s !! wp v)) as [item|] eqn:Ew; [destruct (is_opened item) eqn:Eo|].
    { intros [= <- <-]. destruct (all_envs s !! wp v) as [x|] eqn:Ei; [|done]. cbn in Ew. subst x.
      split; [done|]. split; [exists item; split_and!; try done; by apply (co_writable s Hok (wp v))|]. split; [done|].
      intros. apply (get_env_again _ _ key _ item); try done. rewrite Ev. by destruct v; cbn in *; subst. }
    all: intros Hc; apply Hcreate in Hc as (H1 & (env & Hi & Ho & Hr) & H3 & H4); [|by intros k Hne; rewrite lookup_delete_ne];
      split; [done|]; split; [by exists env|]; split; [done|]; intros; by apply (get_env_again _ _ key _ env).
  - intros Hc. apply Hcreate in Hc as (H1 & (env & Hi & Ho & Hr) & H3 & H4); [|done].
    split; [done|]. split; [by exists env|]. split; [done|]. intros. by apply (get_env_again _ _ key _ env).
Qed.

(** A path that is asked for twice, in other letters, for reading and for writing. *)
Definition demo_hash (s : string) : Z := Z.of_nat (String.length s).
Definition empty_catalogue : Catalogue := mkCatalogue ∅ [].

Lemma get_env_shares_witness : exists s,
  get_env 4096 demo_hash NoFile Ok (Ok tt) (default_config "/Db") empty_catalogue = Ok (0%nat, s)
  /\ get_env 4096 demo_hash (RegularFile 10) Ok (Ok tt) (set_readonly false (default_config "/db")) s = Ok (0%nat, s).
Proof.
  destruct (get_env 4096 demo_hash NoFile Ok (Ok tt) (default_config "/Db") empty_catalogue) as [[i s]| |] eqn:E; [|discriminate E..].
  assert (i = 0%nat) as -> by (vm_compute in E; congruence). exists s. split; [reflexivity|].
  destruct (get_env_shares 4096 demo_hash NoFile Ok (Ok tt) (default_config "/Db") empty_catalogue 0 s) as (_ & _ & _ & Hs); [|exact E|].
  - split; [intros k v Hv; discriminate Hv|intros j env Hj; discriminate Hj].
  - rewrite Hs by reflexivity. reflexivity.
Defined.
