(* ===== verification/Senders.v ===== *)
(** * Senders: cmd/check_senders.cpp

    The stage that recovers the senders of transactions: the main thread reads the blocks, gathers the signatures in
    batches and gives them to workers, each a thread; a worker that is done signals its batch, in the order in which
    the batches were given out; the main thread takes the results and sorts them into the table.

    The main thread is a function over the state that it shares with the workers. Between its accesses to that state
    the workers move; which of them, and in which order, is in a schedule, so that a statement for all schedules is
    one for all interleavings. A worker's move from one access to the next is atomic. *)

From stdpp Require Import gmap sets strings.
From S2P Require Import Prelude Util Keccak Rlp Ecdsa Account Transaction Block Chain Precompiled Etl Lmdb DbUtil AccessLayer Stages.
Local Open Scope Z_scope.
Local Open Scope silk_scope.

(** ** The data *)

(** [RecoveryWorker::package] *)
Record Package : Type := mkPackage {
  pk_block_num : Z;
  pk_hash : bytes;
  pk_odd_y_parity : bool;
  pk_signature : bytes
}.

(** [RecoveryWorker::Status] *)
Inductive WorkerStatus : Type := Idle | Working | ResultsReady | WorkerError | Aborted.

#[export] Instance WorkerStatus_eq_dec : EqDecision WorkerStatus.
Proof. solve_decision. Defined.

(** Where the thread of a worker is: at [wait_for_kick], before it has signalled its batch, between that and
    [batch_.reset()], or over. *)
Inductive WorkerPoint : Type := AtWait | Signalling | Resetting | Ended.

#[export] Instance WorkerPoint_eq_dec : EqDecision WorkerPoint.
Proof. solve_decision. Defined.

(** What the results point to is the data of the worker, which the next batch overwrites; they are copied before. *)
Record RecoveryWorker : Type := mkRecoveryWorker {
  rw_data_size : Z;
  rw_batch_id : Z;
  rw_batch : option (list Package);
  rw_results : list (Z * bytes);
  rw_status : WorkerStatus;
  rw_point : WorkerPoint;
  rw_stopping : bool
}.

(** [RecoveryFarm::Status] *)
Inductive FarmStatus : Type :=
| Succeded
| DatabaseError
| HeaderNotFound
| BadHeaderHash
| BadHeaderSequence
| InvalidRange
| PrevStagesInadequate
| BlockNotFound
| BadBlockSequence
| InvalidTransactionSignature
| RecoveryError
| WorkerInitError
| WorkerAborted
| WorkerStatusMismatch
| FileSystemError
| InvalidChainConfig
| NoDataToProcess.

#[export] Instance FarmStatus_eq_dec : EqDecision FarmStatus.
Proof. solve_decision. Defined.

Definition farm_status_value (s : FarmStatus) : Z :=
  match s with
  | Succeded => 0
  | DatabaseError => 1
  | HeaderNotFound => 2
  | BadHeaderHash => 3
  | BadHeaderSequence => 4
  | InvalidRange => 5
  | PrevStagesInadequate => 6
  | BlockNotFound => 7
  | BadBlockSequence => 8
  | InvalidTransactionSignature => 9
  | RecoveryError => 10
  | WorkerInitError => 11
  | WorkerAborted => 12
  | WorkerStatusMismatch => 13
  | FileSystemError => 14
  | InvalidChainConfig => 15
  | NoDataToProcess => 16
  end.

(** What can happen between two accesses of the main thread: a worker moves, or the user interrupts the program. *)
Inductive Event : Type := WorkerMoves (i : nat) | Interrupt.

(** The members of [RecoveryFarm]; of [should_stop_] and [g_should_stop] only the disjunction is read. *)
Record Farm (T : Type) : Type := mkFarm {
  db_transaction : Txn T;
  max_workers : nat;
  workers : list RecoveryWorker;
  headers : list bytes;
  headers_it_2 : nat;
  max_batch_size : Z;
  batch : option (list Package);
  farm_batch_id : Z;
  completed_batch_id : Z;
  batches_completed : list (nat * Z);
  farm_collector : Collector;
  stop_requested : bool;
  schedule : list (list Event)
}.
Arguments mkFarm {T}.
Arguments db_transaction {T} _.
Arguments max_workers {T} _.
Arguments workers {T} _.
Arguments headers {T} _.
Arguments headers_it_2 {T} _.
Arguments max_batch_size {T} _.
Arguments batch {T} _.
Arguments farm_batch_id {T} _.
Arguments completed_batch_id {T} _.
Arguments batches_completed {T} _.
Arguments farm_collector {T} _.
Arguments stop_requested {T} _.
Arguments schedule {T} _.

Section Fields.
Context {T : Type}.
Implicit Types f : Farm T.

Definition set_workers (x : list RecoveryWorker) f : Farm T :=
  mkFarm (db_transaction f) (max_workers f) x (headers f) (headers_it_2 f) (max_batch_size f) (batch f) (farm_batch_id f)
    (completed_batch_id f) (batches_completed f) (farm_collector f) (stop_requested f) (schedule f).
Definition set_batch (x : option (list Package)) f : Farm T :=
  mkFarm (db_transaction f) (max_workers f) (workers f) (headers f) (headers_it_2 f) (max_batch_size f) x (farm_batch_id f)
    (completed_batch_id f) (batches_completed f) (farm_collector f) (stop_requested f) (schedule f).
Definition set_farm_batch_id (x : Z) f : Farm T :=
  mkFarm (db_transaction f) (max_workers f) (workers f) (headers f) (headers_it_2 f) (max_batch_size f) (batch f) x
    (completed_batch_id f) (batches_completed f) (farm_collector f) (stop_requested f) (schedule f).
Definition set_completed (id : Z) (x : list (nat * Z)) f : Farm T :=
  mkFarm (db_transaction f) (max_workers f) (workers f) (headers f) (headers_it_2 f) (max_batch_size f) (batch f) (farm_batch_id f)
    id x (farm_collector f) (stop_requested f) (schedule f).
Definition set_collected (it : nat) (c : Collector) f : Farm T :=
  mkFarm (db_transaction f) (max_workers f) (workers f) (headers f) it (max_batch_size f) (batch f) (farm_batch_id f)
    (completed_batch_id f) (batches_completed f) c (stop_requested f) (schedule f).
Definition set_stop f : Farm T :=
  mkFarm (db_transaction f) (max_workers f) (workers f) (headers f) (headers_it_2 f) (max_batch_size f) (batch f) (farm_batch_id f)
    (completed_batch_id f) (batches_completed f) (farm_collector f) true (schedule f).
Definition set_schedule (x : list (list Event)) f : Farm T :=
  mkFarm (db_transaction f) (max_workers f) (workers f) (headers f) (headers_it_2 f) (max_batch_size f) (batch f) (farm_batch_id f)
    (completed_batch_id f) (batches_completed f) (farm_collector f) (stop_requested f) x.
Definition set_headers (x : list bytes) f : Farm T :=
  mkFarm (db_transaction f) (max_workers f) (workers f) x 0 (max_batch_size f) (batch f) (farm_batch_id f)
    (completed_batch_id f) (batches_completed f) (farm_collector f) (stop_requested f) (schedule f).
Definition set_txn (x : Txn T) f : Farm T :=
  mkFarm x (max_workers f) (workers f) (headers f) (headers_it_2 f) (max_batch_size f) (batch f) (farm_batch_id f)
    (completed_batch_id f) (batches_completed f) (farm_collector f) (stop_requested f) (schedule f).

End Fields.

(** ** What the main thread does

    It goes on with a value, or with an exception; it still waits when the schedule ends; or it is undefined. *)
Inductive Run (T A : Type) : Type :=
| Val (a : A) (f : Farm T)
| Exn (e : DbError) (f : Farm T)
| Pending
| Bad.
Arguments Val {T A} _ _.
Arguments Exn {T A} _ _.
Arguments Pending {T A}.
Arguments Bad {T A}.

Definition M (T A : Type) : Type := Farm T -> Run T A.

Definition ret {T A} (a : A) : M T A := Val a.
Definition mbind_ {T A B} (m : M T A) (k : A -> M T B) : M T B :=
  fun f => match m f with Val a f => k a f | Exn e f => Exn e f | Pending => Pending | Bad => Bad end.
Notation "'do' x <- m ; k" := (mbind_ m (fun x => k)) (at level 200, x pattern, m at level 100, k at level 200).
Notation "m ;;; k" := (mbind_ m (fun _ => k)) (at level 199, k at level 200, right associativity).

Definition get_farm {T} : M T (Farm T) := fun f => Val f f.
Definition update {T} (g : Farm T -> Farm T) : M T unit := fun f => Val tt (g f).
Definition undefined {T A} : M T A := fun _ => Bad.
Definition throw {T A} (e : DbError) : M T A := Exn e.

(** A result of the database, and one of the external sort. *)
Definition lift {T A} (r : result DbError A) : M T A :=
  fun f => match r with Ok a => Val a f | Err e => Exn e f | Undef => Bad end.

Section Senders.
Context {T : Type} `{Lmdb T} `{Secp256k1}.
Implicit Types f : Farm T.

(** ** The workers *)

(** The loop over the packages of a batch: the block it is in, where its result starts in the data, the result so far,
    and the results of the blocks before. A result that does not fit into the data is written past their end. *)
Fixpoint recover_packages (stopping : bool) (data_size : Z) (packages : list Package) (block_num offset : Z) (block : bytes)
    (results : list (Z * bytes)) : result unit (WorkerStatus * list (Z * bytes)) :=
  match packages with
  | [] => Ok (ResultsReady, match block with [] => results | _ => results ++ [(block_num, block)] end)
  | package :: packages =>
      let switched := negb (block_num =? pk_block_num package) in
      let results := if switched then results ++ [(block_num, block)] else results in
      let offset := if switched then offset + zlen block else offset in
      let block := if switched then [] else block in
      if switched && stopping then Ok (Aborted, results)
      else
        match recover secp256k1_recover (pk_hash package) (pk_signature package) (pk_odd_y_parity package) with
        | Some [] => Undef
        | Some (first :: key) =>
            if first =? 4 then
              if data_size <? offset + zlen block + Z.of_nat kAddressLength then Undef
              else
                recover_packages stopping data_size packages (pk_block_num package) offset
                  (block ++ drop (kHashLength - kAddressLength) (keccak256 key)) results
            else Ok (WorkerError, results)
        | None => Ok (WorkerError, results)
        end
  end.

(** The body of the loop in [work]. *)
Definition work_batch (w : RecoveryWorker) : result unit (WorkerStatus * list (Z * bytes)) :=
  match rw_batch w with
  | Some (first :: packages) =>
      recover_packages (rw_stopping w) (rw_data_size w) (first :: packages) (pk_block_num first) 0 [] []
  | _ => Undef
  end.

Definition with_point (p : WorkerPoint) (w : RecoveryWorker) : RecoveryWorker :=
  mkRecoveryWorker (rw_data_size w) (rw_batch_id w) (rw_batch w) (rw_results w) (rw_status w) p (rw_stopping w).

(** [set_work]: the kick that comes with it is the status. *)
Definition set_work (id : Z) (b : list Package) (w : RecoveryWorker) : RecoveryWorker :=
  mkRecoveryWorker (rw_data_size w) id (Some b) (rw_results w) Working (rw_point w) (rw_stopping w).

(** [pull_results] with the status that was read: the results are swapped with an empty vector. *)
Definition pull_results (status : WorkerStatus) (w : RecoveryWorker) : option (RecoveryWorker * list (Z * bytes)) :=
  if decide (rw_status w = status) then
    Some (mkRecoveryWorker (rw_data_size w) (rw_batch_id w) (rw_batch w) [] Idle (rw_point w) (rw_stopping w), rw_results w)
  else None.

(** [Worker::stop], up to its join *)
Definition stop_worker (w : RecoveryWorker) : RecoveryWorker :=
  mkRecoveryWorker (rw_data_size w) (rw_batch_id w) (rw_batch w) (rw_results w) (rw_status w) (rw_point w) true.

(** The move of a worker: it takes the batch it was kicked for; it is in [worker_completed_handler], which waits for
    its turn; it resets its batch. A worker that waits for something does not move. *)
Definition move_worker (i : nat) f : result unit (Farm T) :=
  match workers f !! i with
  | None => Ok f
  | Some w =>
      match rw_point w with
      | AtWait =>
          if rw_stopping w then Ok (set_workers (<[i := with_point Ended w]> (workers f)) f)
          else if decide (rw_status w = Working) then
            try (status, results) := work_batch w in
            Ok (set_workers (<[i := mkRecoveryWorker (rw_data_size w) (rw_batch_id w) (rw_batch w) results status Signalling false]>
                  (workers f)) f)
          else Ok f
      | Signalling =>
          if completed_batch_id f =? rw_batch_id w then
            Ok (set_completed (u32 (completed_batch_id f + 1)) (batches_completed f ++ [(i, rw_batch_id w)])
                  (set_workers (<[i := with_point Resetting w]> (workers f)) f))
          else Ok f
      | Resetting =>
          Ok (set_workers (<[i := mkRecoveryWorker (rw_data_size w) (rw_batch_id w) None (rw_results w) (rw_status w) AtWait
                                   (rw_stopping w)]> (workers f)) f)
      | Ended => Ok f
      end
  end.

Fixpoint happen (events : list Event) f : result unit (Farm T) :=
  match events with
  | [] => Ok f
  | WorkerMoves i :: events => try f := move_worker i f in happen events f
  | Interrupt :: events => happen events (set_stop f)
  end.

(** The workers move before the main thread's next access. *)
Definition others_move : M T unit := fun f =>
  match schedule f with
  | [] => Pending
  | events :: rest => match happen events (set_schedule rest f) with Ok f => Val tt f | _ => Bad end
  end.

(** Loops that go on until something happens are over when the schedule is: one round per element. *)
Definition with_rounds {A} (loop : nat -> M T A) : M T A := fun f => loop (S (length (schedule f))) f.

(** ** The farm *)

Definition should_stop : M T bool := others_move ;;; do f <- get_farm; ret (stop_requested f).

Definition init_batch : M T unit := update (set_batch (Some [])).

(** [initialize_new_worker]: memory and threads are there. *)
Definition initialize_new_worker : M T unit :=
  do f <- get_farm;
  update (set_workers (workers f ++
    [mkRecoveryWorker (u64 (max_batch_size f * Z.of_nat kAddressLength)) 0 None [] Idle AtWait false])).

Fixpoint find_worker (p : RecoveryWorker -> bool) (l : list RecoveryWorker) : option nat :=
  match l with
  | [] => None
  | w :: l => if p w then Some O else S <$> find_worker p l
  end.

(** The loop over the results of a worker: the header is the next one, whichever block the result is of. *)
Fixpoint collect_results (results : list (Z * bytes)) : M T unit :=
  match results with
  | [] => ret tt
  | (block_num, data) :: results =>
      do f <- get_farm;
      match headers f !! headers_it_2 f with
      | None => undefined
      | Some hash =>
          do c <- lift (thrown (collect (mkEntry (block_key_hash block_num hash) data) (farm_collector f)));
          update (set_collected (S (headers_it_2 f)) c) ;;;
          collect_results results
      end
  end.

Fixpoint bufferize_loop (rounds : nat) : M T FarmStatus :=
  match rounds with
  | O => fun _ => Pending
  | S rounds =>
      others_move ;;;
      do f <- get_farm;
      match batches_completed f with
      | [] => ret Succeded
      | (i, _) :: rest =>
          update (set_completed (completed_batch_id f) rest) ;;;
          match workers f !! i with
          | None => undefined
          | Some worker =>
              let go_on := do stop <- should_stop; if (stop : bool) then ret Succeded else bufferize_loop rounds in
              match rw_status worker with
              | WorkerError => ret RecoveryError
              | Aborted => ret WorkerAborted
              | ResultsReady =>
                  match pull_results ResultsReady worker with
                  | None => ret WorkerStatusMismatch
                  | Some (worker, results) =>
                      update (set_workers (<[i := worker]> (workers f))) ;;;
                      collect_results results ;;;
                      go_on
                  end
              | _ => go_on
              end
          end
      end
  end.

Definition bufferize_workers_results : M T FarmStatus :=
  do status <- with_rounds bufferize_loop;
  (if decide (status = Succeded) then ret tt else update set_stop) ;;;
  ret status.

Definition is_idle (w : RecoveryWorker) : bool := bool_decide (rw_status w = Idle).
Definition is_done (w : RecoveryWorker) : bool :=
  match rw_status w with ResultsReady | WorkerError | Aborted => true | _ => false end.

(** The loop for a worker that is available. *)
Fixpoint dispatch_loop (rounds : nat) (renew : bool) (b : list Package) : M T FarmStatus :=
  match rounds with
  | O => fun _ => Pending
  | S rounds =>
      others_move ;;;
      do f <- get_farm;
      match find_worker is_idle (workers f) with
      | Some i =>
          update (set_workers (alter (set_work (farm_batch_id f) b) i (workers f))) ;;;
          update (set_farm_batch_id (u32 (farm_batch_id f + 1))) ;;;
          update (set_batch (if renew then Some [] else None)) ;;;
          ret Succeded
      | None =>
          match find_worker is_done (workers f) with
          | Some _ =>
              do status <- bufferize_workers_results;
              if decide (status = Succeded) then dispatch_loop rounds renew b else ret status
          | None =>
              if (length (workers f) =? max_workers f)%nat then dispatch_loop rounds renew b
              else initialize_new_worker ;;; dispatch_loop rounds renew b
          end
      end
  end.

Definition dispatch_batch (renew : bool) : M T FarmStatus :=
  do stop <- should_stop;
  if (stop : bool) then init_batch ;;; ret WorkerAborted
  else
    do f <- get_farm;
    match batch f with
    | None | Some [] => ret Succeded
    | Some b =>
        (match workers f with [] => initialize_new_worker | _ => ret tt end) ;;;
        with_rounds (fun rounds => dispatch_loop rounds renew b)
    end.

(** The check of a signature, and the package that is made of it. *)
Definition signature_accepted (config : ChainConfig) (rev : Z) (txn : Transaction) : bool :=
  is_valid_signature (sig_r txn) (sig_s txn) (EVMC_HOMESTEAD <=? rev)
  && match chain_id txn with
     | None => true
     | Some id => (EVMC_SPURIOUS_DRAGON <=? rev) && (id =? config_chain_id config)
     end.

Definition package_of (block_num : Z) (txn : Transaction) : Package :=
  mkPackage block_num (keccak256 (encode_transaction_for txn true false)) (odd_y_parity txn)
    (to_be 32 (sig_r txn) ++ to_be 32 (sig_s txn)).

Fixpoint fill_loop (config : ChainConfig) (rev block_num : Z) (transactions : list Transaction) : M T FarmStatus :=
  match transactions with
  | [] => ret Succeded
  | txn :: transactions =>
      if negb (signature_accepted config rev txn) then ret InvalidTransactionSignature
      else
        do f <- get_farm;
        match batch f with
        | None => undefined
        | Some b => update (set_batch (Some (b ++ [package_of block_num txn]))) ;;; fill_loop config rev block_num transactions
        end
  end.

Definition fill_batch (config : ChainConfig) (block_num : Z) (transactions : list Transaction) : M T FarmStatus :=
  fill_loop config (revision config block_num) block_num transactions.

(** ** The headers *)

Fixpoint headers_loop (fuel : nat) (t : T) (rc : result MdbCode item) (expected reached : Z) (l : list bytes)
  : result DbError (FarmStatus * Z * list bytes) :=
  match rc with
  | Err MDB_NOTFOUND => Ok (Succeded, reached, l)
  | Err rc => Err (LmdbException rc)
  | Undef => Undef
  | Ok (key, data) =>
      try reached := number_at_front key in
      if negb (reached =? expected) then Ok (BadHeaderSequence, reached, l)
      else if negb (length data =? kHashLength)%nat then Ok (BadHeaderHash, reached, l)
      else
        match fuel with
        | O => Undef
        | S fuel =>
            headers_loop fuel t (mdb_cursor_get t (Some (key, data)) MDB_NEXT [] []) (u64 (expected + 1)) reached (l ++ [data])
        end
  end.

Definition canonical_headers (txn : Txn T) (height_from height_to : Z) : result DbError (FarmStatus * list bytes) :=
  try hashes_table := open_table kCanonicalHashes txn in
  match seek_exact hashes_table (block_key height_from) with
  | Err MDB_NOTFOUND => Ok (HeaderNotFound, [])
  | Err rc => Err (LmdbException rc)
  | rc =>
      try (status, reached, l) := headers_loop (rows hashes_table) hashes_table rc height_from 0 [] in
      if negb (bool_decide (status = Succeded)) then Ok (status, l)
      else if negb (reached =? height_to) then Ok (HeaderNotFound, l)
      else Ok (Succeded, l)
  end.

Definition fill_canonical_headers (height_from height_to : Z) : M T FarmStatus :=
  do f <- get_farm;
  match canonical_headers (db_transaction f) height_from height_to with
  | Ok (status, l) => update (set_headers l) ;;; ret status
  | Err (LmdbException _) => ret DatabaseError
  | Err e => throw e
  | Undef => undefined
  end.

(** ** The unwinding *)

(** Deleting until there is no next row: the code that ends it is not an error. *)
Fixpoint unwind_loop (fuel : nat) (t : T) (rc : result MdbCode item) (rcount : Z) : M T (FarmStatus * T) :=
  match rc with
  | Err MDB_NOTFOUND => ret (Succeded, t)
  | Err rc => throw (LmdbException rc)
  | Undef => undefined
  | Ok x =>
      match mdb_cursor_del t x with
      | Err MDB_NOTFOUND => ret (Succeded, t)
      | Err rc => throw (LmdbException rc)
      | Undef => undefined
      | Ok t =>
          match mdb_cursor_get t (Some x) MDB_NEXT [] [] with
          | Err MDB_NOTFOUND => ret (Succeded, t)
          | Err rc => throw (LmdbException rc)
          | Undef => undefined
          | Ok y =>
              let rcount := u64 (rcount - 1) in
              do stop <- (if rcount mod 1000 =? 0 then ret false else should_stop);
              if (stop : bool) then ret (WorkerAborted, t)
              else match fuel with O => undefined | S fuel => unwind_loop fuel t (Ok y) rcount end
          end
      end
  end.

(** [try { m } catch (const lmdb::exception&) { return DatabaseError; }] *)
Definition catch_lmdb (m : M T FarmStatus) : M T FarmStatus :=
  fun f => match m f with Exn (LmdbException _) f => Val DatabaseError f | r => r end.

(** The same where the code for a row that is not there passes. *)
Definition catch_lmdb_but_not_found (m : M T FarmStatus) : M T FarmStatus :=
  fun f => match m f with Exn (LmdbException MDB_NOTFOUND) f => Val Succeded f | _ => catch_lmdb m f end.

Definition set_progress (stage : string) (n : Z) : M T unit :=
  do f <- get_farm; do txn <- lift (set_stage_progress (db_transaction f) stage n); update (set_txn txn).

Definition unwind (new_height : Z) : M T FarmStatus :=
  do status <- catch_lmdb_but_not_found (
    do f <- get_farm;
    do (unwind_table, txn) <- lift (open_created kSenders (db_transaction f));
    update (set_txn txn) ;;;
    do rcount <- lift (table_get_rcount unwind_table);
    if rcount =? 0 then ret Succeded
    else
      do (status, unwind_table) <-
        (if new_height <=? 1 then do t <- lift (err_handler (mdb_drop unwind_table)); ret (Succeded, t)
         else unwind_loop (rows unwind_table) unwind_table
                (seek_from unwind_table (to_be 8 (u64 (new_height + 1)) ++ zero_bytes 32)) rcount);
      do f <- get_farm;
      update (set_txn (with_table kSenders unwind_table (db_transaction f))) ;;;
      ret status);
  if decide (status = DatabaseError) then ret DatabaseError
  else
    do status <-
      (if decide (status = Succeded) then catch_lmdb (set_progress kSendersKey new_height ;;; ret Succeded)
       else ret status);
    if decide (status = DatabaseError) then ret DatabaseError
    else do stop <- should_stop; ret (if (stop : bool) then WorkerAborted else status).

(** ** The recovery *)

(** What is done with the transactions of a block. *)
Definition process_block (config : ChainConfig) (block_num : Z) (transactions : list Transaction) : M T unit :=
  match transactions with
  | [] => ret tt
  | _ =>
      do f <- get_farm;
      match batch f with
      | None => undefined
      | Some b =>
          do status <-
            (if max_batch_size f <? zlen b + zlen transactions then dispatch_batch true else ret Succeded);
          if negb (bool_decide (status = Succeded)) then throw RuntimeError
          else
            do status <- fill_batch config block_num transactions;
            if negb (bool_decide (status = Succeded)) then throw RuntimeError else ret tt
      end
  end.

(** The loop over the bodies: [expected] is the number of the next block, the first of [hashes] its hash. It answers
    what the cursor answered last. *)
Fixpoint bodies_loop (fuel : nat) (config : ChainConfig) (bodies_table transactions_table : T) (rc : result MdbCode item)
    (expected : Z) (hashes : list bytes) : M T (option FarmStatus * result MdbCode item) :=
  match rc with
  | Err _ => ret (None, rc)
  | Undef => undefined
  | Ok (key, data) =>
      do stop <- should_stop;
      if (stop : bool) then ret (None, rc)
      else
        let next fuel expected hashes :=
          bodies_loop fuel config bodies_table transactions_table
            (mdb_cursor_get bodies_table (Some (key, data)) MDB_NEXT [] []) expected hashes in
        do block_num <- lift (number_at_front key);
        match fuel with
        | O => undefined
        | S fuel =>
            if block_num <? expected then next fuel expected hashes
            else if expected <? block_num then ret (Some BadBlockSequence, rc)
            else
              match hashes with
              | [] => undefined
              | hash :: hashes =>
                  do key_hash <- lift (bytes_at 8 kHashLength key);
                  if negb (bytes_eqb key_hash hash) then next fuel expected (hash :: hashes)
                  else
                    do (body, _) <- lift (throw_err (decode_stored_block_body data));
                    do transactions <- lift (read_transactions_of transactions_table (base_txn_id body) (txn_count body));
                    process_block config block_num transactions ;;;
                    match hashes with
                    | [] => ret (None, rc)
                    | _ => next fuel (u64 (expected + 1)) hashes
                    end
              end
        end
  end.

(** [wait_workers_completion] *)
Fixpoint wait_loop (rounds : nat) : M T unit :=
  match rounds with
  | O => fun _ => Pending
  | S rounds =>
      others_move ;;;
      do f <- get_farm;
      match find_worker (fun w => bool_decide (rw_status w = Working)) (workers f) with
      | None => ret tt
      | Some _ => wait_loop rounds
      end
  end.

Definition wait_workers_completion : M T unit :=
  do f <- get_farm; match workers f with [] => ret tt | _ => with_rounds wait_loop end.

(** [stop_all_workers]: every thread is joined. *)
Fixpoint join_loop (rounds : nat) : M T unit :=
  match rounds with
  | O => fun _ => Pending
  | S rounds =>
      do f <- get_farm;
      if forallb (fun w => bool_decide (rw_point w = Ended)) (workers f) then ret tt
      else others_move ;;; join_loop rounds
  end.

Definition stop_all_workers : M T unit :=
  update (fun f => set_workers (map stop_worker (workers f)) f) ;;; with_rounds join_loop.

(** The range that is recovered, after an unwinding if it has to be done again; or the status that is returned. *)
Definition recovery_range (height_from height_to : Z) (force : bool) : M T (FarmStatus + Z * Z) :=
  do f <- get_farm;
  do (stage_height, txn) <- lift (get_stage_progress (db_transaction f) kSendersKey);
  update (set_txn txn) ;;;
  let height_from := if u64 (stage_height + 1) <? height_from then u64 (stage_height + 1) else height_from in
  do (status, height_from) <-
    (if height_from <=? stage_height then
       if force then do status <- unwind (if height_from =? 0 then height_from else height_from - 1); ret (status, height_from)
       else ret (Succeded, u64 (stage_height + 1))
     else ret (Succeded, height_from));
  if negb (bool_decide (status = Succeded)) then ret (inl status)
  else
    do f <- get_farm;
    do (blocks_height, txn) <- lift (get_stage_progress (db_transaction f) kBlockBodiesKey);
    update (set_txn txn) ;;;
    if (blocks_height <? height_to) && (blocks_height <? height_from) then ret (inl NoDataToProcess)
    else
      let height_to := if blocks_height <? height_to then blocks_height else height_to in
      if height_to <? height_from then ret (inl InvalidRange) else ret (inr (height_from, height_to)).

(** The [try] block of [recover]: a status that is returned at once, or nothing. *)
Definition recover_blocks (config : ChainConfig) (height_from height_to : Z) (force : bool) : M T (option FarmStatus) :=
  do range <- recovery_range height_from height_to force;
  match range with
  | inl status => ret (Some status)
  | inr (height_from, height_to) =>
      do status <- fill_canonical_headers height_from height_to;
      if negb (bool_decide (status = Succeded)) then ret (Some status)
      else
        do f <- get_farm;
        if negb (zlen (headers f) =? u64 (height_to - height_from + 1)) then ret (Some HeaderNotFound)
        else
          do bodies_table <- lift (open_table kBlockBodies (db_transaction f));
          do transactions_table <- lift (open_table kEthTx (db_transaction f));
          match headers f with
          | [] => undefined
          | first :: _ =>
              match seek_exact bodies_table (block_key_hash height_from first) with
              | Err _ => ret (Some BlockNotFound)
              | rc =>
                  init_batch ;;;
                  do (early, rc) <-
                    bodies_loop (rows bodies_table) config bodies_table transactions_table rc height_from (headers f);
                  match early, rc with
                  | Some status, _ => ret (Some status)
                  | None, Err rc =>
                      if decide (rc = MDB_NOTFOUND) then
                        do status <- dispatch_batch false;
                        if negb (bool_decide (status = Succeded)) then throw RuntimeError else ret None
                      else throw (LmdbException rc)
                  | None, _ =>
                      do status <- dispatch_batch false;
                      if negb (bool_decide (status = Succeded)) then throw RuntimeError else ret None
                  end
              end
          end
  end.

(** [catch (const lmdb::exception&) ... catch (const std::exception&) ...]; an enumerator that is thrown passes. *)
Definition caught_status {A} (m : M T A) (handle : FarmStatus -> A) : M T A :=
  fun f => match m f with
           | Exn (DecodingResultThrown e) f => Exn (DecodingResultThrown e) f
           | Exn (LmdbException _) f => Val (handle DatabaseError) f
           | Exn _ f => Val (handle RecoveryError) f
           | r => r
           end.

(** The load of the senders, and the progress from the last row of the table. *)
Definition load_senders : M T FarmStatus :=
  caught_status (
    do f <- get_farm;
    do (target_table, txn) <- lift (open_created kSenders (db_transaction f));
    do target_table <- lift (load_with put_entry MDB_APPEND (farm_collector f) target_table);
    update (set_txn (with_table kSenders target_table txn)) ;;;
    do (key, _) <- lift (err_handler (mdb_cursor_get target_table None MDB_LAST [] []));
    do last_processed_block <- lift (number_at_front key);
    set_progress kSendersKey last_processed_block ;;;
    ret Succeded) id.

(** What follows the [try] block: the status that [bufferize_workers_results] returns is not looked at. *)
Definition finish (status : FarmStatus) : M T FarmStatus :=
  wait_workers_completion ;;;
  do status <-
    (if decide (status = Succeded) then
       do _ <- bufferize_workers_results;
       do f <- get_farm;
       if collector_size (farm_collector f) =? 0 then ret status
       else do stop <- should_stop; if (stop : bool) then ret status else load_senders
     else ret status);
  stop_all_workers ;;;
  ret status.

Definition recover_senders {J : Type} `{Json J} (parse : bytes -> option J) (height_from height_to : Z) (force : bool)
  : M T FarmStatus :=
  do f <- get_farm;
  do (config, txn) <- lift (read_chain_config parse (db_transaction f));
  update (set_txn txn) ;;;
  match config with
  | None => ret InvalidChainConfig
  | Some config =>
      do early <- caught_status (do early <- recover_blocks config height_from height_to force;
                                 ret (match early with Some status => inl status | None => inr Succeded end)) inr;
      match early with inl status => ret status | inr status => finish status end
  end.

(** ** [main], after its arguments are parsed *)

Definition new_farm (txn : Txn T) (max_workers : nat) (max_batch_size : Z) (schedule : list (list Event)) : Farm T :=
  mkFarm txn max_workers [] [] 0 max_batch_size None 0 0 [] (new_collector stage_buffer_size) false schedule.

(** The exit code, and the tables if they were committed. An exception that is no exception object ends the program. *)
Definition check_senders {J : Type} `{Json J} (parse : bytes -> option J) (txn : Txn T) (max_workers : nat) (batch_size : Z)
    (recovers : bool) (block_from block_to : Z) (force dry : bool) (schedule : list (list Event)) : option (result unit (StageEnd T)) :=
  match (if recovers then recover_senders parse block_from block_to force else unwind block_from)
          (new_farm txn max_workers batch_size schedule) with
  | Val status f =>
      Some (Ok (mkStageEnd (farm_status_value status)
                  (if bool_decide (status = Succeded) && negb dry then db_transaction f else txn)))
  | Exn (DecodingResultThrown _) _ => Some (Err tt)
  | Exn _ _ => Some (Ok (mkStageEnd (farm_status_value DatabaseError) txn))
  | Bad => Some Undef
  | Pending => None
  end.

End Senders.
