(* ===== verification/SendersCorrect.v ===== *)
(** * SendersCorrect: cmd/check_senders.cpp collects the senders in the order of the blocks

    For every schedule of the workers: what the farm collects are the addresses of whole blocks, in the order in which the
    blocks were read, the addresses of a block being those that its transactions recover. Which of the batches are in
    it depends on the schedule, and the demonstrations at the end show the schedules that lose batches, lose the
    program, or hide an error. *)

From stdpp Require Import gmap sets strings.
From S2P Require Import Prelude Util Keccak Rlp Ecdsa Account Transaction Block Chain Precompiled Etl Lmdb DbUtil AccessLayer Stages StagesCorrect Senders.
Local Open Scope Z_scope.
Local Open Scope silk_scope.

(** ** Batches *)

Section Batches.
Context `{Secp256k1}.

(** A block: its number and its transactions. *)
Notation block_txns := (Z * list Transaction)%type.

Definition block_packages (b : block_txns) : list Package := map (package_of (fst b)) (snd b).
Definition batch_packages (bs : list block_txns) : list Package := concat (map block_packages bs).

(** The addresses that the transactions of a block recover, one after the other, if all of them do. *)
Definition sender_of (txn : Transaction) : option bytes := txn_from (recover_sender secp256k1_recover txn).
Definition block_senders (txns : list Transaction) : option bytes := mjoin <$> mapM sender_of txns.
Definition batch_senders (bs : list block_txns) : option (list (Z * bytes)) :=
  mapM (fun b => (fun d => (fst b, d)) <$> block_senders (snd b)) bs.

Lemma batch_senders_app bs bs' l l' : batch_senders bs = Some l -> batch_senders bs' = Some l' ->
  batch_senders (bs ++ bs') = Some (l ++ l').
Proof. unfold batch_senders. rewrite !mapM_Some. apply Forall2_app. Qed.

Lemma batch_senders_cons b bs d l : block_senders (snd b) = Some d -> batch_senders bs = Some l ->
  batch_senders (b :: bs) = Some ((fst b, d) :: l).
Proof. unfold batch_senders. intros Hd Hl. cbn [mapM]. by rewrite Hd, Hl. Qed.

(** What a package of a transaction does to a loop that goes on to the end. *)
Lemma recover_package size n txn ps n0 off block results rs :
  recover_packages false size (package_of n txn :: ps) n0 off block results = Ok (ResultsReady, rs) ->
  exists addr off', sender_of txn = Some addr /\ addr <> []
    /\ recover_packages false size ps n off' ((if n0 =? n then block else []) ++ addr)
         (if n0 =? n then results else results ++ [(n0, block)]) = Ok (ResultsReady, rs).
Proof.
  cbn [recover_packages]. rewrite andb_false_r. unfold sender_of, recover_sender, package_of. cbn [pk_block_num pk_hash pk_signature pk_odd_y_parity].
  destruct (recover _ _ _ _) as [[|x key]|]; [done| |done]. destruct (x =? 4); [|done].
  set (b := if negb (n0 =? n) then [] else block). case_goal; [done|]. intros Er.
  exists (drop 12 (keccak256 key)), (if negb (n0 =? n) then off + zlen block else off). split_and!.
  - done.
  - intros E0%(f_equal length). rewrite length_drop, length_keccak256 in E0. done.
  - unfold b in E. destruct (n0 =? n); exact Er.
Qed.

(** The packages of one block. *)
Lemma recover_rest_of_block size n txns : forall ps off block results rs,
  recover_packages false size (map (package_of n) txns ++ ps) n off block results = Ok (ResultsReady, rs) ->
  exists d off', block_senders txns = Some d /\ (txns <> [] -> d <> [])
    /\ recover_packages false size ps n off' (block ++ d) results = Ok (ResultsReady, rs).
Proof.
  induction txns as [|txn txns IH]; intros ps off block results rs; cbn [map app].
  - intros E. exists [], off. by rewrite app_nil_r.
  - intros (addr & off1 & Ea & Hne & E)%recover_package. rewrite Z.eqb_refl in E.
    apply IH in E as (d & off2 & Ed & _ & E). exists (addr ++ d), off2. split_and!.
    + unfold block_senders in *. cbn [mapM]. rewrite Ea. cbn. destruct (mapM sender_of txns); [|done].
      cbn in Ed. injection Ed as <-. done.
    + intros _ [? _]%app_eq_nil. done.
    + by rewrite <- app_assoc in E.
Qed.

Definition blocks_ok (bs : list block_txns) : Prop := Forall (fun b => snd b <> []) bs /\ NoDup (map fst bs).

Lemma blocks_ok_app bs bs' : blocks_ok (bs ++ bs') -> blocks_ok bs /\ blocks_ok bs'.
Proof. unfold blocks_ok. rewrite Forall_app, map_app, NoDup_app. tauto. Qed.

(** The packages of the blocks that follow. *)
Lemma recover_batch size bs : forall n off block results rs, blocks_ok bs -> n ∉ map fst bs -> block <> [] ->
  recover_packages false size (batch_packages bs) n off block results = Ok (ResultsReady, rs) ->
  exists l, batch_senders bs = Some l /\ rs = results ++ (n, block) :: l.
Proof.
  induction bs as [|[m txns] bs IH]; intros n off block results rs [Hne Hnd] Hn Hb.
  - cbn. destruct block; [done|]. intros [= <-]. by exists [].
  - inversion Hne as [|? ? Hm Hne']; subst. inversion Hnd as [|? ? Hnin Hnd']; subst. cbn [fst snd map] in *.
    apply not_elem_of_cons in Hn as [Hnm Hn]. destruct txns as [|txn txns]; [done|]. cbn [batch_packages map concat block_packages fst snd app].
    intros (addr & off1 & Ea & Ha & E)%recover_package. rewrite (proj2 (Z.eqb_neq n m) Hnm) in E. cbn [app] in E.
    apply recover_rest_of_block in E as (d & off2 & Ed & _ & E).
    apply IH in E as (l & El & ->); [|by split|done|by intros [? _]%app_eq_nil].
    exists ((m, addr ++ d) :: l). split; [|by rewrite <- app_assoc]. apply (batch_senders_cons (m, txn :: txns)); [|done]. cbn [snd].
    unfold block_senders in *. cbn [mapM]. rewrite Ea. cbn. destruct (mapM sender_of txns); [|done]. cbn in Ed. by injection Ed as <-.
Qed.

(** A worker that is told to stop by nobody and finds its batch to be ready has recovered every block of it. *)
Lemma work_batch_spec w bs rs : rw_stopping w = false -> rw_batch w = Some (batch_packages bs) -> blocks_ok bs ->
  work_batch w = Ok (ResultsReady, rs) -> batch_senders bs = Some rs.
Proof.
  intros Hs Hb [Hne Hnd]. unfold work_batch. rewrite Hs, Hb. destruct bs as [|[n txns] bs]; [done|].
  inversion Hne as [|? ? Hn Hne']; subst. inversion Hnd as [|? ? Hnin Hnd']; subst. cbn [fst snd map] in *.
  destruct txns as [|txn txns]; [done|]. cbn [batch_packages map concat block_packages fst snd app pk_block_num package_of].
  change (package_of n txn :: map (package_of n) txns ++ concat (map block_packages bs))
    with (map (package_of n) (txn :: txns) ++ batch_packages bs).
  intros (d & off & Ed & Hd & E)%recover_rest_of_block.
  apply recover_batch in E as (l & El & ->); [|by split|done|by apply Hd]. by apply (batch_senders_cons (n, txn :: txns)).
Qed.

(** It has no other way to end but with an error. *)
Lemma recover_not_aborted size ps : forall n off block results status rs,
  recover_packages false size ps n off block results = Ok (status, rs) -> status = ResultsReady \/ status = WorkerError.
Proof.
  induction ps as [|p ps IH]; intros n off block results status rs; cbn [recover_packages]; rewrite ?andb_false_r.
  - intros [= <- _]. by left.
  - destruct (recover _ _ _ _) as [[|x key]|]; [done| |intros [= <- _]; by right].
    destruct (x =? 4); [|intros [= <- _]; by right]. case_goal; [done|]. apply IH.
Qed.

Lemma work_batch_ends w status rs : rw_stopping w = false -> work_batch w = Ok (status, rs) ->
  status = ResultsReady \/ status = WorkerError.
Proof.
  unfold work_batch. intros ->. destruct (rw_batch w) as [[|p ps]|]; [done| |done]. apply recover_not_aborted.
Qed.

End Batches.

(** ** What holds whenever the main thread accesses the shared state *)

Section Farms.
Context {T : Type} `{Lmdb T} `{Secp256k1}.
Implicit Types f : Farm T.
Notation block_txns := (Z * list Transaction)%type.

(** [r] is followed by [Q] if it goes on with a value. *)
Definition holds {A} (r : Run T A) (Q : A -> Farm T -> Prop) : Prop := match r with Val a f => Q a f | _ => True end.

Lemma holds_bind {A B} (m : M T A) (k : A -> M T B) f Q : holds (m f) (fun a f => holds (k a f) Q) -> holds (mbind_ m k f) Q.
Proof. unfold mbind_. by destruct (m f). Qed.

Lemma holds_mono {A} (r : Run T A) (P Q : A -> Farm T -> Prop) : holds r P -> (forall a f, P a f -> Q a f) -> holds r Q.
Proof. destruct r; cbn; auto. Qed.

(** The batch with the number [id]. *)
Definition given_at (given : list (list block_txns)) (id : Z) (bs : list block_txns) : Prop :=
  0 <= id /\ given !! Z.to_nat id = Some bs.

Definition worker_ok (given : list (list block_txns)) (w : RecoveryWorker) : Prop :=
  (rw_stopping w = false /\ rw_point w <> Ended) /\
  match rw_status w with
  | Idle => rw_point w = AtWait \/ rw_point w = Resetting
  | Working => (rw_point w = AtWait \/ rw_point w = Resetting)
      /\ exists bs, given_at given (rw_batch_id w) bs /\ (rw_batch w = Some (batch_packages bs) \/ rw_batch w = None)
  | ResultsReady => exists bs, given_at given (rw_batch_id w) bs /\ batch_senders bs = Some (rw_results w)
  | WorkerError => exists bs, given_at given (rw_batch_id w) bs
  | Aborted => False
  end.

(** A batch in the queue is one that its worker is done with. *)
Definition queued_ok f (item : nat * Z) : Prop :=
  exists w, workers f !! fst item = Some w /\ rw_batch_id w = snd item /\ is_done w = true /\ rw_point w <> Signalling.

Definition sender_entry (hash : bytes) (r : Z * bytes) : Entry := mkEntry (block_key_hash (fst r) hash) (snd r).

(** What is collected are the senders of [bs], each with the next header. *)
Definition collected_results (hs : list bytes) (rs : list (Z * bytes)) (it : nat) (c : Collector) : Prop :=
  it = length rs /\ (it <= length hs)%nat
  /\ collect_all (zip_with sender_entry hs rs) (new_collector stage_buffer_size) = Ok c.
Definition collected_senders (hs : list bytes) (bs : list block_txns) (it : nat) (c : Collector) : Prop :=
  exists rs, batch_senders bs = Some rs /\ collected_results hs rs it c.

Section Shared.
Context (tx : Txn T) (hs : list bytes).

(** The batches [given] to the workers so far, of which the first [taken] are collected, and the blocks in the batch. *)
Record farm_ok (given : list (list block_txns)) (taken : nat) (waiting : list block_txns) f : Prop := {
  fo_txn : db_transaction f = tx;
  fo_headers : headers f = hs;
  fo_blocks : blocks_ok (concat given ++ waiting);
  fo_few : zlen (concat given ++ waiting) < 2 ^ 32;
  fo_given : Forall (fun bs => bs <> []) given;
  fo_batch : batch f = Some (batch_packages waiting) \/ batch f = None /\ waiting = [];
  fo_id : farm_batch_id f = Z.of_nat (length given);
  fo_taken : (taken <= length given)%nat;
  fo_completed : completed_batch_id f = Z.of_nat (taken + length (batches_completed f));
  fo_queue : map snd (batches_completed f) = map Z.of_nat (seq taken (length (batches_completed f)));
  fo_queued : Forall (queued_ok f) (batches_completed f);
  fo_workers : Forall (worker_ok given) (workers f);
  fo_collected : collected_senders hs (concat (take taken given)) (headers_it_2 f) (farm_collector f)
}.

Lemma length_concat_nonempty {A} (l : list (list A)) : Forall (fun x => x <> []) l -> (length l <= length (concat l))%nat.
Proof.
  induction 1 as [|x l Hx _ IH]; [done|]. cbn [concat length]. rewrite length_app. destruct x; [done|]. cbn. lia.
Qed.

Lemma given_few given taken waiting f : farm_ok given taken waiting f -> Z.of_nat (length given) < 2 ^ 32.
Proof. intros []. pose proof (length_concat_nonempty given fo_given0). rewrite length_app in fo_few0. lia. Qed.

Lemma given_at_lt given id bs : given_at given id bs -> id < Z.of_nat (length given).
Proof. intros [Hid ?%lookup_lt_Some]. lia. Qed.

Lemma queued_other f i w items : Forall (fun item => fst item <> i) items -> Forall (queued_ok f) items ->
  Forall (queued_ok (set_workers (<[i := w]> (workers f)) f)) items.
Proof.
  rewrite !Forall_forall. intros Hne Hq item Hi. destruct (Hq item Hi) as (w' & Hw & Hrest). exists w'. split; [|done].
  cbn [workers set_workers]. rewrite list_lookup_insert_ne; [done|]. intros E. exact (Hne item Hi (eq_sym E)).
Qed.

(** A worker that is not done, or has not signalled, is not in the queue. *)
Lemma queued_not f i w items : workers f !! i = Some w -> is_done w = false \/ rw_point w = Signalling ->
  Forall (queued_ok f) items -> Forall (fun item => fst item <> i) items.
Proof.
  intros Hw Hn Hq. eapply Forall_impl; [exact Hq|]. intros [j id] (w' & Hw' & _ & Hd & Hp) E. cbn [fst] in *. subst j.
  rewrite Hw in Hw'. injection Hw' as <-. destruct Hn as [Hn|Hn]; [by rewrite Hn in Hd|done].
Qed.

(** The state of a worker that is in the queue changes, but not the result. *)
Lemma queued_same f i w w' items : workers f !! i = Some w -> rw_batch_id w' = rw_batch_id w -> rw_status w' = rw_status w ->
  rw_point w' <> Signalling ->
  Forall (queued_ok f) items -> Forall (queued_ok (set_workers (<[i := w']> (workers f)) f)) items.
Proof.
  intros Hw Hid Hst Hp Hq. eapply Forall_impl; [exact Hq|]. intros [j id] (w0 & Hw0 & Hi & Hd & Hp0). unfold queued_ok. cbn [fst snd workers set_workers] in *.
  destruct (decide (j = i)) as [->|Hne].
  - rewrite Hw in Hw0. injection Hw0 as <-. exists w'. split; [by rewrite list_lookup_insert_eq by (by eapply lookup_lt_Some)|].
    split; [congruence|]. split; [|done]. unfold is_done in *. by rewrite Hst.
  - exists w0. split; [by rewrite list_lookup_insert_ne by done|done].
Qed.

Lemma insert_workers_ok given taken waiting f i w : farm_ok given taken waiting f -> worker_ok given w ->
  Forall (queued_ok (set_workers (<[i := w]> (workers f)) f)) (batches_completed f) ->
  farm_ok given taken waiting (set_workers (<[i := w]> (workers f)) f).
Proof. intros [] Hw Hq. split; try done. cbn [workers set_workers]. by apply Forall_insert. Qed.

Lemma seq_snoc_end n k : seq n (S k) = seq n k ++ [(n + k)%nat].
Proof. exact (seq_S k n). Qed.

(** The workers keep it. *)
Lemma move_worker_ok given taken waiting f f' i : farm_ok given taken waiting f -> move_worker i f = Ok f' ->
  farm_ok given taken waiting f'.
Proof.
  intros Hf. unfold move_worker. destruct (workers f !! i) as [w|] eqn:Hw; [|by intros [= <-]].
  pose proof (Forall_lookup_1 _ _ _ _ (fo_workers _ _ _ _ Hf) Hw) as [Hs Hok].
  destruct (rw_point w) eqn:Ep.
  - destruct Hs as [Hs _]. rewrite Hs. case_decide as Est; [|by intros [= <-]]. rewrite Est in Hok. destruct Hok as (_ & bs & Hg & Hb).
    destruct (work_batch w) as [[status rs]| |] eqn:Ew; [|done|done]. cbn [result_bind]. intros [= <-].
    apply insert_workers_ok; [done| |].
    + split; [cbn; naive_solver|]. cbn [rw_status]. destruct (work_batch_ends w status rs Hs Ew) as [-> | ->]; [|by exists bs].
      exists bs. split; [done|]. cbn [rw_results]. destruct Hb as [Hb|Hb]; [|unfold work_batch in Ew; by rewrite Hb in Ew].
      apply (work_batch_spec w bs rs Hs Hb); [|done]. destruct Hg as [_ Hg].
      apply list_elem_of_split_length in Hg as (g1 & g2 & Eg & _).
      pose proof (fo_blocks _ _ _ _ Hf) as Hbl. rewrite Eg, concat_app in Hbl. cbn [concat] in Hbl.
      apply blocks_ok_app in Hbl as [Hbl _]. apply blocks_ok_app in Hbl as [_ Hbl]. by apply blocks_ok_app in Hbl as [Hbl _].
    + apply queued_other; [|exact (fo_queued _ _ _ _ Hf)]. apply (queued_not f i w); [done| |exact (fo_queued _ _ _ _ Hf)]. left. unfold is_done. by rewrite Est.
  - destruct (Z.eqb_spec (completed_batch_id f) (rw_batch_id w)) as [Ec|_]; [|by intros [= <-]]. intros [= <-].
    assert (exists bs, given_at given (rw_batch_id w) bs /\ is_done w = true) as (bs & Hg & Hd).
    { unfold is_done. destruct (rw_status w); naive_solver. }
    assert (farm_ok given taken waiting (set_workers (<[i := with_point Resetting w]> (workers f)) f)) as Hf1.
    { apply insert_workers_ok; [done| |].
      - split; [cbn; naive_solver|]. cbn [with_point rw_status rw_batch_id rw_results rw_point]. unfold is_done in Hd.
        destruct (rw_status w); naive_solver.
      - by apply (queued_same f i w); [..|exact (fo_queued _ _ _ _ Hf)]. }
    pose proof (given_at_lt _ _ _ Hg) as Hlt. pose proof (given_few _ _ _ _ Hf).
    destruct Hf1. cbn [set_workers workers completed_batch_id batches_completed headers batch farm_batch_id headers_it_2 farm_collector] in *.
    pose proof (fo_completed _ _ _ _ Hf) as Eco.
    split; cbn [set_completed set_workers workers completed_batch_id batches_completed headers batch farm_batch_id headers_it_2 farm_collector]; try done.
    + rewrite length_app. cbn. unfold u32. rewrite wrap_small by lia. lia.
    + rewrite map_app, fo_queue0, length_app. cbn [length map]. rewrite Nat.add_1_r, seq_snoc_end, map_app. cbn [map]. do 2 f_equal. cbn. congruence.
    + apply Forall_app. split; [done|]. constructor; [|done]. exists (with_point Resetting w). cbn [fst snd].
      split; [apply list_lookup_insert_eq; by eapply lookup_lt_Some|]. by split_and!.
  - intros [= <-]. apply insert_workers_ok; [done| |].
    + split; [cbn; naive_solver|]. cbn [rw_status rw_batch_id rw_results rw_point rw_batch]. destruct (rw_status w); naive_solver.
    + by apply (queued_same f i w); [..|exact (fo_queued _ _ _ _ Hf)].
  - by intros [= <-].
Qed.

Lemma happen_ok given taken waiting events : forall f f', farm_ok given taken waiting f -> happen events f = Ok f' ->
  farm_ok given taken waiting f'.
Proof.
  induction events as [|[i|] events IH]; intros f f' Hf; cbn [happen].
  - by intros [= <-].
  - destruct (move_worker i f) as [f1| |] eqn:Em; [|done|done]. cbn [result_bind]. apply IH. by eapply move_worker_ok.
  - apply IH. destruct Hf. by split.
Qed.

Lemma others_move_ok given taken waiting f : farm_ok given taken waiting f ->
  holds (others_move f) (fun _ f' => farm_ok given taken waiting f').
Proof.
  intros Hf. unfold others_move. destruct (schedule f) as [|events rest]; [done|].
  destruct (happen events _) as [f'| |] eqn:Eh; [|done|done]. cbn. eapply happen_ok; [|exact Eh]. destruct Hf. by split.
Qed.

(** *** The results are collected *)

Lemma collect_all_app es : forall es' c, collect_all (es ++ es') c = result_bind (collect_all es c) (collect_all es').
Proof. induction es as [|e es IH]; intros es' c; cbn [app collect_all]; [done|]. destruct (collect e c); [apply IH|done..]. Qed.

Lemma zip_entries_snoc rs r h : forall l, l !! length rs = Some h ->
  zip_with sender_entry l (rs ++ [r]) = zip_with sender_entry l rs ++ [sender_entry h r].
Proof.
  induction rs as [|r' rs IH]; intros [|h' l] Hl; try done; cbn in *; [injection Hl as ->; by destruct l|]. f_equal. by apply IH.
Qed.

Lemma collect_results_spec results : forall f rs, headers f = hs -> collected_results hs rs (headers_it_2 f) (farm_collector f) ->
  holds (collect_results results f) (fun _ f' =>
    collected_results hs (rs ++ results) (headers_it_2 f') (farm_collector f')
    /\ f' = set_collected (headers_it_2 f') (farm_collector f') f).
Proof.
  induction results as [|[n d] results IH]; intros f rs Eh Hc; cbn [collect_results].
  - cbn. rewrite app_nil_r. split; [done|]. by destruct f.
  - apply holds_bind. cbn [get_farm holds]. rewrite Eh. destruct (hs !! headers_it_2 f) as [h|] eqn:El; [|done].
    apply holds_bind. unfold lift, thrown. destruct (collect _ _) as [c| |] eqn:Ec; [|done..]. cbn [holds].
    apply holds_bind. cbn [update holds]. destruct Hc as (Eit & Hle & Hall).
    assert (collected_results hs (rs ++ [(n, d)]) (S (headers_it_2 f)) c) as Hc.
    { split; [rewrite length_app; cbn; lia|]. split; [by apply lookup_lt_Some in El|].
      rewrite (zip_entries_snoc _ _ h) by congruence. rewrite collect_all_app, Hall. cbn [result_bind collect_all].
      unfold sender_entry. cbn [fst snd]. by rewrite Ec. }
    eapply holds_mono; [apply (IH (set_collected (S (headers_it_2 f)) c f) (rs ++ [(n, d)]) Eh Hc)|].
    cbn. intros _ f' [Hc' Ef']. rewrite <- app_assoc in Hc'. split; [exact Hc'|]. rewrite Ef'. by destruct f.
Qed.

(** The batch at the front of the queue is the first that is not collected, and no other in the queue is of its worker. *)
Lemma front_batch given taken waiting f i id rest : farm_ok given taken waiting f -> batches_completed f = (i, id) :: rest ->
  exists w bs, workers f !! i = Some w /\ worker_ok given w /\ is_done w = true /\ rw_point w <> Signalling
    /\ rw_batch_id w = Z.of_nat taken /\ given !! taken = Some bs /\ Forall (fun item => fst item <> i) rest.
Proof.
  intros Hf Eq. pose proof (fo_queued _ _ _ _ Hf) as Hq. pose proof (fo_queue _ _ _ _ Hf) as Es. rewrite Eq in Hq, Es.
  cbn [length map seq] in Es. inversion Hq as [|? ? (w & Hw & Eid & Hd & Hp) Hq']; subst. cbn [fst snd] in *.
  injection Es as Et Es. pose proof (Forall_lookup_1 _ _ _ _ (fo_workers _ _ _ _ Hf) Hw) as Hok.
  assert (exists bs, given_at given (rw_batch_id w) bs) as (bs & Hg).
  { destruct Hok as [_ Hok]. unfold is_done in Hd. destruct (rw_status w); naive_solver. }
  exists w, bs. split_and!; try done; [congruence| |].
  - destruct Hg as [_ Hg]. by rewrite Eid, Et, Nat2Z.id in Hg.
  - apply Forall_forall. intros [j id'] Hin E. cbn [fst] in E. subst j.
    rewrite Forall_forall in Hq'. destruct (Hq' _ Hin) as (w' & Hw' & Eid' & _). cbn [fst snd] in *.
    rewrite Hw in Hw'. injection Hw' as <-. apply (list_elem_of_fmap_2 snd) in Hin. cbn [snd] in Hin.
    change (snd <$> rest) with (map snd rest) in Hin. rewrite Es in Hin.
    apply list_elem_of_fmap in Hin as (k & Ek & Hk%elem_of_seq). lia.
Qed.

(** Its results are pulled and collected. *)
Lemma pull_front given taken waiting f i id rest w bs it c rs :
  farm_ok given taken waiting f -> batches_completed f = (i, id) :: rest -> workers f !! i = Some w ->
  rw_point w <> Signalling -> worker_ok given w -> rw_status w = ResultsReady -> rw_batch_id w = Z.of_nat taken ->
  given !! taken = Some bs -> Forall (fun item => fst item <> i) rest ->
  batch_senders (concat (take taken given)) = Some rs -> collected_results hs (rs ++ rw_results w) it c ->
  farm_ok given (S taken) waiting
    (set_collected it c (set_workers (<[i := mkRecoveryWorker (rw_data_size w) (rw_batch_id w) (rw_batch w) [] Idle (rw_point w) (rw_stopping w)]>
       (workers f)) (set_completed (completed_batch_id f) rest f))).
Proof.
  intros Hf Eq Hw Hp [Hs Hok] Est Eid Hg Hrest Hrs Hc. rewrite Est in Hok. destruct Hok as (bs' & [_ Hg'] & Hbs).
  rewrite Eid, Nat2Z.id, Hg in Hg'. injection Hg' as <-. pose proof (lookup_lt_Some _ _ _ Hg) as Hlt.
  destruct Hf. rewrite Eq in fo_queue0, fo_queued0, fo_completed0. cbn [length map seq] in *.
  split; cbn [set_collected set_workers set_completed db_transaction headers workers batch farm_batch_id completed_batch_id
              batches_completed headers_it_2 farm_collector]; try done.
  - lia.
  - by injection fo_queue0 as _ ->.
  - inversion fo_queued0 as [|? ? _ Hq]; subst. exact (queued_other f i (mkRecoveryWorker (rw_data_size w) (rw_batch_id w) (rw_batch w) [] Idle (rw_point w) (rw_stopping w)) rest Hrest Hq).
  - apply Forall_insert; [done|]. split; [cbn; naive_solver|]. cbn [rw_status rw_point]. destruct (rw_point w); naive_solver.
  - exists (rs ++ rw_results w). split; [|done]. rewrite (take_S_r _ _ _ Hg), concat_app. cbn [concat].
    rewrite app_nil_r. by apply batch_senders_app.
Qed.

Lemma should_stop_ok given taken waiting f : farm_ok given taken waiting f ->
  holds (should_stop f) (fun _ f' => farm_ok given taken waiting f').
Proof. intros Hf. apply holds_bind. eapply holds_mono; [by apply others_move_ok|]. cbn. auto. Qed.

(** What the collecting of ready results leaves: all goes on if it succeeds; in any case only whole batches, in order,
    are collected. *)
Definition collecting given waiting (s : FarmStatus) f : Prop :=
  (s = Succeded -> exists taken, farm_ok given taken waiting f)
  /\ exists taken, collected_senders hs (concat (take taken given)) (headers_it_2 f) (farm_collector f).

Lemma collecting_ok given taken waiting f s : farm_ok given taken waiting f -> collecting given waiting s f.
Proof. intros Hf. split; [by exists taken|]. exists taken. by destruct Hf. Qed.

Lemma bufferize_loop_ok rounds given waiting : forall taken f, farm_ok given taken waiting f ->
  holds (bufferize_loop rounds f) (collecting given waiting).
Proof.
  induction rounds as [|rounds IH]; intros taken f Hf; cbn [bufferize_loop]; [done|].
  apply holds_bind. eapply holds_mono; [by apply others_move_ok|]. cbn beta. clear f Hf. intros _ f Hf.
  apply holds_bind. cbn [get_farm holds]. destruct (batches_completed f) as [|[i id] rest] eqn:Eq.
  - cbn [ret holds]. by apply (collecting_ok given taken).
  - destruct (front_batch _ _ _ _ _ _ _ Hf Eq) as (w & bs & Hw & Hok & Hd & Hp & Eid & Hg & Hrest).
    apply holds_bind. cbn [update holds]. rewrite Hw. unfold is_done in Hd.
    assert (exists rs, batch_senders (concat (take taken given)) = Some rs
      /\ collected_results hs rs (headers_it_2 f) (farm_collector f)) as (rs & Hrs & Hc) by by destruct Hf.
    destruct (rw_status w) eqn:Est; try done.
    + unfold pull_results. rewrite decide_True by done. apply holds_bind. cbn [update holds]. apply holds_bind.
      eapply holds_mono; [apply (collect_results_spec (rw_results w) _ rs); [by destruct Hf|exact Hc]|].
      cbn beta. intros _ f' [Hc' Ef']. rewrite Ef' in Hc' |- *. cbn [set_collected headers_it_2 farm_collector] in Hc'.
      pose proof (pull_front _ _ _ _ _ _ _ _ _ _ _ _ Hf Eq Hw Hp Hok Est Eid Hg Hrest Hrs Hc') as Hf'.
      apply holds_bind. eapply holds_mono; [exact (should_stop_ok _ _ _ _ Hf')|]. cbn beta. intros [|] f2 Hf2.
      * cbn [ret holds]. by apply (collecting_ok given (S taken)).
      * by apply (IH (S taken)).
    + cbn [ret holds]. split; [done|]. exists taken, rs. done.
    + destruct Hok as [_ Hok]. by rewrite Est in Hok.
Qed.

Lemma bufferize_ok given taken waiting f : farm_ok given taken waiting f ->
  holds (bufferize_workers_results f) (collecting given waiting).
Proof.
  intros Hf. apply holds_bind. eapply holds_mono; [by apply (bufferize_loop_ok _ given waiting taken)|]. cbn beta. intros s f' Hc.
  apply holds_bind. case_decide as Es; cbn [ret update holds]; [done|]. destruct Hc as [_ Hc]. by split.
Qed.

(** *** A batch is given to a worker *)

Lemma given_at_more given bs' id bs : given_at given id bs -> given_at (given ++ bs') id bs.
Proof. intros [Hid Hg]. split; [done|]. by apply lookup_app_l_Some. Qed.

Lemma worker_ok_more given bs' w : worker_ok given w -> worker_ok (given ++ bs') w.
Proof. pose proof (given_at_more given bs'). intros [Hs Hok]. split; [done|]. destruct (rw_status w); naive_solver. Qed.

Lemma alter_insert {A} (g : A -> A) i x (l : list A) : l !! i = Some x -> alter g i l = <[i := g x]> l.
Proof. revert i. induction l as [|y l IH]; intros [|i] Hl; try done; cbn in *; [by injection Hl as ->|]. f_equal. by apply IH. Qed.

Lemma set_work_ok given taken waiting f i w (renew : bool) : farm_ok given taken waiting f -> waiting <> [] ->
  workers f !! i = Some w -> is_idle w = true ->
  farm_ok (given ++ [waiting]) taken []
    (set_batch (if renew then Some [] else None) (set_farm_batch_id (u32 (farm_batch_id f + 1))
      (set_workers (alter (set_work (farm_batch_id f) (batch_packages waiting)) i (workers f)) f))).
Proof.
  intros Hf Hne Hw Hi. unfold is_idle in Hi. apply bool_decide_eq_true in Hi.
  pose proof (Forall_lookup_1 _ _ _ _ (fo_workers _ _ _ _ Hf) Hw) as [Hs Hok]. rewrite Hi in Hok.
  assert (concat (given ++ [waiting]) ++ [] = concat given ++ waiting) as Eb by (by rewrite concat_app; cbn; rewrite !app_nil_r).
  assert (Forall (fun bs : list block_txns => bs <> []) (given ++ [waiting])) as Hall by (apply Forall_app; split; [by destruct Hf|by constructor]).
  pose proof (length_concat_nonempty _ Hall) as Hlen. rewrite <- (app_nil_r (concat _)), Eb in Hlen.
  rewrite (alter_insert _ i w _ Hw).
  destruct Hf. rewrite length_app in Hlen. cbn [length] in Hlen.
  split; cbn [set_collected set_workers set_completed set_batch set_farm_batch_id db_transaction headers workers batch farm_batch_id
              completed_batch_id batches_completed headers_it_2 farm_collector]; rewrite ?Eb; try done.
  - destruct renew; [by left|by right].
  - rewrite fo_id0, length_app. cbn. unfold u32. rewrite wrap_small by lia. lia.
  - rewrite length_app. lia.
  - apply (queued_other f i (set_work (farm_batch_id f) (batch_packages waiting) w)); [|done].
    apply (queued_not f i w); [done| |done]. left. unfold is_done. by rewrite Hi.
  - apply Forall_insert; [eapply Forall_impl; [exact fo_workers0|intros; by apply worker_ok_more]|].
    split; [done|]. cbn [set_work rw_status rw_point rw_batch_id rw_batch]. split; [done|]. exists waiting. split; [|by left].
    split; [lia|]. rewrite fo_id0, Nat2Z.id. rewrite lookup_app_r by lia. by rewrite Nat.sub_diag.
  - by rewrite take_app_le by lia.
Qed.

Lemma find_worker_spec p l i : find_worker p l = Some i -> exists w, l !! i = Some w /\ p w = true.
Proof.
  revert i. induction l as [|w l IH]; intros i; cbn; [done|]. destruct (p w) eqn:Ep.
  - intros [= <-]. by exists w.
  - destruct (find_worker p l) as [j|]; [|done]. intros [= <-]. by apply IH.
Qed.

Lemma initialize_ok given taken waiting f : farm_ok given taken waiting f ->
  holds (initialize_new_worker f) (fun _ f' => farm_ok given taken waiting f').
Proof.
  intros []. apply holds_bind. cbn [get_farm holds update]. split; try done.
  - eapply Forall_impl; [exact fo_queued0|]. intros item (w & Hw & Hrest). exists w. split; [|done]. by apply lookup_app_l_Some.
  - cbn [workers set_workers]. apply Forall_app. split; [done|]. constructor; [|done]. split; [done|]. by left.
Qed.

Lemma dispatch_loop_ok rounds renew given waiting : waiting <> [] -> forall taken f, farm_ok given taken waiting f ->
  holds (dispatch_loop rounds renew (batch_packages waiting) f)
    (fun s f' => s = Succeded -> exists taken, farm_ok (given ++ [waiting]) taken [] f').
Proof.
  intros Hne. induction rounds as [|rounds IH]; intros taken f Hf; cbn [dispatch_loop]; [done|].
  apply holds_bind. eapply holds_mono; [by apply others_move_ok|]. cbn beta. clear f Hf. intros _ f Hf.
  apply holds_bind. cbn [get_farm holds]. destruct (find_worker is_idle (workers f)) as [i|] eqn:Ei.
  - destruct (find_worker_spec _ _ _ Ei) as (w & Hw & Hi). repeat (apply holds_bind; cbn [update holds]). cbn [ret holds].
    intros _. exists taken. by apply (set_work_ok _ _ _ _ _ w).
  - destruct (find_worker is_done (workers f)).
    + apply holds_bind. eapply holds_mono; [by eapply bufferize_ok|]. cbn beta. intros s f' [Hgo _]. case_decide as Es; [|by intros Es'].
      destruct (Hgo Es) as [taken' Hf']. by apply (IH taken').
    + destruct (_ =? _)%nat; [by apply (IH taken)|]. apply holds_bind. eapply holds_mono; [by apply initialize_ok|].
      cbn beta. intros _ f' Hf'. by apply (IH taken).
Qed.

Lemma batch_packages_nil (bs : list block_txns) : Forall (fun b => snd b <> []) bs -> batch_packages bs = [] -> bs = [].
Proof. destruct bs as [|[n [|txn txns]] bs]; [done| |done]. inversion 1. by subst. Qed.

(** All blocks so far are with the workers, or collected, or in the batch. *)
Definition farm_inv (blocks : list block_txns) f : Prop :=
  exists given taken waiting, farm_ok given taken waiting f /\ concat given ++ waiting = blocks.

Lemma dispatch_batch_ok renew blocks f : farm_inv blocks f ->
  holds (dispatch_batch renew f) (fun s f' => s = Succeded -> exists given taken, farm_ok given taken [] f' /\ concat given = blocks).
Proof.
  intros (given & taken & waiting & Hf & <-). apply holds_bind. eapply holds_mono; [by apply should_stop_ok|].
  cbn beta. clear f Hf. intros [|] f Hf; [by cbn|]. apply holds_bind. cbn [get_farm holds].
  assert (waiting = [] -> exists given' taken', farm_ok given' taken' [] f /\ concat given' = concat given ++ waiting) as Hnil
    by (intros ->; exists given, taken; split; [done|by rewrite app_nil_r]).
  destruct (fo_batch _ _ _ _ Hf) as [Eb|[Eb ->]]; rewrite Eb; [|by cbn; auto].
  destruct (batch_packages waiting) as [|p ps] eqn:Ep.
  - cbn [ret holds]. intros _. apply Hnil. apply batch_packages_nil; [|done].
    destruct Hf. by apply blocks_ok_app in fo_blocks0 as [_ [? _]].
  - assert (waiting <> []) as Hne by by intros ->. rewrite <- Ep. apply holds_bind.
    assert (holds (match workers f with [] => initialize_new_worker | _ => ret tt end f) (fun _ f' => farm_ok given taken waiting f')) as Hi
      by (destruct (workers f); [by apply initialize_ok|done]).
    eapply holds_mono; [exact Hi|]. cbn beta. intros _ f' Hf'.
    eapply holds_mono; [by apply (dispatch_loop_ok _ renew given waiting Hne taken)|]. cbn beta. intros s f2 Hs Es.
    destruct (Hs Es) as [taken2 Hf2]. exists (given ++ [waiting]), taken2. split; [done|]. rewrite concat_app. cbn. by rewrite app_nil_r.
Qed.

(** *** The transactions of a block *)

Lemma fill_loop_ok config rev n txns : forall f b, batch f = Some b ->
  holds (fill_loop config rev n txns f) (fun s f' => s = Succeded -> f' = set_batch (Some (b ++ map (package_of n) txns)) f).
Proof.
  induction txns as [|txn txns IH]; intros f b Hb; cbn [fill_loop map].
  - cbn. intros _. rewrite app_nil_r. destruct f. cbn in *. by subst.
  - destruct (signature_accepted _ _ _); cbn [negb]; [|by cbn]. apply holds_bind. cbn [get_farm holds]. rewrite Hb.
    apply holds_bind. cbn [update holds]. eapply holds_mono; [by apply (IH _ (b ++ [package_of n txn]))|]. cbn beta.
    intros s f' Hs Es. rewrite (Hs Es), <- app_assoc. done.
Qed.

Definition with_txns (n : Z) (txns : list Transaction) : list block_txns := match txns with [] => [] | _ => [(n, txns)] end.

Lemma process_block_ok config n txns blocks f : farm_inv blocks f -> blocks_ok (blocks ++ with_txns n txns) ->
  zlen (blocks ++ with_txns n txns) < 2 ^ 32 ->
  holds (process_block config n txns f) (fun _ f' => farm_inv (blocks ++ with_txns n txns) f').
Proof.
  intros Hf Hok Hfew. unfold process_block. destruct txns as [|txn txns]; [cbn; by rewrite app_nil_r|].
  set (l := txn :: txns) in *. apply holds_bind. cbn [get_farm holds]. destruct (batch f) as [b|]; [|done].
  apply holds_bind. assert (holds ((if max_batch_size f <? zlen b + zlen l then dispatch_batch true else ret Succeded) f)
    (fun s f' => s = Succeded -> farm_inv blocks f')) as Hd.
  { case_goal; [|by cbn]. eapply holds_mono; [by apply dispatch_batch_ok|]. cbn beta. intros s f' Hs Es.
    destruct (Hs Es) as (given & taken & Hf' & Eg). exists given, taken, []. split; [done|by rewrite app_nil_r]. }
  eapply holds_mono; [exact Hd|]. cbn beta. clear f Hf Hd. intros s f Hf. case_bool_decide as Es; [|exact I]. cbn [negb].
  destruct (Hf Es) as (given & taken & waiting & Hf' & <-). apply holds_bind. unfold fill_batch.
  destruct (batch f) as [b'|] eqn:Eb; [|].
  2: { unfold l. cbn [fill_loop]. destruct (signature_accepted _ _ _); cbn [negb]; [|by cbn].
       apply holds_bind. cbn [get_farm holds]. by rewrite Eb. }
  eapply holds_mono; [by apply (fill_loop_ok config _ n l f b')|]. cbn beta. intros s' f' Hs'.
  case_bool_decide as Es'; [|exact I]. cbn [negb ret holds]. rewrite (Hs' Es').
  exists given, taken, (waiting ++ [(n, l)]). split; [|by rewrite app_assoc].
  change (with_txns n l) with [(n, l)] in *. rewrite <- app_assoc in Hok, Hfew.
  destruct Hf'. split; try done. cbn [set_batch batch]. left. f_equal.
  destruct fo_batch0 as [E|[E _]]; [|congruence]. assert (b' = batch_packages waiting) as -> by congruence.
  unfold batch_packages. rewrite map_app, concat_app. cbn. by rewrite app_nil_r.
Qed.

End Shared.

(** ** The blocks that are read *)

Record StoredBlock : Type := mkStoredBlock { sb_num : Z; sb_hash : bytes; sb_txns : list Transaction }.

(** The block is in the tables: its body under its number and hash, its transactions where the body says. *)
Definition is_stored (bodies_table transactions_table : T) (b : StoredBlock) : Prop :=
  exists key data body rest, (key, data) ∈ tb_items bodies_table
    /\ number_at_front key = Ok (sb_num b) /\ bytes_at 8 kHashLength key = Ok (sb_hash b)
    /\ decode_stored_block_body data = Ok (body, rest)
    /\ read_transactions_of transactions_table (base_txn_id body) (txn_count body) = Ok (sb_txns b).

(** The [i]-th number from [from] on. *)
Definition number_from (from : Z) (i : nat) : Z := Nat.iter i (fun n => u64 (n + 1)) from.

(** The blocks have the hashes [hs], as far as they go, and consecutive numbers. *)
Definition consecutive (hs : list bytes) (from : Z) (bs : list StoredBlock) : Prop :=
  map sb_hash bs `prefix_of` hs /\ map sb_num bs = map (number_from from) (seq 0 (length bs)).

(** The blocks that have transactions. *)
Definition txn_blocks (bs : list StoredBlock) : list block_txns := concat (map (fun b => with_txns (sb_num b) (sb_txns b)) bs).

Lemma number_from_S from i : number_from from (S i) = u64 (from + Z.of_nat (S i)).
Proof.
  induction i as [|i IH]; [done|]. change (u64 (number_from from (S i) + 1) = u64 (from + Z.of_nat (S (S i)))).
  rewrite IH, u64_add_l. f_equal. lia.
Qed.

Lemma u64_add_inj x i j : 0 <= i < 2 ^ 32 -> 0 <= j < 2 ^ 32 -> u64 (x + i) = u64 (x + j) -> i = j.
Proof.
  unfold u64, wrap. intros Hi Hj E. pose proof (Z.div_mod (x + i) (2 ^ 64) ltac:(lia)).
  pose proof (Z.div_mod (x + j) (2 ^ 64) ltac:(lia)). nia.
Qed.

Lemma number_from_inj from i j : Z.of_nat i < 2 ^ 32 -> Z.of_nat j < 2 ^ 32 ->
  number_from from i = number_from from j -> i = j.
Proof.
  intros Hi Hj E. assert (forall k, Z.of_nat k < 2 ^ 32 -> number_from from k = number_from from O -> k = O) as H1.
  { intros [|k] Hk Ek; [done|]. rewrite number_from_S in Ek. change (number_from from O) with from in Ek.
    pose proof (u64_range (from + Z.of_nat (S k))). rewrite Ek in *. replace from with (u64 (from + 0)) in Ek by (rewrite Z.add_0_r; by apply u64_small).
    rewrite u64_add_l, <- Z.add_assoc in Ek. apply u64_add_inj in Ek; lia. }
  destruct i as [|i], j as [|j]; [done|symmetry; by apply H1|by apply H1|].
  rewrite !number_from_S in E. apply u64_add_inj in E; lia.
Qed.

Lemma txn_blocks_ok bs : NoDup (map sb_num bs) -> blocks_ok (txn_blocks bs) /\ (length (txn_blocks bs) <= length bs)%nat.
Proof.
  intros Hnd. assert (Forall (fun b => snd b <> []) (txn_blocks bs) /\ map fst (txn_blocks bs) `sublist_of` map sb_num bs) as [Hne Hsub].
  { clear Hnd. unfold txn_blocks. induction bs as [|[n h txns] bs [IH1 IH2]]; cbn [map concat with_txns sb_num sb_txns]; [by split|].
    destruct txns as [|txn txns]; cbn [with_txns app map fst]; [split; [done|by constructor]|]. split; [by constructor|by constructor]. }
  split; [split; [done|by eapply sublist_NoDup]|]. apply sublist_length in Hsub. by rewrite !length_map in Hsub.
Qed.

Lemma consecutive_nodup hs from bs : zlen hs < 2 ^ 32 -> consecutive hs from bs -> NoDup (map sb_num bs).
Proof.
  intros Hfew [[rest ->] ->]. rewrite length_app, length_map in Hfew.
  apply NoDup_fmap_2_strong; [|apply NoDup_seq]. intros i j Hi%elem_of_seq Hj%elem_of_seq. apply number_from_inj; lia.
Qed.

Lemma txn_blocks_snoc bs b : txn_blocks (bs ++ [b]) = txn_blocks bs ++ with_txns (sb_num b) (sb_txns b).
Proof. unfold txn_blocks. rewrite map_app, concat_app. cbn. by rewrite app_nil_r. Qed.

Lemma consecutive_snoc hs from bs b hash rest : hs = map sb_hash bs ++ hash :: rest -> sb_hash b = hash ->
  sb_num b = number_from from (length bs) -> consecutive hs from bs -> consecutive hs from (bs ++ [b]).
Proof.
  intros Eh Ehash En [_ Enum]. split.
  - exists rest. rewrite Eh, map_app, <- app_assoc. cbn. by rewrite Ehash.
  - rewrite map_app, Enum, length_app. cbn [length]. rewrite Nat.add_1_r, seq_S, map_app. cbn. by rewrite En.
Qed.

(** The blocks are all that there are: they have all the hashes, or the table has no body for the next one. *)
Definition all_read (bodies_table : T) (hs : list bytes) (from : Z) (bs : list StoredBlock) : Prop :=
  map sb_hash bs = hs
  \/ exists hash rest, hs = map sb_hash bs ++ hash :: rest
       /\ forall data, (block_key_hash (from + zlen bs) hash, data) ∉ tb_items bodies_table.

(** What the loop over the bodies has done: the blocks, all of them if it ended without a status and was not stopped. *)
Definition read_blocks (tx : Txn T) (hs : list bytes) bodies_table transactions_table from (early : option FarmStatus) f : Prop :=
  exists bs, Forall (is_stored bodies_table transactions_table) bs /\ consecutive hs from bs
    /\ farm_inv tx hs (txn_blocks bs) f
    /\ (early = None -> stop_requested f = true \/ all_read bodies_table hs from bs).

Lemma should_stop_inv tx hs blocks f : farm_inv tx hs blocks f ->
  holds (should_stop f) (fun stop f' => farm_inv tx hs blocks f' /\ (stop = true -> stop_requested f' = true)).
Proof.
  intros (given & taken & waiting & Hf & Eb). apply holds_bind.
  eapply holds_mono; [by apply (others_move_ok tx hs given taken waiting)|]. cbn. intros _ f' Hf'. split; [|done].
  exists given, taken, waiting. by split.
Qed.

(** The numbers of the blocks do not wrap, and hashes have 32 bytes. *)
Record range_fits (hs : list bytes) (from : Z) : Prop := {
  rf_few : zlen hs < 2 ^ 32;
  rf_numbers : 0 <= from /\ from + zlen hs <= 2 ^ 64;
  rf_hashes : Forall (fun h => length h = kHashLength) hs
}.

Lemma number_from_fits hs from i : range_fits hs from -> (i < length hs)%nat -> number_from from i = from + Z.of_nat i.
Proof.
  intros [_ [Hlo Hhi] _] Hi. destruct i as [|i]; [cbn; lia|]. rewrite number_from_S. apply u64_small. lia.
Qed.

(** The bodies of the blocks from the [k]-th on are still ahead of the cursor. *)
Definition ahead (bodies_table : T) (hs : list bytes) (from : Z) (k : nat) (l : list item) : Prop :=
  forall i hash data, (k <= i)%nat -> hs !! i = Some hash -> (block_key_hash (from + Z.of_nat i) hash, data) ∈ tb_items bodies_table ->
    (block_key_hash (from + Z.of_nat i) hash, data) ∈ l.

Lemma key_of_body n hash : wf_u64 n -> length hash = kHashLength ->
  number_at_front (block_key_hash n hash) = Ok n /\ bytes_at 8 kHashLength (block_key_hash n hash) = Ok hash.
Proof.
  intros Hn Hh. unfold block_key_hash. split.
  - unfold number_at_front. rewrite bytes_at_front by apply length_to_be. cbn [result_bind]. by rewrite of_be_to_be_small.
  - unfold bytes_at. rewrite length_app, length_to_be, Hh, Nat.ltb_irrefl.
    assert (drop 8 (to_be 8 n ++ hash) = hash) as -> by (rewrite drop_app_length'; [done|by rewrite length_to_be]).
    rewrite take_ge; [done|lia].
Qed.

(** A row that is not the body of a block from [k'] on is left behind. *)
Lemma ahead_step bodies_table hs from k k' x l : range_fits hs from -> (k <= k')%nat ->
  (forall i hash, (k' <= i)%nat -> hs !! i = Some hash -> number_at_front (fst x) = Ok (from + Z.of_nat i) ->
     bytes_at 8 kHashLength (fst x) = Ok hash -> False) ->
  ahead bodies_table hs from k (x :: l) -> ahead bodies_table hs from k' l.
Proof.
  intros [_ [Hlo Hhi] Hh] Hk Hx Ha i hash data Hi Ehash Hin. pose proof (lookup_lt_Some _ _ _ Ehash) as Hlt.
  rewrite Forall_forall in Hh. specialize (Hh hash (list_elem_of_lookup_2 _ _ _ Ehash)).
  destruct (key_of_body (from + Z.of_nat i) hash) as [En Eh]; [unfold wf_u64; lia|done|].
  apply (Ha i hash data ltac:(lia) Ehash) in Hin as [<-|Hin]%elem_of_cons; [|done]. by destruct (Hx i hash Hi Ehash En Eh).
Qed.

Lemma bodies_loop_ok `{!LmdbLaws T} tx hs config bodies_table transactions_table from : range_fits hs from ->
  forall fuel rc hashes bs l f, Forall (is_stored bodies_table transactions_table) bs -> consecutive hs from bs ->
    hs = map sb_hash bs ++ hashes -> walks (next_row bodies_table) rc l -> (forall x, x ∈ l -> x ∈ tb_items bodies_table) ->
    ahead bodies_table hs from (length bs) l -> farm_inv tx hs (txn_blocks bs) f ->
    holds (bodies_loop fuel config bodies_table transactions_table rc (number_from from (length bs)) hashes f)
      (fun r f' => read_blocks tx hs bodies_table transactions_table from (fst r) f').
Proof.
  intros Hfit. pose proof (rf_few _ _ Hfit) as Hfew.
  induction fuel as [fuel IH] using lt_wf_ind. intros rc hashes bs l f Hst Hco Ehs Hw Hl Hah Hf.
  assert (forall e, rc = Err e -> read_blocks tx hs bodies_table transactions_table from None f) as Hend.
  { intros e ->. exists bs. split_and!; try done. intros _. right. destruct l as [|x l]; [|by destruct Hw].
    destruct hashes as [|hash hashes]; [left; by rewrite app_nil_r in Ehs|]. right. exists hash, hashes. split; [done|]. intros data Hin.
    apply (Hah (length bs) hash data) in Hin; [by apply elem_of_nil in Hin|lia|].
    rewrite Ehs, lookup_app_r, length_map, Nat.sub_diag by (rewrite length_map; lia). done. }
  destruct rc as [x|rc|]; [|destruct fuel; exact (Hend rc eq_refl)|by destruct fuel].
  destruct l as [|y l]; [done|]. cbn [walks] in Hw. destruct Hw as [[= <-] Hw]. pose proof (Hl x ltac:(by left)) as Hin.
  assert (forall z, z ∈ l -> z ∈ tb_items bodies_table) as Hl' by (intros z Hz; apply Hl; by right). destruct x as [key data].
  assert (forall f', farm_inv tx hs (txn_blocks bs) f' -> stop_requested f' = true ->
    read_blocks tx hs bodies_table transactions_table from None f') as Hstop by (intros f' Hf' Es; exists bs; split_and!; auto).
  destruct fuel as [|fuel]; cbn [bodies_loop].
  { apply holds_bind. eapply holds_mono; [by apply should_stop_inv|].
    cbn beta. intros [|] f' [Hf' Es]; [by apply Hstop; [|apply Es]|]. apply holds_bind. unfold lift. by destruct (number_at_front key). }
  apply holds_bind. eapply holds_mono; [by apply should_stop_inv|].
  cbn beta. intros [|] f' [Hf' Es]; [by apply Hstop; [|apply Es]|]. clear f Hf Es Hend.
  apply holds_bind. unfold lift at 1. destruct (number_at_front key) as [n| |] eqn:En; [|done..]. cbn [holds].
  change (mdb_cursor_get bodies_table (Some (key, data)) MDB_NEXT [] []) with (next_row bodies_table (key, data)).
  destruct (Z.ltb_spec n (number_from from (length bs))) as [E1|E1].
  { apply (IH fuel ltac:(lia) _ _ _ l); try done. eapply ahead_step; [exact Hfit|reflexivity| |exact Hah]. cbn [fst].
    intros i hash Hi Ei Ein _. pose proof (lookup_lt_Some _ _ _ Ei) as Hlt. rewrite (number_from_fits hs) in E1 by (done || lia).
    assert (n = from + Z.of_nat i) by congruence. lia. }
  destruct (Z.ltb_spec (number_from from (length bs)) n) as [E2|E2]; [by exists bs|].
  assert (n = number_from from (length bs)) as En' by lia. clear E1 E2.
  destruct hashes as [|hash hashes]; [done|]. apply holds_bind. unfold lift at 1.
  assert (hs !! length bs = Some hash) as Ehash by (rewrite Ehs, lookup_app_r, length_map, Nat.sub_diag by (rewrite length_map; lia); done).
  pose proof (lookup_lt_Some _ _ _ Ehash) as Hlt. pose proof (number_from_fits hs from _ Hfit Hlt) as Enum.
  destruct (bytes_at 8 kHashLength key) as [key_hash| |] eqn:Eh; [|done..]. cbn [holds].
  destruct (bytes_eqb key_hash hash) eqn:Eq; cbn [negb].
  2:{ apply (IH fuel ltac:(lia) _ _ _ l); try done. eapply ahead_step; [exact Hfit|reflexivity| |exact Hah]. cbn [fst].
    intros i hash' Hi Ei Ein Eh'. assert (i = length bs) as -> by (assert (n = from + Z.of_nat i) by congruence; lia).
    assert (key_hash = hash) as -> by congruence. by rewrite (proj2 (bytes_eqb_eq hash hash) eq_refl) in Eq. }
  apply bytes_eqb_eq in Eq as ->.
  apply holds_bind. unfold lift at 1. destruct (throw_err (decode_stored_block_body data)) as [[body rest]| |] eqn:Ed; [|done..]. cbn [holds].
  apply holds_bind. unfold lift at 1. destruct (read_transactions_of _ _ _) as [txns| |] eqn:Et; [|done..]. cbn [holds].
  set (b := mkStoredBlock n hash txns).
  assert (Forall (is_stored bodies_table transactions_table) (bs ++ [b])) as Hst'.
  { apply Forall_app. split; [done|]. constructor; [|done]. exists key, data, body, rest. split_and!; try done.
    unfold throw_err in Ed. destruct (decode_stored_block_body data); congruence. }
  assert (consecutive hs from (bs ++ [b])) as Hco' by (by apply (consecutive_snoc hs from bs b hash hashes)).
  destruct (txn_blocks_ok (bs ++ [b]) (consecutive_nodup _ _ _ Hfew Hco')) as [Hok Hlen].
  destruct (proj1 Hco') as [rest' Ers]. pose proof (f_equal length Ers) as El. rewrite length_app, length_map in El.
  apply holds_bind. rewrite txn_blocks_snoc in Hok, Hlen. cbn [sb_num sb_txns b] in Hok, Hlen.
  eapply holds_mono; [apply (process_block_ok tx hs config n txns _ f' Hf' Hok); lia|]. cbn beta. clear f' Hf' Hstop. intros _ f Hf.
  change (with_txns n txns) with (with_txns (sb_num b) (sb_txns b)) in Hf. rewrite <- txn_blocks_snoc in Hf.
  assert (hs = map sb_hash (bs ++ [b]) ++ hashes) as Ehs' by (by rewrite Ehs, map_app, <- app_assoc).
  destruct hashes as [|hash' hashes].
  { exists (bs ++ [b]). split_and!; try done. intros _. right. left. by rewrite app_nil_r in Ehs'. }
  replace (u64 (number_from from (length bs) + 1)) with (number_from from (length (bs ++ [b])))
    by (rewrite length_app, Nat.add_1_r; done).
  apply (IH fuel ltac:(lia) _ _ _ l); try done. eapply ahead_step; [exact Hfit| | |exact Hah]; [rewrite length_app; lia|]. cbn [fst].
  rewrite length_app. cbn [length]. intros i hash'' Hi Ei Ein _. assert (n = from + Z.of_nat i) by congruence. lia.
Qed.

(** ** Before the first batch *)

(** What holds before it holds after it, also if it throws. *)
Definition keeps (P : Farm T -> Prop) {A} (m : M T A) : Prop := forall f, P f ->
  match m f with Val _ f' | Exn _ f' => P f' | _ => True end.

Section Keeps.
Context (P : Farm T -> Prop).

Lemma keeps_ret {A} (a : A) : keeps P (ret a).
Proof. by intros f Hf. Qed.
Lemma keeps_throw {A} e : keeps P (throw e : M T A).
Proof. by intros f Hf. Qed.
Lemma keeps_undefined {A} : keeps P (undefined : M T A).
Proof. by intros f Hf. Qed.
Lemma keeps_pending {A} : keeps P ((fun _ => Pending) : M T A).
Proof. by intros f Hf. Qed.
Lemma keeps_get : keeps P get_farm.
Proof. by intros f Hf. Qed.
Lemma keeps_lift {A} (r : result DbError A) : keeps P (lift r).
Proof. intros f Hf. unfold lift. by destruct r. Qed.
Lemma keeps_update g : (forall f, P f -> P (g f)) -> keeps P (update g).
Proof. intros Hg f Hf. by apply Hg. Qed.
Lemma keeps_bind {A B} (m : M T A) (k : A -> M T B) : keeps P m -> (forall a, keeps P (k a)) -> keeps P (mbind_ m k).
Proof. intros Hm Hk f Hf. unfold mbind_. specialize (Hm f Hf). destruct (m f); [by apply Hk|done..]. Qed.
Lemma keeps_rounds {A} (loop : nat -> M T A) : (forall n, keeps P (loop n)) -> keeps P (with_rounds loop).
Proof. intros Hl f. apply Hl. Qed.
Lemma keeps_catch (m : M T FarmStatus) : keeps P m -> keeps P (catch_lmdb m).
Proof. intros Hm f Hf. specialize (Hm f Hf). unfold catch_lmdb. destruct (m f) as [| [] | |]; done. Qed.
Lemma keeps_catch_but (m : M T FarmStatus) : keeps P m -> keeps P (catch_lmdb_but_not_found m).
Proof.
  intros Hm f Hf. specialize (Hm f Hf). unfold catch_lmdb_but_not_found, catch_lmdb. destruct (m f); [done| |done..].
  repeat case_match; by simplify_eq.
Qed.

End Keeps.

Lemma move_same i f f' : move_worker i f = Ok f' -> db_transaction f' = db_transaction f /\ headers f' = headers f.
Proof.
  unfold move_worker. intros E. destruct (workers f !! i) as [w|]; [|by injection E as <-]. destruct (rw_point w).
  - destruct (rw_stopping w); [by injection E as <-|]. case_decide; [|by injection E as <-].
    destruct (work_batch w) as [[status rs]| |]; [|done..]. cbn [result_bind] in E. by injection E as <-.
  - destruct (_ =? _); by injection E as <-.
  - by injection E as <-.
  - by injection E as <-.
Qed.

Lemma happen_same events : forall f f', happen events f = Ok f' -> db_transaction f' = db_transaction f /\ headers f' = headers f.
Proof.
  induction events as [|[i|] events IH]; intros f f'; cbn [happen].
  - by intros [= <-].
  - destruct (move_worker i f) as [f1| |] eqn:Em; [|done..]. cbn [result_bind]. intros [-> ->]%IH. by apply move_same in Em.
  - by intros [-> ->]%IH.
Qed.

(** A request to stop stays. *)
Lemma move_stop i f f' : move_worker i f = Ok f' -> stop_requested f' = stop_requested f.
Proof.
  unfold move_worker. intros E. destruct (workers f !! i) as [w|]; [|by injection E as <-]. destruct (rw_point w).
  - destruct (rw_stopping w); [by injection E as <-|]. case_decide; [|by injection E as <-].
    destruct (work_batch w) as [[status rs]| |]; [|done..]. cbn [result_bind] in E. by injection E as <-.
  - destruct (_ =? _); by injection E as <-.
  - by injection E as <-.
  - by injection E as <-.
Qed.

Lemma happen_stop events : forall f f', happen events f = Ok f' -> stop_requested f = true -> stop_requested f' = true.
Proof.
  induction events as [|[i|] events IH]; intros f f'; cbn [happen].
  - by intros [= <-].
  - destruct (move_worker i f) as [f1| |] eqn:Em; [|done..]. cbn [result_bind]. intros E Hs. apply (IH f1 f' E). by rewrite (move_stop _ _ _ Em).
  - intros E _. by apply (IH _ _ E).
Qed.

Lemma should_stop_stays f : stop_requested f = true -> holds (should_stop f) (fun stop _ => stop = true).
Proof.
  intros Hs. unfold should_stop, others_move, mbind_. destruct (schedule f) as [|events rest]; [done|].
  destruct (happen _ _) as [f'| |] eqn:E; [|done..]. cbn. by apply (happen_stop _ _ _ E).
Qed.

(** Nothing is given to a worker. *)
Definition fresh f : Prop := farm_ok (db_transaction f) (headers f) [] 0 [] f.

Lemma fresh_others_move : keeps fresh others_move.
Proof.
  intros f Hf. pose proof (others_move_ok _ _ _ _ _ _ Hf) as Ho. unfold others_move in *.
  destruct (schedule f) as [|events rest]; [done|]. destruct (happen _ _) as [f'| |] eqn:Eh; [|done..].
  apply happen_same in Eh as [E1 E2]. cbn in *. unfold fresh. by rewrite E1, E2.
Qed.
Lemma fresh_set_txn txn : keeps fresh (update (set_txn txn)).
Proof. apply keeps_update. intros f []. by split. Qed.
Lemma fresh_set_headers l : keeps fresh (update (set_headers l)).
Proof.
  apply keeps_update. intros f []. split; try done. exists []. split; [done|]. split; [done|]. split; [cbn; lia|].
  destruct fo_collected0 as (rs & [= <-] & _ & _ & Hc). cbn [headers set_headers]. destruct l, (headers f); exact Hc.
Qed.
Lemma fresh_init_batch : keeps fresh init_batch.
Proof. apply keeps_update. intros f []. split; try done. by left. Qed.

(** The headers stay what they are. *)
Definition has_headers hs f : Prop := headers f = hs.

Lemma headers_others_move hs : keeps (has_headers hs) others_move.
Proof.
  intros f Hf. unfold others_move, has_headers in *. destruct (schedule f) as [|events rest]; [done|].
  destruct (happen _ _) as [f'| |] eqn:Eh; [|done..]. apply happen_same in Eh as [_ ->]. exact Hf.
Qed.

End Farms.

Create HintDb keeps.
#[export] Hint Resolve keeps_ret keeps_throw keeps_undefined keeps_pending keeps_get keeps_lift fresh_others_move fresh_set_txn
  fresh_set_headers fresh_init_batch headers_others_move : keeps.

(** Through the binds and the case distinctions of a definition. *)
Ltac keep := repeat first
  [ solve [auto with keeps]
  | apply keeps_bind; [|let a := fresh "a" in intros a]
  | progress cbv zeta
  | match goal with
    | |- keeps _ (match ?x with _ => _ end) => destruct x
    | |- keeps _ (catch_lmdb _) => apply keeps_catch
    | |- keeps _ (catch_lmdb_but_not_found _) => apply keeps_catch_but
    | |- keeps _ (with_rounds _) => apply keeps_rounds; let n := fresh "n" in intros n
    | |- keeps (has_headers _) (update _) => apply keeps_update; intros ? Hh; exact Hh
    end ].

Section Recovery.
Context {T : Type} `{Lmdb T} `{Secp256k1}.
Implicit Types f : Farm T.

Lemma fresh_should_stop : keeps (T := T) fresh should_stop.
Proof. unfold should_stop. keep. Qed.
#[local] Hint Resolve fresh_should_stop : keeps.

Lemma fresh_unwind_loop fuel : forall (t : T) rc n, keeps fresh (unwind_loop fuel t rc n).
Proof. induction fuel as [|fuel IH]; intros t rc n; cbn [unwind_loop]; keep; apply IH. Qed.
#[local] Hint Resolve fresh_unwind_loop : keeps.

Lemma fresh_unwind n : keeps (T := T) fresh (unwind n).
Proof. unfold unwind, set_progress. keep. Qed.
#[local] Hint Resolve fresh_unwind : keeps.

Lemma fresh_range height_from height_to force : keeps (T := T) fresh (recovery_range height_from height_to force).
Proof. unfold recovery_range. keep. Qed.

Lemma fresh_headers height_from height_to : keeps (T := T) fresh (fill_canonical_headers height_from height_to).
Proof. unfold fill_canonical_headers. keep. Qed.

Context (hs : list bytes).

Lemma headers_should_stop : keeps (T := T) (has_headers hs) should_stop.
Proof. unfold should_stop. keep. Qed.
#[local] Hint Resolve headers_should_stop : keeps.

Lemma headers_collect results : keeps (T := T) (has_headers hs) (collect_results results).
Proof. induction results as [|[n d] results IH]; cbn [collect_results]; keep. Qed.
#[local] Hint Resolve headers_collect : keeps.

Lemma headers_bufferize : keeps (T := T) (has_headers hs) bufferize_workers_results.
Proof.
  unfold bufferize_workers_results. keep. induction n as [|n IH]; cbn [bufferize_loop]; keep.
Qed.
#[local] Hint Resolve headers_bufferize : keeps.

Lemma headers_dispatch_loop renew b n : keeps (T := T) (has_headers hs) (dispatch_loop n renew b).
Proof. induction n as [|n IH]; cbn [dispatch_loop]; unfold initialize_new_worker; keep. Qed.
#[local] Hint Resolve headers_dispatch_loop : keeps.

Lemma headers_dispatch renew : keeps (T := T) (has_headers hs) (dispatch_batch renew).
Proof. unfold dispatch_batch, initialize_new_worker, init_batch. keep. Qed.
#[local] Hint Resolve headers_dispatch : keeps.

Lemma headers_fill config rev n txns : keeps (T := T) (has_headers hs) (fill_loop config rev n txns).
Proof. induction txns as [|txn txns IH]; cbn [fill_loop]; keep. Qed.
#[local] Hint Resolve headers_fill : keeps.

Lemma headers_process config n txns : keeps (T := T) (has_headers hs) (process_block config n txns).
Proof. unfold process_block, fill_batch. keep. Qed.
#[local] Hint Resolve headers_process : keeps.

Lemma headers_bodies config (bt tt : T) fuel : forall rc e l, keeps (has_headers hs) (bodies_loop fuel config bt tt rc e l).
Proof. induction fuel as [|fuel IH]; intros rc e l; cbn [bodies_loop]; keep; apply IH. Qed.

End Recovery.

Section Theorems.
Context {T : Type} `{LmdbLaws T} `{Secp256k1}.
Implicit Types f : Farm T.

Lemma holds_keeps {A} P (m : M T A) f : keeps P m -> P f -> holds (m f) (fun _ f' => P f').
Proof. intros Hm Hf. specialize (Hm f Hf). by destruct (m f). Qed.

Lemma holds_and {A} (r : Run T A) P Q (C : Prop) : holds r P -> (C -> holds r Q) -> holds r (fun a f => P a f /\ (C -> Q a f)).
Proof. destruct r; cbn; auto. Qed.

(** When everything is dispatched: the blocks of the tables from [from] on, all of them, and where they are. *)
Definition dispatched (txn : Txn T) (from to : Z) f : Prop :=
  exists bodies_table transactions_table bs given taken,
    db_transaction f = txn /\ canonical_headers txn from to = Ok (Succeded, headers f) /\ zlen (headers f) = to - from + 1
    /\ open_table kBlockBodies txn = Ok bodies_table /\ open_table kEthTx txn = Ok transactions_table
    /\ Forall (is_stored bodies_table transactions_table) bs /\ consecutive (headers f) from bs
    /\ all_read bodies_table (headers f) from bs
    /\ farm_ok txn (headers f) given taken [] f /\ concat given = txn_blocks bs.

Lemma dispatch_stopped f : stop_requested f = true -> holds (dispatch_batch false f) (fun s _ => s <> Succeded).
Proof.
  intros Hs. apply holds_bind. eapply holds_mono; [by apply should_stop_stays|]. cbn beta. intros stop f' ->. by cbn.
Qed.

Lemma dispatch_rest tx hs bodies_table transactions_table from to f :
  canonical_headers tx from to = Ok (Succeded, hs) -> (zlen hs < 2 ^ 32 -> zlen hs = to - from + 1) ->
  open_table kBlockBodies tx = Ok bodies_table -> open_table kEthTx tx = Ok transactions_table ->
  has_headers hs f -> (zlen hs < 2 ^ 32 -> read_blocks tx hs bodies_table transactions_table from None f) ->
  holds ((do status <- dispatch_batch false; if negb (bool_decide (status = Succeded)) then throw RuntimeError else ret (None : option FarmStatus)) f)
    (fun r f => zlen (headers f) < 2 ^ 32 -> dispatched tx from to f).
Proof.
  intros Ec Hlen Eb Et Hh Hf. apply holds_bind.
  assert (holds (dispatch_batch false f) (fun s f' => has_headers hs f' /\ (zlen hs < 2 ^ 32 ->
    exists bs, Forall (is_stored bodies_table transactions_table) bs /\ consecutive hs from bs
      /\ (s = Succeded -> all_read bodies_table hs from bs
          /\ exists given taken, farm_ok tx hs given taken [] f' /\ concat given = txn_blocks bs)))) as Hd.
  { apply holds_and; [exact (holds_keeps (has_headers hs) _ f (headers_dispatch hs false) Hh)|]. intros Hfew.
    destruct (Hf Hfew) as (bs & Hst & Hco & Hinv & Hall). pose proof (dispatch_batch_ok tx hs false _ f Hinv) as Hd.
    pose proof (dispatch_stopped f) as Hs. destruct (dispatch_batch false f) as [s f'| | |]; [|done..]. cbn [holds] in *.
    exists bs. split; [done|]. split; [done|]. intros ->. split; [|by apply Hd].
    destruct (Hall eq_refl) as [Hstop|?]; [by destruct (Hs Hstop)|done]. }
  eapply holds_mono; [exact Hd|]. cbn beta. intros s f' [Hh' Hs]. case_bool_decide as Es; [|exact I]. cbn [negb ret holds].
  intros Hfew. rewrite Hh' in Hfew. destruct (Hs Hfew) as (bs & Hst & Hco & Hg). destruct (Hg Es) as (Hall & given & taken & Hok & Eg).
  assert (db_transaction f' = tx) as Etx by by destruct Hok.
  exists bodies_table, transactions_table, bs, given, taken. rewrite Hh', Etx. split_and!; auto.
Qed.

(** The hashes of the headers are whole. *)
Lemma headers_loop_hashes (t : T) fuel : forall rc expected reached l status reached' l', Forall (fun h => length h = kHashLength) l ->
  headers_loop fuel t rc expected reached l = Ok (status, reached', l') -> Forall (fun h => length h = kHashLength) l'.
Proof.
  induction fuel as [|fuel IH]; intros rc expected reached l status reached' l' Hl; cbn [headers_loop].
  all: destruct rc as [[key data]|[]|]; try done; try (by intros [= <- <- <-]).
  all: destruct (number_at_front key) as [n| |]; [|done..]; cbn [result_bind].
  all: destruct (negb (n =? expected)); [by intros [= <- <- <-]|].
  all: destruct (Nat.eqb_spec (length data) kHashLength) as [Ed|]; cbn [negb]; [|by intros [= <- <- <-]].
  - done.
  - apply IH. apply Forall_app. by split; [|constructor].
Qed.

Lemma canonical_headers_hashes (txn : Txn T) from to l : canonical_headers txn from to = Ok (Succeded, l) -> Forall (fun h => length h = kHashLength) l.
Proof.
  unfold canonical_headers. destruct (open_table kCanonicalHashes txn) as [t| |]; [|done..]. cbn [result_bind].
  destruct (seek_exact t (block_key from)) as [x|[]|]; try done.
  all: destruct (headers_loop _ _ _ _ _ _) as [[[status reached] l']| |] eqn:El; [|done..]; cbn [result_bind].
  all: case_bool_decide; cbn [negb]; [|by intros [= -> ->]].
  all: destruct (negb (reached =? to)); [done|]; intros [= <-]; by apply (headers_loop_hashes _ _ _ _ _ _ _ _ _ (Forall_nil_2 _) El).
Qed.

(** The range that is recovered is one of block numbers. *)
Lemma recovery_range_fits height_from height_to force f : 0 <= height_from -> height_to < 2 ^ 64 ->
  holds (recovery_range height_from height_to force f) (fun r _ => forall from to, r = inr (from, to) -> 0 <= from <= to /\ to < 2 ^ 64).
Proof.
  intros Hf Ht. apply holds_bind. cbn [get_farm holds]. apply holds_bind. unfold lift at 1.
  destruct (get_stage_progress _ kSendersKey) as [[stage_height txn]| |]; [|done..]. cbn [holds]. apply holds_bind. cbn [update holds].
  set (from0 := if u64 (stage_height + 1) <? height_from then _ else _).
  pose proof (u64_range (stage_height + 1)) as Hu. assert (0 <= from0) as Hfrom0 by (unfold from0; case_match; lia).
  apply holds_bind. match goal with |- holds ?m _ => assert (holds m (fun r _ => 0 <= snd r)) as Hm end.
  { case_match; [|by cbn]. destruct force; [|cbn; lia]. apply holds_bind. destruct (unwind _ _); by cbn. }
  eapply holds_mono; [exact Hm|]. cbn beta. intros [status from1] f1 Hfrom. cbn [snd] in Hfrom.
  case_bool_decide; cbn [negb]; [|by cbn]. apply holds_bind. cbn [get_farm holds]. apply holds_bind. unfold lift at 1.
  destruct (get_stage_progress _ kBlockBodiesKey) as [[blocks_height txn1]| |]; [|done..]. cbn [holds]. apply holds_bind. cbn [update holds].
  destruct ((blocks_height <? height_to) && (blocks_height <? from1)); [by cbn|]. set (to1 := if blocks_height <? height_to then _ else _).
  assert (to1 < 2 ^ 64) as Hto by (unfold to1; destruct (Z.ltb_spec blocks_height height_to); lia).
  destruct (Z.ltb_spec to1 from1); [by cbn|]. cbn. intros from to [= <- <-]. lia.
Qed.

Lemma bytes_ltb_app_length a : forall b s t, length a = length b -> a <> b -> bytes_ltb (a ++ s) (b ++ t) = bytes_ltb a b.
Proof.
  induction a as [|x a IH]; intros [|y b] s t Hl Hne; try done. cbn [app bytes_ltb].
  destruct (decide (x = y)) as [->|Hxy]; [rewrite IH; [done|cbn in Hl; lia|congruence]|].
  destruct (Z.ltb_spec x y), (Z.ltb_spec y x); done || lia.
Qed.

(** Of the rows with a key, the least comes first; all rows with greater keys are behind it. *)
Lemma ahead_start (bt : T) hs from first hs' x : range_fits hs from -> hs = first :: hs' ->
  seek_exact bt (block_key_hash from first) = Ok x ->
  exists l, walks (next_row bt) (Ok x) l /\ (forall y, y ∈ l -> y ∈ tb_items bt) /\ ahead bt hs from 0 l.
Proof.
  intros [Hfew [Hlo Hhi] Hh] Ehs Ex. assert (block_key_hash from first <> []) as Hne by (unfold block_key_hash; by destruct (to_be 8 from) eqn:E; [apply (f_equal length) in E; rewrite length_to_be in E|]).
  pose proof (get_set bt None (block_key_hash from first) [] Hne) as Hset. unfold seek_exact in Ex. rewrite Ex in Hset.
  destruct Hset as (Hx & Ek & Hleast).
  destruct (walk_from bt (Ok x) (fun y => negb (item_ltb y x))) as (l & Hw & Hin & _ & _).
  - intros y z _ _ Hy Hyz. apply negb_true_iff. destruct (item_ltb z x) eqn:E; [|done].
    by rewrite (item_ltb_trans _ _ _ Hyz E) in Hy.
  - cbn. split; [done|]. split; [by rewrite item_ltb_irrefl|]. intros y _ Hy. by apply negb_true_iff.
  - exists l. split; [done|]. split; [intros y Hy; by apply Hin|]. intros i hash data _ Ei Hd. apply Hin. split; [done|]. apply negb_true_iff.
    pose proof (lookup_lt_Some _ _ _ Ei) as Hlt. destruct i as [|i].
    + rewrite Ehs in Ei. injection Ei as <-. rewrite Z.add_0_r in *. by apply Hleast.
    + unfold item_ltb. rewrite Ek. cbn [fst snd]. unfold block_key_hash. apply orb_false_iff.
      assert (bytes_ltb (to_be 8 (from + Z.of_nat (S i))) (to_be 8 from) = false
              /\ to_be 8 (from + Z.of_nat (S i)) <> to_be 8 from) as [Hlt8 Hne8].
      { change (to_be 8) with block_key. split; [rewrite block_key_order by (unfold wf_u64; lia); apply Z.ltb_ge; lia|].
        intros E. pose proof (block_key_order from (from + Z.of_nat (S i)) ltac:(unfold wf_u64; lia) ltac:(unfold wf_u64; lia)) as Ho.
        rewrite E, bytes_ltb_irrefl in Ho. symmetry in Ho. apply Z.ltb_ge in Ho. lia. }
      split; [rewrite bytes_ltb_app_length; [done|by rewrite !length_to_be|done]|]. apply andb_false_iff. left. apply not_true_iff_false.
      intros E%bytes_eqb_eq. apply app_inj_1 in E as [E _]; [done|by rewrite !length_to_be].
Qed.

Lemma recover_blocks_ok config height_from height_to force f_start : 0 <= height_from -> height_to < 2 ^ 64 -> fresh f_start ->
  holds (recover_blocks config height_from height_to force f_start) (fun r f1 => r = None -> zlen (headers f1) < 2 ^ 32 ->
    exists from to f0, recovery_range height_from height_to force f_start = Val (inr (from, to)) f0 /\ dispatched (db_transaction f0) from to f1).
Proof.
  intros Hhf Hht Hf. apply holds_bind. pose proof (recovery_range_fits height_from height_to force f_start Hhf Hht) as Hr.
  pose proof (holds_keeps _ _ f_start (fresh_range height_from height_to force) Hf) as Hf0.
  destruct (recovery_range height_from height_to force f_start) as [r f0| | |] eqn:Er; [|done..]. cbn [holds] in *. clear Hf.
  destruct r as [s|[from to]]; [by cbn|]. destruct (Hr from to eq_refl) as [Hft Hto]. clear Hr. set (tx := db_transaction f0).
  apply holds_bind. pose proof (holds_keeps _ _ f0 (fresh_headers from to) Hf0) as Hf.
  assert (holds (fill_canonical_headers from to f0) (fun s f => s = Succeded -> db_transaction f = tx /\ canonical_headers tx from to = Ok (Succeded, headers f))) as Hh.
  { unfold fill_canonical_headers. apply holds_bind. cbn [get_farm holds]. fold tx.
    destruct (canonical_headers tx from to) as [[s l]|[]|]; try done; by cbn; intros ->. }
  destruct (fill_canonical_headers from to f0) as [s f| | |]; [|done..]. cbn [holds] in *.
  case_bool_decide as Es; cbn [negb]; [|by cbn]. destruct (Hh Es) as [Etx Ec]. clear Hh s Es. apply holds_bind. cbn [get_farm holds].
  destruct (Z.eqb_spec (zlen (headers f)) (u64 (to - from + 1))) as [Elen|]; cbn [negb]; [|by cbn]. apply holds_bind. unfold lift at 1. rewrite Etx.
  destruct (open_table kBlockBodies tx) as [bt| |] eqn:Eb; [|done..]. cbn [holds]. apply holds_bind. unfold lift at 1.
  destruct (open_table kEthTx tx) as [tt| |] eqn:Et; [|done..]. cbn [holds].
  destruct (headers f) as [|first hs'] eqn:Eh; [done|]. rewrite <- Eh in *. set (hs := headers f) in *.
  assert (zlen hs = to - from + 1) as Hlen.
  { assert (0 < zlen hs) as Hpos by (rewrite Eh; cbn; lia). destruct (decide (to - from + 1 = 2 ^ 64)) as [E|Hne].
    - rewrite E in Elen. change (u64 (2 ^ 64)) with 0 in Elen. lia.
    - rewrite u64_small in Elen by lia. done. }
  assert (zlen hs < 2 ^ 32 -> range_fits hs from) as Hfit
    by (intros Hfew; split; [done|lia|by apply (canonical_headers_hashes tx from to)]).
  destruct (seek_exact bt (block_key_hash from first)) as [x|rc|] eqn:Ex; [|by cbn|].
  - apply holds_bind. unfold init_batch at 1. cbn [update holds]. apply holds_bind.
    assert (fresh (set_batch (Some []) f)) as Hf' by exact (fresh_init_batch f Hf). set (f' := set_batch (Some []) f) in *.
    assert (farm_ok tx hs [] 0 [] f') as Hok by (unfold fresh in Hf'; cbn in Hf'; by rewrite Etx in Hf').
    assert (holds (bodies_loop (rows bt) config bt tt (Ok x) from hs f') (fun r f2 => has_headers hs f2
      /\ (zlen hs < 2 ^ 32 -> read_blocks tx hs bt tt from (fst r) f2))) as Hl.
    { apply holds_and; [by apply holds_keeps; [apply headers_bodies|]|]. intros Hfew. specialize (Hfit Hfew).
      destruct (ahead_start bt hs from first hs' x Hfit Eh Ex) as (l & Hw & Hl & Hah).
      refine (bodies_loop_ok tx hs config bt tt from Hfit (rows bt) (Ok x) hs [] l f' _ _ _ Hw Hl Hah _); [constructor| |done|].
      - split; [apply prefix_nil|done].
      - by exists [], O, []. }
    eapply holds_mono; [exact Hl|].
    cbn beta. intros [early rc] f2 [Hh2 Hrd]. cbn [fst] in Hrd.
    destruct early as [s'|]; [by cbn|].
    pose proof (dispatch_rest tx hs bt tt from to f2 Ec (fun _ => Hlen) Eb Et Hh2 Hrd) as Hd.
    destruct rc as [y|rc|].
    + eapply holds_mono; [exact Hd|]. cbn beta. intros _ f3 Hd3 _ Hfew. exists from, to, f0. auto.
    + case_decide; [|by cbn]. eapply holds_mono; [exact Hd|]. cbn beta. intros _ f3 Hd3 _ Hfew. exists from, to, f0. auto.
    + eapply holds_mono; [exact Hd|]. cbn beta. intros _ f3 Hd3 _ Hfew. exists from, to, f0. auto.
  - exfalso. pose proof (get_set bt None (block_key_hash from first) []) as Hl. unfold seek_exact in Ex. rewrite Ex in Hl.
    by apply Hl.
Qed.

Lemma wait_loop_ok tx hs given taken n : forall f, farm_ok tx hs given taken [] f ->
  holds (wait_loop n f) (fun _ f' => farm_ok tx hs given taken [] f').
Proof.
  induction n as [|n IH]; intros f Hf; cbn [wait_loop]; [done|]. apply holds_bind.
  eapply holds_mono; [by apply others_move_ok|]. cbn beta. clear f Hf. intros _ f Hf. apply holds_bind. cbn [get_farm holds].
  destruct (find_worker _ _); [by apply IH|done].
Qed.

Lemma wait_ok tx hs given taken f : farm_ok tx hs given taken [] f ->
  holds (wait_workers_completion f) (fun _ f' => farm_ok tx hs given taken [] f').
Proof. intros Hf. apply holds_bind. cbn [get_farm holds]. destruct (workers f); [done|]. by apply wait_loop_ok. Qed.

(** The entry of a block that has transactions: its own key, and the addresses that its transactions recover. *)
Definition entry_of_block (b : StoredBlock) (e : Entry) : Prop :=
  entry_key e = block_key_hash (sb_num b) (sb_hash b) /\ block_senders (sb_txns b) = Some (entry_value e).

Lemma entries_of_blocks bs : forall hs rs, Forall (fun b => sb_txns b <> []) bs -> map sb_hash bs `prefix_of` hs ->
  batch_senders (txn_blocks bs) = Some rs -> Forall2 entry_of_block bs (zip_with sender_entry hs rs).
Proof.
  induction bs as [|[n h txns] bs IH]; intros hs rs Hne [rest ->]; unfold batch_senders.
  - intros [= <-]. destruct rest; constructor.
  - inversion Hne as [|? ? Hn Hne']; subst. cbn [sb_txns] in Hn. destruct txns as [|txn txns]; [done|].
    cbn [txn_blocks map concat with_txns sb_num sb_txns app mapM fst snd]. intros E.
    destruct (block_senders (txn :: txns)) as [d|] eqn:Ed; [|done]. cbn [fmap option_fmap option_map mbind option_bind] in E.
    destruct (mapM _ _) as [l|] eqn:El; [|done]. injection E as <-. cbn [map sb_hash app zip_with]. constructor; [by split|].
    apply IH; [done|by exists rest|exact El].
Qed.

Lemma txn_blocks_take n bs : Forall (fun b => sb_txns b <> []) bs -> take n (txn_blocks bs) = txn_blocks (take n bs).
Proof.
  intros Hne. revert n. induction Hne as [|[m h txns] bs Hn _ IH]; intros [|n]; try done. cbn [sb_txns] in Hn.
  destruct txns as [|txn txns]; [done|]. cbn. f_equal. apply IH.
Qed.


End Theorems.

(** ** Demonstrations

    Two blocks, or three, of one transaction each or of none; every signature has a key, unless its y is odd. *)

Definition some_key : Secp256k1 := fun _ odd _ => if (odd : bool) then None else Some (4 :: repeat 1 64).
Definition farm_config : ChainConfig := mkChainConfig 1 kNoProof (pad_forks []) None None.
Definition farm_hash (n : Z) : bytes := repeat (10 + n) kHashLength.

Definition farm_txn (odd : bool) : Transaction := mkTransaction None 0 1 21000 None 0 [] odd None 1 1 [] None.

Definition rows_of (l : list (bytes * bytes)) : RefTable := RefPlain (list_to_map l).

(** The blocks 1, 2, ... have the transactions [blocks], of which the first has the number [base]. *)
Fixpoint bodies_of (n base : Z) (blocks : list (list bool)) : list (bytes * bytes) * list (bytes * bytes) :=
  match blocks with
  | [] => ([], [])
  | b :: blocks =>
      let '(bodies, txns) := bodies_of (n + 1) (base + zlen b) blocks in
      ((block_key_hash n (farm_hash n), encode_stored_body (mkBlockBodyForStorage base (zlen b) [])) :: bodies,
       imap (fun i odd => (to_be 8 (base + Z.of_nat i), rlp_encode (farm_txn odd))) b ++ txns)
  end.

(** The canonical hashes go up to [top]. *)
Definition farm_tables (top : nat) (blocks : list (list bool)) : Txn RefTable :=
  let '(bodies, txns) := bodies_of 1 0 blocks in
  mkTxn false (list_to_map
    [(config_name kCanonicalHashes, rows_of (map (fun n => (block_key (Z.of_nat n), farm_hash (Z.of_nat n))) (seq 1 top)));
     (config_name kBlockBodies, rows_of bodies); (config_name kEthTx, rows_of txns);
     (config_name kSyncStageProgress, rows_of [(chars kBlockBodiesKey, to_be 8 (zlen blocks))])]).

(** What [recover] does with the blocks from 1 on, with one worker. *)
Definition farm_run (top : nat) (blocks : list (list bool)) (batch_size : Z) (schedule : list (list Event)) : Run RefTable FarmStatus :=
  let _ := some_key in
  (do early <- recover_blocks farm_config 1 (zlen blocks) false;
   match early with Some status => ret status | None => finish Succeded end)
    (new_farm (farm_tables top blocks) 1 batch_size schedule).

(** The status and the rows of the table of senders, or [None] if it is undefined what happens. *)
Definition farm_end (r : Run RefTable FarmStatus) : option (FarmStatus * list (bytes * bytes)) :=
  match r with
  | Val status f => Some (status, match txn_tables (db_transaction f) !! config_name kSenders with
                                  | Some t => elements (tb_items t) | None => [] end)
  | _ => None
  end.

Definition moves (n : nat) : list Event := repeat (WorkerMoves 0) n.

(** The worker has computed, signalled and reset its batch before every access of the main thread. *)
Definition prompt : list (list Event) := repeat (moves 3) 20.

(** The row of a block with one transaction. *)
Definition farm_row (n hash : Z) : bytes * bytes :=
  (block_key_hash n (farm_hash hash), drop 12 (keccak256 (repeat 1 64))).

(** The senders of two blocks. *)
Example farm_demo : farm_end (farm_run 2 [[false]; [false]] 1000 prompt) = Some (Succeded, [farm_row 2 2; farm_row 1 1]).
Proof. vm_compute. reflexivity. Qed.

(** A worker that is ready but has not signalled when the main thread has waited for it: its results are not in the table,
    and the status is the same as above. *)
Theorem ready_results_lost : exists schedule, farm_end (farm_run 2 [[false]; [false]] 1000 schedule) = Some (Succeded, []).
Proof. exists (repeat [] 4 ++ [moves 1] ++ repeat [] 8 ++ prompt). vm_compute. reflexivity. Qed.

(** A worker whose results are taken between its signal and the reset of its batch: it resets the batch that it was given
    meanwhile, and then reads what is not there. *)
Theorem given_batch_destroyed : exists schedule, farm_run 2 [[false]; [false]] 1 schedule = Bad.
Proof. exists (repeat [] 5 ++ [moves 2] ++ repeat [] 5 ++ prompt). vm_compute. reflexivity. Qed.

(** The second signature has no key: the recovery succeeds. *)
Example error_of_last_batch : farm_end (farm_run 2 [[false]; [true]] 1000 prompt) = Some (Succeded, []).
Proof. vm_compute. reflexivity. Qed.

(** Block 1 has no transactions: the senders of block 2 are stored under the hash of block 1. *)
Example next_header_taken : farm_end (farm_run 2 [[]; [false]] 1000 prompt) = Some (Succeded, [farm_row 2 1]).
Proof. vm_compute. reflexivity. Qed.

(** There is a canonical hash above the last block that is asked for. *)
Example headers_go_on : farm_end (farm_run 3 [[false]; [false]] 1000 prompt) = Some (HeaderNotFound, []).
Proof. vm_compute. reflexivity. Qed.

(** A block that is larger than a batch overflows the data of its worker. *)
Example block_over_batch : farm_run 1 [[false; false]] 1 prompt = Bad.
Proof. vm_compute. reflexivity. Qed.

(** *** The witness *)

Definition farm_after {A} (r : Run RefTable A) (f : Farm RefTable) : Farm RefTable := match r with Val _ f => f | _ => f end.

Definition ends_in {A} (r : Run RefTable A) : option A := match r with Val a _ => Some a | _ => None end.

Lemma ends_in_val {A} (r : Run RefTable A) a f : ends_in r = Some a -> r = Val a (farm_after r f).
Proof. destruct r; by intros [= <-]. Qed.

Definition farm_start : Farm RefTable := new_farm (farm_tables 2 [[false]; [false]]) 1 1 prompt.
#[local] Instance demo_key : Secp256k1 := some_key.
Definition farm_read : Farm RefTable := farm_after (recover_blocks farm_config 1 2 false farm_start) farm_start.
Definition farm_waited : Farm RefTable := farm_after (wait_workers_completion farm_read) farm_start.
Definition farm_collected : Farm RefTable := farm_after (bufferize_workers_results farm_waited) farm_start.

