(* ===== verification/Checks.v ===== *)
(** * Checks: cmd/check_blockhashes.cpp, check_tx_lookup.cpp, check_hashstate.cpp, check_pow.cpp, extract_headers.cpp

    The programs that compare tables with what they should hold, and the one that writes headers into a source file.
    A check is a function to the errors that it logs, in their order, and how it ends. Arguments, paths and the lines
    about progress are left out. *)

From stdpp Require Import gmap sets strings.
From S2P Require Import Prelude Util Keccak Rlp Account Transaction Block Chain Ethash Lmdb DbUtil AccessLayer Stages HashState.
Local Open Scope Z_scope.
Local Open Scope silk_scope.

(** ** Reports *)

Inductive Report : Type :=
| HashNotFound (hash : bytes) (block_number : Z)
| HashOfOther (hash : bytes) (height got : Z)
| LookupNotFound (block_number transaction : Z)
| LookupMismatch (hash : bytes) (expected got : Z)
| TransactionsMissing (block_number claimed read : Z)
| KeyNotFound (key : bytes)
| ValueMismatch (expected actual : bytes)
| AboveTarget (block_number : Z) (boundary final_hash mix_hash : bytes)
| MixMismatch (block_number : Z) (computed expected : bytes)
| Thrown (e : DbError).

(** What is reported, and the result. *)
Notation Checking A := (list Report * result DbError A)%type.

Definition done {A} (a : A) : Checking A := ([], Ok a).
Definition report (r : Report) : Checking unit := ([r], Ok tt).
Definition raise {A} (e : DbError) : Checking A := ([], Err e).
Definition undefined {A} : Checking A := ([], Undef).
Definition silently {A} (r : result DbError A) : Checking A := ([], r).

Definition check_bind {A B} (m : Checking A) (f : A -> Checking B) : Checking B :=
  let '(log, r) := m in
  match r with
  | Ok a => let '(log', r') := f a in (log ++ log', r')
  | Err e => (log, Err e)
  | Undef => (log, Undef)
  end.

Notation "'chk' x := m 'in' k" := (check_bind m (fun x => k))
  (at level 200, x pattern, m at level 100, k at level 200, right associativity) : silk_scope.

Section Checks.
Context {T : Type} `{Lmdb T}.

(** [while (!rc) { step; rc = table->get_next(&key, &data); }], and the error that it ended with. A step that answers
    [None] leaves the loop. *)
Fixpoint check_rows {S : Type} (fuel : nat) (t : T) (step : item -> S -> Checking (option S)) (rc : result MdbCode item) (s : S)
  : Checking unit :=
  match rc with
  | Err MDB_NOTFOUND => done tt
  | Err rc => raise (LmdbException rc)
  | Undef => undefined
  | Ok x =>
      chk s := step x s in
      match s with
      | None => done tt
      | Some s =>
          match fuel with
          | O => undefined
          | S fuel => check_rows fuel t step (mdb_cursor_get t (Some x) MDB_NEXT [] []) s
          end
      end
  end.

(** How a program ends: its exit code and what it has reported; [caught] is the code behind an exception. What is not
    an exception object ends the program. *)
Definition run_check (caught : Z) (body : Checking unit) : result unit (Z * list Report) :=
  match body with
  | (log, Ok _) => Ok (0, log)
  | (log, Err (DecodingResultThrown _)) => Err tt
  | (log, Err e) => Ok (caught, log ++ [Thrown e])
  | (log, Undef) => Undef
  end.

(** ** cmd/check_blockhashes.cpp *)

Definition check_hash (blockhashes_table : T) (x : item) (s : unit) : Checking (option unit) :=
  let '(hash_key_view, hash_data_view) := x in
  chk block_data_view := silently (table_get blockhashes_table hash_data_view) in
  chk _ :=
    (match block_data_view with
     | None =>
         chk hash_block_number := silently (number_at_front hash_key_view) in
         report (HashNotFound hash_data_view hash_block_number)
     | Some block_data_view =>
         if bytes_eqb block_data_view hash_key_view then done tt
         else
           chk hash_height := silently (number_at_front hash_key_view) in
           chk block_height := silently (number_at_front block_data_view) in
           report (HashOfOther hash_data_view hash_height block_height)
     end) in
  done (Some tt).

Definition check_blockhashes (txn : Txn T) : result unit (Z * list Report) :=
  run_check (-5)
    (chk canonical_hashes_table := silently (open_table kCanonicalHashes txn) in
     chk blockhashes_table := silently (open_table kHeaderNumbers txn) in
     check_rows (rows canonical_hashes_table) canonical_hashes_table (check_hash blockhashes_table)
       (mdb_cursor_get canonical_hashes_table None MDB_FIRST [] []) tt).

(** ** cmd/check_tx_lookup.cpp *)

(** The number that the table has for a transaction, through the buffer that is kept between calls. *)
Definition check_lookup (hash : bytes) (block_number i expected : Z) (lookup_data : option bytes) (buffer : bytes) : Checking bytes :=
  match lookup_data with
  | None => chk _ := report (LookupNotFound block_number i) in done buffer
  | Some lookup_data =>
      match left_pad (Ext lookup_data) 8 buffer with
      | Ok (lookup_block_data, buffer) =>
          chk actual := silently (number_at_front (view_bytes buffer lookup_block_data)) in
          if actual =? expected then done buffer
          else chk _ := report (LookupMismatch hash expected actual) in done buffer
      | _ => undefined
      end
  end.

(** The loop over the transactions of a block; it answers how many there were. *)
Fixpoint check_transactions (fuel : nat) (transactions_table tx_lookup_table : T) (rc : result MdbCode item)
    (block_number txn_count expected i : Z) (buffer : bytes) : Checking (Z * bytes) :=
  match rc with
  | Undef => undefined
  | Err _ => done (i, buffer)
  | Ok row =>
      if i <? txn_count then
        let hash := keccak256 (snd row) in
        chk lookup_data := silently (table_get tx_lookup_table hash) in
        chk buffer := check_lookup hash block_number i expected lookup_data buffer in
        match fuel with
        | O => undefined
        | S fuel =>
            check_transactions fuel transactions_table tx_lookup_table
              (mdb_cursor_get transactions_table (Some row) MDB_NEXT [] []) block_number txn_count expected (u64 (i + 1)) buffer
        end
      else done (i, buffer)
  end.

(** The state is the expected number and the buffer; [should_stop] answers whether a signal has come by then. *)
Definition check_body (transactions_table tx_lookup_table : T) (should_stop : Z -> bool) (x : item) (s : Z * bytes)
  : Checking (option (Z * bytes)) :=
  let '(expected_block_number, buffer) := s in
  chk block_number := silently (number_at_front (fst x)) in
  chk (body, _) := silently (throw_err (decode_stored_block_body (snd x))) in
  chk buffer :=
    (if 0 <? txn_count body then
       chk (i, buffer) :=
         check_transactions (rows transactions_table) transactions_table tx_lookup_table
           (seek_exact transactions_table (to_be 8 (base_txn_id body))) block_number (txn_count body) expected_block_number 0 buffer in
       chk _ := (if i =? txn_count body then done tt else report (TransactionsMissing block_number (txn_count body) i)) in
       done buffer
     else done buffer) in
  done (if should_stop expected_block_number then None else Some (u64 (expected_block_number + 1), buffer)).

Definition check_tx_lookup (should_stop : Z -> bool) (txn : Txn T) : result unit (Z * list Report) :=
  try bodies_table := open_first kBlockBodies txn in
  try tx_lookup_table := open_first kTxLookup txn in
  try transactions_table := open_first kEthTx txn in
  run_check (-5)
    (check_rows (rows bodies_table) bodies_table (check_body transactions_table tx_lookup_table should_stop)
       (mdb_cursor_get bodies_table None MDB_FIRST [] []) (0, [])).

(** ** cmd/check_hashstate.cpp *)

Definition get_tables_for_checking (operation : Operation) : TableConfig * TableConfig :=
  match operation with
  | HashAccount => (kPlainState, kHashedAccounts)
  | HashStorage => (kPlainState, kHashedStorage)
  | Code => (kPlainContractCode, kContractCode)
  end.

(** What is compared with the value of a row; a difference ends the check. *)
Definition compare_value (actual expected : bytes) : Checking (option unit) :=
  if bytes_eqb actual expected then done (Some tt) else chk _ := report (ValueMismatch expected actual) in done None.

Definition check_account (target_table : T) (x : item) (s : unit) : Checking (option unit) :=
  if negb (length (fst x) =? kAddressLength)%nat then done (Some tt)
  else
    let key := keccak256 (fst x) in
    chk actual_value := silently (table_get target_table key) in
    match actual_value with
    | None => chk _ := report (KeyNotFound key) in done None
    | Some actual_value => compare_value actual_value (snd x)
    end.

(** The data that is handed to [seek_exact] is only for its answer. *)
Definition check_storage (target_table : T) (x : item) (s : unit) : Checking (option unit) :=
  if (length (fst x) =? kAddressLength)%nat then done (Some tt)
  else
    chk key := silently (hashed_storage_key (fst x)) in
    match seek_exact target_table key with
    | Ok _ => done (Some tt)
    | Err _ => chk _ := report (KeyNotFound key) in done None
    | Undef => undefined
    end.

Definition check_code (target_table : T) (x : item) (s : unit) : Checking (option unit) :=
  if negb (length (fst x) =? kAddressLength + kIncarnationLength)%nat then done (Some tt)
  else
    chk key := silently (hashed_code_key (fst x)) in
    chk actual_value := silently (table_get target_table key) in
    match actual_value with
    | None => chk _ := report (KeyNotFound key) in done (Some tt)
    | Some actual_value => compare_value actual_value (snd x)
    end.

Definition check (operation : Operation) (txn : Txn T) : Checking unit :=
  let '(source_config, target_config) := get_tables_for_checking operation in
  chk source_table := silently (open_table source_config txn) in
  chk target_table := silently (open_table target_config txn) in
  check_rows (rows source_table) source_table
    (match operation with HashAccount => check_account target_table | HashStorage => check_storage target_table | Code => check_code target_table end)
    (seek_from source_table first_key) tt.

Definition check_hashstate (txn : Txn T) : result unit (Z * list Report) :=
  run_check (-5)
    (chk _ := check HashAccount txn in
     chk _ := check HashStorage txn in
     check Code txn).

(** ** cmd/check_pow.cpp *)

(** The seal of a header; [false] leaves the loop. *)
Definition check_seal (epoch_context : epoch_context) (block_num : Z) (header : BlockHeader) : Checking bool :=
  let nonce := of_be (take 8 (header_nonce header)) in
  let boundary256 := get_boundary_from_diff (difficulty header) in
  let result := Ethash.hash epoch_context (block_header_hash header true) nonce in
  if negb (is_less_or_equal (final_hash result) boundary256) then
    chk _ := report (AboveTarget block_num boundary256 (final_hash result) (Ethash.mix_hash result)) in done false
  else if negb (bytes_eqb (Ethash.mix_hash result) (Block.mix_hash header)) then
    chk _ := report (MixMismatch block_num (Ethash.mix_hash result) (Block.mix_hash header)) in done false
  else done true.

Definition context_for (block_num : Z) (context : epoch_context) : epoch_context :=
  if epoch_number context =? block_num / epoch_length then context else create_epoch_context (block_num / epoch_length).

Fixpoint pow_loop (fuel : nat) (txn : Txn T) (should_stop : Z -> bool) (block_to block_num : Z) (context : epoch_context)
  : Checking unit :=
  if negb ((block_num <=? block_to) && negb (should_stop block_num)) then done tt
  else
    let context := context_for block_num context in
    chk (block_hash, txn) := silently (txn_get kCanonicalHashes (block_key block_num) txn) in
    match block_hash with
    | None => raise RuntimeError
    | Some block_hash =>
        chk header := silently (AccessLayer.read_header txn block_num (to_bytes32 block_hash)) in
        match header with
        | None => raise RuntimeError
        | Some header =>
            chk valid := check_seal context block_num header in
            if negb valid then done tt
            else
              match fuel with
              | O => undefined
              | S fuel => pow_loop fuel txn should_stop block_to (u32 (block_num + 1)) context
              end
        end
    end.

(** The program answers 0 whatever happens. The fuel is for each block once; were the last of them 2^32 - 1, the loop
    would start over behind it. The height comes from the progress of the recovery of senders. *)
Definition check_pow {J : Type} `{Json J} (parse : bytes -> option J) (should_stop : Z -> bool) (block_from block_to : Z) (txn : Txn T)
  : result unit (Z * list Report) :=
  let block_from := if block_from =? 0 then 1 else block_from in
  run_check 0
    (chk (config, txn) := silently (read_chain_config parse txn) in
     match config with
     | None => raise RuntimeError
     | Some config =>
         if negb (bool_decide (seal_engine config = kEthash)) then raise RuntimeError
         else
           chk (max_headers_height, txn) := silently (get_stage_progress txn kSendersKey) in
           let block_to := Z.min block_to (u32 max_headers_height) in
           pow_loop (Z.to_nat (block_to - block_from + 1)) txn should_stop block_to block_from
             (create_epoch_context (block_from / epoch_length))
     end).

(** ** cmd/extract_headers.cpp *)

(** [Db] *)
Definition read_canonical_hash (txn : Txn T) (b : Z) : result DbError (option bytes) :=
  try hashes_table := open_table kCanonicalHashes txn in
  try hash := table_get hashes_table (block_key b) in
  match hash with
  | None => Ok None
  | Some hash => if (length hash =? kHashLength)%nat then Ok (Some hash) else Undef
  end.

Definition head_header_key : bytes := chars "LastHeader".

Definition read_head_header_hash (txn : Txn T) : result DbError (option bytes) :=
  try head_header_table := open_table kHeadHeader txn in
  try hash := table_get head_header_table head_header_key in
  match hash with
  | None => Ok None
  | Some hash => if (length hash =? kHashLength)%nat then Ok (Some hash) else Undef
  end.

Definition read_rlp_encoded_header (txn : Txn T) (b : Z) (h : bytes) : result DbError (option bytes) :=
  try header_table := open_table kHeaders txn in table_get header_table (block_key_hash b h).

Definition read_header_by_hash (txn : Txn T) (h : bytes) : result DbError (option BlockHeader) :=
  try blockhashes_table := open_table kHeaderNumbers txn in
  try encoded_block_num := table_get blockhashes_table h in
  match encoded_block_num with
  | None => Ok None
  | Some encoded_block_num => try block_num := number_at_front encoded_block_num in AccessLayer.read_header txn block_num h
  end.

(** The text of the file, and whether it has no header yet. *)
Record HeaderListFile : Type := mkHeaderListFile { output_file : bytes; list_empty : bool }.

Definition new_file : HeaderListFile := mkHeaderListFile [] true.

Definition quote : bytes := [34].
Definition newline : bytes := [10].

(** The template in front of the mark and behind it. *)
Definition template_begin : bytes :=
  newline ++ chars "    // hard coded headers" ++ newline
  ++ chars "    #include <silkworm/db/header_download.hpp> // ?" ++ newline ++ newline
  ++ chars "    const char* hard_coded_headers[] = {   // " ++ quote ++ chars "header1" ++ quote ++ chars "; "
  ++ quote ++ chars "header2" ++ quote ++ chars "; ..." ++ newline ++ chars "        ".
Definition template_end : bytes := newline ++ chars "    };" ++ newline ++ chars "    ".

Definition add_header (header : bytes) (f : HeaderListFile) : HeaderListFile :=
  let front := if list_empty f then template_begin else chars "," ++ newline in
  mkHeaderListFile (output_file f ++ front ++ chars "    " ++ quote ++ header ++ quote) false.

Definition close_file (f : HeaderListFile) : bytes :=
  output_file f ++ if list_empty f then [] else newline ++ template_end.

(** What [boost::beast::detail::base64::encode] writes, padding included. *)
Class Base64 : Type := { base64_encode : bytes -> bytes }.

Context `{Base64}.

(** Without the padding; the last two characters of nothing are read in front of it. *)
Definition base64encode (b : bytes) : result DbError bytes :=
  let encoded_bytes := base64_encode b in
  let encoded_len := length encoded_bytes in
  if (encoded_len <? 2)%nat then Undef
  else
    let is_padding i := if nth i encoded_bytes 0 =? 61 then 1%nat else 0%nat in
    let padding := (is_padding (encoded_len - 1) + is_padding (encoded_len - 2))%nat in
    Ok (take (encoded_len - padding) encoded_bytes).

(** The loop over the blocks at every step, up to the first that is not there; an exception leaves the file as it is,
    and its destructor closes it. *)
Fixpoint extract_loop (fuel : nat) (txn : Txn T) (block_step block_num : Z) (output : HeaderListFile)
  : HeaderListFile * result DbError Z :=
  if negb (block_num <? 2 ^ 64 - 1) then (output, Ok block_num)
  else
    match read_canonical_hash txn block_num with
    | Err e => (output, Err e)
    | Undef => (output, Undef)
    | Ok None => (output, Ok block_num)
    | Ok (Some hash) =>
        match (try encoded_header := read_rlp_encoded_header txn block_num hash in
               match encoded_header with None => Err RuntimeError | Some h => base64encode h end) with
        | Err e => (output, Err e)
        | Undef => (output, Undef)
        | Ok header =>
            let output := add_header header output in
            match fuel with
            | O => (output, Undef)
            | S fuel => extract_loop fuel txn block_step (u64 (block_num + block_step)) output
            end
        end
    end.

(** Every round finds another row of the canonical hashes. *)
Definition hash_rows (txn : Txn T) : nat := match open_table kCanonicalHashes txn with Ok t => rows t | _ => 0 end.

(** The exit code and the text of the file; the last block and the time of the head are printed. *)
Definition extract_headers (block_step : Z) (txn : Txn T) : result unit (Z * bytes) :=
  let '(output, last) := extract_loop (hash_rows txn) txn block_step 0 new_file in
  match
    (try block_num := last in
     try hash := read_head_header_hash txn in
     match hash with
     | None => Err RuntimeError
     | Some hash =>
         try header := read_header_by_hash txn hash in
         match header with None => Err RuntimeError | Some header => Ok (block_num, timestamp header) end
     end)
  with
  | Ok _ => Ok (0, close_file output)
  | Err _ => Ok (1, close_file output)
  | Undef => Undef
  end.

End Checks.
