(* ===== verification/ChecksCorrect.v ===== *)
(** * ChecksCorrect: what the checks of cmd report

    Over tables that keep the laws of LMDB: the check of the block hashes reports exactly the wrong numbers, the check of
    the hashed state exactly the first wrong account and the first contract without words, and the check of the proof of
    work stops at the first header whose seal the library rejects. *)

From Stdlib Require Import Sorted.
From stdpp Require Import gmap sets strings.
From S2P Require Import Prelude Util Keccak Rlp Account Transaction Block Chain Ethash Validity Lmdb DbUtil AccessLayer DbBufferCorrect Stages StagesCorrect HashState HashStateCorrect Checks.
Local Open Scope Z_scope.
Local Open Scope silk_scope.

Section Rows.
Context {T : Type} `{LmdbLaws T}.
Implicit Types t : T.

Fixpoint check_each {S} (step : item -> S -> Checking (option S)) (l : list item) (s : S) : Checking unit :=
  match l with
  | [] => done tt
  | x :: l => chk s := step x s in match s with None => done tt | Some s => check_each step l s end
  end.

Lemma check_rows_walk {S} t (step : item -> S -> Checking (option S)) l : forall fuel rc s,
  walks (next_row t) rc l -> (length l <= fuel)%nat -> check_rows fuel t step rc s = check_each step l s.
Proof.
  induction l as [|x l IH]; intros fuel rc s Hw Hl; cbn [walks] in Hw.
  - subst rc. by destruct fuel.
  - destruct Hw as [-> Hw]. cbn [length] in Hl. destruct fuel as [|fuel]; [lia|]. cbn [check_rows check_each].
    destruct (step x s) as [log [[s'|]| |]]; cbn [check_bind]; [|done..]. by rewrite IH by (done || lia).
Qed.

(** All rows of a table in their order. *)
Lemma check_all_rows {S} t (step : item -> S -> Checking (option S)) s :
  exists l, check_rows (rows t) t step (mdb_cursor_get t None MDB_FIRST [] []) s = check_each step l s
    /\ (forall x, x ∈ l <-> x ∈ tb_items t) /\ StronglySorted item_lt l.
Proof.
  destruct (walk_from t (mdb_cursor_get t None MDB_FIRST [] []) (fun _ => true)) as (l & Hw & Hin & Hs & Hl); [done| |].
  - eapply finds_least_iff; [|exact (get_first t None [] [])]. done.
  - exists l. split; [by apply check_rows_walk|]. split; [|done]. intros x. rewrite Hin. tauto.
Qed.

(** The rows from a key on. *)
Lemma check_rows_from {S} t key (step : item -> S -> Checking (option S)) s : key <> [] ->
  exists l, check_rows (rows t) t step (seek_from t key) s = check_each step l s
    /\ (forall x, x ∈ l <-> x ∈ tb_items t /\ bytes_ltb (fst x) key = false) /\ StronglySorted item_lt l.
Proof.
  intros Hk. destruct (seek_from_walk t key Hk) as (l & Hw & Hin & Hs & Hl). exists l. split; [by apply check_rows_walk|by split].
Qed.

(** Steps that never leave the loop report one after the other. *)
Lemma check_each_reports (step : item -> unit -> Checking (option unit)) (f : item -> list Report) l :
  (forall x, x ∈ l -> step x tt = (f x, Ok (Some tt))) -> check_each step l tt = (concat (map f l), Ok tt).
Proof.
  induction l as [|x l IH]; intros Hf; [done|]. cbn [check_each map concat]. rewrite (Hf x) by by left. cbn [check_bind].
  by rewrite IH by (intros y Hy; apply Hf; by right).
Qed.

(** Steps that leave the loop with their first report. *)
Lemma check_each_first (step : item -> unit -> Checking (option unit)) l :
  (forall x, x ∈ l -> step x tt = done (Some tt) \/ exists r, step x tt = ([r], Ok None)) ->
  exists log, check_each step l tt = (log, Ok tt) /\ (length log <= 1)%nat
    /\ (log = [] <-> forall x, x ∈ l -> step x tt = done (Some tt)).
Proof.
  induction l as [|x l IH]; intros Hstep.
  - exists []. split; [done|]. split; [cbn; lia|]. split; [|done]. intros _ x Hx. by apply elem_of_nil in Hx.
  - cbn [check_each]. destruct (Hstep x) as [E|[r E]]; [by left|..]; rewrite E; cbn [check_bind done app].
    + destruct IH as (log & El & Hlen & Hlog); [intros y Hy; apply Hstep; by right|]. exists log. rewrite El. split; [done|].
      split; [done|]. rewrite Hlog. split; [|intros Ha y Hy; apply Ha; by right].
      intros Ha y [->|Hy]%elem_of_cons; [done|by apply Ha].
    + exists [r]. split; [done|]. split; [cbn; lia|]. split; [done|]. intros Ha. rewrite (Ha x) in E; [done|by left].
Qed.

End Rows.

(** ** cmd/check_blockhashes.cpp *)

Section BlockHashes.
Context {T : Type} `{LmdbLaws T}.
Implicit Types t : T.

(** The data of the numbers are numbers. *)
Definition numbered t : Prop := forall x, x ∈ tb_items t -> exists m, wf_u64 m /\ snd x = block_key m.

(** What there is to report of a canonical hash. *)
Definition number_of t (h : bytes) : option Z :=
  match table_get t h with Ok (Some d) => Some (of_be d) | _ => None end.

Definition hash_report t (y : Z * bytes) : list Report :=
  match number_of t (snd y) with
  | None => [HashNotFound (snd y) (fst y)]
  | Some m => if m =? fst y then [] else [HashOfOther (snd y) (fst y) m]
  end.

Lemma hash_nonempty y : hash_row_ok y -> snd y <> [].
Proof. intros [_ Hl] E. by rewrite E in Hl. Qed.

Lemma of_be_block_key m : wf_u64 m -> of_be (block_key m) = m.
Proof. intros Hm. unfold block_key. by apply of_be_to_be_small. Qed.

(** The number that the table has. *)
Lemma number_of_spec t y : tb_dupsort t = false -> numbered t -> hash_row_ok y ->
  match number_of t (snd y) with
  | Some m => wf_u64 m /\ table_get t (snd y) = Ok (Some (block_key m)) /\ (snd y, block_key m) ∈ tb_items t
  | None => table_get t (snd y) = Ok None /\ forall d, (snd y, d) ∉ tb_items t
  end.
Proof.
  intros Hd Hn Hy. unfold number_of.
  destruct (table_get_spec t (snd y) (hash_nonempty y Hy) (plain_at_most_one t _ Hd)) as ([d|] & -> & Ho).
  - assert ((snd y, d) ∈ tb_items t) as Hin by by apply Ho. destruct (Hn _ Hin) as (m & Hm & E). cbn [snd] in E. subst d.
    by rewrite of_be_block_key.
  - split; [done|]. intros d Hin%Ho. done.
Qed.

Lemma check_hash_spec t y : tb_dupsort t = false -> numbered t -> hash_row_ok y ->
  check_hash t (hash_row y) tt = (hash_report t y, Ok (Some tt)).
Proof.
  intros Hd Hn Hy. pose proof (number_of_spec t y Hd Hn Hy) as Hs. unfold check_hash, hash_report, hash_row.
  assert (wf_u64 (fst y)) as Hf by (destruct Hy; unfold wf_u64; lia).
  destruct (number_of t (snd y)) as [m|].
  - destruct Hs as (Hm & -> & _). cbn [silently check_bind app]. destruct (bytes_eqb (block_key m) (block_key (fst y))) eqn:E.
    + apply bytes_eqb_eq, to_be_inj8 in E as ->; [|done..]. by rewrite Z.eqb_refl.
    + destruct (Z.eqb_spec m (fst y)) as [->|]; [by rewrite (proj2 (bytes_eqb_eq _ _) eq_refl) in E|].
      by rewrite !number_at_front_key.
  - destruct Hs as [-> _]. cbn [silently check_bind app]. by rewrite number_at_front_key.
Qed.

(** A report is of one of two kinds; there is none where the number is right. *)
Lemma number_unique t h m m' : tb_dupsort t = false -> wf_u64 m -> wf_u64 m' ->
  (h, block_key m) ∈ tb_items t -> (h, block_key m') ∈ tb_items t -> m = m'.
Proof. intros Hd Hm Hm' H1 H2. apply (to_be_inj8 m m'); [done..|]. by apply (plain_unique t h). Qed.

Lemma hash_report_spec t y r : tb_dupsort t = false -> numbered t -> hash_row_ok y -> r ∈ hash_report t y <->
  (r = HashNotFound (snd y) (fst y) /\ forall d, (snd y, d) ∉ tb_items t)
  \/ exists m, r = HashOfOther (snd y) (fst y) m /\ wf_u64 m /\ (snd y, block_key m) ∈ tb_items t /\ m <> fst y.
Proof.
  intros Hd Hn Hy. pose proof (number_of_spec t y Hd Hn Hy) as Hs. unfold hash_report. destruct (number_of t (snd y)) as [m|].
  - destruct Hs as (Hm & _ & Hi). destruct (Z.eqb_spec m (fst y)) as [E|E].
    + split; [by intros ?%elem_of_nil|]. intros [[_ Hno]|(m' & _ & Hm' & Hi' & Hne)]; [by destruct (Hno (block_key m))|].
      by rewrite (number_unique t (snd y) m' m) in Hne.
    + rewrite list_elem_of_singleton. split; [intros ->; right; by exists m|].
      intros [[_ Hno]|(m' & -> & Hm' & Hi' & _)]; [by destruct (Hno (block_key m))|]. by rewrite (number_unique t (snd y) m' m).
  - destruct Hs as [_ Hno]. rewrite list_elem_of_singleton. split; [by left|]. intros [[-> _]|(m & _ & _ & Hi & _)]; [done|].
    by destruct (Hno (block_key m)).
Qed.

Lemma hash_report_nil t y : tb_dupsort t = false -> numbered t -> hash_row_ok y ->
  hash_report t y = [] <-> (snd y, block_key (fst y)) ∈ tb_items t.
Proof.
  intros Hd Hn Hy. pose proof (number_of_spec t y Hd Hn Hy) as Hs. unfold hash_report.
  assert (wf_u64 (fst y)) as Hf by (destruct Hy; unfold wf_u64; lia). destruct (number_of t (snd y)) as [m|].
  - destruct Hs as (Hm & _ & Hi). destruct (Z.eqb_spec m (fst y)) as [<-|E]; [done|]. split; [done|]. intros Hi'.
    by destruct E; apply (number_unique t (snd y)).
  - destruct Hs as [_ Hno]. split; [done|]. intros Hi. by destruct (Hno (block_key (fst y))).
Qed.

(** The check, as the reports of all canonical hashes in order. *)
Lemma check_blockhashes_log (txn : Txn T) t_canonical t_numbers :
  table_at kCanonicalHashes txn t_canonical -> table_at kHeaderNumbers txn t_numbers -> tb_dupsort t_numbers = false ->
  (forall x, x ∈ tb_items t_canonical -> exists y, hash_row_ok y /\ x = hash_row y) -> numbered t_numbers ->
  exists L, check_blockhashes txn = Ok (0, concat (map (hash_report t_numbers) L))
    /\ forall n h, (n, h) ∈ L <-> canonical t_canonical n h.
Proof.
  intros Hc Hn Hd Hrows Hnum. unfold check_blockhashes.
  rewrite (open_table_spec _ _ _ Hc), (open_table_spec _ _ _ Hn). cbn [silently check_bind].
  destruct (check_all_rows t_canonical (check_hash t_numbers) tt) as (l & -> & Hin & _).
  destruct (rows_as_hashes l) as (L & -> & HL); [apply Forall_forall; intros x Hx; by apply Hrows, Hin|].
  rewrite Forall_forall in HL. exists L. split.
  - rewrite (check_each_reports _ (fun x => hash_report t_numbers (of_be (fst x), snd x))).
    + rewrite map_map. cbn [app run_check]. do 3 f_equal. apply map_ext_in. intros y Hy%list_elem_of_In%HL. unfold hash_row. cbn [fst snd].
      rewrite of_be_block_key by (destruct Hy; unfold wf_u64; lia). by destruct y.
    + intros x (y & -> & Hy%HL)%list_elem_of_fmap. rewrite check_hash_spec by done. unfold hash_row at 1 2. cbn [fst snd].
      rewrite of_be_block_key by (destruct Hy; unfold wf_u64; lia). by destruct y.
  - intros n h. split; [intros Hx; split; [by apply HL|apply Hin; by apply (list_elem_of_fmap_2 hash_row L)]|].
    intros [Hok Hx]. apply Hin, list_elem_of_fmap in Hx as (y & E & Hy). apply hash_row_inj in E as ->; [done|done|by apply HL].
Qed.

Lemma in_reports t (L : list (Z * bytes)) r : r ∈ concat (map (hash_report t) L) <-> exists y, y ∈ L /\ r ∈ hash_report t y.
Proof.
  rewrite list_elem_of_In, in_concat. split.
  - intros (log & Hl & Hr). apply in_map_iff in Hl as (y & <- & Hy). exists y. by rewrite !list_elem_of_In.
  - intros (y & Hy & Hr). exists (hash_report t y). apply list_elem_of_In in Hy, Hr. split; [by apply in_map|done].
Qed.

End BlockHashes.

(** ** cmd/check_hashstate.cpp *)

Section HashState.
Context {T : Type} `{LmdbLaws T}.
Implicit Types t : T.

Lemma compare_value_spec actual expected :
  compare_value actual expected = if bytes_eqb actual expected then done (Some tt) else ([ValueMismatch expected actual], Ok None).
Proof. unfold compare_value. by destruct (bytes_eqb actual expected). Qed.

Lemma keccak256_nonempty b : keccak256 b <> [].
Proof. intros E. apply (f_equal length) in E. by rewrite length_keccak256 in E. Qed.

Lemma check_account_spec t x : tb_dupsort t = false ->
  (check_account t x tt = done (Some tt) \/ exists r, check_account t x tt = ([r], Ok None))
  /\ (check_account t x tt = done (Some tt) <-> (is_account x = true -> (keccak256 (fst x), snd x) ∈ tb_items t)).
Proof.
  intros Hd. unfold check_account, is_account. destruct (Nat.eqb_spec (length (fst x)) kAddressLength) as [E|E]; cbn [negb]; [|by split; [left|]].
  destruct (table_get_spec t (keccak256 (fst x)) (keccak256_nonempty _) (plain_at_most_one t _ Hd)) as ([d|] & -> & Ho); cbn [silently check_bind app].
  - rewrite compare_value_spec. destruct (bytes_eqb d (snd x)) eqn:Ed.
    + apply bytes_eqb_eq in Ed as ->. split; [by left|]. split; [|done]. intros _ _. by apply Ho.
    + split; [right; by eexists|]. split; [done|]. intros Hin. specialize (Hin eq_refl). apply Ho in Hin as [= ->].
      by rewrite (proj2 (bytes_eqb_eq _ _) eq_refl) in Ed.
  - split; [right; by eexists|]. split; [done|]. intros Hin. by apply Ho in Hin; [|done].
Qed.

(** The key of all the words of a contract. *)
Definition words_key (a : bytes) (i : Z) : bytes := keccak256 a ++ to_be 8 i ++ keccak256 [].

Lemma hashed_prefix a i : is_address a -> hashed_storage_key (storage_prefix a i) = Ok (words_key a i).
Proof.
  intros Ha. unfold hashed_storage_key, bytes_at, substr_from. rewrite (length_storage_prefix a i Ha). cbn [Nat.ltb Nat.leb Nat.add kStoragePrefixLength kAddressLength kIncarnationLength result_bind].
  unfold storage_prefix. rewrite (drop_app_length' a), (take_app_length' a), (take_ge (to_be 8 i)) by (done || by rewrite length_to_be).
  rewrite drop_ge by (rewrite length_app, length_to_be, Ha; unfold kAddressLength, kIncarnationLength; lia). done.
Qed.

Lemma check_storage_spec t x : state_row x ->
  (check_storage t x tt = done (Some tt) \/ exists r, check_storage t x tt = ([r], Ok None))
  /\ (check_storage t x tt = done (Some tt) <-> forall a i, is_address a -> fst x = storage_prefix a i -> exists d, (words_key a i, d) ∈ tb_items t).
Proof.
  intros [[Ha|Hs] _]; unfold check_storage.
  - assert (length (fst x) = kAddressLength) as -> by apply Ha. rewrite Nat.eqb_refl. split; [by left|]. split; [|done].
    intros _ a i Hai E. apply (f_equal length) in E. rewrite length_storage_prefix in E by done. by rewrite Ha in E.
  - destruct Hs as (a & i & Ha & Hi & E & Hv). rewrite E, length_storage_prefix by done. cbn [Nat.eqb kStoragePrefixLength kAddressLength kIncarnationLength Nat.add].
    rewrite hashed_prefix by done. cbn [silently check_bind]. unfold seek_exact.
    assert (words_key a i <> []) as Hne by (intros E'; apply (f_equal length) in E'; unfold words_key in E'; by rewrite length_app, length_keccak256 in E').
    pose proof (get_set t None (words_key a i) [] Hne) as Hf. destruct (mdb_cursor_get t None MDB_SET (words_key a i) []) as [[k d]|[]|]; try done.
    + split; [by left|]. split; [|done]. intros _ b j Hb Eb. destruct Hf as (Hin & Ek & _). cbn [fst] in Ek. subst k.
      assert (b = a /\ to_be 8 j = to_be 8 i) as [-> Ej].
      { unfold storage_prefix in Eb. apply app_inj_1 in Eb as [? ?]; [done|by rewrite Ha, Hb]. }
      exists d. unfold words_key in *. by rewrite Ej.
    + cbn [check_bind app report done]. split; [right; by eexists|]. split; [done|]. intros Hall. destruct (Hall a i Ha eq_refl) as [d Hd].
      by destruct (Hf _ Hd).
Qed.

(** The rows that a check of the plain state meets are all of them. *)
Lemma state_rows_from t (l : list item) : (forall x, x ∈ tb_items t -> state_row x) ->
  (forall x, x ∈ l <-> x ∈ tb_items t /\ bytes_ltb (fst x) first_key = false) -> forall x, x ∈ l <-> x ∈ tb_items t.
Proof.
  intros Hrow Hin x. rewrite Hin. split; [tauto|]. intros Hx. split; [done|].
  apply above_zeros; [by apply (Hrow x Hx)|by apply state_row_long, Hrow].
Qed.

End HashState.

(** ** cmd/check_pow.cpp *)

Section Pow.
Context {T : Type} `{Lmdb T}.

(** The seal of a block is the one that the library accepts. *)
Definition sealed (n : Z) (header : BlockHeader) : Prop :=
  verify_full (create_epoch_context (n / epoch_length)) (block_header_hash header true) (Block.mix_hash header)
    (of_be (take 8 (header_nonce header))) (get_boundary_from_diff (difficulty header)) = Ethash.kOk.

Lemma check_seal_spec n header :
  (check_seal (create_epoch_context (n / epoch_length)) n header = done true /\ sealed n header)
  \/ (exists r, check_seal (create_epoch_context (n / epoch_length)) n header = ([r], Ok false)) /\ ~ sealed n header.
Proof.
  unfold check_seal, sealed. rewrite verify_full_spec.
  set (result := Ethash.hash _ _ _). destruct (is_less_or_equal (final_hash result) _); cbn [negb check_bind report done app].
  - destruct (bytes_eqb (Ethash.mix_hash result) (Block.mix_hash header)) eqn:E; cbn [negb check_bind report done app].
    + apply bytes_eqb_eq in E. by left.
    + right. split; [by eexists|]. intros [Em _]. by rewrite Em, (proj2 (bytes_eqb_eq _ _) eq_refl) in E.
  - right. split; [by eexists|]. by intros [_ ?].
Qed.

Lemma context_for_spec n e : context_for n (create_epoch_context e) = create_epoch_context (n / epoch_length).
Proof. unfold context_for. cbn [epoch_number create_epoch_context]. by destruct (Z.eqb_spec e (n / epoch_length)) as [->|]. Qed.

(** The canonical header of a number. *)
Definition canonical_header (txn : Txn T) (n : Z) (header : BlockHeader) : Prop :=
  exists hash, txn_get kCanonicalHashes (block_key n) txn = Ok (Some hash, txn)
    /\ AccessLayer.read_header txn n (to_bytes32 hash) = Ok (Some header).

Lemma pow_loop_spec (txn : Txn T) (headers : Z -> BlockHeader) block_to : 0 <= block_to < 2 ^ 32 - 1 ->
  forall fuel n e, 0 <= n -> (Z.to_nat (block_to - n + 1) <= fuel)%nat ->
  (forall m, n <= m <= block_to -> canonical_header txn m (headers m)) ->
  exists log, pow_loop fuel txn (fun _ => false) block_to n (create_epoch_context e) = (log, Ok tt)
    /\ (log = [] <-> forall m, n <= m <= block_to -> sealed m (headers m)).
Proof.
  intros Hto. induction fuel as [|fuel IH]; intros n e Hn Hfuel Hh; cbn [pow_loop negb]; rewrite andb_true_r, negb_if.
  all: destruct (Z.leb_spec n block_to) as [Hle|Hgt]; [|exists []; split; [done|]; split; [intros _ m Hm; lia|done]].
  - lia.
  - rewrite context_for_spec. destruct (Hh n ltac:(lia)) as (hash & -> & Er). cbn [silently check_bind]. rewrite Er. cbn [silently check_bind].
    destruct (check_seal_spec n (headers n)) as [[-> Hs]|[[r ->] Hs]]; cbn [check_bind done negb app].
    + unfold u32. rewrite (wrap_small 32 (n + 1)) by lia. destruct (IH (n + 1) (n / epoch_length)) as (log & -> & Hlog); [lia..|intros m Hm; apply Hh; lia|].
      exists log. split; [done|]. rewrite Hlog. split; [|intros Ha m Hm; apply Ha; lia].
      intros Ha m Hm. destruct (Z.eq_dec m n) as [->|]; [done|apply Ha; lia].
    + exists [r]. split; [done|]. split; [done|]. intros Ha. destruct Hs. apply Ha. lia.
Qed.

End Pow.

(** ** cmd/check_tx_lookup.cpp: rows of bodies are taken for block numbers *)

Definition a_transaction : bytes := [1; 2; 3].

(** Three bodies, two of them of blocks with number 1, one of which is not canonical. The transaction of block 2 is
    found under its number, but as it is in the fourth row it was expected in block 3. *)
Definition forked_bodies : Txn RefTable :=
  mkTxn true (list_to_map
    [(config_name kBlockBodies,
      RefPlain {[block_key_hash 0 (demo_hash 0) := encode_stored_body (mkBlockBodyForStorage 0 0 []);
                 block_key_hash 1 (demo_hash 1) := encode_stored_body (mkBlockBodyForStorage 0 0 []);
                 block_key_hash 1 (demo_hash 2) := encode_stored_body (mkBlockBodyForStorage 0 0 []);
                 block_key_hash 2 (demo_hash 3) := encode_stored_body (mkBlockBodyForStorage 5 1 [])]});
     (config_name kEthTx, RefPlain {[to_be 8 5 := a_transaction]});
     (config_name kTxLookup, RefPlain {[keccak256 a_transaction := [2]]})]).

Example side_body_mismatch : check_tx_lookup (fun _ => false) forked_bodies = Ok (0, [LookupMismatch (keccak256 a_transaction) 3 2]).
Proof. vm_compute. reflexivity. Qed.

(** * Properties *)

(** The check of the block hashes goes through all canonical hashes and ends with success. It reports a canonical hash
    that has no number, or another number than its own, and nothing else: it is silent exactly when the table of the
    numbers inverts the table of the canonical hashes. *)
Theorem check_blockhashes_correct {T : Type} `{LmdbLaws T} (txn : Txn T) (t_canonical t_numbers : T) :
  table_at kCanonicalHashes txn t_canonical -> table_at kHeaderNumbers txn t_numbers -> tb_dupsort t_numbers = false ->
  (forall x, x ∈ tb_items t_canonical -> exists y, hash_row_ok y /\ x = hash_row y) -> numbered t_numbers ->
  exists log, check_blockhashes txn = Ok (0, log)
    /\ (forall h n, HashNotFound h n ∈ log <-> canonical t_canonical n h /\ forall d, (h, d) ∉ tb_items t_numbers)
    /\ (forall h n m, HashOfOther h n m ∈ log
          <-> canonical t_canonical n h /\ wf_u64 m /\ (h, block_key m) ∈ tb_items t_numbers /\ m <> n)
    /\ (log = [] <-> forall n h, canonical t_canonical n h -> (h, block_key n) ∈ tb_items t_numbers).
Proof.
  intros Hc Hn Hd Hrows Hnum. destruct (check_blockhashes_log txn _ _ Hc Hn Hd Hrows Hnum) as (L & E & Hin).
  assert (forall y, y ∈ L -> hash_row_ok y) as Hok by (intros [n h] Hy; by apply Hin in Hy as [? _]).
  exists (concat (map (hash_report t_numbers) L)). split; [done|]. split_and!.
  - intros h n. rewrite in_reports. split.
    + intros ([k h'] & Hy & Hr). apply hash_report_spec in Hr as [[[= -> ->] Hno]|(m & ? & _)]; [|done|done|done|by apply Hok].
      split; [by apply Hin|done].
    + intros [Hy%Hin Hno]. exists (n, h). split; [done|]. apply hash_report_spec; [done|done|by apply Hok|]. by left.
  - intros h n m. rewrite in_reports. split.
    + intros ([k h'] & Hy & Hr). apply hash_report_spec in Hr as [[? _]|(m' & [= -> -> ->] & Hm & Hi & Hne)]; [done| |done|done|by apply Hok].
      split; [by apply Hin|done].
    + intros (Hy%Hin & Hm & Hi & Hne). exists (n, h). split; [done|]. apply hash_report_spec; [done|done|by apply Hok|]. right. by exists m.
  - rewrite concat_nil_Forall, Forall_map, List.Forall_forall. split.
    + intros Ha n h Hy%Hin. apply (hash_report_nil t_numbers (n, h) Hd Hnum (Hok _ Hy)), Ha. by apply list_elem_of_In.
    + intros Ha [n h] Hy%list_elem_of_In. apply hash_report_nil; [done|done|by apply Hok|]. apply Ha. by apply Hin.
Qed.

(** A chain whose second block has the number of the third. *)
Definition wrong_numbers : RefTable :=
  RefPlain {[demo_hash 0 := block_key 0; demo_hash 1 := block_key 2; demo_hash 2 := block_key 2]}.

Definition wrong_chain : Txn RefTable :=
  mkTxn true (list_to_map [(config_name kCanonicalHashes, demo_canonical); (config_name kHeaderNumbers, wrong_numbers)]).

Lemma wrong_numbered : numbered wrong_numbers.
Proof.
  intros [k d]. change (tb_items wrong_numbers) with (ref_items wrong_numbers). unfold wrong_numbers.
  rewrite ref_items_plain, !lookup_insert_Some, lookup_singleton_Some.
  intros [[_ <-]|[_ [[_ <-]|[_ [_ <-]]]]]; [exists 0|exists 2|exists 2]; (split; [unfold wf_u64; lia|done]).
Qed.

Lemma check_blockhashes_correct_witness : exists log,
  check_blockhashes wrong_chain = Ok (0, log) /\ HashOfOther (demo_hash 1) 1 2 ∈ log.
Proof.
  destruct (check_blockhashes_correct wrong_chain demo_canonical wrong_numbers) as (log & E & _ & Hother & _);
    [reflexivity|reflexivity|reflexivity| |apply wrong_numbered|].
  - intros x (n & Hn & ->)%demo_canonical_rows. exists (n, demo_hash n). split; [|reflexivity]. split; [cbn; lia|reflexivity].
  - exists log. split; [exact E|]. apply Hother. split; [split; [split; [cbn; lia|reflexivity]|]|].
    + apply ref_items_plain. vm_compute. reflexivity.
    + split; [unfold wf_u64; lia|]. split; [apply ref_items_plain; vm_compute; reflexivity|lia].
Defined.

(** Behind a run of the stage of the block hashes, the check is silent, if the numbers in front of it were right. *)
Theorem check_after_blockhashes {T : Type} `{LmdbLaws T} (txn' : Txn T) (t_canonical t_numbers : T) (p : Z) :
  hashes_turned t_canonical t_numbers p txn' -> table_at kCanonicalHashes txn' t_canonical ->
  (forall x, x ∈ tb_items t_canonical -> exists y, hash_row_ok y /\ x = hash_row y) -> numbered t_numbers ->
  (forall n m h, canonical t_canonical n h -> canonical t_canonical m h -> n = m) ->
  (forall n h, canonical t_canonical n h -> n <= p -> (h, block_key n) ∈ tb_items t_numbers) ->
  check_blockhashes txn' = Ok (0, []).
Proof.
  intros (t' & last & Ht' & Hd & _ & _ & _ & _ & Hi) Hc Hrows Hnum Hone Hold.
  assert (numbered t') as Hnum'.
  { intros [h d] [(n & [[Hn _] _] & _ & ->)|[Hx _]]%Hi; [|by apply (Hnum _ Hx)]. cbn in Hn. exists n. split; [unfold wf_u64; lia|done]. }
  destruct (check_blockhashes_log txn' t_canonical t' Hc Ht' Hd Hrows Hnum') as (L & -> & Hin). do 2 f_equal.
  apply concat_nil_Forall, Forall_map, List.Forall_forall. intros [n h] Hy%list_elem_of_In%Hin.
  apply hash_report_nil; [done|done|by destruct Hy|]. cbn [fst snd]. apply Hi. destruct (Z_le_gt_dec n p) as [Hle|Hgt].
  - right. split; [by apply Hold|]. intros m Hm Hcm. rewrite (Hone n m h) in Hle by done. lia.
  - left. exists n. split; [done|]. split; [lia|done].
Qed.

(** The check of the hashed state compares every account with its hashed row, and of the words of a contract only
    whether the hashed table has the key of any, neither their places nor their values. Each check reports at most
    one thing, and ends without an exception. *)
Theorem check_hashstate_correct {T : Type} `{LmdbLaws T} (txn : Txn T) (t t_accounts t_storage : T) :
  table_at kPlainState txn t -> table_at kHashedAccounts txn t_accounts -> table_at kHashedStorage txn t_storage ->
  (forall x, x ∈ tb_items t -> state_row x) -> tb_dupsort t_accounts = false ->
  (exists log, check HashAccount txn = (log, Ok tt) /\ (length log <= 1)%nat
    /\ (log = [] <-> forall a v, is_address a -> (a, v) ∈ tb_items t -> (keccak256 a, v) ∈ tb_items t_accounts))
  /\ (exists log, check HashStorage txn = (log, Ok tt) /\ (length log <= 1)%nat
    /\ (log = [] <-> forall a i d, is_address a -> (storage_prefix a i, d) ∈ tb_items t ->
          exists d', (words_key a i, d') ∈ tb_items t_storage)).
Proof.
  intros Ht Hta Hts Hrow Hd. unfold check, get_tables_for_checking.
  rewrite (open_table_spec _ _ _ Ht), (open_table_spec _ _ _ Hta), (open_table_spec _ _ _ Hts). cbn [silently check_bind]. split.
  - destruct (check_rows_from t first_key (check_account t_accounts) tt ltac:(done)) as (l & -> & Hin & _).
    pose proof (state_rows_from t l Hrow Hin) as Hl.
    destruct (check_each_first (check_account t_accounts) l) as (log & -> & Hlen & Hlog); [intros x _; by apply check_account_spec|].
    exists log. split; [done|]. split; [done|]. rewrite Hlog. split.
    + intros Ha a v Hav Hi. apply (proj2 (check_account_spec t_accounts (a, v) Hd)); [by apply Ha, Hl|by apply account_row_is].
    + intros Ha [a v] Hx%Hl. apply check_account_spec; [done|]. intros Hacc%Nat.eqb_eq. by apply Ha.
  - destruct (check_rows_from t first_key (check_storage t_storage) tt ltac:(done)) as (l & -> & Hin & _).
    pose proof (state_rows_from t l Hrow Hin) as Hl.
    destruct (check_each_first (check_storage t_storage) l) as (log & -> & Hlen & Hlog);
      [intros x Hx; apply check_storage_spec; by apply Hrow, Hl|].
    exists log. split; [done|]. split; [done|]. rewrite Hlog. split.
    + intros Ha a i d Hai Hi. apply (proj2 (check_storage_spec t_storage _ (Hrow _ Hi))); [by apply Ha, Hl|done|done].
    + intros Ha [k d] Hx%Hl. apply check_storage_spec; [by apply Hrow|]. intros a i Hai E. cbn [fst] in E. subst k. by apply (Ha a i d).
Qed.

(** A hashed state with another word, under another place, passes. *)
Definition wrong_storage : RefTable := RefDup {[(words_key first_address 1, [7])]}.
Definition right_accounts : RefTable :=
  RefPlain {[keccak256 first_address := [1]; keccak256 second_address := [2]]}.
Definition hashed_chain : Txn RefTable :=
  mkTxn false (list_to_map [(config_name kPlainState, demo_state); (config_name kHashedAccounts, right_accounts);
                            (config_name kHashedStorage, wrong_storage)]).

Lemma check_hashstate_correct_witness : check HashStorage hashed_chain = ([], Ok tt).
Proof.
  destruct (check_hashstate_correct hashed_chain demo_state right_accounts wrong_storage) as [_ (log & E & _ & Hlog)];
    [reflexivity|reflexivity|reflexivity|exact (sd_rows _ _ _ _ demo_plain_ready)|reflexivity|].
  rewrite E. assert (log = []) as ->; [|reflexivity]. apply Hlog. intros a i d Ha Hx. exists [7].
  apply demo_state_rows in Hx as [Hx|[Hx|Hx]].
  - exfalso. apply (f_equal (fun x => length (fst x))) in Hx. cbn [fst] in Hx. rewrite length_storage_prefix in Hx by exact Ha. discriminate Hx.
  - exfalso. apply (f_equal (fun x => length (fst x))) in Hx. cbn [fst] in Hx. rewrite length_storage_prefix in Hx by exact Ha. discriminate Hx.
  - apply (f_equal fst) in Hx. cbn [fst] in Hx. unfold words_key, storage_prefix in *.
    apply app_inj_1 in Hx as [-> ->]; [|by rewrite Ha]. exact (elem_of_singleton_2 (C := gset item) _ _ eq_refl).
Defined.

(** The clean promotion, which puts all words of a contract under one key, passes the check. *)
Theorem check_after_promotion {T : Type} `{LmdbLaws T} (txn txn' : Txn T) (t t_accounts t_storage ta ts : T) :
  state_ready txn t t_accounts t_storage ->
  table_at kPlainState txn' t -> table_at kHashedAccounts txn' ta -> table_at kHashedStorage txn' ts -> tb_dupsort ta = false ->
  (forall k v, (k, v) ∈ tb_items ta <-> exists a, is_address a /\ (a, v) ∈ tb_items t /\ k = keccak256 a) ->
  (forall k d, (k, d) ∈ tb_items ts <-> exists a i, is_address a /\ wf_u64 i /\ key_fits d
     /\ (storage_prefix a i, d) ∈ tb_items t /\ k = keccak256 a ++ to_be 8 i ++ keccak256 []) ->
  check HashAccount txn' = ([], Ok tt) /\ check HashStorage txn' = ([], Ok tt).
Proof.
  intros Hr Ht Hta Hts Hd Ha Hs. unfold check, get_tables_for_checking. pose proof (sd_rows _ _ _ _ Hr) as Hrow.
  rewrite (open_table_spec _ _ _ Ht), (open_table_spec _ _ _ Hta), (open_table_spec _ _ _ Hts). cbn [silently check_bind]. split.
  - destruct (check_rows_from t first_key (check_account ta) tt ltac:(done)) as (l & -> & Hin & _).
    rewrite (check_each_reports _ (fun _ => [])); [cbn [app]; f_equal; by apply concat_nil_Forall, Forall_map, List.Forall_forall|].
    intros [a v] [Hx _]%Hin. apply check_account_spec; [done|]. intros Hacc%Nat.eqb_eq. apply Ha. by exists a.
  - destruct (check_rows_from t first_key (check_storage ts) tt ltac:(done)) as (l & -> & Hin & _).
    rewrite (check_each_reports _ (fun _ => [])); [cbn [app]; f_equal; by apply concat_nil_Forall, Forall_map, List.Forall_forall|].
    intros x [Hx _]%Hin. apply check_storage_spec; [by apply Hrow|]. intros a i Hai E. exists (snd x). apply Hs.
    destruct (Hrow x Hx) as [[Hacc|(b & j & Hb & Hj & Eb & Hv)] _].
    + unfold account_row, is_address in Hacc. rewrite E, length_storage_prefix in Hacc by done. done.
    + exists b, j. split; [done|]. split; [done|]. split; [done|]. split; [rewrite <- Eb; by destruct x|]. rewrite E in Eb.
      unfold storage_prefix, words_key in *. apply app_inj_1 in Eb as [-> ->]; [done|by rewrite Hai, Hb].
Qed.
