(* ===== verification/Replay.v ===== *)
(** * Replay: cmd/check_changes.cpp, scan_txs.cpp

    The programs that execute the blocks of the database once more, each over the state before it: one compares the
    changes with those that are stored, the other counts the transactions that failed. Every block has a transaction
    of the database of its own, so that the tables may change between two blocks. Arguments, paths and times are left
    out. *)

From stdpp Require Import gmap sets strings.
From S2P Require Import Prelude Util Rlp Account Transaction Block Chain MemoryBuffer Validity IntraBlockState Cache.
From S2P Require Import Precompiled Evm Processor Bitmap Lmdb DbUtil AccessLayer Cbor DbBuffer TgApi.
Local Open Scope Z_scope.
Local Open Scope silk_scope.

(** ** db::Buffer with a historical block

    What it reads is the state before the block. As in TgApi, the readers are [noexcept] and answer as for something
    absent where the database throws. *)

Record HistState (T : Type) : Type := mkHistState { hs_block : Z; hs_txn : Txn T; hs_buffer : DbBuffer }.
Arguments mkHistState {T} _ _ _.
Arguments hs_block {T} _.
Arguments hs_txn {T} _.
Arguments hs_buffer {T} _.

Section State.
Context {T : Type} `{Lmdb T} {R : Type} `{Roaring R} `{CborEncoder}.

Definition on_hist (f : DbBuffer -> DbBuffer) (s : HistState T) : HistState T := mkHistState (hs_block s) (hs_txn s) (f (hs_buffer s)).

#[export] Instance HistState_StateBuffer : StateBuffer (HistState T) := {
  MemoryBuffer.read_account s a := answer None (db_read_account (R := R) (hs_buffer s) (Some (hs_txn s)) (Some (hs_block s)) a);
  MemoryBuffer.read_code s h := answer [] (db_read_code (hs_buffer s) (Some (hs_txn s)) h);
  MemoryBuffer.read_storage s a i l :=
    answer zero_bytes32 (db_read_storage (R := R) (hs_buffer s) (Some (hs_txn s)) (Some (hs_block s)) a i l);
  MemoryBuffer.previous_incarnation s a := answer 0 (db_previous_incarnation (hs_buffer s) (Some (hs_txn s)) (Some (hs_block s)) a);
  MemoryBuffer.read_header s n h := answer None (db_read_header (hs_buffer s) (Some (hs_txn s)) n h);
  MemoryBuffer.read_body s n h := answer None (db_read_body (hs_buffer s) (Some (hs_txn s)) n h);
  MemoryBuffer.total_difficulty s n h := answer None (db_total_difficulty (hs_buffer s) (Some (hs_txn s)) n h);
  MemoryBuffer.state_root_hash s := db_state_root_hash (hs_buffer s);
  MemoryBuffer.current_canonical_block s := answer 0 (db_current_canonical_block (hs_buffer s));
  MemoryBuffer.canonical_hash s n := answer None (db_canonical_hash (hs_buffer s) n);
  MemoryBuffer.insert_block block hash s :=
    on_hist (fun b => answer b (db_insert_block block hash (Some (hs_txn s)) b)) s;
  MemoryBuffer.canonize_block n h := on_hist (fun b => answer b (db_canonize_block n h b));
  MemoryBuffer.decanonize_block n := on_hist (fun b => answer b (db_decanonize_block n b));
  MemoryBuffer.insert_receipts n receipts := on_hist (db_insert_receipts n receipts);
  MemoryBuffer.begin_block n := on_hist (db_begin_block n);
  MemoryBuffer.update_account a initial current := on_hist (db_update_account a initial current);
  MemoryBuffer.update_account_code a i h c := on_hist (db_update_account_code a i h c);
  MemoryBuffer.update_storage a i l initial current := on_hist (db_update_storage a i l initial current);
  MemoryBuffer.unwind_state_changes n := on_hist (fun b => answer b (db_unwind_state_changes n b))
}.

End State.

(** A program that ends in another way than by its exit code: an exception that nothing catches. *)
Inductive ReplayHalt : Type := Terminated (e : DbError) | Halted (h : Halt).

Definition uncaught {A} (r : result DbError A) : result ReplayHalt A :=
  match r with Ok a => Ok a | Err e => Err (Terminated e) | Undef => Undef end.
Definition halting {A} (r : result Halt A) : result ReplayHalt A :=
  match r with Ok a => Ok a | Err h => Err (Halted h) | Undef => Undef end.

(** ** cmd/check_changes.cpp *)

Definition kPhantomAccounts : list bytes :=
  [to_be 20 0x000000000000000000636f6e736f6c652e6c6f67;
   to_be 20 0x2386f26fc10000b4e16d0168e52d35cacd2c6185;
   to_be 20 0x5a719cf3e02c17c876f6d294adb5cb7c6eb47e2f].

Inductive ChangeReport : Type :=
| ExecutionFailed (block_num : Z)
| ChangeIsMissing (address : bytes)
| ChangeDiffers (address val expected : bytes)
| ChangeNotInDb (address : bytes)
| AccountChangeMismatch (block_num : Z)
| StorageChangeMismatch (block_num : Z) (calculated expected : StorageChanges).

(** What is said of a change of the database, and of one that was calculated. *)
Definition check_db_change (calculated : AccountChanges) (e : bytes * bytes) : list ChangeReport :=
  match calculated !! fst e with
  | None => if bool_decide (fst e ∈ kPhantomAccounts) then [] else [ChangeIsMissing (fst e)]
  | Some val => if bytes_eqb val (snd e) then [] else [ChangeDiffers (fst e) val (snd e)]
  end.

Definition check_calculated_change (stored : AccountChanges) (e : bytes * bytes) : list ChangeReport :=
  match stored !! fst e with None => [ChangeNotInDb (fst e)] | Some _ => [] end.

Definition compare_account_changes (block_num : Z) (calculated stored : AccountChanges) : list ChangeReport :=
  if bool_decide (calculated = stored) then []
  else
    let mismatches := concat (map (check_db_change calculated) (btree_bytes stored))
                      ++ concat (map (check_calculated_change stored) (btree_bytes calculated)) in
    mismatches ++ match mismatches with [] => [] | _ => [AccountChangeMismatch block_num] end.

Definition compare_storage_changes (block_num : Z) (calculated stored : StorageChanges) : list ChangeReport :=
  if bool_decide (calculated = stored) then [] else [StorageChangeMismatch block_num calculated stored].

Section Programs.
Context {T : Type} `{Lmdb T} {R : Type} `{Roaring R} `{CborEncoder}.
Context `{Evmone} `{Secp256k1} `{Gmp} `{Libff}.

(** What lives through the loop, and one block executed over the state before it. *)
Definition Caches : Type := (option (AnalysisCache CodeAnalysis) * option (list ExecutionState))%type.

Definition new_caches : Caches := (Some (new_analysis_cache kDefaultMaxSize (Z.of_nat EVMC_MAX_REVISION)), Some []).

Definition replay_block (txn : Txn T) (config : ChainConfig) (block_num : Z) (bh : BlockWithHash) (caches : Caches)
  : result Halt (list Receipt * ValidationResult * DbBuffer * Caches) :=
  try (receipts, err, e) := execute_block (block bh) (mkHistState block_num txn new_db_buffer) config (fst caches) (snd caches) None in
  Ok (receipts, err, hs_buffer (db (state e)), (analysis_cache e, state_pool e)).

(** What is reported of a block that was executed; there is an entry for it among the changes of the accounts, or [at]
    throws. *)
Definition compare_changes (txn : Txn T) (block_num : Z) (buffer : DbBuffer) : result DbError (list ChangeReport) :=
  try db_account_changes := read_account_changes txn block_num in
  match account_changes_ buffer !! block_num with
  | None => Err RuntimeError
  | Some calculated_account_changes =>
      try db_storage_changes := read_storage_changes txn block_num in
      let calculated_storage_changes := default ∅ (storage_changes_ buffer !! block_num) in
      Ok (compare_account_changes block_num calculated_account_changes db_account_changes
          ++ compare_storage_changes block_num calculated_storage_changes db_storage_changes)
  end.

(** [snapshot n] are the tables that the transaction for block [n] sees. *)
Fixpoint changes_loop (fuel : nat) (snapshot : Z -> Txn T) (config : ChainConfig) (to block_num : Z) (caches : Caches)
    (log : list ChangeReport) : result ReplayHalt (Z * list ChangeReport) :=
  if negb (block_num <? to) then Ok (block_num, log)
  else
    match fuel with
    | O => Err (Halted OutOfFuel)
    | S fuel =>
        let txn := snapshot block_num in
        try bh := uncaught (AccessLayer.read_block txn block_num true) in
        match bh with
        | None => Ok (block_num, log)
        | Some bh =>
            try (_, err, buffer, caches) := halting (replay_block txn config block_num bh caches) in
            if negb (bool_decide (err = kOk))
            then changes_loop fuel snapshot config to (u64 (block_num + 1)) caches (log ++ [ExecutionFailed block_num])
            else
              try reports := uncaught (compare_changes txn block_num buffer) in
              changes_loop fuel snapshot config to (u64 (block_num + 1)) caches (log ++ reports)
        end
    end.

(** The configuration, from a transaction that is released and never ended. *)
Definition replay_config {J : Type} `{Json J} (parse : bytes -> option J) (cfg_txn : Txn T) : result ReplayHalt ChainConfig :=
  try (chain_config, _) := uncaught (read_chain_config parse cfg_txn) in
  match chain_config with None => Err (Terminated RuntimeError) | Some c => Ok c end.

(** The exit code is 0 whatever is reported; the blocks up to the number have been checked. *)
Definition check_changes {J : Type} `{Json J} (parse : bytes -> option J) (fuel : nat) (cfg_txn : Txn T) (snapshot : Z -> Txn T)
    (from to : Z) : result ReplayHalt (Z * list ChangeReport) :=
  try config := replay_config parse cfg_txn in
  changes_loop fuel snapshot config to from new_caches [].

(** ** cmd/scan_txs.cpp *)

Inductive ScanLine : Type :=
| ValidationError (err : ValidationResult) (block_num : Z)
| Counts (block_num nTxs nErrors : Z)
| Progress (block_num : Z)
| DbErrorLine (e : DbError).

(** [catch (lmdb::exception&)] and [catch (std::runtime_error&)]: nothing else is caught. *)
Definition caught_here (e : DbError) : bool :=
  match e with LmdbException _ | MissingSenders | RuntimeError => true | _ => false end.

Definition failures (receipts : list Receipt) : Z := zlen (List.filter (fun r => negb (success r)) receipts).

(** How a block ends that was executed: the line and the counters. *)
Definition count_block (block_num : Z) (receipts : list Receipt) (counters : Z * Z) : list ScanLine * (Z * Z) :=
  let nTxs := u64 (fst counters + zlen receipts) in
  let nErrors := u64 (snd counters + failures receipts) in
  if block_num mod 50000 =? 0 then ([Counts block_num nTxs nErrors], (0, 0))
  else if block_num mod 100 =? 0 then ([Progress block_num], (nTxs, nErrors))
  else ([], (nTxs, nErrors)).

(** The lines and the exit code. There is an assertion that each transaction has a receipt. *)
Fixpoint scan_loop (fuel : nat) (snapshot : Z -> Txn T) (config : ChainConfig) (to block_num : Z) (caches : Caches)
    (counters : Z * Z) (log : list ScanLine) : result ReplayHalt (Z * list ScanLine) :=
  if negb (block_num <? to) then Ok (0, log)
  else
    match fuel with
    | O => Err (Halted OutOfFuel)
    | S fuel =>
        let txn := snapshot block_num in
        match AccessLayer.read_block txn block_num true with
        | Undef => Undef
        | Err e => if caught_here e then Ok (-1, log ++ [DbErrorLine e]) else Err (Terminated e)
        | Ok None => Ok (0, log)
        | Ok (Some bh) =>
            try (receipts, err, _, caches) := halting (replay_block txn config block_num bh caches) in
            let log := if bool_decide (err = kOk) then log else log ++ [ValidationError err block_num] in
            if negb (length (transactions (body (block bh))) =? length receipts)%nat then Undef
            else
              let '(lines, counters) := count_block block_num receipts counters in
              scan_loop fuel snapshot config to (u64 (block_num + 1)) caches counters (log ++ lines)
        end
    end.

Definition scan_txs {J : Type} `{Json J} (parse : bytes -> option J) (fuel : nat) (cfg_txn : Txn T) (snapshot : Z -> Txn T)
    (from to : Z) : result ReplayHalt (Z * list ScanLine) :=
  if to <? from then Ok (-1, [])
  else
    try config := replay_config parse cfg_txn in
    scan_loop fuel snapshot config to from new_caches (0, 0) [].

End Programs.

(** * Lemmas *)

Lemma btree_bytes_in {V} (m : gmap bytes V) k v : (k, v) ∈ btree_bytes m <-> m !! k = Some v.
Proof. unfold btree_bytes. rewrite sorted_list_perm. apply elem_of_map_to_list. Qed.

(** A list of reports about the entries of a map is empty if each entry has none. *)
Lemma no_reports {V} (f : bytes * V -> list ChangeReport) (m : gmap bytes V) :
  concat (map f (btree_bytes m)) = [] <-> forall k v, m !! k = Some v -> f (k, v) = [].
Proof.
  rewrite concat_nil_Forall, Forall_map, List.Forall_forall. split.
  - intros Ha k v Hk. apply Ha. by apply list_elem_of_In, btree_bytes_in.
  - intros Ha [k v] Hk%list_elem_of_In%btree_bytes_in. by apply Ha.
Qed.

Lemma mismatch_nil block_num (l : list ChangeReport) : l ++ match l with [] => [] | _ => [AccountChangeMismatch block_num] end = [] <-> l = [].
Proof. by destruct l. Qed.

(** Changes agree if they are the same but for accounts that are known to be touched only. *)
Definition changes_agree (calculated stored : AccountChanges) : Prop :=
  forall a, calculated !! a = stored !! a \/ calculated !! a = None /\ a ∈ kPhantomAccounts.

Lemma compare_account_changes_spec block_num calculated stored :
  compare_account_changes block_num calculated stored = [] <-> changes_agree calculated stored.
Proof.
  unfold compare_account_changes, changes_agree. case_bool_decide as E; [subst; split; [by left|done]|].
  rewrite mismatch_nil. split.
  - intros [Hdb Hcalc]%app_eq_nil a. pose proof (proj1 (no_reports _ _) Hdb a) as H1. pose proof (proj1 (no_reports _ _) Hcalc a) as H2.
    unfold check_db_change, check_calculated_change in *. cbn [fst snd] in *.
    destruct (calculated !! a) as [val|], (stored !! a) as [val'|]; try by left.
    + specialize (H1 val' eq_refl). destruct (bytes_eqb val val') eqn:Eb; [|done]. apply bytes_eqb_eq in Eb as ->. by left.
    + by specialize (H2 val eq_refl).
    + specialize (H1 val' eq_refl). case_bool_decide; [by right|done].
  - intros Ha. match goal with |- ?x ++ ?y = [] => cut (x = [] /\ y = []); [by intros [-> ->]|] end.
    split; apply no_reports; intros a v Hv; unfold check_db_change, check_calculated_change; cbn [fst snd].
    + destruct (Ha a) as [Ea|[Ea Hp]]; rewrite Ea; [rewrite Hv; by rewrite (proj2 (bytes_eqb_eq _ _) eq_refl)|by rewrite bool_decide_eq_true_2].
    + destruct (Ha a) as [Ea|[Ea _]]; [by rewrite <- Ea, Hv|congruence].
Qed.

(** The loops end: each round is for the next block, up to the last. *)
Section Loops.
Context {T : Type} `{Lmdb T} {R : Type} `{Roaring R} `{CborEncoder}.
Context `{Evmone} `{Secp256k1} `{Gmp} `{Libff}.
Context (snapshot : Z -> Txn T) (config : ChainConfig) (to : Z).
Hypothesis blocks_end : forall txn n bh caches, replay_block txn config n bh caches <> Err OutOfFuel.

Lemma next_round fuel n : 0 <= n < to -> to < 2 ^ 64 -> (Z.to_nat (to - n) <= S fuel)%nat ->
  u64 (n + 1) = n + 1 /\ (Z.to_nat (to - (n + 1)) <= fuel)%nat.
Proof. intros Hn Hto Hf. split; [apply u64_small; lia|lia]. Qed.

Lemma changes_loop_ends : to < 2 ^ 64 -> forall fuel n caches log, 0 <= n -> (Z.to_nat (to - n) <= fuel)%nat ->
  changes_loop fuel snapshot config to n caches log <> Err (Halted OutOfFuel).
Proof.
  intros Hto. induction fuel as [|fuel IH]; intros n caches log Hn Hfuel; cbn [changes_loop]; destruct (Z.ltb_spec n to); cbn [negb]; try done; [lia|].
  destruct (next_round fuel n) as [-> Hf]; [lia|done|done|].
  destruct (AccessLayer.read_block _ n true) as [[bh|]| |]; cbn [uncaught result_bind]; try done.
  pose proof (blocks_end (snapshot n) n bh caches) as Hb.
  destruct (replay_block _ _ _ _ _) as [[[[receipts err] buffer] caches']|[]|]; cbn [halting result_bind]; [|done|done].
  case_bool_decide; cbn [negb]; [|apply IH; [lia|done]].
  destruct (compare_changes _ _ _); cbn [uncaught result_bind]; [apply IH; [lia|done]|done|done].
Qed.

Lemma scan_loop_ends : to < 2 ^ 64 -> forall fuel n caches counters log, 0 <= n -> (Z.to_nat (to - n) <= fuel)%nat ->
  scan_loop fuel snapshot config to n caches counters log <> Err (Halted OutOfFuel).
Proof.
  intros Hto. induction fuel as [|fuel IH]; intros n caches counters log Hn Hfuel; cbn [scan_loop]; destruct (Z.ltb_spec n to); cbn [negb]; try done; [lia|].
  destruct (next_round fuel n) as [-> Hf]; [lia|done|done|].
  destruct (AccessLayer.read_block _ n true) as [[bh|]|e|]; [|done|by destruct (caught_here e)|done].
  pose proof (blocks_end (snapshot n) n bh caches) as Hb.
  destruct (replay_block _ _ _ _ _) as [[[[receipts err] buffer] caches']|[]|]; cbn [halting result_bind]; [|done|done].
  case_match; [done|]. destruct (count_block n receipts counters) as [lines counters']. apply IH; [lia|done].
Qed.

End Loops.
