(* ===== verification/Genesis.v ===== *)
(** * Genesis: cmd/initialize_with_genesis.cpp

    The program that creates a database from a genesis file: its checks of the file, the allocation of the accounts, the
    header of the first block and the rows that are written for it. The JSON library, the parser of 256-bit numbers and
    the embedded files are parameters. Paths and messages are left out. *)

From stdpp Require Import gmap sets strings.
From S2P Require Import Prelude Util Keccak Rlp Account Transaction Block Chain Lmdb DbUtil AccessLayer DbBuffer DbBufferCorrect.
Local Open Scope Z_scope.
Local Open Scope silk_scope.

(** ** Libraries *)

(** nlohmann::json: [json_items] are the members of an object in the order of their names. *)
Class GenesisJson (J : Type) : Type := {
  json_parse : bytes -> option J;
  json_member : J -> string -> option J;
  json_is_object : J -> bool;
  json_text : J -> option bytes;
  json_items : J -> list (bytes * J);
  json_dump : J -> bytes
}.

(** [intx::from_string<intx::uint256>], which throws, and the memory of a number, [intx::as_bytes]. *)
Class Intx : Type := {
  uint256_from_string : bytes -> result DbError Z;
  as_bytes : Z -> bytes
}.

(** The embedded files: generated code. *)
Class GenesisData : Type := { genesis_mainnet_data : bytes; genesis_rinkeby_data : bytes; genesis_goerli_data : bytes }.

(** ** [std::stoull(s, nullptr, 0)] *)

Definition is_space (c : Z) : bool := (c =? 32) || ((9 <=? c) && (c <=? 13)).

Fixpoint skip_white (s : bytes) : bytes :=
  match s with c :: s' => if is_space c then skip_white s' else s | [] => [] end.

Definition digit_in (base c : Z) : option Z :=
  match decode_hex_digit c with Some v => if v <? base then Some v else None | None => None end.

(** The number in front, and whether there is a digit. *)
Fixpoint read_digits (base : Z) (s : bytes) (acc : Z) (any : bool) : Z * bool :=
  match s with
  | c :: s => match digit_in base c with Some v => read_digits base s (acc * base + v) true | None => (acc, any) end
  | [] => (acc, any)
  end.

Definition read_sign (s : bytes) : bool * bytes :=
  match s with c :: s' => if c =? 45 then (true, s') else if c =? 43 then (false, s') else (false, s) | [] => (false, s) end.

(** 0x in front of a hexadecimal digit, 0 in front of anything else. *)
Definition read_base (s : bytes) : Z * bytes :=
  match s with
  | z :: s' =>
      if z =? 48 then
        match s' with
        | x :: ((d :: _) as s'') =>
            if ((x =? 120) || (x =? 88)) && (match digit_in 16 d with Some _ => true | None => false end) then (16, s'') else (8, s)
        | _ => (8, s)
        end
      else (10, s)
  | [] => (10, s)
  end.

(** The text as a C string. *)
Fixpoint c_text (s : bytes) : bytes :=
  match s with c :: s => if c =? 0 then [] else c :: c_text s | [] => [] end.

Definition stoull (s : bytes) : result DbError Z :=
  let '(negative, s) := read_sign (skip_white (c_text s)) in
  let '(base, s) := read_base s in
  let '(n, any) := read_digits base s 0 false in
  if negb any then Err InvalidArgument
  else if 2 ^ 64 <=? n then Err RuntimeError
  else Ok (if negative then u64 (- n) else n).

(** ** The program *)

Definition genesis_body : bytes := [195; 128; 128; 192].
Definition genesis_receipts : bytes := [246].
Definition kLastHeaderKey : bytes := chars "LastHeader".

(** An array that is made into a view by way of a pointer: it ends in front of the first zero byte, and must have one. *)
Definition c_string (b : bytes) : result DbError bytes :=
  if existsb (fun x => x =? 0) b then Ok (c_text b) else Undef.

Section Genesis.
Context {T : Type} `{Lmdb T}.
Context {J : Type} `{Json J} `{GenesisJson J} `{Intx} `{GenesisData}.

Definition contains (json : J) (key : string) : bool := match json_member json key with Some _ => true | None => false end.

(** [json[key].get<std::string>()], which throws. *)
Definition text_of (json : J) (key : string) : result DbError bytes :=
  match json_member json key with
  | Some v => match json_text v with Some s => Ok s | None => Err RuntimeError end
  | None => Err RuntimeError
  end.

(** The file, the embedded one of the chain, or none. *)
Definition source_data (genesis : option bytes) (chain_id : Z) : option bytes :=
  match genesis with
  | Some data => Some data
  | None =>
      if chain_id =? 1 then Some genesis_mainnet_data
      else if chain_id =? 4 then Some genesis_rinkeby_data
      else if chain_id =? 5 then Some genesis_goerli_data
      else None
  end.

(** The members that are missing or of a wrong kind. *)
Definition sanity_errors (json : J) : list string :=
  let missing key := if contains json key then [] else [key] in
  missing "difficulty"%string ++ missing "nonce"%string ++ missing "gasLimit"%string ++ missing "timestamp"%string
  ++ missing "extraData"%string
  ++ (match json_member json "config" with
      | None => ["config"%string]
      | Some config =>
          if negb (json_is_object config) then ["config"%string]
          else if contains config "ethash" && negb (is_Ok (text_of json "mixhash")) then ["mixhash"%string]
          else []
      end)
  ++ (match json_member json "alloc" with Some alloc => if json_is_object alloc then [] else ["alloc"%string] | None => [] end).

Definition allocate (item : bytes * J) (state_buffer : DbBuffer) : result DbError DbBuffer :=
  let '(key, value) := item in
  if negb (json_is_object value && is_Ok (text_of value "balance")) then Err InvalidArgument
  else
    match from_hex key with
    | None => Err InvalidArgument
    | Some address_bytes =>
        if negb (length address_bytes =? kAddressLength)%nat then Err InvalidArgument
        else
          try balance_str := text_of value "balance" in
          try balance := uint256_from_string balance_str in
          Ok (db_update_account (to_address address_bytes) None (Some (mkAccount 0 balance kEmptyHash 0)) state_buffer)
    end.

(** The accounts, if there is an [alloc]; each must have given an entry of the changes. *)
Definition allocate_all (json : J) (state_buffer : DbBuffer) (txn : Txn T) : result DbError (DbBuffer * Txn T) :=
  match json_member json "alloc" with
  | None => Ok (state_buffer, txn)
  | Some alloc =>
      let expected_allocations := length (json_items alloc) in
      try state_buffer := for_each allocate (json_items alloc) state_buffer in
      match account_changes_ state_buffer !! 0 with
      | None => Err RuntimeError
      | Some changes =>
          if negb (size changes =? expected_allocations)%nat then Err RuntimeError
          else
            try txn' := write_to_db state_buffer (Some txn) in
            Ok (state_buffer, default txn txn')
      end
  end.

(** The nonce is copied from the memory of a number. *)
Definition make_header (json : J) (state_buffer : DbBuffer) : result DbError BlockHeader :=
  try extra := text_of json "extraData" in
  let extra_data := default [] (from_hex extra) in
  try mix_hash :=
    (if contains json "mixhash" then
       try mixhash := text_of json "mixhash" in
       match from_hex mixhash with
       | Some h => if (length h =? kHashLength)%nat then Ok h else Err InvalidArgument
       | None => Err InvalidArgument
       end
     else Ok zero_bytes32) in
  try state_root := (match db_state_root_hash state_buffer with Ok h => Ok h | _ => Undef end) in
  try difficulty_str := text_of json "difficulty" in
  try difficulty := uint256_from_string difficulty_str in
  try gas_limit_str := text_of json "gasLimit" in
  try gas_limit := stoull gas_limit_str in
  try timestamp_str := text_of json "timestamp" in
  try timestamp := stoull timestamp_str in
  try nonce_str := text_of json "nonce" in
  try nonce := stoull nonce_str in
  Ok (mkBlockHeader zero_bytes32 kEmptyListHash zero_address state_root kEmptyRoot kEmptyRoot empty_bloom difficulty 0 gas_limit 0
        timestamp extra_data mix_hash (to_le 8 nonce)).

(** [txn->open(config)->put(key, data)] *)
Definition put_one (row : TableConfig * item) (txn : Txn T) : result DbError (Txn T) :=
  try table := open_table (fst row) txn in
  try table := table_put table (fst (snd row)) (snd (snd row)) in
  Ok (with_table (fst row) table txn).

(** The rows of the first block. *)
Definition genesis_rows (header : BlockHeader) (block_hash difficulty_data config_data : bytes) : list (TableConfig * item) :=
  let key := zero_bytes 8 ++ block_hash in
  [(kHeaders, (key, encode_block_header header));
   (kCanonicalHashes, (block_key 0, block_hash));
   (kBlockBodies, (key, genesis_body));
   (kDifficulty, (key, difficulty_data));
   (kBlockReceipts, (take 8 key, genesis_receipts));
   (kHeadHeader, (kLastHeaderKey, block_hash));
   (kHeaderNumbers, (block_hash, take 8 key));
   (kConfig, (block_hash, config_data))].

Definition write_genesis (header : BlockHeader) (config : J) (txn : Txn T) : result DbError (Txn T) :=
  try difficulty_data := c_string (as_bytes (difficulty header)) in
  for_each put_one (genesis_rows header (block_header_hash header false) difficulty_data (c_text (json_dump config))) txn.

Definition genesis_body_of (json config : J) (txn : Txn T) : result DbError (Txn T) :=
  try txn := create_all txn in
  try (state_buffer, txn) := allocate_all json new_db_buffer txn in
  try header := make_header json state_buffer in
  write_genesis header config txn.

(** The exit code, and the database if there is one then: what was created is removed after an error. [data_exists] is
    whether the folder has a data file, [txn] a transaction of a new database, [committed] what its commit answers. *)
Definition initialize_with_genesis (genesis : option bytes) (chain_id : option Z) (data_exists : bool) (txn : Txn T)
    (committed : result MdbCode unit) : result unit (Z * option (Txn T)) :=
  let no_source := match genesis, chain_id with None, None => true | _, _ => false end in
  if no_source then Ok (-1, None)
  else if data_exists then Ok (-1, None)
  else
    match source_data genesis (default (-1) chain_id) with
    | None => Ok (-1, None)
    | Some data =>
        match json_parse data with
        | None => Ok (-1, None)
        | Some json =>
            match sanity_errors json, json_member json "config" with
            | [], Some config =>
                match from_json (Some config) with
                | Ok (Some _) =>
                    match (try txn := genesis_body_of json config txn in try _ := err_handler committed in Ok txn) with
                    | Ok txn => Ok (0, Some txn)
                    | Err (DecodingResultThrown _) => Err tt
                    | Err _ => Ok (-1, None)
                    | Undef => Undef
                    end
                | Ok None => Ok (-1, None)
                | _ => Undef
                end
            | _, _ => Ok (-1, None)
            end
        end
    end.

End Genesis.

(** * Lemmas *)

Section Rows.
Context {T : Type} `{LmdbLaws T}.
Implicit Types txn : Txn T.

Lemma put_one_written row txn t : table_at (fst row) txn t -> tb_dupsort t = false -> key_fits (fst (snd row)) ->
  exists txn', put_one row txn = Ok txn' /\ plain_written (fst row) [snd row] txn txn' /\ other_tables (fst row) txn txn'.
Proof.
  intros Ht Hd Hk. destruct (put_all_plain (fst row) [snd row] txn t Ht Hd) as (txn' & E & Hw).
  - constructor; [done|by apply Forall_nil].
  - intros k d d' E%list_elem_of_singleton E'%list_elem_of_singleton. congruence.
  - exists txn'. split; [|done]. rewrite <- E. unfold put_all, put_one. rewrite (open_table_spec _ _ _ Ht). cbn [result_bind for_each].
    by destruct (table_put t _ _).
Qed.

(** Rows for tables that differ are all there at the end. *)
Lemma put_rows rows : forall txn, NoDup (map (fun row => config_name (fst row)) rows) ->
  (forall row, row ∈ rows -> key_fits (fst (snd row)) /\ exists t, table_at (fst row) txn t /\ tb_dupsort t = false) ->
  exists txn', for_each put_one rows txn = Ok txn' /\ (forall row, row ∈ rows -> plain_written (fst row) [snd row] txn txn')
    /\ forall name, name ∉ map (fun row => config_name (fst row)) rows -> txn_tables txn' !! name = txn_tables txn !! name.
Proof.
  induction rows as [|row rows IH]; intros txn Hn Hrows.
  { exists txn. split; [done|]. split; [by intros row ?%elem_of_nil|done]. }
  cbn [map] in Hn. apply NoDup_cons in Hn as [Hni Hn].
  assert (forall other, other ∈ rows -> config_name (fst other) <> config_name (fst row)) as Hne
    by (intros other Ho E; apply Hni; rewrite <- E; by apply (list_elem_of_fmap_2 (fun row => config_name (fst row)))).
  destruct (Hrows row ltac:(by left)) as (Hk & t & Ht & Hd). destruct (put_one_written row txn t Ht Hd Hk) as (txn1 & E1 & Hw1 & Ho1).
  destruct (IH txn1 Hn) as (txn' & E' & Hw' & Ho').
  - intros other Ho. destruct (Hrows other ltac:(by right)) as (Hko & t' & Ht' & Hd'). split; [done|]. exists t'. split; [|done].
    unfold table_at in *. by rewrite Ho1 by by apply Hne.
  - exists txn'. cbn [for_each]. rewrite E1. cbn [result_bind]. split; [done|]. split.
    + intros other [->|Ho]%elem_of_cons.
      * apply (plain_written_frame _ _ txn txn txn1 txn'); [done|done|]. by apply Ho'.
      * apply (plain_written_frame _ _ txn txn1 txn' txn'); [by apply Hw'|by apply Ho1, Hne|done].
    + intros name Hname. cbn [map] in Hname. apply not_elem_of_cons in Hname as [H1 H2]. rewrite Ho' by done. by apply Ho1.
Qed.

Lemma via_get {A} config txn k (f : option bytes -> result DbError A) :
  (try table := open_table config txn in try x := table_get table k in f x) = try x := get_of config txn k in f x.
Proof. unfold get_of. by destruct (open_table config txn). Qed.

(** What [Transaction::get] answers of a table that is there. *)
Lemma txn_get_of config txn t k : table_at config txn t ->
  txn_get config k txn = try x := get_of config txn k in Ok (x, txn).
Proof.
  intros Ht. unfold txn_get, get_of. rewrite (open_table_spec _ _ _ Ht). cbn [result_bind].
  unfold txn_open. rewrite open_existing by by eexists. cbn [err_handler result_bind]. rewrite Ht. cbn [result_bind].
  unfold table_get. destruct (not_found _); by destruct txn.
Qed.

End Rows.

Lemma genesis_body_decoded : decode_stored_block_body genesis_body = Ok (mkBlockBodyForStorage 0 0 [], []).
Proof. vm_compute. reflexivity. Qed.

Lemma length_block_hash header for_sealing : length (block_header_hash header for_sealing) = kHashLength.
Proof. apply length_keccak256. Qed.

Lemma key_fits_length k n : length k = n -> (0 < n <= 511)%nat -> key_fits k.
Proof. unfold key_fits. lia. Qed.

(** The tables of the rows, each once. *)
Definition genesis_tables : list TableConfig :=
  [kHeaders; kCanonicalHashes; kBlockBodies; kDifficulty; kBlockReceipts; kHeadHeader; kHeaderNumbers; kConfig].

Lemma genesis_rows_tables header hash dd cd : map fst (genesis_rows header hash dd cd) = genesis_tables.
Proof. done. Qed.

Lemma genesis_tables_differ : NoDup (map config_name genesis_tables).
Proof. apply (bool_decide_unpack _). vm_compute. exact I. Qed.

Lemma genesis_keys_fit header hash dd cd row : length hash = kHashLength -> row ∈ genesis_rows header hash dd cd -> key_fits (fst (snd row)).
Proof.
  intros Hh. unfold genesis_rows. rewrite !elem_of_cons, elem_of_nil.
  intros [->|[->|[->|[->|[->|[->|[->|[->|[]]]]]]]]]; cbn [fst snd];
    (eapply key_fits_length; [rewrite ?length_take, ?length_app, ?Hh, ?length_zero_bytes; reflexivity|vm_compute; lia]).
Qed.

Lemma to_le_cons n x : to_le (S n) x = x mod 256 :: to_le n (x / 256).
Proof. unfold to_le. cbn [to_be]. by rewrite rev_app_distr. Qed.

(** A number below 2^248 has a zero byte to end at. *)
Lemma difficulty_text d : 0 <= d < 2 ^ 248 -> c_string (to_le 32 d) = Ok (c_text (to_le 32 d)).
Proof.
  intros Hd. unfold c_string. assert (existsb (fun x => x =? 0) (to_le 32 d) = true) as ->; [|done].
  unfold to_le. change 32%nat with (1 + 31)%nat. rewrite to_be_add by (change (256 ^ Z.of_nat 31) with (2 ^ 248); lia).
  rewrite rev_app_distr, existsb_app. cbn. apply orb_true_r.
Qed.

Lemma difficulty_text_empty d : d mod 256 = 0 -> c_text (to_le 32 d) = [].
Proof. intros Hd. rewrite to_le_cons, Hd. done. Qed.

Ltac row_in := repeat first [apply list_elem_of_here | apply list_elem_of_further].

(** * Properties *)

(** C21: A genesis block that was written is read back: under the hash of its header, the canonical one of number 0, there
    are the header and an empty body, its hash has its number, and the configuration is the text of the file. The
    total difficulty is not: of a number that 256 divides, as the one of the main chain, nothing is written, and
    reading it throws. *)
Theorem genesis_readable {T : Type} `{LmdbLaws T} {J : Type} `{Json J} `{GenesisJson J} `{Intx}
    (parse : bytes -> option J) (header : BlockHeader) (config : J) (txn : Txn T) :
  (forall d, as_bytes d = to_le 32 d) -> wf_block_header header -> difficulty header < 2 ^ 248 ->
  (forall table, table ∈ genesis_tables -> exists t, table_at table txn t /\ tb_dupsort t = false) ->
  let hash := block_header_hash header false in
  exists txn', write_genesis header config txn = Ok txn'
    /\ read_block txn' 0 false = Ok (Some (mkBlockWithHash (mkBlock (mkBlockBody [] []) header) hash))
    /\ get_of kHeaderNumbers txn' hash = Ok (Some (block_key 0))
    /\ read_chain_config parse txn'
       = match from_json (parse (c_text (json_dump config))) with Ok c => Ok (c, txn') | _ => Undef end
    /\ (difficulty header mod 256 = 0 -> read_total_difficulty txn' 0 hash = Err (DecodingException kInputTooShort)).
Proof.
  intros Hmem Hwf Hd Htables hash. assert (length hash = kHashLength) as Hlen by apply length_block_hash.
  set (rows := genesis_rows header hash (c_text (to_le 32 (difficulty header))) (c_text (json_dump config))).
  destruct (put_rows rows txn) as (txn' & E & Hw & _).
  { change (NoDup (map config_name genesis_tables)). apply genesis_tables_differ. }
  { intros row Hrow. split; [by apply (genesis_keys_fit _ _ _ _ _ Hlen Hrow)|]. apply Htables.
    rewrite <- (genesis_rows_tables header hash (c_text (to_le 32 (difficulty header))) (c_text (json_dump config))).
    by apply (list_elem_of_fmap_2 fst). }
  assert (forall table k d, (table, (k, d)) ∈ rows -> get_of table txn' k = Ok (Some d)) as Hget.
  { intros table k d Hrow. apply (plain_written_get _ _ _ _ _ (Hw _ Hrow)); [|by left].
    intros ->. pose proof (genesis_keys_fit _ _ _ _ _ Hlen Hrow) as Hfit. unfold key_fits in Hfit. cbn in Hfit. lia. }
  assert (0 <= difficulty header) as Hd0 by (destruct Hwf as [[] _]; unfold wf_u256 in *; lia).
  exists txn'. split; [unfold write_genesis; rewrite Hmem, difficulty_text by lia; exact E|].
  assert (block_key_hash 0 hash = zero_bytes 8 ++ hash) as Ek by done.
  split_and!.
  - unfold read_block. rewrite via_get. rewrite (Hget kCanonicalHashes (block_key 0) hash) by row_in.
    cbn [result_bind snd]. rewrite Hlen. cbn [Nat.eqb kHashLength negb]. rewrite via_get, Ek.
    rewrite (Hget kHeaders (zero_bytes 8 ++ hash) (encode_block_header header)) by row_in.
    cbn [result_bind snd]. unfold decode_value.
    rewrite <- (app_nil_r (encode_block_header header)), (field_roundtrip (dec := decode_block_header) header [] Hwf). cbn [rlp_err_handler result_bind].
    unfold read_body. rewrite via_get, Ek, (Hget kBlockBodies (zero_bytes 8 ++ hash) genesis_body) by row_in.
    cbn [result_bind snd]. by rewrite genesis_body_decoded.
  - apply (Hget kHeaderNumbers hash (block_key 0)). row_in.
  - unfold read_chain_config. destruct (Hw (kCanonicalHashes, (block_key 0, hash))) as (_ & t2 & _ & _ & Ht2 & _); [row_in|].
    destruct (Hw (kConfig, (hash, c_text (json_dump config)))) as (_ & t3 & _ & _ & Ht3 & _); [row_in|].
    cbn [fst] in Ht2, Ht3. rewrite (txn_get_of _ _ _ _ Ht2), (Hget kCanonicalHashes (block_key 0) hash) by row_in. cbn [result_bind snd].
    rewrite (txn_get_of _ _ _ _ Ht3), (Hget kConfig hash (c_text (json_dump config))) by row_in. done.
  - intros Hmod. unfold read_total_difficulty. rewrite via_get, Ek.
    rewrite (Hget kDifficulty (zero_bytes 8 ++ hash) (c_text (to_le 32 (difficulty header)))) by row_in.
    cbn [result_bind snd]. by rewrite difficulty_text_empty.
Qed.

(** A file whose text is [{}], and the block with the difficulty of the main chain. *)
#[local] Instance unit_json : Json unit := {| json_empty := tt; json_set j _ _ := j; json_find _ _ := None |}.
#[local] Instance unit_genesis : GenesisJson unit := {|
  json_parse _ := Some tt; json_member _ _ := None; json_is_object _ := true; json_text _ := None; json_items _ := [];
  json_dump _ := chars "{}" |}.
#[local] Instance plain_intx : Intx := {| uint256_from_string _ := Ok 0; as_bytes := to_le 32 |}.

Definition mainnet_header : BlockHeader :=
  mkBlockHeader zero_bytes32 kEmptyListHash zero_address zero_bytes32 kEmptyRoot kEmptyRoot empty_bloom (2 ^ 34) 0 5000 0 0 []
    zero_bytes32 (to_le 8 66).

Definition empty_tables : Txn RefTable :=
  mkTxn false (list_to_map (map (fun table => (config_name table, RefPlain ∅)) genesis_tables)).

Lemma empty_tables_there table : table ∈ genesis_tables -> exists t, table_at table empty_tables t /\ tb_dupsort t = false.
Proof.
  intros Ht. exists (RefPlain ∅). split; [|reflexivity]. unfold table_at, empty_tables. cbn [txn_tables].
  apply elem_of_list_to_map_1'; [|by apply (list_elem_of_fmap_2 (fun table => (config_name table, RefPlain ∅)))].
  intros y (table' & [= _ ->] & _)%list_elem_of_fmap. reflexivity.
Qed.

Lemma genesis_readable_witness : exists txn',
  write_genesis mainnet_header tt empty_tables = Ok txn'
  /\ read_total_difficulty txn' 0 (block_header_hash mainnet_header false) = Err (DecodingException kInputTooShort).
Proof.
  destruct (genesis_readable (fun _ => None) mainnet_header tt empty_tables) as (txn' & E & _ & _ & _ & Hd).
  - reflexivity.
  - split; [|vm_compute; reflexivity]. split; try (split; [|reflexivity]; apply (bool_decide_unpack _); vm_compute; exact I); try (unfold wf_u256, wf_u64; cbn; lia).
  - cbn. lia.
  - exact empty_tables_there.
  - exists txn'. split; [exact E|]. apply Hd. reflexivity.
Defined.

(** The nonce of the main chain's file is the number 66; in the header its bytes are the other way round than in the
    file, where validity.cpp and Ethash read the number from the front. *)
Example nonce_reversed :
  stoull (chars "0x0000000000000042") = Ok 66
  /\ to_le 8 66 = [66; 0; 0; 0; 0; 0; 0; 0] /\ from_hex (chars "0x0000000000000042") = Some [0; 0; 0; 0; 0; 0; 0; 66].
Proof. repeat split. Qed.
