(* ===== verification/DbTool.v ===== *)
(** * DbTool: cmd/dbtool.cpp

    The tool that empties or drops tables, compacts the file of a database and copies tables to another database; and
    the bar that shows how far it is. The commands that only list something (tables, scan, freelist, stages) and the
    arguments are left out. A signal to stop may come at any time: the model asks an oracle whenever the code looks at
    its flag, with how many times it has looked before. A commit of a transaction succeeds. *)

From Stdlib Require Import Sorted.
From stdpp Require Import gmap sets strings.
From S2P Require Import Prelude Util Etl Lmdb DbUtil AccessLayer DbBuffer DbBufferCorrect Env Stages StagesCorrect HashStateCorrect.
Local Open Scope Z_scope.
Local Open Scope silk_scope.

(** ** Progress *)

Record Progress : Type := mkProgress {
  bar_width_ : Z;
  percent_step_ : Z;
  max_counter_ : Z;
  current_counter_ : Z;
  printed_bar_len_ : Z
}.

Definition new_progress (width : Z) : Progress := mkProgress width (100 / width) 0 0 0.

Definition percent (p : Progress) : Z :=
  if max_counter_ p =? 0 then 100
  else if current_counter_ p =? 0 then 0
  else u32 (u64 (current_counter_ p * 100) / max_counter_ p).

Definition set_current (count : Z) (p : Progress) : Progress :=
  mkProgress (bar_width_ p) (percent_step_ p) (max_counter_ p) (Z.max count (current_counter_ p)) (printed_bar_len_ p).
Definition get_increment_count (p : Progress) : Z := max_counter_ p / bar_width_ p.
Definition set_task_count (iterations : Z) (p : Progress) : Progress := mkProgress (bar_width_ p) (percent_step_ p) iterations 0 0.

(** How many characters are printed. *)
Definition print_interval (p : Progress) : Z * Progress :=
  let percentage := Z.min (percent p) 100 in
  let numChars := percentage / percent_step_ p in
  if numChars =? 0 then (0, p)
  else
    let intChars := u32 (numChars - printed_bar_len_ p) in
    if intChars =? 0 then (0, p)
    else (intChars, mkProgress (bar_width_ p) (percent_step_ p) (max_counter_ p) (current_counter_ p) (u32 (printed_bar_len_ p + intChars))).

(** ** clear *)

Section Clear.
Context {T : Type} `{Lmdb T}.

(** The expression ^([yY])?([nN])?$ *)
Definition is_yes (c : Z) : bool := (c =? 121) || (c =? 89).
Definition is_no (c : Z) : bool := (c =? 110) || (c =? 78).
Definition matches (w : bytes) : bool :=
  match w with
  | [] => true
  | [c] => is_yes c || is_no c
  | [c; d] => is_yes c && is_no d
  | _ => false
  end.

(** The second group is not empty. *)
Definition declined (w : bytes) : bool := match last w with Some c => is_no c | None => false end.

(** The words of the input are read until one matches; at its end the word stays as it was, and the loop does not end if
    that is not one that matches. The answer, and the words that are left. *)
Fixpoint read_answer (user_input : bytes) (words : list bytes) : option (bytes * list bytes) :=
  match words with
  | [] => if matches user_input then Some (user_input, []) else None
  | w :: words => if matches w then Some (w, words) else read_answer w words
  end.

(** [Table::drop] *)
Definition table_drop (config : TableConfig) (t : T) (txn : Txn T) : result DbError (Txn T) :=
  try _ := err_handler (mdb_drop t) in Ok (mkTxn (txn_ro txn) (delete (config_name config) (txn_tables txn))).

Definition table_empty (config : TableConfig) (t : T) (txn : Txn T) : result DbError (Txn T) :=
  try t := err_handler (mdb_drop t) in Ok (with_table config t txn).

(** The loop over the names; it does not end where the answers do not. *)
Fixpoint clear_loop (names : list string) (drop yes : bool) (words : list bytes) (txn : Txn T) : option (result DbError (Txn T)) :=
  match names with
  | [] => Some (Ok txn)
  | tablename :: names =>
      let config := mkTableConfig (Some tablename) false None in
      match (try lmdb_tbl := open_table config txn in try rcount := table_get_rcount lmdb_tbl in Ok (lmdb_tbl, rcount)) with
      | Err e => Some (Err e)
      | Undef => Some Undef
      | Ok (lmdb_tbl, rcount) =>
          if (rcount =? 0) && negb drop then clear_loop names drop yes words txn
          else
            let clear words :=
              match (if drop then table_drop config lmdb_tbl txn else table_empty config lmdb_tbl txn) with
              | Ok txn => clear_loop names drop yes words txn
              | Err e => Some (Err e)
              | Undef => Some Undef
              end in
            if yes then clear words
            else
              match read_answer [] words with
              | None => None
              | Some (w, words) => if declined w then clear_loop names drop yes words txn else clear words
              end
      end
  end.

(** The exit code and the tables; every exception of the body is caught. *)
Definition do_clear (names : list string) (drop yes : bool) (words : list bytes) (txn : Txn T) : option (result unit (Z * Txn T)) :=
  match clear_loop names drop yes words txn with
  | None => None
  | Some (Ok txn') => Some (Ok (0, txn'))
  | Some (Err _) => Some (Ok (-1, txn))
  | Some Undef => Some Undef
  end.

End Clear.

(** ** compact *)

Section Compact.
Context {A : Type}.
Notation Files := (gmap string A).

(** [fs::rename], which throws if there is no such file. *)
Definition rename (old new : string) (fs : Files) : option Files :=
  match fs !! old with Some c => Some (<[new := c]> (delete old fs)) | None => None end.

(** The exit code and the files. [compacted] is what [mdb_env_copy2] answers for the data, [enough_space] whether the
    target has more room than the source takes. *)
Definition do_compact (replace nobak nosubdir enough_space stopped : bool) (compacted : A -> result MdbCode A)
    (src_path tgt_path src_path_bak : string) (fs : Files) : Z * Files :=
  match fs !! src_path with
  | None => (-1, fs)
  | Some data =>
      if negb enough_space then (-1, fs)
      else
        match compacted data with
        | Ok copy =>
            let fs := <[tgt_path := copy]> fs in
            if stopped then (0, fs)
            else if replace && negb nosubdir then
              match (if nobak then Some fs else rename src_path src_path_bak (delete src_path_bak fs)) with
              | None => (-1, fs)
              | Some fs =>
                  let fs := delete src_path fs in
                  match rename src_path tgt_path fs with Some fs => (0, fs) | None => (-1, fs) end
              end
            else (0, fs)
        | _ => (-1, fs)
        end
  end.

End Compact.

(** ** copy *)

(** The sizes that the pages of a table, of all tables and of the free list have. *)
Class Pages (T : Type) : Type := {
  table_size : T -> Z;
  tables_size : gmap (option string) T -> Z;
  free_size : gmap (option string) T -> Z
}.

Record CopyOptions : Type := mkCopyOptions {
  co_noempty : bool;
  co_upsert : bool;
  co_newmapsize : Z;
  co_tables : list string;
  co_xtables : list string;
  co_commitsize : Z
}.

Inductive CopyOutcome : Type := UnknownTable | NoMatchTables | MatchXtables | SkippedEmpty | AlreadyPopulated | Copied.

Section Copy.
Context {T : Type} `{Lmdb T} `{Pages T}.
Variables (options : CopyOptions) (should_stop : nat -> bool) (host_page_size : Z) (set : Z -> result MdbCode Z).

(** [get_tablesInfo] and [get_freeInfo], as far as they are used. *)
Record TargetInfo : Type := mkTargetInfo { ti_tables : gset (option string); ti_mapsize : Z; ti_size : Z; ti_free : Z }.

Definition get_info (env : Environment) (txn : Txn T) : TargetInfo :=
  mkTargetInfo (dom (txn_tables txn)) (env_mapsize env) (tables_size (txn_tables txn)) (free_size (txn_tables txn)).

(** What is committed in the target, its environment, the map size that the options have for it, the bytes written since
    the last commit that the size made, and how often the flag was looked at. *)
Record CopyState : Type := mkCopyState {
  target : Txn T;
  tgt_env : Environment;
  tgt_mapsize : Z;
  bytesWritten : Z;
  tgt_info : TargetInfo;
  clock : nat
}.

Definition looked (s : CopyState) : CopyState :=
  mkCopyState (target s) (tgt_env s) (tgt_mapsize s) (bytesWritten s) (tgt_info s) (S (clock s)).

(** An exception leaves what is committed by then. *)
Definition or_left {A} (committed : Txn T) (r : result DbError A) : result (DbError * Txn T) A :=
  match r with Ok a => Ok a | Err e => Err (e, committed) | Undef => Undef end.

Definition put_flags (config : TableConfig) : PutFlags :=
  if co_upsert options then NO_FLAGS else if config_dupsort config then MDB_APPENDDUP else MDB_APPEND.

(** The loop over the rows: the table as written, what is committed, the bytes and the looks. *)
Fixpoint copy_rows (fuel : nat) (lmdb_src_tbl : T) (config : TableConfig) (increment : Z) (rc : result MdbCode item)
    (lmdb_tgt_tbl : T) (committed : Txn T) (bytes_written batch_size : Z) (clock : nat)
  : result (DbError * Txn T) (T * Txn T * Z * nat) :=
  match rc with
  | Err MDB_NOTFOUND => Ok (lmdb_tgt_tbl, committed, bytes_written, clock)
  | Err rc => Err (LmdbException rc, committed)
  | Undef => Undef
  | Ok x =>
      try lmdb_tgt_tbl := or_left committed (table_put_flags (put_flags config) lmdb_tgt_tbl (fst x) (snd x)) in
      let bytes_written := u64 (bytes_written + (zlen (fst x) + zlen (snd x))) in
      let full := co_commitsize options <? bytes_written in
      let committed := if full then with_table config lmdb_tgt_tbl committed else committed in
      let bytes_written := if full then 0 else bytes_written in
      let batch_size := u64 (batch_size - 1) in
      let at_batch := batch_size =? 0 in
      if at_batch && should_stop clock then Ok (lmdb_tgt_tbl, committed, bytes_written, S clock)
      else
        match fuel with
        | O => Undef
        | S fuel =>
            copy_rows fuel lmdb_src_tbl config increment (mdb_cursor_get lmdb_src_tbl (Some x) MDB_NEXT [] []) lmdb_tgt_tbl
              committed bytes_written (if at_batch then increment else batch_size) (if at_batch then S clock else clock)
        end
  end.

(** More room, if the table does not fit into what is free. *)
Definition make_room (src_size : Z) (s : CopyState) : result DbError CopyState :=
  let tgt_free_space := u64 (ti_mapsize (tgt_info s) - ti_size (tgt_info s)) in
  let tgt_free_space := if co_upsert options then u64 (tgt_free_space + ti_free (tgt_info s)) else tgt_free_space in
  if tgt_free_space <? src_size then
    let mapsize := u64 (tgt_mapsize s + u64 (src_size - tgt_free_space)) in
    let mapsize := u64 (u64 (u64 (mapsize + co_commitsize options) - 1) / co_commitsize options * co_commitsize options) in
    try env := set_mapsize host_page_size mapsize set (tgt_env s) in
    Ok (mkCopyState (target s) env (env_mapsize env) (bytesWritten s) (tgt_info s) (clock s))
  else Ok s.

(** The table of the target, which is created if it was not there. *)
Definition copy_into (config : TableConfig) (lmdb_src_tbl : T) (s : CopyState) : result (DbError * Txn T) (CopyOutcome * CopyState) :=
  let exists_on_target := bool_decide (config_name config ∈ ti_tables (tgt_info s)) in
  try (lmdb_tgt_tbl, _) := or_left (target s) (txn_open config (negb exists_on_target) (target s)) in
  try ms_entries := or_left (target s) (table_get_rcount lmdb_tgt_tbl) in
  if exists_on_target && negb (ms_entries =? 0) && negb (co_upsert options) then Ok (AlreadyPopulated, s)
  else
    try src_entries := or_left (target s) (table_get_rcount lmdb_src_tbl) in
    let increment := get_increment_count (set_task_count src_entries (new_progress 50)) in
    try (lmdb_tgt_tbl, committed, bytes_written, clock) :=
      copy_rows (rows lmdb_src_tbl) lmdb_src_tbl config increment (mdb_cursor_get lmdb_src_tbl None MDB_FIRST [] [])
        lmdb_tgt_tbl (target s) (bytesWritten s) increment (clock s) in
    let committed := if negb (should_stop clock) && negb (bytes_written =? 0) then with_table config lmdb_tgt_tbl committed else committed in
    let info := if should_stop (S clock) then tgt_info s else get_info (tgt_env s) committed in
    Ok (Copied, mkCopyState committed (tgt_env s) (tgt_mapsize s) bytes_written info (S (S clock))).

(** One table of the source. *)
Definition copy_table (source : Txn T) (name : string) (s : CopyState) : result (DbError * Txn T) (CopyOutcome * CopyState) :=
  match get_config name with
  | None => Ok (UnknownTable, s)
  | Some src_config =>
      if negb (bool_decide (co_tables options = [])) && negb (bool_decide (name ∈ co_tables options)) then Ok (NoMatchTables, s)
      else if bool_decide (name ∈ co_xtables options) then Ok (MatchXtables, s)
      else
        try lmdb_src_tbl := or_left (target s) (open_table src_config source) in
        try ms_entries := or_left (target s) (table_get_rcount lmdb_src_tbl) in
        if (ms_entries =? 0) && co_noempty options then Ok (SkippedEmpty, s)
        else
          try s := or_left (target s) (make_room (table_size lmdb_src_tbl) s) in
          copy_into src_config lmdb_src_tbl s
  end.

Fixpoint copy_tables (source : Txn T) (names : list string) (s : CopyState) (log : list (string * CopyOutcome))
  : result (DbError * Txn T) (CopyState * list (string * CopyOutcome)) :=
  match names with
  | [] => Ok (s, log)
  | name :: names =>
      if should_stop (clock s) then Ok (looked s, log)
      else
        try (outcome, s) := copy_table source name (looked s) in
        copy_tables source names s (log ++ [(name, outcome)])
  end.

(** The named tables of a database in the order of their names. *)
Definition table_names (txn : Txn T) : list string :=
  sorted_list (fun x y => bytes_ltb (chars x) (chars y)) (omap id (elements (dom (txn_tables txn)))).

(** The exit code, what is in the target, and what was done with each table. *)
Definition do_copy (source tgt : Txn T) (env : Environment) : result unit (Z * Txn T * list (string * CopyOutcome)) :=
  let names := table_names source in
  match names with
  | [] => Ok (-1, tgt, [])
  | _ =>
      match copy_tables source names (mkCopyState tgt env (co_newmapsize options) 0 (get_info env tgt) 0) [] with
      | Ok (s, log) => Ok (0, target s, log)
      | Err (_, committed) => Ok (-1, committed, [])
      | Undef => Undef
      end
  end.

End Copy.

(** * Lemmas *)

(** ** Progress *)

(** What is printed adds up: after each call there are as many characters as steps were reached. *)
Lemma print_interval_reached p n p' : 0 < percent_step_ p -> 0 <= printed_bar_len_ p <= Z.min (percent p) 100 / percent_step_ p ->
  print_interval p = (n, p') ->
  printed_bar_len_ p' = Z.min (percent p) 100 / percent_step_ p /\ n = printed_bar_len_ p' - printed_bar_len_ p.
Proof.
  intros Hs Hb. unfold print_interval. set (numChars := Z.min (percent p) 100 / percent_step_ p) in *.
  assert (numChars <= 100) as H100.
  { unfold numChars. apply Z.div_le_upper_bound; [done|]. nia. }
  destruct (Z.eqb_spec numChars 0); [intros [= <- <-]; lia|].
  unfold u32. rewrite (wrap_small 32 (numChars - printed_bar_len_ p)) by lia.
  destruct (Z.eqb_spec (numChars - printed_bar_len_ p) 0); intros [= <- <-]; [lia|]. cbn [printed_bar_len_].
  rewrite wrap_small by lia. lia.
Qed.

(** ** compact *)

Section CompactLemmas.
Context {A : Type}.

(** A replacement fails behind the removal of the file that it was to replace: the file is renamed to the name of the
    copy, not the copy to the name of the file. Without a backup its data are gone. *)
Theorem compact_replace_fails (compacted : A -> result MdbCode A) (src_path tgt_path src_path_bak : string) (data copy : A)
    (nobak : bool) (fs : gmap string A) :
  fs !! src_path = Some data -> compacted data = Ok copy ->
  src_path <> tgt_path -> src_path <> src_path_bak -> src_path_bak <> tgt_path ->
  exists fs', do_compact true nobak false true false compacted src_path tgt_path src_path_bak fs = (-1, fs')
    /\ fs' !! src_path = None /\ fs' !! tgt_path = Some copy
    /\ fs' !! src_path_bak = if nobak then fs !! src_path_bak else Some data.
Proof.
  intros Hd Hc H1 H2 H3. unfold do_compact. rewrite Hd, Hc. cbn [negb andb]. destruct nobak.
  - unfold rename. rewrite lookup_delete_eq. eexists. split; [done|]. split; [apply lookup_delete_eq|].
    rewrite !lookup_delete_ne by done. split; [apply lookup_insert_eq|]. by rewrite lookup_insert_ne.
  - unfold rename at 1. rewrite lookup_delete_ne, lookup_insert_ne by done. rewrite Hd. unfold rename. rewrite lookup_delete_eq.
    eexists. split; [done|]. split; [apply lookup_delete_eq|]. rewrite !lookup_delete_ne by done. split.
    + rewrite lookup_insert_ne, !lookup_delete_ne by done. apply lookup_insert_eq.
    + apply lookup_insert_eq.
Qed.

End CompactLemmas.

(** ** clear *)

(** At the end of the input, the question with the default of no is answered by yes. *)
Example answer_at_end : read_answer [] [] = Some ([], []) /\ declined [] = false.
Proof. done. Qed.

(** ** copy *)

Section CopyLemmas.
Context {T : Type} `{LmdbLaws T} `{Pages T}.
Variables (options : CopyOptions) (should_stop : nat -> bool) (host_page_size : Z) (set : Z -> result MdbCode Z).
Hypothesis never_stopped : forall n, should_stop n = false.
Hypothesis appending : co_upsert options = false.
Hypothesis commits : 0 <= co_commitsize options < 2 ^ 63.
Implicit Types t : T.

Definition put_item (flags : PutFlags) (x : item) (t : T) : result DbError T := table_put_flags flags t (fst x) (snd x).

(** Rows as a database can have them. *)
Definition row_fits (dupsort : bool) (x : item) : Prop :=
  key_fits (fst x) /\ (dupsort = true -> key_fits (snd x)) /\ zlen (snd x) < 2 ^ 32.

Lemma with_table_twice config t t' (txn : Txn T) : with_table config t' (with_table config t txn) = with_table config t' txn.
Proof. unfold with_table. cbn. by rewrite insert_insert_eq. Qed.

(** The rows are written to the table, and what a commit at the end would add is what is not committed yet. *)
Lemma copy_rows_spec src config increment l : forall fuel rc t t' committed bytes batch clock,
  walks (next_row src) rc l -> (length l <= fuel)%nat -> Forall (row_fits (config_dupsort config)) l ->
  for_each (put_item (put_flags options config)) l t = Ok t' -> 0 <= bytes <= co_commitsize options ->
  exists committed' bytes' clock',
    copy_rows options should_stop fuel src config increment rc t committed bytes batch clock = Ok (t', committed', bytes', clock')
    /\ 0 <= bytes' <= co_commitsize options /\ with_table config t' committed' = with_table config t' committed
    /\ (l = [] -> committed' = committed /\ bytes' = bytes)
    /\ (l <> [] -> bytes' = 0 -> committed' = with_table config t' committed).
Proof.
  induction l as [|x l IH]; intros fuel rc t t' committed bytes batch clock Hw Hl Hfit Hput Hb; cbn [walks] in Hw.
  { subst rc. injection Hput as <-. exists committed, bytes, clock. by destruct fuel. }
  destruct Hw as [-> Hw]. cbn [length] in Hl. destruct fuel as [|fuel]; [lia|]. inversion Hfit as [|? ? (Hk & _ & Hd) Hfit']; subst.
  cbn [for_each] in Hput. unfold put_item at 1 in Hput.
  destruct (table_put_flags (put_flags options config) t (fst x) (snd x)) as [t1| |] eqn:Et; [|done|done]. cbn [result_bind] in Hput.
  cbn [copy_rows]. rewrite Et. cbn [or_left result_bind]. unfold key_fits in Hk. rewrite (u64_small (bytes + _)) by lia.
  set (b1 := bytes + (zlen (fst x) + zlen (snd x))). rewrite never_stopped, andb_false_r.
  destruct (Z.ltb_spec (co_commitsize options) b1) as [Hfull|Hfull].
  all: match goal with |- context [copy_rows _ _ _ _ _ _ _ _ ?c ?b ?bs ?k] =>
         destruct (IH fuel (next_row src x) t1 t' c b bs k) as (c' & b' & k' & E & Hb' & Hwt & Hnil & Hcons) end;
    [exact Hw|lia|exact Hfit'|exact Hput|unfold b1 in *; lia|].
  - change (mdb_cursor_get src (Some x) MDB_NEXT [] []) with (next_row src x). rewrite E. exists c', b', k'. split; [done|]. split; [done|].
    split; [by rewrite Hwt, with_table_twice|]. split; [done|]. intros _ Hb0. destruct l as [|y l].
    + destruct (Hnil eq_refl) as [-> _]. cbn in Hput. by injection Hput as <-.
    + by rewrite Hcons, with_table_twice.
  - change (mdb_cursor_get src (Some x) MDB_NEXT [] []) with (next_row src x). rewrite E. exists c', b', k'. split; [done|]. split; [done|].
    split; [done|]. split; [done|]. intros _ Hb0. destruct l as [|y l]; [|by apply Hcons].
    destruct (Hnil eq_refl) as [_ ->]. unfold b1 in Hb0. lia.
Qed.

Definition to_entry (x : item) : Entry := mkEntry (fst x) (snd x).

Lemma put_items_entries flags l : forall t, for_each (put_item flags) l t = for_each (put_entry flags) (map to_entry l) t.
Proof. induction l as [|x l IH]; intros t; [done|]. cbn [for_each map]. unfold put_item at 1, put_entry at 1. cbn. by destruct (table_put_flags _ _ _ _); cbn. Qed.

(** Rows in order are appended to an empty table, each once. *)
Lemma append_rows config src l t : tb_dupsort src = config_dupsort config -> tb_dupsort t = config_dupsort config -> tb_items t = ∅ ->
  (forall x, x ∈ l <-> x ∈ tb_items src) -> StronglySorted item_lt l -> Forall (row_fits (config_dupsort config)) l ->
  exists t', for_each (put_item (put_flags options config)) l t = Ok t' /\ tb_items t' = tb_items src.
Proof.
  intros Hds Hdt He Hin Hs Hfit. rewrite put_items_entries. unfold put_flags. rewrite appending.
  assert (forall x, x ∉ tb_items t) as Hno by (intros x; rewrite He; apply not_elem_of_empty).
  destruct (config_dupsort config) eqn:Ed.
  - destruct (append_dup_entries (map to_entry l)) with (t := t) as (t' & E & _ & Hi); [| |done|intros e x _ Hx; by destruct (Hno x)|].
    + clear -Hs. induction Hs as [|x l Hs IH Hlt]; cbn [map]; constructor; [done|]. apply Forall_map. eapply Forall_impl; [exact Hlt|].
      intros y Hy. unfold entry_lt, entry_item, to_entry. cbn. by destruct x, y.
    + apply Forall_map. eapply Forall_impl; [exact Hfit|]. intros x (Hk & Hv & _). cbn. split; [done|by apply Hv].
    + exists t'. split; [done|]. apply set_eq. intros x. rewrite Hi, map_map, <- Hin.
      assert (map (fun x => entry_item (to_entry x)) l = l) as -> by (rewrite <- (map_id l) at 2; apply map_ext; by intros []).
      split; [intros [?|Hx]; [done|by destruct (Hno x)]|by left].
  - assert (StronglySorted key_lt (map to_entry l)) as Hkeys.
    { assert (forall x, x ∈ l -> x ∈ tb_items src) as Hsub by (intros x; apply Hin). clear -Hs Hds Hsub H0.
      induction Hs as [|x l Hs IH Hlt]; cbn [map]; constructor; [apply IH; intros y Hy; apply Hsub; by right|].
      apply Forall_map, Forall_forall. intros y Hy. rewrite Forall_forall in Hlt. specialize (Hlt y Hy). unfold key_lt, to_entry. cbn.
      unfold item_lt, item_ltb in Hlt. apply orb_true_iff in Hlt as [?|[Ek%bytes_eqb_eq Ev]%andb_true_iff]; [done|]. exfalso.
      destruct x as [k d], y as [k' d']. cbn in *. subst k'. assert (d = d') as <-; [|by rewrite bytes_ltb_irrefl in Ev].
      apply (plain_unique src k); [done|apply Hsub; by left|apply Hsub; by right]. }
    destruct (put_entries MDB_APPEND (map to_entry l) Hkeys) with (t := t) as (t' & E & _ & Hi); [|done| |].
    + apply Forall_map. eapply Forall_impl; [exact Hfit|]. by intros x [Hk _].
    + intros e _. right. split; [done|]. intros x Hx. by destruct (Hno x).
    + exists t'. split; [done|]. apply set_eq. intros x. rewrite Hi, <- Hin. split.
      * intros [(e & (y & -> & Hy)%list_elem_of_fmap & ->)|[Hx _]]; [by destruct y|by destruct (Hno x)].
      * intros Hx. left. exists (to_entry x). split; [by apply list_elem_of_fmap_2|]. by destruct x.
Qed.

(** A table that the target does not have is there behind its copy, with the rows of the source. *)
Lemma copy_into_spec config src (s : CopyState (T := T)) :
  tb_dupsort src = config_dupsort config -> (forall x, x ∈ tb_items src -> row_fits (config_dupsort config) x) -> tb_items src <> ∅ ->
  txn_ro (target s) = false -> txn_tables (target s) !! config_name config = None ->
  ti_tables (tgt_info s) = dom (txn_tables (target s)) -> 0 <= bytesWritten s <= co_commitsize options ->
  exists s' t', copy_into options should_stop config src s = Ok (Copied, s')
    /\ target s' = with_table config t' (target s) /\ tb_items t' = tb_items src
    /\ tgt_env s' = tgt_env s /\ tgt_info s' = get_info (tgt_env s') (target s') /\ 0 <= bytesWritten s' <= co_commitsize options.
Proof.
  intros Hds Hfit Hne Hrw Hnone Hinfo Hb. unfold copy_into. rewrite Hinfo.
  rewrite bool_decide_eq_false_2 by by apply not_elem_of_dom. cbn [negb andb].
  destruct (open_create (txn_tables (target s)) (config_name config) (config_dupsort config) Hnone) as (t & Eo & He & Hd).
  unfold txn_open. rewrite Hrw, Eo. cbn [err_handler result_bind or_left]. rewrite lookup_insert_eq. cbn [or_left result_bind].
  unfold table_get_rcount. rewrite !stat_entries. cbn [err_handler or_left result_bind].
  destruct (walk_from src (mdb_cursor_get src None MDB_FIRST [] []) (fun _ => true)) as (l & Hw & Hin & Hs & Hl); [done| |].
  { eapply finds_least_iff; [|exact (get_first src None [] [])]. done. }
  assert (forall x, x ∈ l <-> x ∈ tb_items src) as Hin' by (intros x; rewrite Hin; tauto).
  assert (Forall (row_fits (config_dupsort config)) l) as Hfl by (apply Forall_forall; intros x Hx; by apply Hfit, Hin').
  destruct (append_rows config src l t Hds Hd He Hin' Hs Hfl) as (t' & Hput & Ht').
  assert (l <> []) as Hlne by (intros ->; apply Hne, set_eq; intros x; rewrite <- Hin', elem_of_nil, elem_of_empty; done).
  match goal with |- context [copy_rows _ _ _ _ _ ?i _ _ _ ?b ?bs ?k] =>
    destruct (copy_rows_spec src config i l (rows src) _ t t' (target s) b bs k Hw Hl Hfl Hput Hb) as (c' & b' & k' & -> & Hb' & Hwt & _ & Hcons) end.
  cbn [or_left result_bind]. rewrite !never_stopped. cbn [negb andb].
  assert ((if negb (b' =? 0) then with_table config t' c' else c') = with_table config t' (target s)) as ->.
  { destruct (Z.eqb_spec b' 0); cbn [negb]; [by apply Hcons|done]. }
  eexists. exists t'. split; [done|]. cbn [target tgt_env tgt_info bytesWritten]. split_and!; done || lia.
Qed.

(** Tables that a target can have on the way: its own, and some with the rows of the source. *)
Definition on_the_way (source tgt : Txn T) (tbs : gmap (option string) T) : Prop :=
  forall name t, tbs !! name = Some t ->
    txn_tables tgt !! name = Some t \/ exists ts, txn_tables source !! name = Some ts /\ tb_items t = tb_items ts.

(** Whatever was copied, there is room for the next table. *)
Definition roomy (env : Environment) (source tgt : Txn T) : Prop :=
  forall tbs name ts, on_the_way source tgt tbs -> txn_tables source !! name = Some ts ->
    0 <= table_size ts /\ 0 <= tables_size tbs /\ tables_size tbs + table_size ts <= env_mapsize env < 2 ^ 64.

Lemma make_room_roomy source tgt name ts (s : CopyState (T := T)) : roomy (tgt_env s) source tgt -> on_the_way source tgt (txn_tables (target s)) ->
  tgt_info s = get_info (tgt_env s) (target s) -> txn_tables source !! name = Some ts ->
  make_room options host_page_size set (table_size ts) s = Ok s.
Proof.
  intros Hr Hway Hi Hts. unfold make_room. rewrite appending, Hi. cbn [ti_mapsize ti_size get_info].
  destruct (Hr _ name ts Hway Hts) as (H2 & H3 & H4). rewrite u64_small by lia.
  destruct (Z.ltb_spec (env_mapsize (tgt_env s) - tables_size (txn_tables (target s))) (table_size ts)); [lia|done].
Qed.

Lemma get_config_name name config : get_config name = Some config -> config_name config = Some name.
Proof. unfold get_config. induction kTables as [|c l IH]; cbn [find_config]; [done|]. case_decide; [by intros [= <-]|done]. Qed.

Lemma names_nodup (l : list (option string)) : NoDup l -> NoDup (omap id l).
Proof.
  induction 1 as [|[name|] l Hni Hn IH]; [by apply NoDup_nil|..]; cbn; [|done]. apply NoDup_cons. split; [|done].
  rewrite list_elem_of_omap. intros (x & Hx & E). cbn in E. by subst.
Qed.

(** What the source must be like for a table of it to be copied. *)
Definition copyable (source : Txn T) (name : string) : Prop :=
  forall config, get_config name = Some config -> exists ts, txn_tables source !! Some name = Some ts
    /\ tb_dupsort ts = config_dupsort config /\ tb_items ts <> ∅ /\ forall x, x ∈ tb_items ts -> row_fits (config_dupsort config) x.

(** The names of [l] have been copied. *)
Definition copied (source : Txn T) (names : list string) (tgt : Txn T) : Prop :=
  forall name config ts, name ∈ names -> get_config name = Some config -> txn_tables source !! Some name = Some ts ->
    exists t', txn_tables tgt !! Some name = Some t' /\ tb_items t' = tb_items ts.

Record copying (source tgt : Txn T) (s : CopyState (T := T)) : Prop := {
  cp_writable : txn_ro (target s) = false;
  cp_info : tgt_info s = get_info (tgt_env s) (target s);
  cp_room : roomy (tgt_env s) source tgt;
  cp_tables : on_the_way source tgt (txn_tables (target s));
  cp_bytes : 0 <= bytesWritten s <= co_commitsize options
}.

Hypothesis all_tables : co_tables options = [] /\ co_xtables options = [].

Lemma copy_table_spec source tgt name s : copying source tgt s -> copyable source name -> txn_tables (target s) !! Some name = None ->
  exists outcome s', copy_table options should_stop host_page_size set source name s = Ok (outcome, s') /\ copying source tgt s'
    /\ copied source [name] (target s') /\ forall other, other <> Some name -> txn_tables (target s') !! other = txn_tables (target s) !! other.
Proof.
  intros Hc Hcopy Hnone. unfold copy_table. destruct (get_config name) as [config|] eqn:Ec.
  2:{ exists UnknownTable, s. split; [done|]. split; [done|]. split; [|done]. intros other config ts ->%list_elem_of_singleton. congruence. }
  pose proof (get_config_name _ _ Ec) as En. destruct (Hcopy config Ec) as (ts & Hts & Hds & Hne & Hfit).
  destruct all_tables as [-> ->]. rewrite bool_decide_eq_true_2, bool_decide_eq_false_2 by (done || apply not_elem_of_nil). cbn [negb andb].
  assert (table_at config source ts) as Hat by (unfold table_at; by rewrite En). rewrite (open_table_spec _ _ _ Hat). cbn [or_left result_bind].
  unfold table_get_rcount. rewrite stat_entries. cbn [err_handler or_left result_bind].
  destruct (Z.eqb_spec (Z.of_nat (size (tb_items ts))) 0) as [E|_].
  { destruct Hne. apply leibniz_equiv, size_empty_inv. lia. }
  cbn [andb]. destruct Hc as [Hrw Hinfo Hroom Hway Hb]. rewrite (make_room_roomy source tgt (Some name) ts s) by done. cbn [or_left result_bind].
  destruct (copy_into_spec config ts s Hds Hfit Hne Hrw) as (s' & t' & -> & Et & Hi & Henv & Hinfo' & Hb'); [by rewrite En|by rewrite Hinfo|done|].
  exists Copied, s'. split; [done|]. split; [split; [by rewrite Et|done|by rewrite Henv| |done]|].
  { rewrite Et. intros other t. unfold with_table. cbn [txn_tables]. rewrite En.
    intros [[<- <-]|[_ Ho]]%lookup_insert_Some; [right; by exists ts|by apply Hway]. }
  rewrite Et. split.
  - intros other config' ts' ->%list_elem_of_singleton _ Hts'. exists t'. unfold with_table. cbn [txn_tables]. rewrite En.
    split; [apply lookup_insert_eq|]. congruence.
  - intros other Ho. unfold with_table. cbn [txn_tables]. by rewrite En, lookup_insert_ne.
Qed.

Lemma copy_tables_spec source tgt names : forall s log, NoDup names -> copying source tgt s ->
  (forall name, name ∈ names -> copyable source name /\ txn_tables (target s) !! Some name = None) ->
  exists s' log', copy_tables options should_stop host_page_size set source names s log = Ok (s', log')
    /\ copied source names (target s')
    /\ forall other, (forall name, name ∈ names -> other <> Some name) -> txn_tables (target s') !! other = txn_tables (target s) !! other.
Proof.
  induction names as [|name names IH]; intros s log Hn Hc Hnames.
  { exists s, log. split; [done|]. split; [by intros name config ts ?%elem_of_nil|done]. }
  apply NoDup_cons in Hn as [Hni Hn]. cbn [copy_tables]. rewrite never_stopped.
  destruct (Hnames name ltac:(by left)) as [Hcopy Hnone].
  destruct (copy_table_spec source tgt name (looked s)) as (outcome & s1 & -> & Hc1 & Hcop1 & Hoth1); [by destruct Hc|done|done|].
  cbn [result_bind]. destruct (IH s1 (log ++ [(name, outcome)]) Hn Hc1) as (s' & log' & -> & Hcop & Hoth).
  { intros other Ho. destruct (Hnames other ltac:(by right)) as [? Hno]. split; [done|]. rewrite Hoth1; [done|]. intros [= ->]. done. }
  exists s', log'. split; [done|]. split.
  - intros other config ts [->|Ho]%elem_of_cons Hcfg Hts; [|by apply (Hcop other config)].
    destruct (Hcop1 name config ts ltac:(by left) Hcfg Hts) as (t' & Ht' & Hi). exists t'. split; [|done].
    rewrite Hoth; [done|]. intros other Ho [= ->]. done.
  - intros other Ho. rewrite Hoth by (intros name' Hn'; apply Ho; by right). apply Hoth1, Ho. by left.
Qed.

End CopyLemmas.

(** * Properties *)

(** C33: A copy into a database that has none of the tables, which is not stopped and has room, ends with success, and every
    table that the program knows has the rows there that it has in the source, however often it commits in between.
    The tables of the source must not be empty: an empty one may be left out ([empty_table_left_out]). *)
Theorem copy_correct {T : Type} `{LmdbLaws T} `{Pages T} (options : CopyOptions) (host_page_size : Z) (set : Z -> result MdbCode Z)
    (source tgt : Txn T) (env : Environment) :
  co_upsert options = false -> 0 <= co_commitsize options < 2 ^ 63 -> co_tables options = [] /\ co_xtables options = [] ->
  txn_ro tgt = false -> roomy env source tgt ->
  (exists name, is_Some (txn_tables source !! Some name)) ->
  (forall name, is_Some (txn_tables source !! Some name) -> copyable source name /\ txn_tables tgt !! Some name = None) ->
  exists tgt' log, do_copy options (fun _ => false) host_page_size set source tgt env = Ok (0, tgt', log)
    /\ (forall name config ts, get_config name = Some config -> txn_tables source !! Some name = Some ts ->
          exists t', txn_tables tgt' !! Some name = Some t' /\ tb_items t' = tb_items ts)
    /\ forall name, txn_tables source !! Some name = None -> txn_tables tgt' !! Some name = txn_tables tgt !! Some name.
Proof.
  intros Hup Hcommit Hall Hrw Hroom [name0 Hname0] Hnames. unfold do_copy.
  assert (forall name, name ∈ table_names source <-> is_Some (txn_tables source !! Some name)) as Hin.
  { intros name. unfold table_names. rewrite sorted_list_perm, list_elem_of_omap. setoid_rewrite elem_of_elements. setoid_rewrite elem_of_dom.
    split; [intros (x & Hx & E); cbn in E; by subst|intros Hx; by exists (Some name)]. }
  assert (NoDup (table_names source)) as Hnd.
  { unfold table_names. rewrite sorted_list_perm. apply names_nodup, NoDup_elements. }
  assert (table_names source <> []) as Hne by (intros E; rewrite <- Hin, E in Hname0; by apply elem_of_nil in Hname0).
  destruct (copy_tables_spec options (fun _ => false) host_page_size set (fun _ => eq_refl) Hup Hcommit Hall source tgt (table_names source)
    (mkCopyState tgt env (co_newmapsize options) 0 (get_info env tgt) 0) [] Hnd) as (s' & log & E & Hcop & Hoth).
  - split; cbn; [done|done|done|intros name t Ht; by left|lia].
  - intros name Hn%Hin. by apply Hnames.
  - exists (target s'), log. split; [rewrite E; by destruct (table_names source)|]. split.
    + intros name config ts Hcfg Hts. apply (Hcop name config); [apply Hin; by eexists|done|done].
    + intros name Hno. apply Hoth. intros name' Hn' [= ->]. apply Hin in Hn' as [? ?]. congruence.
Qed.

(** Nothing is committed behind a table without rows, if nothing was written before it: it is not in the target. *)
Lemma empty_table_left_out {T : Type} `{LmdbLaws T} (options : CopyOptions) (config : TableConfig) (src : T) `{Pages T} (s : CopyState (T := T)) :
  tb_items src = ∅ -> txn_ro (target s) = false -> txn_tables (target s) !! config_name config = None ->
  ti_tables (tgt_info s) = dom (txn_tables (target s)) -> bytesWritten s = 0 ->
  exists s', copy_into options (fun _ => false) config src s = Ok (Copied, s') /\ target s' = target s.
Proof.
  intros He Hrw Hnone Hinfo Hb. unfold copy_into. rewrite Hinfo, bool_decide_eq_false_2 by by apply not_elem_of_dom. cbn [negb andb].
  destruct (open_create (txn_tables (target s)) (config_name config) (config_dupsort config) Hnone) as (t & Eo & _ & _).
  unfold txn_open. rewrite Hrw, Eo. cbn [err_handler result_bind or_left]. rewrite lookup_insert_eq. cbn [or_left result_bind].
  unfold table_get_rcount. rewrite !stat_entries. cbn [err_handler or_left result_bind].
  pose proof (get_first src None [] []) as Hf. destruct (mdb_cursor_get src None MDB_FIRST [] []) as [x|[]|]; cbn in Hf; try done.
  { destruct Hf as [Hx _]. rewrite He in Hx. by apply elem_of_empty in Hx. }
  replace (copy_rows _ _ _ _ _ _ _ _ _ _ _ _) with (@Ok (DbError * Txn T) _ (t, target s, bytesWritten s, clock s)) by by destruct (rows src).
  cbn [result_bind]. rewrite Hb. cbn [negb andb Z.eqb]. by eexists.
Qed.

(** A source with the canonical hashes of three blocks, and an empty target. *)
#[local] Instance no_pages : Pages RefTable := {| table_size _ := 0; tables_size _ := 0; free_size _ := 0 |}.
Definition demo_source : Txn RefTable := mkTxn true {[config_name kCanonicalHashes := demo_canonical]}.
Definition demo_target : Txn RefTable := mkTxn false ∅.
Definition demo_options : CopyOptions := mkCopyOptions false false 0 [] [] (2 ^ 30).
Definition demo_environment : Environment := mkEnvironment 0 (2 ^ 20) true ∅ ∅.

Lemma demo_source_table name t : txn_tables demo_source !! Some name = Some t -> Some name = config_name kCanonicalHashes /\ t = demo_canonical.
Proof. unfold demo_source. cbn [txn_tables]. rewrite lookup_singleton_Some. by intros [<- <-]. Qed.

Lemma demo_copyable name : is_Some (txn_tables demo_source !! Some name) -> copyable demo_source name.
Proof.
  intros [t Ht] config Hcfg. exists t. destruct (demo_source_table name t Ht) as [En ->]. split; [exact Ht|].
  injection En as ->. vm_compute in Hcfg. injection Hcfg as <-. split; [reflexivity|]. split.
  - intros E. assert ((block_key 0, demo_hash 0) ∈ tb_items demo_canonical) as Hx by (apply ref_items_plain; vm_compute; reflexivity).
    rewrite E in Hx. by apply elem_of_empty in Hx.
  - intros x (n & Hn & ->)%demo_canonical_rows. split; [unfold key_fits, hash_row, block_key; cbn [fst]; rewrite !length_to_be; lia|]. split; [intros Hd; discriminate Hd|].
    unfold hash_row, demo_hash. cbn. lia.
Qed.

Lemma copy_correct_witness : exists tgt' log t',
  do_copy demo_options (fun _ => false) 4096 Ok demo_source demo_target demo_environment = Ok (0, tgt', log)
  /\ txn_tables tgt' !! config_name kCanonicalHashes = Some t' /\ tb_items t' = tb_items demo_canonical.
Proof.
  destruct (copy_correct demo_options 4096 Ok demo_source demo_target demo_environment) as (tgt' & log & E & Hcop & _).
  - reflexivity.
  - cbn. lia.
  - split; reflexivity.
  - reflexivity.
  - intros tbs t. cbn. lia.
  - exists "canonical_headers"%string. exists demo_canonical. reflexivity.
  - intros name Hname. split; [exact (demo_copyable name Hname)|reflexivity].
  - destruct (Hcop "canonical_headers"%string kCanonicalHashes demo_canonical) as (t' & Ht' & Hi); [reflexivity|reflexivity|].
    exists tgt', log, t'. split; [exact E|]. split; [exact Ht'|exact Hi].
Defined.
